(* ===== verification/_CoqProject ===== *)
-Q . S2P
Prelude.v
Text.v
Net.v
Application.v
Model.v
State.v
StateFacts.v
StateLearning.v
StateLearningFacts.v
Policy.v
Learning.v
Snapshots.v
Marks.v
Nftables.v
NftScript.v
NftPolicy.v
NftAlphabet.v
Iptables.v
IptScript.v
IptPolicy.v
Decision.v
Netlink.v
Packet.v
Scheduler.v
Progress.v
Capture.v
SocketDiag.v
SocketTables.v
Registry.v
Protocol.v
Bus.v
Pinning.v
Procfs.v
Owners.v
OwnerFacts.v
Resolution.v
ResolutionFacts.v
Attributed.v
OwnerCache.v
FastAttribution.v
Storage.v
Engine.v
EngineLearning.v
EngineControl.v
EngineLaws.v
EngineSafety.v
EngineRuns.v
Authority.v
Runtime.v
Verdicts.v
Enforcing.v
EnforcingSafety.v
Readers.v
ReplyQueue.v
LearningQueue.v
Attribution.v
QueueRuns.v
StorageLaws.v
Xtables.v
XtablesFacts.v
Commands.v
CommandFacts.v
XtablesWorlds.v
NftDocuments.v
NftBackend.v
IptBackend.v
SampleHost.v
WorldFacts.v
NftFacts.v
IptFacts.v
AutoBackend.v
