(* ===== verification/Prelude.v ===== *)
(** * OpenShield: a verification development

    OpenShield is a host firewall.  A policy of rules is kept by a privileged
    daemon, compiled to an nftables script or to two iptables programs, and
    completed at run time by decisions about applications: packets of outbound
    connections that an application rule may cover are queued to the daemon,
    which attributes them to a process, decides, and marks the flow.  This
    library models the parts of the workspace that decide what is allowed, as
    executable functions, and proves what makes them correct.

    ** Parts of the program and where they are modelled

    - [crates/openshield-core/src/application.rs]: [Application].  Paths,
      arguments, executable versions, selectors and identities; [matches],
      [learned_selector], redaction and the checked decoder.
    - [crates/openshield-core/src/model.rs]: [Model].  Rules and everything
      they are made of, with constructors, validation and redaction.
    - [crates/openshield-core/src/state.rs], [learning_limits.rs]: [State]
      (the record, validation, snapshots and every mutation), [StateLearning]
      (the two learners, templates, budgets, the admission index).  The record
      [State] has the fields of the struct; a method on [&mut self] is an [ST]
      computation that returns the mutated receiver also when it fails.
      [StateFacts] and [StateLearningFacts] say what each of them does.
    - [crates/openshield-core/src/nftables.rs]: [Marks] (mark arithmetic) and
      [Nftables] (the compiler, to the character).
    - [crates/openshield-core/src/iptables.rs]: [Iptables] (both programs of
      both families, to the character).
    - [crates/openshield-core/src/storage.rs]: [Storage] (the state file and
      its atomic replacement, over the class [FileSystem]).
    - [crates/openshield-protocol/src/lib.rs]: [Protocol] (requests, responses,
      errors, compatibility evidence, framing).
    - [crates/openshield-daemon/src/application.rs], lines 95 to 558:
      [Decision] (the indexed policy of the packet path and the process fields
      it needs) and [Pinning] (binding a rule to one executable version).
      Lines 560 to 3434, the resolver: [SocketDiag] (the conversation with the
      kernel about a socket, and the socket tables), [Procfs] (the files of
      processes), [Owners] (the scan of all tasks for the owners of sockets),
      [Resolution] (captures and the strict attribution of a batch).
    - [crates/openshield-daemon/src/application_fast.rs]: [OwnerCache] (recent
      owners, the fast strategy and the entry points of the resolver).
    - [crates/openshield-daemon/src/engine.rs], [compatibility.rs]: [Bus] (the
      observers), [Engine] (persistence, commit, learning transactions,
      emergency, repair, start-up, queries), [EngineLearning] (the transition
      check of a learning transaction), [EngineControl] (control requests).
      The record [Engine] has the fields of the struct over two interfaces, the
      firewall backend and the state store.
    - [crates/openshield-daemon/src/nfqueue.rs]: [Netlink] (framing), [Packet]
      (message attributes, IP and transport headers, batches), [Verdicts]
      (attribution plan, decision of a batch, recheck and verdict),
      [LearningQueue] (held packets, debouncing, the reader of the learning
      queue) and [Attribution] (the attribution thread).
    - [crates/openshield-daemon/src/nfqueue_scheduler.rs]: [Scheduler].
    - [crates/openshield-daemon/src/nfqueue_progress.rs]: [Progress] (admitted
      and answered packets, barriers) and [Capture] (the kernel's queue table).
    - [crates/openshield-daemon/src/nfqueue_reply.rs]: [Registry] (flows with
      packets under way, the reply parser, held replies) and [ReplyQueue] (the
      reader of the reply queue).
    - [crates/openshield-daemon/src/nfqueue_enforcing.rs]: [Enforcing] (the
      reader of the enforcing queue and its worker).

    - [crates/openshield-daemon/src/backend.rs]: [Commands] (trusted
      executables, processes with bounded output and a deadline), [Xtables]
      (what [iptables-save] prints and the normal form of its rules),
      [XtablesWorlds] (the search of the legacy and the nft implementation),
      [NftDocuments] and [NftBackend] (nftables), [IptBackend] (iptables),
      [AutoBackend] (the choice between them, an instance of the engine's
      interface).

    A state produces snapshots; a compiler turns a snapshot into rules whose
    queues deliver packets ([Netlink], [Packet]); they wait in the scheduler of
    the enforcing reader, are decided by [Decision] through [Verdicts], and
    their verdicts are accounted for by [Progress] and [Registry] before
    replies are let in by [ReplyQueue].  In learning mode [LearningQueue] lets
    packets pass and [Attribution] offers what they teach to the engine.

    ** The threads

    [Runtime] is the world of a queue thread: the shared engine and registry
    with their locks, the shutdown flag, the clock, the socket, the channels.
    Whatever other threads may do when a thread takes a lock or reads the flag
    is a list of turns that the world carries: any operation of the engine or
    of the registry, or a panic under the lock.  The theorems hold for all such
    lists, so for every interleaving at the points where the threads meet.
    [Authority] says how far an engine can move in the meantime, [Readers] is
    the interface that the reply and the learning reader implement.  What was
    sent is kept together with the engine, the registry and the time at that
    moment; the reply reader also keeps what it admitted, with the barrier and
    the time, a log that no operation reads.

    The resolver of [SocketDiag] to [OwnerCache] counts its readings of the
    clock and of [/proc]; both are functions of that count, so that anything
    may change between two readings.  The two threads of a scan take turns by
    an arbitrary list, a task at a time; the mutex of the owner cache is free or
    not by an arbitrary function, with the cache as others left it.

    The host of the backends is the class [Host]: what a started process does,
    and what the file system says, may depend on everything that was asked
    before.  The questions and answers are kept as a list of [HostEvent]s, and
    the theorems about the backends speak about that list.

    ** Conventions

    A Rust [String] is the list of its scalar values ([Text]); machine integers
    are integers with their width written out where it matters; maps with
    ordered keys are [gmap]s read in key order, and a hash map is read in any
    order ([HashOrder]); identifiers and clock readings that the source draws
    are arguments.  Errors are values of [Result]; [anyhow] errors are named by
    the place that raises them.  Library code outside the repository is an
    interface with documented laws: [IpNetLib]/[IpNetLaws] for the ipnet crate
    (with [ref_ipnet], an instance used by witnesses), [JsonLib] for the JSON
    encoder (with [ref_json]), [FileSystem] for std::fs, a function for the
    interface table of the operating system.  The firewall backend and the
    state store are classes with laws; [EngineRuns] has scripted instances.
    [usize] is 64 bits wide; [Target] fixes the byte order where netlink uses
    the host's.

    ** What is shown

    - [Policy]: every state reachable by any sequence of operations is valid;
      events carry consecutive revisions; failures change nothing; rule edits
      do exactly what they say; and an unchanged flow generation means that no
      authorization was withdrawn.
    - [Learning]: budgets, deduplication and provenance of learned rules, and
      the agreement of the admission index with the learner.
    - [Snapshots]: round trip, observer views, paging, the interception class.
    - [Marks]: domains, retries and generations at 32 bits.
    - [NftScript]: the compiled text is the print of typed lines.  [NftPolicy]
      reads the lines as nftables does (in order, the first verdict ends the
      chain; which matches hold for a packet is a parameter): denials win,
      accepts are justified, queues are not bypassed, blocking is
      unconditional.  [NftAlphabet]: rule values cannot alter the structure of
      the script.  [IptScript] and [IptPolicy] do the same for iptables, and
      show that every packet of the output chain is dropped, rejected, queued or
      justified, and that both families and both compilers use the same rules.
    - [Decision]: the index changes no decision, denials decide, and the
      process fields that are read suffice.  [Pinning]: a pinned rule matches
      one version of one file.
    - [SocketDiag], [SocketTables]: the socket of a connection is found in what
      the kernel reports, however that is cut, and nothing else is; answers
      beyond the limits of the source are errors.
    - [OwnerFacts], [ResolutionFacts], [Attributed]: every connection gets a
      result, and an application that is attributed owned the socket, alone,
      before and after its identity was captured; every task that holds the
      socket runs that application; the socket of a request is the one that was
      looked up for it, at its turn.  [FastAttribution]: the fast strategy is as
      certain for the processes it searches, which are those of all fresh hints
      of the user of the socket, never mixes its results with strict ones, and
      its cache is bounded.
    - [Netlink], [Packet]: no datagram fails a bounds check; what is parsed is
      what the headers hold; round trips.
    - [Scheduler]: insertion and batches lose nothing, keep flows in order and
      starve no user.
    - [Progress]: refinement of an unbounded history by 32-bit serial numbers,
      and replies wait exactly for their own flow.  [Capture]: the barrier that
      is read is the one the kernel printed.  [Registry]: refinement of the
      waves of a flow as logs of what was begun and settled.
    - [EngineLaws], [EngineSafety], [EngineRuns]: over all sequences of engine
      operations, with a learning thread that persists in between: the kernel
      follows the resident state or is known to be lost, the file is accounted
      for, requests are atomic, blocking overtakes learning, no writer is
      stuck, start-up and failures lock.  The start-up policy may be activated
      at any moment, so that a run carries how its activation went: in time,
      after a failure (the policy then replaces the quarantine of a locked
      engine), or with an error.  [StorageLaws]: the file is replaced
      atomically, what was saved is loaded, and a restart after an emergency
      loads a blocking state.
    - [CommandFacts]: a wait ends at its deadline, what is kept of an output is
      its beginning, and a trusted executable can be replaced by root only.
      [XtablesFacts]: when the rules of both tables equal those of a program in
      normal form, each chain holds the rules of the program in order, and is
      reached from the built-in chains.  [WorldFacts]: after a report that nothing
      was left behind, every trusted executable was identified with a backend
      that is the one in use or was listed clean by an executable identified
      just before, or is the same file as such an executable.  [NftFacts]: an accepted
      observation is the table of the program, and transactions are guarded.
      [IptFacts]: a program is written only after both families were seen
      closed, and success and every later observation mean that both were
      seen with its rules.  [AutoBackend]: success means installed, for either
      backend.  [SampleHost] is a host on which the examples run.
    - [Bus]: observers miss nothing silently.  [Protocol]: frames and error
      messages round-trip within their bounds.
    - [EnforcingSafety]: a packet of the enforcing queue passes only if the
      policy that holds at the moment of its verdict permits it, for the
      process that was found behind it or for any; every packet is answered
      once, the backlog is bounded, a failed reader locks the engine for good.
    - [ReplyQueue]: replies are dropped, or repeated into the kernel's current
      policy within their lifetime, after their backoff, once the packets of
      their flow up to their own barrier were answered and the registry was
      ready; each is answered once.
    - [LearningQueue]: packets pass unseen only while the engine is learning,
      under the generation they were admitted in; every held packet is released
      by its deadline.  [Attribution]: every flow that a held packet waits for
      is completed, found or not; the batches have each flow and each endpoint
      once.  [QueueRuns] has concrete runs of the readers.

    ** Bounds

    Loops over data are structural.  The netlink iterators take fuel, one step
    more than there are bytes, and every step advances the offset; [take_batch]
    gets as many turns as a batch has slots, and every turn takes a packet;
    both are proved to be enough, more fuel giving the same result.  The reads
    of the queue table are as many as the source allows.  Reading a file of
    [/proc] has one step more than the file has bytes, and a step that does not
    end the file takes a byte; an answer of the kernel is a list of events.
    Waiting for a process has one round per interval of its timeout and two
    more, enough for a clock that advances while the thread sleeps.  IPv6
    extension headers are bounded by the source itself.  The readers run until shutdown:
    their fuel is the number of rounds, the theorems hold for each number, and
    a reader that fails or stops earlier returns as the code does.

    ** What is not modelled

    Opening and polling the queue sockets, the control socket, the monitor
    thread with its configuration file, start-up and the terminal client are
    input and output; their results are arguments of the model where modelled
    code uses them.  Of the backends the texts of error reports are left out;
    what nft and iptables do is the host's answer, so that the theorems say what
    was asked and seen, not what the kernel does with it.  Panics inside modelled functions are not among
    the turns of their own thread: [Packet] shows that parsing cannot panic,
    and the unwinding handlers of the readers are the failure path that
    [ReplyQueue] and [Enforcing] model.  Log output and timing records are left
    out, as are operations under [cfg(test)]. *)

From stdpp Require Export prelude gmap sorting strings.
From Stdlib Require Export ZArith Lia.

(** ** Results and the error monad

    Rust's [Result<A, E>]; [Result E] is a monad whose bind is the [?]
    operator. *)

Inductive Result (E A : Type) : Type :=
| Ok (a : A)
| Err (e : E).
Arguments Ok {E A} a.
Arguments Err {E A} e.

#[export] Instance Result_ret E : MRet (Result E) := fun A a => Ok a.
#[export] Instance Result_bind E : MBind (Result E) := fun A B f m =>
  match m with Ok a => f a | Err e => Err e end.
#[export] Instance Result_fmap E : FMap (Result E) := fun A B f m =>
  match m with Ok a => Ok (f a) | Err e => Err e end.
#[export] Instance Result_eq_dec E A `{EqDecision E, EqDecision A} : EqDecision (Result E A).
Proof. solve_decision. Defined.

(** [map_err] *)
Definition map_err {E F A} (f : E -> F) (m : Result E A) : Result F A :=
  match m with Ok a => Ok a | Err e => Err (f e) end.

(** [ok_or] *)
Definition ok_or {E A} (e : E) (o : option A) : Result E A :=
  match o with Some a => Ok a | None => Err e end.

(** [Result::ok] *)
Definition ok {E A} (m : Result E A) : option A :=
  match m with Ok a => Some a | Err _ => None end.

Definition is_ok {E A} (m : Result E A) : bool :=
  match m with Ok _ => true | Err _ => false end.

(** An early return [if b { return Err(e); }]. *)
Definition fail_if {E} (b : bool) (e : E) : Result E unit :=
  if b then Err e else Ok tt.

(** [anyhow::ensure!(b, e)]. *)
Definition ensure {E} (b : bool) (e : E) : Result E unit :=
  if b then Ok tt else Err e.

(** ** Mutable receivers

    A method on [&mut self] returning [Result<A, E>] is a state transformer
    that hands back the possibly mutated receiver in both outcomes: an error
    does not undo mutations that were made before it. *)

Definition ST (S E A : Type) : Type := S -> S * Result E A.

#[export] Instance ST_ret S E : MRet (ST S E) := fun A a s => (s, Ok a).
#[export] Instance ST_bind S E : MBind (ST S E) := fun A B f m s =>
  match m s with
  | (s', Ok a) => f a s'
  | (s', Err e) => (s', Err e)
  end.

Definition get {S E} : ST S E S := fun s => (s, Ok s).
Definition modify {S E} (f : S -> S) : ST S E unit := fun s => (f s, Ok tt).
Definition lift {S E A} (m : Result E A) : ST S E A := fun s => (s, m).
(** A result that is looked at instead of returned. *)
Definition attempt {S E E' A} (m : ST S E A) : ST S E' (Result E A) := fun s =>
  let '(s', r) := m s in (s', Ok r).

(** ** Machine integers *)

Definition U16_MAX : Z := 65535.
Definition U32_MAX : Z := 4294967295.
Definition U64_MAX : Z := 18446744073709551615.
(** [usize] on the 64-bit targets. *)
Definition USIZE_MAX : Z := U64_MAX.

Definition u32_wrap (z : Z) : Z := z mod 2 ^ 32.
Definition u32_wrapping_add (a b : Z) : Z := u32_wrap (a + b).
Definition u32_wrapping_sub (a b : Z) : Z := u32_wrap (a - b).
Definition u32_checked_add (a b : Z) : option Z :=
  if decide (a + b <= U32_MAX)%Z then Some (a + b)%Z else None.
Definition u64_checked_add (a b : Z) : option Z :=
  if decide (a + b <= U64_MAX)%Z then Some (a + b)%Z else None.
Definition u64_saturating_add (a b : Z) : Z := Z.min (a + b) U64_MAX.
Definition usize_checked_add := u64_checked_add.
Definition usize_checked_sub (a b : Z) : option Z :=
  if decide (b <= a)%Z then Some (a - b)%Z else None.
Definition usize_saturating_add := u64_saturating_add.
Definition usize_saturating_sub (a b : Z) : Z := Z.max (a - b) 0.

(** [Vec::len], [slice::len] as a machine-width quantity. *)
Definition zlen {A} (l : list A) : Z := Z.of_nat (length l).

(** [Option::is_none_or], [Option::is_some_and], [Option::is_some]. *)
Definition is_none_or {A} (f : A -> bool) (o : option A) : bool :=
  match o with None => true | Some a => f a end.
Definition is_some_and {A} (f : A -> bool) (o : option A) : bool :=
  match o with None => false | Some a => f a end.
Definition is_some {A} (o : option A) : bool := match o with Some _ => true | None => false end.
Definition is_none {A} (o : option A) : bool := negb (is_some o).

(** Decidable equality as the [==] of derived [PartialEq]. *)
Definition eqb `{EqDecision A} (x y : A) : bool := bool_decide (x = y).
Declare Scope shield_scope.
Delimit Scope shield_scope with shield.
Infix "==?" := eqb (at level 70, no associativity) : shield_scope.
Notation "x !=? y" := (negb (eqb x y)) (at level 70, no associativity) : shield_scope.
#[global] Open Scope shield_scope.

(** ** Generic lemmas *)

Section Results.
Context {E A B : Type}.
Implicit Types (m : Result E A) (f : A -> Result E B).

Lemma bind_Ok_inv m f b : m ≫= f = Ok b <-> exists a, m = Ok a /\ f a = Ok b.
Proof. destruct m; simpl; naive_solver. Qed.

Lemma bind_Err_inv m f e :
  m ≫= f = Err e <-> m = Err e \/ exists a, m = Ok a /\ f a = Err e.
Proof. destruct m; simpl; naive_solver. Qed.
End Results.

Lemma seq_Ok {E B} (m : Result E unit) (k : Result E B) b :
  (m ;; k) = Ok b <-> m = Ok tt /\ k = Ok b.
Proof. destruct m as [[]|]; simpl; naive_solver. Qed.

(** *** Running state computations *)

Section Runs.
Context {S E A B : Type}.
Implicit Types (s : S).

Lemma run_get (f : S -> ST S E B) s : (get ≫= f) s = f s s.
Proof. done. Qed.
Lemma run_lift (m : Result E A) (f : A -> ST S E B) s :
  (lift m ≫= f) s = match m with Ok a => f a s | Err e => (s, Err e) end.
Proof. by destruct m. Qed.
Lemma run_modify (g : S -> S) (f : unit -> ST S E B) s : (modify g ≫= f) s = f tt (g s).
Proof. done. Qed.
Lemma run_mret (a : A) (f : A -> ST S E B) s : (mret a ≫= f) s = f a s.
Proof. done. Qed.
Lemma run_bind (m : ST S E A) (f : A -> ST S E B) s :
  (m ≫= f) s = let '(s', r) := m s in match r with Ok a => f a s' | Err e => (s', Err e) end.
Proof. unfold mbind, ST_bind. by destruct (m s) as [? []]. Qed.
End Runs.

Section RunInversion.
Context {S E A B : Type}.
Implicit Types (s : S) (f : A -> ST S E B).

Lemma run_lift_Ok (m : Result E A) f s s' b :
  (lift m ≫= f) s = (s', Ok b) <-> exists a, m = Ok a /\ f a s = (s', Ok b).
Proof. rewrite run_lift. destruct m; naive_solver. Qed.
Lemma run_seq_Ok (m : Result E unit) (k : ST S E B) s s' b :
  (lift m ;; k) s = (s', Ok b) <-> m = Ok tt /\ k s = (s', Ok b).
Proof. rewrite run_lift. destruct m as [[]|]; naive_solver. Qed.
Lemma run_bind_Ok (m : ST S E A) f s s' b :
  (m ≫= f) s = (s', Ok b) <-> exists a s1, m s = (s1, Ok a) /\ f a s1 = (s', Ok b).
Proof. rewrite run_bind. destruct (m s) as [s1 [a|e]]; naive_solver. Qed.
Lemma run_bind_Err (m : ST S E A) f s s' e :
  (m ≫= f) s = (s', Err e) <->
  m s = (s', Err e) \/ exists a s1, m s = (s1, Ok a) /\ f a s1 = (s', Err e).
Proof. rewrite run_bind. destruct (m s) as [s1 [a|e']]; naive_solver. Qed.
Lemma run_ret (a a' : A) s s' :
  (mret a : ST S E A) s = (s', Ok a') <-> s' = s /\ a' = a.
Proof. unfold mret, ST_ret. naive_solver. Qed.
End RunInversion.

(** *** What a computation does to its state, whatever its result

    [always R m]: the states before and after [m] are related by [R]. *)
Definition always {S E A} (R : S -> S -> Prop) (m : ST S E A) : Prop := forall s, R s (m s).1.

Section Always.
Context {S E : Type} (R : S -> S -> Prop) `{!PreOrder R}.

Lemma always_lift {A} (r : Result E A) : always R (lift r).
Proof. intros s. unfold lift. reflexivity. Qed.
Lemma always_ret {A} (a : A) : always R (mret a : ST S E A).
Proof. intros s. cbn. reflexivity. Qed.
Lemma always_get : always R (get : ST S E S).
Proof. intros s. cbn. reflexivity. Qed.
Lemma always_modify (f : S -> S) : (forall s, R s (f s)) -> always R (modify f : ST S E unit).
Proof. done. Qed.
Lemma always_bind {A B} (m : ST S E A) (k : A -> ST S E B) :
  always R m -> (forall a, always R (k a)) -> always R (m ≫= k).
Proof.
  intros Hm Hk s. rewrite run_bind. specialize (Hm s). destruct (m s) as [s' [a|e]]; [|done].
  etrans; [exact Hm|apply Hk].
Qed.
End Always.

(** *** Pre- and postconditions

    [runs P m Q X]: from every state with [P], [m] ends with [Q] or fails with [X]. *)
Definition runs {S E A} (P : S -> Prop) (m : ST S E A) (Q : A -> S -> Prop) (X : S -> Prop) : Prop :=
  forall s, P s -> match m s with (s', Ok a) => Q a s' | (s', Err _) => X s' end.

Section Runs.
Context {S E : Type}.

Lemma runs_bind {A A'} (P : S -> Prop) (m : ST S E A) (k : A -> ST S E A') Q R X :
  runs P m Q X -> (forall a, runs (Q a) (k a) R X) -> runs P (m ≫= k) R X.
Proof.
  intros Hm Hk s Hs. rewrite run_bind. specialize (Hm s Hs). destruct (m s) as [s' [a|e]]; [|done].
  by apply Hk.
Qed.

Lemma runs_assoc {A A' A''} (m : ST S E A) (f : A -> ST S E A') (g : A' -> ST S E A'') (P : S -> Prop) Q X :
  runs P ((m ≫= f) ≫= g) Q X -> runs P (m ≫= fun a => f a ≫= g) Q X.
Proof.
  intros Hm s Hs. specialize (Hm s Hs). rewrite !run_bind in Hm. rewrite run_bind.
  destruct (m s) as [s' [a|]]; [|done]. by rewrite run_bind.
Qed.

Lemma runs_ret {A} (a : A) (P : S -> Prop) Q X :
  (forall s, P s -> Q a s) -> runs P (mret a : ST S E A) Q X.
Proof. intros HQ s Hs. by apply HQ. Qed.

Lemma runs_lift {A} (r : Result E A) (P : S -> Prop) Q X :
  (forall s a, P s -> r = Ok a -> Q a s) -> (forall s, P s -> X s) -> runs P (lift r) Q X.
Proof. intros HQ HX s Hs. unfold lift. destruct r; [by apply HQ|by apply HX]. Qed.

Lemma runs_lift_Ok {A A'} (a : A) (k : A -> ST S E A') (P : S -> Prop) Q X :
  runs P (k a) Q X -> runs P (lift (Ok a) ≫= k) Q X.
Proof. done. Qed.

Lemma runs_modify (f : S -> S) (P : S -> Prop) Q X :
  (forall s, P s -> Q tt (f s)) -> runs P (modify f : ST S E unit) Q X.
Proof. intros HQ s Hs. by apply HQ. Qed.

Lemma runs_get {A} (k : S -> ST S E A) (P : S -> Prop) Q X :
  (forall s0, runs (fun s => P s /\ s = s0) (k s0) Q X) -> runs P (get ≫= k) Q X.
Proof. intros Hk s Hs. rewrite run_get. by apply (Hk s s). Qed.

Lemma runs_pre {A} (P P' : S -> Prop) (m : ST S E A) Q X :
  (forall s, P s -> P' s) -> runs P' m Q X -> runs P m Q X.
Proof. intros HP Hm s Hs. by apply Hm, HP. Qed.

Lemma runs_post {A} (P : S -> Prop) (m : ST S E A) (Q Q' : A -> S -> Prop) X :
  (forall a s, Q' a s -> Q a s) -> runs P m Q' X -> runs P m Q X.
Proof.
  intros HQ Hm s Hs. specialize (Hm s Hs). destruct (m s) as [s' [a|e]]; [by apply HQ|done].
Qed.

(** Facts about the result of [m] that do not depend on its states. *)
Lemma runs_value {A} (P : S -> Prop) (m : ST S E A) Q X (F : A -> Prop) :
  runs P m Q X -> (forall s s' a, m s = (s', Ok a) -> F a) -> runs P m (fun a s => F a /\ Q a s) X.
Proof.
  intros Hm HF s Hs. specialize (Hm s Hs). destruct (m s) as [s' [a|e]] eqn:Em; [|done].
  split; [by eapply HF|done].
Qed.

Lemma runs_pure {A} (F : Prop) (P : S -> Prop) (m : ST S E A) Q X :
  (forall s, P s -> F) -> (F -> runs P m Q X) -> runs P m Q X.
Proof. intros HF Hm s Hs. apply Hm; [by eapply HF|done]. Qed.

Lemma runs_known {A} (F : Prop) (P P' : S -> Prop) (m : ST S E A) Q X :
  (F -> runs (fun s => P s /\ P' s) m Q X) -> runs (fun s => (F /\ P s) /\ P' s) m Q X.
Proof. intros Hm s [[HF HP] HP']. by apply Hm. Qed.
End Runs.

(** *** Failing without side effects

    [ErrSafe m]: when [m] reports an error it has not changed the state.
    [NoFail m]: [m] cannot report an error.  Both are derived by instance
    resolution along the structure of [m]. *)

Class ErrSafe {S E A} (m : ST S E A) : Prop :=
  err_safe : forall s s' e, m s = (s', Err e) -> s' = s.
Class NoFail {S E A} (m : ST S E A) : Prop :=
  no_fail : forall s s' e, m s <> (s', Err e).

Section Effects.
Context {S E : Type}.

#[export] Instance ErrSafe_lift {A} (m : Result E A) : ErrSafe (S := S) (lift m).
Proof. intros s s' e. unfold lift. naive_solver. Qed.
#[export] Instance ErrSafe_get_bind {B} (f : S -> ST S E B) :
  (forall x, ErrSafe (f x)) -> ErrSafe (get ≫= f).
Proof. intros Hf s s' e. rewrite run_get. apply Hf. Qed.
#[export] Instance ErrSafe_lift_bind {A B} (m : Result E A) (f : A -> ST S E B) :
  (forall x, ErrSafe (f x)) -> ErrSafe (lift m ≫= f).
Proof. intros Hf s s' e. rewrite run_lift. destruct m; [apply Hf|naive_solver]. Qed.
#[export] Instance NoFail_ErrSafe {A} (m : ST S E A) : NoFail m -> ErrSafe m | 10.
Proof. intros Hm s s' e H. by apply Hm in H. Qed.
#[export] Instance NoFail_ret {A} (a : A) : NoFail (S := S) (E := E) (mret a).
Proof. by intros s s' e. Qed.
#[export] Instance NoFail_modify (g : S -> S) : NoFail (E := E) (modify g).
Proof. by intros s s' e. Qed.
#[export] Instance NoFail_bind {A B} (m : ST S E A) (f : A -> ST S E B) :
  NoFail m -> (forall x, NoFail (f x)) -> NoFail (m ≫= f).
Proof.
  intros Hm Hf s s' e. rewrite run_bind. destruct (m s) as [s1 [a|e']] eqn:Hr; [apply Hf|].
  by apply Hm in Hr.
Qed.
End Effects.

Lemma fail_if_Ok {E} b (e : E) x : fail_if b e = Ok x <-> b = false.
Proof. destruct b, x; simpl; naive_solver. Qed.

Lemma fail_if_Err {E} b (e e' : E) : fail_if b e = Err e' <-> b = true /\ e' = e.
Proof. destruct b; simpl; naive_solver. Qed.

Lemma ensure_Ok {E} b (e : E) x : ensure b e = Ok x <-> b = true.
Proof. destruct b, x; simpl; naive_solver. Qed.

Lemma ensure_Err {E} b (e e' : E) : ensure b e = Err e' <-> b = false /\ e' = e.
Proof. destruct b; simpl; naive_solver. Qed.

Lemma map_err_Ok {E F A} (f : E -> F) (m : Result E A) a : map_err f m = Ok a <-> m = Ok a.
Proof. destruct m; simpl; naive_solver. Qed.

Lemma ok_or_Ok {E A} (e : E) (o : option A) a : ok_or e o = Ok a <-> o = Some a.
Proof. destruct o; simpl; naive_solver. Qed.

Lemma eqb_true `{EqDecision A} (x y : A) : eqb x y = true <-> x = y.
Proof. unfold eqb. apply bool_decide_eq_true. Qed.

Lemma eqb_false `{EqDecision A} (x y : A) : eqb x y = false <-> x <> y.
Proof. unfold eqb. apply bool_decide_eq_false. Qed.

Lemma eqb_refl `{EqDecision A} (x : A) : eqb x x = true.
Proof. by apply eqb_true. Qed.

Lemma is_some_true {A} (o : option A) : is_some o = true <-> exists a, o = Some a.
Proof. destruct o; simpl; naive_solver. Qed.

Lemma is_some_false {A} (o : option A) : is_some o = false <-> o = None.
Proof. destruct o; simpl; naive_solver. Qed.

Lemma is_none_true {A} (o : option A) : is_none o = true <-> o = None.
Proof. unfold is_none. destruct o; simpl; naive_solver. Qed.

Lemma is_none_false {A} (o : option A) : is_none o = false <-> exists a, o = Some a.
Proof. unfold is_none. destruct o; simpl; naive_solver. Qed.

Lemma u64_checked_add_Some a b c :
  u64_checked_add a b = Some c <-> (c = a + b /\ a + b <= U64_MAX)%Z.
Proof. unfold u64_checked_add. case_decide; naive_solver. Qed.

Lemma zlen_nonneg {A} (l : list A) : (0 <= zlen l)%Z.
Proof. unfold zlen. lia. Qed.

Lemma zlen_app {A} (xs ys : list A) : zlen (xs ++ ys) = (zlen xs + zlen ys)%Z.
Proof. unfold zlen. rewrite length_app. lia. Qed.

Lemma elem_of_filter_bool {A} (p : A -> bool) xs x :
  x ∈ List.filter p xs <-> x ∈ xs /\ p x = true.
Proof. rewrite !list_elem_of_In. apply filter_In. Qed.

Lemma filter_perm {A} (p : A -> bool) (l l' : list A) :
  l ≡ₚ l' -> List.filter p l ≡ₚ List.filter p l'.
Proof.
  induction 1 as [|x l l' _ IH|x y l|]; simpl; [done|by destruct (p x); rewrite ?IH| |by etrans].
  destruct (p x), (p y); try done. apply Permutation_swap.
Qed.

Lemma filter_filter_bool {A} (p q : A -> bool) xs :
  List.filter q (List.filter p xs) = List.filter (fun x => p x && q x) xs.
Proof.
  induction xs as [|x xs IH]; [done|]. cbn [List.filter].
  destruct (p x); cbn [List.filter andb]; [destruct (q x)|]; by rewrite ?IH.
Qed.

Lemma filter_sorted {A} (R : relation A) (p : A -> bool) l :
  StronglySorted R l -> StronglySorted R (List.filter p l).
Proof.
  induction 1 as [|x l Hs IH Hall]; [constructor|]. cbn [List.filter].
  destruct (p x); [|done]. constructor; [done|]. rewrite Forall_forall in *.
  intros y [Hy _]%elem_of_filter_bool. by apply Hall.
Qed.

(** The rewriting base that turns successful runs into their branch
    conditions. *)
Create HintDb shield discriminated.
Create Rewrite HintDb result.
#[export] Hint Rewrite @seq_Ok @bind_Ok_inv @fail_if_Ok @ensure_Ok @map_err_Ok @ok_or_Ok
  @eqb_true @eqb_false @is_some_true @is_some_false @is_none_true @is_none_false
  u64_checked_add_Some
  andb_true_iff orb_false_iff negb_true_iff negb_false_iff
  Z.leb_le Z.ltb_lt Z.leb_gt Z.ltb_ge Z.eqb_eq Z.eqb_neq : result.

(** [inv_ok H] decomposes a hypothesis [run = Ok x] into the conditions of
    every step on the way. *)
Ltac inv_ok H :=
  lazymatch type of H with
  | mbind _ _ = Ok _ =>
      let v := fresh "v" in let Hv := fresh H in
      apply bind_Ok_inv in H as (v & Hv & H);
      try match type of v with unit => destruct v end;
      inv_ok Hv; inv_ok H
  | mret _ = Ok _ => cbv [mret Result_ret] in H; simplify_eq
  | _ => autorewrite with result in H; destruct_and?; simplify_eq/=
  end.

(** [inv_run H] does the same for a hypothesis [run s = (s', Ok x)]. *)
Ltac inv_run H :=
  lazymatch type of H with
  | (get ≫= _) _ = _ => rewrite run_get in H; inv_run H
  | (modify _ ≫= _) _ = _ => rewrite run_modify in H; inv_run H
  | (lift _ ≫= _) _ = (_, Ok _) =>
      let v := fresh "v" in let Hv := fresh H in
      apply run_lift_Ok in H as (v & Hv & H);
      try match type of v with unit => destruct v end;
      inv_ok Hv; inv_run H
  | mret _ _ = (_, Ok _) => apply run_ret in H as [-> ?]; simplify_eq/=
  | _ => idtac
  end.

(** Walks through a computation for [always]; [tac] closes its primitive steps. *)
Ltac always_by tac :=
  repeat lazymatch goal with
  | |- always _ (lift _) => apply always_lift; exact _
  | |- always _ (mret _) => apply always_ret; exact _
  | |- always _ get => apply always_get; exact _
  | |- always _ (_ ≫= _) => apply always_bind; [exact _| |intros ?]
  | |- always _ (modify _) => apply always_modify; solve [tac]
  | |- _ => first [solve [tac] | progress case_match]
  end.

(** Equal concatenations, one part at a time. *)
Ltac same_part_by tac := apply (f_equal2 app); [solve [reflexivity | tac]|].
Ltac same_part := same_part_by fail.

(** Case analysis on every test of the goal, in order. *)
Ltac case_all :=
  repeat (case_match; simplify_eq/=).
