(* ===== verification/Text.v ===== *)
(** * Rust text

    A Rust [String] is a sequence of Unicode scalar values stored as UTF-8.
    It is modelled as the list of its [char]s (as integers); [byte_len] is
    [str::len].  The functions below are the parts of [core::str],
    [core::char] and [core::fmt] that the sources use, and the escape alphabet
    shared by every validator of the workspace. *)

From Stdlib Require Import DecimalString DecimalN DecimalPos.
From S2P Require Import Prelude.
Local Open Scope Z_scope.

Abbreviation char := Z (only parsing).
Abbreviation ustring := (list Z) (only parsing).

(** An ASCII literal of the sources. *)
Fixpoint lit (s : string) : ustring :=
  match s with
  | EmptyString => []
  | String a s' => Z.of_N (Ascii.N_of_ascii a) :: lit s'
  end.

(** [char::len_utf8] and [str::len]. *)
Definition len_utf8 (c : char) : Z :=
  if c <? 0x80 then 1 else if c <? 0x800 then 2 else if c <? 0x10000 then 3 else 4.
Definition byte_len (s : ustring) : Z := foldr (fun c n => len_utf8 c + n) 0 s.

(** [lo..=hi] as a pattern. *)
Definition in_range (lo hi c : char) : bool := (lo <=? c) && (c <=? hi).

(** [char::is_control]: general category Cc. *)
Definition is_control (c : char) : bool := in_range 0 0x1f c || in_range 0x7f 0x9f c.

(** [char::is_whitespace]: the White_Space property. *)
Definition is_whitespace (c : char) : bool :=
  in_range 0x09 0x0d c || (c =? 0x20) || (c =? 0x85) || (c =? 0xa0) || (c =? 0x1680)
  || in_range 0x2000 0x200a c || (c =? 0x2028) || (c =? 0x2029) || (c =? 0x202f)
  || (c =? 0x205f) || (c =? 0x3000).

(** The invisible formatting and bidirectional-override characters that every
    validator of the workspace lists with the same [matches!] pattern. *)
Definition is_format_spoof (c : char) : bool :=
  (c =? 0x061c) || in_range 0x200b 0x200f c || in_range 0x202a 0x202e c
  || in_range 0x2060 0x206f c || (c =? 0xfeff).

Fixpoint trim_start (s : ustring) : ustring :=
  match s with
  | c :: s' => if is_whitespace c then trim_start s' else s
  | [] => []
  end.
Definition trim (s : ustring) : ustring := rev (trim_start (rev (trim_start s))).

Fixpoint starts_with (p s : ustring) : bool :=
  match p, s with
  | [], _ => true
  | c :: p', d :: s' => (c =? d) && starts_with p' s'
  | _ :: _, [] => false
  end.
Definition ends_with (p s : ustring) : bool := starts_with (rev p) (rev s).

(** [str::split] on one character. *)
Fixpoint split_char (sep : char) (s : ustring) : list ustring :=
  match s with
  | [] => [[]]
  | c :: s' =>
      if c =? sep then [] :: split_char sep s'
      else match split_char sep s' with
           | w :: ws => (c :: w) :: ws
           | [] => [[c]]
           end
  end.

(** [u8::is_ascii_alphanumeric]. *)
Definition is_ascii_alphanumeric (c : char) : bool :=
  in_range 48 57 c || in_range 65 90 c || in_range 97 122 c.

(** Decimal [Display] of an unsigned integer. *)
Definition dec (n : Z) : ustring := lit (NilZero.string_of_uint (N.to_uint (Z.to_N n))).

(** [{:0wx}]: at least [w] lower-case hexadecimal digits. *)
Definition hex_digit (d : Z) : char := if d <? 10 then 48 + d else 87 + d.
Fixpoint hex_fixed (w : nat) (v : Z) : ustring :=
  match w with
  | O => []
  | S w' => hex_fixed w' (v / 16) ++ [hex_digit (v mod 16)]
  end.
Definition nibbles (v : Z) : nat := Z.to_nat (Z.log2 v / 4 + 1).
Definition hex_pad (w : nat) (v : Z) : ustring := hex_fixed (Nat.max w (nibbles v)) v.

(** ** Facts *)

Lemma lit_app a b : lit (a +:+ b) = lit a ++ lit b.
Proof. induction a as [|c a IH]; [done|]. change (lit (String c (a +:+ b)) = lit (String c a) ++ lit b). simpl. by rewrite IH. Qed.

Lemma lit_inj a b : lit a = lit b -> a = b.
Proof.
  revert b; induction a as [|x a IH]; intros [|y b]; simpl; try done.
  intros [= Hxy Hab]. apply N2Z.inj in Hxy.
  apply (f_equal Ascii.ascii_of_N) in Hxy. rewrite !Ascii.ascii_N_embedding in Hxy.
  f_equal; auto.
Qed.

Lemma to_uint_nonnil n : N.to_uint n <> Decimal.Nil.
Proof. destruct n; [done|]. apply DecimalPos.Unsigned.to_uint_nonnil. Qed.

Lemma dec_inj a b : 0 <= a -> 0 <= b -> dec a = dec b -> a = b.
Proof.
  intros Ha Hb H%lit_inj.
  apply (f_equal NilZero.uint_of_string) in H.
  rewrite !NilZero.usu in H; [|apply to_uint_nonnil..].
  apply (f_equal (option_map N.of_uint)) in H. simpl in H.
  rewrite !DecimalN.Unsigned.of_to in H. injection H as H. lia.
Qed.

Lemma byte_len_app a b : byte_len (a ++ b) = byte_len a + byte_len b.
Proof. induction a; simpl; lia. Qed.

Lemma len_utf8_bounds c : 1 <= len_utf8 c <= 4.
Proof. unfold len_utf8. repeat case_match; lia. Qed.

Lemma byte_len_bounds s : zlen s <= byte_len s <= 4 * zlen s.
Proof.
  unfold zlen. induction s as [|c s IH]; simpl; [lia|].
  pose proof (len_utf8_bounds c). lia.
Qed.

Lemma starts_with_spec p s : starts_with p s = true <-> exists t, s = p ++ t.
Proof.
  revert s; induction p as [|c p IH]; intros [|d s]; simpl.
  - split; eauto.
  - split; eauto.
  - split; [done|]. by intros [t Ht].
  - rewrite andb_true_iff, Z.eqb_eq, IH. split.
    + intros [-> [t ->]]. by exists t.
    + intros [t [= -> ->]]. eauto.
Qed.

Lemma split_char_nonempty sep s : split_char sep s <> [].
Proof. destruct s; simpl; repeat case_match; done. Qed.
