(* ===== verification/Net.v ===== *)
(** * Addresses and networks

    [std::net::IpAddr] with its [Display], and the interface of the [ipnet]
    crate, which is not part of the repository: its operations are fields of
    [IpNetLib] and the documented behaviour the sources rely on is
    [IpNetLaws].  [ref_ipnet] is a concrete instance used by witnesses. *)

From S2P Require Import Prelude Text.
Local Open Scope Z_scope.

(** [std::net::IpAddr]; the payload is the big-endian integer value. *)
Inductive IpAddr : Type :=
| IpV4 (a : Z)
| IpV6 (a : Z).

#[export] Instance IpAddr_eq_dec : EqDecision IpAddr.
Proof. solve_decision. Defined.
#[export] Instance IpAddr_countable : Countable IpAddr.
Proof.
  refine (inj_countable' (fun a => match a with IpV4 a => inl a | IpV6 a => inr a end)
    (fun s => match s with inl a => IpV4 a | inr a => IpV6 a end) _).
  by intros [].
Defined.

Definition is_ipv4 (a : IpAddr) : bool := match a with IpV4 _ => true | IpV6 _ => false end.
Definition is_ipv6 (a : IpAddr) : bool := match a with IpV4 _ => false | IpV6 _ => true end.

(** ** [Display for IpAddr] *)

Definition octet (i a : Z) : Z := (a / 2 ^ (8 * i)) mod 256.
Definition display_v4 (a : Z) : ustring :=
  dec (octet 3 a) ++ lit "." ++ dec (octet 2 a) ++ lit "." ++ dec (octet 1 a)
  ++ lit "." ++ dec (octet 0 a).

(** The eight 16-bit segments, most significant first. *)
Definition segments (a : Z) : list Z :=
  (fun i => (a / 2 ^ (16 * i)) mod 65536) <$> [7; 6; 5; 4; 3; 2; 1; 0].

(** The first longest run of zero segments as (start, length). *)
Fixpoint longest_zero_run (i : nat) (cur best : nat * nat) (segs : list Z) : nat * nat :=
  match segs with
  | [] => best
  | s :: rest =>
      if s =? 0 then
        let cur' := if decide (cur.2 = 0%nat) then (i, 1%nat) else (cur.1, S cur.2) in
        longest_zero_run (S i) cur' (if decide (best.2 < cur'.2)%nat then cur' else best) rest
      else longest_zero_run (S i) (0%nat, 0%nat) best rest
  end.

Fixpoint join (sep : ustring) (ws : list ustring) : ustring :=
  match ws with
  | [] => []
  | [w] => w
  | w :: rest => w ++ sep ++ join sep rest
  end.

Definition hex_segment (s : Z) : ustring := hex_pad 1 s.
Definition display_v6 (a : Z) : ustring :=
  if a / 2 ^ 32 =? 0xffff then lit "::ffff:" ++ display_v4 (a mod 2 ^ 32)
  else
    let segs := segments a in
    let '(start, len) := longest_zero_run 0 (0, 0)%nat (0, 0)%nat segs in
    if decide (1 < len)%nat then
      join (lit ":") (hex_segment <$> take start segs) ++ lit "::"
      ++ join (lit ":") (hex_segment <$> drop (start + len) segs)
    else join (lit ":") (hex_segment <$> segs).
Definition display_ip (a : IpAddr) : ustring :=
  match a with IpV4 a => display_v4 a | IpV6 a => display_v6 a end.

(** ** The [ipnet] crate *)

(** [ipnet::IpNet]: an address and a prefix length of one family. *)
Inductive IpNet : Type :=
| NetV4 (addr prefix_len : Z)
| NetV6 (addr prefix_len : Z).

#[export] Instance IpNet_eq_dec : EqDecision IpNet.
Proof. solve_decision. Defined.
#[export] Instance IpNet_countable : Countable IpNet.
Proof.
  refine (inj_countable'
    (fun n => match n with NetV4 a p => inl (a, p) | NetV6 a p => inr (a, p) end)
    (fun s => match s with inl (a, p) => NetV4 a p | inr (a, p) => NetV6 a p end) _).
  by intros [].
Defined.

Definition is_v4_net (n : IpNet) : bool := match n with NetV4 _ _ => true | NetV6 _ _ => false end.
Definition is_v6_net (n : IpNet) : bool := negb (is_v4_net n).

Class IpNetLib : Type := {
  ipnet_from : IpAddr -> IpNet;               (* From<IpAddr> for IpNet *)
  ipnet_contains : IpNet -> IpAddr -> bool;   (* IpNet::contains(&IpAddr) *)
  ipnet_trunc : IpNet -> IpNet;               (* IpNet::trunc *)
  ipnet_display : IpNet -> ustring            (* Display for IpNet *)
}.

(** What the crate documents: a host address converts to a full-length
    prefix, which contains exactly that address; truncation is idempotent and
    keeps the family; a printed network is made of hexadecimal digits and
    [:./]. *)
Definition is_net_char (c : char) : bool :=
  in_range 48 57 c || in_range 97 102 c || (c =? 58) || (c =? 46) || (c =? 47).

Class IpNetLaws `{IpNetLib} : Prop := {
  ipnet_from_v4 a : ipnet_from (IpV4 a) = NetV4 a 32;
  ipnet_from_v6 a : ipnet_from (IpV6 a) = NetV6 a 128;
  ipnet_contains_host a b : ipnet_contains (ipnet_from a) b = true <-> b = a;
  ipnet_trunc_trunc n : ipnet_trunc (ipnet_trunc n) = ipnet_trunc n;
  ipnet_trunc_family n : is_v4_net (ipnet_trunc n) = is_v4_net n;
  ipnet_display_chars n : forallb is_net_char (ipnet_display n) = true
}.

(** ** A concrete instance *)

Definition mask (w p a : Z) : Z := if p <? w then a / 2 ^ (w - p) * 2 ^ (w - p) else a.

Definition keep_net_chars (s : ustring) : ustring := List.filter is_net_char s.

#[export] Instance ref_ipnet : IpNetLib := {
  ipnet_from a := match a with IpV4 a => NetV4 a 32 | IpV6 a => NetV6 a 128 end;
  ipnet_contains n a :=
    match n, a with
    | NetV4 n p, IpV4 a => mask 32 p a =? mask 32 p n
    | NetV6 n p, IpV6 a => mask 128 p a =? mask 128 p n
    | _, _ => false
    end;
  ipnet_trunc n :=
    match n with
    | NetV4 a p => NetV4 (mask 32 p a) p
    | NetV6 a p => NetV6 (mask 128 p a) p
    end;
  ipnet_display n :=
    keep_net_chars
      match n with
      | NetV4 a p => display_v4 a ++ lit "/" ++ dec p
      | NetV6 a p => display_v6 a ++ lit "/" ++ dec p
      end
}.

(** ** Facts *)

Lemma mask_mask w p a : mask w p (mask w p a) = mask w p a.
Proof.
  unfold mask. destruct (p <? w) eqn:E; [|done]. apply Z.ltb_lt in E.
  rewrite Z.div_mul; [done|]. apply Z.pow_nonzero; lia.
Qed.

#[export] Instance ref_ipnet_laws : IpNetLaws.
Proof.
  split; try done.
  - intros [a|a] [b|b]; simpl; unfold mask; rewrite ?Z.ltb_irrefl, ?Z.eqb_eq;
      split; congruence.
  - intros []; simpl; by rewrite mask_mask.
  - by intros [].
  - intros n; simpl. generalize (match n with NetV4 a p => display_v4 a ++ lit "/" ++ dec p
      | NetV6 a p => display_v6 a ++ lit "/" ++ dec p end); intros s.
    unfold keep_net_chars. apply forallb_forall. intros c Hc. by apply filter_In in Hc as [_ ?].
Qed.

Example display_ip_examples :
  display_ip (IpV4 3232235777) = lit "192.168.1.1"
  /\ display_ip (IpV6 1) = lit "::1"
  /\ display_ip (IpV6 0x20010db8000000000000000000000001) = lit "2001:db8::1"
  /\ display_ip (IpV6 0xffff01020304) = lit "::ffff:1.2.3.4"
  /\ display_ip (IpV6 0x00010000000200030004000500060007) = lit "1:0:2:3:4:5:6:7".
Proof. vm_compute. repeat split. Qed.
