(* ===== verification/Application.v ===== *)
(** * Application identities and selectors

    [crates/openshield-core/src/application.rs]: validated newtypes for paths,
    arguments and executable versions, the application selector of a rule and
    the process identity it is matched against. *)

From S2P Require Import Prelude Text.
Local Open Scope Z_scope.

Abbreviation MAX_APPLICATION_PATH_BYTES := 4096 (only parsing).
Abbreviation MAX_CGROUP_PATH_BYTES := 1024 (only parsing).
Abbreviation MAX_COMMAND_ARGUMENTS := 64 (only parsing).
Abbreviation MAX_COMMAND_LINE_BYTES := (8 * 1024) (only parsing).
Abbreviation MAX_COMMAND_ARGUMENT_BYTES := (MAX_COMMAND_LINE_BYTES - 1) (only parsing).

Inductive ApplicationValidationError : Type :=
| InvalidExecutablePath
| InvalidCgroupPath
| InvalidCommandArgument
| InvalidCommandLine
| ApplicationSelectorNeedsExecutable
| FileIdWithoutExecutablePath
| InvalidExecutableFileId
| InvalidProcessIdentity
| InvalidLearnedEndpoint
| IncompleteLearnedApplicationIdentity
| InvalidRedactedSelector.

#[export] Instance ApplicationValidationError_eq_dec : EqDecision ApplicationValidationError.
Proof. solve_decision. Defined.

Definition is_unsafe_text_character (character : char) : bool :=
  (character =? 0) || is_control character || is_format_spoof character.

(** ** [ApplicationPath] *)

Record ApplicationPath : Type := mkApplicationPath { path_str : ustring }.

#[export] Instance ApplicationPath_eq_dec : EqDecision ApplicationPath.
Proof. solve_decision. Defined.
#[export] Instance ApplicationPath_countable : Countable ApplicationPath.
Proof. by refine (inj_countable' path_str mkApplicationPath _); intros []. Defined.

Definition has_dot_component (value : ustring) : bool :=
  existsb (fun component => (component ==? lit ".") || (component ==? lit ".."))
    (split_char 47 value).

Definition ApplicationPath_new (value : ustring)
    : Result ApplicationValidationError ApplicationPath :=
  if (value ==? []) || (MAX_APPLICATION_PATH_BYTES <? byte_len value) then
    Err InvalidExecutablePath
  else if negb (starts_with (lit "/") value) || ends_with (lit " (deleted)") value
          || existsb is_unsafe_text_character value || has_dot_component value then
    Err InvalidExecutablePath
  else Ok (mkApplicationPath value).

(** ** [CgroupPath] *)

Record CgroupPath : Type := mkCgroupPath { cgroup_str : ustring }.

#[export] Instance CgroupPath_eq_dec : EqDecision CgroupPath.
Proof. solve_decision. Defined.
#[export] Instance CgroupPath_countable : Countable CgroupPath.
Proof. by refine (inj_countable' cgroup_str mkCgroupPath _); intros []. Defined.

Definition CgroupPath_new (value : ustring) : Result ApplicationValidationError CgroupPath :=
  if (value ==? []) || (MAX_CGROUP_PATH_BYTES <? byte_len value)
     || negb (starts_with (lit "/") value) || existsb is_unsafe_text_character value
     || has_dot_component value then
    Err InvalidCgroupPath
  else Ok (mkCgroupPath value).

(** ** [CommandArgument] *)

Record CommandArgument : Type := mkCommandArgument { argument_str : ustring }.

#[export] Instance CommandArgument_eq_dec : EqDecision CommandArgument.
Proof. solve_decision. Defined.
#[export] Instance CommandArgument_countable : Countable CommandArgument.
Proof. by refine (inj_countable' argument_str mkCommandArgument _); intros []. Defined.

Definition CommandArgument_new (value : ustring)
    : Result ApplicationValidationError CommandArgument :=
  if (MAX_COMMAND_ARGUMENT_BYTES <? byte_len value) || existsb (Z.eqb 0) value then
    Err InvalidCommandArgument
  else Ok (mkCommandArgument value).

(** The match arms of [Display for CommandArgument]. *)
Definition display_character (character : char) : ustring :=
  if character =? 92 then lit "\\"
  else if character =? 34 then [92; 34]
  else if character =? 10 then lit "\n"
  else if character =? 13 then lit "\r"
  else if character =? 9 then lit "\t"
  else if character =? 8 then lit "\b"
  else if character =? 12 then lit "\f"
  else if is_unsafe_text_character character || (character =? 0x2028) || (character =? 0x2029)
  then lit "\u" ++ hex_pad 4 character
  else [character].

Definition CommandArgument_fmt (self : CommandArgument) : ustring :=
  [34] ++ concat (display_character <$> argument_str self) ++ [34].

(** ** [CommandLineSelector] *)

Inductive CommandLineMatch : Type := Exact | Prefix.

#[export] Instance CommandLineMatch_eq_dec : EqDecision CommandLineMatch.
Proof. solve_decision. Defined.
#[export] Instance CommandLineMatch_countable : Countable CommandLineMatch.
Proof.
  by refine (inj_countable' (fun k => match k with Exact => true | Prefix => false end)
    (fun b : bool => if b then Exact else Prefix) _); intros [].
Defined.

Record CommandLineSelector : Type := mkCommandLineSelector {
  cls_kind : CommandLineMatch;
  cls_arguments : list CommandArgument
}.

#[export] Instance CommandLineSelector_eq_dec : EqDecision CommandLineSelector.
Proof. solve_decision. Defined.
#[export] Instance CommandLineSelector_countable : Countable CommandLineSelector.
Proof.
  by refine (inj_countable' (fun s => (cls_kind s, cls_arguments s))
    (fun p => mkCommandLineSelector p.1 p.2) _); intros [].
Defined.

(** The [try_fold] shared by [CommandLineSelector::validate] and
    [ApplicationIdentity::validate]: every argument with its terminating NUL. *)
Definition add_argument_bytes (total : option Z) (argument : CommandArgument) : option Z :=
  total ← total;
  value ← usize_checked_add total (byte_len (argument_str argument));
  usize_checked_add value 1.
Definition command_line_bytes (arguments : list CommandArgument) : option Z :=
  fold_left add_argument_bytes arguments (Some 0).

Definition CommandLineSelector_validate (self : CommandLineSelector)
    : Result ApplicationValidationError unit :=
  if (self.(cls_arguments) ==? []) || (MAX_COMMAND_ARGUMENTS <? zlen self.(cls_arguments)) then
    Err InvalidCommandLine
  else if is_none_or (fun total => MAX_COMMAND_LINE_BYTES <? total)
            (command_line_bytes self.(cls_arguments)) then
    Err InvalidCommandLine
  else Ok tt.

Definition CommandLineSelector_new (kind : CommandLineMatch) (arguments : list CommandArgument)
    : Result ApplicationValidationError CommandLineSelector :=
  let selector := mkCommandLineSelector kind arguments in
  CommandLineSelector_validate selector ;; mret selector.

(** [slice::starts_with]. *)
Fixpoint slice_starts_with `{EqDecision A} (actual prefix : list A) : bool :=
  match prefix, actual with
  | [], _ => true
  | p :: prefix', a :: actual' => (a ==? p) && slice_starts_with actual' prefix'
  | _ :: _, [] => false
  end.

Definition CommandLineSelector_matches (self : CommandLineSelector)
    (actual : list CommandArgument) : bool :=
  match self.(cls_kind) with
  | Exact => self.(cls_arguments) ==? actual
  | Prefix => slice_starts_with actual self.(cls_arguments)
  end.

(** ** [ExecutableFileId] *)

Record ExecutableFileId : Type := mkExecutableFileId {
  device : Z;
  inode : Z;
  file_size : Z;
  ctime_seconds : Z;
  ctime_nanoseconds : Z
}.

#[export] Instance ExecutableFileId_eq_dec : EqDecision ExecutableFileId.
Proof. solve_decision. Defined.
#[export] Instance ExecutableFileId_countable : Countable ExecutableFileId.
Proof.
  by refine (inj_countable'
    (fun f => (device f, inode f, file_size f, ctime_seconds f, ctime_nanoseconds f))
    (fun '(d, i, s, cs, cn) => mkExecutableFileId d i s cs cn) _); intros [].
Defined.

Definition ExecutableFileId_validate (self : ExecutableFileId)
    : Result ApplicationValidationError unit :=
  if (self.(inode) =? 0)
     || negb ((0 <=? self.(ctime_nanoseconds)) && (self.(ctime_nanoseconds) <? 1000000000)) then
    Err InvalidExecutableFileId
  else Ok tt.

(** ** [ApplicationSelector] *)

Record ApplicationSelector : Type := mkApplicationSelector {
  as_executable : option ApplicationPath;
  as_executable_file : option ExecutableFileId;
  as_command_line : option CommandLineSelector;
  as_uid : option Z;
  as_cgroup : option CgroupPath;
  as_metadata_redacted : bool
}.

#[export] Instance ApplicationSelector_eq_dec : EqDecision ApplicationSelector.
Proof. solve_decision. Defined.
#[export] Instance ApplicationSelector_countable : Countable ApplicationSelector.
Proof.
  by refine (inj_countable'
    (fun s => (as_executable s, as_executable_file s, as_command_line s, as_uid s,
               as_cgroup s, as_metadata_redacted s))
    (fun '(e, f, c, u, g, r) => mkApplicationSelector e f c u g r) _); intros [].
Defined.

Definition ApplicationSelector_validate (self : ApplicationSelector)
    : Result ApplicationValidationError unit :=
  if self.(as_metadata_redacted) then
    if (option_map path_str self.(as_executable) ==? Some (lit "/redacted"))
       && is_none self.(as_executable_file) && is_none self.(as_command_line)
       && is_none self.(as_uid) && is_none self.(as_cgroup) then
      Ok tt
    else Err InvalidRedactedSelector
  else
    fail_if (is_none self.(as_executable)) ApplicationSelectorNeedsExecutable ;;
    fail_if (is_some self.(as_executable_file) && is_none self.(as_executable))
      FileIdWithoutExecutablePath ;;
    match self.(as_executable_file) with
    | Some file => ExecutableFileId_validate file
    | None => Ok tt
    end ;;
    match self.(as_command_line) with
    | Some command_line => CommandLineSelector_validate command_line
    | None => Ok tt
    end.

Definition ApplicationSelector_new (executable : option ApplicationPath)
    (executable_file : option ExecutableFileId) (command_line : option CommandLineSelector)
    (uid : option Z) (cgroup : option CgroupPath)
    : Result ApplicationValidationError ApplicationSelector :=
  let selector :=
    mkApplicationSelector executable executable_file command_line uid cgroup false in
  ApplicationSelector_validate selector ;; mret selector.

Definition ApplicationSelector_redacted : ApplicationSelector :=
  mkApplicationSelector (Some (mkApplicationPath (lit "/redacted"))) None None None None true.

(** The decoded wire structure is a selector whose fields were not yet
    checked against each other. *)
Definition ApplicationSelector_deserialize (wire : ApplicationSelector)
    : Result ApplicationValidationError ApplicationSelector :=
  if wire.(as_metadata_redacted) then
    let redacted := mkApplicationSelector wire.(as_executable) wire.(as_executable_file)
      wire.(as_command_line) wire.(as_uid) wire.(as_cgroup) true in
    ApplicationSelector_validate redacted ;; mret redacted
  else
    ApplicationSelector_new wire.(as_executable) wire.(as_executable_file)
      wire.(as_command_line) wire.(as_uid) wire.(as_cgroup).

(** ** [ApplicationIdentity] *)

Record ApplicationIdentity : Type := mkApplicationIdentity {
  ai_pid : Z;
  ai_process_start_time_ticks : Z;
  ai_executable : ApplicationPath;
  ai_executable_file : ExecutableFileId;
  ai_command_line : list CommandArgument;
  ai_uid : Z;
  ai_cgroups : list CgroupPath
}.

#[export] Instance ApplicationIdentity_eq_dec : EqDecision ApplicationIdentity.
Proof. solve_decision. Defined.

Definition ApplicationSelector_matches (self : ApplicationSelector)
    (identity : ApplicationIdentity) : bool :=
  negb self.(as_metadata_redacted)
  && is_none_or (fun expected => expected ==? identity.(ai_executable)) self.(as_executable)
  && is_none_or (fun expected => expected ==? identity.(ai_executable_file))
       self.(as_executable_file)
  && is_none_or (fun expected => CommandLineSelector_matches expected identity.(ai_command_line))
       self.(as_command_line)
  && is_none_or (fun expected => expected =? identity.(ai_uid)) self.(as_uid)
  && is_none_or (fun expected => existsb (fun actual => actual ==? expected) identity.(ai_cgroups))
       self.(as_cgroup).

Definition ApplicationIdentity_validate (self : ApplicationIdentity)
    : Result ApplicationValidationError unit :=
  fail_if ((self.(ai_pid) =? 0) || (self.(ai_process_start_time_ticks) =? 0))
    InvalidProcessIdentity ;;
  ExecutableFileId_validate self.(ai_executable_file) ;;
  fail_if ((MAX_COMMAND_ARGUMENTS <? zlen self.(ai_command_line))
           || (MAX_COMMAND_ARGUMENTS <? zlen self.(ai_cgroups)))
    InvalidProcessIdentity ;;
  fail_if (is_none_or (fun total => MAX_COMMAND_LINE_BYTES <? total)
             (command_line_bytes self.(ai_command_line)))
    InvalidProcessIdentity.

Definition learned_selector (self : ApplicationIdentity)
    : Result ApplicationValidationError ApplicationSelector :=
  ApplicationIdentity_validate self ;;
  command_line ← CommandLineSelector_new Exact self.(ai_command_line);
  cgroup ← match self.(ai_cgroups) with
           | [] => Ok None
           | [cgroup] => Ok (Some cgroup)
           | _ => Err InvalidProcessIdentity
           end;
  ApplicationSelector_new (Some self.(ai_executable)) (Some self.(ai_executable_file))
    (Some command_line) (Some self.(ai_uid)) cgroup.

(** ** Facts on argument vectors *)

(** The byte budget of an argument vector, without the overflow checks. *)
Definition argv_bytes (arguments : list CommandArgument) : Z :=
  foldr (fun argument total => byte_len (argument_str argument) + 1 + total) 0 arguments.

Lemma byte_len_nonneg s : 0 <= byte_len s.
Proof. pose proof (byte_len_bounds s). pose proof (zlen_nonneg s). lia. Qed.

Lemma argv_bytes_nonneg arguments : 0 <= argv_bytes arguments.
Proof.
  induction arguments as [|a l IH]; simpl; [lia|].
  pose proof (byte_len_nonneg (argument_str a)). lia.
Qed.

Lemma add_argument_bytes_Some total argument :
  0 <= total ->
  add_argument_bytes (Some total) argument =
    if decide (total + byte_len (argument_str argument) + 1 <= USIZE_MAX)
    then Some (total + byte_len (argument_str argument) + 1) else None.
Proof.
  intros Ht. pose proof (byte_len_nonneg (argument_str argument)).
  unfold add_argument_bytes, usize_checked_add, u64_checked_add, USIZE_MAX. simpl.
  repeat (case_decide; simpl); done || lia.
Qed.

Lemma fold_argument_bytes_None arguments : fold_left add_argument_bytes arguments None = None.
Proof. induction arguments; simpl; auto. Qed.

(** The checked sum is the sum, when the sum fits. *)
Lemma command_line_bytes_spec arguments :
  command_line_bytes arguments =
    if decide (argv_bytes arguments <= USIZE_MAX) then Some (argv_bytes arguments) else None.
Proof.
  unfold command_line_bytes.
  cut (forall acc, 0 <= acc <= USIZE_MAX ->
    fold_left add_argument_bytes arguments (Some acc) =
    if decide (acc + argv_bytes arguments <= USIZE_MAX)
    then Some (acc + argv_bytes arguments) else None).
  { intros H. rewrite H by (unfold USIZE_MAX, U64_MAX; lia). by rewrite Z.add_0_l. }
  induction arguments as [|a l IH]; intros acc Hacc; cbn -[add_argument_bytes argv_bytes].
  - simpl. rewrite decide_True by lia. f_equal; lia.
  - change (argv_bytes (a :: l)) with (byte_len (argument_str a) + 1 + argv_bytes l).
    pose proof (argv_bytes_nonneg l). pose proof (byte_len_nonneg (argument_str a)).
    rewrite add_argument_bytes_Some by lia.
    case_decide; [rewrite IH by lia|rewrite fold_argument_bytes_None, decide_False by lia; done].
    by replace (acc + byte_len (argument_str a) + 1 + argv_bytes l)
      with (acc + (byte_len (argument_str a) + 1 + argv_bytes l)) by lia.
Qed.

Lemma command_line_over_budget arguments :
  is_none_or (fun total => MAX_COMMAND_LINE_BYTES <? total) (command_line_bytes arguments)
  = (MAX_COMMAND_LINE_BYTES <? argv_bytes arguments).
Proof.
  rewrite command_line_bytes_spec. case_decide as H; simpl; [done|].
  symmetry. apply Z.ltb_lt. revert H. unfold USIZE_MAX, U64_MAX. lia.
Qed.

Lemma CommandLineSelector_validate_Ok self u :
  CommandLineSelector_validate self = Ok u <->
  cls_arguments self <> [] /\ zlen (cls_arguments self) <= MAX_COMMAND_ARGUMENTS
  /\ argv_bytes (cls_arguments self) <= MAX_COMMAND_LINE_BYTES.
Proof.
  unfold CommandLineSelector_validate. rewrite command_line_over_budget. destruct u.
  destruct (_ ==? []) eqn:E1; simpl; [rewrite eqb_true in E1; naive_solver|].
  rewrite eqb_false in E1.
  destruct (_ <? zlen _) eqn:E2; [rewrite Z.ltb_lt in E2; split; [done|lia]|].
  destruct (_ <? argv_bytes _) eqn:E3;
    [rewrite Z.ltb_lt in E3; split; [done|lia]|].
  rewrite Z.ltb_ge in E2, E3. naive_solver.
Qed.

(** ** Matching *)

Lemma ApplicationSelector_matches_true self identity :
  ApplicationSelector_matches self identity = true <->
  as_metadata_redacted self = false
  /\ (forall e, as_executable self = Some e -> e = ai_executable identity)
  /\ (forall f, as_executable_file self = Some f -> f = ai_executable_file identity)
  /\ (forall c, as_command_line self = Some c ->
        CommandLineSelector_matches c (ai_command_line identity) = true)
  /\ (forall u, as_uid self = Some u -> u = ai_uid identity)
  /\ (forall g, as_cgroup self = Some g -> g ∈ ai_cgroups identity).
Proof.
  unfold ApplicationSelector_matches.
  rewrite !andb_true_iff, negb_true_iff.
  assert (Hc : forall g, existsb (fun actual => actual ==? g) (ai_cgroups identity) = true
    <-> g ∈ ai_cgroups identity).
  { intros g. rewrite existsb_exists, list_elem_of_In.
    setoid_rewrite eqb_true. naive_solver. }
  destruct self as [[e|] [f|] [c|] [u|] [g|] r]; simpl;
    rewrite ?eqb_true, ?Z.eqb_eq, ?Hc; naive_solver.
Qed.

(** What a successfully learned selector is made of. *)
Lemma learned_selector_Ok identity selector :
  learned_selector identity = Ok selector ->
  selector = mkApplicationSelector (Some (ai_executable identity))
    (Some (ai_executable_file identity))
    (Some (mkCommandLineSelector Exact (ai_command_line identity)))
    (Some (ai_uid identity)) (head (ai_cgroups identity)) false
  /\ (length (ai_cgroups identity) <= 1)%nat
  /\ ApplicationSelector_validate selector = Ok tt.
Proof.
  unfold learned_selector, CommandLineSelector_new, ApplicationSelector_new.
  intros H. apply bind_Ok_inv in H as ([] & _ & H).
  apply bind_Ok_inv in H as (command & Hcommand & H).
  apply bind_Ok_inv in Hcommand as ([] & _ & [= <-]).
  apply bind_Ok_inv in H as (cgroup & Hcgroup & H).
  apply bind_Ok_inv in H as ([] & Hvalid & [= <-]).
  assert (cgroup = head (ai_cgroups identity) /\ (length (ai_cgroups identity) <= 1)%nat)
    as [-> ?] by (destruct (ai_cgroups identity) as [|g [|]]; simpl in *; simplify_eq/=; auto).
  done.
Qed.

(** The selector that learning derives from a captured process matches
    that process, and it matches another process exactly when that process
    runs the same executable path and version with the same argument vector
    under the same user, inside the captured cgroup when there is one. *)
Theorem learned_selector_pins_identity identity selector other :
  learned_selector identity = Ok selector ->
  ApplicationSelector_matches selector identity = true
  /\ (ApplicationSelector_matches selector other = true <->
      ai_executable other = ai_executable identity
      /\ ai_executable_file other = ai_executable_file identity
      /\ ai_command_line other = ai_command_line identity
      /\ ai_uid other = ai_uid identity
      /\ (forall g, head (ai_cgroups identity) = Some g -> g ∈ ai_cgroups other)).
Proof.
  intros (-> & Hlen & _)%learned_selector_Ok.
  assert (Hm : forall p, CommandLineSelector_matches
    (mkCommandLineSelector Exact (ai_command_line identity)) (ai_command_line p) = true
    <-> ai_command_line identity = ai_command_line p) by (intros; apply eqb_true).
  split.
  - apply ApplicationSelector_matches_true; simpl.
    split_and!; try naive_solver.
    intros g Hg. destruct (ai_cgroups identity); [done|]. simplify_eq/=. left.
  - rewrite ApplicationSelector_matches_true; simpl. split.
    + intros (_ & He & Hf & Hc & Hu & Hg).
      specialize (Hc _ eq_refl). apply Hm in Hc.
      split_and!; [symmetry; by eauto..|by eauto].
    + intros (He & Hf & Hc & Hu & Hg). split_and!; naive_solver.
Qed.

Definition sample_file : ExecutableFileId := mkExecutableFileId 1 42 1000 1700000000 5.
Definition sample_identity : ApplicationIdentity :=
  mkApplicationIdentity 100 7 (mkApplicationPath (lit "/usr/bin/curl")) sample_file
    [mkCommandArgument (lit "curl"); mkCommandArgument (lit "-s")] 1000
    [mkCgroupPath (lit "/user.slice")].

Lemma learned_selector_pins_identity_witness :
  exists selector, learned_selector sample_identity = Ok selector
  /\ ApplicationSelector_matches selector sample_identity = true.
Proof.
  eexists. split; [vm_compute; reflexivity|].
  refine (proj1 (learned_selector_pins_identity sample_identity _ sample_identity _)).
  vm_compute. reflexivity.
Defined.

(** A selector that passes validation without being marked redacted pins
    an executable path, and one that is marked redacted carries nothing but the
    placeholder and matches no process at all. *)
Theorem validated_selector_is_pinned_or_inert selector :
  ApplicationSelector_validate selector = Ok tt ->
  (as_metadata_redacted selector = false /\ is_some (as_executable selector) = true)
  \/ (selector = ApplicationSelector_redacted
      /\ forall identity, ApplicationSelector_matches selector identity = false).
Proof.
  destruct selector as [[[e]|] f c u g []]; unfold ApplicationSelector_validate; simpl;
    try (intros; done || (left; done)).
  - case_match eqn:E; [|done]. intros _. right.
    repeat (apply andb_prop in E as [E ?]). autorewrite with result in *. simplify_eq. done.
Qed.

Lemma validated_selector_is_pinned_or_inert_witness :
  ApplicationSelector_redacted = ApplicationSelector_redacted
  /\ forall identity, ApplicationSelector_matches ApplicationSelector_redacted identity = false.
Proof.
  destruct (validated_selector_is_pinned_or_inert ApplicationSelector_redacted) as [[]|];
    [reflexivity|discriminate|assumption].
Defined.

(** ** Presentation of arguments

    The reader of the presentation: a JSON string literal (RFC 8259) without
    surrogate pairs, as in [serde_json::from_str::<String>]. *)

Definition hex_value (c : char) : option Z :=
  if in_range 48 57 c then Some (c - 48)
  else if in_range 97 102 c then Some (c - 87)
  else if in_range 65 70 c then Some (c - 55)
  else None.

Definition hex4_value (a b c d : char) : option Z :=
  a ← hex_value a; b ← hex_value b; c ← hex_value c; d ← hex_value d;
  Some (((a * 16 + b) * 16 + c) * 16 + d).

Definition simple_escape (c : char) : option char :=
  if (c =? 92) || (c =? 34) || (c =? 47) then Some c
  else if c =? 110 then Some 10
  else if c =? 114 then Some 13
  else if c =? 116 then Some 9
  else if c =? 98 then Some 8
  else if c =? 102 then Some 12
  else None.

Fixpoint json_string_body (s : ustring) : option ustring :=
  match s with
  | [] => None
  | c :: rest =>
      if c =? 34 then match rest with [] => Some [] | _ => None end
      else if c =? 92 then
        match rest with
        | [] => None
        | e :: rest1 =>
            if e =? 117 then
              match rest1 with
              | h3 :: h2 :: h1 :: h0 :: rest2 =>
                  v ← hex4_value h3 h2 h1 h0;
                  cons v <$> json_string_body rest2
              | _ => None
              end
            else v ← simple_escape e; cons v <$> json_string_body rest1
        end
      else if c <? 32 then None
      else cons c <$> json_string_body rest
  end.

Definition json_string (s : ustring) : option ustring :=
  match s with
  | c :: body => if c =? 34 then json_string_body body else None
  | [] => None
  end.

Lemma hex_value_digit d : 0 <= d < 16 -> hex_value (hex_digit d) = Some d.
Proof.
  intros Hd. unfold hex_value, hex_digit, in_range.
  destruct (Z.ltb_spec d 10).
  - rewrite (proj2 (Z.leb_le 48 _)), (proj2 (Z.leb_le _ 57)) by lia. simpl. f_equal; lia.
  - rewrite (proj2 (Z.leb_gt _ 57)), andb_false_r by lia.
    rewrite (proj2 (Z.leb_le 97 _)), (proj2 (Z.leb_le _ 102)) by lia. simpl. f_equal; lia.
Qed.

Lemma hex_pad4 v : 0 <= v < 65536 ->
  hex_pad 4 v = [hex_digit (v / 16 / 16 / 16 mod 16); hex_digit (v / 16 / 16 mod 16);
                 hex_digit (v / 16 mod 16); hex_digit (v mod 16)].
Proof.
  intros Hv. unfold hex_pad. replace (Nat.max 4 (nibbles v)) with 4%nat; [done|].
  assert (Z.log2 v < 16).
  { destruct (decide (v = 0)) as [->|]; [done|]. apply Z.log2_lt_pow2; lia. }
  assert (Z.log2 v / 4 <= 3) by (apply Z.lt_succ_r, Z.div_lt_upper_bound; lia).
  unfold nibbles. lia.
Qed.

Lemma hex4_value_pad v : 0 <= v < 65536 ->
  exists a b c d, hex_pad 4 v = [a; b; c; d] /\ hex4_value a b c d = Some v.
Proof.
  intros Hv. rewrite hex_pad4 by done. do 4 eexists. split; [done|].
  unfold hex4_value.
  rewrite !hex_value_digit by (apply Z.mod_pos_bound; lia). simpl. f_equal.
  Z.div_mod_to_equations. lia.
Qed.

Lemma unsafe_text_bound c :
  is_unsafe_text_character c || (c =? 0x2028) || (c =? 0x2029) = true -> 0 <= c < 65536.
Proof.
  unfold is_unsafe_text_character, is_control, is_format_spoof, in_range.
  rewrite !orb_true_iff, !andb_true_iff, !Z.eqb_eq, !Z.leb_le. lia.
Qed.

Lemma safe_text_lower c : 0 <= c -> is_unsafe_text_character c = false -> 32 <= c.
Proof.
  unfold is_unsafe_text_character, is_control, in_range.
  rewrite !orb_false_iff, !andb_false_iff, !Z.leb_gt. lia.
Qed.

Lemma json_string_body_display c rest : 0 <= c ->
  json_string_body (display_character c ++ rest) = cons c <$> json_string_body rest.
Proof.
  intros Hc. unfold display_character.
  repeat (case_match; [match goal with H : (_ =? _) = true |- _ =>
    apply Z.eqb_eq in H; subst; reflexivity end|]).
  destruct (is_unsafe_text_character c || _ || _) eqn:E.
  - destruct (hex4_value_pad c (unsafe_text_bound _ E)) as (x & y & z & w & Hp & Hv).
    rewrite Hp. simpl. by rewrite Hv.
  - rewrite !orb_false_iff in E. destruct E as [[E _] _].
    pose proof (safe_text_lower c Hc E). simpl.
    rewrite H0, H. by rewrite (proj2 (Z.ltb_ge c 32)) by lia.
Qed.

(** The presentation of an argument is a JSON string literal that decodes
    to exactly that argument, so two arguments that are shown alike are equal;
    and it contains no character that can disturb a terminal. *)
Theorem argument_display_round_trip argument :
  Forall (fun c => 0 <= c) (argument_str argument) ->
  json_string (CommandArgument_fmt argument) = Some (argument_str argument)
  /\ Forall (fun c => is_unsafe_text_character c = false) (CommandArgument_fmt argument).
Proof.
  destruct argument as [s]. unfold CommandArgument_fmt. intros Hs. simpl in *. split.
  - change (json_string_body (concat (display_character <$> s) ++ [34]) = Some s).
    induction Hs as [|c s Hc Hs IH]; [done|]. rewrite fmap_cons. cbn [concat].
    by rewrite <-app_assoc, json_string_body_display, IH.
  - constructor; [done|]. apply Forall_app. split; [|by repeat constructor].
    apply Forall_concat, Forall_fmap, Forall_true. intros c. simpl.
    unfold display_character. repeat (case_match; [by repeat constructor|]).
    case_match eqn:E.
    + rewrite hex_pad4 by (by apply unsafe_text_bound).
      assert (Hd : forall v, is_unsafe_text_character (hex_digit (v mod 16)) = false).
      { intros v. pose proof (Z.mod_pos_bound v 16).
        unfold is_unsafe_text_character, is_control, is_format_spoof, in_range, hex_digit.
        rewrite !orb_false_iff, !andb_false_iff, !Z.eqb_neq, !Z.leb_gt.
        destruct (Z.ltb_spec (v mod 16) 10); lia. }
      by repeat constructor.
    + rewrite !orb_false_iff in E. repeat constructor. tauto.
Qed.

Lemma argument_display_round_trip_witness :
  Forall (fun c => 0 <= c) [92; 110; 10; 34; 0x202e; 97]
  /\ json_string (CommandArgument_fmt (mkCommandArgument [92; 110; 10; 34; 0x202e; 97]))
     = Some [92; 110; 10; 34; 0x202e; 97].
Proof.
  assert (H : Forall (fun c => 0 <= c) [92; 110; 10; 34; 0x202e; 97])
    by (repeat constructor; discriminate).
  split; [exact H|].
  exact (proj1 (argument_display_round_trip (mkCommandArgument _) H)).
Defined.
