(* ===== verification/Model.v ===== *)
(** * The policy model

    [crates/openshield-core/src/model.rs]: modes, directions, protocols,
    actions, bounded names, port ranges, rule specifications and rules, learned
    endpoints and the validators of each, together with the learned application
    endpoint of [application.rs]. *)

From S2P Require Import Prelude Text Net Application.
Local Open Scope Z_scope.

Abbreviation MAX_RULE_NAME_BYTES := 128 (only parsing).
Abbreviation MAX_INTERFACE_NAME_BYTES := 15 (only parsing).
Definition REDACTED_APPLICATION_RULE_NAME : ustring := lit "application rule (redacted)".

Inductive Mode : Type := BlockAll | Learning | Enforcing.
Inductive EnforcementStrategy : Type := Strict | Fast.
Inductive Direction : Type := Inbound | Outbound.
Inductive TransportProtocol : Type := Any | Tcp | Udp | Icmp | IcmpV6.
Inductive RuleOrigin : Type := Manual | Learned | Template.
Inductive RuleAction : Type := Accept | Drop | Reject.

#[export] Instance Mode_eq_dec : EqDecision Mode.
Proof. solve_decision. Defined.
#[export] Instance EnforcementStrategy_eq_dec : EqDecision EnforcementStrategy.
Proof. solve_decision. Defined.
#[export] Instance Direction_eq_dec : EqDecision Direction.
Proof. solve_decision. Defined.
#[export] Instance TransportProtocol_eq_dec : EqDecision TransportProtocol.
Proof. solve_decision. Defined.
#[export] Instance TransportProtocol_countable : Countable TransportProtocol.
Proof.
  by refine (inj_countable'
    (fun p => match p with Any => 0 | Tcp => 1 | Udp => 2 | Icmp => 3 | IcmpV6 => 4 end)
    (fun z => if z =? 0 then Any else if z =? 1 then Tcp else if z =? 2 then Udp
              else if z =? 3 then Icmp else IcmpV6) _); intros [].
Defined.
#[export] Instance RuleOrigin_eq_dec : EqDecision RuleOrigin.
Proof. solve_decision. Defined.
#[export] Instance RuleAction_eq_dec : EqDecision RuleAction.
Proof. solve_decision. Defined.
#[export] Instance RuleAction_countable : Countable RuleAction.
Proof.
  by refine (inj_countable'
    (fun a => match a with Accept => 0 | Drop => 1 | Reject => 2 end)
    (fun z => if z =? 0 then Accept else if z =? 1 then Drop else Reject) _); intros [].
Defined.

Definition is_strict (self : EnforcementStrategy) : bool :=
  match self with Strict => true | Fast => false end.

Definition TransportProtocol_fmt (self : TransportProtocol) : ustring :=
  match self with
  | Any => lit "any"
  | Tcp => lit "tcp"
  | Udp => lit "udp"
  | Icmp => lit "icmp"
  | IcmpV6 => lit "icmpv6"
  end.

Inductive ValidationError : Type :=
| EmptyRuleName
| RuleNameTooLong (actual maximum : Z)
| InvalidRuleName
| InvalidInterfaceName
| InvalidPortRange (start end_ : Z)
| PortWithIncompatibleProtocol
| ProtocolNetworkFamilyMismatch
| UnrestrictedRule
| ApplicationSelectorOnInboundRule
| DenyActionOnInboundRule
| InvalidApplicationSelector (error : ApplicationValidationError)
| NilRuleId
| InvalidRuleTimestamps
| LearnedTransportNeedsPort
| LearnedEndpointNeedsInterface
| UnsupportedLearnedProtocol.

#[export] Instance ValidationError_eq_dec : EqDecision ValidationError.
Proof. solve_decision. Defined.

(** ** [RuleName] *)

Record RuleName : Type := mkRuleName { name_str : ustring }.

#[export] Instance RuleName_eq_dec : EqDecision RuleName.
Proof. solve_decision. Defined.

Definition is_unsafe_rule_name_character (character : char) : bool :=
  is_control character
  || (is_whitespace character && negb (character =? 32))
  || is_format_spoof character.

Definition RuleName_new (value : ustring) : Result ValidationError RuleName :=
  if value ==? [] then Err EmptyRuleName
  else if MAX_RULE_NAME_BYTES <? byte_len value then
    Err (RuleNameTooLong (byte_len value) MAX_RULE_NAME_BYTES)
  else if (trim value !=? value) || existsb is_unsafe_rule_name_character value then
    Err InvalidRuleName
  else Ok (mkRuleName value).

(** ** [InterfaceName] *)

Record InterfaceName : Type := mkInterfaceName { interface_str : ustring }.

#[export] Instance InterfaceName_eq_dec : EqDecision InterfaceName.
Proof. solve_decision. Defined.
#[export] Instance InterfaceName_countable : Countable InterfaceName.
Proof. by refine (inj_countable' interface_str mkInterfaceName _); intros []. Defined.

(** The allowlist of [InterfaceName::new]; a byte of a multi-byte character is
    never in it, so testing characters and testing bytes agree. *)
Definition is_interface_byte (byte : char) : bool :=
  is_ascii_alphanumeric byte || (byte =? 95) || (byte =? 45) || (byte =? 46).

Definition InterfaceName_new (value : ustring) : Result ValidationError InterfaceName :=
  if (value ==? []) || (MAX_INTERFACE_NAME_BYTES <? byte_len value) then
    Err InvalidInterfaceName
  else if negb (forallb is_interface_byte value) then Err InvalidInterfaceName
  else Ok (mkInterfaceName value).

(** ** [PortRange] *)

Record PortRange : Type := mkPortRange { port_start : Z; port_end : Z }.

#[export] Instance PortRange_eq_dec : EqDecision PortRange.
Proof. solve_decision. Defined.
#[export] Instance PortRange_countable : Countable PortRange.
Proof.
  by refine (inj_countable' (fun p => (port_start p, port_end p))
    (fun p => mkPortRange p.1 p.2) _); intros [].
Defined.

Definition PortRange_new (start end_ : Z) : Result ValidationError PortRange :=
  if (start =? 0) || (end_ =? 0) || (end_ <? start) then Err (InvalidPortRange start end_)
  else Ok (mkPortRange start end_).

Definition PortRange_single (port : Z) : Result ValidationError PortRange :=
  PortRange_new port port.

(** ** [RuleSpec] *)

Record RuleSpec : Type := mkRuleSpec {
  name : RuleName;
  direction : Direction;
  action : RuleAction;
  protocol : TransportProtocol;
  peer_network : option IpNet;
  port : option PortRange;
  interface : option InterfaceName;
  application : option ApplicationSelector;
  origin : RuleOrigin;
  enabled : bool
}.

#[export] Instance RuleSpec_eq_dec : EqDecision RuleSpec.
Proof. solve_decision. Defined.

Definition set_name (v : RuleName) (s : RuleSpec) : RuleSpec :=
  mkRuleSpec v s.(direction) s.(action) s.(protocol) s.(peer_network) s.(port) s.(interface)
    s.(application) s.(origin) s.(enabled).
Definition set_application (v : option ApplicationSelector) (s : RuleSpec) : RuleSpec :=
  mkRuleSpec s.(name) s.(direction) s.(action) s.(protocol) s.(peer_network) s.(port)
    s.(interface) v s.(origin) s.(enabled).
Definition set_origin (v : RuleOrigin) (s : RuleSpec) : RuleSpec :=
  mkRuleSpec s.(name) s.(direction) s.(action) s.(protocol) s.(peer_network) s.(port)
    s.(interface) s.(application) v s.(enabled).
Definition set_enabled (v : bool) (s : RuleSpec) : RuleSpec :=
  mkRuleSpec s.(name) s.(direction) s.(action) s.(protocol) s.(peer_network) s.(port)
    s.(interface) s.(application) s.(origin) v.

Definition is_tcp_or_udp (p : TransportProtocol) : bool :=
  match p with Tcp | Udp => true | _ => false end.

Definition RuleSpec_validate (self : RuleSpec) : Result ValidationError unit :=
  fail_if ((self.(direction) ==? Inbound) && (self.(action) !=? Accept))
    DenyActionOnInboundRule ;;
  fail_if ((self.(protocol) ==? Any) && is_none self.(peer_network) && is_none self.(port)
           && is_none self.(interface) && is_none self.(application))
    UnrestrictedRule ;;
  fail_if (is_some self.(port) && negb (is_tcp_or_udp self.(protocol)))
    PortWithIncompatibleProtocol ;;
  match self.(protocol), self.(peer_network) with
  | Icmp, Some (NetV6 _ _) | IcmpV6, Some (NetV4 _ _) => Err ProtocolNetworkFamilyMismatch
  | _, _ => Ok tt
  end ;;
  fail_if ((self.(direction) ==? Inbound) && is_some self.(application))
    ApplicationSelectorOnInboundRule ;;
  match self.(application) with
  | Some application =>
      map_err InvalidApplicationSelector (ApplicationSelector_validate application)
  | None => Ok tt
  end.

Definition RuleSpec_new (name : RuleName) (direction : Direction) (protocol : TransportProtocol)
    (peer_network : option IpNet) (port : option PortRange) (interface : option InterfaceName)
    (origin : RuleOrigin) (enabled : bool) : Result ValidationError RuleSpec :=
  let spec := mkRuleSpec name direction Accept protocol peer_network port interface None
    origin enabled in
  RuleSpec_validate spec ;; mret spec.

(** The decoded wire structure has the same fields; an absent action is the
    default [Accept]. *)
Record WireRuleSpec : Type := mkWireRuleSpec {
  wire_name : RuleName;
  wire_direction : Direction;
  wire_action : option RuleAction;
  wire_protocol : TransportProtocol;
  wire_peer_network : option IpNet;
  wire_port : option PortRange;
  wire_interface : option InterfaceName;
  wire_application : option (option ApplicationSelector);
  wire_origin : RuleOrigin;
  wire_enabled : bool
}.

Definition RuleSpec_deserialize (wire : WireRuleSpec) : Result ValidationError RuleSpec :=
  let specification := mkRuleSpec wire.(wire_name) wire.(wire_direction)
    (default Accept wire.(wire_action)) wire.(wire_protocol) wire.(wire_peer_network)
    wire.(wire_port) wire.(wire_interface) (default None wire.(wire_application))
    wire.(wire_origin) wire.(wire_enabled) in
  RuleSpec_validate specification ;; mret specification.

(** ** [Rule]

    A [Uuid] is its 128-bit value, a [DateTime<Utc>] its instant. *)

Abbreviation Uuid := Z (only parsing).
Abbreviation DateTime := Z (only parsing).
Definition is_nil (id : Uuid) : bool := id =? 0.

Record Rule : Type := mkRule {
  rule_id : Uuid;
  spec : RuleSpec;
  created_at : DateTime;
  updated_at : DateTime
}.

#[export] Instance Rule_eq_dec : EqDecision Rule.
Proof. solve_decision. Defined.

Definition set_spec (v : RuleSpec) (r : Rule) : Rule :=
  mkRule r.(rule_id) v r.(created_at) r.(updated_at).
Definition set_updated_at (v : DateTime) (r : Rule) : Rule :=
  mkRule r.(rule_id) r.(spec) r.(created_at) v.

Definition with_id_and_time (id : Uuid) (spec : RuleSpec) (now : DateTime)
    : Result ValidationError Rule :=
  RuleSpec_validate spec ;;
  fail_if (is_nil id) NilRuleId ;;
  mret (mkRule id spec now now).

(** [Rule::new]; the random identifier and the clock are arguments. *)
Definition Rule_new (new_v4 : Uuid) (utc_now : DateTime) (spec : RuleSpec)
    : Result ValidationError Rule :=
  with_id_and_time new_v4 spec utc_now.

Definition Rule_validate (self : Rule) : Result ValidationError unit :=
  fail_if (is_nil self.(rule_id)) NilRuleId ;;
  fail_if (self.(updated_at) <? self.(created_at)) InvalidRuleTimestamps ;;
  RuleSpec_validate self.(spec).

Definition redacted_for_observer (self : Rule) : Rule :=
  if is_some self.(spec).(application) then
    set_spec (set_application (Some ApplicationSelector_redacted)
               (set_name (mkRuleName REDACTED_APPLICATION_RULE_NAME) self.(spec))) self
  else self.

(** ** [LearnedEndpoint] and [LearnedApplicationEndpoint] *)

Record LearnedEndpoint : Type := mkLearnedEndpoint {
  le_address : IpAddr;
  le_protocol : TransportProtocol;
  le_port : option PortRange;
  le_interface : option InterfaceName
}.

#[export] Instance LearnedEndpoint_eq_dec : EqDecision LearnedEndpoint.
Proof. solve_decision. Defined.
#[export] Instance LearnedEndpoint_countable : Countable LearnedEndpoint.
Proof.
  by refine (inj_countable'
    (fun e => (le_address e, le_protocol e, le_port e, le_interface e))
    (fun '(a, p, q, i) => mkLearnedEndpoint a p q i) _); intros [].
Defined.

Definition LearnedEndpoint_validate (self : LearnedEndpoint) : Result ValidationError unit :=
  fail_if (is_none self.(le_interface)) LearnedEndpointNeedsInterface ;;
  match self.(le_protocol) with
  | Tcp | Udp => fail_if (is_none self.(le_port)) LearnedTransportNeedsPort
  | Icmp => fail_if (is_ipv6 self.(le_address)) ProtocolNetworkFamilyMismatch
  | IcmpV6 => fail_if (is_ipv4 self.(le_address)) ProtocolNetworkFamilyMismatch
  | Any => Err UnsupportedLearnedProtocol
  end.

Record LearnedApplicationEndpoint : Type := mkLearnedApplicationEndpoint {
  lae_endpoint : LearnedEndpoint;
  lae_application : ApplicationSelector
}.

#[export] Instance LearnedApplicationEndpoint_eq_dec : EqDecision LearnedApplicationEndpoint.
Proof. solve_decision. Defined.
#[export] Instance LearnedApplicationEndpoint_countable : Countable LearnedApplicationEndpoint.
Proof.
  by refine (inj_countable' (fun e => (lae_endpoint e, lae_application e))
    (fun p => mkLearnedApplicationEndpoint p.1 p.2) _); intros [].
Defined.

Definition LearnedApplicationEndpoint_validate (self : LearnedApplicationEndpoint)
    : Result ApplicationValidationError unit :=
  map_err (fun _ => InvalidLearnedEndpoint) (LearnedEndpoint_validate self.(lae_endpoint)) ;;
  ApplicationSelector_validate self.(lae_application) ;;
  fail_if (is_none self.(lae_application).(as_uid)
           || is_none self.(lae_application).(as_executable_file))
    IncompleteLearnedApplicationIdentity.

(** ** Counters *)

Record CounterValue : Type := mkCounterValue { packets : Z; bytes : Z }.
Record FirewallCounters : Type := mkFirewallCounters {
  accepted_in : CounterValue;
  accepted_out : CounterValue;
  dropped_in : CounterValue;
  dropped_out : CounterValue;
  learned_out : CounterValue
}.
Definition CounterValue_default : CounterValue := mkCounterValue 0 0.
Definition FirewallCounters_default : FirewallCounters :=
  mkFirewallCounters CounterValue_default CounterValue_default CounterValue_default
    CounterValue_default CounterValue_default.

(** ** Facts *)

(** A family mismatch is the one rejected protocol/network pairing. *)
Definition families_compatible (p : TransportProtocol) (n : option IpNet) : bool :=
  match p, n with
  | Icmp, Some (NetV6 _ _) | IcmpV6, Some (NetV4 _ _) => false
  | _, _ => true
  end.

Lemma check_families_Ok (self : RuleSpec) (u : unit) :
  match protocol self, peer_network self with
  | Icmp, Some (NetV6 _ _) | IcmpV6, Some (NetV4 _ _) => Err ProtocolNetworkFamilyMismatch
  | _, _ => Ok tt
  end = Ok u <-> families_compatible (protocol self) (peer_network self) = true.
Proof. destruct u, (protocol self), (peer_network self) as [[]|]; simpl; naive_solver. Qed.

Lemma RuleSpec_validate_Ok self u :
  RuleSpec_validate self = Ok u <->
  (direction self = Inbound -> action self = Accept /\ application self = None)
  /\ ~ (protocol self = Any /\ peer_network self = None /\ port self = None
        /\ interface self = None /\ application self = None)
  /\ (is_some (port self) = true -> is_tcp_or_udp (protocol self) = true)
  /\ families_compatible (protocol self) (peer_network self) = true
  /\ (forall a, application self = Some a -> ApplicationSelector_validate a = Ok tt).
Proof.
  unfold RuleSpec_validate. rewrite !seq_Ok, check_families_Ok, !fail_if_Ok.
  rewrite !andb_false_iff, !negb_false_iff, !eqb_false, !eqb_true, !is_none_false, !is_some_false.
  split.
  - intros (H1 & H2 & H3 & H4 & H5 & H6). split_and!.
    + naive_solver.
    + intros (? & ? & ? & ? & ?). destruct H2 as [[[[|[]]|[]]|[]]|[]]; congruence.
    + destruct H3 as [->|]; done.
    + done.
    + intros a Ha. rewrite Ha, map_err_Ok in H6. destruct u. done.
  - intros (H1 & H2 & H3 & H4 & H5). split_and!.
    + destruct (decide (direction self = Inbound)); naive_solver.
    + destruct (decide (protocol self = Any)); [|naive_solver].
      destruct (peer_network self), (port self), (interface self), (application self);
        naive_solver.
    + destruct (port self); simpl; naive_solver.
    + done.
    + destruct (direction self), (application self); naive_solver.
    + destruct u, (application self); [|done]. rewrite map_err_Ok. auto.
Qed.

Lemma Rule_validate_Ok self u :
  Rule_validate self = Ok u <->
  rule_id self <> 0 /\ created_at self <= updated_at self /\ RuleSpec_validate (spec self) = Ok tt.
Proof.
  unfold Rule_validate, is_nil. destruct u.
  destruct (Z.eqb_spec (rule_id self) 0); simpl; [naive_solver|].
  destruct (Z.ltb_spec (updated_at self) (created_at self)); simpl; [naive_solver lia|].
  naive_solver.
Qed.

Lemma with_id_and_time_Ok id s now r :
  with_id_and_time id s now = Ok r <->
  r = mkRule id s now now /\ RuleSpec_validate s = Ok tt /\ id <> 0.
Proof.
  unfold with_id_and_time, is_nil. split.
  - intros H. inv_ok H. naive_solver.
  - intros (-> & -> & Hid). simpl. by rewrite (proj2 (Z.eqb_neq id 0) Hid).
Qed.

(** The selectors that the enabled bit, the name and the provenance do not
    touch decide validity. *)
Lemma RuleSpec_validate_set_enabled b s : RuleSpec_validate (set_enabled b s) = RuleSpec_validate s.
Proof. done. Qed.
Lemma RuleSpec_validate_set_origin o s : RuleSpec_validate (set_origin o s) = RuleSpec_validate s.
Proof. done. Qed.

Lemma RuleSpec_validate_redacted s a :
  application s = Some a -> RuleSpec_validate s = Ok tt ->
  RuleSpec_validate (set_application (Some ApplicationSelector_redacted)
    (set_name (mkRuleName REDACTED_APPLICATION_RULE_NAME) s)) = Ok tt.
Proof.
  rewrite !RuleSpec_validate_Ok. destruct s; simpl. intros -> (H1 & H2 & H3 & H4 & H5).
  split_and!; try naive_solver.
Qed.

Lemma redacted_for_observer_validate r :
  Rule_validate r = Ok tt -> Rule_validate (redacted_for_observer r) = Ok tt.
Proof.
  unfold redacted_for_observer. destruct (application (spec r)) as [a|] eqn:E; [|done].
  rewrite !Rule_validate_Ok. simpl. intros (? & ? & ?). split_and!; try done.
  by eapply RuleSpec_validate_redacted.
Qed.

(** A validated learned endpoint names an interface and, for TCP and UDP, a
    port, and its protocol fits its address. *)
Lemma LearnedEndpoint_validate_Ok self u :
  LearnedEndpoint_validate self = Ok u <->
  is_some (le_interface self) = true
  /\ match le_protocol self with
     | Tcp | Udp => is_some (le_port self) = true
     | Icmp => is_ipv4 (le_address self) = true
     | IcmpV6 => is_ipv6 (le_address self) = true
     | Any => False
     end.
Proof.
  destruct u, self as [[] [] [] []]; unfold LearnedEndpoint_validate; simpl; naive_solver.
Qed.

(** What an unprivileged observer sees of a rule still validates, reveals
    neither the name nor any part of the application identity of an
    application rule, and leaves every other rule as it is. *)
Theorem redaction_validates_and_hides r r' :
  Rule_validate r = Ok tt ->
  Rule_validate (redacted_for_observer r) = Ok tt
  /\ (application (spec r) = None -> redacted_for_observer r = r)
  /\ (is_some (application (spec r)) = true ->
      r' = set_spec (set_application (application (spec r'))
                      (set_name (name (spec r')) (spec r))) r ->
      is_some (application (spec r')) = true ->
      redacted_for_observer r' = redacted_for_observer r).
Proof.
  intros Hr. split_and!; [by apply redacted_for_observer_validate|..].
  - unfold redacted_for_observer. by intros ->.
  - unfold redacted_for_observer. intros Ha Hr' Ha'. rewrite Ha, Ha', Hr'. done.
Qed.

Definition sample_selector : ApplicationSelector :=
  mkApplicationSelector (Some (mkApplicationPath (lit "/usr/bin/curl"))) (Some sample_file)
    None (Some 1000) None false.
Definition sample_application_rule : Rule :=
  mkRule 7 (mkRuleSpec (mkRuleName (lit "curl")) Outbound Accept Tcp None
    (Some (mkPortRange 443 443)) None (Some sample_selector) Manual true) 10 20.

Lemma redaction_validates_and_hides_witness :
  Rule_validate (redacted_for_observer sample_application_rule) = Ok tt.
Proof.
  refine (proj1 (redaction_validates_and_hides sample_application_rule
    sample_application_rule _)).
  vm_compute. reflexivity.
Defined.
