(* ===== verification/State.v ===== *)
(** * Policy state

    [crates/openshield-core/src/state.rs], first part: the state record, its
    validation and size bound, snapshots, events, observer redaction and the
    privileged mutations.  A [BTreeMap<Uuid, Rule>] is a finite map whose
    [values] are listed in key order; the mutating methods are [ST]
    computations, so that a mutation made before an error would be visible. *)

From S2P Require Import Prelude Text Net Application Model.
Local Open Scope Z_scope.

Definition MAX_RULES : Z := 10000.
Definition MAX_AUTOMATIC_LEARNED_RULES : Z := 7500.
Definition MAX_STATE_BYTES : Z := 8 * 1024 * 1024.
Definition MAX_FLOW_GENERATION : Z := 0x3fffffff.

Inductive CoreError : Type :=
| Validation (error : ValidationError)
| RuleNotFound (id : Uuid)
| DuplicateRuleId (id : Uuid)
| MismatchedRuleId (map_id rule_id : Uuid)
| RulesLimitReached (limit : Z)
| RevisionOverflow
| InvalidFlowGeneration
| FlowGenerationExhausted
| RedactedApplicationMetadata
| InvalidObserverRedaction
| UnpinnedApplicationIdentity
| StateSizeLimitReached (limit : Z)
| StateSerialization (error : ustring).

#[export] Instance CoreError_eq_dec : EqDecision CoreError.
Proof. solve_decision. Defined.

(** ** Ordered maps *)

Definition key_le {A} (p q : Z * A) : Prop := p.1 <= q.1.
#[export] Instance key_le_dec {A} : RelDecision (@key_le A).
Proof. intros p q. unfold key_le. apply _. Defined.

(** [BTreeMap] iteration and [BTreeMap::values]. *)
Definition btree_entries {A} (m : gmap Z A) : list (Z * A) := merge_sort key_le (map_to_list m).
Definition btree_values {A} (m : gmap Z A) : list A := (btree_entries m).*2.
(** [BTreeMap::len]. *)
Definition btree_len {A} (m : gmap Z A) : Z := Z.of_nat (size m).

(** ** The state *)

Record State : Type := mkState {
  revision : Z;
  flow_generation : Z;
  mode : Mode;
  enforcement_strategy : EnforcementStrategy;
  rules : gmap Z Rule
}.

Definition set_revision (v : Z) (s : State) : State :=
  mkState v s.(flow_generation) s.(mode) s.(enforcement_strategy) s.(rules).
Definition set_flow_generation (v : Z) (s : State) : State :=
  mkState s.(revision) v s.(mode) s.(enforcement_strategy) s.(rules).
Definition set_mode_field (v : Mode) (s : State) : State :=
  mkState s.(revision) s.(flow_generation) v s.(enforcement_strategy) s.(rules).
Definition set_strategy (v : EnforcementStrategy) (s : State) : State :=
  mkState s.(revision) s.(flow_generation) s.(mode) v s.(rules).
Definition set_rules (v : gmap Z Rule) (s : State) : State :=
  mkState s.(revision) s.(flow_generation) s.(mode) s.(enforcement_strategy) v.

Definition initial_flow_generation : Z := 1.
Definition State_new : State := mkState 0 initial_flow_generation BlockAll Strict ∅.

(** ** Checks on rule specifications *)

Definition reject_redacted_spec (spec : RuleSpec) : Result CoreError unit :=
  fail_if (is_some_and as_metadata_redacted spec.(application)) RedactedApplicationMetadata.

Definition reject_redacted_rule (rule : Rule) : Result CoreError unit :=
  reject_redacted_spec rule.(spec).

Definition is_unpinned_application_template (spec : RuleSpec) : bool :=
  match spec.(application) with
  | None => false
  | Some selector =>
      (spec.(origin) ==? Template)
      && negb spec.(enabled)
      && (spec.(action) ==? Accept)
      && (spec.(direction) ==? Outbound)
      && (spec.(protocol) ==? Any)
      && is_none spec.(peer_network)
      && is_none spec.(port)
      && is_none spec.(interface)
      && is_some selector.(as_executable)
      && is_none selector.(as_executable_file)
      && is_none selector.(as_command_line)
      && is_none selector.(as_uid)
      && negb selector.(as_metadata_redacted)
  end.

Definition reject_unpinned_application_spec (spec : RuleSpec) : Result CoreError unit :=
  fail_if (is_some_and (fun selector => is_none selector.(as_executable_file)) spec.(application)
           && negb (is_unpinned_application_template spec))
    UnpinnedApplicationIdentity.

Definition clear_executable_file (selector : ApplicationSelector) : ApplicationSelector :=
  mkApplicationSelector selector.(as_executable) None selector.(as_command_line)
    selector.(as_uid) selector.(as_cgroup) selector.(as_metadata_redacted).

Definition clear_disabled_template_pin_if_skeleton (spec : RuleSpec) : RuleSpec :=
  if (spec.(origin) !=? Template) || spec.(enabled) || (spec.(action) !=? Accept)
     || (spec.(direction) !=? Outbound) || (spec.(protocol) !=? Any)
     || is_some spec.(peer_network) || is_some spec.(port) || is_some spec.(interface)
  then spec
  else
    match spec.(application) with
    | Some selector =>
        if is_some selector.(as_executable) && is_none selector.(as_command_line)
           && is_none selector.(as_uid) && negb selector.(as_metadata_redacted)
        then set_application (Some (clear_executable_file selector)) spec
        else spec
    | None => spec
    end.

(** ** Serialized size

    [serde_json] is a parameter: [state_writes s] is the sequence of buffer
    sizes it hands to the writer for [s] and the error it ends with, if the
    value itself cannot be serialized. *)

Class JsonLib : Type := {
  state_writes : State -> list Z * option ustring;
  rule_to_vec_len : Rule -> Result ustring Z;
  uuid_to_string : Uuid -> ustring
}.

(** A concrete instance: one write per state, of a size linear in the number
    of rules, and the textual form of identifiers reduced to its length. *)
Definition ref_json : JsonLib := {|
  state_writes s := ([100; 400 * btree_len s.(rules)], None);
  rule_to_vec_len _ := Ok 358;
  uuid_to_string _ := replicate 36 48
|}.

Record SizeCounter : Type := mkSizeCounter { counter_bytes : Z; exceeded : bool }.
Definition SizeCounter_default : SizeCounter := mkSizeCounter 0 false.

Definition SizeCounter_write (len : Z) : ST SizeCounter ustring Z := fun self =>
  match usize_checked_add self.(counter_bytes) len with
  | None => (mkSizeCounter self.(counter_bytes) true, Err (lit "serialized state size overflow"))
  | Some total =>
      if MAX_STATE_BYTES <? total then
        (mkSizeCounter self.(counter_bytes) true,
         Err (lit "serialized state exceeds fixed limit"))
      else (mkSizeCounter total self.(exceeded), Ok len)
  end.

(** [serde_json::to_writer]: the writes in order, stopping at the first one
    that fails. *)
Fixpoint write_all (lens : list Z) : ST SizeCounter ustring unit :=
  match lens with
  | [] => mret tt
  | len :: lens' => SizeCounter_write len ;; write_all lens'
  end.

Section JsonSize.
Context `{JsonLib}.

Definition to_writer (state : State) : ST SizeCounter ustring unit :=
  write_all (state_writes state).1 ;;
  lift match (state_writes state).2 with Some error => Err error | None => Ok tt end.

Definition bounded_serialized_state_size (state : State) : Result CoreError Z :=
  match to_writer state SizeCounter_default with
  | (counter, Ok _) => Ok counter.(counter_bytes)
  | (counter, Err error) =>
      if counter.(exceeded) then Err (StateSizeLimitReached MAX_STATE_BYTES)
      else Err (StateSerialization error)
  end.

Definition serialized_rule_map_entry_delta (rule : Rule)
    (previous_revision current_revision : Z) (had_rules : bool) : Result CoreError Z :=
  rule_size ← map_err StateSerialization (rule_to_vec_len rule);
  let key_and_separator_size :=
    usize_saturating_add (byte_len (uuid_to_string rule.(rule_id))) 3 in
  let comma_size := if had_rules then 1 else 0 in
  let previous_revision_size := byte_len (dec previous_revision) in
  let current_revision_size := byte_len (dec current_revision) in
  ok_or (StateSerialization (lit "state size arithmetic overflowed"))
    (size ← usize_checked_add rule_size key_and_separator_size;
     size ← usize_checked_add size comma_size;
     size ← usize_checked_add size current_revision_size;
     usize_checked_sub size previous_revision_size).

(** ** [State::validate] *)

Definition generation_in_domain (generation : Z) : bool :=
  (1 <=? generation) && (generation <=? MAX_FLOW_GENERATION).

Definition validate_entry (entry : Uuid * Rule) : Result CoreError unit :=
  fail_if (entry.1 !=? entry.2.(rule_id)) (MismatchedRuleId entry.1 entry.2.(rule_id)) ;;
  map_err Validation (Rule_validate entry.2) ;;
  reject_redacted_rule entry.2 ;;
  reject_unpinned_application_spec entry.2.(spec).

(** A [for] loop whose body may return early with [?]. *)
Fixpoint for_each {E A} (f : A -> Result E unit) (l : list A) : Result E unit :=
  match l with
  | [] => Ok tt
  | x :: l' => f x ;; for_each f l'
  end.

Definition State_validate (self : State) : Result CoreError unit :=
  fail_if (MAX_RULES <? btree_len self.(rules)) (RulesLimitReached MAX_RULES) ;;
  fail_if (negb (generation_in_domain self.(flow_generation))) InvalidFlowGeneration ;;
  for_each validate_entry (btree_entries self.(rules)) ;;
  _ ← bounded_serialized_state_size self;
  mret tt.
End JsonSize.

(** ** Application interception *)

Inductive ApplicationInterception : Type := InterceptNone | TcpInitial | PerPacket.

#[export] Instance ApplicationInterception_eq_dec : EqDecision ApplicationInterception.
Proof. solve_decision. Defined.

(** The loop of [classify_application_interception] with its accumulator. *)
Fixpoint classify_rules (interception : ApplicationInterception) (rules : list Rule)
    : ApplicationInterception :=
  match rules with
  | [] => interception
  | rule :: rest =>
      if negb rule.(spec).(enabled) || (rule.(spec).(direction) !=? Outbound)
         || is_none rule.(spec).(application)
      then classify_rules interception rest
      else
        match rule.(spec).(protocol) with
        | Tcp => classify_rules TcpInitial rest
        | Any | Udp | Icmp | IcmpV6 => PerPacket
        end
  end.

Definition classify_application_interception (mode : Mode) (rules : list Rule)
    : ApplicationInterception :=
  match mode with
  | BlockAll => InterceptNone
  | Learning => PerPacket
  | Enforcing => classify_rules InterceptNone rules
  end.

(** ** Snapshots *)

Record Snapshot : Type := mkSnapshot {
  snap_revision : Z;
  snap_flow_generation : Z;
  snap_mode : Mode;
  snap_rules : list Rule
}.

Definition Snapshot_application_interception (self : Snapshot) : ApplicationInterception :=
  classify_application_interception self.(snap_mode) self.(snap_rules).

(** The loop of [Snapshot::validate], with the identifiers seen so far. *)
Fixpoint snapshot_rules_validate (ids : gset Z) (rules : list Rule) : Result CoreError unit :=
  match rules with
  | [] => Ok tt
  | rule :: rest =>
      map_err Validation (Rule_validate rule) ;;
      reject_redacted_rule rule ;;
      reject_unpinned_application_spec rule.(spec) ;;
      fail_if (bool_decide (rule.(rule_id) ∈ ids)) (DuplicateRuleId rule.(rule_id)) ;;
      snapshot_rules_validate ({[rule.(rule_id)]} ∪ ids) rest
  end.

Definition Snapshot_validate (self : Snapshot) : Result CoreError unit :=
  fail_if (MAX_RULES <? zlen self.(snap_rules)) (RulesLimitReached MAX_RULES) ;;
  fail_if (negb (generation_in_domain self.(snap_flow_generation))) InvalidFlowGeneration ;;
  snapshot_rules_validate ∅ self.(snap_rules).

(** The loop of [Snapshot::validate_for_observer]. *)
Fixpoint observer_rules_validate (ids : gset Z) (redaction_state : option bool)
    (rules : list Rule) : Result CoreError unit :=
  match rules with
  | [] => Ok tt
  | rule :: rest =>
      map_err Validation (Rule_validate rule) ;;
      redaction_state ←
        match rule.(spec).(application) with
        | Some selector =>
            let redacted := selector.(as_metadata_redacted) in
            fail_if (redacted && (name_str rule.(spec).(name) !=? REDACTED_APPLICATION_RULE_NAME))
              InvalidObserverRedaction ;;
            (if negb redacted then reject_unpinned_application_spec rule.(spec) else Ok tt) ;;
            fail_if (is_some_and (fun previous => negb (eqb previous redacted)) redaction_state)
              InvalidObserverRedaction ;;
            mret (Some redacted)
        | None => mret redaction_state
        end;
      fail_if (bool_decide (rule.(rule_id) ∈ ids)) (DuplicateRuleId rule.(rule_id)) ;;
      observer_rules_validate ({[rule.(rule_id)]} ∪ ids) redaction_state rest
  end.

Definition validate_for_observer (self : Snapshot) : Result CoreError unit :=
  fail_if (MAX_RULES <? zlen self.(snap_rules)) (RulesLimitReached MAX_RULES) ;;
  fail_if (negb (generation_in_domain self.(snap_flow_generation))) InvalidFlowGeneration ;;
  observer_rules_validate ∅ None self.(snap_rules).

Definition Snapshot_redacted_for_observer (self : Snapshot) : Snapshot :=
  mkSnapshot self.(snap_revision) self.(snap_flow_generation) self.(snap_mode)
    (redacted_for_observer <$> self.(snap_rules)).

(** ** Events *)

Inductive EventKind : Type :=
| ModeChanged (previous current : Mode)
| RuleCreated (rule : Rule)
| RuleUpdated (rule : Rule)
| RuleDeleted (rule : Rule)
| RuleEnabledChanged (rule : Rule)
| CountersUpdated (counters : FirewallCounters).

Record Event : Type := mkEvent {
  event_revision : Z;
  occurred_at : DateTime;
  kind : EventKind
}.

Definition EventKind_redacted (kind : EventKind) : EventKind :=
  match kind with
  | RuleCreated rule => RuleCreated (redacted_for_observer rule)
  | RuleUpdated rule => RuleUpdated (redacted_for_observer rule)
  | RuleDeleted rule => RuleDeleted (redacted_for_observer rule)
  | RuleEnabledChanged rule => RuleEnabledChanged (redacted_for_observer rule)
  | other => other
  end.

Definition Event_redacted_for_observer (self : Event) : Event :=
  mkEvent self.(event_revision) self.(occurred_at) (EventKind_redacted self.(kind)).

(** ** Queries *)

Definition State_rules (self : State) : list Rule := btree_values self.(rules).

(** [BTreeMap::range] from an excluded lower bound. *)
Definition rules_after (self : State) (cursor : option Uuid) : list Rule :=
  (List.filter (fun entry => is_none_or (fun cursor => cursor <? entry.1) cursor)
     (btree_entries self.(rules))).*2.

Definition State_rule (self : State) (id : Uuid) : option Rule := self.(rules) !! id.

Definition State_application_interception (self : State) : ApplicationInterception :=
  classify_application_interception self.(mode) (State_rules self).

Definition State_snapshot (self : State) : Snapshot :=
  mkSnapshot self.(revision) self.(flow_generation) self.(mode) (btree_values self.(rules)).

Definition from_snapshot `{JsonLib} (snapshot : Snapshot) : Result CoreError State :=
  Snapshot_validate snapshot ;;
  let rules := foldl (fun m rule => <[rule.(rule_id) := rule]> m) ∅ snapshot.(snap_rules) in
  let state := mkState snapshot.(snap_revision) snapshot.(snap_flow_generation)
    snapshot.(snap_mode) Strict rules in
  State_validate state ;; mret state.

Definition counters_event (self : State) (counters : FirewallCounters) (now : DateTime) : Event :=
  mkEvent self.(revision) now (CountersUpdated counters).

Definition next_revision (self : State) : Result CoreError Z :=
  ok_or RevisionOverflow (u64_checked_add self.(revision) 1).

Definition next_flow_generation (self : State) : Result CoreError Z :=
  if MAX_FLOW_GENERATION <=? self.(flow_generation) then Err FlowGenerationExhausted
  else Ok (self.(flow_generation) + 1).

(** ** Mutations *)

Definition rotate_flow_generation (generation : Z) : ST State CoreError unit :=
  self ← get;
  lift (fail_if (negb (generation_in_domain generation)
                 || (generation =? self.(flow_generation))) InvalidFlowGeneration) ;;
  modify (set_flow_generation generation).

Definition set_mode_with_strategy_at (mode : Mode) (strategy : EnforcementStrategy)
    (now : DateTime) : ST State CoreError Event :=
  self ← get;
  revision ← lift (next_revision self);
  flow_generation ← lift
    match next_flow_generation self with
    | Ok generation => Ok generation
    | Err error =>
        if (error ==? FlowGenerationExhausted) && (mode ==? BlockAll)
        then Ok self.(flow_generation) else Err error
    end;
  let previous := self.(State.mode) in
  modify (set_mode_field mode) ;;
  modify (set_strategy strategy) ;;
  modify (set_flow_generation flow_generation) ;;
  modify (set_revision revision) ;;
  mret (mkEvent revision now (ModeChanged previous mode)).

Definition set_mode_at (mode : Mode) (now : DateTime) : ST State CoreError Event :=
  self ← get;
  let strategy := if mode ==? Enforcing then Strict else self.(enforcement_strategy) in
  set_mode_with_strategy_at mode strategy now.

(** The clock and the random identifiers of [set_mode], [enforce],
    [create_rule], ... are arguments. *)
Definition set_mode (mode : Mode) (utc_now : DateTime) : ST State CoreError Event :=
  set_mode_at mode utc_now.

Definition enforce (strategy : EnforcementStrategy) (utc_now : DateTime)
    : ST State CoreError Event :=
  set_mode_with_strategy_at Enforcing strategy utc_now.

(** [bool::then] with a fallible closure, transposed. *)
Definition then_transpose {E A} (b : bool) (m : Result E A) : Result E (option A) :=
  if b then Some <$> m else Ok None.

Definition when_some {S E A} (o : option A) (f : A -> S -> S) : ST S E unit :=
  match o with Some a => modify (f a) | None => mret tt end.

Definition create_rule_at (id : Uuid) (spec : RuleSpec) (now : DateTime)
    : ST State CoreError (Rule * Event) :=
  self ← get;
  lift (reject_redacted_spec spec) ;;
  lift (reject_unpinned_application_spec spec) ;;
  lift (fail_if (MAX_RULES <=? btree_len self.(rules)) (RulesLimitReached MAX_RULES)) ;;
  lift (fail_if (is_some (self.(rules) !! id)) (DuplicateRuleId id)) ;;
  rule ← lift (map_err Validation (with_id_and_time id spec now));
  revision ← lift (next_revision self);
  flow_generation ← lift
    (then_transpose (rule.(Model.spec).(enabled) && (rule.(Model.spec).(action) !=? Accept))
       (next_flow_generation self));
  modify (fun s => set_rules (<[id := rule]> s.(rules)) s) ;;
  when_some flow_generation set_flow_generation ;;
  modify (set_revision revision) ;;
  mret (rule, mkEvent revision now (RuleCreated rule)).

Definition create_rule (new_v4 : Uuid) (utc_now : DateTime) (spec : RuleSpec)
    : ST State CoreError (Rule * Event) :=
  create_rule_at new_v4 spec utc_now.

Definition update_rule_at (id : Uuid) (spec : RuleSpec) (now : DateTime)
    : ST State CoreError (Rule * Event) :=
  let spec := clear_disabled_template_pin_if_skeleton spec in
  lift (map_err Validation (RuleSpec_validate spec)) ;;
  lift (reject_redacted_spec spec) ;;
  lift (reject_unpinned_application_spec spec) ;;
  self ← get;
  revision ← lift (next_revision self);
  current ← lift (ok_or (RuleNotFound id) (self.(rules) !! id));
  flow_generation ← lift (next_flow_generation self);
  let rule := set_spec spec current in
  let rule := set_updated_at (Z.max now rule.(updated_at)) rule in
  lift (map_err Validation (Rule_validate rule)) ;;
  modify (fun s => set_rules (<[id := rule]> s.(rules)) s) ;;
  modify (set_flow_generation flow_generation) ;;
  modify (set_revision revision) ;;
  mret (rule, mkEvent revision now (RuleUpdated rule)).

Definition update_rule (utc_now : DateTime) (id : Uuid) (spec : RuleSpec)
    : ST State CoreError (Rule * Event) :=
  update_rule_at id spec utc_now.

Definition delete_rule_at (id : Uuid) (now : DateTime) : ST State CoreError (Rule * Event) :=
  self ← get;
  revision ← lift (next_revision self);
  rule ← lift (ok_or (RuleNotFound id) (self.(rules) !! id));
  flow_generation ← lift (next_flow_generation self);
  modify (fun s => set_rules (delete id s.(rules)) s) ;;
  modify (set_flow_generation flow_generation) ;;
  modify (set_revision revision) ;;
  mret (rule, mkEvent revision now (RuleDeleted rule)).

Definition delete_rule (utc_now : DateTime) (id : Uuid) : ST State CoreError (Rule * Event) :=
  delete_rule_at id utc_now.

Definition set_rule_enabled_at (id : Uuid) (enabled : bool) (now : DateTime)
    : ST State CoreError (Rule * Event) :=
  self ← get;
  revision ← lift (next_revision self);
  current ← lift (ok_or (RuleNotFound id) (self.(rules) !! id));
  let was := current.(spec).(Model.enabled) in
  flow_generation ← lift
    (then_transpose ((was && negb enabled)
                     || (negb was && enabled && (current.(spec).(action) !=? Accept)))
       (next_flow_generation self));
  let rule := set_spec (set_enabled enabled current.(spec)) current in
  let rule := set_spec (clear_disabled_template_pin_if_skeleton rule.(spec)) rule in
  let rule := set_updated_at (Z.max now rule.(updated_at)) rule in
  lift (map_err Validation (Rule_validate rule)) ;;
  lift (reject_unpinned_application_spec rule.(spec)) ;;
  modify (fun s => set_rules (<[id := rule]> s.(rules)) s) ;;
  when_some flow_generation set_flow_generation ;;
  modify (set_revision revision) ;;
  mret (rule, mkEvent revision now (RuleEnabledChanged rule)).

Definition set_rule_enabled (utc_now : DateTime) (id : Uuid) (enabled : bool)
    : ST State CoreError (Rule * Event) :=
  set_rule_enabled_at id enabled utc_now.
