(* ===== verification/StateFacts.v ===== *)
(** * Facts about the policy state

    Iteration over ordered maps, the behaviour of every mutation on every
    branch, the state invariant and its relation to [State::validate]. *)

From S2P Require Import Prelude Text Net Application Model State.
Local Open Scope Z_scope.

(** ** Ordered maps *)

Section BTree.
Context {A : Type}.
Implicit Types (m : gmap Z A).

#[local] Instance key_le_total : Total (@key_le A).
Proof. intros p q. unfold key_le. lia. Qed.
#[local] Instance key_le_trans : Transitive (@key_le A).
Proof. intros p q r. unfold key_le. lia. Qed.

Lemma btree_entries_perm m : btree_entries m ≡ₚ map_to_list m.
Proof. apply merge_sort_Permutation. Qed.

Lemma btree_entries_sorted m : StronglySorted key_le (btree_entries m).
Proof. apply StronglySorted_merge_sort; apply _. Qed.

Lemma elem_of_btree_entries m k v : (k, v) ∈ btree_entries m <-> m !! k = Some v.
Proof. by rewrite btree_entries_perm, elem_of_map_to_list. Qed.

Lemma elem_of_btree_values m v : v ∈ btree_values m <-> exists k, m !! k = Some v.
Proof.
  unfold btree_values. rewrite list_elem_of_fmap. split.
  - intros ([k v'] & -> & Hk). exists k. by apply elem_of_btree_entries.
  - intros [k Hk]. exists (k, v). by rewrite elem_of_btree_entries.
Qed.

Lemma btree_values_perm m : btree_values m ≡ₚ (map_to_list m).*2.
Proof. apply fmap_Permutation, btree_entries_perm. Qed.

Lemma btree_values_length m : zlen (btree_values m) = btree_len m.
Proof.
  unfold zlen, btree_len. by rewrite btree_values_perm, length_fmap, length_map_to_list.
Qed.

Lemma btree_values_insert m k v :
  m !! k = None -> btree_values (<[k := v]> m) ≡ₚ v :: btree_values m.
Proof. intros Hk. by rewrite !btree_values_perm, map_to_list_insert. Qed.

Lemma btree_values_delete m k v :
  m !! k = Some v -> btree_values m ≡ₚ v :: btree_values (delete k m).
Proof.
  intros Hk. rewrite <-(insert_delete_id m k v) at 1 by done.
  apply btree_values_insert, lookup_delete_eq.
Qed.

Lemma btree_len_insert m k v : m !! k = None -> btree_len (<[k := v]> m) = btree_len m + 1.
Proof. intros. unfold btree_len. rewrite map_size_insert_None; [lia|done]. Qed.

Lemma btree_len_insert_Some m k v v' :
  m !! k = Some v' -> btree_len (<[k := v]> m) = btree_len m.
Proof. intros. unfold btree_len. by erewrite map_size_insert_Some. Qed.

Lemma btree_len_delete m k v : m !! k = Some v -> btree_len (delete k m) = btree_len m - 1.
Proof.
  intros Hk. unfold btree_len. erewrite map_size_delete_Some by done.
  assert (size m <> 0%nat); [|lia].
  intros Hz%map_size_empty_iff. subst. by rewrite lookup_empty in Hk.
Qed.
End BTree.

Lemma for_each_Ok {E A} (f : A -> Result E unit) l u :
  for_each f l = Ok u <-> Forall (fun x => f x = Ok tt) l.
Proof.
  destruct u. induction l as [|x l IH]; simpl; [split; [constructor|done]|].
  rewrite seq_Ok, Forall_cons, IH. done.
Qed.

(** ** The state invariant *)

(** What [State::validate] asks of one entry. *)
Definition entry_ok (id : Uuid) (r : Rule) : Prop :=
  rule_id r = id /\ Rule_validate r = Ok tt
  /\ reject_redacted_rule r = Ok tt /\ reject_unpinned_application_spec (spec r) = Ok tt.

Record state_ok (s : State) : Prop := {
  state_ok_revision : 0 <= revision s <= U64_MAX;
  state_ok_generation : 1 <= flow_generation s <= MAX_FLOW_GENERATION;
  state_ok_size : btree_len (rules s) <= MAX_RULES;
  state_ok_entries : map_Forall entry_ok (rules s)
}.

Lemma generation_in_domain_true g :
  generation_in_domain g = true <-> 1 <= g <= MAX_FLOW_GENERATION.
Proof. unfold generation_in_domain. rewrite andb_true_iff, !Z.leb_le. done. Qed.

Lemma validate_entry_Ok entry u :
  validate_entry entry = Ok u <-> entry_ok entry.1 entry.2.
Proof.
  unfold validate_entry, entry_ok. destruct entry as [id r]; simpl. destruct u.
  rewrite !seq_Ok, fail_if_Ok, negb_false_iff, eqb_true, map_err_Ok. naive_solver.
Qed.

Section Validate.
Context `{JsonLib}.

Lemma State_validate_Ok s :
  State_validate s = Ok tt <->
  btree_len (rules s) <= MAX_RULES
  /\ 1 <= flow_generation s <= MAX_FLOW_GENERATION
  /\ map_Forall entry_ok (rules s)
  /\ exists n, bounded_serialized_state_size s = Ok n.
Proof.
  unfold State_validate. rewrite !seq_Ok, !fail_if_Ok, bind_Ok_inv, for_each_Ok.
  rewrite Z.ltb_ge, negb_false_iff, generation_in_domain_true.
  rewrite Forall_forall. setoid_rewrite validate_entry_Ok.
  assert (Hmap : (forall x, x ∈ btree_entries (rules s) -> entry_ok x.1 x.2)
    <-> map_Forall entry_ok (rules s)).
  { split.
    - intros Hx k r Hk. by apply (Hx (k, r)), elem_of_btree_entries.
    - intros Hm [k r] Hk. by apply Hm, elem_of_btree_entries. }
  rewrite Hmap. naive_solver.
Qed.
End Validate.

Lemma State_new_ok : state_ok State_new.
Proof.
  split; simpl; [unfold U64_MAX; lia|unfold initial_flow_generation, MAX_FLOW_GENERATION; lia| |].
  - unfold btree_len. rewrite map_size_empty. unfold MAX_RULES. lia.
  - apply map_Forall_empty.
Qed.

(** ** The counters *)

Lemma next_revision_Ok s v :
  next_revision s = Ok v <-> v = revision s + 1 /\ revision s + 1 <= U64_MAX.
Proof. unfold next_revision. by rewrite ok_or_Ok, u64_checked_add_Some. Qed.

Lemma next_flow_generation_Ok s v :
  next_flow_generation s = Ok v <->
  v = flow_generation s + 1 /\ flow_generation s < MAX_FLOW_GENERATION.
Proof.
  unfold next_flow_generation. destruct (Z.leb_spec MAX_FLOW_GENERATION (flow_generation s));
    naive_solver lia.
Qed.

Lemma next_flow_generation_Err s e :
  next_flow_generation s = Err e <->
  e = FlowGenerationExhausted /\ MAX_FLOW_GENERATION <= flow_generation s.
Proof.
  unfold next_flow_generation. destruct (Z.leb_spec MAX_FLOW_GENERATION (flow_generation s));
    naive_solver lia.
Qed.

Lemma bump_generation_Ok b s o :
  then_transpose b (next_flow_generation s) = Ok o <->
  (b = true -> flow_generation s < MAX_FLOW_GENERATION)
  /\ o = if b then Some (flow_generation s + 1) else None.
Proof.
  unfold then_transpose, next_flow_generation.
  destruct b, (Z.leb_spec MAX_FLOW_GENERATION (flow_generation s)); simpl; naive_solver lia.
Qed.

Lemma run_when_bumped {E B} (b : bool) g (f : unit -> ST State E B) s :
  (when_some (if b then Some g else None) set_flow_generation ≫= f) s
  = f tt (set_flow_generation (if b then g else flow_generation s) s).
Proof. by destruct b, s. Qed.

#[export] Hint Rewrite next_revision_Ok next_flow_generation_Ok generation_in_domain_true bump_generation_Ok : result.

(** ** What each mutation does *)

#[export] Instance NoFail_when_some {S E A} (o : option A) (f : A -> S -> S) :
  NoFail (E := E) (when_some o f).
Proof. unfold when_some. destruct o; apply _. Qed.

(** A specification that may enter the state as it stands. *)
Definition admissible (sp : RuleSpec) : Prop :=
  RuleSpec_validate sp = Ok tt /\ reject_redacted_spec sp = Ok tt
  /\ reject_unpinned_application_spec sp = Ok tt.

Definition enabled_deny (sp : RuleSpec) : bool := enabled sp && (action sp !=? Accept).

(** The state after a mutation of the rules that consumes one revision. *)
Definition advance (bump : bool) (m : gmap Z Rule) (s : State) : State :=
  mkState (revision s + 1) (if bump then flow_generation s + 1 else flow_generation s)
    (mode s) (enforcement_strategy s) m.

Definition counters_available (bump : bool) (s : State) : Prop :=
  revision s + 1 <= U64_MAX /\ (bump = true -> flow_generation s < MAX_FLOW_GENERATION).

Lemma create_rule_at_Ok id sp now s s' r ev :
  create_rule_at id sp now s = (s', Ok (r, ev)) <->
  (admissible sp /\ btree_len (rules s) < MAX_RULES /\ rules s !! id = None /\ id <> 0
   /\ counters_available (enabled_deny sp) s)
  /\ r = mkRule id sp now now
  /\ ev = mkEvent (revision s + 1) now (RuleCreated r)
  /\ s' = advance (enabled_deny sp) (<[id := r]> (rules s)) s.
Proof.
  unfold create_rule_at, admissible, counters_available, advance, enabled_deny.
  rewrite run_get, !run_seq_Ok, run_lift_Ok, !fail_if_Ok, Z.leb_gt, is_some_false. split.
  - intros (Hr & Hu & Hlen & Hid & rule & Hrule & H).
    rewrite map_err_Ok, with_id_and_time_Ok in Hrule. destruct Hrule as (-> & Hv & Hnz).
    inv_run H. rewrite run_when_bumped in H. inv_run H. split_and!; autorewrite with result; auto.
  - intros (((Hv & Hr & Hu) & Hlen & Hid & Hnz & Hrev & Hgen) & -> & -> & ->).
    split_and!; try done.
    exists (mkRule id sp now now). split; [by rewrite map_err_Ok, with_id_and_time_Ok|].
    rewrite run_lift_Ok. eexists. rewrite next_revision_Ok. split; [done|].
    rewrite run_lift_Ok. eexists. rewrite bump_generation_Ok. split; [done|].
    rewrite run_modify, run_when_bumped. done.
Qed.

#[export] Instance create_rule_at_err_safe id sp now : ErrSafe (create_rule_at id sp now).
Proof. unfold create_rule_at. apply _. Qed.

(** The specification an update stores. *)
Definition stored_spec := clear_disabled_template_pin_if_skeleton.

Lemma update_rule_at_Ok id sp now s s' r ev :
  update_rule_at id sp now s = (s', Ok (r, ev)) <->
  exists current,
  (admissible (stored_spec sp) /\ rules s !! id = Some current /\ rule_id current <> 0
   /\ created_at current <= Z.max now (updated_at current) /\ counters_available true s)
  /\ r = mkRule (rule_id current) (stored_spec sp) (created_at current)
           (Z.max now (updated_at current))
  /\ ev = mkEvent (revision s + 1) now (RuleUpdated r)
  /\ s' = advance true (<[id := r]> (rules s)) s.
Proof.
  unfold update_rule_at, admissible, counters_available, advance, stored_spec.
  rewrite !run_seq_Ok, run_get, !run_lift_Ok, map_err_Ok. split.
  - intros (Hv & Hr & Hu & v & Hrev & H). inv_ok Hrev. inv_run H.
    match goal with Hr : Rule_validate _ = _ |- _ => apply Rule_validate_Ok in Hr end.
    simpl in *. destruct_and!. exists v.
    split_and!; autorewrite with result; auto.
  - intros (current & ((Hv & Hr & Hu) & Hid & Hnz & Hle & Hrev & Hgen) & -> & -> & ->).
    split_and!; try done. eexists. rewrite next_revision_Ok. split; [done|].
    rewrite run_lift_Ok. exists current. rewrite ok_or_Ok. split; [done|].
    rewrite run_lift_Ok. eexists. rewrite next_flow_generation_Ok. split; [auto|].
    rewrite run_seq_Ok, map_err_Ok, Rule_validate_Ok. done.
Qed.

#[export] Instance update_rule_at_err_safe id sp now : ErrSafe (update_rule_at id sp now).
Proof. unfold update_rule_at. apply _. Qed.

Lemma delete_rule_at_Ok id now s s' r ev :
  delete_rule_at id now s = (s', Ok (r, ev)) <->
  (rules s !! id = Some r /\ counters_available true s)
  /\ ev = mkEvent (revision s + 1) now (RuleDeleted r)
  /\ s' = advance true (delete id (rules s)) s.
Proof.
  unfold delete_rule_at, counters_available, advance. rewrite run_get, run_lift_Ok. split.
  - intros (v & Hrev & H). inv_ok Hrev. inv_run H. split_and!; autorewrite with result; auto.
  - intros ((Hid & Hrev & Hgen) & -> & ->).
    eexists. rewrite next_revision_Ok. split; [done|].
    rewrite run_lift_Ok. exists r. rewrite ok_or_Ok. split; [done|].
    rewrite run_lift_Ok. eexists. rewrite next_flow_generation_Ok. split; [auto|]. done.
Qed.

#[export] Instance delete_rule_at_err_safe id now : ErrSafe (delete_rule_at id now).
Proof. unfold delete_rule_at. apply _. Qed.

(** Switching a rule off, or switching a denying rule on, ends the current
    flow generation. *)
Definition enabling_bumps (sp : RuleSpec) (b : bool) : bool :=
  (enabled sp && negb b) || (negb (enabled sp) && b && (action sp !=? Accept)).

Lemma set_rule_enabled_at_Ok id b now s s' r ev :
  set_rule_enabled_at id b now s = (s', Ok (r, ev)) <->
  exists current,
  (rules s !! id = Some current
   /\ Rule_validate r = Ok tt /\ reject_unpinned_application_spec (spec r) = Ok tt
   /\ counters_available (enabling_bumps (spec current) b) s)
  /\ r = mkRule (rule_id current) (stored_spec (set_enabled b (spec current)))
           (created_at current) (Z.max now (updated_at current))
  /\ ev = mkEvent (revision s + 1) now (RuleEnabledChanged r)
  /\ s' = advance (enabling_bumps (spec current) b) (<[id := r]> (rules s)) s.
Proof.
  unfold set_rule_enabled_at, counters_available, advance, stored_spec, enabling_bumps.
  rewrite run_get, run_lift_Ok. split.
  - intros (v & Hrev & H). inv_ok Hrev. inv_run H. rewrite run_when_bumped in H. inv_run H.
    exists v. split_and!; autorewrite with result; auto.
  - intros (current & (Hid & Hv & Hu & Hrev & Hgen) & Hr & -> & ->).
    eexists. rewrite next_revision_Ok. split; [done|].
    rewrite run_lift_Ok. exists current. rewrite ok_or_Ok. split; [done|].
    rewrite run_lift_Ok. eexists. rewrite bump_generation_Ok. split; [split; [exact Hgen|done]|].
    subst r. rewrite !run_seq_Ok, map_err_Ok. split_and!; [done..|].
    rewrite run_modify, run_when_bumped. done.
Qed.

#[export] Instance set_rule_enabled_at_err_safe id b now :
  ErrSafe (set_rule_enabled_at id b now).
Proof. unfold set_rule_enabled_at. apply _. Qed.

Lemma set_mode_with_strategy_at_Ok m strategy now s s' ev :
  set_mode_with_strategy_at m strategy now s = (s', Ok ev) <->
  exists g,
  (revision s + 1 <= U64_MAX
   /\ ((flow_generation s < MAX_FLOW_GENERATION /\ g = flow_generation s + 1)
       \/ (MAX_FLOW_GENERATION <= flow_generation s /\ m = BlockAll /\ g = flow_generation s)))
  /\ ev = mkEvent (revision s + 1) now (ModeChanged (mode s) m)
  /\ s' = mkState (revision s + 1) g m strategy (rules s).
Proof.
  unfold set_mode_with_strategy_at. rewrite run_get, run_lift_Ok.
  setoid_rewrite next_revision_Ok. setoid_rewrite run_lift_Ok. unfold next_flow_generation.
  destruct (Z.leb_spec MAX_FLOW_GENERATION (flow_generation s)).
  - rewrite eqb_refl. destruct m; simpl; [|naive_solver lia..]. split.
    + intros (v & [-> ?] & g & [= <-] & Hrun). inv_run Hrun. eexists. split_and!; eauto.
    + intros (g & (? & [?|?]) & -> & ->); [lia|]. destruct_and!. subst. eexists. split; [done|].
      eexists. split; done.
  - split.
    + intros (v & [-> ?] & g & [= <-] & Hrun). inv_run Hrun. eexists. split_and!; eauto.
    + intros (g & (? & [[??]|?]) & -> & ->); [|lia]. subst. eexists. split; [done|].
      eexists. split; done.
Qed.

#[export] Instance set_mode_with_strategy_at_err_safe m strategy now :
  ErrSafe (set_mode_with_strategy_at m strategy now).
Proof. unfold set_mode_with_strategy_at. apply _. Qed.

#[export] Instance set_mode_at_err_safe m now : ErrSafe (set_mode_at m now).
Proof.
  intros s s' e. unfold set_mode_at. rewrite run_get.
  apply (set_mode_with_strategy_at_err_safe _ _ _ s).
Qed.

Lemma rotate_flow_generation_Ok g s s' u :
  rotate_flow_generation g s = (s', Ok u) <->
  1 <= g <= MAX_FLOW_GENERATION /\ g <> flow_generation s /\ s' = set_flow_generation g s.
Proof.
  unfold rotate_flow_generation. destruct u.
  rewrite run_get, run_seq_Ok, fail_if_Ok, orb_false_iff, negb_false_iff, Z.eqb_neq,
    generation_in_domain_true.
  unfold modify. naive_solver.
Qed.

#[export] Instance rotate_flow_generation_err_safe g : ErrSafe (rotate_flow_generation g).
Proof. unfold rotate_flow_generation. apply _. Qed.
