(* ===== verification/StateLearning.v ===== *)
(** * Automatic learning

    [crates/openshield-core/src/learning_limits.rs] and the learning half of
    [state.rs]: deduplication keys, the insertion of learned endpoints and of
    disabled application templates, the batch learners with their count
    budgets, the template migration and the admission index.

    [Uuid::new_v4] and [Utc::now] are a supply of draws; the [n]-th rule that a
    call creates uses the [n]-th draw. *)

From S2P Require Import Prelude Text Net Application Model State.
Local Open Scope Z_scope.

Definition APPLICATION_GROUP_TEMPLATE_NAME : ustring := lit "application-wide template".

Definition Supply : Type := nat -> Uuid * DateTime.

(** ** [LearningLimits] *)

Record LearningLimits : Type := mkLearningLimits { per_uid : Z; per_application : Z }.
Inductive LearningLimitsError : Type := InvalidLearningLimits.

Definition LearningLimits_new (per_uid per_application : Z)
    : Result LearningLimitsError LearningLimits :=
  if (per_application =? 0) || (per_uid <? per_application)
     || (MAX_AUTOMATIC_LEARNED_RULES <? per_uid)
  then Err InvalidLearningLimits
  else Ok (mkLearningLimits per_uid per_application).

Definition LearningLimits_default : LearningLimits := mkLearningLimits 4096 1024.

Record LearningQuotaSummary : Type := mkLearningQuotaSummary {
  automatic_rules : Z;
  saturated_uids : Z;
  saturated_applications : Z
}.

(** ** Keys *)

Record LearnedRuleKey : Type := mkLearnedRuleKey {
  key_protocol : TransportProtocol;
  key_peer_network : option IpNet;
  key_port : option PortRange;
  key_interface : option InterfaceName;
  key_application : option ApplicationSelector
}.

#[export] Instance LearnedRuleKey_eq_dec : EqDecision LearnedRuleKey.
Proof. solve_decision. Defined.
#[export] Instance LearnedRuleKey_countable : Countable LearnedRuleKey.
Proof.
  by refine (inj_countable'
    (fun k => (key_protocol k, key_peer_network k, key_port k, key_interface k,
               key_application k))
    (fun '(p, n, q, i, a) => mkLearnedRuleKey p n q i a) _); intros [].
Defined.

Record ApplicationTemplateKey : Type := mkApplicationTemplateKey {
  template_executable : ApplicationPath;
  template_cgroup : option CgroupPath
}.

#[export] Instance ApplicationTemplateKey_eq_dec : EqDecision ApplicationTemplateKey.
Proof. solve_decision. Defined.
#[export] Instance ApplicationTemplateKey_countable : Countable ApplicationTemplateKey.
Proof.
  by refine (inj_countable' (fun k => (template_executable k, template_cgroup k))
    (fun p => mkApplicationTemplateKey p.1 p.2) _); intros [].
Defined.

Definition is_automatic_rule (rule : Rule) : bool :=
  match rule.(spec).(origin) with Learned | Template => true | Manual => false end.

(** The filter that selects rules for deduplication and for the budgets. *)
Definition is_learned_outbound (rule : Rule) : bool :=
  (rule.(spec).(origin) ==? Learned) && (rule.(spec).(direction) ==? Outbound).

Definition from_selector (selector : ApplicationSelector)
    : Result ValidationError ApplicationTemplateKey :=
  executable ← ok_or (InvalidApplicationSelector ApplicationSelectorNeedsExecutable)
                 selector.(as_executable);
  mret (mkApplicationTemplateKey executable selector.(as_cgroup)).

Definition from_template (rule : Rule) : option ApplicationTemplateKey :=
  selector ← rule.(spec).(application);
  if (rule.(spec).(origin) !=? Template) || (rule.(spec).(direction) !=? Outbound)
     || selector.(as_metadata_redacted)
  then None
  else ok (from_selector selector).

Definition from_rule (rule : Rule) : LearnedRuleKey :=
  mkLearnedRuleKey rule.(spec).(protocol) rule.(spec).(peer_network) rule.(spec).(port)
    rule.(spec).(interface) rule.(spec).(application).

Section Keys.
Context `{IpNetLib}.

Definition from_endpoint (endpoint : LearnedEndpoint) : LearnedRuleKey :=
  mkLearnedRuleKey endpoint.(le_protocol) (Some (ipnet_from endpoint.(le_address)))
    endpoint.(le_port) endpoint.(le_interface) None.

Definition from_application_endpoint (endpoint : LearnedApplicationEndpoint) : LearnedRuleKey :=
  mkLearnedRuleKey endpoint.(lae_endpoint).(le_protocol)
    (Some (ipnet_from endpoint.(lae_endpoint).(le_address)))
    endpoint.(lae_endpoint).(le_port) endpoint.(lae_endpoint).(le_interface)
    (Some endpoint.(lae_application)).
End Keys.

(** ** Inserting one rule *)

Record LearnOutcome : Type := mkLearnOutcome {
  outcome_rule : Rule;
  outcome_event : option Event
}.

Definition insert_application_group_template (draw : Uuid * DateTime)
    (key : ApplicationTemplateKey) : ST State CoreError LearnOutcome :=
  application ← lift (map_err (Validation ∘ InvalidApplicationSelector)
    (ApplicationSelector_new (Some key.(template_executable)) None None None
       key.(template_cgroup)));
  name ← lift (map_err Validation (RuleName_new APPLICATION_GROUP_TEMPLATE_NAME));
  let spec := mkRuleSpec name Outbound Accept Any None None None (Some application)
    Template false in
  created ← create_rule draw.1 draw.2 spec;
  mret (mkLearnOutcome created.1 (Some created.2)).

(** The [:port] or [:start-end] suffix of a learned rule's name. *)
Definition port_suffix (port : option PortRange) : ustring :=
  match port with
  | None => []
  | Some port =>
      if port.(port_start) =? port.(port_end) then lit ":" ++ dec port.(port_start)
      else lit ":" ++ dec port.(port_start) ++ lit "-" ++ dec port.(port_end)
  end.

Definition insert_learned_endpoint `{IpNetLib} (draw : Uuid * DateTime)
    (endpoint : LearnedEndpoint) (application : option ApplicationSelector)
    : ST State CoreError LearnOutcome :=
  let peer_network := Some (ipnet_from endpoint.(le_address)) in
  let suffix := port_suffix endpoint.(le_port) in
  name ← lift (map_err Validation (RuleName_new
    (lit "learned " ++ TransportProtocol_fmt endpoint.(le_protocol) ++ lit " "
     ++ display_ip endpoint.(le_address) ++ suffix)));
  spec ← lift (map_err Validation (RuleSpec_new name Outbound endpoint.(le_protocol)
    peer_network endpoint.(le_port) endpoint.(le_interface) Learned true));
  let spec := mkRuleSpec spec.(Model.name) spec.(direction) Accept spec.(protocol)
    spec.(Model.peer_network) spec.(port) spec.(interface) application spec.(origin)
    spec.(enabled) in
  lift (map_err Validation (RuleSpec_validate spec)) ;;
  created ← create_rule draw.1 draw.2 spec;
  mret (mkLearnOutcome created.1 (Some created.2)).

(** ** Learning one network endpoint *)

Definition automatic_count (self : State) : Z :=
  zlen (List.filter is_automatic_rule (btree_values self.(rules))).

Definition learn_endpoint `{IpNetLib} (draw : Uuid * DateTime) (endpoint : LearnedEndpoint)
    : ST State CoreError LearnOutcome :=
  lift (map_err Validation (LearnedEndpoint_validate endpoint)) ;;
  let key := from_endpoint endpoint in
  self ← get;
  match List.find (fun rule => is_learned_outbound rule && (from_rule rule ==? key))
          (btree_values self.(rules)) with
  | Some rule => mret (mkLearnOutcome rule None)
  | None =>
      lift (fail_if (MAX_AUTOMATIC_LEARNED_RULES <=? automatic_count self)
              (RulesLimitReached MAX_AUTOMATIC_LEARNED_RULES)) ;;
      insert_learned_endpoint draw endpoint None
  end.

(** ** Batches *)

Definition known_keys (self : State) : gset LearnedRuleKey :=
  list_to_set (from_rule <$> List.filter is_learned_outbound (btree_values self.(rules))).

Definition known_template_keys (self : State) : gset ApplicationTemplateKey :=
  list_to_set (omap from_template (btree_values self.(rules))).

(** The slots a batch may fill.  [MAX_RULES - self.rules.len()] does not
    underflow in a valid state. *)
Definition batch_budget (self : State) (maximum_new : Z) : Z :=
  Z.min (Z.min maximum_new (MAX_RULES - btree_len self.(rules)))
    (usize_saturating_sub MAX_AUTOMATIC_LEARNED_RULES (automatic_count self)).

Section Batches.
Context `{IpNetLib}.

Fixpoint learn_endpoints_loop (supply : Supply) (maximum_new : Z) (known : gset LearnedRuleKey)
    (outcomes : list LearnOutcome) (endpoints : list LearnedEndpoint)
    : ST State CoreError (list LearnOutcome) :=
  match endpoints with
  | [] => mret outcomes
  | endpoint :: rest =>
      let key := from_endpoint endpoint in
      if bool_decide (key ∈ known) then
        learn_endpoints_loop supply maximum_new known outcomes rest
      else if maximum_new <=? zlen outcomes then mret outcomes
      else
        outcome ← insert_learned_endpoint (supply (length outcomes)) endpoint None;
        learn_endpoints_loop supply maximum_new ({[key]} ∪ known) (outcomes ++ [outcome]) rest
  end.

Definition learn_new_endpoints (supply : Supply) (endpoints : list LearnedEndpoint)
    (maximum_new : Z) : ST State CoreError (list LearnOutcome) :=
  let endpoints := take (Z.to_nat MAX_RULES) endpoints in
  lift (for_each (fun endpoint => map_err Validation (LearnedEndpoint_validate endpoint))
          endpoints) ;;
  self ← get;
  learn_endpoints_loop supply (batch_budget self maximum_new) (known_keys self) [] endpoints.

(** [*map.entry(key).or_default() += 1]. *)
Definition entry_increment `{Countable K} (k : K) (m : gmap K Z) : gmap K Z :=
  <[k := default 0 (m !! k) + 1]> m.

(** The counting loop shared by the batch learner and the admission index. *)
Definition count_quota (quotas : gmap Z Z * gmap (Z * ExecutableFileId) Z) (rule : Rule)
    : gmap Z Z * gmap (Z * ExecutableFileId) Z :=
  match rule.(spec).(application) with
  | None => quotas
  | Some application =>
      match application.(as_uid), application.(as_executable_file) with
      | Some uid, Some file =>
          (entry_increment uid quotas.1, entry_increment (uid, file) quotas.2)
      | _, _ => quotas
      end
  end.

Definition learned_quotas (self : State) : gmap Z Z * gmap (Z * ExecutableFileId) Z :=
  foldl count_quota (∅, ∅) (List.filter is_learned_outbound (btree_values self.(rules))).

Definition incomplete_identity : CoreError :=
  Validation (InvalidApplicationSelector IncompleteLearnedApplicationIdentity).

Fixpoint learn_applications_loop (supply : Supply) (limits : LearningLimits) (maximum_new : Z)
    (known : gset LearnedRuleKey) (known_templates : gset ApplicationTemplateKey)
    (learned_per_uid : gmap Z Z) (learned_per_application : gmap (Z * ExecutableFileId) Z)
    (outcomes : list LearnOutcome) (endpoints : list LearnedApplicationEndpoint)
    : ST State CoreError (list LearnOutcome) :=
  match endpoints with
  | [] => mret outcomes
  | learned :: rest =>
      let key := from_application_endpoint learned in
      if bool_decide (key ∈ known) then
        learn_applications_loop supply limits maximum_new known known_templates
          learned_per_uid learned_per_application outcomes rest
      else
        template_key ← lift (map_err Validation (from_selector learned.(lae_application)));
        let needs_template := negb (bool_decide (template_key ∈ known_templates)) in
        let required_slots := (if needs_template then 1 else 0) + 1 in
        if maximum_new <? usize_saturating_add (zlen outcomes) required_slots then mret outcomes
        else
          uid ← lift (ok_or incomplete_identity learned.(lae_application).(as_uid));
          file ← lift (ok_or incomplete_identity learned.(lae_application).(as_executable_file));
          if (limits.(per_uid) <=? default 0 (learned_per_uid !! uid))
             || (limits.(per_application) <=? default 0 (learned_per_application !! (uid, file)))
          then
            learn_applications_loop supply limits maximum_new known known_templates
              learned_per_uid learned_per_application outcomes rest
          else
            templated ←
              (if needs_template then
                 outcome ← insert_application_group_template (supply (length outcomes))
                             template_key;
                 mret ({[template_key]} ∪ known_templates, outcomes ++ [outcome])
               else mret (known_templates, outcomes));
            outcome ← insert_learned_endpoint (supply (length templated.2))
                        learned.(lae_endpoint) (Some learned.(lae_application));
            learn_applications_loop supply limits maximum_new ({[key]} ∪ known) templated.1
              (entry_increment uid learned_per_uid)
              (entry_increment (uid, file) learned_per_application)
              (templated.2 ++ [outcome]) rest
  end.

Definition learn_new_application_endpoints_with_limits (supply : Supply)
    (endpoints : list LearnedApplicationEndpoint) (maximum_new : Z) (limits : LearningLimits)
    : ST State CoreError (list LearnOutcome) :=
  let endpoints := take (Z.to_nat MAX_RULES) endpoints in
  lift (for_each (fun endpoint => map_err (Validation ∘ InvalidApplicationSelector)
          (LearnedApplicationEndpoint_validate endpoint)) endpoints) ;;
  self ← get;
  learn_applications_loop supply limits (batch_budget self maximum_new) (known_keys self)
    (known_template_keys self) (learned_quotas self).1 (learned_quotas self).2 [] endpoints.

Definition learn_new_application_endpoints (supply : Supply)
    (endpoints : list LearnedApplicationEndpoint) (maximum_new : Z)
    : ST State CoreError (list LearnOutcome) :=
  learn_new_application_endpoints_with_limits supply endpoints maximum_new
    LearningLimits_default.
End Batches.

(** ** Template migration *)

(** [.filter(|key| known.insert(key.clone()))]: first occurrences only. *)
Fixpoint insert_filter (known : gset ApplicationTemplateKey)
    (keys : list ApplicationTemplateKey) : list ApplicationTemplateKey :=
  match keys with
  | [] => []
  | key :: rest =>
      if bool_decide (key ∈ known) then insert_filter known rest
      else key :: insert_filter ({[key]} ∪ known) rest
  end.

Definition missing_groups (self : State) : list ApplicationTemplateKey :=
  insert_filter (known_template_keys self)
    (omap (fun selector => ok (from_selector selector))
       (omap (fun rule => rule.(spec).(application))
          (List.filter is_learned_outbound (btree_values self.(rules))))).

(** Undo one template insertion. *)
Definition rollback_template (id : Uuid) (previous_revision previous_flow_generation : Z)
    : ST State CoreError unit :=
  modify (fun s => set_rules (delete id s.(rules)) s) ;;
  modify (set_revision previous_revision) ;;
  modify (set_flow_generation previous_flow_generation).

Section Migration.
Context `{JsonLib}.

Fixpoint ensure_templates_loop (supply : Supply) (maximum_state_bytes : Z)
    (serialized_size : Z) (outcomes : list LearnOutcome) (groups : list ApplicationTemplateKey)
    : ST State CoreError (list LearnOutcome) :=
  match groups with
  | [] => mret outcomes
  | group :: rest =>
      before ← get;
      let previous_revision := before.(revision) in
      let previous_flow_generation := before.(flow_generation) in
      let had_rules := negb (bool_decide (before.(rules) = ∅)) in
      outcome ← insert_application_group_template (supply (length outcomes)) group;
      after ← get;
      match serialized_rule_map_entry_delta outcome.(outcome_rule) previous_revision
              after.(revision) had_rules with
      | Err error =>
          rollback_template outcome.(outcome_rule).(rule_id) previous_revision
            previous_flow_generation ;;
          lift (Err error)
      | Ok size_delta =>
          let candidate_size := usize_saturating_add serialized_size size_delta in
          if maximum_state_bytes <? candidate_size then
            rollback_template outcome.(outcome_rule).(rule_id) previous_revision
              previous_flow_generation ;;
            mret outcomes
          else
            ensure_templates_loop supply maximum_state_bytes candidate_size
              (outcomes ++ [outcome]) rest
      end
  end.

Definition ensure_application_group_templates_with_size_limit (supply : Supply)
    (maximum_new maximum_state_bytes : Z) : ST State CoreError (list LearnOutcome) :=
  self ← get;
  let groups := missing_groups self in
  let maximum_new :=
    Z.min (Z.min maximum_new (usize_saturating_sub MAX_RULES (btree_len self.(rules))))
      (usize_saturating_sub MAX_AUTOMATIC_LEARNED_RULES (automatic_count self)) in
  serialized_size ← lift (bounded_serialized_state_size self);
  ensure_templates_loop supply maximum_state_bytes serialized_size []
    (take (Z.to_nat maximum_new) groups).

Definition ensure_application_group_templates (supply : Supply) (maximum_new : Z)
    : ST State CoreError (list LearnOutcome) :=
  ensure_application_group_templates_with_size_limit supply maximum_new MAX_STATE_BYTES.
End Migration.

(** ** The admission index *)

Inductive ApplicationLearningAdmission : Type := AlreadyKnown | Saturated | Candidate.

#[export] Instance ApplicationLearningAdmission_eq_dec : EqDecision ApplicationLearningAdmission.
Proof. solve_decision. Defined.

Record ApplicationLearningAdmissionIndex : Type := mkAdmissionIndex {
  index_limits : LearningLimits;
  index_revision : Z;
  index_flow_generation : Z;
  index_mode : Mode;
  total_rule_count : Z;
  learned_rule_count : Z;
  index_known : gset LearnedRuleKey;
  index_known_templates : gset ApplicationTemplateKey;
  index_per_uid : gmap Z Z;
  index_per_application : gmap (Z * ExecutableFileId) Z
}.

(** The locals of the loop of [from_state]. *)
Record IndexLoop : Type := mkIndexLoop {
  loop_known : gset LearnedRuleKey;
  loop_templates : gset ApplicationTemplateKey;
  loop_count : Z;
  loop_quotas : gmap Z Z * gmap (Z * ExecutableFileId) Z
}.

Definition index_step (self : IndexLoop) (rule : Rule) : IndexLoop :=
  if negb (is_automatic_rule rule) then self
  else
    let count := self.(loop_count) + 1 in
    let templates :=
      match from_template rule with
      | Some template => {[template]} ∪ self.(loop_templates)
      | None => self.(loop_templates)
      end in
    if (rule.(spec).(origin) !=? Learned) || (rule.(spec).(direction) !=? Outbound) then
      mkIndexLoop self.(loop_known) templates count self.(loop_quotas)
    else
      mkIndexLoop ({[from_rule rule]} ∪ self.(loop_known)) templates count
        (count_quota self.(loop_quotas) rule).

Definition from_state (state : State) (limits : LearningLimits)
    : ApplicationLearningAdmissionIndex :=
  let loop := foldl index_step (mkIndexLoop ∅ ∅ 0 (∅, ∅)) (btree_values state.(rules)) in
  mkAdmissionIndex limits state.(revision) state.(flow_generation) state.(mode)
    (btree_len state.(rules)) loop.(loop_count) loop.(loop_known) loop.(loop_templates)
    loop.(loop_quotas).1 loop.(loop_quotas).2.

Definition application_learning_admission_index_with_limits (self : State)
    (limits : LearningLimits) : ApplicationLearningAdmissionIndex :=
  from_state self limits.

Definition application_learning_admission_index (self : State)
    : ApplicationLearningAdmissionIndex :=
  application_learning_admission_index_with_limits self LearningLimits_default.

Definition summary (self : ApplicationLearningAdmissionIndex) : LearningQuotaSummary :=
  mkLearningQuotaSummary self.(learned_rule_count)
    (zlen (List.filter (fun count => self.(index_limits).(per_uid) <=? count)
             (map_to_list self.(index_per_uid)).*2))
    (zlen (List.filter (fun count => self.(index_limits).(per_application) <=? count)
             (map_to_list self.(index_per_application)).*2)).

Definition classify `{IpNetLib} (self : ApplicationLearningAdmissionIndex)
    (endpoint : LearnedApplicationEndpoint)
    : Result ApplicationValidationError ApplicationLearningAdmission :=
  LearnedApplicationEndpoint_validate endpoint ;;
  let key := from_application_endpoint endpoint in
  if bool_decide (key ∈ self.(index_known)) then Ok AlreadyKnown
  else
    executable ← ok_or IncompleteLearnedApplicationIdentity
                   endpoint.(lae_application).(as_executable);
    let template_key :=
      mkApplicationTemplateKey executable endpoint.(lae_application).(as_cgroup) in
    let required_slots :=
      1 + (if negb (bool_decide (template_key ∈ self.(index_known_templates))) then 1 else 0) in
    if (MAX_RULES <? usize_saturating_add self.(total_rule_count) required_slots)
       || (MAX_AUTOMATIC_LEARNED_RULES
           <? usize_saturating_add self.(learned_rule_count) required_slots)
    then Ok Saturated
    else
      uid ← ok_or IncompleteLearnedApplicationIdentity endpoint.(lae_application).(as_uid);
      file ← ok_or IncompleteLearnedApplicationIdentity
               endpoint.(lae_application).(as_executable_file);
      if (self.(index_limits).(per_uid) <=? default 0 (self.(index_per_uid) !! uid))
         || (self.(index_limits).(per_application)
             <=? default 0 (self.(index_per_application) !! (uid, file)))
      then Ok Saturated
      else Ok Candidate.
