(* ===== verification/StateLearningFacts.v ===== *)
(** * Facts about automatic learning

    Every learning call is a sequence of automatic [create_rule]s; the sets
    and counters that the batch learner carries describe the state it is
    building; the template migration undoes exactly what it rejects. *)

From S2P Require Import Prelude Text Net Application Model State StateFacts StateLearning.
Local Open Scope Z_scope.

(** ** Counting rules *)

Definition count_rules (p : Rule -> bool) (s : State) : Z :=
  zlen (List.filter p (btree_values (rules s))).

Lemma zlen_perm {A} (l l' : list A) : l ≡ₚ l' -> zlen l = zlen l'.
Proof. intros H. unfold zlen. by rewrite H. Qed.

Lemma count_rules_nonneg p s : 0 <= count_rules p s.
Proof. apply zlen_nonneg. Qed.

Lemma zlen_filter_le {A} (p : A -> bool) l : zlen (List.filter p l) <= zlen l.
Proof. unfold zlen. induction l as [|x l IH]; simpl; [lia|]. destruct (p x); simpl; lia. Qed.

Lemma count_rules_insert p s s' id r :
  rules s !! id = None -> rules s' = <[id := r]> (rules s) ->
  count_rules p s' = count_rules p s + (if p r then 1 else 0).
Proof.
  intros Hid Hs'. unfold count_rules. rewrite Hs'.
  rewrite (zlen_perm _ _ (filter_perm p _ _ (btree_values_insert _ _ _ Hid))).
  unfold zlen. simpl. destruct (p r); simpl; lia.
Qed.

(** ** One automatic creation *)

(** A rule that learning may create: an [Accept] that is not manual. *)
Definition automatic_spec (sp : RuleSpec) : Prop := action sp = Accept /\ origin sp <> Manual.

Record learn_step (out : LearnOutcome) (s s' : State) : Prop := {
  learn_step_spec : automatic_spec (spec (outcome_rule out));
  learn_step_run : exists id now ev,
    outcome_event out = Some ev
    /\ create_rule_at id (spec (outcome_rule out)) now s = (s', Ok (outcome_rule out, ev))
}.

(** A run of steps, each with the outcome it reports. *)
Inductive trace (R : LearnOutcome -> State -> State -> Prop)
    : list LearnOutcome -> State -> State -> Prop :=
| trace_nil s : trace R [] s s
| trace_cons out outs s1 s2 s3 :
    R out s1 s2 -> trace R outs s2 s3 -> trace R (out :: outs) s1 s3.

Lemma trace_mono (R R' : LearnOutcome -> State -> State -> Prop) outs s s' :
  (forall out s s', R out s s' -> R' out s s') -> trace R outs s s' -> trace R' outs s s'.
Proof. intros HR. induction 1; econstructor; eauto. Qed.

Lemma trace_app R outs1 outs2 s1 s2 s3 :
  trace R outs1 s1 s2 -> trace R outs2 s2 s3 -> trace R (outs1 ++ outs2) s1 s3.
Proof. induction 1; simpl; [done|]. intros. econstructor; eauto. Qed.

Abbreviation learn_steps := (trace learn_step).

Lemma learn_step_effect out s s' :
  learn_step out s s' ->
  exists id, rules s !! id = None /\ rule_id (outcome_rule out) = id
  /\ s' = mkState (revision s + 1) (flow_generation s) (mode s) (enforcement_strategy s)
            (<[id := outcome_rule out]> (rules s)).
Proof.
  intros [[Ha Ho] (id & now & ev & _ & H)]. apply create_rule_at_Ok in H.
  destruct H as ((_ & _ & Hid & _ & _) & Hr & _ & ->). exists id. split_and!; [done| |].
  - by rewrite Hr.
  - unfold advance, enabled_deny. rewrite Ha, eqb_refl, andb_false_r. done.
Qed.

(** ** The two insertions *)

Definition template_spec (key : ApplicationTemplateKey) : RuleSpec :=
  mkRuleSpec (mkRuleName APPLICATION_GROUP_TEMPLATE_NAME) Outbound Accept Any None None None
    (Some (mkApplicationSelector (Some (template_executable key)) None None None
             (template_cgroup key) false)) Template false.

Lemma insert_application_group_template_run draw key s :
  insert_application_group_template draw key s =
  match create_rule_at draw.1 (template_spec key) draw.2 s with
  | (s', Ok (r, ev)) => (s', Ok (mkLearnOutcome r (Some ev)))
  | (s', Err e) => (s', Err e)
  end.
Proof.
  unfold insert_application_group_template. rewrite !run_lift.
  change (RuleName_new APPLICATION_GROUP_TEMPLATE_NAME)
    with (Ok (E := ValidationError) (mkRuleName APPLICATION_GROUP_TEMPLATE_NAME)).
  change (ApplicationSelector_new (Some (template_executable key)) None None None
    (template_cgroup key)) with
    (Ok (E := ApplicationValidationError) (mkApplicationSelector
      (Some (template_executable key)) None None None (template_cgroup key) false)).
  cbn [map_err]. rewrite run_lift. unfold create_rule, template_spec. rewrite run_bind.
  by destruct (create_rule_at _ _ _ s) as [s' [[r ev]|e]].
Qed.

Section Insertions.
Context `{IpNetLib}.

Definition learned_name (endpoint : LearnedEndpoint) : ustring :=
  lit "learned " ++ TransportProtocol_fmt (le_protocol endpoint) ++ lit " "
  ++ display_ip (le_address endpoint) ++ port_suffix (le_port endpoint).

Definition learned_spec (endpoint : LearnedEndpoint) (application : option ApplicationSelector)
    : RuleSpec :=
  mkRuleSpec (mkRuleName (learned_name endpoint)) Outbound Accept (le_protocol endpoint)
    (Some (ipnet_from (le_address endpoint))) (le_port endpoint) (le_interface endpoint)
    application Learned true.

Lemma RuleName_new_str value n : RuleName_new value = Ok n -> n = mkRuleName value.
Proof. unfold RuleName_new. repeat case_match; naive_solver. Qed.

Lemma insert_learned_endpoint_Ok draw endpoint application s s' out :
  insert_learned_endpoint draw endpoint application s = (s', Ok out) ->
  exists ev, outcome_event out = Some ev
  /\ create_rule_at draw.1 (learned_spec endpoint application) draw.2 s
     = (s', Ok (outcome_rule out, ev)).
Proof.
  unfold insert_learned_endpoint. intros Hrun.
  apply run_lift_Ok in Hrun as (n & Hn & Hrun). rewrite map_err_Ok in Hn.
  apply RuleName_new_str in Hn as ->.
  apply run_lift_Ok in Hrun as (sp & Hsp & Hrun). rewrite map_err_Ok in Hsp.
  unfold RuleSpec_new in Hsp. rewrite seq_Ok in Hsp. destruct Hsp as [_ [= <-]].
  apply run_seq_Ok in Hrun as [_ Hrun]. rewrite run_bind in Hrun. cbn [direction] in Hrun.
  unfold create_rule in Hrun.
  change (create_rule_at draw.1 _ draw.2 s)
    with (create_rule_at draw.1 (learned_spec endpoint application) draw.2 s) in Hrun.
  destruct (create_rule_at _ _ _ s) as [s1 [[r ev]|e]]; [|done].
  apply run_ret in Hrun as [-> ->]. by exists ev.
Qed.

#[export] Instance ErrSafe_bind_no_fail {S E A B} (m : ST S E A) (f : A -> ST S E B) :
  ErrSafe m -> (forall x, NoFail (f x)) -> ErrSafe (m ≫= f).
Proof.
  intros Hm Hf s s' e. rewrite run_bind. destruct (m s) as [s1 [a|e']] eqn:Hr.
  - intros Hc. by apply Hf in Hc.
  - intros [= <- <-]. by apply Hm in Hr.
Qed.

#[export] Instance insert_learned_endpoint_err_safe draw endpoint application :
  ErrSafe (insert_learned_endpoint draw endpoint application).
Proof.
  unfold insert_learned_endpoint, create_rule. do 3 (apply ErrSafe_lift_bind; intros ?).
  apply ErrSafe_bind_no_fail; [apply create_rule_at_err_safe|apply _].
Qed.
End Insertions.

#[export] Instance insert_application_group_template_err_safe draw key :
  ErrSafe (insert_application_group_template draw key).
Proof.
  unfold insert_application_group_template, create_rule.
  do 2 (apply ErrSafe_lift_bind; intros ?).
  apply ErrSafe_bind_no_fail; [apply create_rule_at_err_safe|apply _].
Qed.

Lemma create_automatic_step id sp now s s' r ev :
  automatic_spec sp -> create_rule_at id sp now s = (s', Ok (r, ev)) ->
  spec r = sp /\ learn_step (mkLearnOutcome r (Some ev)) s s'.
Proof.
  intros Hsp Hrun. pose proof Hrun as Hr. apply create_rule_at_Ok in Hr as (_ & -> & _).
  split; [done|]. split; simpl; [done|]. by exists id, now, ev.
Qed.

Lemma insert_template_step draw key s s' out :
  insert_application_group_template draw key s = (s', Ok out) ->
  spec (outcome_rule out) = template_spec key /\ learn_step out s s'.
Proof.
  rewrite insert_application_group_template_run.
  destruct (create_rule_at _ _ _ s) as [s1 [[r ev]|e]] eqn:Hr; [|done].
  intros [= <- <-]. by apply create_automatic_step in Hr.
Qed.

Lemma insert_learned_step `{IpNetLib} draw endpoint application s s' out :
  insert_learned_endpoint draw endpoint application s = (s', Ok out) ->
  spec (outcome_rule out) = learned_spec endpoint application /\ learn_step out s s'.
Proof.
  intros (ev & Hev & Hr)%insert_learned_endpoint_Ok.
  destruct out as [r o]; simpl in *; subst. by apply create_automatic_step in Hr.
Qed.

(** ** What the loop variables stand for *)

(** The rules that count against a user's or an application's budget. *)
Definition counts_for_uid (uid : Z) (r : Rule) : bool :=
  is_learned_outbound r
  && match application (spec r) with
     | Some a => (as_uid a ==? Some uid) && is_some (as_executable_file a)
     | None => false
     end.

Definition counts_for_application (key : Z * ExecutableFileId) (r : Rule) : bool :=
  is_learned_outbound r
  && match application (spec r) with
     | Some a => (as_uid a ==? Some key.1) && (as_executable_file a ==? Some key.2)
     | None => false
     end.

Lemma lookup_entry_increment `{Countable K} (k k' : K) m :
  default 0 (entry_increment k m !! k') = default 0 (m !! k') + (if k ==? k' then 1 else 0).
Proof.
  unfold entry_increment. destruct (eqb k k') eqn:E; autorewrite with result in E.
  - subst. by rewrite lookup_insert_eq.
  - rewrite lookup_insert_ne by done. lia.
Qed.

(** The quota maps hold the counts of the rules folded so far. *)
Definition quotas_count (q : gmap Z Z * gmap (Z * ExecutableFileId) Z) (l : list Rule) : Prop :=
  (forall uid, default 0 (q.1 !! uid) = zlen (List.filter (counts_for_uid uid) l))
  /\ (forall k, default 0 (q.2 !! k) = zlen (List.filter (counts_for_application k) l)).

Lemma zlen_cons {A} (x : A) l : zlen (x :: l) = zlen l + 1.
Proof. unfold zlen. simpl. lia. Qed.

Lemma count_quota_step q l r :
  is_learned_outbound r = true -> quotas_count q l -> quotas_count (count_quota q r) (r :: l).
Proof.
  intros Hr [Hu Ha]. unfold quotas_count, count_quota. cbn [List.filter].
  unfold counts_for_uid at 1, counts_for_application at 1. rewrite Hr. cbn [andb].
  destruct (application (spec r)) as [a|]; [|done].
  destruct (as_uid a) as [u|], (as_executable_file a) as [f|]; simpl;
    try (split; intros; rewrite ?Hu, ?Ha;
         repeat (case_match; autorewrite with result in *; destruct_and?; simplify_eq); done).
  split; intros k; rewrite lookup_entry_increment, ?Hu, ?Ha.
  - destruct (eqb u k) eqn:E; autorewrite with result in E.
    + subst. rewrite eqb_refl. simpl. by rewrite zlen_cons.
    + rewrite (proj2 (eqb_false (Some u) (Some k))) by congruence. simpl. lia.
  - destruct k as [u' f']. destruct (eqb (u, f) (u', f')) eqn:E; autorewrite with result in E.
    + simplify_eq/=. rewrite !eqb_refl. simpl. by rewrite zlen_cons.
    + destruct (decide (u = u')) as [->|]; simpl.
      * rewrite eqb_refl, (proj2 (eqb_false (Some f) (Some f'))) by congruence. simpl. lia.
      * rewrite (proj2 (eqb_false (Some u) (Some u'))) by congruence. simpl. lia.
Qed.

Lemma foldl_count_quota l q l0 :
  Forall (fun r => is_learned_outbound r = true) l -> quotas_count q l0 ->
  quotas_count (foldl count_quota q l) (rev l ++ l0).
Proof.
  revert q l0. induction l as [|r l IH]; intros q l0 Hl Hq; [done|]. simpl.
  inversion Hl; subst. rewrite <-app_assoc. apply IH; [done|]. by apply count_quota_step.
Qed.

Lemma filter_implied {A} (p q : A -> bool) l :
  (forall x, p x = true -> q x = true) -> List.filter p (List.filter q l) = List.filter p l.
Proof.
  intros Hpq. induction l as [|x l IH]; simpl; [done|].
  destruct (q x) eqn:E; simpl; [by rewrite IH|].
  destruct (p x) eqn:E'; [|done]. apply Hpq in E'. congruence.
Qed.

Lemma Forall_filter_true {A} (p : A -> bool) l : Forall (fun x => p x = true) (List.filter p l).
Proof. apply Forall_forall. intros x Hx%list_elem_of_In. by apply filter_In in Hx as [_ ?]. Qed.

Lemma learned_quotas_spec s :
  (forall uid, default 0 ((learned_quotas s).1 !! uid) = count_rules (counts_for_uid uid) s)
  /\ (forall k, default 0 ((learned_quotas s).2 !! k) = count_rules (counts_for_application k) s).
Proof.
  unfold learned_quotas, count_rules. set (l := btree_values (rules s)).
  destruct (foldl_count_quota (List.filter is_learned_outbound l) (∅, ∅) []
    (Forall_filter_true _ _)) as [Hu Ha]; [split; intros; simpl; by rewrite lookup_empty|].
  rewrite app_nil_r in Hu, Ha.
  assert (Hrev : forall p : Rule -> bool, (forall r, p r = true -> is_learned_outbound r = true) ->
    zlen (List.filter p (rev (List.filter is_learned_outbound l))) = zlen (List.filter p l)).
  { intros p Hp. rewrite <-(filter_implied p is_learned_outbound l Hp).
    apply zlen_perm, filter_perm. symmetry. apply Permutation_rev. }
  split; intros k; rewrite ?Hu, ?Ha; apply Hrev; intros r.
  - unfold counts_for_uid. by intros [? _]%andb_prop.
  - unfold counts_for_application. by intros [? _]%andb_prop.
Qed.

Lemma elem_of_filter_values p s r :
  r ∈ List.filter p (btree_values (rules s)) <-> p r = true /\ exists id, rules s !! id = Some r.
Proof.
  rewrite list_elem_of_In, filter_In, <-list_elem_of_In, elem_of_btree_values. naive_solver.
Qed.

Lemma elem_of_known_keys k s :
  k ∈ known_keys s <->
  exists id r, rules s !! id = Some r /\ is_learned_outbound r = true /\ from_rule r = k.
Proof.
  unfold known_keys. rewrite elem_of_list_to_set, list_elem_of_fmap.
  setoid_rewrite elem_of_filter_values. naive_solver.
Qed.

Lemma elem_of_known_template_keys k s :
  k ∈ known_template_keys s <-> exists id r, rules s !! id = Some r /\ from_template r = Some k.
Proof.
  unfold known_template_keys. rewrite elem_of_list_to_set, list_elem_of_omap.
  setoid_rewrite elem_of_btree_values. naive_solver.
Qed.

Lemma known_keys_insert s s' id r :
  rules s !! id = None -> rules s' = <[id := r]> (rules s) ->
  known_keys s' = (if is_learned_outbound r then {[from_rule r]} else ∅) ∪ known_keys s.
Proof.
  intros Hid Hs'. apply set_eq. intros k.
  rewrite elem_of_union, !elem_of_known_keys. rewrite Hs'.
  setoid_rewrite lookup_insert_Some. split.
  - intros (i & r' & [[-> ->]|[Hi Hr']] & Hl & Hk); [left; rewrite Hl; set_solver|right; eauto].
  - intros [Hk|(i & r' & Hr' & Hl & Hk)].
    + destruct (is_learned_outbound r) eqn:E; [|set_solver].
      apply elem_of_singleton in Hk as ->. exists id, r. eauto.
    + exists i, r'. split; [right|eauto]. split; [congruence|done].
Qed.

Lemma known_template_keys_insert s s' id r :
  rules s !! id = None -> rules s' = <[id := r]> (rules s) ->
  known_template_keys s' =
    match from_template r with Some k => {[k]} | None => ∅ end ∪ known_template_keys s.
Proof.
  intros Hid Hs'. apply set_eq. intros k.
  rewrite elem_of_union, !elem_of_known_template_keys. rewrite Hs'.
  setoid_rewrite lookup_insert_Some. split.
  - intros (i & r' & [[-> ->]|[Hi Hr']] & Hk); [left; rewrite Hk; set_solver|right; eauto].
  - intros [Hk|(i & r' & Hr' & Hk)].
    + destruct (from_template r) eqn:E; [|set_solver].
      apply elem_of_singleton in Hk as ->. exists id, r. eauto.
    + exists i, r'. split; [right|eauto]. split; [congruence|done].
Qed.

(** ** Bookkeeping along one creation *)

Section Bookkeeping.
Context {out : LearnOutcome} {s s' : State} (Hstep : learn_step out s s').
Let r := outcome_rule out.

Lemma learn_step_keys :
  known_keys s' = (if is_learned_outbound r then {[from_rule r]} else ∅) ∪ known_keys s.
Proof.
  destruct (learn_step_effect _ _ _ Hstep) as (id & Hid & _ & Hs').
  eapply known_keys_insert; [done|]. by rewrite Hs'.
Qed.

Lemma learn_step_template_keys :
  known_template_keys s' =
    match from_template r with Some k => {[k]} | None => ∅ end ∪ known_template_keys s.
Proof.
  destruct (learn_step_effect _ _ _ Hstep) as (id & Hid & _ & Hs').
  eapply known_template_keys_insert; [done|]. by rewrite Hs'.
Qed.

Lemma learn_step_count p : count_rules p s' = count_rules p s + (if p r then 1 else 0).
Proof.
  destruct (learn_step_effect _ _ _ Hstep) as (id & Hid & _ & Hs').
  eapply count_rules_insert; [done|]. by rewrite Hs'.
Qed.
End Bookkeeping.

(** ** The batch learner *)

Section Batch.
Context `{IpNetLib} (limits : LearningLimits) (observed : LearnedApplicationEndpoint -> Prop).

(** One guarded creation of the application learner. *)
Inductive app_step (out : LearnOutcome) (s s' : State) : Prop :=
| app_step_template key :
    spec (outcome_rule out) = template_spec key ->
    key ∉ known_template_keys s ->
    learn_step out s s' -> app_step out s s'
| app_step_endpoint learned uid file :
    observed learned ->
    spec (outcome_rule out)
      = learned_spec (lae_endpoint learned) (Some (lae_application learned)) ->
    as_uid (lae_application learned) = Some uid ->
    as_executable_file (lae_application learned) = Some file ->
    from_application_endpoint learned ∉ known_keys s ->
    count_rules (counts_for_uid uid) s < per_uid limits ->
    count_rules (counts_for_application (uid, file)) s < per_application limits ->
    learn_step out s s' -> app_step out s s'.

Lemma app_step_learn_step out s s' : app_step out s s' -> learn_step out s s'.
Proof. by intros []. Qed.

Record loop_inv (known : gset LearnedRuleKey) (templates : gset ApplicationTemplateKey)
    (pu : gmap Z Z) (pa : gmap (Z * ExecutableFileId) Z) (s : State) : Prop := {
  loop_inv_known : known = known_keys s;
  loop_inv_templates : templates = known_template_keys s;
  loop_inv_uid uid : default 0 (pu !! uid) = count_rules (counts_for_uid uid) s;
  loop_inv_application k : default 0 (pa !! k) = count_rules (counts_for_application k) s
}.

Lemma loop_inv_init s :
  loop_inv (known_keys s) (known_template_keys s) (learned_quotas s).1 (learned_quotas s).2 s.
Proof. destruct (learned_quotas_spec s). by split. Qed.

Lemma from_template_template_spec r key :
  spec r = template_spec key -> from_template r = Some key.
Proof. unfold from_template. intros ->. by destruct key. Qed.

Lemma loop_inv_template known templates pu pa s s' out key :
  loop_inv known templates pu pa s -> learn_step out s s' ->
  spec (outcome_rule out) = template_spec key ->
  loop_inv known ({[key]} ∪ templates) pu pa s'.
Proof.
  intros [-> -> Hu Ha] Hstep Hsp.
  assert (Hl : is_learned_outbound (outcome_rule out) = false)
    by (unfold is_learned_outbound; by rewrite Hsp).
  split.
  - rewrite (learn_step_keys Hstep), Hl. set_solver.
  - by rewrite (learn_step_template_keys Hstep), (from_template_template_spec _ key).
  - intros uid. rewrite (learn_step_count Hstep), Hu.
    unfold counts_for_uid at 3. rewrite Hl. simpl. lia.
  - intros k. rewrite (learn_step_count Hstep), Ha.
    unfold counts_for_application at 3. rewrite Hl. simpl. lia.
Qed.

Lemma loop_inv_endpoint known templates pu pa s s' out learned uid file :
  loop_inv known templates pu pa s -> learn_step out s s' ->
  spec (outcome_rule out)
    = learned_spec (lae_endpoint learned) (Some (lae_application learned)) ->
  as_uid (lae_application learned) = Some uid ->
  as_executable_file (lae_application learned) = Some file ->
  loop_inv ({[from_application_endpoint learned]} ∪ known) templates
    (entry_increment uid pu) (entry_increment (uid, file) pa) s'.
Proof.
  intros [-> -> Hu Ha] Hstep Hsp Huid Hfile.
  assert (Hl : is_learned_outbound (outcome_rule out) = true)
    by (unfold is_learned_outbound; by rewrite Hsp).
  split.
  - rewrite (learn_step_keys Hstep), Hl. unfold from_rule. by rewrite Hsp.
  - rewrite (learn_step_template_keys Hstep).
    unfold from_template. rewrite Hsp. simpl. set_solver.
  - intros u. rewrite lookup_entry_increment, Hu, (learn_step_count Hstep).
    unfold counts_for_uid at 3. rewrite Hl, Hsp. simpl. rewrite Huid, Hfile. f_equal.
    unfold eqb. repeat case_bool_decide; simpl; congruence.
  - intros [u f]. rewrite lookup_entry_increment, Ha, (learn_step_count Hstep).
    unfold counts_for_application at 3. rewrite Hl, Hsp. simpl. rewrite Huid, Hfile. f_equal.
    unfold eqb. repeat case_bool_decide; simpl; congruence.
Qed.

(** What a run of the loop from [outcomes] establishes. *)
Definition loop_result (max : Z) (outcomes : list LearnOutcome) (s s' : State)
    (r : Result CoreError (list LearnOutcome)) : Prop :=
  exists new, trace app_step new s s'
  /\ zlen outcomes + zlen new <= Z.max (zlen outcomes) max
  /\ (forall outs, r = Ok outs -> outs = outcomes ++ new).

Lemma loop_result_stop max outcomes s r :
  (forall outs, r = Ok outs -> outs = outcomes) -> loop_result max outcomes s s r.
Proof.
  intros Hr. exists []. rewrite app_nil_r. split_and!; [constructor| |done].
  unfold zlen at 2. simpl. lia.
Qed.

Lemma loop_result_step max outcomes s s1 s' out r :
  zlen outcomes + 1 <= max -> app_step out s s1 ->
  loop_result max (outcomes ++ [out]) s1 s' r -> loop_result max outcomes s s' r.
Proof.
  intros Hmax Hstep (new & Htr & Hlen & Hok). exists (out :: new). split_and!.
  - by econstructor.
  - rewrite zlen_cons. rewrite zlen_app in Hlen. change (zlen [out]) with 1 in Hlen. lia.
  - intros outs Hr. rewrite (Hok outs Hr). by rewrite <-app_assoc.
Qed.

Lemma usize_saturating_add_le a b c :
  c <= USIZE_MAX -> (usize_saturating_add a b <= c <-> a + b <= c \/ c = USIZE_MAX).
Proof.
  unfold usize_saturating_add, u64_saturating_add, USIZE_MAX. lia.
Qed.

(** The insertion of one endpoint followed by the rest of the loop. *)
Lemma insert_then_loop supply max known templates pu pa outcomes learned uid file rest s s' r :
  (forall known templates pu pa outcomes s, loop_inv known templates pu pa s ->
     learn_applications_loop supply limits max known templates pu pa outcomes rest s = (s', r) ->
     loop_result max outcomes s s' r) ->
  loop_inv known templates pu pa s ->
  observed learned ->
  from_application_endpoint learned ∉ known ->
  as_uid (lae_application learned) = Some uid ->
  as_executable_file (lae_application learned) = Some file ->
  default 0 (pu !! uid) < per_uid limits ->
  default 0 (pa !! (uid, file)) < per_application limits ->
  zlen outcomes + 1 <= max ->
  (outcome ← insert_learned_endpoint (supply (length outcomes)) (lae_endpoint learned)
               (Some (lae_application learned));
   learn_applications_loop supply limits max ({[from_application_endpoint learned]} ∪ known)
     templates (entry_increment uid pu) (entry_increment (uid, file) pa)
     (outcomes ++ [outcome]) rest) s = (s', r) ->
  loop_result max outcomes s s' r.
Proof.
  intros IH Hinv Hobs Hknown Huid Hfile Hqu Hqa Hmax. rewrite run_bind.
  destruct (insert_learned_endpoint _ _ _ s) as [s1 [out|e]] eqn:Hins.
  - apply insert_learned_step in Hins as [Hsp Hstep]. intros Hrun.
    eapply loop_result_step; [done| |].
    + destruct Hinv as [-> _ Hu Ha]. rewrite Hu in Hqu. rewrite Ha in Hqa.
      by eapply app_step_endpoint.
    + eapply IH; [|exact Hrun]. by eapply loop_inv_endpoint.
  - apply insert_learned_endpoint_err_safe in Hins as ->. intros [= <- <-].
    by apply loop_result_stop.
Qed.

(** The loop is a trace of guarded creations that stays within its budget,
    whether it ends normally or with an error. *)
Lemma learn_applications_loop_trace supply max endpoints s' r :
  max < USIZE_MAX -> Forall observed endpoints -> forall known templates pu pa outcomes s,
  loop_inv known templates pu pa s ->
  learn_applications_loop supply limits max known templates pu pa outcomes endpoints s = (s', r) ->
  loop_result max outcomes s s' r.
Proof.
  intros Hmax. induction 1 as [|learned rest Hobs Hrest IH];
    intros known templates pu pa outcomes s Hinv; cbn [learn_applications_loop].
  { intros [= <- <-]. apply loop_result_stop. naive_solver. }
  case_bool_decide as Hknown; [by apply IH|].
  rewrite run_lift. destruct (map_err Validation _) as [key|e] eqn:Hkey;
    [|intros [= <- <-]; by apply loop_result_stop].
  destruct (_ <? _) eqn:Hslots;
    [intros [= <- <-]; apply loop_result_stop; naive_solver|].
  rewrite Z.ltb_ge, usize_saturating_add_le in Hslots by lia. destruct Hslots as [Hslots|]; [|lia].
  rewrite run_lift. destruct (as_uid _) as [uid|] eqn:Huid;
    [|intros [= <- <-]; by apply loop_result_stop].
  cbn [ok_or]. rewrite run_lift. destruct (as_executable_file _) as [file|] eqn:Hfile;
    [|intros [= <- <-]; by apply loop_result_stop].
  cbn [ok_or]. destruct (_ || _) eqn:Hquota; [by apply IH|].
  rewrite orb_false_iff, !Z.leb_gt in Hquota. destruct Hquota as [Hqu Hqa].
  rewrite run_bind. case_bool_decide as Htemplate; simpl in Hslots |- *.
  { intros Hrun. eapply insert_then_loop; eauto; lia. }
  rewrite run_bind.
  destruct (insert_application_group_template _ _ s) as [s1 [out|e]] eqn:Hins.
  - apply insert_template_step in Hins as [Hsp Hstep]. simpl. intros Hrun.
    eapply loop_result_step; [lia| |].
    + eapply app_step_template; [done| |done]. by destruct Hinv as [_ -> _ _].
    + eapply insert_then_loop; [exact IH|by eapply loop_inv_template|done..| |exact Hrun].
      rewrite zlen_app. change (zlen [out]) with 1. lia.
  - apply insert_application_group_template_err_safe in Hins as ->. intros [= <- <-].
    by apply loop_result_stop.
Qed.
End Batch.

(** ** The network learner *)

Section NetworkBatch.
Context `{IpNetLib}.

(** One creation of the network learner: an endpoint not known before. *)
Record net_step (out : LearnOutcome) (s s' : State) : Prop := {
  net_step_spec : exists endpoint, spec (outcome_rule out) = learned_spec endpoint None
    /\ from_endpoint endpoint ∉ known_keys s;
  net_step_learn : learn_step out s s'
}.

Lemma learn_endpoints_loop_trace supply max endpoints s' r : forall known outcomes s,
  known = known_keys s ->
  learn_endpoints_loop supply max known outcomes endpoints s = (s', r) ->
  exists new, trace net_step new s s'
  /\ zlen outcomes + zlen new <= Z.max (zlen outcomes) max
  /\ (forall outs, r = Ok outs -> outs = outcomes ++ new).
Proof.
  induction endpoints as [|endpoint rest IH]; intros known outcomes s Hk;
    cbn [learn_endpoints_loop].
  { intros [= <- <-]. exists []. rewrite app_nil_r. change (zlen (@nil LearnOutcome)) with 0.
    split_and!; [constructor|lia|naive_solver]. }
  case_bool_decide as Hknown; [by apply IH|].
  destruct (Z.leb_spec max (zlen outcomes)) as [|Hmax].
  { intros [= <- <-]. exists []. rewrite app_nil_r. change (zlen (@nil LearnOutcome)) with 0.
    split_and!; [constructor|lia|naive_solver]. }
  rewrite run_bind. destruct (insert_learned_endpoint _ _ _ s) as [s1 [out|e]] eqn:Hins.
  - apply insert_learned_step in Hins as [Hsp Hstep]. intros Hrun.
    assert (Hk1 : {[from_endpoint endpoint]} ∪ known = known_keys s1).
    { rewrite (learn_step_keys Hstep), Hk. unfold is_learned_outbound, from_rule. by rewrite Hsp. }
    destruct (IH _ _ _ Hk1 Hrun) as (new & Htr & Hlen & Hok).
    rewrite zlen_app in Hlen. change (zlen [out]) with 1 in Hlen.
    exists (out :: new). rewrite zlen_cons. split_and!; [|lia|].
    + econstructor; [|done]. split; [|done]. exists endpoint. by rewrite <-Hk.
    + intros outs Hr. rewrite (Hok outs Hr). by rewrite <-app_assoc.
  - apply insert_learned_endpoint_err_safe in Hins as ->. intros [= <- <-].
    exists []. change (zlen (@nil LearnOutcome)) with 0. split_and!; [constructor|lia|done].
Qed.

Lemma learn_new_endpoints_trace supply endpoints max s s' r :
  learn_new_endpoints supply endpoints max s = (s', r) ->
  exists new, trace net_step new s s' /\ zlen new <= Z.max 0 (batch_budget s max)
  /\ (forall outs, r = Ok outs -> outs = new).
Proof.
  unfold learn_new_endpoints. rewrite run_lift. destruct (for_each _ _) as [[]|e].
  - rewrite run_get. intros (new & Htr & Hlen & Hok)%learn_endpoints_loop_trace; [|done].
    by exists new.
  - intros [= <- <-]. exists []. change (zlen (@nil LearnOutcome)) with 0.
    split_and!; [constructor|lia|done].
Qed.

Lemma learn_new_applications_trace supply endpoints max limits s s' r :
  max < USIZE_MAX ->
  learn_new_application_endpoints_with_limits supply endpoints max limits s = (s', r) ->
  exists new, trace (app_step limits (fun e => e ∈ endpoints)) new s s' /\ zlen new <= Z.max 0 (batch_budget s max)
  /\ (forall outs, r = Ok outs -> outs = new).
Proof.
  intros Hmax. unfold learn_new_application_endpoints_with_limits. rewrite run_lift.
  destruct (for_each _ _) as [[]|e].
  - rewrite run_get.
    intros (new & Htr & Hlen & Hok)%(learn_applications_loop_trace _ (fun e => e ∈ endpoints)).
    + by exists new.
    + unfold batch_budget. lia.
    + apply Forall_forall. intros e (i & Hi & _)%elem_of_take. by eapply list_elem_of_lookup_2.
    + apply loop_inv_init.
  - intros [= <- <-]. exists []. change (zlen (@nil LearnOutcome)) with 0.
    split_and!; [constructor|lia|done].
Qed.

Lemma learn_endpoint_trace draw endpoint s s' r :
  learn_endpoint draw endpoint s = (s', r) ->
  (s' = s /\ (forall out, r = Ok out -> outcome_event out = None))
  \/ exists out, r = Ok out /\ learn_step out s s'
     /\ automatic_count s < MAX_AUTOMATIC_LEARNED_RULES.
Proof.
  unfold learn_endpoint. rewrite run_lift. destruct (map_err _ _) as [[]|e]; [|naive_solver].
  rewrite run_get. case_match; [intros [= <- <-]; left; naive_solver|].
  rewrite run_lift. destruct (Z.leb_spec MAX_AUTOMATIC_LEARNED_RULES (automatic_count s)); simpl;
    [naive_solver|].
  destruct r as [out|e]; intros Hrun.
  - apply insert_learned_step in Hrun as [_ ?]. right. by exists out.
  - apply insert_learned_endpoint_err_safe in Hrun as ->. by left.
Qed.
End NetworkBatch.

(** ** The template migration *)

Section MigrationFacts.
Context `{JsonLib}.

Lemma set_back s m :
  set_flow_generation (flow_generation s) (set_revision (revision s)
    (set_rules (rules s) (mkState (revision s + 1) (flow_generation s) (mode s)
       (enforcement_strategy s) m))) = s.
Proof. by destruct s. Qed.

(** Rolling back an insertion restores the state before it exactly. *)
Lemma rollback_template_exact draw key s s' out :
  insert_application_group_template draw key s = (s', Ok out) ->
  rollback_template (rule_id (outcome_rule out)) (revision s) (flow_generation s) s' = (s, Ok tt).
Proof.
  intros [_ Hstep]%insert_template_step. apply learn_step_effect in Hstep as (id & Hid & Hr & ->).
  unfold rollback_template. rewrite !run_modify. unfold modify. f_equal. simpl.
  rewrite Hr, delete_insert_id by done. by destruct s.
Qed.

(** One migrated template: a group that had no template. *)
Record template_step (out : LearnOutcome) (s s' : State) : Prop := {
  template_step_key : exists key, spec (outcome_rule out) = template_spec key
    /\ key ∉ known_template_keys s;
  template_step_learn : learn_step out s s'
}.

(** A run of at most [n] steps that appends its outcomes. *)
Definition migrated (n : Z) (outcomes : list LearnOutcome) (s s' : State)
    (r : Result CoreError (list LearnOutcome)) : Prop :=
  exists new, trace template_step new s s' /\ zlen new <= n
  /\ (forall outs, r = Ok outs -> outs = outcomes ++ new).

Lemma migrated_stop n outcomes s r :
  0 <= n -> (forall outs, r = Ok outs -> outs = outcomes) -> migrated n outcomes s s r.
Proof. intros. exists []. rewrite app_nil_r. split_and!; [constructor|done|done]. Qed.

Lemma ensure_templates_loop_trace supply max groups s' r : forall size outcomes s,
  NoDup groups -> (forall k, k ∈ groups -> k ∉ known_template_keys s) ->
  ensure_templates_loop supply max size outcomes groups s = (s', r) ->
  migrated (zlen groups) outcomes s s' r.
Proof.
  induction groups as [|key rest IH]; intros size outcomes s Hnd Hk; cbn [ensure_templates_loop].
  { intros [= <- <-]. apply migrated_stop; [done|naive_solver]. }
  pose proof (zlen_nonneg (key :: rest)) as Hnn. rewrite run_get, run_bind.
  destruct (insert_application_group_template _ _ s) as [s1 [out|e]] eqn:Hins.
  2: { pose proof Hins as ->%insert_application_group_template_err_safe.
       intros [= <- <-]. by apply migrated_stop. }
  rewrite run_get. pose proof (rollback_template_exact _ _ _ _ _ Hins) as Hback.
  case_match; [|rewrite run_bind, Hback; intros [= <- <-]; by apply migrated_stop].
  case_match; [rewrite run_bind, Hback; intros [= <- <-]; apply migrated_stop; naive_solver|].
  apply insert_template_step in Hins as [Hsp Hstep]. inversion Hnd as [|?? Hnotin Hnd']; subst.
  intros (new & Htr & Hlen & Hok)%IH; [|done|].
  - exists (out :: new). rewrite !zlen_cons. split_and!; [|lia|].
    + econstructor; [|done]. split; [|done]. exists key. split; [done|]. apply Hk. left.
    + intros outs Hr. rewrite (Hok outs Hr). by rewrite <-app_assoc.
  - intros k Hin. rewrite (learn_step_template_keys Hstep),
      (from_template_template_spec _ key) by done.
    assert (k <> key) by congruence. specialize (Hk k). set_solver.
Qed.

Lemma insert_filter_spec keys : forall known,
  NoDup (insert_filter known keys)
  /\ (forall k, k ∈ insert_filter known keys <-> k ∈ keys /\ k ∉ known).
Proof.
  induction keys as [|key rest IH]; intros known; simpl.
  - split; [constructor|]. set_solver.
  - case_bool_decide as Hk.
    + destruct (IH known) as [Hnd Hel]. split; [done|]. intros k. rewrite Hel. set_solver.
    + destruct (IH ({[key]} ∪ known)) as [Hnd Hel]. split.
      * constructor; [|done]. rewrite Hel. set_solver.
      * intros k. rewrite elem_of_cons, Hel, elem_of_cons, not_elem_of_union, not_elem_of_singleton.
        destruct (decide (k = key)); naive_solver.
Qed.

Lemma ensure_templates_trace supply max bytes s s' r :
  ensure_application_group_templates_with_size_limit supply max bytes s = (s', r) ->
  migrated (Z.max 0 (Z.min (Z.min max (MAX_RULES - btree_len (rules s)))
                       (MAX_AUTOMATIC_LEARNED_RULES - automatic_count s))) [] s s' r.
Proof.
  unfold ensure_application_group_templates_with_size_limit. rewrite run_get, run_lift.
  case_match; [|intros [= <- <-]; apply migrated_stop; [lia|done]].
  set (n := Z.min _ _). intros Hrun.
  destruct (insert_filter_spec (omap (fun selector => ok (from_selector selector))
       (omap (fun rule => rule.(spec).(application))
          (List.filter is_learned_outbound (btree_values s.(rules))))) (known_template_keys s))
    as [Hnd Hel].
  apply ensure_templates_loop_trace in Hrun as (new & Htr & Hlen & Hok).
  - exists new. split_and!; [done| |done]. revert Hlen. unfold zlen at 2.
    rewrite length_take. subst n. unfold usize_saturating_sub. lia.
  - eapply sublist_NoDup; [exact Hnd|apply sublist_take].
  - intros k (i & Hi & _)%elem_of_take. apply Hel. by eapply list_elem_of_lookup_2.
Qed.
End MigrationFacts.
