(* ===== verification/Policy.v ===== *)
(** * The policy state machine

    Every public mutation of [State] as one operation type with its step
    function, the states reachable from [State::new], and the properties that
    hold along every run: the state invariant, revisions and events, the
    meaning of a flow generation, learning budgets, snapshots, redaction and
    pagination. *)

From S2P Require Import Prelude Text Net Application Model State StateFacts StateLearning.
From S2P Require Import StateLearningFacts.
Local Open Scope Z_scope.

Section Machine.
Context `{IpNetLib} `{JsonLib}.

(** ** Operations *)

Inductive Op : Type :=
| SetMode (m : Mode) (now : DateTime)
| Enforce (strategy : EnforcementStrategy) (now : DateTime)
| CreateRule (id : Uuid) (sp : RuleSpec) (now : DateTime)
| UpdateRule (id : Uuid) (sp : RuleSpec) (now : DateTime)
| DeleteRule (id : Uuid) (now : DateTime)
| SetRuleEnabled (id : Uuid) (b : bool) (now : DateTime)
| LearnEndpoint (draw : Uuid * DateTime) (endpoint : LearnedEndpoint)
| LearnEndpoints (supply : Supply) (endpoints : list LearnedEndpoint) (max : Z)
| LearnApplications (supply : Supply) (endpoints : list LearnedApplicationEndpoint) (max : Z)
    (limits : LearningLimits)
| EnsureTemplates (supply : Supply) (max : Z)
| RotateGeneration (generation : Z).

Definition outcome_events (outs : list LearnOutcome) : list Event := omap outcome_event outs.

Definition apply_op (op : Op) : ST State CoreError (list Event) :=
  match op with
  | SetMode m now => ev ← set_mode_at m now; mret [ev]
  | Enforce strategy now => ev ← enforce strategy now; mret [ev]
  | CreateRule id sp now => x ← create_rule_at id sp now; mret [x.2]
  | UpdateRule id sp now => x ← update_rule_at id sp now; mret [x.2]
  | DeleteRule id now => x ← delete_rule_at id now; mret [x.2]
  | SetRuleEnabled id b now => x ← set_rule_enabled_at id b now; mret [x.2]
  | LearnEndpoint draw endpoint => out ← learn_endpoint draw endpoint; mret (outcome_events [out])
  | LearnEndpoints supply endpoints max =>
      outs ← learn_new_endpoints supply endpoints max; mret (outcome_events outs)
  | LearnApplications supply endpoints max limits =>
      outs ← learn_new_application_endpoints_with_limits supply endpoints max limits;
      mret (outcome_events outs)
  | EnsureTemplates supply max =>
      outs ← ensure_application_group_templates supply max; mret (outcome_events outs)
  | RotateGeneration generation => rotate_flow_generation generation ;; mret []
  end.

(** A batch bound is a [usize]; the daemon never passes its maximum. *)
Definition op_bounded (op : Op) : Prop :=
  match op with LearnApplications _ _ max _ => max < USIZE_MAX | _ => True end.

Inductive reachable : State -> Prop :=
| reachable_new : reachable State_new
| reachable_op op s s' r :
    reachable s -> op_bounded op -> apply_op op s = (s', r) -> reachable s'.

(** ** The shapes of an effect *)

Definition is_rotation (op : Op) : bool :=
  match op with RotateGeneration _ => true | _ => false end.

(** [rot] tells whether a rotation is among the possible effects. *)
Inductive effect (rot : bool) (s s' : State) : list Event -> Prop :=
| effect_none : s' = s -> effect rot s s' []
| effect_mode m strategy g now :
    revision s + 1 <= U64_MAX ->
    ((flow_generation s < MAX_FLOW_GENERATION /\ g = flow_generation s + 1)
     \/ (MAX_FLOW_GENERATION <= flow_generation s /\ m = BlockAll /\ g = flow_generation s)) ->
    s' = mkState (revision s + 1) g m strategy (rules s) ->
    effect rot s s' [mkEvent (revision s + 1) now (ModeChanged (mode s) m)]
| effect_create id sp now r ev :
    create_rule_at id sp now s = (s', Ok (r, ev)) -> effect rot s s' [ev]
| effect_update id sp now r ev :
    update_rule_at id sp now s = (s', Ok (r, ev)) -> effect rot s s' [ev]
| effect_delete id now r ev :
    delete_rule_at id now s = (s', Ok (r, ev)) -> effect rot s s' [ev]
| effect_enabled id b now r ev :
    set_rule_enabled_at id b now s = (s', Ok (r, ev)) -> effect rot s s' [ev]
| effect_learn outs :
    learn_steps outs s s' -> effect rot s s' (outcome_events outs)
| effect_rotate g : rot = true -> rotate_flow_generation g s = (s', Ok tt) -> effect rot s s' [].

Lemma run_then_ret {A B} (m : ST State CoreError A) (f : A -> B) s s' r :
  (x ← m; mret (f x)) s = (s', r) -> exists r0, m s = (s', r0) /\ r = f <$> r0.
Proof. rewrite run_bind. destruct (m s) as [s1 [a|e]]; intros [= <- <-]; eauto. Qed.

(** [r] reports the events of an effect from [s] to [s']. *)
Definition explained (rot : bool) (s s' : State) (r : Result CoreError (list Event)) : Prop :=
  exists evs, effect rot s s' evs /\ (forall evs', r = Ok evs' -> evs' = evs).

Lemma explained_err rot s e : explained rot s s (Err e).
Proof. exists []. split; [by constructor|done]. Qed.

Lemma explained_ok rot s s' evs : effect rot s s' evs -> explained rot s s' (Ok evs).
Proof. intros. exists evs. naive_solver. Qed.

Lemma explained_batch rot R new s s' (r : Result CoreError (list LearnOutcome)) :
  (forall out s s', R out s s' -> learn_step out s s') -> trace R new s s' ->
  (forall outs, r = Ok outs -> outs = new) -> explained rot s s' (outcome_events <$> r).
Proof.
  intros HR Htr Hr. exists (outcome_events new). split.
  - apply effect_learn. by eapply trace_mono.
  - destruct r; simpl; [|done]. intros evs [= <-]. by rewrite (Hr _ eq_refl).
Qed.

(** Every operation has one of these effects; on success its events are those
    of the effect. *)
Lemma apply_op_effect op s s' r :
  op_bounded op -> apply_op op s = (s', r) -> explained (is_rotation op) s s' r.
Proof.
  destruct op; simpl; intros Hb Hrun; apply run_then_ret in Hrun as (r0 & Hrun & ->).
  - unfold set_mode_at in Hrun. rewrite run_get in Hrun. destruct r0.
    + apply set_mode_with_strategy_at_Ok in Hrun as (g & (? & ?) & -> & ->).
      apply explained_ok. by econstructor.
    + apply set_mode_with_strategy_at_err_safe in Hrun as ->. apply explained_err.
  - unfold enforce in Hrun. destruct r0.
    + apply set_mode_with_strategy_at_Ok in Hrun as (g & (? & ?) & -> & ->).
      apply explained_ok. by econstructor.
    + apply set_mode_with_strategy_at_err_safe in Hrun as ->. apply explained_err.
  - destruct r0 as [[]|]; [apply explained_ok; by eapply effect_create|].
    apply create_rule_at_err_safe in Hrun as ->. apply explained_err.
  - destruct r0 as [[]|]; [apply explained_ok; by eapply effect_update|].
    apply update_rule_at_err_safe in Hrun as ->. apply explained_err.
  - destruct r0 as [[]|]; [apply explained_ok; by eapply effect_delete|].
    apply delete_rule_at_err_safe in Hrun as ->. apply explained_err.
  - destruct r0 as [[]|]; [apply explained_ok; by eapply effect_enabled|].
    apply set_rule_enabled_at_err_safe in Hrun as ->. apply explained_err.
  - apply learn_endpoint_trace in Hrun as [[-> Hnev]|(out & -> & Hstep & _)].
    + destruct r0; [|apply explained_err]. apply explained_ok. simpl. rewrite Hnev by done.
      by constructor.
    + apply explained_ok. apply (effect_learn _ _ _ [out]). econstructor; [done|constructor].
  - apply learn_new_endpoints_trace in Hrun as (new & Htr & _ & Hok).
    eapply explained_batch; [|exact Htr|exact Hok]. by intros ??? [].
  - apply learn_new_applications_trace in Hrun as (new & Htr & _ & Hok); [|done].
    eapply explained_batch; [apply app_step_learn_step|exact Htr|exact Hok].
  - apply ensure_templates_trace in Hrun as (new & Htr & _ & Hok).
    eapply explained_batch; [|exact Htr|exact Hok]. by intros ??? [].
  - destruct r0 as [[]|]; [apply explained_ok; by eapply effect_rotate|].
    apply rotate_flow_generation_err_safe in Hrun as ->. apply explained_err.
Qed.

(** ** The invariant *)

Lemma entry_ok_create id sp now :
  admissible sp -> id <> 0 -> entry_ok id (mkRule id sp now now).
Proof.
  intros (? & ? & ?) ?. unfold entry_ok, reject_redacted_rule. rewrite Rule_validate_Ok.
  simpl. split_and!; done || lia.
Qed.

Lemma stored_spec_redaction sp :
  reject_redacted_spec sp = Ok tt -> reject_redacted_spec (stored_spec sp) = Ok tt.
Proof.
  unfold stored_spec, clear_disabled_template_pin_if_skeleton. repeat case_match; try done.
  unfold reject_redacted_spec. simpl.
  match goal with Ha : application sp = Some _ |- _ => by rewrite Ha end.
Qed.

Lemma create_preserves id sp now s s' r ev :
  state_ok s -> create_rule_at id sp now s = (s', Ok (r, ev)) -> state_ok s'.
Proof.
  intros [Hrev Hgen Hsize Hent] Hrun. apply create_rule_at_Ok in Hrun.
  destruct Hrun as ((Hsp & Hlen & Hid & Hnz & Hr1 & Hg1) & -> & _ & ->).
  split; simpl; [lia| | |].
  - destruct (enabled_deny sp); [specialize (Hg1 eq_refl)|]; lia.
  - rewrite btree_len_insert by done. lia.
  - apply map_Forall_insert; [done|]. split; [by apply entry_ok_create|done].
Qed.

Lemma advance_insert_ok b id r r0 s :
  state_ok s -> rules s !! id = Some r0 -> counters_available b s -> entry_ok id r ->
  state_ok (advance b (<[id := r]> (rules s)) s).
Proof.
  intros [Hrev Hgen Hsize Hent] Hid [Hr1 Hg1] Hr. split; simpl; [lia| | |].
  - destruct b; [specialize (Hg1 eq_refl)|]; lia.
  - by erewrite btree_len_insert_Some.
  - by apply map_Forall_insert_2.
Qed.

Lemma effect_preserves rot s s' evs : state_ok s -> effect rot s s' evs -> state_ok s'.
Proof.
  intros Hok [-> |m strategy g now Hr Hg ->|id sp now r ev Hrun|id sp now r ev Hrun
    |id now r ev Hrun|id b now r ev Hrun|outs Htr|g _ Hrun].
  - done.
  - destruct Hok as [Hrev Hgen Hsize Hent]. split; simpl; [lia|lia|done|done].
  - by eapply create_preserves.
  - apply update_rule_at_Ok in Hrun as (c & (Hsp & Hid & Hnz & Hle & Hc) & -> & _ & ->).
    eapply advance_insert_ok; [done..|].
    destruct (state_ok_entries s Hok id c Hid) as (Hrid & _ & _ & _).
    destruct Hsp as (? & ? & ?). split_and!; [done| |done|done].
    by rewrite Rule_validate_Ok.
  - apply delete_rule_at_Ok in Hrun as ((Hid & Hr1 & Hg1) & _ & ->).
    destruct Hok as [Hrev Hgen Hsize Hent]. specialize (Hg1 eq_refl).
    split; simpl; [lia|lia| |by apply map_Forall_delete].
    erewrite btree_len_delete by done. lia.
  - apply set_rule_enabled_at_Ok in Hrun as (c & (Hid & Hv & Hu & Hc) & Hr & _ & ->).
    eapply advance_insert_ok; [done..|].
    destruct (state_ok_entries s Hok id c Hid) as (Hrid & _ & Hred & _).
    split_and!; [by rewrite Hr|done| |done]. rewrite Hr. unfold reject_redacted_rule. simpl.
    by apply stored_spec_redaction.
  - clear H H0. induction Htr as [|out outs s1 s2 s3 [_ (id & now & ev & _ & Hrun)] _ IH]; [done|].
    apply IH. by eapply create_preserves.
  - apply rotate_flow_generation_Ok in Hrun as (Hg & _ & ->).
    destruct Hok as [Hrev Hgen Hsize Hent]. by split.
Qed.

(** C1: every state that any sequence of operations, successful or not, can
    reach from the initial one satisfies the state invariant: revisions fit
    64 bits, the flow generation fits its mark domain, at most [MAX_RULES]
    rules are stored, each under its own identifier, valid, never redacted and
    pinned to an executable version unless it is a disabled template.
    Validating such a state can therefore fail on its serialized size only. *)
Theorem reachable_states_are_valid s :
  reachable s ->
  state_ok s
  /\ (State_validate s = Ok tt <-> exists n, bounded_serialized_state_size s = Ok n).
Proof.
  intros Hs. assert (Hok : state_ok s).
  { induction Hs as [|op s s' r _ IH Hb Hrun]; [apply State_new_ok|].
    apply apply_op_effect in Hrun as (evs & He & _); [|done]. by eapply effect_preserves. }
  split; [done|]. rewrite State_validate_Ok. destruct Hok. naive_solver.
Qed.

(** ** Revisions and events *)

Definition consecutive (from : Z) (evs : list Event) : Prop :=
  event_revision <$> evs = (fun k => from + 1 + Z.of_nat k) <$> seq 0 (length evs).

Lemma consecutive_one from ev : event_revision ev = from + 1 -> consecutive from [ev].
Proof. intros He. unfold consecutive. simpl. rewrite He. f_equal. lia. Qed.

Lemma consecutive_cons from ev evs :
  event_revision ev = from + 1 -> consecutive (from + 1) evs -> consecutive from (ev :: evs).
Proof.
  unfold consecutive. intros He Hevs. cbn [length seq]. rewrite !fmap_cons, He, Hevs.
  f_equal; [lia|].
  rewrite <-fmap_S_seq, <-list_fmap_compose. apply list_fmap_ext. intros ? x _. simpl. lia.
Qed.

Lemma outcome_events_cons out ev outs :
  outcome_event out = Some ev -> outcome_events (out :: outs) = ev :: outcome_events outs.
Proof. intros He. unfold outcome_events. simpl. by rewrite He. Qed.

Lemma effect_revision rot s s' evs :
  effect rot s s' evs -> revision s' = revision s + zlen evs /\ consecutive (revision s) evs.
Proof.
  intros [-> |m strategy g now _ _ ->|id sp now r ev Hrun|id sp now r ev Hrun
    |id now r ev Hrun|id b now r ev Hrun|outs Htr|g _ Hrun].
  - change (zlen (@nil Event)) with 0. split; [lia|done].
  - split; [done|by apply consecutive_one].
  - apply create_rule_at_Ok in Hrun as (_ & _ & -> & ->). split; [done|by apply consecutive_one].
  - apply update_rule_at_Ok in Hrun as (c & _ & _ & -> & ->).
    split; [done|by apply consecutive_one].
  - apply delete_rule_at_Ok in Hrun as (_ & -> & ->). split; [done|by apply consecutive_one].
  - apply set_rule_enabled_at_Ok in Hrun as (c & _ & _ & -> & ->).
    split; [done|by apply consecutive_one].
  - clear H H0. induction Htr as [s|out outs s1 s2 s3 Hstep _ [IHr IHc]].
    + change (zlen (outcome_events [])) with 0. split; [lia|done].
    + destruct Hstep as [_ (id & now & ev & Hev & Hrun)].
      apply create_rule_at_Ok in Hrun as (_ & _ & -> & ->).
      rewrite (outcome_events_cons _ _ _ Hev), zlen_cons. cbn [revision advance] in IHr, IHc.
      split; [lia|by apply consecutive_cons].
  - apply rotate_flow_generation_Ok in Hrun as (_ & _ & ->).
    change (zlen (@nil Event)) with 0. simpl. split; [lia|done].
Qed.

(** A successful operation advances the revision by exactly the number of
    events it reports, and those events carry the consecutive revisions after
    the old one, so observers can order and count every change. *)
Theorem events_carry_consecutive_revisions op s s' evs :
  op_bounded op -> apply_op op s = (s', Ok evs) ->
  revision s' = revision s + zlen evs
  /\ event_revision <$> evs = (fun k => revision s + 1 + Z.of_nat k) <$> seq 0 (length evs).
Proof.
  intros Hb (evs' & He & Hevs)%apply_op_effect; [|done].
  rewrite (Hevs _ eq_refl). by eapply effect_revision.
Qed.

(** ** Failures *)

Definition is_batch (op : Op) : bool :=
  match op with
  | LearnEndpoints _ _ _ | LearnApplications _ _ _ _ | EnsureTemplates _ _ => true
  | _ => false
  end.

(** An operation that reports an error leaves the state as it was; a batch
    may keep the rules it had already learned, and nothing else. *)
Theorem failed_operations_change_nothing op s s' e :
  op_bounded op -> apply_op op s = (s', Err e) ->
  (is_batch op = false -> s' = s) /\ exists outs, learn_steps outs s s'.
Proof.
  assert (Hnone : forall s' : State, s' = s ->
    (is_batch op = false -> s' = s) /\ exists outs, learn_steps outs s s').
  { intros ? ->. split; [done|]. exists []. constructor. }
  destruct op; simpl; intros Hb Hrun; apply run_then_ret in Hrun as ([|e'] & Hrun & [= <-]);
    try (apply Hnone; unfold enforce in Hrun;
         first [by eapply set_mode_at_err_safe|by eapply set_mode_with_strategy_at_err_safe
               |by eapply create_rule_at_err_safe|by eapply update_rule_at_err_safe
               |by eapply delete_rule_at_err_safe|by eapply set_rule_enabled_at_err_safe
               |by eapply rotate_flow_generation_err_safe]).
  - apply learn_endpoint_trace in Hrun as [[-> _]|(out & [=] & _)]. by apply Hnone.
  - apply learn_new_endpoints_trace in Hrun as (new & Htr & _). split; [done|].
    exists new. eapply trace_mono; [|done]. by intros ??? [].
  - apply learn_new_applications_trace in Hrun as (new & Htr & _); [|done]. split; [done|].
    exists new. eapply trace_mono; [|done]. apply app_step_learn_step.
  - apply ensure_templates_trace in Hrun as (new & Htr & _). split; [done|].
    exists new. eapply trace_mono; [|done]. by intros ??? [].
Qed.

(** ** Flow generations

    A conntrack mark authorizes a flow for one generation.  [same_authority]
    says that nothing the marks of [s] rest on was withdrawn in [s']. *)

Record same_authority (s s' : State) : Prop := {
  authority_kept : forall id r, rules s !! id = Some r -> enabled (spec r) = true ->
    exists r', rules s' !! id = Some r' /\ spec r' = spec r;
  authority_no_new_deny : forall id r', rules s' !! id = Some r' -> enabled_deny (spec r') = true ->
    exists r, rules s !! id = Some r /\ spec r = spec r';
  authority_mode : mode s' = mode s \/ mode s' = BlockAll
}.

#[export] Instance same_authority_refl : Reflexive same_authority.
Proof. intros s. split; eauto. Qed.

#[export] Instance same_authority_trans : Transitive same_authority.
Proof.
  intros s1 s2 s3 [K1 D1 M1] [K2 D2 M2]. split.
  - intros id r Hr He. destruct (K1 id r Hr He) as (r' & Hr' & E1).
    destruct (K2 id r' Hr') as (r'' & Hr'' & E2); [by rewrite E1|].
    exists r''. split; [done|congruence].
  - intros id r Hr He. destruct (D2 id r Hr He) as (r' & Hr' & E1).
    destruct (D1 id r' Hr') as (r'' & Hr'' & E2); [by rewrite E1|].
    exists r''. split; [done|congruence].
  - destruct M1, M2; [left|right..]; congruence.
Qed.

(** Replacing one entry is harmless when it kept an enabled specification and
    did not become a denying rule. *)
Lemma same_authority_insert s b id r :
  (forall r0, rules s !! id = Some r0 -> enabled (spec r0) = true -> spec r = spec r0) ->
  (enabled_deny (spec r) = true -> exists r0, rules s !! id = Some r0 /\ spec r0 = spec r) ->
  same_authority s (advance b (<[id := r]> (rules s)) s).
Proof.
  intros Hkeep Hdeny. split; simpl; [| |by left].
  - intros i r0 Hi He. destruct (decide (i = id)) as [->|].
    + exists r. rewrite lookup_insert_eq. split; [done|]. by eapply Hkeep.
    + exists r0. by rewrite lookup_insert_ne.
  - intros i r' Hi He. apply lookup_insert_Some in Hi as [[-> ->]|[? Hi]]; [by apply Hdeny|eauto].
Qed.

Lemma stored_spec_enabled sp : enabled sp = true -> stored_spec sp = sp.
Proof.
  intros He. unfold stored_spec, clear_disabled_template_pin_if_skeleton.
  by rewrite He, !orb_true_r.
Qed.

Lemma stored_spec_enabled_deny sp : enabled_deny (stored_spec sp) = enabled_deny sp.
Proof.
  unfold stored_spec, clear_disabled_template_pin_if_skeleton. by repeat case_match.
Qed.

Lemma enabling_keeps_authority s b id r c now :
  rules s !! id = Some c -> enabling_bumps (spec c) b = false ->
  r = mkRule (rule_id c) (stored_spec (set_enabled b (spec c))) (created_at c) now ->
  same_authority s (advance false (<[id := r]> (rules s)) s).
Proof.
  intros Hid Hb ->. unfold enabling_bumps in Hb. apply orb_false_iff in Hb as [Hoff Hon].
  assert (Hsame : enabled (spec c) = b -> set_enabled b (spec c) = spec c)
    by (intros <-; by destruct (spec c)).
  apply same_authority_insert; simpl.
  - intros r0 Hr0 He. simplify_eq. rewrite He in Hoff. destruct b; [|done].
    rewrite Hsame by done. by apply stored_spec_enabled.
  - rewrite stored_spec_enabled_deny. intros Hd. exists c. split; [done|].
    unfold enabled_deny in Hd. simpl in Hd. destruct b; [|done].
    destruct (enabled (spec c)) eqn:He; [|simpl in Hd, Hon; congruence].
    rewrite Hsame by done. by rewrite stored_spec_enabled.
Qed.

Lemma effect_authority rot s s' evs :
  effect rot s s' evs ->
  (rot = false -> flow_generation s <= flow_generation s')
  /\ (flow_generation s' = flow_generation s -> same_authority s s').
Proof.
  intros [-> |m strategy g now _ Hg ->|id sp now r ev Hrun|id sp now r ev Hrun
    |id now r ev Hrun|id b now r ev Hrun|outs Htr|g Hrot Hrun].
  - done.
  - destruct Hg as [[? ->]|(? & -> & ->)]; simpl; [split; lia|].
    split; [lia|]. intros _. split; simpl; eauto.
  - apply create_rule_at_Ok in Hrun as ((_ & _ & Hid & _ & _) & -> & _ & ->). simpl.
    destruct (enabled_deny sp) eqn:Hd; [split; lia|]. split; [lia|]. intros _.
    apply same_authority_insert; simpl; congruence.
  - apply update_rule_at_Ok in Hrun as (c & _ & _ & _ & ->). simpl. split; lia.
  - apply delete_rule_at_Ok in Hrun as (_ & _ & ->). simpl. split; lia.
  - apply set_rule_enabled_at_Ok in Hrun as (c & (Hid & _ & _ & _) & Hr & _ & ->). simpl.
    destruct (enabling_bumps (spec c) b) eqn:Hb; [split; lia|]. split; [lia|]. intros _.
    by eapply enabling_keeps_authority.
  - clear H H0. induction Htr as [|out outs s1 s2 s3 Hstep _ [IHm IHa]]; [done|].
    pose proof (learn_step_spec _ _ _ Hstep) as [Ha _].
    apply learn_step_effect in Hstep as (id & Hid & _ & ->). simpl in *. split; [auto|].
    intros Hg. etrans; [|by apply IHa].
    apply (same_authority_insert s1 false id (outcome_rule out)); [congruence|].
    unfold enabled_deny. by rewrite Ha, andb_false_r.
  - apply rotate_flow_generation_Ok in Hrun as (_ & Hg & ->). simpl. split; congruence.
Qed.

(** Runs of the daemon between two rotations. *)
Inductive run : State -> State -> Prop :=
| run_refl s : run s s
| run_step op s1 s2 s3 r :
    op_bounded op -> is_rotation op = false -> apply_op op s1 = (s2, r) -> run s2 s3 -> run s1 s3.

(** C2: along every run without a rotation the flow generation never
    decreases, and while it is unchanged every enabled rule keeps its
    specification, no denying rule becomes active and the mode only ever
    drops to blocking everything; an authorization that the kernel keeps for
    that generation therefore rests on rules that are still in force. *)
Theorem generation_protects_authorizations s s' :
  run s s' ->
  flow_generation s <= flow_generation s'
  /\ (flow_generation s' = flow_generation s -> same_authority s s').
Proof.
  induction 1 as [s|op s1 s2 s3 r Hb Hrot Hrun _ [IHm IHa]]; [done|].
  apply apply_op_effect in Hrun as (evs & He & _); [|done].
  apply effect_authority in He as [Hm Ha]. specialize (Hm Hrot).
  split; [lia|]. intros Hg. etrans; [apply Ha|apply IHa]; lia.
Qed.
End Machine.

(** ** Editing rules *)

(** Nothing but the rule [id] differs. *)
Definition only_rule (id : Uuid) (s s' : State) : Prop :=
  mode s' = mode s /\ enforcement_strategy s' = enforcement_strategy s
  /\ forall id', id' <> id -> State_rule s' id' = State_rule s id'.

Lemma only_rule_advance_insert b id r s : only_rule id s (advance b (<[id := r]> (rules s)) s).
Proof.
  split; [done|]. split; [done|]. intros id' Hid. unfold State_rule, advance. cbn [rules].
  by rewrite lookup_insert_ne.
Qed.

Lemma state_ok_rule s id r :
  state_ok s -> rules s !! id = Some r ->
  rule_id r = id /\ rule_id r <> 0 /\ created_at r <= updated_at r.
Proof.
  intros Hs Hr. destruct (state_ok_entries s Hs id r Hr) as (Hid & Hv & _).
  apply Rule_validate_Ok in Hv. tauto.
Qed.

(** Editing rules does what it says and nothing else.  On a valid state
    whose counters are not exhausted, creating an admissible rule under a fresh
    identifier, replacing the specification of a stored rule and deleting a
    stored rule all succeed; reading the rule back gives the new specification
    with the original creation time (or nothing after deletion), every other
    rule, the mode and the strategy stay as they were, and deleting a created
    rule restores the rules from before. *)
Theorem rule_edits_are_exact s :
  state_ok s -> counters_available true s ->
  (forall id sp now, admissible sp -> id <> 0 -> State_rule s id = None ->
     btree_len (rules s) < MAX_RULES ->
     exists s' r ev, create_rule_at id sp now s = (s', Ok (r, ev))
     /\ State_rule s' id = Some r /\ spec r = sp /\ created_at r = now /\ only_rule id s s'
     /\ delete id (rules s') = rules s)
  /\ (forall id sp now r0, admissible (clear_disabled_template_pin_if_skeleton sp) ->
     State_rule s id = Some r0 ->
     exists s' r ev, update_rule_at id sp now s = (s', Ok (r, ev))
     /\ State_rule s' id = Some r
     /\ spec r = clear_disabled_template_pin_if_skeleton sp
     /\ created_at r = created_at r0 /\ updated_at r = Z.max now (updated_at r0)
     /\ only_rule id s s')
  /\ (forall id now r0, State_rule s id = Some r0 ->
     exists s' ev, delete_rule_at id now s = (s', Ok (r0, ev))
     /\ State_rule s' id = None /\ only_rule id s s').
Proof.
  intros Hs Hc. split_and!.
  - intros id sp now Hsp Hid Hfresh Hlen. eexists _, _, _.
    rewrite create_rule_at_Ok. split.
    + split; [|done]. split_and!; try done. split; [|intros _]; by apply Hc.
    + split; [unfold State_rule, advance; cbn [rules]; by rewrite lookup_insert_eq|].
      split; [done|]. split; [done|]. split; [apply only_rule_advance_insert|].
      by apply delete_insert_id.
  - intros id sp now r0 Hsp Hr0. destruct (state_ok_rule s id r0 Hs Hr0) as (Hid & Hnz & Hle).
    eexists _, _, _. rewrite update_rule_at_Ok. split.
    + exists r0. split; [|done]. split_and!; try done. lia.
    + split; [|split; [done|split; [done|split; [done|apply only_rule_advance_insert]]]].
      unfold State_rule, advance. cbn [rules]. by rewrite lookup_insert_eq.
  - intros id now r0 Hr0. eexists _, _. rewrite delete_rule_at_Ok. split.
    + split; [|done]. split; [done|]. exact Hc.
    + unfold State_rule, only_rule, advance. cbn [rules]. rewrite lookup_delete_eq.
      split_and!; try done. intros id' Hne. by apply lookup_delete_ne.
Qed.

(** ** Concrete runs *)

Definition sample_deny : RuleSpec :=
  mkRuleSpec (mkRuleName (lit "no telnet")) Outbound Drop Tcp None (Some (mkPortRange 23 23))
    None None Manual true.
Definition sample_accept : RuleSpec :=
  mkRuleSpec (mkRuleName (lit "https")) Outbound Accept Tcp None (Some (mkPortRange 443 443))
    None None Manual true.
Definition sample_create : Op := CreateRule 7 sample_deny 100.
Definition sample_create_accept : Op := CreateRule 9 sample_accept 100.
Definition sample_state : State := (apply_op (H0 := ref_json) sample_create State_new).1.

Lemma reachable_states_are_valid_witness :
  state_ok sample_state
  /\ @State_validate ref_json sample_state = Ok tt.
Proof.
  assert (Hr : @reachable ref_ipnet ref_json sample_state).
  { eapply (reachable_op (H0 := ref_json) sample_create State_new);
      [apply reachable_new|exact I|reflexivity]. }
  destruct (@reachable_states_are_valid ref_ipnet ref_json sample_state Hr) as [Hok Hv].
  split; [exact Hok|]. apply Hv. eexists. vm_compute. reflexivity.
Defined.

Lemma events_carry_consecutive_revisions_witness :
  revision sample_state = 1.
Proof.
  destruct (@events_carry_consecutive_revisions ref_ipnet ref_json sample_create State_new
    sample_state [mkEvent 1 100 (RuleCreated (mkRule 7 sample_deny 100 100))]) as [Hr _];
    [exact I|vm_compute; reflexivity|exact Hr].
Defined.

Lemma failed_operations_change_nothing_witness :
  apply_op (H := ref_ipnet) (H0 := ref_json) sample_create sample_state
  = (sample_state, Err (DuplicateRuleId 7)).
Proof.
  assert (He : exists s', apply_op (H := ref_ipnet) (H0 := ref_json) sample_create sample_state
    = (s', Err (DuplicateRuleId 7))) by (eexists; vm_compute; reflexivity).
  destruct He as [s' He]. rewrite He. f_equal.
  refine (proj1 (@failed_operations_change_nothing ref_ipnet ref_json sample_create sample_state
    s' (DuplicateRuleId 7) I He) eq_refl).
Defined.

Lemma generation_protects_authorizations_witness :
  same_authority State_new (apply_op (H0 := ref_json) sample_create_accept State_new).1
  /\ flow_generation State_new < flow_generation sample_state.
Proof.
  split; [|vm_compute; reflexivity].
  refine (proj2 (@generation_protects_authorizations ref_ipnet ref_json State_new _ _) _);
    [|vm_compute; reflexivity].
  eapply (run_step (H0 := ref_json) sample_create_accept); [exact I|reflexivity| |apply run_refl].
  vm_compute. reflexivity.
Defined.

Lemma rule_edits_are_exact_witness :
  exists s' r ev, create_rule_at 7 sample_deny 100 State_new = (s', Ok (r, ev))
  /\ State_rule s' 7 = Some r /\ spec r = sample_deny.
Proof.
  destruct (rule_edits_are_exact State_new State_new_ok) as (Hcreate & _).
  - by vm_compute.
  - destruct (Hcreate 7 sample_deny 100) as (s' & r & ev & Hrun & Hr & Hsp & _);
      [by vm_compute|done|by vm_compute|by vm_compute|]. eauto 10.
Defined.
