(* ===== verification/Learning.v ===== *)
(** * What automatic learning guarantees

    Budgets, deduplication and provenance of learned rules, and the agreement
    of the packet path's admission index with the learner behind it. *)

From S2P Require Import Prelude Text Net Application Model State StateFacts StateLearning.
From S2P Require Import StateLearningFacts.
Local Open Scope Z_scope.

(** ** Along a trace of creations *)

Lemma learn_step_automatic out s s' :
  learn_step out s s' -> is_automatic_rule (outcome_rule out) = true.
Proof.
  intros [[_ Ho] _]. unfold is_automatic_rule. by destruct (origin (spec (outcome_rule out))).
Qed.

(** What a run of creations does to the state as a whole. *)
Record extends (n : Z) (s s' : State) : Prop := {
  extends_automatic : automatic_count s' = automatic_count s + n;
  extends_len : btree_len (rules s') = btree_len (rules s) + n;
  extends_revision : revision s' = revision s + n;
  extends_generation : flow_generation s' = flow_generation s;
  extends_mode : mode s' = mode s;
  extends_strategy : enforcement_strategy s' = enforcement_strategy s;
  extends_rules : rules s ⊆ rules s'
}.

Lemma learn_steps_extend outs s s' : learn_steps outs s s' -> extends (zlen outs) s s'.
Proof.
  induction 1 as [s|out outs s1 s2 s3 Hstep _ IH].
  - change (zlen (@nil LearnOutcome)) with 0. split; done || lia.
  - rewrite zlen_cons. pose proof (learn_step_count Hstep is_automatic_rule) as Hc.
    rewrite (learn_step_automatic _ _ _ Hstep) in Hc.
    apply learn_step_effect in Hstep as (id & Hid & _ & ->).
    destruct IH as [Ha Hl Hr Hg Hm Hs Hsub]. simpl in *.
    change automatic_count with (count_rules is_automatic_rule) in *.
    rewrite btree_len_insert in Hl by done. rewrite Hc in Ha.
    split; change automatic_count with (count_rules is_automatic_rule); try done || lia.
    etrans; [|exact Hsub]. by apply insert_subseteq.
Qed.

(** Every new rule of a run was created by one of its steps. *)
Lemma trace_new_rules (R : LearnOutcome -> State -> State -> Prop) outs s s' id r :
  (forall out s s', R out s s' -> learn_step out s s') ->
  trace R outs s s' -> rules s' !! id = Some r -> rules s !! id = None ->
  exists out s1 s2, R out s1 s2 /\ outcome_rule out = r.
Proof.
  intros HR Htr Hr. induction Htr as [|out outs s1 s2 s3 Hstep Htr IH]; [congruence|].
  intros Hnone. destruct (rules s2 !! id) as [r'|] eqn:Hs2; [|by apply IH].
  exists out, s1, s2. split; [done|].
  assert (Hsub : rules s2 ⊆ rules s3)
    by (eapply extends_rules, learn_steps_extend, trace_mono; eauto).
  assert (r' = r) as -> by (eapply lookup_weaken in Hs2; [|exact Hsub]; congruence).
  apply HR, learn_step_effect in Hstep as (i & _ & _ & ->). simpl in Hs2.
  apply lookup_insert_Some in Hs2. naive_solver.
Qed.

(** ** Budgets *)

Section Guarantees.
Context `{IpNetLib}.

Lemma app_steps_uid limits P outs s s' uid :
  trace (app_step limits P) outs s s' ->
  count_rules (counts_for_uid uid) s'
  <= Z.max (count_rules (counts_for_uid uid) s) (per_uid limits).
Proof.
  induction 1 as [s|out outs s1 s2 s3 Hstep _ IH]; [lia|].
  pose proof (learn_step_count (app_step_learn_step _ _ _ _ _ Hstep) (counts_for_uid uid)) as Hc.
  destruct (counts_for_uid uid (outcome_rule out)) eqn:E; [|lia].
  unfold counts_for_uid, is_learned_outbound in E.
  destruct Hstep as [key Hsp _ _|learned u f _ Hsp Hu Hf _ Hqu _ _]; rewrite Hsp in E; [done|].
  simpl in E. rewrite Hu in E. autorewrite with result in E. destruct_and?. simplify_eq. lia.
Qed.

Lemma app_steps_application limits P outs s s' k :
  trace (app_step limits P) outs s s' ->
  count_rules (counts_for_application k) s'
  <= Z.max (count_rules (counts_for_application k) s) (per_application limits).
Proof.
  induction 1 as [s|out outs s1 s2 s3 Hstep _ IH]; [lia|].
  pose proof (learn_step_count (app_step_learn_step _ _ _ _ _ Hstep)
    (counts_for_application k)) as Hc.
  destruct (counts_for_application k (outcome_rule out)) eqn:E; [|lia].
  unfold counts_for_application, is_learned_outbound in E.
  destruct Hstep as [key Hsp _ _|learned u f _ Hsp Hu Hf _ _ Hqa _]; rewrite Hsp in E; [done|].
  simpl in E. rewrite Hu, Hf in E. autorewrite with result in E. destruct_and?.
  destruct k. simplify_eq/=. lia.
Qed.

Lemma batch_budget_automatic s max n :
  n <= Z.max 0 (batch_budget s max) ->
  automatic_count s + n <= Z.max (automatic_count s) MAX_AUTOMATIC_LEARNED_RULES
  /\ btree_len (rules s) + n <= Z.max (btree_len (rules s)) MAX_RULES
  /\ n <= Z.max 0 max.
Proof. unfold batch_budget, usize_saturating_sub. lia. Qed.

(** C35: whatever endpoints a batch of observations carries, learning never
    exceeds the batch bound, the reserve for automatic rules or the rule
    limit, never gives a user or an application more learned rules than its
    budget, removes or changes no rule, and keeps mode and flow generation. *)
Theorem learning_respects_budgets supply endpoints max limits s s' r :
  max < USIZE_MAX ->
  learn_new_application_endpoints_with_limits supply endpoints max limits s = (s', r) ->
  exists n, n <= Z.max 0 max /\ extends n s s'
  /\ automatic_count s' <= Z.max (automatic_count s) MAX_AUTOMATIC_LEARNED_RULES
  /\ btree_len (rules s') <= Z.max (btree_len (rules s)) MAX_RULES
  /\ (forall uid, count_rules (counts_for_uid uid) s'
        <= Z.max (count_rules (counts_for_uid uid) s) (per_uid limits))
  /\ (forall k, count_rules (counts_for_application k) s'
        <= Z.max (count_rules (counts_for_application k) s) (per_application limits)).
Proof.
  intros Hmax (outs & Htr & Hlen & _)%learn_new_applications_trace; [|done].
  apply batch_budget_automatic in Hlen as (Ha & Hl & Hn). exists (zlen outs).
  pose proof (learn_steps_extend _ _ _ (trace_mono _ _ _ _ _ (app_step_learn_step _ _) Htr)) as Hx.
  split_and!; [done|done| | | |].
  - by rewrite (extends_automatic _ _ _ Hx).
  - by rewrite (extends_len _ _ _ Hx).
  - intros uid. by eapply app_steps_uid.
  - intros k. by eapply app_steps_application.
Qed.

(** ** Deduplication *)

(** No two learned rules authorize the same endpoint for the same
    application. *)
Definition unique_learned (s : State) : Prop :=
  forall id1 id2 r1 r2, rules s !! id1 = Some r1 -> rules s !! id2 = Some r2 ->
    is_learned_outbound r1 = true -> is_learned_outbound r2 = true ->
    from_rule r1 = from_rule r2 -> id1 = id2.

Lemma unique_learned_step out s s' :
  learn_step out s s' ->
  (is_learned_outbound (outcome_rule out) = true -> from_rule (outcome_rule out) ∉ known_keys s) ->
  unique_learned s -> unique_learned s'.
Proof.
  intros (id & Hid & _ & ->)%learn_step_effect Hnew Hu id1 id2 r1 r2. simpl.
  rewrite !lookup_insert_Some.
  intros [[<- <-]|[Hn1 H1]] [[<- <-]|[Hn2 H2]] Hl1 Hl2 Hk; [done| | |by eapply Hu].
  - destruct (Hnew Hl1). apply elem_of_known_keys. eauto.
  - destruct (Hnew Hl2). apply elem_of_known_keys. eauto.
Qed.

Lemma unique_learned_trace (R : LearnOutcome -> State -> State -> Prop) outs s s' :
  (forall out s s', R out s s' -> learn_step out s s'
     /\ (is_learned_outbound (outcome_rule out) = true ->
         from_rule (outcome_rule out) ∉ known_keys s)) ->
  trace R outs s s' -> unique_learned s -> unique_learned s'.
Proof.
  intros HR. induction 1 as [|out outs s1 s2 s3 Hstep _ IH]; [done|]. intros Hu.
  apply HR in Hstep as [Hstep Hnew]. apply IH. by eapply unique_learned_step.
Qed.

(** Neither learner ever stores two learned rules for one endpoint and
    application, and every rule that application learning adds is either a
    disabled template or the enabled outbound accept rule of an endpoint it
    was given. *)
Theorem learning_deduplicates supply net_endpoints endpoints max limits s s1 s2 r1 r2 :
  max < USIZE_MAX ->
  unique_learned s ->
  learn_new_endpoints supply net_endpoints max s = (s1, r1) ->
  learn_new_application_endpoints_with_limits supply endpoints max limits s = (s2, r2) ->
  unique_learned s1 /\ unique_learned s2
  /\ (forall id r, rules s2 !! id = Some r -> rules s !! id = None ->
        (exists key, spec r = template_spec key)
        \/ exists e, e ∈ endpoints /\ spec r = learned_spec (lae_endpoint e) (Some (lae_application e))).
Proof.
  intros Hmax Hu (o1 & Ht1 & _)%learn_new_endpoints_trace
    (o2 & Ht2 & _)%learn_new_applications_trace; [|done]. split_and!.
  - eapply unique_learned_trace; [|exact Ht1|done].
    intros out x x' [(e & Hsp & Hk) Hstep]. split; [done|]. intros _.
    unfold from_rule. by rewrite Hsp.
  - eapply unique_learned_trace; [|exact Ht2|done].
    intros out x x' Hstep. split; [by eapply app_step_learn_step|].
    destruct Hstep as [key Hsp _ _|e u f _ Hsp _ _ Hk _ _ _].
    + unfold is_learned_outbound. by rewrite Hsp.
    + intros _. unfold from_rule. by rewrite Hsp.
  - intros id r Hr Hnone.
    destruct (trace_new_rules _ _ _ _ _ _ (app_step_learn_step _ _) Ht2 Hr Hnone)
      as (out & x1 & x2 & Hstep & <-).
    destruct Hstep as [key Hsp _ _|e u f He Hsp _ _ _ _ _ _]; eauto.
Qed.

(** ** The admission index *)

Lemma from_template_automatic r k : from_template r = Some k -> is_automatic_rule r = true.
Proof.
  unfold from_template, is_automatic_rule. destruct (application (spec r)); simpl; [|done].
  by destruct (origin (spec r)).
Qed.

Lemma is_learned_outbound_alt r :
  (origin (spec r) !=? Learned) || (direction (spec r) !=? Outbound)
  = negb (is_learned_outbound r).
Proof. unfold is_learned_outbound. by rewrite negb_andb. Qed.

Lemma is_learned_outbound_automatic r :
  is_learned_outbound r = true -> is_automatic_rule r = true.
Proof.
  unfold is_learned_outbound, is_automatic_rule. by destruct (origin (spec r)).
Qed.

Lemma union_swap `{Countable A} (X Y Z : gset A) : X ∪ (Y ∪ Z) = (Y ∪ X) ∪ Z.
Proof. set_solver. Qed.

(** The loop of [from_state] computes what the learner computes separately. *)
Lemma index_loop l : forall loop,
  foldl index_step loop l =
  mkIndexLoop (list_to_set (from_rule <$> List.filter is_learned_outbound l) ∪ loop_known loop)
    (list_to_set (omap from_template l) ∪ loop_templates loop)
    (loop_count loop + zlen (List.filter is_automatic_rule l))
    (foldl count_quota (loop_quotas loop) (List.filter is_learned_outbound l)).
Proof.
  induction l as [|r l IH]; intros [kn te co qu]; simpl.
  - change (zlen (@nil Rule)) with 0. f_equal; set_solver || lia.
  - rewrite IH. unfold index_step. rewrite is_learned_outbound_alt.
    pose proof (from_template_automatic r) as Ht. pose proof (is_learned_outbound_automatic r) as Hl.
    destruct (is_automatic_rule r) eqn:Ha; simpl.
    + rewrite zlen_cons. destruct (from_template r) as [k|] eqn:Hk;
        destruct (is_learned_outbound r) eqn:Hlr; simpl; f_equal; lia || apply union_swap.
    + destruct (from_template r) as [k|]; [by specialize (Ht k eq_refl)|].
      destruct (is_learned_outbound r); [by specialize (Hl eq_refl)|]. done.
Qed.

Lemma from_state_spec s limits :
  from_state s limits =
  mkAdmissionIndex limits (revision s) (flow_generation s) (mode s) (btree_len (rules s))
    (automatic_count s) (known_keys s) (known_template_keys s)
    (learned_quotas s).1 (learned_quotas s).2.
Proof.
  unfold from_state. rewrite index_loop. simpl.
  unfold known_keys, known_template_keys, learned_quotas, automatic_count.
  f_equal; set_solver.
Qed.

(** The learner on a single endpoint that classification accepted. *)
Definition learn_one (supply : Supply) (limits : LearningLimits) (max : Z)
    (e : LearnedApplicationEndpoint) : ST State CoreError (list LearnOutcome) :=
  learn_new_application_endpoints_with_limits supply [e] max limits.

Lemma slots_exceeded s max slots :
  btree_len (rules s) >= 0 -> 0 < slots <= 2 ->
  (MAX_RULES <? usize_saturating_add (btree_len (rules s)) slots)
  || (MAX_AUTOMATIC_LEARNED_RULES <? usize_saturating_add (automatic_count s) slots) = true ->
  (batch_budget s max <? usize_saturating_add 0 slots) = true.
Proof.
  intros Hlen Hs. unfold batch_budget, usize_saturating_add, u64_saturating_add,
    usize_saturating_sub, U64_MAX, MAX_RULES, MAX_AUTOMATIC_LEARNED_RULES.
  rewrite orb_true_iff, !Z.ltb_lt. lia.
Qed.

Lemma slots_available s max slots :
  2 <= max -> 0 < slots <= 2 ->
  (MAX_RULES <? usize_saturating_add (btree_len (rules s)) slots)
  || (MAX_AUTOMATIC_LEARNED_RULES <? usize_saturating_add (automatic_count s) slots) = false ->
  (batch_budget s max <? usize_saturating_add 0 slots) = false.
Proof.
  intros Hmax Hs. unfold batch_budget, usize_saturating_add, u64_saturating_add,
    usize_saturating_sub, U64_MAX, MAX_RULES, MAX_AUTOMATIC_LEARNED_RULES.
  rewrite orb_false_iff, !Z.ltb_ge. lia.
Qed.

(** A validated endpoint pins everything the learner asks for. *)
Lemma validated_application e :
  LearnedApplicationEndpoint_validate e = Ok tt ->
  exists x u f, as_executable (lae_application e) = Some x
  /\ as_uid (lae_application e) = Some u /\ as_executable_file (lae_application e) = Some f.
Proof.
  unfold LearnedApplicationEndpoint_validate. rewrite !seq_Ok, fail_if_Ok, orb_false_iff,
    !is_none_false. intros (_ & Hv & (u & Hu) & (f & Hf)).
  unfold ApplicationSelector_validate in Hv.
  destruct (as_metadata_redacted _).
  - destruct (as_executable _); simpl in Hv; [eauto 10|done].
  - rewrite seq_Ok, fail_if_Ok, is_none_false in Hv. destruct Hv as [[x Hx] _]. eauto 10.
Qed.

Lemma learn_one_unfold supply limits max e s :
  LearnedApplicationEndpoint_validate e = Ok tt ->
  learn_one supply limits max e s =
  learn_applications_loop supply limits (batch_budget s max) (known_keys s)
    (known_template_keys s) (learned_quotas s).1 (learned_quotas s).2 [] [e] s.
Proof.
  intros He. unfold learn_one, learn_new_application_endpoints_with_limits.
  replace (take (Z.to_nat MAX_RULES) [e]) with [e] by done.
  rewrite run_lift. cbn [for_each]. rewrite He. done.
Qed.

Lemma btree_len_nonneg {A} (m : gmap Z A) : 0 <= btree_len m.
Proof. unfold btree_len. lia. Qed.

(** The admission index answers for the learner.  An observation it does
    not call a candidate would be discarded: learning it creates no rule and
    leaves the state as it is.  A candidate is learned: unless the learner
    reports an error, the last rule it creates is the rule of that
    observation. *)
Theorem admission_agrees_with_learning supply limits max e s a :
  classify (from_state s limits) e = Ok a ->
  (a <> Candidate -> learn_one supply limits max e s = (s, Ok []))
  /\ (a = Candidate -> 2 <= max -> forall s' outs,
      learn_one supply limits max e s = (s', Ok outs) ->
      exists out, last outs = Some out
      /\ spec (outcome_rule out) = learned_spec (lae_endpoint e) (Some (lae_application e))).
Proof.
  rewrite from_state_spec. unfold classify. rewrite seq_Ok. intros [Hv Hc]. simpl in Hc.
  rewrite learn_one_unfold by done. cbn [learn_applications_loop].
  destruct (validated_application e Hv) as (x & u & f & Hx & Hu & Hf).
  unfold from_selector. rewrite Hx, Hu, Hf in *. simpl in Hc.
  pose proof (btree_len_nonneg (rules s)) as Hnn.
  case_bool_decide as Hk; [simplify_eq; naive_solver|].
  rewrite run_lift. cbn [mbind Result_bind ok_or mret Result_ret map_err].
  set (t := mkApplicationTemplateKey x _) in *.
  change (zlen (@nil LearnOutcome)) with 0. rewrite !(Z.add_comm _ 1).
  set (slots := 1 + _) in *.
  assert (Hs : 0 < slots <= 2) by (subst slots; destruct (negb _); lia).
  destruct (_ || _) eqn:Hslots.
  { simplify_eq. rewrite (slots_exceeded s max slots) by (done || lia). naive_solver. }
  destruct (batch_budget s max <? usize_saturating_add 0 slots) eqn:Hb.
  { split; [done|]. intros _ Hmax. rewrite slots_available in Hb by done. done. }
  rewrite run_lift. cbn [ok_or]. rewrite run_lift. cbn [ok_or].
  match type of Hc with (if ?b then _ else _) = _ =>
    match goal with |- context [if ?c then mret [] else _] => change c with b end;
    destruct b
  end; injection Hc as <-; [by split|]. split; [done|]. intros _ _ s' outs.
  rewrite run_bind.
  match goal with |- context [let '(_, _) := ?m in _] => destruct m as [s1 [[te os]|err]] end;
    [|done].
  cbn [fst snd]. rewrite run_bind.
  destruct (insert_learned_endpoint _ _ _ s1) as [s2 [out|err]] eqn:Hins; [|done].
  apply insert_learned_step in Hins as [Hsp _]. intros [= <- <-].
  exists out. by rewrite last_snoc.
Qed.
End Guarantees.

(** ** Concrete runs *)

Definition sample_endpoint : LearnedEndpoint :=
  mkLearnedEndpoint (IpV4 3232235777) Tcp (Some (mkPortRange 443 443))
    (Some (mkInterfaceName (lit "eth0"))).
Definition sample_observation : LearnedApplicationEndpoint :=
  mkLearnedApplicationEndpoint sample_endpoint sample_selector.
Definition sample_supply : Supply := fun n => (Z.of_nat n + 100, 50).
Definition sample_learned : State * Result CoreError (list LearnOutcome) :=
  learn_new_application_endpoints_with_limits sample_supply [sample_observation] 64
    LearningLimits_default State_new.

Lemma learning_respects_budgets_witness :
  automatic_count sample_learned.1 <= MAX_AUTOMATIC_LEARNED_RULES
  /\ btree_len (rules sample_learned.1) = 2.
Proof.
  destruct (learning_respects_budgets sample_supply [sample_observation] 64
    LearningLimits_default State_new sample_learned.1 sample_learned.2)
    as (n & _ & _ & Ha & _); [reflexivity|vm_compute; reflexivity|].
  split; [|vm_compute; reflexivity].
  exact Ha.
Defined.

Lemma learning_deduplicates_witness :
  unique_learned sample_learned.1.
Proof.
  destruct (learning_deduplicates sample_supply [sample_endpoint] [sample_observation] 64
    LearningLimits_default State_new
    (learn_new_endpoints sample_supply [sample_endpoint] 64 State_new).1 sample_learned.1
    (learn_new_endpoints sample_supply [sample_endpoint] 64 State_new).2 sample_learned.2)
    as (_ & Hu & _); [reflexivity| |vm_compute; reflexivity|vm_compute; reflexivity|exact Hu].
  intros id1 id2 r1 r2 Hr1. vm_compute in Hr1. discriminate.
Defined.

Lemma admission_agrees_with_learning_witness :
  classify (from_state State_new LearningLimits_default) sample_observation = Ok Candidate
  /\ exists s' outs out,
     learn_one sample_supply LearningLimits_default 64 sample_observation State_new = (s', Ok outs)
     /\ last outs = Some out
     /\ spec (outcome_rule out) = learned_spec sample_endpoint (Some sample_selector).
Proof.
  assert (Hc : classify (from_state State_new LearningLimits_default) sample_observation
    = Ok Candidate) by (vm_compute; reflexivity).
  split; [exact Hc|].
  destruct (learn_one sample_supply LearningLimits_default 64 sample_observation State_new)
    as [s' [outs|e]] eqn:Hl; [|vm_compute in Hl; discriminate].
  exists s', outs.
  destruct (proj2 (admission_agrees_with_learning sample_supply LearningLimits_default 64
    sample_observation State_new Candidate Hc) eq_refl ltac:(discriminate) s' outs Hl)
    as (out & H1 & H2).
  exists out. split; [reflexivity|]. split; [exact H1|exact H2].
Defined.
