(* ===== verification/Snapshots.v ===== *)
(** * Snapshots, observers and queries

    The snapshot of a valid state reconstructs it, its redaction is what an
    observer may see and can never become policy again, pages enumerate the
    rules, and the interception class is determined by the enabled
    application rules. *)

From S2P Require Import Prelude Text Net Application Model State StateFacts.
Local Open Scope Z_scope.

(** ** The rules of a valid state *)

Lemma btree_entries_keys {A} (m : gmap Z A) : NoDup (btree_entries m).*1.
Proof. rewrite btree_entries_perm. apply NoDup_fst_map_to_list. Qed.

Lemma btree_values_ids s : state_ok s -> rule_id <$> btree_values (rules s) = (btree_entries (rules s)).*1.
Proof.
  intros Hok. unfold btree_values. rewrite <-list_fmap_compose. apply list_fmap_ext.
  intros i [k r] Hi. simpl. apply list_elem_of_lookup_2, elem_of_btree_entries in Hi.
  by destruct (state_ok_entries s Hok k r Hi).
Qed.

Lemma btree_values_entry s r :
  state_ok s -> r ∈ btree_values (rules s) -> rules s !! rule_id r = Some r /\ entry_ok (rule_id r) r.
Proof.
  intros Hok [k Hk]%elem_of_btree_values. pose proof (state_ok_entries s Hok k r Hk) as He.
  destruct He as [<- ?]. by split.
Qed.

(** ** Validation of the loops *)

Lemma snapshot_rules_validate_Ok l : forall ids,
  snapshot_rules_validate ids l = Ok tt <->
  Forall (fun r => entry_ok (rule_id r) r) l /\ NoDup (rule_id <$> l)
  /\ (forall r, r ∈ l -> rule_id r ∉ ids).
Proof.
  induction l as [|r l IH]; intros ids.
  { simpl. split; [|done]. intros _. split_and!; [constructor|constructor|set_solver]. }
  cbn [snapshot_rules_validate].
  rewrite !seq_Ok, map_err_Ok, fail_if_Ok, bool_decide_eq_false, IH, Forall_cons, fmap_cons, NoDup_cons.
  unfold entry_ok at 2. split.
  - intros (? & ? & ? & Hr & Hf & Hnd & Hids). split_and!; try done.
    + intros (r' & E & Hr')%list_elem_of_fmap. specialize (Hids r' Hr'). set_solver.
    + intros r' [->|Hr']%elem_of_cons; [done|]. specialize (Hids r' Hr'). set_solver.
  - intros (((? & ? & ? & ?) & Hf) & (Hr & Hnd) & Hids).
    split_and!; try done.
    + apply Hids. left.
    + intros r' Hr'. rewrite not_elem_of_union, not_elem_of_singleton. split.
      * intros E. apply Hr. rewrite <-E. by apply list_elem_of_fmap_2.
      * apply Hids. by right.
Qed.

Lemma Snapshot_validate_Ok snap :
  Snapshot_validate snap = Ok tt <->
  zlen (snap_rules snap) <= MAX_RULES
  /\ 1 <= snap_flow_generation snap <= MAX_FLOW_GENERATION
  /\ Forall (fun r => entry_ok (rule_id r) r) (snap_rules snap)
  /\ NoDup (rule_id <$> snap_rules snap).
Proof.
  unfold Snapshot_validate. rewrite !seq_Ok, !fail_if_Ok, Z.ltb_ge, negb_false_iff,
    generation_in_domain_true, snapshot_rules_validate_Ok. set_solver.
Qed.

Lemma state_snapshot_validates s : state_ok s -> Snapshot_validate (State_snapshot s) = Ok tt.
Proof.
  intros Hok. rewrite Snapshot_validate_Ok. simpl. split_and!.
  - rewrite btree_values_length. apply Hok.
  - apply Hok.
  - apply Hok.
  - apply Forall_forall. intros r Hr. by apply (btree_values_entry s).
  - rewrite btree_values_ids by done. apply btree_entries_keys.
Qed.

(** ** Collecting rules into a map *)

Lemma collect_rules_lookup l : forall (m : gmap Z Rule) k,
  NoDup (rule_id <$> l) ->
  foldl (fun m rule => <[rule_id rule := rule]> m) m l !! k =
  match List.find (fun r => rule_id r =? k) l with Some r => Some r | None => m !! k end.
Proof.
  induction l as [|r l IH]; intros m k; [done|]. rewrite fmap_cons, NoDup_cons.
  intros [Hr Hnd]. simpl. rewrite IH by done. destruct (Z.eqb_spec (rule_id r) k) as [<-|Hne].
  - destruct (List.find _ l) as [r'|] eqn:Hf; [|by rewrite lookup_insert_eq].
    apply find_some in Hf as [Hin E]. apply Z.eqb_eq in E. destruct Hr. rewrite <-E.
    apply list_elem_of_fmap_2. by apply list_elem_of_In.
  - destruct (List.find _ l); [done|]. by rewrite lookup_insert_ne.
Qed.

Lemma collect_state_rules s :
  state_ok s ->
  foldl (fun m rule => <[rule_id rule := rule]> m) ∅ (btree_values (rules s)) = rules s.
Proof.
  intros Hok. apply map_eq. intros k. rewrite collect_rules_lookup.
  2: { rewrite btree_values_ids by done. apply btree_entries_keys. }
  rewrite lookup_empty. destruct (List.find _ _) as [r|] eqn:Hf.
  - apply find_some in Hf as [Hin E%Z.eqb_eq]. subst k.
    symmetry. apply btree_values_entry; [done|]. by apply list_elem_of_In.
  - destruct (rules s !! k) as [r|] eqn:Hk; [|done].
    assert (Hin : r ∈ btree_values (rules s)) by (apply elem_of_btree_values; eauto).
    apply list_elem_of_In in Hin. apply (find_none _ _ Hf) in Hin.
    destruct (state_ok_entries s Hok k r Hk) as [E _]. by rewrite E, Z.eqb_refl in Hin.
Qed.

(** Taking a snapshot of a valid state and reconstructing the state from
    it gives back every rule, the mode, the revision and the flow generation;
    the userspace strategy, which snapshots do not carry, becomes strict. *)
Theorem snapshot_round_trip `{JsonLib} s n :
  state_ok s -> bounded_serialized_state_size (set_strategy Strict s) = Ok n ->
  from_snapshot (State_snapshot s) = Ok (set_strategy Strict s).
Proof.
  intros Hok Hn. unfold from_snapshot. rewrite state_snapshot_validates by done.
  cbn [mbind Result_bind]. cbn [State_snapshot snap_rules snap_revision snap_mode snap_flow_generation].
  rewrite collect_state_rules by done.
  change (mkState (revision s) (flow_generation s) (mode s) Strict (rules s))
    with (set_strategy Strict s).
  assert (Hv : State_validate (set_strategy Strict s) = Ok tt).
  { rewrite State_validate_Ok. destruct Hok. eauto. }
  by rewrite Hv.
Qed.

Lemma snapshot_round_trip_witness :
  @from_snapshot ref_json (State_snapshot State_new) = Ok State_new.
Proof.
  refine (@snapshot_round_trip ref_json State_new 100 _ _); [apply State_new_ok|].
  vm_compute. reflexivity.
Defined.

(** ** Observers *)

(** The privileged and the redacted view of a rule, as the observer's loop
    sees them. *)
Definition view_ok (redacted : bool) (r : Rule) : Prop :=
  Rule_validate r = Ok tt
  /\ forall a, application (spec r) = Some a ->
     as_metadata_redacted a = redacted
     /\ if redacted then name_str (name (spec r)) = REDACTED_APPLICATION_RULE_NAME
        else reject_unpinned_application_spec (spec r) = Ok tt.

Lemma observer_rules_validate_Ok redacted l : forall ids state,
  Forall (view_ok redacted) l -> NoDup (rule_id <$> l) -> (forall r, r ∈ l -> rule_id r ∉ ids) ->
  state = None \/ state = Some redacted ->
  observer_rules_validate ids state l = Ok tt.
Proof.
  induction l as [|r l IH]; intros ids state Hl Hnd Hids Hst; [done|].
  apply Forall_cons in Hl as [[Hv Ha] Hl]. rewrite fmap_cons, NoDup_cons in Hnd.
  destruct Hnd as [Hr Hnd]. cbn [observer_rules_validate]. rewrite Hv. cbn [map_err mbind Result_bind].
  assert (Hrest : forall st, st = None \/ st = Some redacted ->
    (fail_if (bool_decide (rule_id r ∈ ids)) (DuplicateRuleId (rule_id r)) ;;
     observer_rules_validate ({[rule_id r]} ∪ ids) st l) = Ok tt).
  { intros st Hst'. rewrite bool_decide_eq_false_2 by (apply Hids; left). simpl.
    apply IH; [done|done| |done]. intros r' Hr'.
    rewrite not_elem_of_union, not_elem_of_singleton. split.
    - intros E. apply Hr. rewrite <-E. by apply list_elem_of_fmap_2.
    - apply Hids. by right. }
  destruct (application (spec r)) as [a|] eqn:Hap; [|by apply Hrest].
  destruct (Ha a eq_refl) as [E Hview]. rewrite E.
  assert (Hsame : is_some_and (fun previous => negb (eqb previous redacted)) state = false).
  { destruct Hst as [->| ->]; [done|]. simpl. by rewrite eqb_refl. }
  rewrite Hsame. destruct redacted; cbn [andb negb].
  - rewrite Hview, eqb_refl. simpl. apply Hrest. by right.
  - rewrite Hview. simpl. apply Hrest. by right.
Qed.

Lemma redacted_rule_view id r : entry_ok id r -> view_ok true (redacted_for_observer r).
Proof.
  intros (_ & Hv & _ & _). split; [by apply redacted_for_observer_validate|].
  unfold redacted_for_observer. destruct (application (spec r)) eqn:E; simpl.
  - by intros ? [= <-].
  - rewrite E. done.
Qed.

Lemma privileged_rule_view id r : entry_ok id r -> view_ok false r.
Proof.
  intros (_ & Hv & Hred & Hpin). split; [done|]. intros a Ha. split; [|done].
  unfold reject_redacted_rule, reject_redacted_spec in Hred. rewrite Ha in Hred.
  by apply fail_if_Ok in Hred.
Qed.

Lemma redacted_ids (l : list Rule) : rule_id <$> (redacted_for_observer <$> l) = rule_id <$> l.
Proof.
  rewrite <-list_fmap_compose. apply list_fmap_ext. intros _ r _. simpl.
  unfold redacted_for_observer. by case_match.
Qed.

(** Of a valid state both the full snapshot and the redacted one are
    accepted by observers, and as soon as the policy has an application rule
    the redacted one is refused as policy state, so metadata that was removed
    for display can never be persisted or enforced. *)
Theorem observer_views_of_a_valid_state `{JsonLib} s :
  state_ok s ->
  validate_for_observer (State_snapshot s) = Ok tt
  /\ validate_for_observer (Snapshot_redacted_for_observer (State_snapshot s)) = Ok tt
  /\ (forall id r, rules s !! id = Some r -> is_some (application (spec r)) = true ->
      forall s', from_snapshot (Snapshot_redacted_for_observer (State_snapshot s)) <> Ok s').
Proof.
  intros Hok. pose proof (state_snapshot_validates s Hok) as Hv.
  apply Snapshot_validate_Ok in Hv as (Hlen & Hgen & Hall & Hnd). split_and!.
  - unfold validate_for_observer. rewrite !seq_Ok, !fail_if_Ok, Z.ltb_ge, negb_false_iff,
      generation_in_domain_true. split_and!; [exact Hlen|apply Hgen|apply Hgen|].
    apply (observer_rules_validate_Ok false); [|done|set_solver|by left].
    eapply Forall_impl; [exact Hall|]. intros r Hr. exact (privileged_rule_view _ _ Hr).
  - unfold validate_for_observer. rewrite !seq_Ok, !fail_if_Ok, Z.ltb_ge, negb_false_iff,
      generation_in_domain_true. simpl. split_and!.
    + unfold zlen. rewrite length_fmap. exact Hlen.
    + apply Hgen.
    + apply Hgen.
    + apply (observer_rules_validate_Ok true); [|by rewrite redacted_ids|set_solver|by left].
      apply Forall_fmap. eapply Forall_impl; [exact Hall|]. intros r Hr.
      exact (redacted_rule_view _ _ Hr).
  - intros id r Hr Ha s' Hfrom. unfold from_snapshot in Hfrom.
    apply seq_Ok in Hfrom as [Hval _]. apply Snapshot_validate_Ok in Hval as (_ & _ & Hf & _).
    rewrite Forall_forall in Hf. destruct (Hf (redacted_for_observer r)) as (_ & _ & Hred & _).
    + simpl. apply list_elem_of_fmap_2, elem_of_btree_values. eauto.
    + revert Hred. unfold redacted_for_observer. rewrite Ha. done.
Qed.

Lemma observer_views_of_a_valid_state_witness :
  validate_for_observer (Snapshot_redacted_for_observer (State_snapshot State_new)) = Ok tt.
Proof.
  refine (proj1 (proj2 (@observer_views_of_a_valid_state ref_json State_new _))).
  apply State_new_ok.
Defined.

(** ** Pagination *)

Lemma sorted_split {A} (l : list (Z * A)) k v :
  StronglySorted key_le l -> NoDup l.*1 -> (k, v) ∈ l ->
  exists before, l = before ++ (k, v) :: List.filter (fun e => k <? e.1) l.
Proof.
  induction 1 as [|[k' v'] l Hs IH Hall]; intros Hnd Hin; [by apply not_elem_of_nil in Hin|].
  rewrite fmap_cons, NoDup_cons in Hnd. destruct Hnd as [Hn Hnd]. simpl in Hn.
  apply elem_of_cons in Hin as [[= <- <-]|Hin].
  - exists []. simpl. rewrite Z.ltb_irrefl. f_equal. symmetry.
    clear IH. induction l as [|[k1 v1] l IHl]; [done|].
    rewrite fmap_cons, not_elem_of_cons in Hn. apply Forall_cons in Hall as [Hle Hall].
    inversion Hs; subst. rewrite fmap_cons, NoDup_cons in Hnd.
    simpl. unfold key_le in Hle. simpl in *.
    rewrite (proj2 (Z.ltb_lt k k1)) by lia. f_equal. apply IHl; naive_solver.
  - destruct (IH Hnd Hin) as [before Hb]. exists ((k', v') :: before). simpl.
    rewrite Forall_forall in Hall. specialize (Hall _ Hin). unfold key_le in Hall. simpl in Hall.
    rewrite (proj2 (Z.ltb_ge k k')) by lia. by rewrite <-Hb.
Qed.

(** Pages of rules fit together.  Without a cursor iteration starts at the
    first rule; with the identifier of a stored rule as cursor it continues
    right behind that rule, so that following cursors enumerates every rule
    once. *)
Theorem pages_enumerate_rules s :
  rules_after s None = State_rules s
  /\ forall cursor r, State_rule s cursor = Some r ->
     exists before, State_rules s = before ++ r :: rules_after s (Some cursor).
Proof.
  unfold rules_after, State_rules, State_rule, btree_values. split.
  - simpl. f_equal. induction (btree_entries (rules s)); simpl; congruence.
  - intros cursor r Hr%elem_of_btree_entries. simpl.
    destruct (sorted_split (btree_entries (rules s)) cursor r) as [before Hb];
      [apply btree_entries_sorted|apply btree_entries_keys|done|].
    exists before.*2. rewrite Hb at 1. by rewrite fmap_app.
Qed.

(** ** Interception *)

Definition attributed (p : TransportProtocol -> bool) (r : Rule) : bool :=
  enabled (spec r) && (direction (spec r) ==? Outbound) && is_some (application (spec r))
  && p (protocol (spec r)).

Lemma classify_rules_spec l : forall acc, acc <> PerPacket ->
  classify_rules acc l =
  if existsb (attributed (fun p => p !=? Tcp)) l then PerPacket
  else if existsb (attributed (fun p => p ==? Tcp)) l then TcpInitial else acc.
Proof.
  induction l as [|r l IH]; intros acc Hacc; [done|]. cbn [classify_rules existsb].
  unfold attributed at 1 3. unfold is_none.
  destruct (enabled (spec r)); simpl; [|by apply IH].
  destruct (direction (spec r) ==? Outbound); simpl; [|by apply IH].
  destruct (application (spec r)); simpl; [|by apply IH].
  destruct (protocol (spec r)); simpl; try done. rewrite IH by done. by repeat case_match.
Qed.

(** Under enforcement packets of every protocol are intercepted exactly
    when an enabled outbound application rule is not limited to TCP, initial
    TCP packets alone exactly when all such rules are TCP rules, and nothing
    when there is none; blocking intercepts nothing, learning everything. *)
Theorem interception_is_what_the_rules_need s :
  State_application_interception s =
  match mode s with
  | BlockAll => InterceptNone
  | Learning => PerPacket
  | Enforcing =>
      if existsb (attributed (fun p => p !=? Tcp)) (State_rules s) then PerPacket
      else if existsb (attributed (fun p => p ==? Tcp)) (State_rules s) then TcpInitial
      else InterceptNone
  end.
Proof.
  unfold State_application_interception, classify_application_interception.
  destruct (mode s); [done|done|]. by apply classify_rules_spec.
Qed.
