(* ===== verification/Marks.v ===== *)
(** * Packet and connection marks

    The mark arithmetic of [crates/openshield-core/src/nftables.rs]: two
    reserved bits of the packet mark carry a private domain next to 30 bits of
    payload, and the low 31 bits of the connection mark carry either an
    authorized or a rejected flow generation. *)

From S2P Require Import Prelude Text Net Application Model State.
Local Open Scope Z_scope.

Abbreviation APPLICATION_MARK_GENERATION_MASK := (MAX_FLOW_GENERATION) (only parsing).
Abbreviation APPLICATION_MARK_DOMAIN_MASK := 0xc0000000 (only parsing).
Abbreviation APPLICATION_MARK_PAYLOAD_MASK := 0x3fffffff (only parsing).
Abbreviation APPLICATION_PENDING_DOMAIN := 0x80000000 (only parsing).
Abbreviation APPLICATION_HANDOFF_DOMAIN := 0xc0000000 (only parsing).
Abbreviation APPLICATION_REJECT_DOMAIN := 0x40000000 (only parsing).
Abbreviation APPLICATION_FLOW_DOMAIN := 0x40000000 (only parsing).
Abbreviation APPLICATION_CONNMARK_MASK := 0x7fffffff (only parsing).
Abbreviation APPLICATION_CONNMARK_FOREIGN_MASK := 0x80000000 (only parsing).

Definition application_pending_mark (packet_mark : Z) : Z :=
  Z.lor APPLICATION_PENDING_DOMAIN (Z.land packet_mark APPLICATION_MARK_PAYLOAD_MASK).

Definition application_handoff_mark (packet_mark : Z) : Z :=
  Z.lor APPLICATION_HANDOFF_DOMAIN (Z.land packet_mark APPLICATION_MARK_PAYLOAD_MASK).

Definition application_reject_mark (packet_mark : Z) : Z :=
  Z.lor APPLICATION_REJECT_DOMAIN (Z.land packet_mark APPLICATION_MARK_PAYLOAD_MASK).

(** [next_attempt << 30] is a shift of a [u32]. *)
Definition application_reply_retry_mark (packet_mark : Z) : Z :=
  let attempts := Z.shiftr packet_mark 30 in
  let next_attempt := if attempts <? 3 then attempts + 1 else 3 in
  Z.lor (u32_wrap (Z.shiftl next_attempt 30))
    (Z.land packet_mark APPLICATION_MARK_PAYLOAD_MASK).

Definition application_flow_mark (flow_generation : Z) : Z :=
  Z.lor APPLICATION_FLOW_DOMAIN (Z.land flow_generation APPLICATION_MARK_GENERATION_MASK).

Definition application_reject_connmark (flow_generation : Z) : Z :=
  Z.land flow_generation APPLICATION_MARK_GENERATION_MASK.

(** ** Facts *)

Definition is_u32 (z : Z) : Prop := 0 <= z <= U32_MAX.

Lemma payload_mod z : Z.land z APPLICATION_MARK_PAYLOAD_MASK = z mod 2 ^ 30.
Proof. change APPLICATION_MARK_PAYLOAD_MASK with (Z.ones 30). by rewrite Z.land_ones. Qed.

Lemma generation_mod z : Z.land z APPLICATION_MARK_GENERATION_MASK = z mod 2 ^ 30.
Proof. apply payload_mod. Qed.

Lemma bits_above p n k : 0 <= n <= k -> 0 <= p < 2 ^ n -> Z.testbit p k = false.
Proof.
  intros Hk Hp. destruct (decide (p = 0)) as [->|]; [apply Z.bits_0|].
  apply Z.bits_above_log2; [lia|]. apply Z.log2_lt_pow2; [lia|].
  apply Z.lt_le_trans with (2 ^ n); [lia|]. apply Z.pow_le_mono_r; lia.
Qed.

Lemma land_disjoint d p n : 0 <= n -> 0 <= p < 2 ^ n -> Z.land (d * 2 ^ n) p = 0.
Proof.
  intros Hn Hp. apply Z.bits_inj'. intros k Hk. rewrite Z.land_spec, Z.bits_0.
  destruct (Z.lt_ge_cases k n); [by rewrite Z.mul_pow2_bits_low|].
  by rewrite (bits_above p n k), andb_false_r by lia.
Qed.

Lemma lor_disjoint d p n : 0 <= n -> 0 <= p < 2 ^ n -> Z.lor (d * 2 ^ n) p = d * 2 ^ n + p.
Proof.
  intros Hn Hp. rewrite <-Z.lxor_lor, <-Z.add_nocarry_lxor; [done|by apply land_disjoint..].
Qed.

Lemma land_domain d p : 0 <= d < 4 -> 0 <= p < 2 ^ 30 ->
  Z.land (d * 2 ^ 30 + p) APPLICATION_MARK_DOMAIN_MASK = d * 2 ^ 30
  /\ Z.land (d * 2 ^ 30 + p) APPLICATION_MARK_PAYLOAD_MASK = p.
Proof.
  intros Hd Hp. split.
  - change APPLICATION_MARK_DOMAIN_MASK with (Z.ones 2 * 2 ^ 30).
    rewrite <-(lor_disjoint d p 30), Z.land_lor_distr_l by lia.
    rewrite (Z.land_comm p), (land_disjoint (Z.ones 2) p 30), Z.lor_0_r by lia.
    rewrite <-!Z.shiftl_mul_pow2, <-Z.shiftl_land, Z.land_ones by lia.
    by rewrite Z.mod_small by (simpl; lia).
  - rewrite payload_mod, Z.add_comm, Z.mod_add by lia. apply Z.mod_small. lia.
Qed.

Lemma pending_sum m : application_pending_mark m = 2 * 2 ^ 30 + m mod 2 ^ 30.
Proof.
  unfold application_pending_mark. rewrite payload_mod.
  apply (lor_disjoint 2 (m mod 2 ^ 30) 30); [lia|]. apply Z.mod_pos_bound. lia.
Qed.

Lemma handoff_sum m : application_handoff_mark m = 3 * 2 ^ 30 + m mod 2 ^ 30.
Proof.
  unfold application_handoff_mark. rewrite payload_mod.
  apply (lor_disjoint 3 (m mod 2 ^ 30) 30); [lia|]. apply Z.mod_pos_bound. lia.
Qed.

Lemma reject_sum m : application_reject_mark m = 1 * 2 ^ 30 + m mod 2 ^ 30.
Proof.
  unfold application_reject_mark. rewrite payload_mod.
  apply (lor_disjoint 1 (m mod 2 ^ 30) 30); [lia|]. apply Z.mod_pos_bound. lia.
Qed.

(** The number of retries a mark records. *)
Definition retries (m : Z) : Z := m / 2 ^ 30.

Lemma retry_sum m : is_u32 m ->
  application_reply_retry_mark m = Z.min 3 (retries m + 1) * 2 ^ 30 + m mod 2 ^ 30.
Proof.
  intros Hm. unfold application_reply_retry_mark, retries. rewrite payload_mod.
  rewrite Z.shiftr_div_pow2 by lia.
  replace (if m / 2 ^ 30 <? 3 then m / 2 ^ 30 + 1 else 3) with (Z.min 3 (m / 2 ^ 30 + 1)).
  2: { destruct (Z.ltb_spec (m / 2 ^ 30) 3); lia. }
  assert (0 <= m / 2 ^ 30) by (apply Z.div_pos; unfold is_u32 in Hm; lia).
  rewrite Z.shiftl_mul_pow2 by lia. unfold u32_wrap. rewrite Z.mod_small by lia.
  apply lor_disjoint; [lia|]. apply Z.mod_pos_bound. lia.
Qed.

(** The three private packet marks put a packet in pairwise different
    domains and keep its 30 payload bits, so that masking a mark with the
    domain mask tells the domain and masking it with the payload mask gives
    back the host's own mark; no mark that was sanitized is in any domain. *)
Theorem packet_mark_domains m :
  let payload := Z.land m APPLICATION_MARK_PAYLOAD_MASK in
  let domain mark := Z.land mark APPLICATION_MARK_DOMAIN_MASK in
  let strip mark := Z.land mark APPLICATION_MARK_PAYLOAD_MASK in
  domain (application_pending_mark m) = APPLICATION_PENDING_DOMAIN
  /\ domain (application_handoff_mark m) = APPLICATION_HANDOFF_DOMAIN
  /\ domain (application_reject_mark m) = APPLICATION_REJECT_DOMAIN
  /\ strip (application_pending_mark m) = payload
  /\ strip (application_handoff_mark m) = payload
  /\ strip (application_reject_mark m) = payload
  /\ domain payload = 0
  /\ APPLICATION_PENDING_DOMAIN <> APPLICATION_HANDOFF_DOMAIN
  /\ APPLICATION_PENDING_DOMAIN <> APPLICATION_REJECT_DOMAIN
  /\ APPLICATION_HANDOFF_DOMAIN <> APPLICATION_REJECT_DOMAIN.
Proof.
  assert (Hp : 0 <= m mod 2 ^ 30 < 2 ^ 30) by (apply Z.mod_pos_bound; lia).
  cbn zeta. rewrite pending_sum, handoff_sum, reject_sum, (payload_mod m).
  destruct (land_domain 2 _ ltac:(lia) Hp) as [-> ->].
  destruct (land_domain 3 _ ltac:(lia) Hp) as [-> ->].
  destruct (land_domain 1 _ ltac:(lia) Hp) as [-> ->].
  destruct (land_domain 0 _ ltac:(lia) Hp) as [H0 _]. rewrite Z.mul_0_l, Z.add_0_l in H0.
  rewrite H0. by split_and!.
Qed.

(** A retried reply keeps its payload and its retry count goes up by one
    until it stays at three, so a reply is deferred at most three times before
    the input chain stops queueing it. *)
Theorem reply_retries_saturate m :
  is_u32 m ->
  is_u32 (application_reply_retry_mark m)
  /\ retries (application_reply_retry_mark m) = Z.min 3 (retries m + 1)
  /\ Z.land (application_reply_retry_mark m) APPLICATION_MARK_PAYLOAD_MASK
     = Z.land m APPLICATION_MARK_PAYLOAD_MASK
  /\ retries (Nat.iter 3 application_reply_retry_mark m) = 3
  /\ (retries m = 3 <->
      Z.land m APPLICATION_MARK_DOMAIN_MASK = APPLICATION_MARK_DOMAIN_MASK).
Proof.
  assert (Hstep : forall m, is_u32 m -> is_u32 (application_reply_retry_mark m)
    /\ retries (application_reply_retry_mark m) = Z.min 3 (retries m + 1)).
  { intros x Hx. rewrite retry_sum by done. unfold is_u32, retries in *.
    assert (0 <= x mod 2 ^ 30 < 2 ^ 30) by (apply Z.mod_pos_bound; lia).
    assert (0 <= x / 2 ^ 30) by (apply Z.div_pos; lia).
    split; [unfold U32_MAX; lia|].
    rewrite Z.div_add_l, (Z.div_small (x mod 2 ^ 30)) by lia. lia. }
  intros Hm. destruct (Hstep m Hm) as [H1 R1]. destruct (Hstep _ H1) as [H2 R2].
  destruct (Hstep _ H2) as [H3 R3].
  assert (Hp : 0 <= m mod 2 ^ 30 < 2 ^ 30) by (apply Z.mod_pos_bound; lia).
  assert (Hr : 0 <= retries m) by (apply Z.div_pos; unfold is_u32 in Hm; lia).
  assert (Hr4 : retries m < 4).
  { apply Z.div_lt_upper_bound; unfold is_u32, U32_MAX in Hm; lia. }
  split_and!; [done|done| | |].
  - rewrite retry_sum by done. rewrite (proj2 (land_domain (Z.min 3 (retries m + 1)) _ ltac:(lia) Hp)).
    by rewrite payload_mod.
  - simpl. rewrite R3, R2, R1. lia.
  - assert (Hm' : m = retries m * 2 ^ 30 + m mod 2 ^ 30)
      by (unfold retries; pose proof (Z.div_mod m (2 ^ 30)); lia).
    rewrite Hm' at 2. rewrite (proj1 (land_domain _ _ (conj Hr Hr4) Hp)).
    change APPLICATION_MARK_DOMAIN_MASK with (3 * 2 ^ 30). lia.
Qed.

Lemma reply_retries_saturate_witness :
  retries (Nat.iter 3 application_reply_retry_mark 0x12345678) = 3.
Proof.
  destruct (reply_retries_saturate 0x12345678) as (_ & _ & _ & H & _);
    [unfold is_u32, U32_MAX; lia|exact H].
Defined.

(** Within the supported generations the connection mark of an authorized
    flow identifies its generation, never coincides with the mark of a rejected
    flow of any generation, and leaves the bit of other firewalls clear. *)
Theorem flow_marks_identify_generations g g' :
  1 <= g <= MAX_FLOW_GENERATION -> 1 <= g' <= MAX_FLOW_GENERATION ->
  (application_flow_mark g = application_flow_mark g' <-> g = g')
  /\ application_flow_mark g <> application_reject_connmark g'
  /\ Z.land (application_flow_mark g) APPLICATION_CONNMARK_MASK = application_flow_mark g
  /\ Z.land (application_flow_mark g) APPLICATION_CONNMARK_FOREIGN_MASK = 0.
Proof.
  assert (Hsum : forall g, 1 <= g <= MAX_FLOW_GENERATION -> application_flow_mark g = 2 ^ 30 + g).
  { intros x Hx. unfold application_flow_mark, MAX_FLOW_GENERATION in *. rewrite generation_mod.
    rewrite Z.mod_small by lia. exact (lor_disjoint 1 x 30 ltac:(lia) ltac:(lia)). }
  intros Hg Hg'. rewrite !Hsum by done. unfold application_reject_connmark.
  rewrite generation_mod. unfold MAX_FLOW_GENERATION in *. rewrite Z.mod_small by lia.
  split_and!; [lia|lia| |].
  - change APPLICATION_CONNMARK_MASK with (Z.ones 31). rewrite Z.land_ones by lia.
    apply Z.mod_small. lia.
  - apply Z.bits_inj'. intros k Hk. rewrite Z.land_spec, Z.bits_0.
    change APPLICATION_CONNMARK_FOREIGN_MASK with (2 ^ 31).
    destruct (decide (k = 31)) as [->|]; [|by rewrite Z.pow2_bits_false, andb_false_r by lia].
    by rewrite (bits_above _ 31 31) by lia.
Qed.

Lemma flow_marks_identify_generations_witness :
  application_flow_mark 5 <> application_flow_mark 6.
Proof.
  intros H. apply (flow_marks_identify_generations 5 6) in H;
    [lia|unfold MAX_FLOW_GENERATION; lia|unfold MAX_FLOW_GENERATION; lia].
Defined.
