(* ===== verification/Nftables.v ===== *)
(** * The nftables compiler

    [crates/openshield-core/src/nftables.rs].  Every [append_*] function of
    the source pushes text onto one script; its model is the text it pushes,
    and calls in sequence are concatenations. *)

From S2P Require Import Prelude Text Net Application Model State Marks.
Local Open Scope Z_scope.

Abbreviation TABLE_NAME := (lit "openshield") (only parsing).
Abbreviation COUNTER_ACCEPTED_IN := (lit "accepted_in") (only parsing).
Abbreviation COUNTER_ACCEPTED_OUT := (lit "accepted_out") (only parsing).
Abbreviation COUNTER_DROPPED_IN := (lit "dropped_in") (only parsing).
Abbreviation COUNTER_DROPPED_OUT := (lit "dropped_out") (only parsing).
Abbreviation COUNTER_LEARNED_OUT := (lit "learned_out") (only parsing).
Abbreviation NFT_OWNERSHIP_COUNTER := (lit "openshield_owner_v1") (only parsing).
Abbreviation APPLICATION_QUEUE_NUMBER := 1337 (only parsing).
Abbreviation APPLICATION_LEARNING_QUEUE_NUMBER := 1338 (only parsing).
Abbreviation APPLICATION_REPLY_QUEUE_NUMBER := 1339 (only parsing).

Definition APPLICATION_REPLY_PROTOCOL_MATCHES : list ustring :=
  [lit "meta l4proto tcp"; lit "meta l4proto udp"; lit "meta nfproto ipv4 meta l4proto icmp";
   lit "meta nfproto ipv6 meta l4proto icmpv6"].
Definition APPLICATION_NON_TCP_PROTOCOL_MATCHES : list ustring :=
  [lit "meta l4proto udp"; lit "meta nfproto ipv4 meta l4proto icmp";
   lit "meta nfproto ipv6 meta l4proto icmpv6"].

Inductive CompileError : Type := InvalidState (error : CoreError).

(** A line feed, and a text between double quotes. *)
Definition nl : ustring := [10].
Definition quoted (s : ustring) : ustring := [34] ++ s ++ [34].

(** [{value:08x}]. *)
Definition append_hex_u32 (value : Z) : ustring := hex_pad 8 value.

Definition append_packet_mark_domain_set (domain : Z) : ustring :=
  lit "meta mark set (meta mark & 0x" ++ append_hex_u32 APPLICATION_MARK_PAYLOAD_MASK
  ++ lit ") | 0x" ++ append_hex_u32 domain.

(** ** Rule selectors and verdicts *)

Definition append_port (port : PortRange) : ustring :=
  dec port.(port_start)
  ++ (if negb (port.(port_end) =? port.(port_start)) then lit "-" ++ dec port.(port_end) else []).

Definition append_protocol (protocol : TransportProtocol) : ustring :=
  match protocol with
  | Any => []
  | Tcp => lit "meta l4proto tcp "
  | Udp => lit "meta l4proto udp "
  | Icmp => lit "meta nfproto ipv4 meta l4proto icmp "
  | IcmpV6 => lit "meta nfproto ipv6 meta l4proto icmpv6 "
  end.

(** [slice::sort_unstable_by_key] by (priority, identifier); the identifiers
    of a validated snapshot are distinct, so the order is determined. *)
Definition rule_action_priority (action : RuleAction) : Z :=
  match action with Drop => 0 | Reject => 1 | Accept => 2 end.

Definition priority_le (r r' : Rule) : Prop :=
  rule_action_priority r.(spec).(action) < rule_action_priority r'.(spec).(action)
  \/ (rule_action_priority r.(spec).(action) = rule_action_priority r'.(spec).(action)
      /\ r.(rule_id) <= r'.(rule_id)).
#[export] Instance priority_le_dec : RelDecision priority_le.
Proof. intros r r'. unfold priority_le. apply _. Defined.

Definition id_le (r r' : Rule) : Prop := r.(rule_id) <= r'.(rule_id).
#[export] Instance id_le_dec : RelDecision id_le.
Proof. intros r r'. unfold id_le. apply _. Defined.

Definition contains_action (actions : list RuleAction) (action : RuleAction) : bool :=
  existsb (fun a => a ==? action) actions.

Section Compiler.
Context `{IpNetLib}.

Definition append_rule_selectors (rule : Rule) (chain_direction : Direction)
    (stateful_reverse : bool) : ustring :=
  (if stateful_reverse then lit "ct direction reply ct state established " else [])
  ++ match rule.(spec).(interface) with
     | Some interface =>
         (match chain_direction with
          | Inbound => lit "iifname "
          | Outbound => lit "oifname "
          end) ++ quoted interface.(interface_str) ++ lit " "
     | None => []
     end
  ++ match rule.(spec).(peer_network) with
     | Some network =>
         (match chain_direction, network with
          | Inbound, NetV4 _ _ => lit "ip saddr "
          | Inbound, NetV6 _ _ => lit "ip6 saddr "
          | Outbound, NetV4 _ _ => lit "ip daddr "
          | Outbound, NetV6 _ _ => lit "ip6 daddr "
          end) ++ ipnet_display network ++ lit " "
     | None => []
     end
  ++ append_protocol rule.(spec).(protocol)
  ++ match rule.(spec).(port) with
     | Some port =>
         match rule.(spec).(protocol), stateful_reverse with
         | Tcp, false => lit "tcp dport "
         | Tcp, true => lit "tcp sport "
         | Udp, false => lit "udp dport "
         | Udp, true => lit "udp sport "
         | _, _ => []
         end ++ append_port port ++ lit " "
     | None => []
     end.

Definition append_rule_verdict (rule : Rule) (chain_direction : Direction)
    (stateful_reverse : bool) (counter : ustring) (action : RuleAction)
    (outbound_handoff : bool) (reject_connmark : Z) : ustring :=
  lit "    "
  ++ append_rule_selectors rule chain_direction stateful_reverse
  ++ (if (chain_direction ==? Outbound) && (action ==? Accept) && outbound_handoff
      then append_packet_mark_domain_set APPLICATION_HANDOFF_DOMAIN ++ lit " " else [])
  ++ (if action ==? Reject
      then lit "ct mark set (ct mark & 0x" ++ append_hex_u32 APPLICATION_CONNMARK_FOREIGN_MASK
           ++ lit ") | 0x" ++ append_hex_u32 reject_connmark ++ lit " "
      else [])
  ++ lit "counter name " ++ counter
  ++ match action with
     | Accept => lit " accept" ++ nl
     | Drop => lit " drop" ++ nl
     | Reject =>
         if rule.(spec).(protocol) ==? Tcp then lit " reject with tcp reset" ++ nl
         else lit " reject" ++ nl
     end.

(** ** Rule groups *)

Definition direct_rules (snapshot : Snapshot) (direction : Direction)
    (actions : list RuleAction) : list Rule :=
  merge_sort priority_le
    (List.filter (fun rule =>
       rule.(spec).(enabled) && (rule.(spec).(Model.direction) ==? direction)
       && is_none rule.(spec).(application) && contains_action actions rule.(spec).(action))
     snapshot.(snap_rules)).

Definition append_direct_rules (snapshot : Snapshot) (direction : Direction)
    (actions : list RuleAction) (counter : ustring) : ustring :=
  concat ((fun rule =>
    append_rule_verdict rule direction false counter rule.(spec).(action)
      (snapshot.(snap_mode) !=? Learning)
      (application_reject_connmark snapshot.(snap_flow_generation)))
    <$> direct_rules snapshot direction actions).

Definition reverse_rules (snapshot : Snapshot) (direction : Direction) : list Rule :=
  merge_sort id_le
    (List.filter (fun rule =>
       rule.(spec).(enabled) && (rule.(spec).(Model.direction) !=? direction)
       && is_none rule.(spec).(application) && (rule.(spec).(action) ==? Accept))
     snapshot.(snap_rules)).

Definition append_reverse_rules (snapshot : Snapshot) (direction : Direction)
    (accepted_counter : ustring) : ustring :=
  concat ((fun rule =>
    append_rule_verdict rule direction true accepted_counter Accept
      (snapshot.(snap_mode) !=? Learning)
      (application_reject_connmark snapshot.(snap_flow_generation)))
    <$> reverse_rules snapshot direction).

Definition application_rules (snapshot : Snapshot) (actions : list RuleAction) : list Rule :=
  merge_sort priority_le
    (List.filter (fun rule =>
       rule.(spec).(enabled) && (rule.(spec).(Model.direction) ==? Outbound)
       && is_some rule.(spec).(application) && contains_action actions rule.(spec).(action))
     snapshot.(snap_rules)).

Definition append_application_rule_queues (snapshot : Snapshot) (actions : list RuleAction)
    : ustring :=
  concat ((fun rule =>
    lit "    ct direction original "
    ++ append_rule_selectors rule Outbound false
    ++ append_packet_mark_domain_set APPLICATION_PENDING_DOMAIN
    ++ lit " queue num " ++ dec APPLICATION_QUEUE_NUMBER ++ nl)
    <$> application_rules snapshot actions).

Definition append_original_guard (rule : Rule) (dropped_counter : ustring) : ustring :=
  lit "    "
  ++ match rule.(spec).(interface) with
     | Some interface => lit "oifname " ++ quoted interface.(interface_str) ++ lit " "
     | None => []
     end
  ++ append_protocol rule.(spec).(protocol)
  ++ match rule.(spec).(peer_network) with
     | Some network =>
         match network with
         | NetV4 _ _ => lit "ct original ip daddr "
         | NetV6 _ _ => lit "ct original ip6 daddr "
         end ++ ipnet_display network ++ lit " "
     | None => []
     end
  ++ match rule.(spec).(port) with
     | Some port => lit "ct original proto-dst " ++ append_port port ++ lit " "
     | None => []
     end
  ++ lit "counter name " ++ dropped_counter ++ lit " drop" ++ nl.

Definition append_application_candidate_guard_drops (snapshot : Snapshot)
    (dropped_counter : ustring) (actions : list RuleAction) : ustring :=
  concat ((fun rule =>
    lit "    " ++ append_rule_selectors rule Outbound false
    ++ lit "counter name " ++ dropped_counter ++ lit " drop" ++ nl
    ++ (if is_none rule.(spec).(peer_network) && is_none rule.(spec).(port) then []
        else append_original_guard rule dropped_counter))
    <$> application_rules snapshot actions).

(** ** Replies to application flows *)

(** The protocols one rule is expanded to, skipping those that do not fit it. *)
Definition reply_candidate_protocols (rule : Rule) : list TransportProtocol :=
  List.filter (fun protocol =>
    negb ((rule.(spec).(Model.protocol) !=? Any) && (rule.(spec).(Model.protocol) !=? protocol))
    && negb match protocol, rule.(spec).(peer_network) with
            | Icmp, Some (NetV6 _ _) | IcmpV6, Some (NetV4 _ _) => true
            | _, _ => false
            end) [Udp; Icmp; IcmpV6].

Definition reply_candidate (rule : Rule) (protocol : TransportProtocol) : Rule :=
  let s := rule.(spec) in
  set_spec (mkRuleSpec s.(name) s.(direction) s.(action) protocol s.(peer_network) s.(port) None
              s.(application) s.(origin) s.(enabled)) rule.

Definition application_reply_candidates (snapshot : Snapshot) : list Rule :=
  concat ((fun rule => reply_candidate rule <$> reply_candidate_protocols rule) <$>
    merge_sort id_le
      (List.filter (fun rule =>
         rule.(spec).(enabled) && (rule.(spec).(Model.direction) ==? Outbound)
         && is_some rule.(spec).(application) && (rule.(spec).(action) ==? Accept))
       snapshot.(snap_rules))).

Definition append_application_reply_queues (snapshot : Snapshot) : ustring :=
  concat ((fun rule =>
    lit "    " ++ append_rule_selectors rule Inbound true
    ++ match rule.(spec).(protocol) with
       | Icmp => lit "icmp type echo-reply icmp code 0 "
       | IcmpV6 => lit "icmpv6 type echo-reply icmpv6 code 0 "
       | _ => []
       end
    ++ lit "meta mark & 0xc0000000 != 0xc0000000 queue to "
    ++ dec APPLICATION_REPLY_QUEUE_NUMBER ++ nl)
    <$> application_reply_candidates snapshot).

(** ** Fixed rules *)

Definition append_forward_chain (mode : Mode) : ustring :=
  lit "  chain forward {" ++ nl ++ lit "    type filter hook forward priority filter; policy drop;"
  ++ nl
  ++ (if mode ==? BlockAll then lit "    counter drop" ++ nl else lit "    accept" ++ nl)
  ++ lit "  }" ++ nl.

Definition append_named_counters : ustring :=
  concat ((fun name =>
    lit "  counter " ++ name ++ lit " {" ++ nl ++ lit "    packets 0 bytes 0" ++ nl
    ++ lit "  }" ++ nl)
    <$> [NFT_OWNERSHIP_COUNTER; COUNTER_ACCEPTED_IN; COUNTER_ACCEPTED_OUT; COUNTER_DROPPED_IN;
         COUNTER_DROPPED_OUT; COUNTER_LEARNED_OUT]).

(** The loop body shared by the two fixed accept lists. *)
Definition append_selector_accepts (selectors : list ustring) (accepted_counter : ustring)
    : ustring :=
  concat ((fun selector =>
    lit "    " ++ selector ++ lit " counter name " ++ accepted_counter ++ lit " accept" ++ nl)
    <$> selectors).

Definition ipv6_host_control_plane : list ustring := [
  lit "ct state related meta nfproto ipv6 ip6 saddr != :: ip6 saddr != ff00::/8 meta l4proto icmpv6 icmpv6 type 1";
  lit "ct state related meta nfproto ipv6 ip6 saddr != :: ip6 saddr != ff00::/8 meta l4proto icmpv6 icmpv6 type 2 icmpv6 code 0";
  lit "ct state related meta nfproto ipv6 ip6 saddr != :: ip6 saddr != ff00::/8 meta l4proto icmpv6 icmpv6 type 3 icmpv6 code 0";
  lit "ct state related meta nfproto ipv6 ip6 saddr != :: ip6 saddr != ff00::/8 meta l4proto icmpv6 icmpv6 type 4 icmpv6 code 1";
  lit "ct state related meta nfproto ipv6 ip6 saddr != :: ip6 saddr != ff00::/8 meta l4proto icmpv6 icmpv6 type 4 icmpv6 code 2";
  lit "meta nfproto ipv6 ip6 saddr fe80::/10 ip6 hoplimit 255 meta l4proto icmpv6 icmpv6 type 134 icmpv6 code 0";
  lit "meta nfproto ipv6 ip6 saddr != ff00::/8 ip6 hoplimit 255 meta l4proto icmpv6 icmpv6 type 135 icmpv6 code 0";
  lit "meta nfproto ipv6 ip6 saddr != :: ip6 saddr != ff00::/8 ip6 hoplimit 255 meta l4proto icmpv6 icmpv6 type 136 icmpv6 code 0";
  lit "meta nfproto ipv6 ip6 saddr fe80::/10 ip6 daddr ff02::/16 ip6 hoplimit 1 meta l4proto icmpv6 icmpv6 type 130 icmpv6 code 0"
].

Definition append_ipv6_host_control_plane_accepts (accepted_counter : ustring) : ustring :=
  append_selector_accepts ipv6_host_control_plane accepted_counter.

Definition dhcp_bootstrap : list ustring := [
  lit "meta nfproto ipv6 ip6 saddr fe80::/10 meta l4proto udp udp sport 547 udp dport 546";
  lit "meta nfproto ipv4 ip daddr 255.255.255.255 meta l4proto udp udp sport 67 udp dport 68"
].

Definition append_dhcp_bootstrap_accepts (accepted_counter : ustring) : ustring :=
  append_selector_accepts dhcp_bootstrap accepted_counter.

Definition generated_reject_replies : list ustring := [
  lit "ct state related ct direction reply meta l4proto tcp tcp flags & rst == rst";
  lit "ct state related ct direction reply meta nfproto ipv4 meta l4proto icmp icmp type destination-unreachable icmp code port-unreachable";
  lit "ct state related ct direction reply meta nfproto ipv6 meta l4proto icmpv6 icmpv6 type destination-unreachable icmpv6 code port-unreachable"
].

(** [ct mark & MASK == value], as three functions of the source spell it. *)
Definition append_connmark_match (value : Z) : ustring :=
  lit " ct mark & 0x" ++ append_hex_u32 APPLICATION_CONNMARK_MASK ++ lit " == 0x"
  ++ append_hex_u32 value.

Definition append_outbound_handoff (direction : Direction) : ustring :=
  if direction ==? Outbound
  then lit " " ++ append_packet_mark_domain_set APPLICATION_HANDOFF_DOMAIN else [].

Definition append_generated_reject_reply_accept (direction : Direction)
    (accepted_counter : ustring) (reject_connmark : Z) : ustring :=
  concat ((fun selector =>
    lit "    " ++ selector ++ append_connmark_match reject_connmark
    ++ append_outbound_handoff direction
    ++ lit " counter name " ++ accepted_counter ++ lit " accept" ++ nl)
    <$> generated_reject_replies).

Definition has_enabled_outbound_reject (snapshot : Snapshot) : bool :=
  existsb (fun rule =>
    rule.(spec).(enabled) && (rule.(spec).(direction) ==? Outbound)
    && (rule.(spec).(action) ==? Reject)) snapshot.(snap_rules).

Definition flow_protocols (direction : Direction) (interception : ApplicationInterception)
    : list ustring :=
  match direction, interception with
  | _, InterceptNone => []
  | Inbound, PerPacket => APPLICATION_REPLY_PROTOCOL_MATCHES
  | Inbound, TcpInitial | Outbound, (TcpInitial | PerPacket) =>
      take 1 APPLICATION_REPLY_PROTOCOL_MATCHES
  end.

Definition append_application_flow_accept (snapshot : Snapshot) (direction : Direction)
    (accepted_counter : ustring) (interception : ApplicationInterception) : ustring :=
  concat ((fun protocol_match =>
    lit "    ct direction "
    ++ match direction with
       | Inbound => lit "reply ct state established "
       | Outbound => lit "original ct state established "
       end
    ++ protocol_match
    ++ append_connmark_match (application_flow_mark snapshot.(snap_flow_generation))
    ++ append_outbound_handoff direction
    ++ lit " counter name " ++ accepted_counter ++ lit " accept" ++ nl)
    <$> flow_protocols direction interception).

(** The protocols that interception covers. *)
Definition intercepted_protocols (interception : ApplicationInterception) : list ustring :=
  match interception with
  | InterceptNone => []
  | TcpInitial => take 1 APPLICATION_REPLY_PROTOCOL_MATCHES
  | PerPacket => APPLICATION_REPLY_PROTOCOL_MATCHES
  end.

Definition append_application_loopback_accept (snapshot : Snapshot) (direction : Direction)
    (accepted_counter : ustring) (interception : ApplicationInterception) : ustring :=
  if snapshot.(snap_mode) !=? Enforcing then []
  else
    concat ((fun protocol =>
      match direction with
      | Inbound =>
          lit "    iifname " ++ quoted (lit "lo")
          ++ lit " ct direction original ct state new,established "
      | Outbound =>
          lit "    oifname " ++ quoted (lit "lo") ++ lit " ct direction reply ct state established "
      end
      ++ protocol
      ++ append_connmark_match (application_flow_mark snapshot.(snap_flow_generation))
      ++ append_outbound_handoff direction
      ++ lit " counter name " ++ accepted_counter ++ lit " accept" ++ nl)
      <$> intercepted_protocols interception).

Definition append_application_non_tcp_connmark_reset : ustring :=
  concat ((fun protocol_match =>
    lit "    ct direction original " ++ protocol_match ++ lit " ct mark set ct mark & 0x"
    ++ append_hex_u32 APPLICATION_CONNMARK_FOREIGN_MASK ++ nl)
    <$> APPLICATION_NON_TCP_PROTOCOL_MATCHES).

Definition learning_selectors : list ustring := [
  lit "meta l4proto tcp ct state new tcp flags & (syn | ack) == syn";
  lit "meta l4proto tcp ct state established tcp flags & (fin | rst) == 0 limit rate 64/second burst 32 packets";
  lit "meta l4proto != tcp"
].

Definition append_learning_queue : ustring :=
  concat ((fun selector =>
    lit "    ct direction original " ++ selector ++ lit " counter name " ++ COUNTER_LEARNED_OUT
    ++ lit " queue num " ++ dec APPLICATION_LEARNING_QUEUE_NUMBER ++ lit " bypass" ++ nl)
    <$> learning_selectors).

Definition append_application_mark_sanitization_chain : ustring :=
  lit "  chain output_sanitize {" ++ nl
  ++ lit "    type filter hook output priority -1; policy accept;" ++ nl
  ++ lit "    meta mark & 0x" ++ append_hex_u32 APPLICATION_MARK_DOMAIN_MASK
  ++ lit " != 0x00000000 meta mark set meta mark & 0x"
  ++ append_hex_u32 APPLICATION_MARK_PAYLOAD_MASK ++ nl ++ lit "  }" ++ nl.

(** ** Chains *)

Definition chain_name (direction : Direction) : ustring :=
  match direction with Inbound => lit "input" | Outbound => lit "output" end.
Definition accepted_counter (direction : Direction) : ustring :=
  match direction with Inbound => COUNTER_ACCEPTED_IN | Outbound => COUNTER_ACCEPTED_OUT end.
Definition dropped_counter (direction : Direction) : ustring :=
  match direction with Inbound => COUNTER_DROPPED_IN | Outbound => COUNTER_DROPPED_OUT end.

(** The body of [append_chain] for every mode but [BlockAll]. *)
Definition append_chain_policy (snapshot : Snapshot) (direction : Direction)
    (interception : ApplicationInterception) : ustring :=
  let accepted := accepted_counter direction in
  let dropped := dropped_counter direction in
  let mode := snapshot.(snap_mode) in
  (if has_enabled_outbound_reject snapshot
   then append_generated_reject_reply_accept direction accepted
          (application_reject_connmark snapshot.(snap_flow_generation)) else [])
  ++ (if direction ==? Inbound then append_dhcp_bootstrap_accepts accepted else [])
  ++ (if (direction ==? Inbound) || (mode ==? Enforcing)
      then lit "    ct state invalid counter name " ++ dropped ++ lit " drop" ++ nl else [])
  ++ (if direction ==? Inbound then append_ipv6_host_control_plane_accepts accepted else [])
  ++ (if direction ==? Outbound
      then append_direct_rules snapshot direction [Drop; Reject] dropped else [])
  ++ (if (direction ==? Inbound) && (mode ==? Learning)
      then lit "    iifname " ++ quoted (lit "lo") ++ lit " ct direction original counter name "
           ++ accepted ++ lit " accept" ++ nl
           ++ lit "    ct direction reply ct state established,related counter name "
           ++ accepted ++ lit " accept" ++ nl
      else [])
  ++ (if interception !=? InterceptNone
      then append_application_loopback_accept snapshot direction accepted interception
           ++ append_application_flow_accept snapshot direction accepted interception
           ++ (if (direction ==? Outbound) && (interception ==? PerPacket)
               then append_application_non_tcp_connmark_reset else [])
      else [])
  ++ (if direction ==? Outbound then append_reverse_rules snapshot direction accepted else [])
  ++ (if (direction ==? Outbound) && (mode ==? Enforcing)
      then append_application_rule_queues snapshot [Drop; Reject; Accept]
           ++ append_application_candidate_guard_drops snapshot dropped [Drop; Reject; Accept]
           ++ append_direct_rules snapshot direction [Accept] accepted
      else if (direction ==? Outbound) && (mode ==? Learning)
      then append_application_rule_queues snapshot [Drop; Reject]
           ++ append_application_candidate_guard_drops snapshot dropped [Drop; Reject]
      else append_direct_rules snapshot direction [Accept] accepted)
  ++ (if direction ==? Inbound
      then append_reverse_rules snapshot direction accepted
           ++ (if (mode ==? Enforcing) && (interception ==? PerPacket)
               then append_application_reply_queues snapshot else [])
      else [])
  ++ (if (interception !=? InterceptNone) && (direction ==? Outbound) && (mode ==? Learning)
      then append_learning_queue ++ lit "    counter name " ++ accepted ++ lit " accept" ++ nl
      else []).

Definition append_chain (snapshot : Snapshot) (direction : Direction)
    (interception : ApplicationInterception) : ustring :=
  lit "  chain " ++ chain_name direction ++ lit " {" ++ nl ++ lit "    type filter hook "
  ++ chain_name direction ++ lit " priority filter; policy drop;" ++ nl
  ++ (if snapshot.(snap_mode) !=? BlockAll
      then append_chain_policy snapshot direction interception else [])
  ++ lit "    counter name " ++ dropped_counter direction ++ lit " drop" ++ nl
  ++ lit "  }" ++ nl.

(** The rule that answers packets marked for rejection; [how] ends the line. *)
Definition append_reject_domain_rule (selector : ustring) (reject_connmark : Z) (how : ustring)
    : ustring :=
  lit "    " ++ selector ++ lit "meta mark & 0x" ++ append_hex_u32 APPLICATION_MARK_DOMAIN_MASK
  ++ lit " == 0x" ++ append_hex_u32 APPLICATION_REJECT_DOMAIN
  ++ lit " ct mark set (ct mark & 0x" ++ append_hex_u32 APPLICATION_CONNMARK_FOREIGN_MASK
  ++ lit ") | 0x" ++ append_hex_u32 reject_connmark
  ++ lit " counter name " ++ COUNTER_DROPPED_OUT ++ how ++ nl.

Definition append_application_authorization_chain (snapshot : Snapshot)
    (interception : ApplicationInterception) : ustring :=
  let flow := application_flow_mark snapshot.(snap_flow_generation) in
  let reject_connmark := application_reject_connmark snapshot.(snap_flow_generation) in
  lit "  chain output_authorize {" ++ nl
  ++ lit "    type filter hook output priority 1; policy drop;" ++ nl
  ++ (if interception !=? InterceptNone
      then append_reject_domain_rule (lit "meta l4proto tcp ") reject_connmark
             (lit " reject with tcp reset")
           ++ append_reject_domain_rule [] reject_connmark (lit " reject")
           ++ concat ((fun protocol_match =>
                lit "    " ++ protocol_match ++ lit " meta mark & 0x"
                ++ append_hex_u32 APPLICATION_MARK_DOMAIN_MASK ++ lit " == 0x"
                ++ append_hex_u32 APPLICATION_PENDING_DOMAIN
                ++ lit " ct mark set (ct mark & 0x"
                ++ append_hex_u32 APPLICATION_CONNMARK_FOREIGN_MASK ++ lit ") | 0x"
                ++ append_hex_u32 flow ++ lit " meta mark set meta mark & 0x"
                ++ append_hex_u32 APPLICATION_MARK_PAYLOAD_MASK
                ++ (if snapshot.(snap_mode) ==? Learning
                    then lit " counter name " ++ COUNTER_LEARNED_OUT else [])
                ++ lit " counter name " ++ COUNTER_ACCEPTED_OUT ++ lit " accept" ++ nl)
                <$> intercepted_protocols interception)
      else [])
  ++ (if snapshot.(snap_mode) !=? BlockAll
      then lit "    meta mark & 0x" ++ append_hex_u32 APPLICATION_MARK_DOMAIN_MASK
           ++ lit " == 0x" ++ append_hex_u32 APPLICATION_HANDOFF_DOMAIN
           ++ lit " meta mark set meta mark & 0x" ++ append_hex_u32 APPLICATION_MARK_PAYLOAD_MASK
           ++ lit " accept" ++ nl
      else [])
  ++ (if snapshot.(snap_mode) ==? Learning
      then lit "    counter name " ++ COUNTER_ACCEPTED_OUT ++ lit " accept" ++ nl else [])
  ++ lit "    counter name " ++ COUNTER_DROPPED_OUT ++ lit " drop" ++ nl
  ++ lit "  }" ++ nl.

(** ** [NftablesCompiler::compile] *)

Definition compile (snapshot : Snapshot) : Result CompileError ustring :=
  map_err InvalidState (Snapshot_validate snapshot) ;;
  let interception := Snapshot_application_interception snapshot in
  mret (lit "add table inet openshield" ++ nl
        ++ lit "delete table inet openshield" ++ nl
        ++ lit "table inet openshield {" ++ nl
        ++ append_named_counters
        ++ append_chain snapshot Inbound interception
        ++ append_application_mark_sanitization_chain
        ++ append_chain snapshot Outbound interception
        ++ append_application_authorization_chain snapshot interception
        ++ append_forward_chain snapshot.(snap_mode)
        ++ lit "}" ++ nl).
End Compiler.
