(* ===== verification/NftScript.v ===== *)
(** * The structure of the nftables script

    A rule line of the script as a list of typed items, the lines that
    correspond to every part of the compiler, and the proof that printing them
    gives the compiler's text.  Properties of the policy are stated on the
    lines; [first_verdict] reads a chain the way nftables documents it: lines
    in order, a line applies when all of its matches hold, and the first
    verdict ends the chain.  Which matches hold for a packet is a parameter. *)

From S2P Require Import Prelude Text Net Application Model State Marks Nftables.
Local Open Scope Z_scope.

Inductive Verdict : Type :=
| VAccept | VDrop | VReject | VRejectTcpReset
| VQueue (number : Z) | VQueueBypass (number : Z) | VQueueTo (number : Z).

Inductive Item : Type :=
| MText (text : ustring)
| MInterface (direction : Direction) (interface : InterfaceName)
| MNetwork (direction : Direction) (network : IpNet)
| MOriginalNetwork (network : IpNet)
| MProtocol (protocol : TransportProtocol)
| MPort (protocol : TransportProtocol) (reverse : bool) (port : PortRange)
| MOriginalPort (port : PortRange)
| MPacketDomain (domain : Z)
| MPacketDomainNot (domain : Z)
| MConnmark (value : Z)
| SetPacketDomain (domain : Z)
| StripPacketMark
| SetConnmark (value : Z)
| ClearConnmark
| Count (name : ustring)
| AnonymousCount
| Decide (verdict : Verdict).

#[export] Instance Verdict_eq_dec : EqDecision Verdict.
Proof. solve_decision. Defined.
#[export] Instance Item_eq_dec : EqDecision Item.
Proof. solve_decision. Defined.

Abbreviation Line := (list Item) (only parsing).

(** ** Printing *)

Definition print_verdict (v : Verdict) : ustring :=
  match v with
  | VAccept => lit "accept"
  | VDrop => lit "drop"
  | VReject => lit "reject"
  | VRejectTcpReset => lit "reject with tcp reset"
  | VQueue n => lit "queue num " ++ dec n
  | VQueueBypass n => lit "queue num " ++ dec n ++ lit " bypass"
  | VQueueTo n => lit "queue to " ++ dec n
  end.

Definition print_protocol (p : TransportProtocol) : ustring :=
  match p with
  | Any => []
  | Tcp => lit "meta l4proto tcp"
  | Udp => lit "meta l4proto udp"
  | Icmp => lit "meta nfproto ipv4 meta l4proto icmp"
  | IcmpV6 => lit "meta nfproto ipv6 meta l4proto icmpv6"
  end.

Section Script.
Context `{IpNetLib}.

Definition print_item (i : Item) : ustring :=
  match i with
  | MText t => t
  | MInterface Inbound n => lit "iifname " ++ quoted (interface_str n)
  | MInterface Outbound n => lit "oifname " ++ quoted (interface_str n)
  | MNetwork Inbound (NetV4 _ _ as n) => lit "ip saddr " ++ ipnet_display n
  | MNetwork Inbound (NetV6 _ _ as n) => lit "ip6 saddr " ++ ipnet_display n
  | MNetwork Outbound (NetV4 _ _ as n) => lit "ip daddr " ++ ipnet_display n
  | MNetwork Outbound (NetV6 _ _ as n) => lit "ip6 daddr " ++ ipnet_display n
  | MOriginalNetwork (NetV4 _ _ as n) => lit "ct original ip daddr " ++ ipnet_display n
  | MOriginalNetwork (NetV6 _ _ as n) => lit "ct original ip6 daddr " ++ ipnet_display n
  | MProtocol p => print_protocol p
  | MPort Tcp false p => lit "tcp dport " ++ append_port p
  | MPort Tcp true p => lit "tcp sport " ++ append_port p
  | MPort Udp false p => lit "udp dport " ++ append_port p
  | MPort Udp true p => lit "udp sport " ++ append_port p
  | MPort _ _ p => append_port p
  | MOriginalPort p => lit "ct original proto-dst " ++ append_port p
  | MPacketDomain d =>
      lit "meta mark & 0x" ++ append_hex_u32 APPLICATION_MARK_DOMAIN_MASK
      ++ lit " == 0x" ++ append_hex_u32 d
  | MPacketDomainNot d =>
      lit "meta mark & 0x" ++ append_hex_u32 APPLICATION_MARK_DOMAIN_MASK
      ++ lit " != 0x" ++ append_hex_u32 d
  | MConnmark v =>
      lit "ct mark & 0x" ++ append_hex_u32 APPLICATION_CONNMARK_MASK
      ++ lit " == 0x" ++ append_hex_u32 v
  | SetPacketDomain d => append_packet_mark_domain_set d
  | StripPacketMark =>
      lit "meta mark set meta mark & 0x" ++ append_hex_u32 APPLICATION_MARK_PAYLOAD_MASK
  | SetConnmark v =>
      lit "ct mark set (ct mark & 0x" ++ append_hex_u32 APPLICATION_CONNMARK_FOREIGN_MASK
      ++ lit ") | 0x" ++ append_hex_u32 v
  | ClearConnmark =>
      lit "ct mark set ct mark & 0x" ++ append_hex_u32 APPLICATION_CONNMARK_FOREIGN_MASK
  | Count n => lit "counter name " ++ n
  | AnonymousCount => lit "counter"
  | Decide v => print_verdict v
  end.

Definition print_line (l : Line) : ustring :=
  lit "    " ++ join (lit " ") (print_item <$> l) ++ nl.
Definition print_lines (ls : list Line) : ustring := concat (print_line <$> ls).

(** ** The lines of every part *)

Definition opt_item {A} (f : A -> Item) (o : option A) : Line :=
  match o with Some a => [f a] | None => [] end.

Definition protocol_items (p : TransportProtocol) : Line :=
  match p with Any => [] | _ => [MProtocol p] end.

Definition selector_items (rule : Rule) (d : Direction) (reverse : bool) : Line :=
  (if reverse then [MText (lit "ct direction reply ct state established")] else [])
  ++ opt_item (MInterface d) rule.(spec).(interface)
  ++ opt_item (MNetwork d) rule.(spec).(peer_network)
  ++ protocol_items rule.(spec).(protocol)
  ++ opt_item (MPort rule.(spec).(protocol) reverse) rule.(spec).(port).

Definition verdict_of_action (rule : Rule) (a : RuleAction) : Verdict :=
  match a with
  | Accept => VAccept
  | Drop => VDrop
  | Reject => if rule.(spec).(protocol) ==? Tcp then VRejectTcpReset else VReject
  end.

Definition rule_line (rule : Rule) (d : Direction) (reverse : bool) (counter : ustring)
    (a : RuleAction) (handoff : bool) (reject_connmark : Z) : Line :=
  selector_items rule d reverse
  ++ (if (d ==? Outbound) && (a ==? Accept) && handoff
      then [SetPacketDomain APPLICATION_HANDOFF_DOMAIN] else [])
  ++ (if a ==? Reject then [SetConnmark reject_connmark] else [])
  ++ [Count counter; Decide (verdict_of_action rule a)].

Definition direct_lines (s : Snapshot) (d : Direction) (actions : list RuleAction)
    (counter : ustring) : list Line :=
  (fun rule => rule_line rule d false counter rule.(spec).(action)
     (s.(snap_mode) !=? Learning) (application_reject_connmark s.(snap_flow_generation)))
  <$> direct_rules s d actions.

Definition reverse_lines (s : Snapshot) (d : Direction) (counter : ustring) : list Line :=
  (fun rule => rule_line rule d true counter Accept
     (s.(snap_mode) !=? Learning) (application_reject_connmark s.(snap_flow_generation)))
  <$> reverse_rules s d.

Definition queue_line (rule : Rule) : Line :=
  [MText (lit "ct direction original")] ++ selector_items rule Outbound false
  ++ [SetPacketDomain APPLICATION_PENDING_DOMAIN; Decide (VQueue APPLICATION_QUEUE_NUMBER)].

Definition queue_lines (s : Snapshot) (actions : list RuleAction) : list Line :=
  queue_line <$> application_rules s actions.

Definition original_guard_line (rule : Rule) (counter : ustring) : Line :=
  opt_item (MInterface Outbound) rule.(spec).(interface)
  ++ protocol_items rule.(spec).(protocol)
  ++ opt_item MOriginalNetwork rule.(spec).(peer_network)
  ++ opt_item MOriginalPort rule.(spec).(port)
  ++ [Count counter; Decide VDrop].

Definition guard_lines_of (counter : ustring) (rule : Rule) : list Line :=
  (selector_items rule Outbound false ++ [Count counter; Decide VDrop])
  :: (if is_none rule.(spec).(peer_network) && is_none rule.(spec).(port) then []
      else [original_guard_line rule counter]).

Definition guard_lines (s : Snapshot) (counter : ustring) (actions : list RuleAction)
    : list Line :=
  concat (guard_lines_of counter <$> application_rules s actions).

Definition reply_queue_line (rule : Rule) : Line :=
  selector_items rule Inbound true
  ++ match rule.(spec).(protocol) with
     | Icmp => [MText (lit "icmp type echo-reply icmp code 0")]
     | IcmpV6 => [MText (lit "icmpv6 type echo-reply icmpv6 code 0")]
     | _ => []
     end
  ++ [MPacketDomainNot APPLICATION_MARK_DOMAIN_MASK;
      Decide (VQueueTo APPLICATION_REPLY_QUEUE_NUMBER)].

Definition accept_line (selector counter : ustring) : Line :=
  [MText selector; Count counter; Decide VAccept].

Definition handoff_items (d : Direction) : Line :=
  if d ==? Outbound then [SetPacketDomain APPLICATION_HANDOFF_DOMAIN] else [].

Definition marked_accept_line (matches : Line) (value : Z) (d : Direction) (counter : ustring)
    : Line :=
  matches ++ [MConnmark value] ++ handoff_items d ++ [Count counter; Decide VAccept].

Definition reject_reply_lines (d : Direction) (counter : ustring) (connmark : Z) : list Line :=
  (fun selector => marked_accept_line [MText selector] connmark d counter)
  <$> generated_reject_replies.

Definition flow_lines (s : Snapshot) (d : Direction) (counter : ustring)
    (i : ApplicationInterception) : list Line :=
  (fun p => marked_accept_line
     [MText (match d with
             | Inbound => lit "ct direction reply ct state established"
             | Outbound => lit "ct direction original ct state established"
             end); MText p] (application_flow_mark s.(snap_flow_generation)) d counter)
  <$> flow_protocols d i.

Definition loopback_lines (s : Snapshot) (d : Direction) (counter : ustring)
    (i : ApplicationInterception) : list Line :=
  if s.(snap_mode) !=? Enforcing then []
  else
    (fun p => marked_accept_line
       [MInterface d (mkInterfaceName (lit "lo"));
        MText (match d with
               | Inbound => lit "ct direction original ct state new,established"
               | Outbound => lit "ct direction reply ct state established"
               end); MText p] (application_flow_mark s.(snap_flow_generation)) d counter)
    <$> intercepted_protocols i.

Definition reset_lines : list Line :=
  (fun p => [MText (lit "ct direction original"); MText p; ClearConnmark])
  <$> APPLICATION_NON_TCP_PROTOCOL_MATCHES.

Definition learning_lines : list Line :=
  (fun selector => [MText (lit "ct direction original"); MText selector;
     Count COUNTER_LEARNED_OUT; Decide (VQueueBypass APPLICATION_LEARNING_QUEUE_NUMBER)])
  <$> learning_selectors.

(** *** Chains *)

(** The output and input chains, by the phases of [append_chain]. *)
Definition entry_lines (s : Snapshot) (d : Direction) : list Line :=
  (if has_enabled_outbound_reject s
   then reject_reply_lines d (accepted_counter d)
          (application_reject_connmark s.(snap_flow_generation)) else [])
  ++ (if d ==? Inbound then (fun t => accept_line t (accepted_counter d)) <$> dhcp_bootstrap else [])
  ++ (if (d ==? Inbound) || (s.(snap_mode) ==? Enforcing)
      then [[MText (lit "ct state invalid"); Count (dropped_counter d); Decide VDrop]] else [])
  ++ (if d ==? Inbound
      then (fun t => accept_line t (accepted_counter d)) <$> ipv6_host_control_plane else []).

Definition deny_lines (s : Snapshot) (d : Direction) : list Line :=
  if d ==? Outbound then direct_lines s d [Drop; Reject] (dropped_counter d) else [].

Definition established_lines (s : Snapshot) (d : Direction) (i : ApplicationInterception)
    : list Line :=
  (if (d ==? Inbound) && (s.(snap_mode) ==? Learning)
   then [[MInterface Inbound (mkInterfaceName (lit "lo")); MText (lit "ct direction original");
          Count (accepted_counter d); Decide VAccept];
         accept_line (lit "ct direction reply ct state established,related") (accepted_counter d)]
   else [])
  ++ (if i !=? InterceptNone
      then loopback_lines s d (accepted_counter d) i
           ++ flow_lines s d (accepted_counter d) i
           ++ (if (d ==? Outbound) && (i ==? PerPacket) then reset_lines else [])
      else [])
  ++ (if d ==? Outbound then reverse_lines s d (accepted_counter d) else []).

Definition rule_lines (s : Snapshot) (d : Direction) : list Line :=
  if (d ==? Outbound) && (s.(snap_mode) ==? Enforcing)
  then queue_lines s [Drop; Reject; Accept]
       ++ guard_lines s (dropped_counter d) [Drop; Reject; Accept]
       ++ direct_lines s d [Accept] (accepted_counter d)
  else if (d ==? Outbound) && (s.(snap_mode) ==? Learning)
  then queue_lines s [Drop; Reject] ++ guard_lines s (dropped_counter d) [Drop; Reject]
  else direct_lines s d [Accept] (accepted_counter d).

Definition final_lines (s : Snapshot) (d : Direction) (i : ApplicationInterception)
    : list Line :=
  (if d ==? Inbound
   then reverse_lines s d (accepted_counter d)
        ++ (if (s.(snap_mode) ==? Enforcing) && (i ==? PerPacket)
            then reply_queue_line <$> application_reply_candidates s else [])
   else [])
  ++ (if (i !=? InterceptNone) && (d ==? Outbound) && (s.(snap_mode) ==? Learning)
      then learning_lines ++ [[Count (accepted_counter d); Decide VAccept]] else []).

Definition chain_lines (s : Snapshot) (d : Direction) (i : ApplicationInterception)
    : list Line :=
  (if s.(snap_mode) !=? BlockAll
   then entry_lines s d ++ deny_lines s d ++ established_lines s d i ++ rule_lines s d
        ++ final_lines s d i
   else [])
  ++ [[Count (dropped_counter d); Decide VDrop]].

Definition authorize_lines (s : Snapshot) (i : ApplicationInterception) : list Line :=
  let connmark := application_reject_connmark s.(snap_flow_generation) in
  (if i !=? InterceptNone
   then [[MText (lit "meta l4proto tcp"); MPacketDomain APPLICATION_REJECT_DOMAIN;
          SetConnmark connmark; Count COUNTER_DROPPED_OUT; Decide VRejectTcpReset];
         [MPacketDomain APPLICATION_REJECT_DOMAIN; SetConnmark connmark;
          Count COUNTER_DROPPED_OUT; Decide VReject]]
        ++ ((fun p => [MText p; MPacketDomain APPLICATION_PENDING_DOMAIN;
                SetConnmark (application_flow_mark s.(snap_flow_generation)); StripPacketMark]
               ++ (if s.(snap_mode) ==? Learning then [Count COUNTER_LEARNED_OUT] else [])
               ++ [Count COUNTER_ACCEPTED_OUT; Decide VAccept])
            <$> intercepted_protocols i)
   else [])
  ++ (if s.(snap_mode) !=? BlockAll
      then [[MPacketDomain APPLICATION_HANDOFF_DOMAIN; StripPacketMark; Decide VAccept]] else [])
  ++ (if s.(snap_mode) ==? Learning then [[Count COUNTER_ACCEPTED_OUT; Decide VAccept]] else [])
  ++ [[Count COUNTER_DROPPED_OUT; Decide VDrop]].

Definition sanitize_lines : list Line :=
  [[MPacketDomainNot 0; StripPacketMark]].

Definition forward_lines (m : Mode) : list Line :=
  if m ==? BlockAll then [[AnonymousCount; Decide VDrop]] else [[Decide VAccept]].

Definition print_chain (name hook priority policy : ustring) (ls : list Line) : ustring :=
  lit "  chain " ++ name ++ lit " {" ++ nl ++ lit "    type filter hook " ++ hook
  ++ lit " priority " ++ priority ++ lit "; policy " ++ policy ++ lit ";" ++ nl
  ++ print_lines ls ++ lit "  }" ++ nl.

Definition print_script (s : Snapshot) (i : ApplicationInterception) : ustring :=
  lit "add table inet openshield" ++ nl ++ lit "delete table inet openshield" ++ nl
  ++ lit "table inet openshield {" ++ nl ++ append_named_counters
  ++ print_chain (lit "input") (lit "input") (lit "filter") (lit "drop") (chain_lines s Inbound i)
  ++ print_chain (lit "output_sanitize") (lit "output") (lit "-1") (lit "accept") sanitize_lines
  ++ print_chain (lit "output") (lit "output") (lit "filter") (lit "drop")
       (chain_lines s Outbound i)
  ++ print_chain (lit "output_authorize") (lit "output") (lit "1") (lit "drop")
       (authorize_lines s i)
  ++ print_chain (lit "forward") (lit "forward") (lit "filter") (lit "drop")
       (forward_lines s.(snap_mode))
  ++ lit "}" ++ nl.

(** ** Printing the lines gives the compiler's text *)

(** Items followed by a space each, as the compiler pushes selectors. *)
Definition spaced (l : Line) : ustring := concat ((fun i => print_item i ++ lit " ") <$> l).

Lemma spaced_app l l' : spaced (l ++ l') = spaced l ++ spaced l'.
Proof. unfold spaced. by rewrite fmap_app, concat_app. Qed.

Lemma join_snoc l i :
  join (lit " ") (print_item <$> l ++ [i]) = spaced l ++ print_item i.
Proof.
  induction l as [|x l IH]; [done|]. unfold spaced. cbn [app]. rewrite !fmap_cons.
  cbn [concat]. rewrite <-!app_assoc. unfold spaced in IH. rewrite <-IH.
  by destruct l; simpl.
Qed.

Lemma print_line_snoc l i : print_line (l ++ [i]) = lit "    " ++ spaced l ++ print_item i ++ nl.
Proof. unfold print_line. by rewrite join_snoc, <-app_assoc. Qed.

Lemma print_lines_app ls ls' : print_lines (ls ++ ls') = print_lines ls ++ print_lines ls'.
Proof. unfold print_lines. by rewrite fmap_app, concat_app. Qed.

Lemma print_lines_fmap {A} (f : A -> Line) (g : A -> ustring) l :
  (forall a, g a = print_line (f a)) -> concat (g <$> l) = print_lines (f <$> l).
Proof.
  intros Hfg. unfold print_lines. f_equal. rewrite <-list_fmap_compose.
  apply list_fmap_ext. intros _ x _. apply Hfg.
Qed.

Lemma spaced_one i : spaced [i] = print_item i ++ lit " ".
Proof. apply app_nil_r. Qed.

Lemma spaced_cons i l : spaced (i :: l) = print_item i ++ lit " " ++ spaced l.
Proof. unfold spaced. rewrite fmap_cons. cbn [concat]. by rewrite <-app_assoc. Qed.

Lemma spaced_nil : spaced [] = [].
Proof. done. Qed.

Lemma spaced_opt {A} (f : A -> Item) o :
  spaced (opt_item f o) = match o with Some a => print_item (f a) ++ lit " " | None => [] end.
Proof. destruct o; [|done]. unfold spaced. simpl. by rewrite app_nil_r. Qed.

Lemma spaced_protocol p : spaced (protocol_items p) = append_protocol p.
Proof. by destruct p. Qed.

Lemma selectors_print rule d reverse :
  append_rule_selectors rule d reverse = spaced (selector_items rule d reverse).
Proof.
  unfold append_rule_selectors, selector_items.
  rewrite !spaced_app, !spaced_opt, spaced_protocol. f_equal; [by destruct reverse|].
  f_equal; [|f_equal; [|f_equal]].
  - destruct (interface (spec rule)), d; simpl; rewrite <-?app_assoc; done.
  - destruct (peer_network (spec rule)) as [[]|], d; simpl; rewrite <-?app_assoc; done.
  - destruct (port (spec rule)), (protocol (spec rule)), reverse; simpl;
      rewrite <-?app_assoc; done.
Qed.

Lemma print_line_two l i j :
  print_line (l ++ [i; j]) = lit "    " ++ spaced l ++ print_item i ++ lit " " ++ print_item j ++ nl.
Proof.
  change [i; j] with ([i] ++ [j]).
  by rewrite app_assoc, print_line_snoc, spaced_app, spaced_one, <-!app_assoc.
Qed.

Lemma verdict_print rule a :
  match a with
  | Accept => lit " accept" ++ nl
  | Drop => lit " drop" ++ nl
  | Reject =>
      if protocol (spec rule) ==? Tcp then lit " reject with tcp reset" ++ nl
      else lit " reject" ++ nl
  end = lit " " ++ print_item (Decide (verdict_of_action rule a)) ++ nl.
Proof. destruct a; try done. unfold verdict_of_action. by case_match. Qed.

Lemma rule_verdict_print rule d reverse counter a handoff connmark :
  append_rule_verdict rule d reverse counter a handoff connmark
  = print_line (rule_line rule d reverse counter a handoff connmark).
Proof.
  unfold append_rule_verdict, rule_line. rewrite !app_assoc, print_line_two, verdict_print.
  rewrite !spaced_app, <-selectors_print, <-!app_assoc. cbn [print_item]. rewrite <-!app_assoc.
  do 2 same_part.
  same_part_by ltac:(destruct (_ && handoff); [by rewrite spaced_one|done]).
  same_part_by ltac:(destruct (a ==? Reject); [|done]; rewrite spaced_one; cbn [print_item];
    by rewrite <-!app_assoc). done.
Qed.

Lemma direct_print s d actions counter :
  append_direct_rules s d actions counter = print_lines (direct_lines s d actions counter).
Proof. apply print_lines_fmap. intros. apply rule_verdict_print. Qed.

Lemma reverse_print s d counter :
  append_reverse_rules s d counter = print_lines (reverse_lines s d counter).
Proof. apply print_lines_fmap. intros. apply rule_verdict_print. Qed.

Lemma queues_print s actions :
  append_application_rule_queues s actions = print_lines (queue_lines s actions).
Proof.
  apply print_lines_fmap. intros rule. unfold queue_line.
  rewrite (app_assoc [MText _]), print_line_two, spaced_app, spaced_one, <-selectors_print.
  cbn [print_item print_verdict]. by rewrite <-!app_assoc.
Qed.

Lemma original_guard_print rule counter :
  append_original_guard rule counter = print_line (original_guard_line rule counter).
Proof.
  unfold append_original_guard, original_guard_line.
  rewrite !app_assoc, print_line_two, !spaced_app, !spaced_opt, spaced_protocol, <-!app_assoc.
  cbn [print_item print_verdict]. rewrite <-!app_assoc.
  same_part. same_part_by ltac:(by destruct (interface (spec rule)); rewrite <-?app_assoc).
  same_part.
  same_part_by ltac:(by destruct (peer_network (spec rule)) as [[]|]; rewrite <-?app_assoc).
  same_part_by ltac:(by destruct (port (spec rule)); rewrite <-?app_assoc). done.
Qed.

Lemma guards_print s counter actions :
  append_application_candidate_guard_drops s counter actions
  = print_lines (guard_lines s counter actions).
Proof.
  unfold append_application_candidate_guard_drops, guard_lines.
  induction (application_rules s actions) as [|rule l IH]; [done|].
  rewrite !fmap_cons. cbn [concat]. rewrite print_lines_app, <-IH. f_equal.
  unfold guard_lines_of, print_lines. rewrite fmap_cons. cbn [concat].
  rewrite print_line_two, <-selectors_print. cbn [print_item print_verdict].
  change (lit " drop") with (lit " " ++ lit "drop"). rewrite <-!app_assoc. do 7 same_part.
  case_match; [done|]. rewrite original_guard_print. symmetry. apply app_nil_r.
Qed.

Lemma reply_queues_print s :
  append_application_reply_queues s
  = print_lines (reply_queue_line <$> application_reply_candidates s).
Proof.
  apply print_lines_fmap. intros rule. unfold reply_queue_line.
  rewrite (app_assoc (selector_items _ _ _)), print_line_two, spaced_app, <-selectors_print, <-!app_assoc.
  do 2 same_part. destruct (protocol (spec rule)); done.
Qed.

Lemma accepts_print selectors counter :
  append_selector_accepts selectors counter
  = print_lines ((fun t => accept_line t counter) <$> selectors).
Proof.
  apply print_lines_fmap. intros t. unfold accept_line.
  change [MText t; Count counter; Decide VAccept] with ([MText t] ++ [Count counter; Decide VAccept]).
  rewrite print_line_two, spaced_one. cbn [print_item print_verdict]. by rewrite <-!app_assoc.
Qed.

Lemma connmark_match_print value :
  append_connmark_match value = lit " " ++ print_item (MConnmark value).
Proof. done. Qed.

Lemma marked_accept_print matches value d counter :
  print_line (marked_accept_line matches value d counter)
  = lit "    " ++ spaced matches ++ print_item (MConnmark value)
    ++ append_outbound_handoff d ++ lit " counter name " ++ counter ++ lit " accept" ++ nl.
Proof.
  unfold marked_accept_line, handoff_items, append_outbound_handoff.
  rewrite !app_assoc, print_line_two, !spaced_app, spaced_one, <-!app_assoc.
  cbn [print_item print_verdict]. rewrite <-!app_assoc. do 6 same_part.
  destruct (d ==? Outbound); [|done]. rewrite spaced_one. cbn [print_item].
  by rewrite <-!app_assoc.
Qed.

Lemma reject_reply_print d counter connmark :
  append_generated_reject_reply_accept d counter connmark
  = print_lines (reject_reply_lines d counter connmark).
Proof.
  apply print_lines_fmap. intros selector.
  rewrite marked_accept_print, spaced_one, connmark_match_print, <-!app_assoc. done.
Qed.

Lemma flow_print s d counter i :
  append_application_flow_accept s d counter i = print_lines (flow_lines s d counter i).
Proof.
  apply print_lines_fmap. intros p.
  rewrite marked_accept_print, connmark_match_print, spaced_cons, spaced_one, <-!app_assoc.
  by destruct d.
Qed.

Lemma loopback_print s d counter i :
  append_application_loopback_accept s d counter i = print_lines (loopback_lines s d counter i).
Proof.
  unfold append_application_loopback_accept, loopback_lines. case_match; [done|].
  apply print_lines_fmap. intros p.
  rewrite marked_accept_print, connmark_match_print, !spaced_cons, spaced_nil, app_nil_r,
    <-!app_assoc.
  by destruct d.
Qed.

Lemma reset_print : append_application_non_tcp_connmark_reset = print_lines reset_lines.
Proof. vm_compute. reflexivity. Qed.

Lemma learning_print : append_learning_queue = print_lines learning_lines.
Proof. vm_compute. reflexivity. Qed.

Lemma print_lines_if (b : bool) ls : print_lines (if b then ls else []) = if b then print_lines ls else [].
Proof. by destruct b. Qed.

Lemma print_lines_one l : print_lines [l] = print_line l.
Proof. apply app_nil_r. Qed.

Lemma entry_print s d :
  print_lines (entry_lines s d) =
  (if has_enabled_outbound_reject s
   then append_generated_reject_reply_accept d (accepted_counter d)
          (application_reject_connmark s.(snap_flow_generation)) else [])
  ++ (if d ==? Inbound then append_dhcp_bootstrap_accepts (accepted_counter d) else [])
  ++ (if (d ==? Inbound) || (s.(snap_mode) ==? Enforcing)
      then lit "    ct state invalid counter name " ++ dropped_counter d ++ lit " drop" ++ nl
      else [])
  ++ (if d ==? Inbound then append_ipv6_host_control_plane_accepts (accepted_counter d) else []).
Proof.
  unfold entry_lines, append_dhcp_bootstrap_accepts, append_ipv6_host_control_plane_accepts.
  rewrite !print_lines_app, !print_lines_if, reject_reply_print, !accepts_print, print_lines_one.
  same_part. same_part. same_part_by ltac:(case_match; [by destruct d|done]). done.
Qed.

Lemma established_print s d i :
  print_lines (established_lines s d i) =
  (if (d ==? Inbound) && (s.(snap_mode) ==? Learning)
   then lit "    iifname " ++ quoted (lit "lo") ++ lit " ct direction original counter name "
        ++ accepted_counter d ++ lit " accept" ++ nl
        ++ lit "    ct direction reply ct state established,related counter name "
        ++ accepted_counter d ++ lit " accept" ++ nl
   else [])
  ++ (if i !=? InterceptNone
      then append_application_loopback_accept s d (accepted_counter d) i
           ++ append_application_flow_accept s d (accepted_counter d) i
           ++ (if (d ==? Outbound) && (i ==? PerPacket)
               then append_application_non_tcp_connmark_reset else [])
      else [])
  ++ (if d ==? Outbound then append_reverse_rules s d (accepted_counter d) else []).
Proof.
  unfold established_lines.
  rewrite !print_lines_app, !print_lines_if, !print_lines_app, print_lines_if.
  rewrite loopback_print, flow_print, reset_print, reverse_print.
  same_part_by ltac:(destruct d; [case_match; vm_compute; reflexivity|reflexivity]).
  done.
Qed.

Lemma rules_print s d :
  print_lines (rule_lines s d) =
  if (d ==? Outbound) && (s.(snap_mode) ==? Enforcing)
  then append_application_rule_queues s [Drop; Reject; Accept]
       ++ append_application_candidate_guard_drops s (dropped_counter d) [Drop; Reject; Accept]
       ++ append_direct_rules s d [Accept] (accepted_counter d)
  else if (d ==? Outbound) && (s.(snap_mode) ==? Learning)
  then append_application_rule_queues s [Drop; Reject]
       ++ append_application_candidate_guard_drops s (dropped_counter d) [Drop; Reject]
  else append_direct_rules s d [Accept] (accepted_counter d).
Proof.
  unfold rule_lines. rewrite !queues_print, !guards_print, !direct_print.
  repeat case_match; by rewrite ?print_lines_app.
Qed.

Lemma final_print s d i :
  print_lines (final_lines s d i) =
  (if d ==? Inbound
   then append_reverse_rules s d (accepted_counter d)
        ++ (if (s.(snap_mode) ==? Enforcing) && (i ==? PerPacket)
            then append_application_reply_queues s else [])
   else [])
  ++ (if (i !=? InterceptNone) && (d ==? Outbound) && (s.(snap_mode) ==? Learning)
      then append_learning_queue ++ lit "    counter name " ++ accepted_counter d
           ++ lit " accept" ++ nl
      else []).
Proof.
  unfold final_lines.
  rewrite !print_lines_app, !print_lines_if, !print_lines_app, print_lines_if, print_lines_one.
  rewrite reverse_print, reply_queues_print, learning_print. same_part. by destruct d.
Qed.

Lemma chain_print s d i :
  append_chain s d i
  = print_chain (chain_name d) (chain_name d) (lit "filter") (lit "drop") (chain_lines s d i).
Proof.
  unfold append_chain, print_chain, chain_lines, append_chain_policy.
  rewrite print_lines_app, print_lines_if, !print_lines_app, print_lines_one.
  rewrite entry_print, established_print, rules_print, final_print.
  unfold deny_lines. rewrite print_lines_if, <-direct_print, <-!app_assoc.
  do 5 same_part.
  change (lit " priority filter; policy drop;" ++ nl) with
    (lit " priority " ++ lit "filter" ++ lit "; policy " ++ lit "drop" ++ lit ";" ++ nl).
  destruct (snap_mode s !=? BlockAll); rewrite <-?app_assoc.
  - by destruct d.
  - by destruct d.
Qed.

Lemma reject_domain_print selector connmark how v :
  how = lit " " ++ print_verdict v ->
  append_reject_domain_rule (spaced selector) connmark how
  = print_line (selector ++ [MPacketDomain APPLICATION_REJECT_DOMAIN; SetConnmark connmark]
                ++ [Count COUNTER_DROPPED_OUT; Decide v]).
Proof.
  intros ->. rewrite app_assoc, print_line_two, spaced_app, !spaced_cons, spaced_nil, app_nil_r.
  unfold append_reject_domain_rule. cbn [print_item]. rewrite <-!app_assoc. done.
Qed.

Lemma authorize_header ls :
  print_chain (lit "output_authorize") (lit "output") (lit "1") (lit "drop") ls
  = lit "  chain output_authorize {" ++ nl
    ++ lit "    type filter hook output priority 1; policy drop;" ++ nl
    ++ print_lines ls ++ lit "  }" ++ nl.
Proof. reflexivity. Qed.

(** The three kinds of lines of the authorization chain. *)
Definition reject_lines (connmark : Z) : list Line :=
  [[MText (lit "meta l4proto tcp"); MPacketDomain APPLICATION_REJECT_DOMAIN;
    SetConnmark connmark; Count COUNTER_DROPPED_OUT; Decide VRejectTcpReset];
   [MPacketDomain APPLICATION_REJECT_DOMAIN; SetConnmark connmark;
    Count COUNTER_DROPPED_OUT; Decide VReject]].

Definition pending_line (learning : bool) (flow : Z) (p : ustring) : Line :=
  [MText p; MPacketDomain APPLICATION_PENDING_DOMAIN; SetConnmark flow; StripPacketMark]
  ++ (if learning then [Count COUNTER_LEARNED_OUT] else [])
  ++ [Count COUNTER_ACCEPTED_OUT; Decide VAccept].

Lemma reject_lines_print connmark :
  print_lines (reject_lines connmark)
  = append_reject_domain_rule (lit "meta l4proto tcp ") connmark (lit " reject with tcp reset")
    ++ append_reject_domain_rule [] connmark (lit " reject").
Proof.
  change (lit "meta l4proto tcp ") with (spaced [MText (lit "meta l4proto tcp")]).
  rewrite (reject_domain_print [MText _] connmark _ VRejectTcpReset) by done.
  rewrite <-spaced_nil, (reject_domain_print [] connmark _ VReject) by done.
  unfold reject_lines, print_lines. rewrite !fmap_cons. cbn [concat fmap list_fmap].
  by rewrite app_nil_r.
Qed.

Lemma pending_line_print (learning : bool) (flow : Z) (p : ustring) :
  lit "    " ++ p ++ lit " meta mark & 0x"
  ++ append_hex_u32 APPLICATION_MARK_DOMAIN_MASK ++ lit " == 0x"
  ++ append_hex_u32 APPLICATION_PENDING_DOMAIN
  ++ lit " ct mark set (ct mark & 0x"
  ++ append_hex_u32 APPLICATION_CONNMARK_FOREIGN_MASK ++ lit ") | 0x"
  ++ append_hex_u32 flow ++ lit " meta mark set meta mark & 0x"
  ++ append_hex_u32 APPLICATION_MARK_PAYLOAD_MASK
  ++ (if learning then lit " counter name " ++ COUNTER_LEARNED_OUT else [])
  ++ lit " counter name " ++ COUNTER_ACCEPTED_OUT ++ lit " accept" ++ nl
  = print_line (pending_line learning flow p).
Proof.
  unfold pending_line. rewrite (app_assoc [MText p; _; _; _]), print_line_two, spaced_app, !spaced_cons, spaced_nil.
  cbn [print_item print_verdict]. rewrite app_nil_r, <-!app_assoc. by destruct learning.
Qed.

Lemma authorize_print s i :
  append_application_authorization_chain s i
  = print_chain (lit "output_authorize") (lit "output") (lit "1") (lit "drop")
      (authorize_lines s i).
Proof.
  rewrite authorize_header. unfold append_application_authorization_chain, authorize_lines.
  rewrite !print_lines_app, !print_lines_if, print_lines_app, !print_lines_one, <-?app_assoc.
  do 4 same_part.
  change (print_lines [[MText _; _; _; _; _]; _])
    with (print_lines (reject_lines (application_reject_connmark (snap_flow_generation s)))).
  rewrite reject_lines_print, <-!app_assoc.
  erewrite (print_lines_fmap
    (pending_line (snap_mode s ==? Learning) (application_flow_mark (snap_flow_generation s))))
    by (intros; apply pending_line_print).
  same_part. by repeat case_match.
Qed.

(** After validation, [compile] returns the printed script. *)
Lemma compile_text s :
  compile s = (_ ← map_err InvalidState (Snapshot_validate s);
               Ok (print_script s (Snapshot_application_interception s))).
Proof.
  unfold compile, print_script. destruct (Snapshot_validate s) as [[]|e]; [|done].
  cbn [map_err mbind Result_bind].
  unfold mret, Result_ret. f_equal. rewrite !chain_print, authorize_print.
  do 8 same_part. same_part_by ltac:(vm_compute; reflexivity). do 2 same_part.
  by destruct (snap_mode s).
Qed.

(** C12: the text that the compiler produces is the printed form of typed
    lines: five chains whose lines are determined by the rules, the mode, the
    flow generation and the interception class.  Every property of those lines
    is a property of the installed script. *)
Theorem compile_prints_lines s :
  Snapshot_validate s = Ok tt ->
  compile s = Ok (print_script s (Snapshot_application_interception s)).
Proof. intros Hv. by rewrite compile_text, Hv. Qed.
End Script.

Definition sample_snapshot : Snapshot :=
  mkSnapshot 4 2 Enforcing
    [sample_application_rule;
     mkRule 8 (mkRuleSpec (mkRuleName (lit "no telnet")) Outbound Drop Tcp None
       (Some (mkPortRange 23 23)) None None Manual true) 10 10;
     mkRule 9 (mkRuleSpec (mkRuleName (lit "lan")) Outbound Accept Any
       (Some (NetV4 3232235776 24)) None (Some (mkInterfaceName (lit "eth0"))) None
       Manual true) 10 10].

Lemma compile_prints_lines_witness :
  compile sample_snapshot
  = Ok (print_script sample_snapshot (Snapshot_application_interception sample_snapshot)).
Proof. apply (compile_prints_lines sample_snapshot). vm_compute. reflexivity. Defined.
