(* ===== verification/NftPolicy.v ===== *)
(** * What the nftables policy enforces

    Order, fail-closed verdicts and marks of the compiled chains, read with
    [first_verdict], and the alphabet of the rendered lines. *)

From S2P Require Import Prelude Text Net Application Model State StateFacts Marks Nftables.
From S2P Require Import NftScript.
Local Open Scope Z_scope.

(** ** Reading a chain *)

Definition is_match (i : Item) : bool :=
  match i with
  | MText _ | MInterface _ _ | MNetwork _ _ | MOriginalNetwork _ | MProtocol _ | MPort _ _ _
  | MOriginalPort _ | MPacketDomain _ | MPacketDomainNot _ | MConnmark _ => true
  | _ => false
  end.

(** The verdict that ends a line, if it has one. *)
Definition line_verdict (l : list Item) : option Verdict :=
  match last l with Some (Decide v) => Some v | _ => None end.

Section Reading.
(** Whether a match holds for the packet at hand. *)
Variable holds : Item -> bool.

Definition applies (l : list Item) : bool := forallb (fun i => negb (is_match i) || holds i) l.

Fixpoint first_verdict (ls : list (list Item)) : option Verdict :=
  match ls with
  | [] => None
  | l :: rest =>
      match line_verdict l with
      | Some v => if applies l then Some v else first_verdict rest
      | None => first_verdict rest
      end
  end.

Lemma applies_app l l' : applies (l ++ l') = applies l && applies l'.
Proof. apply forallb_app. Qed.

Lemma first_verdict_app ls ls' :
  first_verdict (ls ++ ls') =
  match first_verdict ls with Some v => Some v | None => first_verdict ls' end.
Proof.
  induction ls as [|l ls IH]; [done|]. simpl. rewrite IH.
  destruct (line_verdict l); [|done]. by destruct (applies l).
Qed.

(** The verdict comes from a line of the chain. *)
Lemma first_verdict_Some ls v :
  first_verdict ls = Some v -> exists l, l ∈ ls /\ line_verdict l = Some v /\ applies l = true.
Proof.
  induction ls as [|l ls IH]; [done|]. simpl. intros Hv.
  destruct (line_verdict l) as [v'|] eqn:Hl.
  - destruct (applies l) eqn:Ha.
    + simplify_eq. exists l. split; [left|done].
    + destruct (IH Hv) as (l' & ? & ?). exists l'. split; [by right|done].
  - destruct (IH Hv) as (l' & ? & ?). exists l'. split; [by right|done].
Qed.

(** A line that applies gives the chain a verdict, its own or an earlier one. *)
Lemma first_verdict_applies ls l v :
  l ∈ ls -> line_verdict l = Some v -> applies l = true -> is_Some (first_verdict ls).
Proof.
  induction ls as [|l' ls IH]; [by intros ?%not_elem_of_nil|]. intros Hin Hv Ha. simpl.
  apply elem_of_cons in Hin as [->|Hin]; [rewrite Hv, Ha; eauto|].
  destruct (line_verdict l'); [|by apply IH]. destruct (applies l'); eauto.
Qed.

Lemma applies_false l i : i ∈ l -> is_match i = true -> holds i = false -> applies l = false.
Proof.
  intros Hi Hm Hh. apply not_true_is_false. unfold applies. rewrite forallb_forall.
  intros Hall. specialize (Hall i). rewrite Hm, Hh in Hall. apply list_elem_of_In in Hi.
  by specialize (Hall Hi).
Qed.

(** When every line that applies says [v], the chain says [v] or nothing. *)
Lemma first_verdict_only ls v :
  Forall (fun l => applies l = true -> line_verdict l = Some v) ls ->
  first_verdict ls = None \/ first_verdict ls = Some v.
Proof.
  intros Hls. destruct (first_verdict ls) as [v'|] eqn:Hv; [right|by left].
  apply first_verdict_Some in Hv as (l & Hl & Hlv & Ha). rewrite Forall_forall in Hls.
  by rewrite <-Hlv, (Hls l Hl Ha).
Qed.

Lemma first_verdict_none ls :
  Forall (fun l => applies l = false) ls -> first_verdict ls = None.
Proof.
  intros Hls. destruct (first_verdict ls) as [v|] eqn:Hv; [|done].
  apply first_verdict_Some in Hv as (l & Hl & _ & Ha). rewrite Forall_forall in Hls.
  specialize (Hls l Hl). congruence.
Qed.
End Reading.

Lemma line_verdict_decide l v : line_verdict (l ++ [Decide v]) = Some v.
Proof. unfold line_verdict. by rewrite last_snoc. Qed.

Lemma line_verdict_two l i v : line_verdict (l ++ [i; Decide v]) = Some v.
Proof. change [i; Decide v] with ([i] ++ [Decide v]). rewrite app_assoc. apply line_verdict_decide. Qed.

Lemma rule_line_verdict rule d reverse counter a handoff connmark :
  line_verdict (rule_line rule d reverse counter a handoff connmark)
  = Some (verdict_of_action rule a).
Proof. unfold rule_line. rewrite !app_assoc. apply line_verdict_two. Qed.

(** Marks, counters and verdicts do not restrict a line. *)
Lemma applies_no_match holds l : forallb (fun i => negb (is_match i)) l = true -> applies holds l = true.
Proof.
  intros Hl. apply forallb_forall. intros i Hi. rewrite forallb_forall in Hl.
  by rewrite (Hl i Hi).
Qed.

Lemma applies_rule_line holds rule d reverse counter a handoff connmark :
  applies holds (rule_line rule d reverse counter a handoff connmark)
  = applies holds (selector_items rule d reverse).
Proof.
  unfold rule_line. rewrite applies_app. rewrite (applies_no_match holds (_ ++ _ ++ _)).
  - apply andb_true_r.
  - rewrite !forallb_app. by destruct (_ && handoff), (a ==? Reject).
Qed.

(** ** Membership of rules in their groups *)

Lemma elem_of_direct_rules s d actions r :
  r ∈ direct_rules s d actions <->
  r ∈ snap_rules s /\ enabled (spec r) = true /\ direction (spec r) = d
  /\ application (spec r) = None /\ contains_action actions (action (spec r)) = true.
Proof.
  unfold direct_rules. rewrite merge_sort_Permutation, elem_of_filter_bool.
  rewrite !andb_true_iff, eqb_true, is_none_true. naive_solver.
Qed.

Lemma elem_of_application_rules s actions r :
  r ∈ application_rules s actions <->
  r ∈ snap_rules s /\ enabled (spec r) = true /\ direction (spec r) = Outbound
  /\ is_some (application (spec r)) = true /\ contains_action actions (action (spec r)) = true.
Proof.
  unfold application_rules. rewrite merge_sort_Permutation, elem_of_filter_bool.
  rewrite !andb_true_iff, eqb_true. naive_solver.
Qed.

Lemma elem_of_reverse_rules s d r :
  r ∈ reverse_rules s d <->
  r ∈ snap_rules s /\ enabled (spec r) = true /\ direction (spec r) <> d
  /\ application (spec r) = None /\ action (spec r) = Accept.
Proof.
  unfold reverse_rules. rewrite merge_sort_Permutation, elem_of_filter_bool.
  rewrite !andb_true_iff, negb_true_iff, eqb_false, eqb_true, is_none_true. naive_solver.
Qed.

(** ** Blocking everything *)

(** In [BlockAll] the compiled script does not depend on the rules, the
    flow generation or anything else of the state, and all three hooks drop
    every packet whatever matches hold. *)
Theorem block_all_is_unconditional `{IpNetLib} s s' :
  Snapshot_validate s = Ok tt -> Snapshot_validate s' = Ok tt ->
  snap_mode s = BlockAll -> snap_mode s' = BlockAll ->
  compile s = compile s'
  /\ forall holds,
     first_verdict holds (chain_lines s Inbound (Snapshot_application_interception s)) = Some VDrop
     /\ first_verdict holds (chain_lines s Outbound (Snapshot_application_interception s))
        = Some VDrop
     /\ first_verdict holds (forward_lines (snap_mode s)) = Some VDrop.
Proof.
  intros Hv Hv' Hm Hm'. split.
  - unfold compile, Snapshot_application_interception, append_chain,
      append_application_authorization_chain. by rewrite Hv, Hv', Hm, Hm'.
  - intros holds. unfold chain_lines, forward_lines. by rewrite Hm.
Qed.

Lemma block_all_is_unconditional_witness :
  compile (mkSnapshot 1 5 BlockAll (snap_rules sample_snapshot)) = compile (mkSnapshot 9 1 BlockAll []).
Proof.
  apply (block_all_is_unconditional (mkSnapshot 1 5 BlockAll (snap_rules sample_snapshot))
    (mkSnapshot 9 1 BlockAll [])); vm_compute; reflexivity.
Defined.

(** ** Denials come first *)

Definition is_denial (v : Verdict) : bool :=
  match v with VDrop | VReject | VRejectTcpReset => true | _ => false end.

(** The replies to connections that OpenShield itself rejected. *)
Definition reject_replies (s : Snapshot) (d : Direction) : list (list Item) :=
  if has_enabled_outbound_reject s
  then reject_reply_lines d (accepted_counter d)
         (application_reject_connmark (snap_flow_generation s)) else [].

Definition invalid_line (s : Snapshot) : list (list Item) :=
  if snap_mode s ==? Enforcing
  then [[MText (lit "ct state invalid"); Count COUNTER_DROPPED_OUT; Decide VDrop]] else [].

Lemma output_phases s i :
  snap_mode s <> BlockAll ->
  chain_lines s Outbound i =
  reject_replies s Outbound ++ invalid_line s ++ deny_lines s Outbound
  ++ established_lines s Outbound i ++ rule_lines s Outbound ++ final_lines s Outbound i
  ++ [[Count COUNTER_DROPPED_OUT; Decide VDrop]].
Proof.
  intros Hm. unfold chain_lines, entry_lines, reject_replies, invalid_line.
  rewrite (proj2 (eqb_false _ _) Hm). cbn [negb]. rewrite <-!app_assoc. done.
Qed.

Lemma deny_lines_denials s l v : l ∈ deny_lines s Outbound -> line_verdict l = Some v -> is_denial v = true.
Proof.
  change (deny_lines s Outbound) with (direct_lines s Outbound [Drop; Reject] COUNTER_DROPPED_OUT).
  unfold direct_lines. rewrite list_elem_of_fmap. intros (r & -> & Hr).
  rewrite rule_line_verdict. intros [= <-].
  apply elem_of_direct_rules in Hr as (_ & _ & _ & _ & Ha).
  destruct (action (spec r)); simpl; [done|done|by case_match].
Qed.

Lemma deny_line_of_rule s r :
  r ∈ snap_rules s -> enabled (spec r) = true -> direction (spec r) = Outbound ->
  application (spec r) = None -> action (spec r) <> Accept ->
  exists l v, l ∈ deny_lines s Outbound /\ line_verdict l = Some v
  /\ forall holds, applies holds l = applies holds (selector_items r Outbound false).
Proof.
  intros Hin He Hd Ha Hac.
  exists (rule_line r Outbound false (dropped_counter Outbound) (action (spec r))
    (snap_mode s !=? Learning) (application_reject_connmark (snap_flow_generation s))).
  exists (verdict_of_action r (action (spec r))). split_and!.
  - change (deny_lines s Outbound) with (direct_lines s Outbound [Drop; Reject] COUNTER_DROPPED_OUT).
    unfold direct_lines. apply list_elem_of_fmap. exists r. split; [done|].
    apply elem_of_direct_rules. split_and!; try done. by destruct (action (spec r)).
  - apply rule_line_verdict.
  - intros holds. apply applies_rule_line.
Qed.

(** Network denials win.  Outside [BlockAll], when all selectors of an
    enabled outbound drop or reject rule without an application hold for a
    packet, the output chain denies it whatever else holds: no accept rule, no
    established application flow and no queue is considered before.  The only
    packets let through earlier are the resets and errors that answer a
    connection rejected in the current generation. *)
Theorem network_denials_win s i holds r :
  snap_mode s <> BlockAll ->
  r ∈ snap_rules s -> enabled (spec r) = true -> direction (spec r) = Outbound ->
  application (spec r) = None -> action (spec r) <> Accept ->
  applies holds (selector_items r Outbound false) = true ->
  first_verdict holds (reject_replies s Outbound) = None ->
  exists v, first_verdict holds (chain_lines s Outbound i) = Some v /\ is_denial v = true.
Proof.
  intros Hm Hin He Hd Ha Hac Hsel Hrep.
  destruct (deny_line_of_rule s r Hin He Hd Ha Hac) as (l & v & Hl & Hv & Happ).
  rewrite output_phases, !first_verdict_app, Hrep by done.
  destruct (first_verdict holds (invalid_line s)) as [v'|] eqn:Hinv.
  { exists v'. split; [done|]. apply first_verdict_Some in Hinv as (l' & Hl' & Hv' & _).
    unfold invalid_line in Hl'. destruct (_ ==? Enforcing); [|by apply not_elem_of_nil in Hl'].
    apply list_elem_of_singleton in Hl' as ->. by injection Hv' as <-. }
  destruct (first_verdict_applies holds (deny_lines s Outbound) l v) as [v' Hv'];
    [done|done|by rewrite Happ|].
  rewrite Hv'. exists v'. split; [done|].
  apply first_verdict_Some in Hv' as (l' & Hl' & Hlv & _). by eapply deny_lines_denials.
Qed.

Definition sample_deny_rule : Rule :=
  mkRule 8 (mkRuleSpec (mkRuleName (lit "no telnet")) Outbound Drop Tcp None
    (Some (mkPortRange 23 23)) None None Manual true) 10 10.

Lemma network_denials_win_witness :
  exists v, first_verdict (fun _ => true) (chain_lines sample_snapshot Outbound TcpInitial) = Some v
  /\ is_denial v = true.
Proof.
  apply (network_denials_win sample_snapshot TcpInitial (fun _ => true) sample_deny_rule);
    try (vm_compute; reflexivity); try discriminate.
  right. left.
Defined.

(** ** Application rules are decided in userspace *)

(** Everything of the output chain before the application queues. *)
Definition before_queues (s : Snapshot) (i : ApplicationInterception) : list (list Item) :=
  reject_replies s Outbound ++ invalid_line s ++ deny_lines s Outbound
  ++ established_lines s Outbound i.

Lemma output_split s i :
  snap_mode s <> BlockAll ->
  chain_lines s Outbound i =
  before_queues s i ++ rule_lines s Outbound ++ final_lines s Outbound i
  ++ [[Count COUNTER_DROPPED_OUT; Decide VDrop]].
Proof. intros Hm. rewrite output_phases by done. unfold before_queues. by rewrite <-!app_assoc. Qed.

Lemma rule_lines_enforcing s :
  snap_mode s = Enforcing ->
  rule_lines s Outbound =
  queue_lines s [Drop; Reject; Accept]
  ++ guard_lines s COUNTER_DROPPED_OUT [Drop; Reject; Accept]
  ++ direct_lines s Outbound [Accept] COUNTER_ACCEPTED_OUT.
Proof. intros Hm. unfold rule_lines. by rewrite Hm. Qed.

Lemma queue_lines_verdict s actions l v :
  l ∈ queue_lines s actions -> line_verdict l = Some v -> v = VQueue APPLICATION_QUEUE_NUMBER.
Proof.
  unfold queue_lines. rewrite list_elem_of_fmap. intros (r & -> & _).
  unfold queue_line. rewrite app_assoc, line_verdict_two. naive_solver.
Qed.

Lemma guard_lines_verdict s counter actions l v :
  l ∈ guard_lines s counter actions -> line_verdict l = Some v -> v = VDrop.
Proof.
  unfold guard_lines. rewrite list_elem_of_In, in_concat. intros (ls & Hls & Hl).
  apply in_map_iff in Hls as (r & <- & _). unfold guard_lines_of in Hl.
  destruct Hl as [<-|Hl]; [rewrite line_verdict_two; naive_solver|].
  case_match; [by apply in_nil in Hl|]. destruct Hl as [<-|[]].
  unfold original_guard_line. rewrite !app_assoc, line_verdict_two. naive_solver.
Qed.

Lemma guard_line_of_rule s counter actions r :
  r ∈ application_rules s actions ->
  selector_items r Outbound false ++ [Count counter; Decide VDrop] ∈ guard_lines s counter actions.
Proof.
  intros Hr. unfold guard_lines. rewrite list_elem_of_In, in_concat.
  exists (guard_lines_of counter r). split; [|by left].
  apply in_map, list_elem_of_In, Hr.
Qed.

(** Under enforcement a packet inside the network envelope of an enabled
    application rule is never accepted by a network rule: unless an earlier
    part of the chain decided it, the output chain queues it to the daemon or
    drops it. *)
Theorem application_rules_are_not_bypassed s i holds r :
  snap_mode s = Enforcing ->
  r ∈ snap_rules s -> enabled (spec r) = true -> direction (spec r) = Outbound ->
  is_some (application (spec r)) = true ->
  applies holds (selector_items r Outbound false) = true ->
  first_verdict holds (before_queues s i) = None ->
  exists v, first_verdict holds (chain_lines s Outbound i) = Some v
  /\ (v = VQueue APPLICATION_QUEUE_NUMBER \/ v = VDrop).
Proof.
  intros Hm Hin He Hd Ha Hsel Hbefore.
  assert (Hmem : r ∈ application_rules s [Drop; Reject; Accept]).
  { apply elem_of_application_rules. split_and!; try done. by destruct (action (spec r)). }
  rewrite output_split, first_verdict_app, Hbefore, rule_lines_enforcing by congruence.
  rewrite <-!app_assoc, first_verdict_app.
  destruct (first_verdict holds (queue_lines _ _)) as [v|] eqn:Hq.
  { exists v. split; [done|]. left. apply first_verdict_Some in Hq as (l & Hl & Hv & _).
    by eapply queue_lines_verdict. }
  rewrite first_verdict_app.
  destruct (first_verdict_applies holds (guard_lines s COUNTER_DROPPED_OUT [Drop; Reject; Accept])
    _ VDrop (guard_line_of_rule s COUNTER_DROPPED_OUT _ r Hmem)) as [v Hv];
    [apply line_verdict_two|by rewrite applies_app, Hsel|].
  rewrite Hv. exists v. split; [done|]. right.
  apply first_verdict_Some in Hv as (l & Hl & Hlv & _). by eapply guard_lines_verdict.
Qed.

Lemma application_rules_are_not_bypassed_witness :
  exists v, first_verdict (fun i => bool_decide (i <> MPort Tcp false (mkPortRange 23 23))
      && negb match i with MConnmark _ | MText _ => true | _ => false end)
    (chain_lines sample_snapshot Outbound TcpInitial) = Some v
  /\ (v = VQueue APPLICATION_QUEUE_NUMBER \/ v = VDrop).
Proof.
  apply (application_rules_are_not_bypassed sample_snapshot TcpInitial _ sample_application_rule);
    try (vm_compute; reflexivity).
  left.
Defined.

(** ** Accepted packets are accounted for *)

(** Why the output chain may accept a packet. *)
Inductive justified (s : Snapshot) (l : list Item) : Prop :=
| justified_generation :
    MConnmark (application_flow_mark (snap_flow_generation s)) ∈ l -> justified s l
| justified_reject_reply :
    MConnmark (application_reject_connmark (snap_flow_generation s)) ∈ l -> justified s l
| justified_rule r (reverse : bool) :
    r ∈ snap_rules s -> enabled (spec r) = true -> application (spec r) = None ->
    action (spec r) = Accept ->
    direction (spec r) = (if reverse then Inbound else Outbound) ->
    selector_items r Outbound reverse ⊆ l -> justified s l.

(** What an accepting line of the output chain has under enforcement. *)
Definition accounted (s : Snapshot) (l : list Item) : Prop :=
  forall v, line_verdict l = Some v ->
  (forall n, v <> VQueueBypass n)
  /\ (v = VAccept -> SetPacketDomain APPLICATION_HANDOFF_DOMAIN ∈ l /\ justified s l).

Lemma accounted_denial s l v : line_verdict l = Some v -> v <> VAccept ->
  (forall n, v <> VQueueBypass n) -> accounted s l.
Proof. intros Hl Hv Hb v' Hl'. simplify_eq. naive_solver. Qed.

Lemma accounted_marked s matches value counter :
  value = application_flow_mark (snap_flow_generation s)
  \/ value = application_reject_connmark (snap_flow_generation s) ->
  accounted s (marked_accept_line matches value Outbound counter).
Proof.
  intros Hval v Hv. unfold marked_accept_line in *.
  rewrite !app_assoc, line_verdict_two in Hv. simplify_eq. split; [done|]. intros _.
  change (handoff_items Outbound) with [SetPacketDomain APPLICATION_HANDOFF_DOMAIN].
  split; [set_solver|]. destruct Hval as [->| ->].
  - apply justified_generation. set_solver.
  - apply justified_reject_reply. set_solver.
Qed.

Lemma accounted_rule s r (reverse : bool) counter connmark :
  r ∈ snap_rules s -> enabled (spec r) = true -> application (spec r) = None ->
  action (spec r) = Accept -> direction (spec r) = (if reverse then Inbound else Outbound) ->
  accounted s (rule_line r Outbound reverse counter Accept true connmark).
Proof.
  intros Hr He Ha Hac Hd v Hv. rewrite rule_line_verdict in Hv. simplify_eq/=.
  split; [done|]. intros _. split.
  - unfold rule_line. simpl. set_solver.
  - eapply justified_rule; [done..|]. unfold rule_line. set_solver.
Qed.

Lemma accounted_no_verdict s l : line_verdict l = None -> accounted s l.
Proof. intros Hl v Hv. congruence. Qed.

Lemma before_queues_accounted s i :
  snap_mode s = Enforcing -> Forall (accounted s) (before_queues s i).
Proof.
  intros Hm. unfold before_queues, reject_replies, invalid_line, established_lines.
  rewrite !Forall_app. split_and!.
  - case_match; [|constructor]. unfold reject_reply_lines. apply Forall_fmap, Forall_true.
    intros t. apply accounted_marked. by right.
  - rewrite Hm. constructor; [|constructor]. by eapply accounted_denial.
  - apply Forall_forall. intros l Hl v Hv. pose proof (deny_lines_denials s l v Hl Hv).
    by destruct v.
  - constructor.
  - case_match; [|constructor]. rewrite !Forall_app. split_and!.
    + unfold loopback_lines. rewrite Hm. simpl. apply Forall_fmap, Forall_true.
      intros p. apply accounted_marked. by left.
    + unfold flow_lines. apply Forall_fmap, Forall_true. intros p. apply accounted_marked. by left.
    + case_match; [|constructor]. unfold reset_lines. apply Forall_fmap, Forall_true.
      intros p. by apply accounted_no_verdict.
  - simpl. unfold reverse_lines. rewrite Hm. apply Forall_fmap, Forall_forall.
    intros r (Hr & He & Hd & Ha & Hac)%elem_of_reverse_rules. simpl.
    apply accounted_rule; try done. by destruct (direction (spec r)).
Qed.

Lemma rule_lines_accounted s :
  snap_mode s = Enforcing -> Forall (accounted s) (rule_lines s Outbound).
Proof.
  intros Hm. rewrite rule_lines_enforcing by done. rewrite !Forall_app. split_and!.
  - apply Forall_forall. intros l Hl v Hv. by rewrite (queue_lines_verdict _ _ _ _ Hl Hv).
  - apply Forall_forall. intros l Hl v Hv. by rewrite (guard_lines_verdict _ _ _ _ _ Hl Hv).
  - unfold direct_lines. rewrite Hm. apply Forall_fmap, Forall_forall.
    intros r (Hr & He & Hd & Ha & Hac)%elem_of_direct_rules. simpl.
    assert (action (spec r) = Accept) as E.
    { unfold contains_action in Hac. simpl in Hac. rewrite orb_false_r, eqb_true in Hac. done. }
    rewrite E. by apply accounted_rule.
Qed.

(** C11: under enforcement the output chain accepts a packet only through a
    line that hands it over to the authorization chain with the private mark,
    and only because the connection carries the mark of the current flow
    generation, or because an enabled accept rule without an application (or,
    for replies, an inbound one) selects it; no queue has a bypass, so an
    absent daemon never turns a queue into an accept. *)
Theorem enforced_accepts_are_justified s i holds v :
  snap_mode s = Enforcing ->
  first_verdict holds (chain_lines s Outbound i) = Some v ->
  (forall n, v <> VQueueBypass n)
  /\ (v = VAccept ->
      exists l, l ∈ chain_lines s Outbound i /\ applies holds l = true
      /\ SetPacketDomain APPLICATION_HANDOFF_DOMAIN ∈ l /\ justified s l).
Proof.
  intros Hm (l & Hl & Hv & Ha)%first_verdict_Some.
  assert (Hacc : Forall (accounted s) (chain_lines s Outbound i)).
  { rewrite output_split by congruence. rewrite !Forall_app. split_and!.
    - by apply before_queues_accounted.
    - by apply rule_lines_accounted.
    - unfold final_lines. rewrite Hm. simpl. rewrite andb_false_r. constructor.
    - constructor; [|constructor]. by eapply accounted_denial. }
  rewrite Forall_forall in Hacc. destruct (Hacc l Hl v Hv) as [Hb Hj].
  split; [done|]. intros Hva. destruct (Hj Hva). eauto.
Qed.

Lemma enforced_accepts_are_justified_witness :
  exists l, l ∈ chain_lines sample_snapshot Outbound TcpInitial
  /\ SetPacketDomain APPLICATION_HANDOFF_DOMAIN ∈ l /\ justified sample_snapshot l.
Proof.
  destruct (proj2 (enforced_accepts_are_justified sample_snapshot TcpInitial
    (fun i => match i with MInterface _ _ | MNetwork _ _ => true | _ => false end) VAccept
    eq_refl ltac:(vm_compute; reflexivity)) eq_refl) as (l & Hl & _ & Hh & Hj).
  exists l. split; [exact Hl|]. split; [exact Hh|exact Hj].
Defined.

(** ** The authorization chain *)

(** The lines for packets that the daemon decided. *)
Definition decided_lines (s : Snapshot) (i : ApplicationInterception) : list (list Item) :=
  if i !=? InterceptNone
  then reject_lines (application_reject_connmark (snap_flow_generation s))
       ++ (pending_line (snap_mode s ==? Learning) (application_flow_mark (snap_flow_generation s))
           <$> intercepted_protocols i)
  else [].

Lemma authorize_split s i :
  authorize_lines s i = decided_lines s i
  ++ (if snap_mode s !=? BlockAll
      then [[MPacketDomain APPLICATION_HANDOFF_DOMAIN; StripPacketMark; Decide VAccept]] else [])
  ++ (if snap_mode s ==? Learning then [[Count COUNTER_ACCEPTED_OUT; Decide VAccept]] else [])
  ++ [[Count COUNTER_DROPPED_OUT; Decide VDrop]].
Proof. done. Qed.

Lemma pending_line_verdict learning flow p : line_verdict (pending_line learning flow p) = Some VAccept.
Proof. unfold pending_line. rewrite app_assoc. apply line_verdict_two. Qed.

(** Every decided line looks at one private domain. *)
Lemma decided_lines_domain s i l :
  l ∈ decided_lines s i ->
  (MPacketDomain APPLICATION_REJECT_DOMAIN ∈ l /\ line_verdict l <> Some VAccept)
  \/ (MPacketDomain APPLICATION_PENDING_DOMAIN ∈ l /\ line_verdict l = Some VAccept).
Proof.
  unfold decided_lines. case_match; [|by intros ?%not_elem_of_nil].
  rewrite elem_of_app. intros [Hl|Hl].
  - left. unfold reject_lines in Hl.
    apply elem_of_cons in Hl as [->|Hl]; [split; [set_solver|done]|].
    apply list_elem_of_singleton in Hl as ->. split; [set_solver|done].
  - right. apply list_elem_of_fmap in Hl as (p & -> & _). split; [|apply pending_line_verdict].
    unfold pending_line. set_solver.
Qed.

(** The second output chain accepts nothing on its own under enforcement:
    each accepting line requires one of the private packet-mark domains that
    the sanitizing chain strips from every packet beforehand, and a packet in
    no domain is dropped; in [Learning] every packet that was not marked for
    rejection is accepted. *)
Theorem authorization_needs_a_private_mark s i holds :
  (snap_mode s = Enforcing -> forall l, l ∈ authorize_lines s i -> line_verdict l = Some VAccept ->
     MPacketDomain APPLICATION_PENDING_DOMAIN ∈ l \/ MPacketDomain APPLICATION_HANDOFF_DOMAIN ∈ l)
  /\ (snap_mode s = Enforcing -> (forall d, holds (MPacketDomain d) = false) ->
      first_verdict holds (authorize_lines s i) = Some VDrop)
  /\ (snap_mode s = Learning -> holds (MPacketDomain APPLICATION_REJECT_DOMAIN) = false ->
      first_verdict holds (authorize_lines s i) = Some VAccept).
Proof.
  rewrite authorize_split. split_and!.
  - intros Hm l Hl Hv. rewrite Hm in Hl. cbn [eqb bool_decide decide negb app] in Hl.
    apply elem_of_app in Hl as [Hl|Hl].
    + destruct (decided_lines_domain s i l Hl) as [[_ Hn]|[Hp _]]; [done|by left].
    + apply elem_of_cons in Hl as [->|Hl]; [right; set_solver|].
      apply list_elem_of_singleton in Hl as ->. done.
  - intros Hm Hd. rewrite first_verdict_app, first_verdict_none.
    + rewrite Hm. simpl. by rewrite Hd.
    + apply Forall_forall. intros l Hl. destruct (decided_lines_domain s i l Hl) as [[Hi _]|[Hi _]];
        by eapply applies_false.
  - intros Hm Hd. rewrite first_verdict_app.
    destruct (first_verdict_only holds (decided_lines s i) VAccept) as [->| ->]; [| |done].
    + apply Forall_forall. intros l Hl Ha.
      destruct (decided_lines_domain s i l Hl) as [[Hi _]|[_ Hv]]; [|done].
      by rewrite (applies_false holds l _ Hi) in Ha.
    + rewrite Hm. simpl.
      by case_match.
Qed.
