(* ===== verification/NftAlphabet.v ===== *)
(** * Rendered lines

    No value of a rule can break out of its place in the script: every rule
    line is printed as one line over an alphabet without separators, braces,
    comments or variables. *)

From Stdlib Require Import DecimalString.
From S2P Require Import Prelude Text Net Application Model State Marks Nftables NftScript.
From S2P Require Import NftPolicy.
Local Open Scope Z_scope.

(** Printable ASCII without the characters that structure an nft script:
    hash, dollar, semicolon, backslash, backquote, braces. *)
Definition is_line_char (c : char) : bool :=
  in_range 32 126 c
  && negb (existsb (Z.eqb c) [35; 36; 59; 92; 96; 123; 125]).

Definition safe (s : ustring) : Prop := forallb is_line_char s = true.

(** ** Characters of formatted values *)

Lemma is_line_char_alnum c : is_ascii_alphanumeric c = true -> is_line_char c = true.
Proof.
  unfold is_ascii_alphanumeric, is_line_char, in_range. simpl.
  rewrite !orb_true_iff, !andb_true_iff, negb_true_iff, !orb_false_iff, !Z.eqb_neq, !Z.leb_le.
  lia.
Qed.

Lemma is_line_char_net c : is_net_char c = true -> is_line_char c = true.
Proof.
  unfold is_net_char, is_line_char, in_range. simpl.
  rewrite !orb_true_iff, !andb_true_iff, negb_true_iff, !orb_false_iff, !Z.eqb_neq, !Z.leb_le,
    !Z.eqb_eq. lia.
Qed.

Lemma is_line_char_interface c : is_interface_byte c = true -> is_line_char c = true.
Proof.
  unfold is_interface_byte. rewrite !orb_true_iff, !Z.eqb_eq.
  intros [[[?| ->]| ->]| ->]; [by apply is_line_char_alnum|done..].
Qed.

Lemma safe_impl (p : char -> bool) s :
  (forall c, p c = true -> is_line_char c = true) -> forallb p s = true -> safe s.
Proof. intros Hp. unfold safe. rewrite !forallb_forall. auto. Qed.

Lemma safe_app a b : safe (a ++ b) <-> safe a /\ safe b.
Proof. unfold safe. by rewrite forallb_app, andb_true_iff. Qed.

Lemma safe_uint u : safe (lit (NilEmpty.string_of_uint u)).
Proof. unfold safe. induction u; simpl; auto. Qed.

Lemma safe_dec n : safe (dec n).
Proof. unfold dec, NilZero.string_of_uint. case_match; try done; apply (safe_uint (_ _)). Qed.

Lemma safe_hex_digit v : is_line_char (hex_digit (v mod 16)) = true.
Proof.
  pose proof (Z.mod_pos_bound v 16). unfold hex_digit, is_line_char, in_range. simpl.
  rewrite !andb_true_iff, negb_true_iff, !orb_false_iff, !Z.eqb_neq, !Z.leb_le.
  destruct (Z.ltb_spec (v mod 16) 10); lia.
Qed.

Lemma safe_hex_fixed w : forall v, safe (hex_fixed w v).
Proof.
  induction w as [|w IH]; intros v; [done|]. simpl. rewrite safe_app. split; [apply IH|].
  unfold safe. simpl. by rewrite safe_hex_digit.
Qed.

Lemma safe_hex v : safe (append_hex_u32 v).
Proof. apply safe_hex_fixed. Qed.

Lemma safe_port p : safe (append_port p).
Proof.
  unfold append_port. rewrite safe_app. split; [apply safe_dec|].
  case_match; [|done]. rewrite safe_app. split; [done|apply safe_dec].
Qed.

(** ** Items *)

Definition interface_typed (n : InterfaceName) : Prop :=
  forallb is_interface_byte (interface_str n) = true.

Definition item_typed (i : Item) : Prop :=
  match i with
  | MText t => safe t
  | MInterface _ n => interface_typed n
  | Count n => safe n
  | _ => True
  end.

Section Alphabet.
Context `{IpNetLaws}.

Lemma safe_network n : safe (ipnet_display n).
Proof. eapply safe_impl; [apply is_line_char_net|apply ipnet_display_chars]. Qed.

Lemma safe_quoted n : interface_typed n -> safe (quoted (interface_str n)).
Proof.
  intros Hn. unfold quoted. rewrite !safe_app. split_and!; [done| |done].
  eapply safe_impl; [apply is_line_char_interface|done].
Qed.

(** Discharge one syntactic part of a printed item. *)
Ltac safe_part Hi :=
  match goal with
  | |- safe [] => reflexivity
  | |- safe (lit _) => vm_compute; reflexivity
  | |- safe (append_hex_u32 _) => apply safe_hex
  | |- safe (append_port _) => apply safe_port
  | |- safe (dec _) => apply safe_dec
  | |- safe (ipnet_display _) => apply safe_network
  | |- safe (quoted _) => apply safe_quoted; exact Hi
  | |- _ => exact Hi
  end.

Lemma safe_item i : item_typed i -> safe (print_item i).
Proof.
  destruct i as [t|[] n|[] []|[]|[]|[] [] p|p|d|d|v|d| |v| |n| |[]];
    cbn [print_item print_verdict print_protocol item_typed];
    unfold append_packet_mark_domain_set; intros Hi;
    rewrite ?safe_app; split_and?;
    safe_part Hi.
Qed.

Lemma safe_line l : Forall item_typed l ->
  exists body, print_line l = body ++ nl /\ safe body.
Proof.
  intros Hl. exists (lit "    " ++ join (lit " ") (print_item <$> l)). split.
  - unfold print_line. by rewrite <-app_assoc.
  - apply safe_app. split; [vm_compute; reflexivity|].
    induction Hl as [|i [|j l] Hi Hl IH]; [done|by apply safe_item|].
    rewrite !fmap_cons in *. cbn [join]. apply safe_app. split; [by apply safe_item|].
    apply safe_app. split; [vm_compute; reflexivity|exact IH].
Qed.

(** ** Lines *)

Definition lines_typed : list Line -> Prop := Forall (Forall item_typed).

(** Interface names of rules were built by [InterfaceName::new]. *)
Definition rules_typed (s : Snapshot) : Prop :=
  forall r n, r ∈ snap_rules s -> interface (spec r) = Some n ->
  InterfaceName_new (interface_str n) = Ok n.

Lemma interface_new_typed n : InterfaceName_new (interface_str n) = Ok n -> interface_typed n.
Proof.
  unfold InterfaceName_new, interface_typed. intros Hn. repeat case_match; try done.
  by destruct (forallb _ _).
Qed.

Definition rule_typed (r : Rule) : Prop :=
  forall n, interface (spec r) = Some n -> interface_typed n.

Lemma typed_opt {A} (f : A -> Item) o :
  (forall a, o = Some a -> item_typed (f a)) -> Forall item_typed (opt_item f o).
Proof. destruct o; simpl; intros Ho; [|constructor]. constructor; [auto|constructor]. Qed.

Lemma typed_protocol p : Forall item_typed (protocol_items p).
Proof. destruct p; repeat constructor. Qed.

(** Split a list of items or lines; texts of the sources are evaluated. *)
Ltac typed_step :=
  match goal with
  | |- lines_typed (_ ++ _) => apply Forall_app; split
  | |- lines_typed (_ :: _) => apply Forall_cons; split
  | |- lines_typed [] => apply Forall_nil; exact I
  | |- lines_typed (_ <$> _) => apply Forall_fmap
  | |- lines_typed (if ?b then _ else _) => destruct b
  | |- Forall _ (_ ++ _) => apply Forall_app; split
  | |- Forall _ (_ :: _) => apply Forall_cons; split
  | |- Forall _ [] => apply Forall_nil; exact I
  | |- Forall _ (if ?b then _ else _) => destruct b
  | |- Forall _ (match ?b with _ => _ end) => destruct b
  | |- Forall _ (opt_item _ _) => apply typed_opt; intros ??
  | |- Forall _ (protocol_items _) => apply typed_protocol
  | |- item_typed (MText (match ?d with _ => _ end)) => destruct d
  | |- item_typed (MText (lit _)) => vm_compute; reflexivity
  | |- item_typed (MInterface _ (mkInterfaceName _)) => vm_compute; reflexivity
  | |- item_typed (Count (accepted_counter ?d)) => destruct d; vm_compute; reflexivity
  | |- item_typed (Count (dropped_counter ?d)) => destruct d; vm_compute; reflexivity
  | |- item_typed (Count COUNTER_LEARNED_OUT) => vm_compute; reflexivity
  | |- item_typed (Count COUNTER_ACCEPTED_OUT) => vm_compute; reflexivity
  | |- item_typed (Count COUNTER_DROPPED_OUT) => vm_compute; reflexivity
  | |- item_typed (MNetwork _ _) => exact I
  | |- item_typed (MOriginalNetwork _) => exact I
  | |- item_typed (MPort _ _ _) => exact I
  | |- item_typed (MOriginalPort _) => exact I
  | |- item_typed (SetPacketDomain _) => exact I
  | |- item_typed (SetConnmark _) => exact I
  | |- item_typed ClearConnmark => exact I
  | |- item_typed StripPacketMark => exact I
  | |- item_typed AnonymousCount => exact I
  | |- item_typed (MPacketDomain _) => exact I
  | |- item_typed (MPacketDomainNot _) => exact I
  | |- item_typed (MConnmark _) => exact I
  | |- item_typed (Decide _) => exact I
  | H : rule_typed ?r |- item_typed (MInterface _ _) => by apply H
  | H : item_typed ?i |- item_typed ?i => exact H
  end.
Ltac typed := repeat typed_step.

(** A fixed list of selector texts. *)
Definition texts_safe (ts : list ustring) : Prop := Forall safe ts.

Lemma texts_safe_fixed ts : forallb (forallb is_line_char) ts = true -> texts_safe ts.
Proof. intros Ht. apply Forall_forall. intros t Hi. eapply forallb_forall in Ht; [done|].
  by apply list_elem_of_In. Qed.

Lemma lines_of_texts ts (f : ustring -> Line) :
  forallb (forallb is_line_char) ts = true ->
  (forall t, item_typed (MText t) -> Forall item_typed (f t)) -> lines_typed (f <$> ts).
Proof.
  intros Ht%texts_safe_fixed Hf. apply Forall_fmap. eapply Forall_impl; [exact Ht|].
  intros t Hs. by apply Hf.
Qed.

Lemma lines_of_rules rs (f : Rule -> Line) :
  Forall rule_typed rs -> (forall r, rule_typed r -> Forall item_typed (f r)) ->
  lines_typed (f <$> rs).
Proof. intros Hr Hf. apply Forall_fmap. eapply Forall_impl; [exact Hr|]. exact Hf. Qed.

Lemma typed_selectors r d (reverse : bool) :
  rule_typed r -> Forall item_typed (selector_items r d reverse).
Proof. intros Hr. unfold selector_items. typed. Qed.

Lemma typed_rule_line r d (reverse : bool) counter a handoff connmark :
  rule_typed r -> item_typed (Count counter) ->
  Forall item_typed (rule_line r d reverse counter a handoff connmark).
Proof. intros Hr Hc. unfold rule_line, selector_items. typed. Qed.

Lemma typed_marked matches value d :
  Forall item_typed matches ->
  Forall item_typed (marked_accept_line matches value d (accepted_counter d)).
Proof. intros Hm. unfold marked_accept_line, handoff_items. typed. exact Hm. Qed.

Lemma counter_typed d :
  item_typed (Count (accepted_counter d)) /\ item_typed (Count (dropped_counter d)).
Proof. split; typed. Qed.

(** ** Chains *)

Section Chains.
Context (s : Snapshot) (Hs : rules_typed s).

Lemma selected_rules_typed (le : relation Rule) `{!RelDecision le} p :
  Forall rule_typed (merge_sort le (List.filter p (snap_rules s))).
Proof.
  apply Forall_forall. intros r Hr n Hn. rewrite merge_sort_Permutation in Hr.
  apply list_elem_of_In, filter_In in Hr as [Hr%list_elem_of_In _].
  apply interface_new_typed. by eapply Hs.
Qed.

Lemma direct_typed d actions counter :
  item_typed (Count counter) -> lines_typed (direct_lines s d actions counter).
Proof.
  intros Hc. apply lines_of_rules; [apply selected_rules_typed|]. intros r Hr.
  by apply typed_rule_line.
Qed.

Lemma reverse_typed d : lines_typed (reverse_lines s d (accepted_counter d)).
Proof.
  apply lines_of_rules; [apply selected_rules_typed|]. intros r Hr.
  apply typed_rule_line; [done|apply counter_typed].
Qed.

Lemma queue_typed actions : lines_typed (queue_lines s actions).
Proof.
  apply lines_of_rules; [apply selected_rules_typed|]. intros r Hr.
  unfold queue_line, selector_items. typed.
Qed.

Lemma guards_typed d actions : lines_typed (guard_lines s (dropped_counter d) actions).
Proof.
  apply Forall_concat, Forall_fmap. eapply Forall_impl; [apply selected_rules_typed|].
  intros r Hr. unfold guard_lines_of, original_guard_line, selector_items. simpl. typed.
Qed.

Lemma replies_typed : lines_typed (reply_queue_line <$> application_reply_candidates s).
Proof.
  apply lines_of_rules.
  - apply Forall_concat, Forall_fmap. eapply Forall_impl; [apply selected_rules_typed|].
    intros r Hr. apply Forall_fmap, Forall_forall. by intros p _ n.
  - intros r Hr. unfold reply_queue_line, selector_items. typed.
Qed.

Lemma entry_typed d : lines_typed (entry_lines s d).
Proof.
  unfold entry_lines, reject_reply_lines. repeat (apply Forall_app; split).
  - case_match; [|typed]. apply lines_of_texts; [vm_compute; reflexivity|]. intros t Ht.
    apply typed_marked. by repeat constructor.
  - case_match; [|typed]. apply lines_of_texts; [vm_compute; reflexivity|]. intros t Ht.
    unfold accept_line. typed.
  - case_match; typed.
  - case_match; [|typed]. apply lines_of_texts; [vm_compute; reflexivity|]. intros t Ht.
    unfold accept_line. typed.
Qed.

Lemma established_typed d i : lines_typed (established_lines s d i).
Proof.
  unfold established_lines. repeat (apply Forall_app; split).
  - unfold accept_line. typed.
  - case_match; [|typed]. repeat (apply Forall_app; split).
    + unfold loopback_lines. case_match; [typed|]. apply lines_of_texts.
      * destruct i; vm_compute; reflexivity.
      * intros t Ht. apply typed_marked. typed.
    + apply lines_of_texts; [destruct d, i; vm_compute; reflexivity|]. intros t Ht.
      apply typed_marked. typed.
    + case_match; [|typed]. apply lines_of_texts; [vm_compute; reflexivity|]. intros t Ht. typed.
  - case_match; [apply reverse_typed|typed].
Qed.

Lemma rules_typed_lines d : lines_typed (rule_lines s d).
Proof.
  unfold rule_lines. pose proof (counter_typed d) as [Ha Hd].
  repeat case_match; repeat (apply Forall_app; split);
    first [by apply direct_typed|apply queue_typed|apply guards_typed].
Qed.

Lemma final_typed d i : lines_typed (final_lines s d i).
Proof.
  unfold final_lines. apply Forall_app; split.
  - case_match; [|typed]. apply Forall_app; split; [apply reverse_typed|].
    case_match; [apply replies_typed|typed].
  - case_match; [|typed]. apply Forall_app; split; [|typed].
    apply lines_of_texts; [vm_compute; reflexivity|]. intros t Ht. typed.
Qed.

Lemma chain_typed d i : lines_typed (chain_lines s d i).
Proof.
  unfold chain_lines. apply Forall_app; split; [|typed]. case_match; [|typed].
  rewrite !Forall_app; split_and!;
    [apply entry_typed| |apply established_typed|apply rules_typed_lines|apply final_typed].
  unfold deny_lines. case_match; [|typed]. apply direct_typed, counter_typed.
Qed.

Lemma authorize_typed i : lines_typed (authorize_lines s i).
Proof.
  unfold authorize_lines. repeat (apply Forall_app; split); [|typed..].
  case_match; [|typed]. apply Forall_app; split; [typed|].
  apply lines_of_texts; [destruct i; vm_compute; reflexivity|]. intros t Ht. typed.
Qed.
End Chains.

(** ** The structure of the script *)

(** The lines that contain anything but the characters of a rule line. *)
Definition structure (text : ustring) : list ustring :=
  List.filter (fun l => negb (forallb is_line_char l)) (split_char 10 text).

(** What they are, for every policy. *)
Definition block (head : ustring) (body : list ustring) : list ustring :=
  (head ++ lit " {") :: body ++ [lit "  }"].
Definition frame_chain (name hook priority policy : ustring) : list ustring :=
  block (lit "  chain " ++ name)
    [lit "    type filter hook " ++ hook ++ lit " priority " ++ priority ++ lit "; policy "
     ++ policy ++ lit ";"].
Definition script_frame : list ustring :=
  lit "table inet openshield {"
  :: concat ((fun name => block (lit "  counter " ++ name) [])
       <$> [NFT_OWNERSHIP_COUNTER; COUNTER_ACCEPTED_IN; COUNTER_ACCEPTED_OUT;
            COUNTER_DROPPED_IN; COUNTER_DROPPED_OUT; COUNTER_LEARNED_OUT])
  ++ frame_chain (lit "input") (lit "input") (lit "filter") (lit "drop")
  ++ frame_chain (lit "output_sanitize") (lit "output") (lit "-1") (lit "accept")
  ++ frame_chain (lit "output") (lit "output") (lit "filter") (lit "drop")
  ++ frame_chain (lit "output_authorize") (lit "output") (lit "1") (lit "drop")
  ++ frame_chain (lit "forward") (lit "forward") (lit "filter") (lit "drop")
  ++ [lit "}"].

Lemma split_char_line sep a b :
  split_char sep (a ++ [sep] ++ b) = split_char sep a ++ split_char sep b.
Proof.
  induction a as [|c a IH]; simpl; [by rewrite Z.eqb_refl|].
  simpl in IH. rewrite IH. destruct (c =? sep); [done|].
  pose proof (split_char_nonempty sep a). by destruct (split_char sep a).
Qed.

Lemma structure_line a b : structure (a ++ nl ++ b) = structure a ++ structure b.
Proof. unfold structure. by rewrite (split_char_line 10), List.filter_app. Qed.

Lemma split_safe s : safe s -> split_char 10 s = [s].
Proof.
  unfold safe. induction s as [|c s IH]; [done|]. simpl. intros [Hc Hs]%andb_true_iff.
  rewrite IH by done. destruct (Z.eqb_spec c 10) as [->|]; [done|done].
Qed.

Lemma structure_safe s : safe s -> structure s = [].
Proof. intros Hs. unfold structure. rewrite split_safe by done. simpl. by rewrite Hs. Qed.

Lemma structure_lines ls b : lines_typed ls -> structure (print_lines ls ++ b) = structure b.
Proof.
  induction 1 as [|l ls Hl Hls IH]; [done|]. unfold print_lines. rewrite fmap_cons. cbn [concat].
  destruct (safe_line l Hl) as (body & -> & Hb).
  rewrite <-!app_assoc, structure_line, structure_safe by done. exact IH.
Qed.

Lemma structure_chain nm hook pri pol ls b :
  concat (structure <$> frame_chain nm hook pri pol) = frame_chain nm hook pri pol ->
  lines_typed ls ->
  structure (print_chain nm hook pri pol ls ++ b) = frame_chain nm hook pri pol ++ structure b.
Proof.
  intros <- Hls.
  transitivity (structure ((lit "  chain " ++ nm ++ lit " {") ++ nl
    ++ (lit "    type filter hook " ++ hook ++ lit " priority " ++ pri ++ lit "; policy "
        ++ pol ++ lit ";") ++ nl ++ print_lines ls ++ lit "  }" ++ nl ++ b)).
  - unfold print_chain. by rewrite <-!app_assoc.
  - rewrite !structure_line, structure_lines, structure_line by done.
    unfold frame_chain, block. rewrite <-!app_assoc, !fmap_cons. cbn [concat app fmap list_fmap].
    by rewrite app_nil_r, <-!app_assoc.
Qed.

Definition counters_frame : list ustring :=
  concat ((fun name => block (lit "  counter " ++ name) [])
    <$> [NFT_OWNERSHIP_COUNTER; COUNTER_ACCEPTED_IN; COUNTER_ACCEPTED_OUT;
         COUNTER_DROPPED_IN; COUNTER_DROPPED_OUT; COUNTER_LEARNED_OUT]).

Lemma structure_counters b :
  structure (append_named_counters ++ b) = counters_frame ++ structure b.
Proof.
  assert (Hn : append_named_counters = removelast append_named_counters ++ nl)
    by (vm_compute; reflexivity).
  assert (Hf : structure (removelast append_named_counters) = counters_frame)
    by (vm_compute; reflexivity).
  by rewrite Hn, <-app_assoc, structure_line, Hf.
Qed.

Lemma structure_end : structure (lit "}" ++ nl) = [lit "}"].
Proof. vm_compute. reflexivity. Qed.

(** C36: No value of a rule can break out of its place in the generated script:
    whatever the policy (names, networks, ports and interface names of its
    rules, as many rules as there are), the lines of the script that contain a
    brace, a separator, a comment, a variable, an escape or a character that
    is not printable ASCII are the same fixed list of table, counter and chain
    delimiters. *)
Theorem script_structure_is_fixed s text :
  rules_typed s -> compile s = Ok text -> structure text = script_frame.
Proof.
  intros Hs Hc. rewrite compile_text in Hc.
  destruct (Snapshot_validate s) as [[]|e]; [|done]. injection Hc as <-.
  unfold print_script. rewrite !structure_line, structure_counters.
  rewrite !structure_chain by (match goal with
    | |- concat _ = _ => vm_compute; reflexivity
    | |- lines_typed (chain_lines _ _ _) => by apply chain_typed
    | |- lines_typed (authorize_lines _ _) => by apply authorize_typed
    | |- lines_typed _ => unfold sanitize_lines, forward_lines; typed
    end).
  rewrite structure_end. reflexivity.
Qed.
End Alphabet.

Lemma script_structure_is_fixed_witness :
  structure (print_script sample_snapshot (Snapshot_application_interception sample_snapshot))
  = script_frame.
Proof.
  apply (script_structure_is_fixed sample_snapshot); [|vm_compute; reflexivity].
  intros r n Hr Hn. simpl in Hr. rewrite !elem_of_cons, elem_of_nil in Hr.
  destruct Hr as [->|[->|[->|[]]]]; simpl in Hn; try done. injection Hn as <-.
  vm_compute. reflexivity.
Defined.
