(* ===== verification/Iptables.v ===== *)
(** * The iptables compiler

    [crates/openshield-core/src/iptables.rs].  As for nftables, the model of
    every [append_*] function is the text it pushes; [write!] and [writeln!] to a
    string cannot fail.  The constants for marks have the same values in both
    compilers, and so has the order of rules. *)

From S2P Require Import Prelude Text Net Application Model State Marks Nftables.
Local Open Scope Z_scope.

Abbreviation IPTABLES_INPUT_CHAIN := (lit "OPENSHIELD_IN") (only parsing).
Abbreviation IPTABLES_OUTPUT_CHAIN := (lit "OPENSHIELD_OUT") (only parsing).
Abbreviation IPTABLES_FORWARD_CHAIN := (lit "OPENSHIELD_FWD") (only parsing).
Abbreviation IPTABLES_APPLICATION_TCP_CHAIN := (lit "OPENSHIELD_APP_TCP") (only parsing).
Abbreviation IPTABLES_APPLICATION_PACKET_CHAIN := (lit "OPENSHIELD_APP_PKT") (only parsing).
Abbreviation IPTABLES_OWNERSHIP_COMMENT := (lit "openshield:owner:v1") (only parsing).
Abbreviation IPTABLES_MARK_SANITIZE_CHAIN := (lit "OPENSHIELD_MARK") (only parsing).
Abbreviation IPTABLES_LEARNING_OBSERVE_CHAIN := (lit "OPENSHIELD_OBSERVE") (only parsing).

Record IptablesPolicy : Type := mkIptablesPolicy { ipv4 : ustring; ipv6 : ustring }.

Inductive AddressFamily : Type := FamilyIpv4 | FamilyIpv6.

#[export] Instance AddressFamily_eq_dec : EqDecision AddressFamily.
Proof. solve_decision. Defined.

(** [0x{value:08x}], and a mark under a mask. *)
Definition hex (value : Z) : ustring := lit "0x" ++ hex_pad 8 value.
Definition masked (value mask : Z) : ustring := hex value ++ lit "/" ++ hex mask.

Definition owned_chains : list ustring :=
  [IPTABLES_INPUT_CHAIN; IPTABLES_OUTPUT_CHAIN; IPTABLES_FORWARD_CHAIN;
   IPTABLES_APPLICATION_TCP_CHAIN; IPTABLES_APPLICATION_PACKET_CHAIN].
Definition owned_mangle_chains : list ustring :=
  [IPTABLES_MARK_SANITIZE_CHAIN; IPTABLES_LEARNING_OBSERVE_CHAIN].

Definition append_counted_verdict (chain counter verdict : ustring) : ustring :=
  lit "-A " ++ chain ++ lit " -m comment --comment openshield:" ++ counter ++ lit " -j " ++ verdict
  ++ nl.

Definition append_forward_chain (mode : Mode) : ustring :=
  if mode ==? BlockAll
  then append_counted_verdict IPTABLES_FORWARD_CHAIN (lit "dropped_out") (lit "DROP")
  else lit "-A " ++ IPTABLES_FORWARD_CHAIN ++ lit " -j RETURN" ++ nl.

Definition append_reserved_mark_sanitizer (chain : ustring) : ustring :=
  lit "-A " ++ chain ++ lit " -m mark ! --mark "
  ++ masked 0 APPLICATION_MARK_DOMAIN_MASK ++ lit " -j MARK --set-xmark "
  ++ masked 0 APPLICATION_MARK_DOMAIN_MASK ++ nl.

Definition append_dhcp_bootstrap_accepts (family : AddressFamily) : ustring :=
  let selector :=
    match family with
    | FamilyIpv4 => lit "-d 255.255.255.255/32 -p udp -m udp --sport 67 --dport 68"
    | FamilyIpv6 => lit "-s fe80::/10 -p udp -m udp --sport 547 --dport 546"
    end in
  lit "-A " ++ IPTABLES_INPUT_CHAIN ++ lit " " ++ selector
  ++ lit " -m comment --comment openshield:accepted_in -j RETURN" ++ nl.

Definition control_plane_selectors : list ustring := [
  lit "-p ipv6-icmp -m conntrack --ctstate RELATED -m addrtype ! --src-type UNSPEC,MULTICAST -m icmp6 --icmpv6-type 1";
  lit "-p ipv6-icmp -m conntrack --ctstate RELATED -m addrtype ! --src-type UNSPEC,MULTICAST -m icmp6 --icmpv6-type 2/0";
  lit "-p ipv6-icmp -m conntrack --ctstate RELATED -m addrtype ! --src-type UNSPEC,MULTICAST -m icmp6 --icmpv6-type 3/0";
  lit "-p ipv6-icmp -m conntrack --ctstate RELATED -m addrtype ! --src-type UNSPEC,MULTICAST -m icmp6 --icmpv6-type 4/1";
  lit "-p ipv6-icmp -m conntrack --ctstate RELATED -m addrtype ! --src-type UNSPEC,MULTICAST -m icmp6 --icmpv6-type 4/2";
  lit "-s fe80::/10 -p ipv6-icmp -m hl --hl-eq 255 -m icmp6 --icmpv6-type 134/0";
  lit "-p ipv6-icmp -m addrtype ! --src-type MULTICAST -m hl --hl-eq 255 -m icmp6 --icmpv6-type 135/0";
  lit "-p ipv6-icmp -m addrtype ! --src-type UNSPEC,MULTICAST -m hl --hl-eq 255 -m icmp6 --icmpv6-type 136/0";
  lit "-s fe80::/10 -d ff02::/16 -p ipv6-icmp -m hl --hl-eq 1 -m icmp6 --icmpv6-type 130/0"
].

Definition append_ipv6_host_control_plane_accepts (family : AddressFamily) : ustring :=
  if family !=? FamilyIpv6 then []
  else
    concat ((fun selector =>
      lit "-A " ++ IPTABLES_INPUT_CHAIN ++ lit " " ++ selector
      ++ lit " -m comment --comment openshield:accepted_in -j RETURN" ++ nl)
      <$> control_plane_selectors).

Definition application_reply_protocols (family : AddressFamily) : list ustring :=
  match family with
  | FamilyIpv4 => [lit "tcp"; lit "udp"; lit "icmp"]
  | FamilyIpv6 => [lit "tcp"; lit "udp"; lit "ipv6-icmp"]
  end.

Definition application_non_tcp_protocols (family : AddressFamily) : list ustring :=
  match family with
  | FamilyIpv4 => [lit "udp"; lit "icmp"]
  | FamilyIpv6 => [lit "udp"; lit "ipv6-icmp"]
  end.

(** The slice of the reply protocols that an interception class covers. *)
Definition covered_protocols (family : AddressFamily) (interception : ApplicationInterception)
    : list ustring :=
  match interception with
  | InterceptNone => []
  | TcpInitial => take 1 (application_reply_protocols family)
  | PerPacket => application_reply_protocols family
  end.

Definition append_clear_reserved_mark (chain : ustring) : ustring :=
  lit "-A " ++ chain ++ lit " -j MARK --set-xmark " ++ masked 0 APPLICATION_MARK_DOMAIN_MASK ++ nl.

Definition append_application_accept (chain : ustring) (mode : Mode) : ustring :=
  let comment :=
    if mode ==? Learning then lit "openshield:accepted_out+learned_out"
    else lit "openshield:accepted_out" in
  lit "-A " ++ chain ++ lit " -m comment --comment " ++ comment ++ lit " -j RETURN" ++ nl.

Definition append_invalid_drop (chain counter : ustring) : ustring :=
  lit "-A " ++ chain ++ lit " -m conntrack --ctstate INVALID -m comment --comment openshield:"
  ++ counter ++ lit " -j DROP" ++ nl.

Definition append_generated_reject_reply_accept (chain : ustring) (family : AddressFamily)
    (counter : ustring) (reject_connmark : Z) : ustring :=
  let rest :=
    lit " -m conntrack --ctstate RELATED --ctdir REPLY -m connmark --mark "
    ++ masked reject_connmark APPLICATION_CONNMARK_MASK ++ lit " -m comment --comment openshield:"
    ++ counter ++ lit " -j RETURN" ++ nl in
  lit "-A " ++ chain ++ lit " -p tcp -m tcp --tcp-flags RST RST" ++ rest
  ++ match family with
     | FamilyIpv4 => lit "-A " ++ chain ++ lit " -p icmp -m icmp --icmp-type 3/3" ++ rest
     | FamilyIpv6 => lit "-A " ++ chain ++ lit " -p ipv6-icmp -m icmp6 --icmpv6-type 1/4" ++ rest
     end.

Definition reject_verdict (family : AddressFamily) : ustring :=
  match family with
  | FamilyIpv4 => lit "REJECT --reject-with icmp-port-unreachable"
  | FamilyIpv6 => lit "REJECT --reject-with icmp6-port-unreachable"
  end.

Definition supports_family (rule : Rule) (family : AddressFamily) : bool :=
  negb match rule.(spec).(protocol), rule.(spec).(peer_network), family with
       | Icmp, _, FamilyIpv6 => true
       | IcmpV6, _, FamilyIpv4 => true
       | _, Some (NetV4 _ _), FamilyIpv6 => true
       | _, Some (NetV6 _ _), FamilyIpv4 => true
       | _, _, _ => false
       end.

(** [ -p ..], and the port with its range separator. *)
Definition append_protocol (protocol : TransportProtocol) : ustring :=
  match protocol with
  | Any => []
  | Tcp => lit " -p tcp"
  | Udp => lit " -p udp"
  | Icmp => lit " -p icmp"
  | IcmpV6 => lit " -p ipv6-icmp"
  end.
Definition append_port (option : ustring) (port : PortRange) : ustring :=
  lit " " ++ option ++ lit " " ++ dec port.(port_start)
  ++ (if negb (port.(port_end) =? port.(port_start)) then lit ":" ++ dec port.(port_end) else []).

Section Compiler.
Context `{IpNetLib}.

Definition append_rule_match_in_chain (rule : Rule) (chain : ustring) (chain_direction : Direction)
    (stateful_reverse : bool) : ustring :=
  lit "-A " ++ chain
  ++ match rule.(spec).(peer_network) with
     | Some network =>
         (if chain_direction ==? Inbound then lit " -s " else lit " -d ") ++ ipnet_display network
     | None => []
     end
  ++ match rule.(spec).(interface) with
     | Some interface =>
         (if chain_direction ==? Inbound then lit " -i " else lit " -o ")
         ++ interface.(interface_str)
     | None => []
     end
  ++ append_protocol rule.(spec).(protocol)
  ++ (if stateful_reverse then lit " -m conntrack --ctstate ESTABLISHED --ctdir REPLY" else [])
  ++ match rule.(spec).(port) with
     | Some port => append_port (if stateful_reverse then lit "--sport" else lit "--dport") port
     | None => []
     end.

Definition append_rule_match (rule : Rule) (chain_direction : Direction) (stateful_reverse : bool)
    : ustring :=
  append_rule_match_in_chain rule
    (match chain_direction with
     | Inbound => IPTABLES_INPUT_CHAIN
     | Outbound => IPTABLES_OUTPUT_CHAIN
     end) chain_direction stateful_reverse.

Definition append_rule_verdict (rule : Rule) (family : AddressFamily) (chain_direction : Direction)
    (stateful_reverse : bool) (action : RuleAction) (reject_connmark : Z) : ustring :=
  (if action ==? Reject
   then append_rule_match rule chain_direction stateful_reverse ++ lit " -j CONNMARK --set-xmark "
        ++ masked reject_connmark APPLICATION_CONNMARK_MASK ++ nl
   else [])
  ++ append_rule_match rule chain_direction stateful_reverse
  ++ lit " -m comment --comment openshield:"
  ++ match chain_direction, action with
     | Inbound, Accept => lit "accepted_in"
     | Outbound, Accept => lit "accepted_out"
     | _, (Drop | Reject) => lit "dropped_out"
     end
  ++ lit " -j "
  ++ match action with
     | Accept => lit "RETURN"
     | Drop => lit "DROP"
     | Reject =>
         if rule.(spec).(protocol) ==? Tcp then lit "REJECT --reject-with tcp-reset"
         else reject_verdict family
     end
  ++ nl.

Definition direct_rules (snapshot : Snapshot) (family : AddressFamily) (direction : Direction)
    (actions : list RuleAction) : list Rule :=
  merge_sort priority_le
    (List.filter (fun rule =>
       rule.(spec).(enabled) && (rule.(spec).(Model.direction) ==? direction)
       && is_none rule.(spec).(application) && supports_family rule family
       && contains_action actions rule.(spec).(action))
     snapshot.(snap_rules)).

Definition append_direct_rules_for_actions (snapshot : Snapshot) (family : AddressFamily)
    (direction : Direction) (actions : list RuleAction) (learning_accept : bool) : ustring :=
  concat ((fun rule =>
    append_rule_verdict rule family direction false
      (if learning_accept then Accept else rule.(spec).(action))
      (application_reject_connmark snapshot.(snap_flow_generation)))
    <$> direct_rules snapshot family direction actions).

Definition append_direct_rules (snapshot : Snapshot) (family : AddressFamily)
    (direction : Direction) : ustring :=
  append_direct_rules_for_actions snapshot family direction [Accept] false.

Definition reverse_rules (snapshot : Snapshot) (family : AddressFamily)
    (chain_direction : Direction) : list Rule :=
  merge_sort id_le
    (List.filter (fun rule =>
       rule.(spec).(enabled) && (rule.(spec).(Model.direction) !=? chain_direction)
       && is_none rule.(spec).(application) && supports_family rule family
       && (rule.(spec).(action) ==? Accept))
     snapshot.(snap_rules)).

Definition append_reverse_rules (snapshot : Snapshot) (family : AddressFamily)
    (chain_direction : Direction) : ustring :=
  concat ((fun rule =>
    append_rule_verdict rule family chain_direction true Accept
      (application_reject_connmark snapshot.(snap_flow_generation)))
    <$> reverse_rules snapshot family chain_direction).

Definition application_rules (snapshot : Snapshot) (family : AddressFamily)
    (actions : list RuleAction) : list Rule :=
  merge_sort priority_le
    (List.filter (fun rule =>
       rule.(spec).(enabled) && (rule.(spec).(Model.direction) ==? Outbound)
       && is_some rule.(spec).(application) && supports_family rule family
       && contains_action actions rule.(spec).(action))
     snapshot.(snap_rules)).

Definition append_application_rule_queues (snapshot : Snapshot) (family : AddressFamily)
    (actions : list RuleAction) : ustring :=
  concat ((fun rule =>
    append_rule_match_in_chain rule IPTABLES_OUTPUT_CHAIN Outbound false
    ++ lit " -m conntrack --ctdir ORIGINAL -j MARK --set-xmark "
    ++ masked APPLICATION_PENDING_DOMAIN APPLICATION_MARK_DOMAIN_MASK ++ nl
    ++ append_rule_match_in_chain rule IPTABLES_OUTPUT_CHAIN Outbound false
    ++ lit " -m conntrack --ctdir ORIGINAL -j NFQUEUE --queue-num " ++ dec APPLICATION_QUEUE_NUMBER
    ++ nl)
    <$> application_rules snapshot family actions).

Definition append_application_reply_queues (snapshot : Snapshot) (family : AddressFamily)
    : ustring :=
  concat ((fun rule =>
    append_rule_match rule Inbound true
    ++ match rule.(spec).(protocol) with
       | Icmp => lit " -m icmp --icmp-type 0/0"
       | IcmpV6 => lit " -m icmp6 --icmpv6-type 129/0"
       | _ => []
       end
    ++ lit " -m mark ! --mark " ++ masked APPLICATION_HANDOFF_DOMAIN APPLICATION_MARK_DOMAIN_MASK
    ++ lit " -j NFQUEUE --queue-num " ++ dec APPLICATION_REPLY_QUEUE_NUMBER ++ nl)
    <$> List.filter (fun rule => supports_family rule family)
          (application_reply_candidates snapshot)).

(** A full-length network is written without its prefix length. *)
Definition original_destination (network : IpNet) : ustring :=
  match network with
  | NetV4 address prefix_len =>
      if prefix_len =? 32 then display_ip (IpV4 address) else ipnet_display network
  | NetV6 address prefix_len =>
      if prefix_len =? 128 then display_ip (IpV6 address) else ipnet_display network
  end.

(** The guard on the original tuple of a connection. *)
Definition append_original_guard (rule : Rule) : ustring :=
  lit "-A " ++ IPTABLES_OUTPUT_CHAIN
  ++ match rule.(spec).(interface) with
     | Some interface => lit " -o " ++ interface.(interface_str)
     | None => []
     end
  ++ append_protocol rule.(spec).(protocol)
  ++ lit " -m conntrack"
  ++ match rule.(spec).(peer_network) with
     | Some network => lit " --ctorigdst " ++ original_destination network
     | None => []
     end
  ++ match rule.(spec).(port) with
     | Some port => append_port (lit "--ctorigdstport") port
     | None => []
     end
  ++ lit " --ctdir ORIGINAL -m comment --comment openshield:dropped_out -j DROP" ++ nl.

Definition append_application_candidate_guard_drops (snapshot : Snapshot) (family : AddressFamily)
    (actions : list RuleAction) : ustring :=
  concat ((fun rule =>
    append_rule_match_in_chain rule IPTABLES_OUTPUT_CHAIN Outbound false
    ++ lit " -m conntrack --ctstate UNTRACKED -m comment --comment openshield:dropped_out -j DROP"
    ++ nl
    ++ (if is_none rule.(spec).(peer_network) && is_none rule.(spec).(port) then []
        else append_original_guard rule))
    <$> application_rules snapshot family actions).

Definition learning_guard_rules (snapshot : Snapshot) (family : AddressFamily) : list Rule :=
  merge_sort priority_le
    (List.filter (fun rule =>
       rule.(spec).(enabled) && (rule.(spec).(direction) ==? Outbound)
       && contains_action [Drop; Reject] rule.(spec).(action) && supports_family rule family)
     snapshot.(snap_rules)).

Definition append_learning_observer_kernel_guards (snapshot : Snapshot) (family : AddressFamily)
    : ustring :=
  concat ((fun rule =>
    append_rule_match_in_chain rule IPTABLES_LEARNING_OBSERVE_CHAIN Outbound false
    ++ lit " -m conntrack --ctdir ORIGINAL -j RETURN" ++ nl)
    <$> learning_guard_rules snapshot family).

Definition has_enabled_outbound_reject (snapshot : Snapshot) : bool :=
  existsb (fun rule =>
    rule.(spec).(enabled) && (rule.(spec).(direction) ==? Outbound)
    && (rule.(spec).(action) ==? Reject)) snapshot.(snap_rules).

Definition append_application_loopback_accept (snapshot : Snapshot) (family : AddressFamily)
    (direction : Direction) (interception : ApplicationInterception) : ustring :=
  if snapshot.(snap_mode) !=? Enforcing then []
  else
    let '(chain, interface, selector, counter) :=
      match direction with
      | Inbound =>
          (IPTABLES_INPUT_CHAIN, lit "-i lo",
           lit "-m conntrack --ctstate NEW,ESTABLISHED --ctdir ORIGINAL", lit "accepted_in")
      | Outbound =>
          (IPTABLES_OUTPUT_CHAIN, lit "-o lo",
           lit "-m conntrack --ctstate ESTABLISHED --ctdir REPLY", lit "accepted_out")
      end in
    concat ((fun protocol =>
      lit "-A " ++ chain ++ lit " " ++ interface ++ lit " -p " ++ protocol ++ lit " " ++ selector
      ++ lit " -m connmark --mark "
      ++ masked (application_flow_mark snapshot.(snap_flow_generation)) APPLICATION_CONNMARK_MASK
      ++ lit " -m comment --comment openshield:" ++ counter ++ lit " -j RETURN" ++ nl)
      <$> covered_protocols family interception).

(** ** Chains *)

Definition append_input_policy (snapshot : Snapshot) (family : AddressFamily)
    (interception : ApplicationInterception) : ustring :=
  append_dhcp_bootstrap_accepts family
  ++ append_invalid_drop IPTABLES_INPUT_CHAIN (lit "dropped_in")
  ++ append_ipv6_host_control_plane_accepts family
  ++ (if has_enabled_outbound_reject snapshot
      then append_generated_reject_reply_accept IPTABLES_INPUT_CHAIN family (lit "accepted_in")
             (application_reject_connmark snapshot.(snap_flow_generation))
      else [])
  ++ (if snapshot.(snap_mode) ==? Learning
      then lit "-A " ++ IPTABLES_INPUT_CHAIN
           ++ lit " -i lo -m conntrack --ctdir ORIGINAL -m comment --comment openshield:accepted_in -j RETURN"
           ++ nl ++ lit "-A " ++ IPTABLES_INPUT_CHAIN
           ++ lit " -m conntrack --ctstate RELATED,ESTABLISHED --ctdir REPLY -m comment --comment openshield:accepted_in -j RETURN"
           ++ nl
      else [])
  ++ (if interception !=? InterceptNone
      then append_application_loopback_accept snapshot family Inbound interception
           ++ concat ((fun protocol =>
                lit "-A " ++ IPTABLES_INPUT_CHAIN ++ lit " -p " ++ protocol
                ++ lit " -m conntrack --ctstate ESTABLISHED --ctdir REPLY -m connmark --mark "
                ++ masked (application_flow_mark snapshot.(snap_flow_generation))
                     APPLICATION_CONNMARK_MASK
                ++ lit " -m comment --comment openshield:accepted_in -j RETURN" ++ nl)
                <$> covered_protocols family interception)
      else [])
  ++ append_direct_rules snapshot family Inbound
  ++ append_reverse_rules snapshot family Inbound
  ++ (if (snapshot.(snap_mode) ==? Enforcing) && (interception ==? PerPacket)
      then append_application_reply_queues snapshot family else []).

Definition append_input_chain (snapshot : Snapshot) (family : AddressFamily)
    (interception : ApplicationInterception) : ustring :=
  (if snapshot.(snap_mode) !=? BlockAll then append_input_policy snapshot family interception
   else [])
  ++ append_counted_verdict IPTABLES_INPUT_CHAIN (lit "dropped_in") (lit "DROP").

(** The rules that consume the verdict marks of userspace. *)
Definition append_verdict_marks (snapshot : Snapshot) (family : AddressFamily)
    (interception : ApplicationInterception) : ustring :=
  let reject := masked APPLICATION_REJECT_DOMAIN APPLICATION_MARK_DOMAIN_MASK in
  let handoff := masked APPLICATION_HANDOFF_DOMAIN APPLICATION_MARK_DOMAIN_MASK in
  lit "-A " ++ IPTABLES_OUTPUT_CHAIN ++ lit " -m mark --mark " ++ reject
  ++ lit " -j CONNMARK --set-xmark "
  ++ masked (application_reject_connmark snapshot.(snap_flow_generation)) APPLICATION_CONNMARK_MASK
  ++ nl
  ++ lit "-A " ++ IPTABLES_OUTPUT_CHAIN ++ lit " -p tcp -m mark --mark " ++ reject
  ++ lit " -m comment --comment openshield:dropped_out -j REJECT --reject-with tcp-reset" ++ nl
  ++ lit "-A " ++ IPTABLES_OUTPUT_CHAIN ++ lit " -m mark --mark " ++ reject
  ++ lit " -m comment --comment openshield:dropped_out -j " ++ reject_verdict family ++ nl
  ++ lit "-A " ++ IPTABLES_OUTPUT_CHAIN ++ lit " -p tcp -m mark --mark " ++ handoff
  ++ lit " -g " ++ IPTABLES_APPLICATION_TCP_CHAIN ++ nl
  ++ (if interception ==? PerPacket
      then concat ((fun protocol =>
             lit "-A " ++ IPTABLES_OUTPUT_CHAIN ++ lit " -p " ++ protocol ++ lit " -m mark --mark "
             ++ handoff ++ lit " -g " ++ IPTABLES_APPLICATION_PACKET_CHAIN ++ nl)
             <$> application_non_tcp_protocols family)
           ++ (if snapshot.(snap_mode) ==? Learning
               then lit "-A " ++ IPTABLES_OUTPUT_CHAIN ++ lit " -m mark --mark " ++ handoff
                    ++ lit " -g " ++ IPTABLES_APPLICATION_PACKET_CHAIN ++ nl
               else [])
      else []).

(** The rules for flows that userspace has authorized. *)
Definition append_authorized_flows (snapshot : Snapshot) (family : AddressFamily)
    (interception : ApplicationInterception) : ustring :=
  append_application_loopback_accept snapshot family Outbound interception
  ++ lit "-A " ++ IPTABLES_OUTPUT_CHAIN
  ++ lit " -p tcp -m conntrack --ctstate ESTABLISHED --ctdir ORIGINAL -m connmark --mark "
  ++ masked (application_flow_mark snapshot.(snap_flow_generation)) APPLICATION_CONNMARK_MASK
  ++ lit " -m comment --comment openshield:accepted_out -j RETURN" ++ nl
  ++ (if interception ==? PerPacket
      then concat ((fun protocol =>
             lit "-A " ++ IPTABLES_OUTPUT_CHAIN ++ lit " -p " ++ protocol
             ++ lit " -m conntrack --ctdir ORIGINAL -j CONNMARK --set-xmark "
             ++ masked 0 APPLICATION_CONNMARK_MASK ++ nl)
             <$> application_non_tcp_protocols family)
      else []).

Definition append_output_policy (snapshot : Snapshot) (family : AddressFamily)
    (interception : ApplicationInterception) : ustring :=
  let mode := snapshot.(snap_mode) in
  (if mode ==? Enforcing then append_invalid_drop IPTABLES_OUTPUT_CHAIN (lit "dropped_out") else [])
  ++ (if has_enabled_outbound_reject snapshot
      then append_generated_reject_reply_accept IPTABLES_OUTPUT_CHAIN family (lit "accepted_out")
             (application_reject_connmark snapshot.(snap_flow_generation))
      else [])
  ++ (if (mode ==? Enforcing) || (mode ==? Learning)
      then append_direct_rules_for_actions snapshot family Outbound [Drop] false
           ++ append_direct_rules_for_actions snapshot family Outbound [Reject] false
      else [])
  ++ (if interception !=? InterceptNone
      then append_verdict_marks snapshot family interception else [])
  ++ (if interception !=? InterceptNone
      then append_authorized_flows snapshot family interception else [])
  ++ append_reverse_rules snapshot family Outbound
  ++ (if mode ==? Enforcing
      then append_application_rule_queues snapshot family [Drop; Reject; Accept]
           ++ append_application_candidate_guard_drops snapshot family [Drop; Reject; Accept]
      else if mode ==? Learning
      then append_application_rule_queues snapshot family [Drop; Reject]
           ++ append_application_candidate_guard_drops snapshot family [Drop; Reject]
      else [])
  ++ (if mode ==? Learning
      then append_direct_rules_for_actions snapshot family Outbound [Accept] false
           ++ lit "-A " ++ IPTABLES_OUTPUT_CHAIN
           ++ lit " -m comment --comment openshield:accepted_out -j RETURN" ++ nl
      else append_direct_rules_for_actions snapshot family Outbound [Accept] false).

Definition append_output_chain (snapshot : Snapshot) (family : AddressFamily)
    (interception : ApplicationInterception) : ustring :=
  (if snapshot.(snap_mode) !=? BlockAll then append_output_policy snapshot family interception
   else [])
  ++ append_counted_verdict IPTABLES_OUTPUT_CHAIN (lit "dropped_out") (lit "DROP").

Definition append_application_chains (snapshot : Snapshot) (interception : ApplicationInterception)
    : ustring :=
  let flow :=
    application_flow_mark (Z.land snapshot.(snap_flow_generation) MAX_FLOW_GENERATION) in
  let authorize chain :=
    lit "-A " ++ chain ++ lit " -j CONNMARK --set-xmark " ++ masked flow APPLICATION_CONNMARK_MASK
    ++ nl ++ append_clear_reserved_mark chain
    ++ append_application_accept chain snapshot.(snap_mode) in
  (if interception !=? InterceptNone
   then authorize IPTABLES_APPLICATION_TCP_CHAIN
        ++ (if interception ==? PerPacket then authorize IPTABLES_APPLICATION_PACKET_CHAIN else [])
   else [])
  ++ append_counted_verdict IPTABLES_APPLICATION_TCP_CHAIN (lit "dropped_out") (lit "DROP")
  ++ append_counted_verdict IPTABLES_APPLICATION_PACKET_CHAIN (lit "dropped_out") (lit "DROP").

Definition observed_selectors : list ustring := [
  lit "-p tcp -m tcp --tcp-flags FIN,SYN,RST,ACK SYN -m conntrack --ctstate NEW --ctdir ORIGINAL";
  lit "-p tcp -m tcp --tcp-flags FIN,RST NONE -m conntrack --ctstate ESTABLISHED --ctdir ORIGINAL -m limit --limit 64/sec --limit-burst 32";
  lit "! -p tcp -m conntrack --ctdir ORIGINAL"
].

Definition ownership_line (chain : ustring) : ustring :=
  lit "-A " ++ chain ++ lit " -m comment --comment " ++ IPTABLES_OWNERSHIP_COMMENT ++ nl.

(** The [mangle] half of [compile_family]. *)
Definition mangle_program (snapshot : Snapshot) (family : AddressFamily) : ustring :=
  lit "*mangle" ++ nl
  ++ concat ((fun chain => lit "-F " ++ chain ++ nl) <$> owned_mangle_chains)
  ++ ownership_line IPTABLES_MARK_SANITIZE_CHAIN
  ++ append_reserved_mark_sanitizer IPTABLES_MARK_SANITIZE_CHAIN
  ++ lit "-A " ++ IPTABLES_MARK_SANITIZE_CHAIN ++ lit " -j RETURN" ++ nl
  ++ ownership_line IPTABLES_LEARNING_OBSERVE_CHAIN
  ++ append_reserved_mark_sanitizer IPTABLES_LEARNING_OBSERVE_CHAIN
  ++ (if snapshot.(snap_mode) ==? Learning
      then append_learning_observer_kernel_guards snapshot family
           ++ concat ((fun selector =>
                lit "-A " ++ IPTABLES_LEARNING_OBSERVE_CHAIN ++ lit " " ++ selector
                ++ lit " -m comment --comment openshield:learned_out -j NFQUEUE --queue-num "
                ++ dec APPLICATION_LEARNING_QUEUE_NUMBER ++ lit " --queue-bypass" ++ nl)
                <$> observed_selectors)
      else [])
  ++ lit "-A " ++ IPTABLES_LEARNING_OBSERVE_CHAIN ++ lit " -j RETURN" ++ nl
  ++ lit "COMMIT" ++ nl.

(** The [filter] half of [compile_family]. *)
Definition filter_program (snapshot : Snapshot) (family : AddressFamily)
    (interception : ApplicationInterception) : ustring :=
  lit "*filter" ++ nl
  ++ concat ((fun chain => lit "-F " ++ chain ++ nl) <$> owned_chains)
  ++ concat (ownership_line <$> owned_chains)
  ++ append_input_chain snapshot family interception
  ++ append_output_chain snapshot family interception
  ++ append_application_chains snapshot interception
  ++ append_forward_chain snapshot.(snap_mode)
  ++ lit "COMMIT" ++ nl.

Definition compile_family (snapshot : Snapshot) (family : AddressFamily)
    (interception : ApplicationInterception) : ustring :=
  let mangle := mangle_program snapshot family in
  let filter := filter_program snapshot family interception in
  if snapshot.(snap_mode) ==? BlockAll then filter ++ mangle else mangle ++ filter.

Definition compile_iptables (snapshot : Snapshot) : Result CompileError IptablesPolicy :=
  map_err InvalidState (Snapshot_validate snapshot) ;;
  let interception := Snapshot_application_interception snapshot in
  mret (mkIptablesPolicy (compile_family snapshot FamilyIpv4 interception)
          (compile_family snapshot FamilyIpv6 interception)).
End Compiler.
