(* ===== verification/IptScript.v ===== *)
(** * The structure of the iptables programs

    The commands of an [iptables-restore] program as typed rules, and the proof
    that printing them gives the compiler's text.  [run] reads a chain the way
    iptables documents it: rules in order, a rule applies when all of its
    matches hold, [MARK] and [CONNMARK] change the marks and go on, and the first
    other target decides.  Which matches hold for a packet is a parameter,
    except for the matches on marks, which look at the marks. *)

From S2P Require Import Prelude Text Net Application Model State Marks Nftables NftScript Iptables.
Local Open Scope Z_scope.

Inductive Match : Type :=
| IText (text : ustring)
| INetwork (direction : Direction) (network : IpNet)
| IInterface (direction : Direction) (interface : InterfaceName)
| IProtocol (protocol : TransportProtocol)
| IReply
| IOriginal
| IUntracked
| IPort (reverse : bool) (port : PortRange)
| IOriginalTuple (network : option IpNet) (port : option PortRange)
| IMark (domain : Z)
| IMarkNot (domain : Z)
| IConnmark (value : Z).

Inductive Target : Type :=
| TNone
| TReturn
| TDrop
| TReject (how : ustring)
| TQueue (number : Z)
| TQueueBypass (number : Z)
| TGoto (chain : ustring)
| TMark (value : Z)
| TConnmark (value : Z).

Record IptRule : Type := mkIptRule {
  ipt_chain : ustring;
  ipt_matches : list Match;
  ipt_comment : option ustring;
  ipt_target : Target
}.

Inductive Command : Type :=
| Table (name : ustring)
| Flush (chain : ustring)
| Append (rule : IptRule)
| Commit.

(** ** Printing *)

Section Script.
Context `{IpNetLib}.

Definition print_match (m : Match) : ustring :=
  match m with
  | IText t => lit " " ++ t
  | INetwork d n => (if d ==? Inbound then lit " -s " else lit " -d ") ++ ipnet_display n
  | IInterface d i => (if d ==? Inbound then lit " -i " else lit " -o ") ++ interface_str i
  | IProtocol p => append_protocol p
  | IReply => lit " -m conntrack --ctstate ESTABLISHED --ctdir REPLY"
  | IOriginal => lit " -m conntrack --ctdir ORIGINAL"
  | IUntracked => lit " -m conntrack --ctstate UNTRACKED"
  | IPort reverse p => append_port (if reverse then lit "--sport" else lit "--dport") p
  | IOriginalTuple n p =>
      lit " -m conntrack"
      ++ match n with Some n => lit " --ctorigdst " ++ original_destination n | None => [] end
      ++ match p with Some p => append_port (lit "--ctorigdstport") p | None => [] end
      ++ lit " --ctdir ORIGINAL"
  | IMark d => lit " -m mark --mark " ++ masked d APPLICATION_MARK_DOMAIN_MASK
  | IMarkNot d => lit " -m mark ! --mark " ++ masked d APPLICATION_MARK_DOMAIN_MASK
  | IConnmark v => lit " -m connmark --mark " ++ masked v APPLICATION_CONNMARK_MASK
  end.

Definition print_target (t : Target) : ustring :=
  match t with
  | TNone => []
  | TReturn => lit " -j RETURN"
  | TDrop => lit " -j DROP"
  | TReject how => lit " -j " ++ how
  | TQueue n => lit " -j NFQUEUE --queue-num " ++ dec n
  | TQueueBypass n => lit " -j NFQUEUE --queue-num " ++ dec n ++ lit " --queue-bypass"
  | TGoto c => lit " -g " ++ c
  | TMark v => lit " -j MARK --set-xmark " ++ masked v APPLICATION_MARK_DOMAIN_MASK
  | TConnmark v => lit " -j CONNMARK --set-xmark " ++ masked v APPLICATION_CONNMARK_MASK
  end.

Definition print_comment (c : option ustring) : ustring :=
  match c with Some c => lit " -m comment --comment " ++ c | None => [] end.

Definition print_rule (r : IptRule) : ustring :=
  lit "-A " ++ ipt_chain r ++ concat (print_match <$> ipt_matches r)
  ++ print_comment (ipt_comment r) ++ print_target (ipt_target r) ++ nl.

Definition print_rules (rs : list IptRule) : ustring := concat (print_rule <$> rs).

Definition print_command (c : Command) : ustring :=
  match c with
  | Table name => lit "*" ++ name ++ nl
  | Flush chain => lit "-F " ++ chain ++ nl
  | Append r => print_rule r
  | Commit => lit "COMMIT" ++ nl
  end.

Definition print_commands (cs : list Command) : ustring := concat (print_command <$> cs).

(** ** The rules of every part *)

Definition counted (counter : ustring) : option ustring := Some (lit "openshield:" ++ counter).
Definition ACCEPTED_IN : option ustring := counted (lit "accepted_in").
Definition ACCEPTED_OUT : option ustring := counted (lit "accepted_out").
Definition DROPPED_IN : option ustring := counted (lit "dropped_in").
Definition DROPPED_OUT : option ustring := counted (lit "dropped_out").

Definition opt_match {A} (f : A -> Match) (o : option A) : list Match :=
  match o with Some a => [f a] | None => [] end.

Definition protocol_matches (p : TransportProtocol) : list Match :=
  match p with Any => [] | _ => [IProtocol p] end.

Definition rule_matches (rule : Rule) (d : Direction) (reverse : bool) : list Match :=
  opt_match (INetwork d) rule.(spec).(peer_network)
  ++ opt_match (IInterface d) rule.(spec).(interface)
  ++ protocol_matches rule.(spec).(protocol)
  ++ (if reverse then [IReply] else [])
  ++ opt_match (IPort reverse) rule.(spec).(port).

Definition chain_of (d : Direction) : ustring :=
  match d with Inbound => IPTABLES_INPUT_CHAIN | Outbound => IPTABLES_OUTPUT_CHAIN end.

Definition target_of_action (rule : Rule) (family : AddressFamily) (a : RuleAction) : Target :=
  match a with
  | Accept => TReturn
  | Drop => TDrop
  | Reject =>
      TReject (if rule.(spec).(protocol) ==? Tcp then lit "REJECT --reject-with tcp-reset"
               else reject_verdict family)
  end.

Definition counter_of_action (d : Direction) (a : RuleAction) : option ustring :=
  match d, a with
  | Inbound, Accept => ACCEPTED_IN
  | Outbound, Accept => ACCEPTED_OUT
  | _, (Drop | Reject) => DROPPED_OUT
  end.

Definition verdict_rules (rule : Rule) (family : AddressFamily) (d : Direction) (reverse : bool)
    (a : RuleAction) (connmark : Z) : list IptRule :=
  (if a ==? Reject
   then [mkIptRule (chain_of d) (rule_matches rule d reverse) None (TConnmark connmark)] else [])
  ++ [mkIptRule (chain_of d) (rule_matches rule d reverse) (counter_of_action d a)
        (target_of_action rule family a)].

Definition direct_ipt (s : Snapshot) (family : AddressFamily) (d : Direction)
    (actions : list RuleAction) : list IptRule :=
  concat ((fun rule => verdict_rules rule family d false rule.(spec).(action)
             (application_reject_connmark s.(snap_flow_generation)))
    <$> direct_rules s family d actions).

Definition reverse_ipt (s : Snapshot) (family : AddressFamily) (d : Direction) : list IptRule :=
  concat ((fun rule => verdict_rules rule family d true Accept
             (application_reject_connmark s.(snap_flow_generation)))
    <$> reverse_rules s family d).

Definition queue_ipt_of (rule : Rule) : list IptRule :=
  let matches := rule_matches rule Outbound false ++ [IOriginal] in
  [mkIptRule IPTABLES_OUTPUT_CHAIN matches None (TMark APPLICATION_PENDING_DOMAIN);
   mkIptRule IPTABLES_OUTPUT_CHAIN matches None (TQueue APPLICATION_QUEUE_NUMBER)].

Definition queue_ipt (s : Snapshot) (family : AddressFamily) (actions : list RuleAction)
    : list IptRule :=
  concat (queue_ipt_of <$> application_rules s family actions).

Definition guard_ipt_of (rule : Rule) : list IptRule :=
  mkIptRule IPTABLES_OUTPUT_CHAIN (rule_matches rule Outbound false ++ [IUntracked]) DROPPED_OUT TDrop
  :: (if is_none rule.(spec).(peer_network) && is_none rule.(spec).(port) then []
      else [mkIptRule IPTABLES_OUTPUT_CHAIN
              (opt_match (IInterface Outbound) rule.(spec).(interface)
               ++ protocol_matches rule.(spec).(protocol)
               ++ [IOriginalTuple rule.(spec).(peer_network) rule.(spec).(port)])
              DROPPED_OUT TDrop]).

Definition guard_ipt (s : Snapshot) (family : AddressFamily) (actions : list RuleAction)
    : list IptRule :=
  concat (guard_ipt_of <$> application_rules s family actions).

Definition reply_queue_ipt (s : Snapshot) (family : AddressFamily) : list IptRule :=
  (fun rule => mkIptRule IPTABLES_INPUT_CHAIN
     (rule_matches rule Inbound true
      ++ match rule.(spec).(protocol) with
         | Icmp => [IText (lit "-m icmp --icmp-type 0/0")]
         | IcmpV6 => [IText (lit "-m icmp6 --icmpv6-type 129/0")]
         | _ => []
         end
      ++ [IMarkNot APPLICATION_HANDOFF_DOMAIN]) None (TQueue APPLICATION_REPLY_QUEUE_NUMBER))
  <$> List.filter (fun rule => supports_family rule family) (application_reply_candidates s).

Definition protocol_text (p : ustring) : Match := IText (lit "-p " ++ p).

Definition flow_mark (s : Snapshot) : Z := application_flow_mark s.(snap_flow_generation).
Definition reject_mark (s : Snapshot) : Z := application_reject_connmark s.(snap_flow_generation).

Definition loopback_ipt (s : Snapshot) (family : AddressFamily) (d : Direction)
    (i : ApplicationInterception) : list IptRule :=
  if s.(snap_mode) !=? Enforcing then []
  else
    (fun p => mkIptRule (chain_of d)
       ([IText (match d with Inbound => lit "-i lo" | Outbound => lit "-o lo" end); protocol_text p]
        ++ match d with
           | Inbound => [IText (lit "-m conntrack --ctstate NEW,ESTABLISHED --ctdir ORIGINAL")]
           | Outbound => [IReply]
           end ++ [IConnmark (flow_mark s)])
       (match d with Inbound => ACCEPTED_IN | Outbound => ACCEPTED_OUT end) TReturn)
    <$> covered_protocols family i.

Definition reject_reply_ipt (s : Snapshot) (family : AddressFamily) (d : Direction)
    : list IptRule :=
  let rest := [IText (lit "-m conntrack --ctstate RELATED --ctdir REPLY");
               IConnmark (reject_mark s)] in
  let counter := match d with Inbound => ACCEPTED_IN | Outbound => ACCEPTED_OUT end in
  [mkIptRule (chain_of d) (IText (lit "-p tcp -m tcp --tcp-flags RST RST") :: rest) counter TReturn;
   mkIptRule (chain_of d)
     (IText (match family with
             | FamilyIpv4 => lit "-p icmp -m icmp --icmp-type 3/3"
             | FamilyIpv6 => lit "-p ipv6-icmp -m icmp6 --icmpv6-type 1/4"
             end) :: rest) counter TReturn].

Definition invalid_ipt (d : Direction) : IptRule :=
  mkIptRule (chain_of d) [IText (lit "-m conntrack --ctstate INVALID")]
    (match d with Inbound => DROPPED_IN | Outbound => DROPPED_OUT end) TDrop.

Definition dhcp_ipt (family : AddressFamily) : IptRule :=
  mkIptRule IPTABLES_INPUT_CHAIN
    [IText (match family with
            | FamilyIpv4 => lit "-d 255.255.255.255/32 -p udp -m udp --sport 67 --dport 68"
            | FamilyIpv6 => lit "-s fe80::/10 -p udp -m udp --sport 547 --dport 546"
            end)] ACCEPTED_IN TReturn.

Definition control_plane_ipt (family : AddressFamily) : list IptRule :=
  if family !=? FamilyIpv6 then []
  else (fun t => mkIptRule IPTABLES_INPUT_CHAIN [IText t] ACCEPTED_IN TReturn)
       <$> control_plane_selectors.

(** *** Chains *)

Definition input_policy_ipt (s : Snapshot) (family : AddressFamily) (i : ApplicationInterception)
    : list IptRule :=
  [dhcp_ipt family; invalid_ipt Inbound]
  ++ control_plane_ipt family
  ++ (if has_enabled_outbound_reject s then reject_reply_ipt s family Inbound else [])
  ++ (if s.(snap_mode) ==? Learning
      then [mkIptRule IPTABLES_INPUT_CHAIN [IText (lit "-i lo"); IOriginal] ACCEPTED_IN TReturn;
            mkIptRule IPTABLES_INPUT_CHAIN
              [IText (lit "-m conntrack --ctstate RELATED,ESTABLISHED --ctdir REPLY")]
              ACCEPTED_IN TReturn]
      else [])
  ++ (if i !=? InterceptNone
      then loopback_ipt s family Inbound i
           ++ ((fun p => mkIptRule IPTABLES_INPUT_CHAIN
                  [protocol_text p; IReply; IConnmark (flow_mark s)] ACCEPTED_IN TReturn)
               <$> covered_protocols family i)
      else [])
  ++ direct_ipt s family Inbound [Accept]
  ++ reverse_ipt s family Inbound
  ++ (if (s.(snap_mode) ==? Enforcing) && (i ==? PerPacket) then reply_queue_ipt s family else []).

Definition input_ipt (s : Snapshot) (family : AddressFamily) (i : ApplicationInterception)
    : list IptRule :=
  (if s.(snap_mode) !=? BlockAll then input_policy_ipt s family i else [])
  ++ [mkIptRule IPTABLES_INPUT_CHAIN [] DROPPED_IN TDrop].

Definition verdict_mark_ipt (s : Snapshot) (family : AddressFamily) (i : ApplicationInterception)
    : list IptRule :=
  [mkIptRule IPTABLES_OUTPUT_CHAIN [IMark APPLICATION_REJECT_DOMAIN] None (TConnmark (reject_mark s));
   mkIptRule IPTABLES_OUTPUT_CHAIN [IText (lit "-p tcp"); IMark APPLICATION_REJECT_DOMAIN]
     DROPPED_OUT (TReject (lit "REJECT --reject-with tcp-reset"));
   mkIptRule IPTABLES_OUTPUT_CHAIN [IMark APPLICATION_REJECT_DOMAIN] DROPPED_OUT
     (TReject (reject_verdict family));
   mkIptRule IPTABLES_OUTPUT_CHAIN [IText (lit "-p tcp"); IMark APPLICATION_HANDOFF_DOMAIN] None
     (TGoto IPTABLES_APPLICATION_TCP_CHAIN)]
  ++ (if i ==? PerPacket
      then ((fun p => mkIptRule IPTABLES_OUTPUT_CHAIN
               [protocol_text p; IMark APPLICATION_HANDOFF_DOMAIN] None
               (TGoto IPTABLES_APPLICATION_PACKET_CHAIN))
            <$> application_non_tcp_protocols family)
           ++ (if s.(snap_mode) ==? Learning
               then [mkIptRule IPTABLES_OUTPUT_CHAIN [IMark APPLICATION_HANDOFF_DOMAIN] None
                       (TGoto IPTABLES_APPLICATION_PACKET_CHAIN)]
               else [])
      else []).

Definition authorized_ipt (s : Snapshot) (family : AddressFamily) (i : ApplicationInterception)
    : list IptRule :=
  loopback_ipt s family Outbound i
  ++ [mkIptRule IPTABLES_OUTPUT_CHAIN
        [IText (lit "-p tcp -m conntrack --ctstate ESTABLISHED --ctdir ORIGINAL");
         IConnmark (flow_mark s)] ACCEPTED_OUT TReturn]
  ++ (if i ==? PerPacket
      then (fun p => mkIptRule IPTABLES_OUTPUT_CHAIN [protocol_text p; IOriginal] None (TConnmark 0))
           <$> application_non_tcp_protocols family
      else []).

Definition candidate_ipt (s : Snapshot) (family : AddressFamily) : list IptRule :=
  if s.(snap_mode) ==? Enforcing
  then queue_ipt s family [Drop; Reject; Accept] ++ guard_ipt s family [Drop; Reject; Accept]
  else if s.(snap_mode) ==? Learning
  then queue_ipt s family [Drop; Reject] ++ guard_ipt s family [Drop; Reject]
  else [].

Definition output_accepts_ipt (s : Snapshot) (family : AddressFamily) : list IptRule :=
  direct_ipt s family Outbound [Accept]
  ++ (if s.(snap_mode) ==? Learning
      then [mkIptRule IPTABLES_OUTPUT_CHAIN [] ACCEPTED_OUT TReturn] else []).

Definition output_policy_ipt (s : Snapshot) (family : AddressFamily) (i : ApplicationInterception)
    : list IptRule :=
  (if s.(snap_mode) ==? Enforcing then [invalid_ipt Outbound] else [])
  ++ (if has_enabled_outbound_reject s then reject_reply_ipt s family Outbound else [])
  ++ (if (s.(snap_mode) ==? Enforcing) || (s.(snap_mode) ==? Learning)
      then direct_ipt s family Outbound [Drop] ++ direct_ipt s family Outbound [Reject] else [])
  ++ (if i !=? InterceptNone then verdict_mark_ipt s family i else [])
  ++ (if i !=? InterceptNone then authorized_ipt s family i else [])
  ++ reverse_ipt s family Outbound
  ++ candidate_ipt s family
  ++ output_accepts_ipt s family.

Definition output_ipt (s : Snapshot) (family : AddressFamily) (i : ApplicationInterception)
    : list IptRule :=
  (if s.(snap_mode) !=? BlockAll then output_policy_ipt s family i else [])
  ++ [mkIptRule IPTABLES_OUTPUT_CHAIN [] DROPPED_OUT TDrop].

Definition authorize_ipt (s : Snapshot) (chain : ustring) : list IptRule :=
  [mkIptRule chain [] None
     (TConnmark (application_flow_mark (Z.land s.(snap_flow_generation) MAX_FLOW_GENERATION)));
   mkIptRule chain [] None (TMark 0);
   mkIptRule chain []
     (Some (if s.(snap_mode) ==? Learning then lit "openshield:accepted_out+learned_out"
            else lit "openshield:accepted_out")) TReturn].

Definition application_ipt (s : Snapshot) (i : ApplicationInterception) : list IptRule :=
  (if i !=? InterceptNone
   then authorize_ipt s IPTABLES_APPLICATION_TCP_CHAIN
        ++ (if i ==? PerPacket then authorize_ipt s IPTABLES_APPLICATION_PACKET_CHAIN else [])
   else [])
  ++ [mkIptRule IPTABLES_APPLICATION_TCP_CHAIN [] DROPPED_OUT TDrop;
      mkIptRule IPTABLES_APPLICATION_PACKET_CHAIN [] DROPPED_OUT TDrop].

Definition forward_ipt (m : Mode) : list IptRule :=
  if m ==? BlockAll then [mkIptRule IPTABLES_FORWARD_CHAIN [] DROPPED_OUT TDrop]
  else [mkIptRule IPTABLES_FORWARD_CHAIN [] None TReturn].

Definition owner_ipt (chain : ustring) : IptRule :=
  mkIptRule chain [] (Some IPTABLES_OWNERSHIP_COMMENT) TNone.

Definition sanitizer_ipt (chain : ustring) : IptRule := mkIptRule chain [IMarkNot 0] None (TMark 0).

Definition observe_ipt (s : Snapshot) (family : AddressFamily) : list IptRule :=
  if s.(snap_mode) ==? Learning
  then ((fun rule => mkIptRule IPTABLES_LEARNING_OBSERVE_CHAIN
           (rule_matches rule Outbound false ++ [IOriginal]) None TReturn)
        <$> learning_guard_rules s family)
       ++ ((fun t => mkIptRule IPTABLES_LEARNING_OBSERVE_CHAIN [IText t] (counted (lit "learned_out"))
              (TQueueBypass APPLICATION_LEARNING_QUEUE_NUMBER))
           <$> observed_selectors)
  else [].

Definition mangle_commands (s : Snapshot) (family : AddressFamily) : list Command :=
  [Table (lit "mangle")] ++ (Flush <$> owned_mangle_chains)
  ++ (Append <$> [owner_ipt IPTABLES_MARK_SANITIZE_CHAIN; sanitizer_ipt IPTABLES_MARK_SANITIZE_CHAIN;
                  mkIptRule IPTABLES_MARK_SANITIZE_CHAIN [] None TReturn;
                  owner_ipt IPTABLES_LEARNING_OBSERVE_CHAIN;
                  sanitizer_ipt IPTABLES_LEARNING_OBSERVE_CHAIN]
                 ++ observe_ipt s family
                 ++ [mkIptRule IPTABLES_LEARNING_OBSERVE_CHAIN [] None TReturn])
  ++ [Commit].

Definition filter_rules (s : Snapshot) (family : AddressFamily) (i : ApplicationInterception)
    : list IptRule :=
  (owner_ipt <$> owned_chains) ++ input_ipt s family i ++ output_ipt s family i
  ++ application_ipt s i ++ forward_ipt s.(snap_mode).

Definition filter_commands (s : Snapshot) (family : AddressFamily) (i : ApplicationInterception)
    : list Command :=
  [Table (lit "filter")] ++ (Flush <$> owned_chains) ++ (Append <$> filter_rules s family i)
  ++ [Commit].

Definition family_commands (s : Snapshot) (family : AddressFamily) (i : ApplicationInterception)
    : list Command :=
  if s.(snap_mode) ==? BlockAll then filter_commands s family i ++ mangle_commands s family
  else mangle_commands s family ++ filter_commands s family i.

(** ** Printing the rules gives the compiler's text *)

Definition print_matches (ms : list Match) : ustring := concat (print_match <$> ms).

Lemma print_matches_app ms ms' : print_matches (ms ++ ms') = print_matches ms ++ print_matches ms'.
Proof. unfold print_matches. by rewrite fmap_app, concat_app. Qed.

Lemma print_matches_opt {A} (f : A -> Match) o :
  print_matches (opt_match f o) = match o with Some a => print_match (f a) | None => [] end.
Proof. destruct o; [|done]. apply app_nil_r. Qed.

Lemma print_matches_protocol p : print_matches (protocol_matches p) = append_protocol p.
Proof. by destruct p. Qed.

Lemma rule_match_print rule chain d reverse :
  append_rule_match_in_chain rule chain d reverse
  = lit "-A " ++ chain ++ print_matches (rule_matches rule d reverse).
Proof.
  unfold append_rule_match_in_chain, rule_matches.
  rewrite !print_matches_app, !print_matches_opt, print_matches_protocol.
  do 2 same_part. same_part_by ltac:(by destruct (peer_network (spec rule))).
  same_part_by ltac:(by destruct (interface (spec rule))). same_part.
  same_part_by ltac:(by destruct reverse). by destruct (port (spec rule)), reverse.
Qed.

Lemma print_rules_app rs rs' : print_rules (rs ++ rs') = print_rules rs ++ print_rules rs'.
Proof. unfold print_rules. by rewrite fmap_app, concat_app. Qed.

Lemma print_rules_one r : print_rules [r] = print_rule r.
Proof. apply app_nil_r. Qed.

Lemma print_rules_cons r rs : print_rules (r :: rs) = print_rule r ++ print_rules rs.
Proof. done. Qed.

Lemma print_rules_if (b : bool) rs : print_rules (if b then rs else []) = if b then print_rules rs else [].
Proof. by destruct b. Qed.

Lemma print_rules_fmap {A} (f : A -> IptRule) (g : A -> ustring) l :
  (forall a, g a = print_rule (f a)) -> concat (g <$> l) = print_rules (f <$> l).
Proof.
  intros Hfg. unfold print_rules. f_equal. rewrite <-list_fmap_compose.
  apply list_fmap_ext. intros _ x _. apply Hfg.
Qed.

Lemma print_rules_concat {A} (f : A -> list IptRule) (g : A -> ustring) l :
  (forall a, g a = print_rules (f a)) -> concat (g <$> l) = print_rules (concat (f <$> l)).
Proof.
  intros Hfg. induction l as [|a l IH]; [done|]. rewrite !fmap_cons. cbn [concat].
  by rewrite print_rules_app, <-Hfg, IH.
Qed.

Lemma print_rule_matches chain ms comment target :
  print_rule (mkIptRule chain ms comment target)
  = (lit "-A " ++ chain ++ print_matches ms) ++ print_comment comment ++ print_target target ++ nl.
Proof. unfold print_rule. cbn [ipt_chain ipt_matches ipt_comment ipt_target]. by rewrite <-!app_assoc. Qed.

Lemma verdict_rules_print rule family d reverse a connmark :
  append_rule_verdict rule family d reverse a connmark
  = print_rules (verdict_rules rule family d reverse a connmark).
Proof.
  unfold append_rule_verdict, verdict_rules, append_rule_match.
  rewrite print_rules_app, print_rules_if, !print_rules_one, !print_rule_matches, !rule_match_print.
  change (match d with Inbound => IPTABLES_INPUT_CHAIN | Outbound => IPTABLES_OUTPUT_CHAIN end)
    with (chain_of d).
  same_part_by ltac:(destruct (a ==? Reject); [|done]; cbn [print_comment print_target];
    by rewrite <-!app_assoc).
  rewrite <-!app_assoc. do 3 same_part.
  destruct d, a; cbn [counter_of_action target_of_action print_target]; try reflexivity;
    by destruct (_ ==? Tcp).
Qed.

Lemma direct_ipt_print s family d actions :
  append_direct_rules_for_actions s family d actions false = print_rules (direct_ipt s family d actions).
Proof. apply print_rules_concat. intros rule. apply verdict_rules_print. Qed.

Lemma reverse_ipt_print s family d :
  append_reverse_rules s family d = print_rules (reverse_ipt s family d).
Proof. apply print_rules_concat. intros rule. apply verdict_rules_print. Qed.

Lemma queue_ipt_print s family actions :
  append_application_rule_queues s family actions = print_rules (queue_ipt s family actions).
Proof.
  apply print_rules_concat. intros rule. unfold queue_ipt_of.
  rewrite print_rules_cons, print_rules_one, !print_rule_matches, !rule_match_print, !print_matches_app.
  rewrite <-!app_assoc. reflexivity.
Qed.

Lemma guard_ipt_print s family actions :
  append_application_candidate_guard_drops s family actions = print_rules (guard_ipt s family actions).
Proof.
  apply print_rules_concat. intros rule. unfold guard_ipt_of.
  rewrite print_rules_cons, print_rule_matches, !rule_match_print, !print_matches_app.
  change (lit " -m conntrack --ctstate UNTRACKED -m comment --comment openshield:dropped_out -j DROP")
    with (print_matches [IUntracked] ++ print_comment DROPPED_OUT ++ print_target TDrop).
  rewrite <-!app_assoc. do 7 same_part.
  destruct (_ && _); [done|]. rewrite print_rules_one. unfold append_original_guard.
  rewrite print_rule_matches, !print_matches_app, print_matches_opt, print_matches_protocol, <-!app_assoc.
  do 2 same_part. same_part_by ltac:(by destruct (interface (spec rule))). same_part.
  unfold print_matches. cbn [fmap list_fmap concat print_match]. rewrite app_nil_r, <-!app_assoc.
  reflexivity.
Qed.

Lemma reply_queue_ipt_print s family :
  append_application_reply_queues s family = print_rules (reply_queue_ipt s family).
Proof.
  apply print_rules_fmap. intros rule. unfold append_rule_match.
  rewrite rule_match_print, print_rule_matches, !print_matches_app, <-!app_assoc. do 3 same_part.
  by destruct (protocol (spec rule)).
Qed.

Lemma loopback_ipt_print s family d i :
  append_application_loopback_accept s family d i = print_rules (loopback_ipt s family d i).
Proof.
  unfold append_application_loopback_accept, loopback_ipt. destruct (_ !=? Enforcing); [done|].
  destruct d; apply print_rules_fmap; intros p; rewrite print_rule_matches; unfold print_matches;
    cbn [app fmap list_fmap concat print_match protocol_text]; rewrite app_nil_r, <-!app_assoc; reflexivity.
Qed.

Lemma reject_reply_ipt_print s family d :
  append_generated_reject_reply_accept (chain_of d) family
    (match d with Inbound => lit "accepted_in" | Outbound => lit "accepted_out" end)
    (application_reject_connmark (snap_flow_generation s))
  = print_rules (reject_reply_ipt s family d).
Proof.
  unfold append_generated_reject_reply_accept, reject_reply_ipt.
  rewrite print_rules_cons, print_rules_one, !print_rule_matches. unfold print_matches.
  cbn [fmap list_fmap concat print_match]. rewrite !app_nil_r, <-!app_assoc.
  destruct d, family; reflexivity.
Qed.

(** A rule without rule-specific matches prints by computation. *)
Ltac fixed_rule :=
  unfold print_rule; cbn [ipt_chain ipt_matches ipt_comment ipt_target app fmap list_fmap concat
    print_match protocol_text print_comment print_target]; rewrite ?app_nil_r, <-?app_assoc; reflexivity.

Lemma counted_verdict_print d :
  append_counted_verdict (chain_of d)
    (match d with Inbound => lit "dropped_in" | Outbound => lit "dropped_out" end) (lit "DROP")
  = print_rule (mkIptRule (chain_of d) []
      (match d with Inbound => DROPPED_IN | Outbound => DROPPED_OUT end) TDrop).
Proof. destruct d; fixed_rule. Qed.

Lemma control_plane_print family :
  append_ipv6_host_control_plane_accepts family = print_rules (control_plane_ipt family).
Proof.
  unfold append_ipv6_host_control_plane_accepts, control_plane_ipt.
  destruct (_ !=? _); [done|]. apply print_rules_fmap. intros t. fixed_rule.
Qed.

Lemma input_policy_print s family i :
  append_input_policy s family i = print_rules (input_policy_ipt s family i).
Proof.
  unfold append_input_policy, input_policy_ipt, append_direct_rules.
  rewrite !print_rules_app, !print_rules_if, print_rules_app.
  rewrite <-control_plane_print, <-(reject_reply_ipt_print s family Inbound), <-loopback_ipt_print,
    <-direct_ipt_print, <-reverse_ipt_print, <-reply_queue_ipt_print.
  rewrite print_rules_cons, print_rules_one, <-!app_assoc.
  same_part_by ltac:(destruct family; fixed_rule). same_part_by ltac:(fixed_rule). do 2 same_part.
  same_part_by ltac:(destruct (_ ==? Learning); [|done]; rewrite print_rules_cons, print_rules_one; fixed_rule).
  same_part_by ltac:(destruct (_ !=? _); [|done]; f_equal; apply print_rules_fmap; intros p; fixed_rule).
  reflexivity.
Qed.

Lemma verdict_mark_print s family i :
  append_verdict_marks s family i = print_rules (verdict_mark_ipt s family i).
Proof.
  unfold append_verdict_marks, verdict_mark_ipt.
  rewrite print_rules_app, !print_rules_if, print_rules_app, print_rules_if, !print_rules_cons.
  change (print_rules []) with (@nil char). rewrite app_nil_r.
  erewrite <-(print_rules_fmap _ (fun protocol =>
    lit "-A " ++ IPTABLES_OUTPUT_CHAIN ++ lit " -p " ++ protocol ++ lit " -m mark --mark "
    ++ masked APPLICATION_HANDOFF_DOMAIN APPLICATION_MARK_DOMAIN_MASK ++ lit " -g "
    ++ IPTABLES_APPLICATION_PACKET_CHAIN ++ nl)) by (intros p; fixed_rule).
  unfold print_rule. cbn [ipt_chain ipt_matches ipt_comment ipt_target app fmap list_fmap concat
    print_match protocol_text print_comment print_target]. rewrite ?app_nil_r, <-?app_assoc.
  reflexivity.
Qed.

Lemma authorized_print s family i :
  append_authorized_flows s family i = print_rules (authorized_ipt s family i).
Proof.
  unfold append_authorized_flows, authorized_ipt.
  rewrite !print_rules_app, print_rules_if, print_rules_one, <-loopback_ipt_print.
  erewrite <-(print_rules_fmap _ (fun protocol =>
    lit "-A " ++ IPTABLES_OUTPUT_CHAIN ++ lit " -p " ++ protocol
    ++ lit " -m conntrack --ctdir ORIGINAL -j CONNMARK --set-xmark "
    ++ masked 0 APPLICATION_CONNMARK_MASK ++ nl)) by (intros p; fixed_rule).
  same_part. unfold print_rule. cbn [ipt_chain ipt_matches ipt_comment ipt_target app fmap list_fmap
    concat print_match print_comment print_target]. rewrite ?app_nil_r, <-?app_assoc. reflexivity.
Qed.

Lemma output_policy_print s family i :
  append_output_policy s family i = print_rules (output_policy_ipt s family i).
Proof.
  unfold append_output_policy, output_policy_ipt, candidate_ipt, output_accepts_ipt.
  rewrite !print_rules_app, !print_rules_if, print_rules_app, <-verdict_mark_print, <-authorized_print.
  rewrite <-(reject_reply_ipt_print s family Outbound), <-!direct_ipt_print, <-reverse_ipt_print.
  same_part_by ltac:(destruct (_ ==? _); [|done]; rewrite print_rules_one; fixed_rule). do 5 same_part.
  same_part_by ltac:(destruct (_ ==? Enforcing); [|destruct (_ ==? Learning); [|done]];
    by rewrite print_rules_app, <-queue_ipt_print, <-guard_ipt_print).
  destruct (_ ==? Learning); [|by rewrite app_nil_r]. rewrite print_rules_one. same_part. fixed_rule.
Qed.

Lemma application_chains_print s i :
  append_application_chains s i = print_rules (application_ipt s i).
Proof.
  unfold append_application_chains, application_ipt, authorize_ipt, append_application_accept,
    append_clear_reserved_mark.
  rewrite print_rules_app, !print_rules_if, print_rules_app, print_rules_if, !print_rules_cons.
  change (print_rules []) with (@nil char). rewrite !app_nil_r.
  unfold print_rule. cbn [ipt_chain ipt_matches ipt_comment ipt_target app fmap list_fmap
    concat print_match print_comment print_target].
  destruct (_ ==? Learning), i; rewrite <-?app_assoc; reflexivity.
Qed.

Lemma observe_print s family :
  (if snap_mode s ==? Learning
   then append_learning_observer_kernel_guards s family
        ++ concat ((fun selector =>
             lit "-A " ++ IPTABLES_LEARNING_OBSERVE_CHAIN ++ lit " " ++ selector
             ++ lit " -m comment --comment openshield:learned_out -j NFQUEUE --queue-num "
             ++ dec APPLICATION_LEARNING_QUEUE_NUMBER ++ lit " --queue-bypass" ++ nl)
             <$> observed_selectors)
   else []) = print_rules (observe_ipt s family).
Proof.
  unfold observe_ipt. destruct (_ ==? _); [|done]. rewrite print_rules_app. apply (f_equal2 app).
  - apply print_rules_fmap. intros rule.
    rewrite rule_match_print, print_rule_matches, print_matches_app, <-!app_assoc. reflexivity.
  - apply print_rules_fmap. intros t. fixed_rule.
Qed.

Lemma print_commands_app cs cs' :
  print_commands (cs ++ cs') = print_commands cs ++ print_commands cs'.
Proof. unfold print_commands. by rewrite fmap_app, concat_app. Qed.

Lemma print_commands_append rs : print_commands (Append <$> rs) = print_rules rs.
Proof. unfold print_commands, print_rules. by rewrite <-list_fmap_compose. Qed.

Lemma print_commands_flush cs :
  print_commands (Flush <$> cs) = concat ((fun chain => lit "-F " ++ chain ++ nl) <$> cs).
Proof. unfold print_commands. by rewrite <-list_fmap_compose. Qed.

Lemma mangle_print s family : mangle_program s family = print_commands (mangle_commands s family).
Proof.
  unfold mangle_program, mangle_commands. rewrite observe_print.
  rewrite !print_commands_app, print_commands_append, !print_rules_app, print_commands_flush.
  rewrite !print_rules_cons. change (print_rules []) with (@nil char). rewrite !app_nil_r, <-!app_assoc.
  generalize (print_rules (observe_ipt s family)). intros observed. reflexivity.
Qed.

Lemma filter_print s family i :
  filter_program s family i = print_commands (filter_commands s family i).
Proof.
  unfold filter_program, filter_commands, filter_rules.
  rewrite !print_commands_app, print_commands_append, !print_rules_app, print_commands_flush,
    <-!app_assoc, <-application_chains_print.
  unfold append_input_chain, append_output_chain, input_ipt, output_ipt.
  rewrite !print_rules_app, !print_rules_if, !print_rules_one, input_policy_print, output_policy_print,
    <-!app_assoc.
  change (print_commands [Table _]) with (lit "*filter" ++ nl). rewrite <-app_assoc.
  do 3 same_part. same_part_by ltac:(apply print_rules_fmap; intros c; fixed_rule).
  same_part. same_part_by ltac:(apply (counted_verdict_print Inbound)).
  same_part. same_part_by ltac:(apply (counted_verdict_print Outbound)).
  same_part. same_part_by ltac:(by destruct (snap_mode s)). reflexivity.
Qed.

(** C14: for every snapshot that validates, the iptables compiler produces two
    programs, and each is the printed form of typed commands that are determined
    by the rules, the mode, the flow generation and the interception class. *)
Theorem iptables_prints_rules s :
  Snapshot_validate s = Ok tt ->
  let i := Snapshot_application_interception s in
  compile_iptables s
  = Ok (mkIptablesPolicy (print_commands (family_commands s FamilyIpv4 i))
          (print_commands (family_commands s FamilyIpv6 i))).
Proof.
  intros Hv. unfold compile_iptables. rewrite Hv. cbv zeta. unfold compile_family, family_commands.
  destruct (_ ==? BlockAll); rewrite !print_commands_app, <-!mangle_print, <-!filter_print; done.
Qed.
End Script.

Lemma iptables_prints_rules_witness :
  compile_iptables sample_snapshot
  = Ok (mkIptablesPolicy (print_commands (family_commands sample_snapshot FamilyIpv4 TcpInitial))
          (print_commands (family_commands sample_snapshot FamilyIpv6 TcpInitial))).
Proof. apply (iptables_prints_rules sample_snapshot). vm_compute. reflexivity. Defined.
