(* ===== verification/IptPolicy.v ===== *)
(** * What the iptables policy enforces

    The programs are read as [iptables-restore] installs them ([installed]) and
    chains as the kernel runs them ([run]).  The theorems mirror those about
    the nftables policy, on both address families, with the marks that change
    while a chain runs; [families_share_the_rules] ties the two compilers. *)

From S2P Require Import Prelude Text Net Application Model State StateFacts Snapshots Marks Nftables.
From S2P Require Import NftScript NftPolicy Iptables IptScript.
Local Open Scope Z_scope.

(** ** Running a chain *)

Record PacketMarks : Type := mkMarks { packet_mark : Z; connection_mark : Z }.

(** What a chain does with a packet; [Returned] hands it back to the host. *)
Inductive Outcome : Type :=
| FellThrough
| Returned
| Dropped
| Rejected
| Queued (number : Z)
| Jumped (chain : ustring).

#[export] Instance Outcome_eq_dec : EqDecision Outcome.
Proof. solve_decision. Defined.

(** [--set-xmark value/mask]. *)
Definition set_xmark (value mask mark : Z) : Z := Z.lxor (Z.ldiff mark mask) value.

Section Running.
(** Whether a match that does not look at marks holds for the packet. *)
Variable pkt : Match -> bool.

Definition match_holds (st : PacketMarks) (m : Match) : bool :=
  match m with
  | IMark d => Z.land (packet_mark st) APPLICATION_MARK_DOMAIN_MASK =? d
  | IMarkNot d => negb (Z.land (packet_mark st) APPLICATION_MARK_DOMAIN_MASK =? d)
  | IConnmark v => Z.land (connection_mark st) APPLICATION_CONNMARK_MASK =? v
  | m => pkt m
  end.

Definition rule_applies (st : PacketMarks) (r : IptRule) : bool :=
  forallb (match_holds st) (ipt_matches r).

Definition decision (t : Target) : option Outcome :=
  match t with
  | TReturn => Some Returned
  | TDrop => Some Dropped
  | TReject _ => Some Rejected
  | TQueue n | TQueueBypass n => Some (Queued n)
  | TGoto c => Some (Jumped c)
  | TNone | TMark _ | TConnmark _ => None
  end.

Definition effect_on (t : Target) (st : PacketMarks) : PacketMarks :=
  match t with
  | TMark v =>
      mkMarks (set_xmark v APPLICATION_MARK_DOMAIN_MASK (packet_mark st)) (connection_mark st)
  | TConnmark v =>
      mkMarks (packet_mark st) (set_xmark v APPLICATION_CONNMARK_MASK (connection_mark st))
  | _ => st
  end.

Fixpoint run (rs : list IptRule) (st : PacketMarks) : Outcome * PacketMarks :=
  match rs with
  | [] => (FellThrough, st)
  | r :: rest =>
      if rule_applies st r then
        match decision (ipt_target r) with
        | Some o => (o, st)
        | None => run rest (effect_on (ipt_target r) st)
        end
      else run rest st
  end.

(** The rules of a chain after a program ran; both tables have their own names. *)
Fixpoint installed (chain : ustring) (rules : list IptRule) (cs : list Command) : list IptRule :=
  match cs with
  | [] => rules
  | Flush c :: rest => installed chain (if c ==? chain then [] else rules) rest
  | Append r :: rest =>
      installed chain (if ipt_chain r ==? chain then rules ++ [r] else rules) rest
  | _ :: rest => installed chain rules rest
  end.

(** A packet in an owned chain: a goto ends in the chain it names. *)
Definition verdict (chain : ustring) (cs : list Command) (st : PacketMarks) : Outcome :=
  match run (installed chain [] cs) st with
  | (Jumped c, st') => (run (installed c [] cs) st').1
  | (o, _) => o
  end.

(** ** Facts about runs *)

Lemma run_app rs rs' st :
  run (rs ++ rs') st =
  match run rs st with (FellThrough, st') => run rs' st' | o => o end.
Proof.
  revert st. induction rs as [|r rs IH]; intros st; [done|]. cbn [app run].
  destruct (rule_applies st r); [|apply IH].
  destruct (ipt_target r); cbn [decision effect_on]; try done; apply IH.
Qed.

(** A decision is taken by a rule of the chain that applies. *)
Lemma run_decided rs st o st' :
  run rs st = (o, st') -> o <> FellThrough ->
  exists r st1, r ∈ rs /\ rule_applies st1 r = true /\ decision (ipt_target r) = Some o.
Proof.
  revert st. induction rs as [|r rs IH]; intros st; cbn [run]; [congruence|].
  destruct (rule_applies st r) eqn:Ha.
  - destruct (decision (ipt_target r)) as [o'|] eqn:Hd.
    + intros [= <- <-] _. exists r, st. split; [left|done].
    + intros Hrun Ho. destruct (IH _ Hrun Ho) as (r' & st1 & ? & ?). exists r', st1. split; [by right|done].
  - intros Hrun Ho. destruct (IH _ Hrun Ho) as (r' & st1 & ? & ?). exists r', st1. split; [by right|done].
Qed.

Definition looks_at_marks (m : Match) : bool :=
  match m with IMark _ | IMarkNot _ | IConnmark _ => true | _ => false end.

Definition mark_free (ms : list Match) : Prop := forallb (fun m => negb (looks_at_marks m)) ms = true.

Lemma mark_free_holds st ms :
  mark_free ms -> forallb (match_holds st) ms = forallb pkt ms.
Proof.
  unfold mark_free. induction ms as [|m ms IH]; [done|]. cbn [forallb].
  intros [Hm Hms]%andb_true_iff. rewrite IH by done. by destruct m.
Qed.

(** Rules that all decide look at the marks as they are. *)
Lemma run_deciding rs st o st' :
  Forall (fun r => decision (ipt_target r) <> None) rs ->
  run rs st = (o, st') ->
  st' = st /\ (o <> FellThrough ->
    exists r, r ∈ rs /\ rule_applies st r = true /\ decision (ipt_target r) = Some o).
Proof.
  induction 1 as [|r rs Hr _ IH]; cbn [run]; [by intros [= <- <-]|].
  destruct (rule_applies st r) eqn:Ha.
  - destruct (decision (ipt_target r)) as [o'|] eqn:E; [|done]. intros [= <- <-]. split; [done|].
    intros _. exists r. split; [left|done].
  - intros Hrun. destruct (IH Hrun) as [-> Hex]. split; [done|]. intros Ho.
    destruct (Hex Ho) as (r' & ? & ?). exists r'. split; [by right|done].
Qed.
End Running.

(** ** What a program installs *)

Lemma installed_app chain rules cs cs' :
  installed chain rules (cs ++ cs') = installed chain (installed chain rules cs) cs'.
Proof. revert rules. induction cs as [|[] cs IH]; intros rules; cbn; auto. Qed.

Lemma installed_append chain rules rs :
  installed chain rules (Append <$> rs)
  = rules ++ List.filter (fun r => ipt_chain r ==? chain) rs.
Proof.
  revert rules. induction rs as [|r rs IH]; intros rules; [by rewrite app_nil_r|].
  rewrite fmap_cons. cbn [installed List.filter]. rewrite IH.
  destruct (_ ==? _); [by rewrite <-app_assoc|done].
Qed.

Lemma installed_flush chain rules cs :
  installed chain rules (Flush <$> cs) = if existsb (fun c => c ==? chain) cs then [] else rules.
Proof.
  revert rules. induction cs as [|c cs IH]; intros rules; [done|].
  rewrite fmap_cons. cbn [installed existsb]. rewrite IH.
  destruct (c ==? chain); cbn [orb]; [|done]. by destruct (existsb _ cs).
Qed.

Definition on_chain (c : ustring) (rs : list IptRule) : Prop := Forall (fun r => ipt_chain r = c) rs.

Lemma on_chain_same c rs :
  on_chain c rs -> List.filter (fun r => ipt_chain r ==? c) rs = rs.
Proof.
  induction 1 as [|r rs Hr _ IH]; [done|]. cbn. by rewrite Hr, eqb_refl, IH.
Qed.

Lemma on_chain_other c c' rs :
  c <> c' -> on_chain c rs -> List.filter (fun r => ipt_chain r ==? c') rs = [].
Proof.
  intros Hne. induction 1 as [|r rs Hr _ IH]; [done|]. cbn.
  rewrite Hr, (proj2 (eqb_false c c') Hne). exact IH.
Qed.

Lemma on_chain_app c rs rs' : on_chain c rs -> on_chain c rs' -> on_chain c (rs ++ rs').
Proof. intros. by apply Forall_app. Qed.

Lemma on_chain_if c (b : bool) rs : on_chain c rs -> on_chain c (if b then rs else []).
Proof. destruct b; [done|constructor]. Qed.

Lemma on_chain_if2 c (b : bool) rs : on_chain c rs -> on_chain c (if b then [] else rs).
Proof. destruct b; [constructor|done]. Qed.

Lemma on_chain_fmap {A} c (f : A -> IptRule) l : (forall a, ipt_chain (f a) = c) -> on_chain c (f <$> l).
Proof. intros Hf. unfold on_chain. rewrite Forall_fmap. apply Forall_true. exact Hf. Qed.

Lemma on_chain_concat {A} c (f : A -> list IptRule) l :
  (forall a, on_chain c (f a)) -> on_chain c (concat (f <$> l)).
Proof.
  intros Hf. induction l as [|a l IH]; [constructor|]. rewrite fmap_cons. cbn [concat].
  by apply on_chain_app.
Qed.

Ltac on_chain :=
  repeat first
    [ apply on_chain_app | apply on_chain_if | apply on_chain_if2
    | apply on_chain_fmap; intros; reflexivity
    | apply on_chain_concat; intros
    | apply Forall_cons; split; [reflexivity|] | apply Forall_nil; exact I | apply Forall_nil_2
    | progress case_match ].

Section Chains.
Context `{IpNetLib}.

Lemma verdict_rules_chain rule family d reverse a connmark :
  on_chain (chain_of d) (verdict_rules rule family d reverse a connmark).
Proof. unfold verdict_rules. on_chain. Qed.

Lemma direct_ipt_chain s family d actions : on_chain (chain_of d) (direct_ipt s family d actions).
Proof. apply on_chain_concat. intros. apply verdict_rules_chain. Qed.

Lemma reverse_ipt_chain s family d : on_chain (chain_of d) (reverse_ipt s family d).
Proof. apply on_chain_concat. intros. apply verdict_rules_chain. Qed.

Lemma input_ipt_chain s family i : on_chain IPTABLES_INPUT_CHAIN (input_ipt s family i).
Proof.
  unfold input_ipt, input_policy_ipt, control_plane_ipt, reject_reply_ipt, loopback_ipt, reply_queue_ipt.
  on_chain; apply (direct_ipt_chain s family Inbound) || apply (reverse_ipt_chain s family Inbound).
Qed.

Lemma output_ipt_chain s family i : on_chain IPTABLES_OUTPUT_CHAIN (output_ipt s family i).
Proof.
  unfold output_ipt, output_policy_ipt, reject_reply_ipt, verdict_mark_ipt, authorized_ipt,
    loopback_ipt, candidate_ipt, output_accepts_ipt, queue_ipt, guard_ipt, queue_ipt_of, guard_ipt_of.
  on_chain; apply (direct_ipt_chain s family Outbound) || apply (reverse_ipt_chain s family Outbound).
Qed.

Lemma observe_ipt_chain s family :
  on_chain IPTABLES_LEARNING_OBSERVE_CHAIN (observe_ipt s family).
Proof. unfold observe_ipt. on_chain. Qed.

Lemma mangle_installs_elsewhere s family c rules :
  c <> IPTABLES_MARK_SANITIZE_CHAIN -> c <> IPTABLES_LEARNING_OBSERVE_CHAIN ->
  installed c rules (mangle_commands s family) = rules.
Proof.
  intros H1 H2. unfold mangle_commands.
  rewrite !installed_app, installed_append, installed_flush, !List.filter_app. cbn [installed].
  rewrite (on_chain_other _ c _ (not_eq_sym H2) (observe_ipt_chain s family)).
  cbn [existsb owned_mangle_chains List.filter ipt_chain owner_ipt sanitizer_ipt].
  rewrite !(proj2 (eqb_false _ _) (not_eq_sym H1)), !(proj2 (eqb_false _ _) (not_eq_sym H2)).
  apply app_nil_r.
Qed.

Lemma filter_installs s family i c rules :
  existsb (fun c' => c' ==? c) owned_chains = true ->
  installed c rules (filter_commands s family i)
  = List.filter (fun r => ipt_chain r ==? c) (filter_rules s family i).
Proof.
  intros Hc. unfold filter_commands. rewrite !installed_app, installed_append, installed_flush.
  cbn [installed]. by rewrite Hc.
Qed.

Lemma family_installs s family i c :
  existsb (fun c' => c' ==? c) owned_chains = true ->
  installed c [] (family_commands s family i)
  = List.filter (fun r => ipt_chain r ==? c) (filter_rules s family i).
Proof.
  intros Hc. assert (c <> IPTABLES_MARK_SANITIZE_CHAIN /\ c <> IPTABLES_LEARNING_OBSERVE_CHAIN) as [H1 H2].
  { split; intros ->; vm_compute in Hc; discriminate Hc. }
  unfold family_commands. destruct (_ ==? BlockAll); rewrite installed_app.
  - rewrite mangle_installs_elsewhere by done. by apply filter_installs.
  - by apply filter_installs.
Qed.

Lemma input_output_differ : IPTABLES_INPUT_CHAIN <> IPTABLES_OUTPUT_CHAIN.
Proof. done. Qed.

(** The chains of the filter table: each is its owner comment and its own rules. *)
Lemma output_installs s family i :
  installed IPTABLES_OUTPUT_CHAIN [] (family_commands s family i)
  = owner_ipt IPTABLES_OUTPUT_CHAIN :: output_ipt s family i.
Proof.
  rewrite family_installs by done. unfold filter_rules. rewrite !List.filter_app.
  rewrite (on_chain_other _ _ _ input_output_differ (input_ipt_chain s family i)).
  rewrite (on_chain_same _ _ (output_ipt_chain s family i)).
  assert (List.filter (fun r => ipt_chain r ==? IPTABLES_OUTPUT_CHAIN)
    (application_ipt s i ++ forward_ipt (snap_mode s)) = []) as Hrest.
  { unfold application_ipt, forward_ipt. by destruct i, (_ ==? BlockAll). }
  rewrite List.filter_app in Hrest. rewrite Hrest, app_nil_r. reflexivity.
Qed.

Lemma input_installs s family i :
  installed IPTABLES_INPUT_CHAIN [] (family_commands s family i)
  = owner_ipt IPTABLES_INPUT_CHAIN :: input_ipt s family i.
Proof.
  rewrite family_installs by done. unfold filter_rules. rewrite !List.filter_app.
  rewrite (on_chain_other _ _ _ (not_eq_sym input_output_differ) (output_ipt_chain s family i)).
  rewrite (on_chain_same _ _ (input_ipt_chain s family i)).
  assert (List.filter (fun r => ipt_chain r ==? IPTABLES_INPUT_CHAIN)
    (application_ipt s i ++ forward_ipt (snap_mode s)) = []) as Hrest.
  { unfold application_ipt, forward_ipt. by destruct i, (_ ==? BlockAll). }
  rewrite List.filter_app in Hrest. cbn [app]. rewrite Hrest, app_nil_r. reflexivity.
Qed.

Lemma other_installs s family i c :
  existsb (fun c' => c' ==? c) owned_chains = true ->
  c <> IPTABLES_INPUT_CHAIN -> c <> IPTABLES_OUTPUT_CHAIN ->
  installed c [] (family_commands s family i)
  = List.filter (fun r => ipt_chain r ==? c)
      ((owner_ipt <$> owned_chains) ++ application_ipt s i ++ forward_ipt (snap_mode s)).
Proof.
  intros Hc Hin Hout. rewrite family_installs by done. unfold filter_rules. rewrite !List.filter_app.
  rewrite (on_chain_other _ _ _ (not_eq_sym Hin) (input_ipt_chain s family i)).
  by rewrite (on_chain_other _ _ _ (not_eq_sym Hout) (output_ipt_chain s family i)).
Qed.

(** ** Blocking everything *)

(** When everything is blocked, the iptables programs do not depend on the
    rules or the flow generation, and once they are installed every packet in
    the input, output and forward chain is dropped, whatever matches hold and
    whatever marks it carries. *)
Theorem iptables_block_all_is_unconditional s s' :
  Snapshot_validate s = Ok tt -> Snapshot_validate s' = Ok tt ->
  snap_mode s = BlockAll -> snap_mode s' = BlockAll ->
  compile_iptables s = compile_iptables s'
  /\ forall family chain pkt marks,
     chain ∈ [IPTABLES_INPUT_CHAIN; IPTABLES_OUTPUT_CHAIN; IPTABLES_FORWARD_CHAIN] ->
     verdict pkt chain (family_commands s family (Snapshot_application_interception s)) marks
     = Dropped.
Proof.
  intros Hv Hv' Hm Hm'. split.
  - unfold compile_iptables, Snapshot_application_interception, compile_family, mangle_program,
      filter_program, append_input_chain, append_output_chain, append_application_chains.
    by rewrite Hv, Hv', Hm, Hm'.
  - intros family chain pkt marks Hc. rewrite !elem_of_cons in Hc. unfold verdict.
    destruct Hc as [->|[->|[->|[]%not_elem_of_nil]]].
    + rewrite input_installs. unfold input_ipt. by rewrite Hm.
    + rewrite output_installs. unfold output_ipt. by rewrite Hm.
    + rewrite other_installs by done. unfold Snapshot_application_interception. by rewrite Hm.
Qed.

(** ** Groups of rules *)

(** Rule groups are concatenations of parts that either decide or change
    nothing. *)
Lemma run_concat {A} pkt (f : A -> list IptRule) (p : A -> bool) (o : A -> Outcome) l st :
  (forall a st, exists st1, run pkt (f a) st = if p a then (o a, st1) else (FellThrough, st)) ->
  (forall a, o a <> FellThrough) ->
  (Forall (fun a => p a = false) l /\ run pkt (concat (f <$> l)) st = (FellThrough, st))
  \/ exists a st1, a ∈ l /\ p a = true /\ run pkt (concat (f <$> l)) st = (o a, st1).
Proof.
  intros Hf Ho. induction l as [|a l IH]; [by left|]. rewrite fmap_cons. cbn [concat].
  rewrite run_app. destruct (Hf a st) as [st1 ->]. destruct (p a) eqn:Hp.
  - right. exists a, st1. split_and!; [left|done|]. by destruct (o a) eqn:E; try done; destruct (Ho a).
  - destruct IH as [[Hall ->]|(b & st2 & Hb & Hpb & ->)]; [left|right].
    + split; [by constructor|done].
    + exists b, st2. split_and!; [by right|done|done].
Qed.

Lemma rule_matches_mark_free rule d reverse : mark_free (rule_matches rule d reverse).
Proof.
  unfold mark_free, rule_matches. rewrite !forallb_app.
  by destruct (peer_network (spec rule)), (interface (spec rule)), (protocol (spec rule)), reverse,
    (port (spec rule)).
Qed.

Definition in_envelope (pkt : Match -> bool) (rule : Rule) (d : Direction) (reverse : bool) : bool :=
  forallb pkt (rule_matches rule d reverse).

Lemma envelope_holds pkt st rule d reverse :
  forallb (match_holds pkt st) (rule_matches rule d reverse) = in_envelope pkt rule d reverse.
Proof. apply mark_free_holds, rule_matches_mark_free. Qed.

Definition outcome_of (a : RuleAction) : Outcome :=
  match a with Accept => Returned | Drop => Dropped | Reject => Rejected end.

Lemma verdict_rules_run pkt rule family d reverse a connmark st :
  exists st1, run pkt (verdict_rules rule family d reverse a connmark) st
  = if in_envelope pkt rule d reverse then (outcome_of a, st1) else (FellThrough, st).
Proof.
  unfold verdict_rules. rewrite run_app. destruct (a ==? Reject) eqn:Ha; cbn [run];
    unfold rule_applies; cbn [ipt_matches ipt_target]; rewrite !envelope_holds;
    destruct (in_envelope pkt rule d reverse) eqn:He; cbn [decision]; rewrite ?envelope_holds, ?He;
    destruct a; cbn; eauto.
Qed.

Lemma direct_ipt_run pkt s family d actions st :
  (Forall (fun r => in_envelope pkt r d false = false) (direct_rules s family d actions)
   /\ run pkt (direct_ipt s family d actions) st = (FellThrough, st))
  \/ exists r st1, r ∈ direct_rules s family d actions /\ in_envelope pkt r d false = true
     /\ run pkt (direct_ipt s family d actions) st = (outcome_of (action (spec r)), st1).
Proof.
  apply (run_concat pkt _ (fun r => in_envelope pkt r d false) (fun r => outcome_of (action (spec r)))).
  - intros r st'. apply verdict_rules_run.
  - intros r. by destruct (action (spec r)).
Qed.

Lemma reverse_ipt_run pkt s family d st :
  (Forall (fun r => in_envelope pkt r d true = false) (reverse_rules s family d)
   /\ run pkt (reverse_ipt s family d) st = (FellThrough, st))
  \/ exists r st1, r ∈ reverse_rules s family d /\ in_envelope pkt r d true = true
     /\ run pkt (reverse_ipt s family d) st = (Returned, st1).
Proof.
  apply (run_concat pkt _ (fun r => in_envelope pkt r d true) (fun _ => Returned)); [|done].
  intros r st'. apply verdict_rules_run.
Qed.

(** An application rule queues the tracked packets of its envelope .. *)
Lemma queue_ipt_run pkt s family actions st :
  (Forall (fun r => in_envelope pkt r Outbound false && pkt IOriginal = false)
     (application_rules s family actions)
   /\ run pkt (queue_ipt s family actions) st = (FellThrough, st))
  \/ exists st1, run pkt (queue_ipt s family actions) st = (Queued APPLICATION_QUEUE_NUMBER, st1).
Proof.
  destruct (run_concat pkt queue_ipt_of (fun r => in_envelope pkt r Outbound false && pkt IOriginal)
    (fun _ => Queued APPLICATION_QUEUE_NUMBER) (application_rules s family actions) st)
    as [Hno|(r & st1 & _ & _ & Hrun)]; [|done|by left|right; by exists st1].
  intros r st'. unfold queue_ipt_of. cbn [run]. unfold rule_applies. cbn [ipt_matches ipt_target].
  rewrite !forallb_app, !envelope_holds. cbn [forallb match_holds]. rewrite andb_true_r.
  destruct (in_envelope pkt r Outbound false && pkt IOriginal); cbn [decision]; eauto.
Qed.

(** .. and drops the others, and those whose original destination it covers. *)
Lemma guard_ipt_run pkt s family actions st :
  (Forall (fun r => in_envelope pkt r Outbound false && pkt IUntracked = false)
     (application_rules s family actions)
   /\ run pkt (guard_ipt s family actions) st = (FellThrough, st))
  \/ exists st1, run pkt (guard_ipt s family actions) st = (Dropped, st1).
Proof.
  set (original r := forallb pkt (opt_match (IInterface Outbound) (interface (spec r))
    ++ protocol_matches (protocol (spec r)) ++ [IOriginalTuple (peer_network (spec r)) (port (spec r))])).
  destruct (run_concat pkt guard_ipt_of (fun r => in_envelope pkt r Outbound false && pkt IUntracked
      || (negb (is_none (peer_network (spec r)) && is_none (port (spec r))) && original r))
    (fun _ => Dropped) (application_rules s family actions) st)
    as [[Hall Hrun]|(r & st1 & _ & _ & Hrun)]; [|done| |right; by exists st1].
  - intros r st'. unfold guard_ipt_of. cbn [run]. unfold rule_applies at 1. cbn [ipt_matches ipt_target].
    rewrite forallb_app, envelope_holds. cbn [forallb match_holds]. rewrite andb_true_r.
    destruct (in_envelope pkt r Outbound false && pkt IUntracked); cbn [decision orb]; [eauto|].
    destruct (is_none _ && is_none _); cbn [negb andb run]; [eauto|]. unfold rule_applies.
    cbn [ipt_matches ipt_target decision]. fold (original r).
    rewrite (mark_free_holds pkt st').
    + fold (original r). destruct (original r); eauto.
    + unfold mark_free. rewrite !forallb_app.
      by destruct (interface (spec r)), (protocol (spec r)).
  - left. split; [|done]. eapply Forall_impl; [exact Hall|]. intros r Hr.
    by apply orb_false_iff in Hr as [? _].
Qed.

(** ** Phases of the output chain *)

Definition entry_ipt (s : Snapshot) : list IptRule :=
  if snap_mode s ==? Enforcing then [invalid_ipt Outbound] else [].
Definition replies_ipt (s : Snapshot) (family : AddressFamily) : list IptRule :=
  if has_enabled_outbound_reject s then reject_reply_ipt s family Outbound else [].
Definition denials_ipt (s : Snapshot) (family : AddressFamily) : list IptRule :=
  direct_ipt s family Outbound [Drop] ++ direct_ipt s family Outbound [Reject].
Definition marks_ipt (s : Snapshot) (family : AddressFamily) (i : ApplicationInterception)
    : list IptRule :=
  if i !=? InterceptNone then verdict_mark_ipt s family i else [].
Definition flows_ipt (s : Snapshot) (family : AddressFamily) (i : ApplicationInterception)
    : list IptRule :=
  if i !=? InterceptNone then authorized_ipt s family i else [].

Definition before_candidates (s : Snapshot) (family : AddressFamily) (i : ApplicationInterception)
    : list IptRule :=
  entry_ipt s ++ replies_ipt s family ++ denials_ipt s family ++ marks_ipt s family i
  ++ flows_ipt s family i ++ reverse_ipt s family Outbound.

Lemma output_ipt_phases s family i :
  snap_mode s <> BlockAll ->
  output_ipt s family i = before_candidates s family i ++ candidate_ipt s family
    ++ output_accepts_ipt s family ++ [mkIptRule IPTABLES_OUTPUT_CHAIN [] DROPPED_OUT TDrop].
Proof.
  intros Hm. unfold output_ipt, output_policy_ipt, before_candidates, denials_ipt.
  rewrite (proj2 (eqb_false _ _) Hm). cbn [negb].
  assert ((snap_mode s ==? Enforcing) || (snap_mode s ==? Learning) = true) as ->.
  { by destruct (snap_mode s). }
  by rewrite <-!app_assoc.
Qed.

Lemma output_verdict pkt s family i st :
  verdict pkt IPTABLES_OUTPUT_CHAIN (family_commands s family i) st =
  match run pkt (output_ipt s family i) st with
  | (Jumped c, st') => (run pkt (installed c [] (family_commands s family i)) st').1
  | (o, _) => o
  end.
Proof. unfold verdict. by rewrite output_installs. Qed.

Lemma elem_of_direct_ipt s family d actions r :
  r ∈ direct_rules s family d actions <->
  r ∈ snap_rules s /\ enabled (spec r) = true /\ direction (spec r) = d
  /\ application (spec r) = None /\ supports_family r family = true
  /\ contains_action actions (action (spec r)) = true.
Proof.
  unfold direct_rules. rewrite merge_sort_Permutation, elem_of_filter_bool.
  rewrite !andb_true_iff, eqb_true, is_none_true. naive_solver.
Qed.

Lemma elem_of_application_ipt s family actions r :
  r ∈ application_rules s family actions <->
  r ∈ snap_rules s /\ enabled (spec r) = true /\ direction (spec r) = Outbound
  /\ is_some (application (spec r)) = true /\ supports_family r family = true
  /\ contains_action actions (action (spec r)) = true.
Proof.
  unfold application_rules. rewrite merge_sort_Permutation, elem_of_filter_bool.
  rewrite !andb_true_iff, eqb_true. naive_solver.
Qed.

Lemma elem_of_reverse_ipt s family d r :
  r ∈ reverse_rules s family d <->
  r ∈ snap_rules s /\ enabled (spec r) = true /\ direction (spec r) <> d
  /\ application (spec r) = None /\ supports_family r family = true /\ action (spec r) = Accept.
Proof.
  unfold reverse_rules. rewrite merge_sort_Permutation, elem_of_filter_bool.
  rewrite !andb_true_iff, negb_true_iff, eqb_false, eqb_true, is_none_true. naive_solver.
Qed.

Lemma entry_run pkt s st o st' :
  run pkt (entry_ipt s) st = (o, st') -> st' = st /\ (o = FellThrough \/ o = Dropped).
Proof.
  unfold entry_ipt. destruct (_ ==? _); cbn [run]; [|intros [= <- <-]; tauto].
  destruct (rule_applies _ _ _); cbn; intros [= <- <-]; tauto.
Qed.

(** Network denials win on iptables too.  Outside [BlockAll], a packet in the
    envelope of an enabled outbound drop or reject rule without an application
    is dropped or rejected on its address family, whatever marks it carries:
    only the resets and errors that answer a connection rejected in the current
    generation are let through earlier. *)
Theorem iptables_denials_win pkt s family i st r :
  snap_mode s <> BlockAll ->
  r ∈ snap_rules s -> enabled (spec r) = true -> direction (spec r) = Outbound ->
  application (spec r) = None -> action (spec r) <> Accept -> supports_family r family = true ->
  in_envelope pkt r Outbound false = true ->
  run pkt (replies_ipt s family) st = (FellThrough, st) ->
  let v := verdict pkt IPTABLES_OUTPUT_CHAIN (family_commands s family i) st in
  v = Dropped \/ v = Rejected.
Proof.
  intros Hm Hin He Hd Ha Hac Hf Henv Hrep. cbv zeta. rewrite output_verdict, output_ipt_phases by done.
  unfold before_candidates. rewrite <-!app_assoc, run_app.
  destruct (run pkt (entry_ipt s) st) as [o st'] eqn:Hentry.
  apply entry_run in Hentry as [-> [-> | ->]]; [|by left].
  rewrite run_app, Hrep. unfold denials_ipt. rewrite <-app_assoc, run_app.
  assert (Hmem : forall a, action (spec r) = a -> r ∈ direct_rules s family Outbound [a]).
  { intros a <-. apply elem_of_direct_ipt. split_and!; try done. by destruct (action (spec r)). }
  destruct (direct_ipt_run pkt s family Outbound [Drop] st) as [[Hno ->]|(r1 & st1 & Hr1 & _ & ->)].
  2: { apply elem_of_direct_ipt in Hr1 as (_ & _ & _ & _ & _ & Hact). destruct (action (spec r1)); tauto || done. }
  rewrite run_app.
  destruct (direct_ipt_run pkt s family Outbound [Reject] st) as [[Hno' ->]|(r1 & st1 & Hr1 & _ & ->)].
  2: { apply elem_of_direct_ipt in Hr1 as (_ & _ & _ & _ & _ & Hact). destruct (action (spec r1)); tauto || done. }
  rewrite Forall_forall in Hno, Hno'. destruct (action (spec r)) eqn:E.
  - done.
  - by rewrite (Hno r (Hmem _ eq_refl)) in Henv.
  - by rewrite (Hno' r (Hmem _ eq_refl)) in Henv.
Qed.

Lemma candidates_run pkt s family actions st :
  run pkt (queue_ipt s family actions ++ guard_ipt s family actions) st = (FellThrough, st)
  \/ exists st1, run pkt (queue_ipt s family actions ++ guard_ipt s family actions) st
       = (Queued APPLICATION_QUEUE_NUMBER, st1)
     \/ run pkt (queue_ipt s family actions ++ guard_ipt s family actions) st = (Dropped, st1).
Proof.
  rewrite run_app. destruct (queue_ipt_run pkt s family actions st) as [[_ ->]|[st1 ->]]; [|eauto].
  destruct (guard_ipt_run pkt s family actions st) as [[_ ->]|[st1 ->]]; eauto.
Qed.

(** Under enforcement no network rule admits what an application rule
    covers.  A packet in the envelope of an enabled application rule, of a new
    connection or of none, is queued to the daemon or dropped unless an
    earlier phase of the output chain decided it. *)
Theorem iptables_applications_are_not_bypassed pkt s family i st st' r :
  snap_mode s = Enforcing ->
  r ∈ snap_rules s -> enabled (spec r) = true -> direction (spec r) = Outbound ->
  is_some (application (spec r)) = true -> supports_family r family = true ->
  in_envelope pkt r Outbound false = true -> pkt IOriginal || pkt IUntracked = true ->
  run pkt (before_candidates s family i) st = (FellThrough, st') ->
  let v := verdict pkt IPTABLES_OUTPUT_CHAIN (family_commands s family i) st in
  v = Queued APPLICATION_QUEUE_NUMBER \/ v = Dropped.
Proof.
  intros Hm Hin He Hd Ha Hf Henv Htrack Hbefore. cbv zeta.
  rewrite output_verdict, output_ipt_phases by congruence. rewrite run_app, Hbefore.
  unfold candidate_ipt. rewrite Hm, eqb_refl, <-app_assoc, run_app.
  assert (Hmem : r ∈ application_rules s family [Drop; Reject; Accept]).
  { apply elem_of_application_ipt. split_and!; try done. by destruct (action (spec r)). }
  destruct (queue_ipt_run pkt s family [Drop; Reject; Accept] st') as [[Hno ->]|[st1 ->]]; [|by left].
  rewrite run_app.
  destruct (guard_ipt_run pkt s family [Drop; Reject; Accept] st') as [[Hno' ->]|[st1 ->]]; [|by right].
  rewrite Forall_forall in Hno, Hno'. specialize (Hno r Hmem). specialize (Hno' r Hmem).
  cbv beta in *. rewrite Henv in Hno, Hno'. cbn [andb] in *. by rewrite Hno, Hno' in Htrack.
Qed.

(** ** Why a packet is handed back to the host *)

Inductive admitted (pkt : Match -> bool) (s : Snapshot) (family : AddressFamily) (st : PacketMarks)
    : Prop :=
| admitted_reject_reply rule :
    rule ∈ reject_reply_ipt s family Outbound -> rule_applies pkt st rule = true ->
    admitted pkt s family st
| admitted_verdict :
    Z.land (packet_mark st) APPLICATION_MARK_DOMAIN_MASK = APPLICATION_HANDOFF_DOMAIN ->
    admitted pkt s family st
| admitted_flow :
    Z.land (connection_mark st) APPLICATION_CONNMARK_MASK = flow_mark s ->
    admitted pkt s family st
| admitted_reverse rule :
    rule ∈ snap_rules s -> enabled (spec rule) = true -> direction (spec rule) = Inbound ->
    application (spec rule) = None -> action (spec rule) = Accept ->
    in_envelope pkt rule Outbound true = true -> admitted pkt s family st
| admitted_rule rule :
    rule ∈ snap_rules s -> enabled (spec rule) = true -> direction (spec rule) = Outbound ->
    application (spec rule) = None -> action (spec rule) = Accept ->
    in_envelope pkt rule Outbound false = true -> admitted pkt s family st.

Lemma replies_run pkt s family st o st' :
  run pkt (replies_ipt s family) st = (o, st') ->
  st' = st /\ (o <> FellThrough -> admitted pkt s family st).
Proof.
  unfold replies_ipt. destruct (has_enabled_outbound_reject s); [|by intros [= <- <-]].
  intros Hrun. apply run_deciding in Hrun as [-> Hex]; [|by repeat constructor].
  split; [done|]. intros Ho. destruct (Hex Ho) as (r & Hr & Ha & _). by eapply admitted_reject_reply.
Qed.

Lemma denials_run pkt s family st o st' :
  run pkt (denials_ipt s family) st = (o, st') -> (o = FellThrough /\ st' = st) \/ o = Dropped \/ o = Rejected.
Proof.
  unfold denials_ipt. rewrite run_app.
  destruct (direct_ipt_run pkt s family Outbound [Drop] st) as [[_ ->]|(r1 & st1 & Hr1 & _ & ->)].
  2: { apply elem_of_direct_ipt in Hr1 as (_ & _ & _ & _ & _ & Hact).
       destruct (action (spec r1)); try done. intros [= <- <-]. tauto. }
  destruct (direct_ipt_run pkt s family Outbound [Reject] st) as [[_ ->]|(r1 & st1 & Hr1 & _ & ->)].
  { intros [= <- <-]. tauto. }
  apply elem_of_direct_ipt in Hr1 as (_ & _ & _ & _ & _ & Hact).
  destruct (action (spec r1)); try done. intros [= <- <-]. tauto.
Qed.

(** The rules that hand a verdict of userspace on. *)
Definition goto_ipt (s : Snapshot) (family : AddressFamily) (i : ApplicationInterception)
    : list IptRule := drop 3 (verdict_mark_ipt s family i).

Lemma goto_rules s family i :
  Forall (fun r => IMark APPLICATION_HANDOFF_DOMAIN ∈ ipt_matches r
                   /\ decision (ipt_target r) <> None) (goto_ipt s family i).
Proof.
  unfold goto_ipt, verdict_mark_ipt. cbn [app drop]. apply Forall_cons. split.
  { split; [right; left|done]. }
  destruct (i ==? PerPacket); [|constructor]. apply Forall_app. split.
  - rewrite Forall_fmap. apply Forall_true. intros p. split; [right; left|done].
  - destruct (_ ==? Learning); [|constructor]. apply Forall_singleton. split; [left|done].
Qed.

Lemma applies_elem pkt st r m :
  rule_applies pkt st r = true -> m ∈ ipt_matches r -> match_holds pkt st m = true.
Proof.
  unfold rule_applies. rewrite forallb_forall. intros Hall Hm. by apply Hall, list_elem_of_In.
Qed.

Lemma marks_run pkt s family i st o st' :
  run pkt (marks_ipt s family i) st = (o, st') ->
  (o = FellThrough /\ st' = st)
  \/ o = Rejected
  \/ Z.land (packet_mark st) APPLICATION_MARK_DOMAIN_MASK = APPLICATION_HANDOFF_DOMAIN.
Proof.
  unfold marks_ipt. destruct (i !=? InterceptNone); [|intros [= <- <-]; tauto].
  change (verdict_mark_ipt s family i) with (take 3 (verdict_mark_ipt s family i) ++ goto_ipt s family i).
  unfold verdict_mark_ipt at 1. cbn [app take run]. unfold rule_applies.
  cbn [ipt_matches ipt_target forallb match_holds decision effect_on packet_mark].
  rewrite !andb_true_r.
  destruct (Z.land (packet_mark st) APPLICATION_MARK_DOMAIN_MASK =? APPLICATION_REJECT_DOMAIN).
  - rewrite andb_true_r. destruct (pkt (IText (lit "-p tcp"))); intros [= <- <-]; tauto.
  - rewrite andb_false_r. intros Hrun.
    pose proof (goto_rules s family i) as Hgoto.
    apply run_deciding in Hrun as [-> Hex]; [|eapply Forall_impl; [exact Hgoto|naive_solver]].
    destruct (decide (o = FellThrough)) as [->|Hne]; [by left|do 2 right].
    destruct (Hex Hne) as (r & Hr & Ha & _). rewrite Forall_forall in Hgoto.
    destruct (Hgoto r Hr) as [Hm _]. apply (applies_elem _ _ _ _ Ha) in Hm.
    cbn [match_holds] in Hm. by apply Z.eqb_eq.
Qed.

Lemma resets_run pkt l st :
  exists st', run pkt ((fun p => mkIptRule IPTABLES_OUTPUT_CHAIN [protocol_text p; IOriginal] None
                          (TConnmark 0)) <$> l) st = (FellThrough, st').
Proof.
  revert st. induction l as [|p l IH]; intros st; [by exists st|].
  rewrite fmap_cons. cbn [run]. destruct (rule_applies _ _ _); apply IH.
Qed.

Lemma flows_run pkt s family i st o st' :
  run pkt (flows_ipt s family i) st = (o, st') ->
  o = FellThrough
  \/ Z.land (connection_mark st) APPLICATION_CONNMARK_MASK = flow_mark s.
Proof.
  unfold flows_ipt, authorized_ipt. destruct (i !=? InterceptNone); [|intros [= <- <-]; tauto].
  rewrite app_assoc, run_app.
  set (accepts := loopback_ipt s family Outbound i ++ _).
  assert (Hacc : Forall (fun r => IConnmark (flow_mark s) ∈ ipt_matches r
                                  /\ decision (ipt_target r) <> None) accepts).
  { unfold accepts. apply Forall_app. split.
    - unfold loopback_ipt. destruct (_ !=? _); [constructor|]. rewrite Forall_fmap.
      apply Forall_true. intros p. split; [do 3 right; left|done].
    - apply Forall_singleton. split; [right; left|done]. }
  destruct (run pkt accepts st) as [o1 st1] eqn:Hrun.
  apply run_deciding in Hrun as [-> Hex]; [|eapply Forall_impl; [exact Hacc|naive_solver]].
  destruct (decide (o1 = FellThrough)) as [->|Hne].
  - destruct (i ==? PerPacket); [|intros [= <- <-]; tauto].
    destruct (resets_run pkt (application_non_tcp_protocols family) st) as [st2 ->].
    intros [= <- <-]. tauto.
  - intros _. right. destruct (Hex Hne) as (r & Hr & Ha & _). rewrite Forall_forall in Hacc.
    destruct (Hacc r Hr) as [Hm _]. apply (applies_elem _ _ _ _ Ha) in Hm.
    cbn [match_holds] in Hm. by apply Z.eqb_eq.
Qed.

(** C13: under enforcement, an outbound packet leaves the owned chains for the
    host's own rules, by a return or by falling off the end of a chain, only for
    a reason: it answers a connection rejected in the current generation, it
    carries the daemon's verdict, its connection was authorized in the current
    generation, or an enabled accept rule without an application covers it, as a
    request or as the reply to an inbound one.  Every other packet is dropped,
    rejected or given to the daemon's queue. *)
Theorem iptables_accepts_are_justified pkt s family i st :
  snap_mode s = Enforcing ->
  let v := verdict pkt IPTABLES_OUTPUT_CHAIN (family_commands s family i) st in
  v = Dropped \/ v = Rejected \/ v = Queued APPLICATION_QUEUE_NUMBER \/ admitted pkt s family st.
Proof.
  intros Hm v. unfold v. clear v. rewrite output_verdict, output_ipt_phases by congruence.
  unfold before_candidates. rewrite <-!app_assoc.
  rewrite run_app. destruct (run pkt (entry_ipt s) st) as [o1 st1] eqn:H1'.
  apply entry_run in H1' as [-> [-> | ->]]; [|tauto].
  rewrite run_app. destruct (run pkt (replies_ipt s family) st) as [o2 st2] eqn:H2'.
  apply replies_run in H2' as [-> Hrep].
  destruct (decide (o2 = FellThrough)) as [->|Hne]; [|do 3 right; by apply Hrep].
  rewrite run_app. destruct (run pkt (denials_ipt s family) st) as [o3 st3] eqn:H3'.
  apply denials_run in H3' as [[-> ->]|[-> | ->]]; [|tauto|tauto].
  rewrite run_app. destruct (run pkt (marks_ipt s family i) st) as [o4 st4] eqn:H4'.
  apply marks_run in H4' as [[-> ->]|[-> |Hmark]]; [|tauto|do 3 right; by apply admitted_verdict].
  rewrite run_app. destruct (run pkt (flows_ipt s family i) st) as [o5 st5] eqn:H5'.
  apply flows_run in H5' as [->|Hflow]; [|do 3 right; by apply admitted_flow].
  rewrite run_app. destruct (reverse_ipt_run pkt s family Outbound st5) as [[_ ->]|(r & st6 & Hr & Henv & ->)].
  2: { do 3 right. apply elem_of_reverse_ipt in Hr as (? & ? & Hd & ? & _ & ?).
       eapply admitted_reverse; try done. by destruct (direction (spec r)). }
  rewrite run_app. unfold candidate_ipt. rewrite Hm, eqb_refl.
  destruct (candidates_run pkt s family [Drop; Reject; Accept] st5) as [->|[st6 [->| ->]]]; [|tauto|tauto].
  unfold output_accepts_ipt. rewrite Hm. change (Enforcing ==? Learning) with false. cbv iota.
  rewrite app_nil_r, run_app.
  destruct (direct_ipt_run pkt s family Outbound [Accept] st5) as [[_ ->]|(r & st6 & Hr & Henv & ->)]; [by left|].
  do 3 right. apply elem_of_direct_ipt in Hr as (? & ? & ? & ? & _ & Hact).
  eapply admitted_rule; try done. by destruct (action (spec r)).
Qed.

(** ** The two compilers select the same rules *)

Lemma unique_ids (l : list Rule) r r' :
  NoDup (rule_id <$> l) -> r ∈ l -> r' ∈ l -> rule_id r = rule_id r' -> r = r'.
Proof.
  intros Hnd [i Hi]%list_elem_of_lookup [j Hj]%list_elem_of_lookup E.
  assert (i = j) as <-.
  { eapply NoDup_lookup; [exact Hnd|..]; rewrite list_lookup_fmap;
      [by rewrite Hi|rewrite Hj; by rewrite E]. }
  by simplify_eq.
Qed.

Lemma valid_rule_supported r :
  Rule_validate r = Ok tt -> supports_family r FamilyIpv4 || supports_family r FamilyIpv6 = true.
Proof.
  intros (_ & _ & Hs)%Rule_validate_Ok. apply RuleSpec_validate_Ok in Hs as (_ & _ & _ & Hf & _).
  revert Hf. unfold supports_family, families_compatible.
  by destruct (protocol (spec r)), (peer_network (spec r)) as [[]|].
Qed.

#[local] Instance priority_le_trans : Transitive priority_le.
Proof. intros a b c. unfold priority_le. lia. Qed.
#[local] Instance priority_le_total : Total priority_le.
Proof. intros a b. unfold priority_le. lia. Qed.
#[local] Instance id_le_trans : Transitive id_le.
Proof. intros a b c. unfold id_le. lia. Qed.
#[local] Instance id_le_total : Total id_le.
Proof. intros a b. unfold id_le. lia. Qed.

Lemma priority_le_ids r r' : priority_le r r' -> priority_le r' r -> rule_id r = rule_id r'.
Proof. unfold priority_le. lia. Qed.
Lemma id_le_ids r r' : id_le r r' -> id_le r' r -> rule_id r = rule_id r'.
Proof. unfold id_le. lia. Qed.

Lemma merge_sort_filter (le : relation Rule) `{!RelDecision le, !Transitive le, !Total le} p q s :
  (forall r r', le r r' -> le r' r -> rule_id r = rule_id r') ->
  Snapshot_validate s = Ok tt ->
  merge_sort le (List.filter (fun r => p r && q r) (snap_rules s))
  = List.filter q (merge_sort le (List.filter p (snap_rules s))).
Proof.
  intros Hle (_ & _ & _ & Hnd)%Snapshot_validate_Ok.
  apply (StronglySorted_unique_strong le).
  - intros r r' Hr Hr' H1 H2. rewrite merge_sort_Permutation, elem_of_filter_bool in Hr.
    rewrite elem_of_filter_bool, merge_sort_Permutation, elem_of_filter_bool in Hr'.
    apply (unique_ids (snap_rules s)); naive_solver.
  - apply StronglySorted_merge_sort; apply _.
  - apply filter_sorted, StronglySorted_merge_sort; apply _.
  - rewrite merge_sort_Permutation, <-filter_filter_bool.
    apply filter_perm. by rewrite merge_sort_Permutation.
Qed.

(** The iptables compiler selects for an address family exactly the rules
    that the nftables compiler selects, in the same order, without those whose
    network or protocol belongs to the other family; and of the rules of a valid
    snapshot none is left out of both families. *)
Theorem families_share_the_rules s :
  Snapshot_validate s = Ok tt ->
  (forall family d actions,
     direct_rules s family d actions
     = List.filter (fun r => supports_family r family) (Nftables.direct_rules s d actions))
  /\ (forall family d,
     reverse_rules s family d
     = List.filter (fun r => supports_family r family) (Nftables.reverse_rules s d))
  /\ (forall family actions,
     application_rules s family actions
     = List.filter (fun r => supports_family r family) (Nftables.application_rules s actions))
  /\ Forall (fun r => supports_family r FamilyIpv4 || supports_family r FamilyIpv6 = true)
       (snap_rules s).
Proof.
  intros Hv. split_and!; intros.
  - unfold Nftables.direct_rules. rewrite <-(merge_sort_filter priority_le) by eauto using priority_le_ids.
    unfold direct_rules. f_equal. apply filter_ext. intros r. by rewrite <-!andb_assoc, (andb_comm (contains_action _ _)).
  - unfold Nftables.reverse_rules. rewrite <-(merge_sort_filter id_le) by eauto using id_le_ids.
    unfold reverse_rules. f_equal. apply filter_ext. intros r. by rewrite <-!andb_assoc, (andb_comm (_ ==? Accept)).
  - unfold Nftables.application_rules. rewrite <-(merge_sort_filter priority_le) by eauto using priority_le_ids.
    unfold application_rules. f_equal. apply filter_ext. intros r. by rewrite <-!andb_assoc, (andb_comm (contains_action _ _)).
  - apply Snapshot_validate_Ok in Hv as (_ & _ & Hall & _). eapply Forall_impl; [exact Hall|].
    intros r (_ & Hr & _). by apply valid_rule_supported.
Qed.
End Chains.

(** ** The theorems at a concrete policy *)

Lemma iptables_block_all_is_unconditional_witness :
  compile_iptables (mkSnapshot 1 5 BlockAll (snap_rules sample_snapshot))
  = compile_iptables (mkSnapshot 9 1 BlockAll [])
  /\ forall family chain pkt marks,
     chain ∈ [IPTABLES_INPUT_CHAIN; IPTABLES_OUTPUT_CHAIN; IPTABLES_FORWARD_CHAIN] ->
     verdict pkt chain (family_commands (mkSnapshot 1 5 BlockAll (snap_rules sample_snapshot)) family
       InterceptNone) marks = Dropped.
Proof.
  apply (iptables_block_all_is_unconditional (mkSnapshot 1 5 BlockAll (snap_rules sample_snapshot))
    (mkSnapshot 9 1 BlockAll [])); vm_compute; reflexivity.
Defined.

Lemma iptables_denials_win_witness :
  let v := verdict (fun m => match m with IReply => false | _ => true end) IPTABLES_OUTPUT_CHAIN
             (family_commands sample_snapshot FamilyIpv6 TcpInitial) (mkMarks 0 0) in
  v = Dropped \/ v = Rejected.
Proof.
  apply (iptables_denials_win _ sample_snapshot FamilyIpv6 TcpInitial (mkMarks 0 0) sample_deny_rule);
    try (vm_compute; reflexivity); try discriminate.
  right. left.
Defined.

Lemma iptables_applications_are_not_bypassed_witness :
  let v := verdict (fun m => match m with
                              | IText _ | IReply => false
                              | IPort _ p => negb (port_start p =? 23)
                              | _ => true
                              end)
             IPTABLES_OUTPUT_CHAIN (family_commands sample_snapshot FamilyIpv4 TcpInitial) (mkMarks 0 0) in
  v = Queued APPLICATION_QUEUE_NUMBER \/ v = Dropped.
Proof.
  eapply (iptables_applications_are_not_bypassed _ sample_snapshot FamilyIpv4 TcpInitial (mkMarks 0 0) _
    sample_application_rule); try (vm_compute; reflexivity).
  left.
Defined.

Lemma iptables_accepts_are_justified_witness :
  let pkt := fun m => match m with
                      | IText t => t ==? lit "-p tcp -m conntrack --ctstate ESTABLISHED --ctdir ORIGINAL"
                      | IReply | IPort _ _ => false
                      | _ => true
                      end in
  let marks := mkMarks 0 (flow_mark sample_snapshot) in
  verdict pkt IPTABLES_OUTPUT_CHAIN (family_commands sample_snapshot FamilyIpv4 TcpInitial) marks = Returned
  /\ admitted pkt sample_snapshot FamilyIpv4 marks.
Proof.
  intros pkt marks.
  assert (Hv : verdict pkt IPTABLES_OUTPUT_CHAIN (family_commands sample_snapshot FamilyIpv4 TcpInitial) marks = Returned)
    by (vm_compute; reflexivity).
  split; [exact Hv|].
  destruct (iptables_accepts_are_justified pkt sample_snapshot FamilyIpv4 TcpInitial marks)
    as [E|[E|[E|E]]]; [vm_compute; reflexivity|rewrite Hv in E; discriminate E..|exact E].
Defined.

Lemma families_share_the_rules_witness :
  direct_rules sample_snapshot FamilyIpv6 Outbound [Drop; Accept]
  = List.filter (fun r => supports_family r FamilyIpv6)
      (Nftables.direct_rules sample_snapshot Outbound [Drop; Accept]).
Proof. apply (families_share_the_rules sample_snapshot). vm_compute. reflexivity. Defined.
