(* ===== verification/Decision.v ===== *)
(** * Application decisions

    The policy evaluated for every packet of an application queue
    ([openshield-daemon/src/application.rs]): an immutable snapshot with an
    index from executable versions to rules, the matching of one attributed
    connection, and the requirements that decide which process fields have to
    be read before the policy is asked. *)

From S2P Require Import Prelude Text Net Application Model State StateFacts Snapshots.
Local Open Scope Z_scope.

(** ** Connections *)

Record OutboundConnection : Type := mkOutboundConnection {
  source_address : IpAddr;
  source_port : option Z;
  destination_address : IpAddr;
  destination_port : option Z;
  conn_protocol : TransportProtocol;
  output_interface : InterfaceName;
  socket_uid : Z
}.

#[export] Instance OutboundConnection_eq_dec : EqDecision OutboundConnection.
Proof. solve_decision. Defined.

(** The messages of the [ensure!]s, as constructors. *)
Inductive ConnectionError : Type :=
| FamiliesDiffer
| MissingOrReservedPorts
| InvalidIcmpTuple
| InvalidIcmpV6Tuple
| UntypedConnection.

Definition OutboundConnection_validate (self : OutboundConnection) : Result ConnectionError unit :=
  fail_if (negb (Bool.eqb (is_ipv4 self.(source_address)) (is_ipv4 self.(destination_address))))
    FamiliesDiffer ;;
  match self.(conn_protocol) with
  | Tcp | Udp =>
      fail_if (negb (is_some_and (fun port => negb (port =? 0)) self.(source_port)
                     && is_some_and (fun port => negb (port =? 0)) self.(destination_port)))
        MissingOrReservedPorts
  | Icmp =>
      fail_if (negb (is_ipv4 self.(source_address) && is_some self.(source_port)
                     && is_none self.(destination_port))) InvalidIcmpTuple
  | IcmpV6 =>
      fail_if (negb (is_ipv6 self.(source_address) && is_some self.(source_port)
                     && is_none self.(destination_port))) InvalidIcmpV6Tuple
  | Any => Err UntypedConnection
  end.

(** ** Selecting one rule *)

(** [Iterator::min_by_key]: the first of the elements with the least key. *)
Definition min_by_key {A} (lt : A -> A -> bool) (xs : list A) : option A :=
  foldl (fun best x =>
    match best with
    | None => Some x
    | Some b => Some (if lt x b then x else b)
    end) None xs.

(** [Option::or_else]. *)
Definition or_else {A} (o : option A) (f : unit -> option A) : option A :=
  match o with Some a => Some a | None => f tt end.

Definition rule_action_priority (action : RuleAction) : Z :=
  match action with Drop => 0 | Reject => 1 | Accept => 2 end.

(** The keys [(rule_action_priority(action), id)] and [id]. *)
Definition policy_lt (a b : Rule) : bool :=
  let pa := rule_action_priority a.(spec).(action) in
  let pb := rule_action_priority b.(spec).(action) in
  (pa <? pb) || ((pa =? pb) && (a.(rule_id) <? b.(rule_id))).
Definition id_lt (a b : Rule) : bool := a.(rule_id) <? b.(rule_id).

Definition is_deny (rule : Rule) : bool :=
  match rule.(spec).(action) with Drop | Reject => true | Accept => false end.

Section Matching.
Context `{IpNetLib}.

Definition outbound_network_selectors_match (rule : Rule) (connection : OutboundConnection)
    : bool :=
  let s := rule.(spec) in
  s.(enabled) && (s.(direction) ==? Outbound)
  && ((s.(protocol) ==? Any) || (s.(protocol) ==? connection.(conn_protocol)))
  && is_none_or (fun network => ipnet_contains network connection.(destination_address))
       s.(peer_network)
  && is_none_or (fun range =>
       is_some_and (fun port => (range.(port_start) <=? port) && (port <=? range.(port_end)))
         connection.(destination_port)) s.(port)
  && is_none_or (fun interface => interface ==? connection.(output_interface)) s.(interface).

Definition outbound_network_rule_matches (rule : Rule) (connection : OutboundConnection) : bool :=
  is_none rule.(spec).(application) && (rule.(spec).(action) ==? Accept)
  && outbound_network_selectors_match rule connection.

Definition application_rule_network_and_uid_matches (rule : Rule)
    (connection : OutboundConnection) : bool :=
  outbound_network_selectors_match rule connection
  && is_some_and (fun selector =>
       is_none_or (fun expected => expected =? connection.(socket_uid)) selector.(as_uid))
     rule.(spec).(application).

Definition application_rule_matches (rule : Rule) (connection : OutboundConnection)
    (identity : ApplicationIdentity) : bool :=
  application_rule_network_and_uid_matches rule connection
  && is_some_and (fun selector => ApplicationSelector_matches selector identity)
       rule.(spec).(application).

Definition fast_learned_accept_rule_matches (rule : Rule) (connection : OutboundConnection)
    (identity : ApplicationIdentity) : bool :=
  if (rule.(spec).(origin) !=? Learned) || (rule.(spec).(action) !=? Accept)
     || negb (application_rule_network_and_uid_matches rule connection)
  then false
  else
    is_some_and (fun selector =>
      negb selector.(as_metadata_redacted)
      && is_some_and (fun expected => expected ==? identity.(ai_executable))
           selector.(as_executable)
      && is_some_and (fun expected => expected ==? identity.(ai_executable_file))
           selector.(as_executable_file)
      && is_some_and (fun expected => expected =? identity.(ai_uid)) selector.(as_uid))
      rule.(spec).(application).

(** The scan of every rule that the index replaces. *)
Definition matching_application_rule (snapshot : Snapshot) (connection : OutboundConnection)
    (identity : ApplicationIdentity) : option Rule :=
  min_by_key policy_lt
    (List.filter (fun rule => application_rule_matches rule connection identity)
       snapshot.(snap_rules)).
End Matching.

(** ** [ApplicationDecisionPolicy] *)

Record ApplicationDecisionPolicy : Type := mkPolicy {
  enforcement_strategy : EnforcementStrategy;
  policy_snapshot : Snapshot;
  rules_by_executable : gmap ExecutableFileId (list nat);
  network_accept_rules : list nat
}.

(** One iteration of the loop over [snapshot.rules.iter().enumerate()]. *)
Definition index_rule (acc : gmap ExecutableFileId (list nat) * list nat) (entry : nat * Rule)
    : gmap ExecutableFileId (list nat) * list nat :=
  let '(by_file, accepts) := acc in
  let '(index, rule) := entry in
  match rule.(spec).(application) with
  | Some selector =>
      match selector.(as_executable_file) with
      | None => acc
      | Some file => (<[file := default [] (by_file !! file) ++ [index]]> by_file, accepts)
      end
  | None =>
      if rule.(spec).(enabled) && (rule.(spec).(direction) ==? Outbound)
         && (rule.(spec).(action) ==? Accept)
      then (by_file, accepts ++ [index]) else acc
  end.

Definition enumerate {A} (xs : list A) : list (nat * A) := imap pair xs.

Definition Policy_new (snapshot : Snapshot) : ApplicationDecisionPolicy :=
  let '(by_file, accepts) := foldl index_rule (∅, []) (enumerate snapshot.(snap_rules)) in
  mkPolicy Strict snapshot by_file accepts.

Definition with_enforcement_strategy (self : ApplicationDecisionPolicy)
    (strategy : EnforcementStrategy) : ApplicationDecisionPolicy :=
  mkPolicy strategy self.(policy_snapshot) self.(rules_by_executable)
    self.(network_accept_rules).

Definition rule_count (self : ApplicationDecisionPolicy) : Z :=
  zlen self.(policy_snapshot).(snap_rules).

(** The rules at the given indices; one that is out of range is skipped. *)
Definition rules_at (self : ApplicationDecisionPolicy) (indices : list nat) : list Rule :=
  omap (fun index => self.(policy_snapshot).(snap_rules) !! index) indices.

Definition candidates (self : ApplicationDecisionPolicy) (file : ExecutableFileId) : list Rule :=
  rules_at self (default [] (self.(rules_by_executable) !! file)).

Record IdentityCaptureRequirements : Type := mkRequirements {
  req_command_line : bool;
  req_cgroups : bool
}.
Definition IdentityCaptureRequirements_minimal := mkRequirements false false.
Definition IdentityCaptureRequirements_full := mkRequirements true true.

Section Policy.
Context `{IpNetLib}.

Definition matching_network_accept (self : ApplicationDecisionPolicy)
    (connection : OutboundConnection) : option Rule :=
  min_by_key id_lt
    (List.filter (fun rule => outbound_network_rule_matches rule connection)
       (rules_at self self.(network_accept_rules))).

Definition matching_rule (self : ApplicationDecisionPolicy) (connection : OutboundConnection)
    (identity : ApplicationIdentity) : option Rule :=
  let candidates := candidates self identity.(ai_executable_file) in
  let application_match :=
    min_by_key policy_lt
      (List.filter (fun rule => application_rule_matches rule connection identity) candidates) in
  or_else
    (or_else application_match (fun _ =>
       if self.(enforcement_strategy) ==? Fast
       then min_by_key id_lt
              (List.filter (fun rule =>
                 fast_learned_accept_rule_matches rule connection identity) candidates)
       else None))
    (fun _ => matching_network_accept self connection).

Definition matching_deny_rule (self : ApplicationDecisionPolicy)
    (connection : OutboundConnection) (identity : ApplicationIdentity) : option Rule :=
  min_by_key policy_lt
    (List.filter (fun rule => application_rule_matches rule connection identity)
       (List.filter is_deny (candidates self identity.(ai_executable_file)))).

(** The loop bodies of the two requirement functions; the accumulator is
    [(requirements, candidate_found)]. *)
Definition add_selector_fields (selector : ApplicationSelector)
    (requirements : IdentityCaptureRequirements) : IdentityCaptureRequirements :=
  mkRequirements (requirements.(req_command_line) || is_some selector.(as_command_line))
    (requirements.(req_cgroups) || is_some selector.(as_cgroup)).

Definition enforcement_requirement_step (strategy : EnforcementStrategy)
    (connection : OutboundConnection) (acc : IdentityCaptureRequirements * bool) (rule : Rule)
    : IdentityCaptureRequirements * bool :=
  if negb (application_rule_network_and_uid_matches rule connection) then acc
  else match rule.(spec).(application) with
       | None => acc
       | Some selector =>
           let stable_fast_learning_accept :=
             (strategy ==? Fast) && (rule.(spec).(origin) ==? Learned)
             && (rule.(spec).(action) ==? Accept) in
           (if negb stable_fast_learning_accept then add_selector_fields selector acc.1
            else acc.1, true)
       end.

Definition deny_requirement_step (connection : OutboundConnection)
    (acc : IdentityCaptureRequirements * bool) (rule : Rule)
    : IdentityCaptureRequirements * bool :=
  if negb (is_deny rule) || negb (application_rule_network_and_uid_matches rule connection)
  then acc
  else match rule.(spec).(application) with
       | None => acc
       | Some selector => (add_selector_fields selector acc.1, true)
       end.

Definition enforcement_capture_requirements (self : ApplicationDecisionPolicy)
    (connection : OutboundConnection) : option IdentityCaptureRequirements :=
  let '(requirements, candidate_found) :=
    foldl (enforcement_requirement_step self.(enforcement_strategy) connection)
      (IdentityCaptureRequirements_minimal, false) self.(policy_snapshot).(snap_rules) in
  if candidate_found : bool then Some requirements else None.

Definition deny_capture_requirements (self : ApplicationDecisionPolicy)
    (connection : OutboundConnection) : option IdentityCaptureRequirements :=
  let '(requirements, candidate_found) :=
    foldl (deny_requirement_step connection)
      (IdentityCaptureRequirements_minimal, false) self.(policy_snapshot).(snap_rules) in
  if candidate_found : bool then Some requirements else None.
End Policy.

(** ** Facts about the least element *)

Lemma min_by_key_app {A} (lt : A -> A -> bool) xs x :
  min_by_key lt (xs ++ [x]) =
  match min_by_key lt xs with
  | None => Some x
  | Some b => Some (if lt x b then x else b)
  end.
Proof. unfold min_by_key. by rewrite foldl_app. Qed.

Lemma min_by_key_elem {A} (lt : A -> A -> bool) xs x : min_by_key lt xs = Some x -> x ∈ xs.
Proof.
  revert x. induction xs as [|y xs IH] using rev_ind; intros x; [done|].
  rewrite min_by_key_app, elem_of_app, list_elem_of_singleton.
  destruct (min_by_key lt xs); [|naive_solver].
  destruct (lt y a); naive_solver.
Qed.

Lemma min_by_key_None {A} (lt : A -> A -> bool) xs : min_by_key lt xs = None <-> xs = [].
Proof.
  destruct xs as [|y xs] using rev_ind; [done|]. rewrite min_by_key_app.
  split; [by destruct (min_by_key lt xs)|]. by destruct xs.
Qed.

(** Keys compared by a strict weak order. *)
Lemma min_by_key_least {A} (lt : A -> A -> bool) xs x :
  (forall a, lt a a = false) ->
  (forall a b c, lt b a = false -> lt c b = false -> lt c a = false) ->
  (forall a b, lt a b = true -> lt b a = false) ->
  min_by_key lt xs = Some x -> forall y, y ∈ xs -> lt y x = false.
Proof.
  intros Hirr Htr Has. revert x. induction xs as [|z xs IH] using rev_ind; intros x; [done|].
  rewrite min_by_key_app. intros Hx y. rewrite elem_of_app, list_elem_of_singleton.
  destruct (min_by_key lt xs) as [b|] eqn:Hb.
  - destruct (lt z b) eqn:Hzb; injection Hx as <-; intros [Hy| ->]; auto.
    eapply Htr; [apply (Has _ _ Hzb)|]. by apply IH.
  - apply min_by_key_None in Hb as ->. injection Hx as <-. intros [Hy| ->]; [|done].
    by apply elem_of_nil in Hy.
Qed.

Lemma policy_lt_false a b :
  policy_lt a b = false <->
  rule_action_priority (action (spec b)) < rule_action_priority (action (spec a))
  \/ rule_action_priority (action (spec b)) = rule_action_priority (action (spec a))
     /\ rule_id b <= rule_id a.
Proof.
  unfold policy_lt. rewrite orb_false_iff, andb_false_iff, Z.ltb_ge, Z.ltb_ge, Z.eqb_neq. lia.
Qed.

Lemma policy_least xs x :
  min_by_key policy_lt xs = Some x -> forall y, y ∈ xs -> policy_lt y x = false.
Proof.
  apply min_by_key_least.
  - intros a. apply policy_lt_false. lia.
  - intros a b c. rewrite !policy_lt_false. lia.
  - intros a b Hab. apply not_false_iff_true in Hab. rewrite policy_lt_false in *. lia.
Qed.

(** ** The index *)

Fixpoint indices_from (k : nat) (p : Rule -> bool) (rs : list Rule) : list nat :=
  match rs with
  | [] => []
  | r :: rs => (if p r then [k] else []) ++ indices_from (S k) p rs
  end.

Definition pinned_to (file : ExecutableFileId) (r : Rule) : bool :=
  is_some_and (fun s => is_some_and (fun f => f ==? file) (as_executable_file s))
    (application (spec r)).
Definition network_accept (r : Rule) : bool :=
  is_none (application (spec r)) && enabled (spec r) && (direction (spec r) ==? Outbound)
  && (action (spec r) ==? Accept).

Lemma index_fold rs : forall k by_file accepts file,
  let '(by_file', accepts') :=
    foldl index_rule (by_file, accepts) (imap (fun i r => ((k + i)%nat, r)) rs) in
  default [] (by_file' !! file)
    = default [] (by_file !! file) ++ indices_from k (pinned_to file) rs
  /\ accepts' = accepts ++ indices_from k network_accept rs.
Proof.
  induction rs as [|r rs IH]; intros k bf ac file; [by rewrite !app_nil_r|].
  rewrite imap_cons. cbn [foldl]. rewrite Nat.add_0_r.
  rewrite (imap_ext _ (fun i r => ((S k + i)%nat, r))) by (intros; simpl; f_equal; lia).
  destruct (index_rule (bf, ac) (k, r)) as [bf1 ac1] eqn:E.
  specialize (IH (S k) bf1 ac1 file). destruct (foldl index_rule _ _) as [bf' ac'].
  destruct IH as [-> ->]. cbn [indices_from]. rewrite !app_assoc.
  enough (default [] (bf1 !! file) = default [] (bf !! file) ++ (if pinned_to file r then [k] else [])
    /\ ac1 = ac ++ (if network_accept r then [k] else [])) as [-> ->] by done.
  unfold index_rule in E. unfold pinned_to, network_accept.
  destruct (application (spec r)) as [s|]; simpl.
  - destruct (as_executable_file s) as [f|]; simplify_eq; simpl; rewrite ?app_nil_r; [|done].
    unfold eqb. case_bool_decide as Hf; [subst f|].
    + by rewrite lookup_insert_eq.
    + by rewrite lookup_insert_ne, app_nil_r.
  - case_match; simplify_eq; by rewrite ?app_nil_r.
Qed.

Lemma rules_at_indices p rs : forall pre,
  omap (fun i => (pre ++ rs) !! i) (indices_from (length pre) p rs) = List.filter p rs.
Proof.
  induction rs as [|r rs IH]; intros pre; [done|]. cbn [indices_from List.filter].
  assert (Hr : omap (fun i => (pre ++ r :: rs) !! i) (indices_from (S (length pre)) p rs)
               = List.filter p rs).
  { specialize (IH (pre ++ [r])). rewrite length_app, Nat.add_1_r, <-app_assoc in IH. exact IH. }
  destruct (p r); [|exact Hr]. cbn [app]. cbn [omap list_omap].
  rewrite list_lookup_middle by done. f_equal. exact Hr.
Qed.

(** ** The indexed policy of a snapshot *)

Definition decision_policy (s : Snapshot) (strategy : EnforcementStrategy)
    : ApplicationDecisionPolicy :=
  with_enforcement_strategy (Policy_new s) strategy.

Lemma policy_fields s strategy :
  enforcement_strategy (decision_policy s strategy) = strategy
  /\ policy_snapshot (decision_policy s strategy) = s.
Proof.
  unfold decision_policy, with_enforcement_strategy, Policy_new.
  by destruct (foldl index_rule _ _).
Qed.

Lemma candidates_spec s strategy file :
  candidates (decision_policy s strategy) file = List.filter (pinned_to file) (snap_rules s).
Proof.
  unfold candidates, rules_at. rewrite (proj2 (policy_fields _ _)).
  rewrite <-(rules_at_indices (pinned_to file) (snap_rules s) []). cbn [app length]. f_equal.
  pose proof (index_fold (snap_rules s) 0 ∅ [] file) as Hi.
  unfold decision_policy, with_enforcement_strategy, Policy_new, enumerate.
  change (imap (fun i r => ((0 + i)%nat, r)) (snap_rules s)) with (imap pair (snap_rules s)) in Hi.
  destruct (foldl index_rule _ _) as [bf ac]. cbn [rules_by_executable].
  destruct Hi as [-> _]. by rewrite lookup_empty.
Qed.

Lemma network_accepts_spec s strategy :
  rules_at (decision_policy s strategy) (network_accept_rules (decision_policy s strategy))
  = List.filter network_accept (snap_rules s).
Proof.
  unfold rules_at. rewrite (proj2 (policy_fields _ _)).
  rewrite <-(rules_at_indices network_accept (snap_rules s) []). cbn [app length]. f_equal.
  pose proof (index_fold (snap_rules s) 0 ∅ [] (mkExecutableFileId 0 0 0 0 0)) as Hi.
  unfold decision_policy, with_enforcement_strategy, Policy_new, enumerate.
  change (imap (fun i r => ((0 + i)%nat, r)) (snap_rules s)) with (imap pair (snap_rules s)) in Hi.
  destruct (foldl index_rule _ _) as [bf ac]. cbn [network_accept_rules]. by destruct Hi as [_ ->].
Qed.

Lemma filter_narrow {A} (p q : A -> bool) xs :
  (forall x, x ∈ xs -> q x = true -> p x = true) ->
  List.filter q (List.filter p xs) = List.filter q xs.
Proof.
  induction xs as [|x xs IH]; intros Hpq; [done|]. cbn [List.filter].
  assert (IH' := IH (fun y Hy => Hpq y (list_elem_of_further _ _ _ Hy))).
  pose proof (Hpq x (list_elem_of_here _ _)) as Hx.
  destruct (p x); cbn [List.filter]; [by rewrite IH'|].
  destruct (q x); [by discriminate Hx|done].
Qed.

Lemma filter_comm {A} (p q : A -> bool) xs :
  List.filter p (List.filter q xs) = List.filter q (List.filter p xs).
Proof.
  induction xs as [|x xs IH]; [done|]. cbn [List.filter].
  destruct (p x) eqn:Hp, (q x) eqn:Hq; cbn [List.filter]; by rewrite ?Hp, ?Hq, IH.
Qed.

(** Elements of [q] come before the others: the least of them is the least of
    all, when that is in [q]. *)
Lemma min_by_key_filter {A} (lt : A -> A -> bool) (q : A -> bool) xs :
  (forall a b, q a = true -> q b = false -> lt a b = true /\ lt b a = false) ->
  min_by_key lt (List.filter q xs) =
  match min_by_key lt xs with
  | Some m => if q m then Some m else None
  | None => None
  end.
Proof.
  intros Hq. induction xs as [|x xs IH] using rev_ind; [done|].
  rewrite List.filter_app, min_by_key_app. cbn [List.filter].
  destruct (q x) eqn:Hx; rewrite ?app_nil_r, ?min_by_key_app, IH;
    destruct (min_by_key lt xs) as [m|]; rewrite ?Hx; try done;
    destruct (q m) eqn:Hm; rewrite ?Hx; try done.
  - by destruct (lt x m); rewrite ?Hx, ?Hm.
  - destruct (Hq x m) as [-> _]; [done..|]. by rewrite Hx.
  - destruct (Hq m x) as [_ ->]; [done..|]. by rewrite Hm.
  - by destruct (lt x m); rewrite ?Hx, ?Hm.
Qed.

Lemma deny_first a b :
  is_deny a = true -> is_deny b = false -> policy_lt a b = true /\ policy_lt b a = false.
Proof.
  unfold is_deny, policy_lt, rule_action_priority.
  destruct (action (spec a)), (action (spec b)); intros; done.
Qed.

Section Decisions.
Context `{IpNetLib} (s : Snapshot) (strategy : EnforcementStrategy).

(** Every persisted rule that is enabled and has an application selector
    carries the version of its executable. *)
Lemma enabled_pinned r a :
  Snapshot_validate s = Ok tt ->
  r ∈ snap_rules s -> enabled (spec r) = true -> application (spec r) = Some a ->
  is_Some (as_executable_file a).
Proof.
  intros Hv Hr He Ha. apply Snapshot_validate_Ok in Hv as (_ & _ & Hall & _).
  rewrite Forall_forall in Hall. destruct (Hall r Hr) as (_ & _ & _ & Hp).
  unfold reject_unpinned_application_spec, is_unpinned_application_template in Hp.
  rewrite Ha, He, fail_if_Ok in Hp. simpl in Hp.
  rewrite andb_false_r in Hp. simpl in Hp. rewrite andb_true_r in Hp.
  by destruct (as_executable_file a).
Qed.

Lemma network_match_enabled r c :
  outbound_network_selectors_match r c = true ->
  enabled (spec r) = true /\ direction (spec r) = Outbound.
Proof.
  unfold outbound_network_selectors_match. rewrite !andb_true_iff, eqb_true. naive_solver.
Qed.

Lemma application_match_pinned r c i :
  Snapshot_validate s = Ok tt -> r ∈ snap_rules s -> application_rule_matches r c i = true ->
  pinned_to (ai_executable_file i) r = true.
Proof.
  intros Hv Hr. unfold application_rule_matches, application_rule_network_and_uid_matches, pinned_to.
  destruct (application (spec r)) as [a|] eqn:Ha; [|by rewrite andb_false_r].
  cbn [is_some_and]. rewrite !andb_true_iff. intros [[Hn _] Hm].
  destruct (enabled_pinned r a) as [f Hf]; [done..|by apply network_match_enabled in Hn as [? _]|done|].
  unfold ApplicationSelector_matches in Hm. rewrite Hf in *. simpl in *.
  rewrite !andb_true_iff in Hm. naive_solver.
Qed.

Lemma fast_match_pinned r c i :
  fast_learned_accept_rule_matches r c i = true -> pinned_to (ai_executable_file i) r = true.
Proof.
  unfold fast_learned_accept_rule_matches, pinned_to. case_match; [done|].
  destruct (application (spec r)) as [a|]; [|done]. cbn [is_some_and].
  rewrite !andb_true_iff. destruct (as_executable_file a); naive_solver.
Qed.

Lemma network_match_accept r c :
  outbound_network_rule_matches r c = true -> network_accept r = true.
Proof.
  unfold outbound_network_rule_matches, network_accept. rewrite !andb_true_iff.
  intros [[Ha Hc] Hn]. apply network_match_enabled in Hn as [-> ->]. by rewrite Ha, Hc.
Qed.

(** The decision without the index: three scans of all rules. *)
Definition scan_decision (c : OutboundConnection) (i : ApplicationIdentity) : option Rule :=
  or_else
    (or_else (matching_application_rule s c i) (fun _ =>
       if strategy ==? Fast
       then min_by_key id_lt
              (List.filter (fun r => fast_learned_accept_rule_matches r c i) (snap_rules s))
       else None))
    (fun _ => min_by_key id_lt
       (List.filter (fun r => outbound_network_rule_matches r c) (snap_rules s))).

Lemma network_accept_scan c :
  matching_network_accept (decision_policy s strategy) c
  = min_by_key id_lt (List.filter (fun r => outbound_network_rule_matches r c) (snap_rules s)).
Proof.
  unfold matching_network_accept. rewrite network_accepts_spec, filter_narrow; [done|].
  intros r _. apply network_match_accept.
Qed.

Lemma application_scan i (p : Rule -> bool) :
  (forall r, r ∈ snap_rules s -> p r = true -> pinned_to (ai_executable_file i) r = true) ->
  List.filter p (candidates (decision_policy s strategy) (ai_executable_file i))
  = List.filter p (snap_rules s).
Proof. intros Hp. by rewrite candidates_spec, filter_narrow. Qed.

Lemma matching_rule_scan c i :
  Snapshot_validate s = Ok tt ->
  matching_rule (decision_policy s strategy) c i = scan_decision c i.
Proof.
  intros Hv. unfold matching_rule, scan_decision, matching_application_rule.
  rewrite (proj1 (policy_fields _ _)), network_accept_scan, !application_scan; [done| |].
  - intros r _. apply fast_match_pinned.
  - intros r Hr. by apply application_match_pinned.
Qed.

Lemma matching_deny_scan c i :
  Snapshot_validate s = Ok tt ->
  matching_deny_rule (decision_policy s strategy) c i =
  match matching_application_rule s c i with
  | Some r => if is_deny r then Some r else None
  | None => None
  end.
Proof.
  intros Hv. unfold matching_deny_rule, matching_application_rule.
  rewrite <-(min_by_key_filter policy_lt is_deny) by apply deny_first. f_equal.
  rewrite (filter_comm _ is_deny), application_scan; [done|].
  intros r Hr. by apply application_match_pinned.
Qed.

Lemma application_match_least c i m :
  matching_application_rule s c i = Some m ->
  application_rule_matches m c i = true /\
  forall r, r ∈ snap_rules s -> application_rule_matches r c i = true -> policy_lt r m = false.
Proof.
  intros Hm. split.
  - by apply min_by_key_elem, elem_of_filter_bool in Hm as [_ ?].
  - intros r Hr Hr'. eapply policy_least; [exact Hm|]. by apply elem_of_filter_bool.
Qed.

Lemma application_match_None c i :
  matching_application_rule s c i = None ->
  forall r, r ∈ snap_rules s -> application_rule_matches r c i = false.
Proof.
  intros Hm%min_by_key_None r Hr. apply not_true_iff_false. intros Hr'.
  assert (r ∈ @nil Rule) as []%elem_of_nil. rewrite <-Hm. by apply elem_of_filter_bool.
Qed.

(** What is found after the application rules is always an accept. *)
Lemma fallback_accepts c i r :
  matching_application_rule s c i = None -> scan_decision c i = Some r -> is_deny r = false.
Proof.
  intros Hm. unfold scan_decision. rewrite Hm. cbn [or_else]. unfold is_deny.
  destruct (strategy ==? Fast); cbn [or_else].
  - destruct (min_by_key id_lt _) as [f|] eqn:Hf; cbn [or_else].
    + intros [= <-]. apply min_by_key_elem, elem_of_filter_bool in Hf as [_ Hf].
      unfold fast_learned_accept_rule_matches in Hf. by destruct (action (spec f));
        rewrite ?orb_true_r in Hf.
    + intros Hr. apply min_by_key_elem, elem_of_filter_bool in Hr as [_ Hr].
      unfold outbound_network_rule_matches in Hr. by destruct (action (spec r));
        rewrite ?andb_false_r in Hr.
  - intros Hr. apply min_by_key_elem, elem_of_filter_bool in Hr as [_ Hr].
    unfold outbound_network_rule_matches in Hr. by destruct (action (spec r));
      rewrite ?andb_false_r in Hr.
Qed.

Lemma scan_application c i m :
  matching_application_rule s c i = Some m -> scan_decision c i = Some m.
Proof. intros Hm. unfold scan_decision. by rewrite Hm. Qed.
End Decisions.

Lemma least_drop r m :
  action (spec r) = Drop -> policy_lt r m = false ->
  action (spec m) = Drop /\ rule_id m <= rule_id r.
Proof.
  intros Hr. rewrite policy_lt_false, Hr. unfold rule_action_priority.
  destruct (action (spec m)); intuition (congruence || lia).
Qed.

Lemma least_deny r m : is_deny r = true -> policy_lt r m = false -> is_deny m = true.
Proof.
  intros Hr Hlt. destruct (is_deny m) eqn:Hm; [done|].
  destruct (deny_first r m Hr Hm) as [Hlt' _]. congruence.
Qed.

(** ** Capture requirements *)

(** Two captures of one process that agree on everything that is always read
    and on every field that was asked for. *)
Record captured_alike (req : IdentityCaptureRequirements) (i i' : ApplicationIdentity)
    : Prop := {
  alike_executable : ai_executable i = ai_executable i';
  alike_file : ai_executable_file i = ai_executable_file i';
  alike_uid : ai_uid i = ai_uid i';
  alike_command_line : req_command_line req = true -> ai_command_line i = ai_command_line i';
  alike_cgroups : req_cgroups req = true -> ai_cgroups i = ai_cgroups i'
}.

Lemma captured_alike_sym req i i' : captured_alike req i i' -> captured_alike req i' i.
Proof. intros []. split; auto using eq_sym. Qed.

(** [req] covers the optional fields of a selector. *)
Definition covers (req : IdentityCaptureRequirements) (a : ApplicationSelector) : Prop :=
  (is_some (as_command_line a) = true -> req_command_line req = true)
  /\ (is_some (as_cgroup a) = true -> req_cgroups req = true).

Definition req_le (q q' : IdentityCaptureRequirements) : Prop :=
  (req_command_line q = true -> req_command_line q' = true)
  /\ (req_cgroups q = true -> req_cgroups q' = true).

Lemma covers_mono q q' a : covers q a -> req_le q q' -> covers q' a.
Proof. intros [] []. split; auto. Qed.

Lemma add_selector_fields_spec a q :
  covers (add_selector_fields a q) a /\ req_le q (add_selector_fields a q).
Proof.
  unfold covers, req_le, add_selector_fields; simpl.
  split; split; intros ->; by rewrite ?orb_true_r.
Qed.

Lemma covered_match req a i i' :
  covers req a -> captured_alike req i i' ->
  ApplicationSelector_matches a i = ApplicationSelector_matches a i'.
Proof.
  intros [Hc Hg] [He Hf Hu Hcl Hcg]. unfold ApplicationSelector_matches.
  rewrite He, Hf, Hu. f_equal; [f_equal; f_equal|].
  - destruct (as_command_line a); simpl in *; [|done]. by rewrite Hcl by auto.
  - destruct (as_cgroup a); simpl in *; [|done]. by rewrite Hcg by auto.
Qed.

Section Requirements.
Context `{IpNetLib} (c : OutboundConnection).

(** Both loops add the fields of the selected rules and note whether there
    was one. *)
Lemma requirement_fold (sel : Rule -> bool) (skip : Rule -> bool)
    (step : IdentityCaptureRequirements * bool -> Rule -> IdentityCaptureRequirements * bool) :
  (forall acc r, step acc r =
     if sel r then match application (spec r) with
                   | None => acc
                   | Some a => (if skip r then acc.1 else add_selector_fields a acc.1, true)
                   end
     else acc) ->
  forall rs acc, let '(q, found) := foldl step acc rs in
  req_le acc.1 q
  /\ (acc.2 = true -> found = true)
  /\ forall r a, r ∈ rs -> sel r = true -> application (spec r) = Some a ->
     found = true /\ (skip r = false -> covers q a).
Proof.
  intros Hstep. induction rs as [|r rs IH]; intros acc; cbn [foldl].
  { destruct acc as [q f]. split_and!; [done|done|]. by intros r a ?%elem_of_nil. }
  specialize (IH (step acc r)). destruct (foldl step (step acc r) rs) as [q found].
  destruct IH as (Hle & Hf & Hrs). rewrite Hstep in *.
  assert (Hle' : req_le acc.1 (step acc r).1).
  { rewrite Hstep. repeat case_match; try done. apply add_selector_fields_spec. }
  rewrite Hstep in Hle'. split_and!.
  - destruct Hle, Hle'. split; auto.
  - intros Ht. apply Hf. by repeat case_match.
  - intros r' a' [->|Hr']%elem_of_cons Hsel Ha; [|by apply Hrs].
    rewrite Hsel, Ha in *. split; [by apply Hf|]. intros Hsk. rewrite Hsk in *.
    eapply covers_mono; [|exact Hle]. apply add_selector_fields_spec.
Qed.

Definition stable_fast (strategy : EnforcementStrategy) (r : Rule) : bool :=
  (strategy ==? Fast) && (origin (spec r) ==? Learned) && (action (spec r) ==? Accept).

Lemma application_match_network r i :
  application_rule_matches r c i = true ->
  application_rule_network_and_uid_matches r c = true.
Proof. unfold application_rule_matches. by intros [? _]%andb_prop. Qed.

Lemma fast_match_network r i :
  fast_learned_accept_rule_matches r c i = true ->
  application_rule_network_and_uid_matches r c = true.
Proof.
  unfold fast_learned_accept_rule_matches.
  by destruct (application_rule_network_and_uid_matches r c); rewrite ?orb_true_r.
Qed.

Lemma enforcement_step_eq strategy acc r :
  enforcement_requirement_step strategy c acc r =
  if application_rule_network_and_uid_matches r c
  then match application (spec r) with
       | None => acc
       | Some a => (if stable_fast strategy r then acc.1 else add_selector_fields a acc.1, true)
       end
  else acc.
Proof.
  unfold enforcement_requirement_step, stable_fast.
  destruct (application_rule_network_and_uid_matches r c); [|done]. cbn [negb].
  destruct (application (spec r)); [|done].
  by destruct ((strategy ==? Fast) && _ && _).
Qed.

Lemma deny_step_eq acc r :
  deny_requirement_step c acc r =
  if is_deny r && application_rule_network_and_uid_matches r c
  then match application (spec r) with
       | None => acc
       | Some a => (add_selector_fields a acc.1, true)
       end
  else acc.
Proof. unfold deny_requirement_step. by rewrite <-negb_andb, if_negb. Qed.

Lemma enforcement_requirements_spec s strategy :
  match enforcement_capture_requirements (decision_policy s strategy) c with
  | None => forall r, r ∈ snap_rules s -> application_rule_network_and_uid_matches r c = false
  | Some req => forall r a, r ∈ snap_rules s ->
      application_rule_network_and_uid_matches r c = true ->
      application (spec r) = Some a -> stable_fast strategy r = false -> covers req a
  end.
Proof.
  unfold enforcement_capture_requirements.
  rewrite !(proj2 (policy_fields _ _)), (proj1 (policy_fields _ _)).
  pose proof (requirement_fold _ _ _ (enforcement_step_eq strategy) (snap_rules s)
    (IdentityCaptureRequirements_minimal, false)) as Hfold.
  destruct (foldl _ _ _) as [req []]; destruct Hfold as (_ & _ & Hall).
  - intros r a Hr Hn Ha Hst. by apply (Hall r a).
  - intros r Hr. apply not_true_iff_false. intros Hn.
    destruct (application (spec r)) as [a|] eqn:Ha; [by destruct (Hall r a)|].
    unfold application_rule_network_and_uid_matches in Hn. by rewrite Ha, andb_false_r in Hn.
Qed.

Lemma deny_requirements_spec s strategy :
  match deny_capture_requirements (decision_policy s strategy) c with
  | None => forall r, r ∈ snap_rules s -> is_deny r = true ->
      application_rule_network_and_uid_matches r c = false
  | Some req => forall r a, r ∈ snap_rules s -> is_deny r = true ->
      application_rule_network_and_uid_matches r c = true ->
      application (spec r) = Some a -> covers req a
  end.
Proof.
  unfold deny_capture_requirements. rewrite !(proj2 (policy_fields _ _)).
  pose proof (requirement_fold
    (fun r => is_deny r && application_rule_network_and_uid_matches r c) (fun _ => false)
    _ deny_step_eq (snap_rules s)
    (IdentityCaptureRequirements_minimal, false)) as Hfold.
  destruct (foldl _ _ _) as [req []]; destruct Hfold as (_ & _ & Hall).
  - intros r a Hr Hd Hn Ha. apply (Hall r a); [done| |done|done]. by rewrite Hd, Hn.
  - intros r Hr Hd. apply not_true_iff_false. intros Hn.
    destruct (application (spec r)) as [a|] eqn:Ha.
    + destruct (Hall r a); [done|by rewrite Hd, Hn|done|done].
    + unfold application_rule_network_and_uid_matches in Hn. by rewrite Ha, andb_false_r in Hn.
Qed.

(** A rule whose optional fields were captured, or that has none, matches both
    captures or neither. *)
Lemma alike_match req r i i' :
  captured_alike req i i' ->
  (forall a, application_rule_network_and_uid_matches r c = true ->
     application (spec r) = Some a -> covers req a) ->
  application_rule_matches r c i = application_rule_matches r c i'.
Proof.
  intros Hi Hr. unfold application_rule_matches.
  destruct (application_rule_network_and_uid_matches r c); [|done].
  destruct (application (spec r)) as [a|]; [|done]. simpl.
  apply (covered_match req); auto.
Qed.

Lemma alike_fast req r i i' :
  captured_alike req i i' ->
  fast_learned_accept_rule_matches r c i = fast_learned_accept_rule_matches r c i'.
Proof.
  intros [He Hf Hu _ _]. unfold fast_learned_accept_rule_matches. by rewrite He, Hf, Hu.
Qed.

Lemma filter_same {A} (p q : A -> bool) xs :
  (forall x, x ∈ xs -> p x = q x) -> List.filter p xs = List.filter q xs.
Proof.
  induction xs as [|x xs IH]; intros Hpq; [done|]. cbn [List.filter].
  rewrite (Hpq x) by left. rewrite IH; [done|]. intros y Hy. apply Hpq. by right.
Qed.
End Requirements.

(** ** Decisions as actions *)

Section Actions.
Context `{IpNetLib} (s : Snapshot) (strategy : EnforcementStrategy) (c : OutboundConnection).

Definition deny_match (i : ApplicationIdentity) : option Rule :=
  min_by_key policy_lt
    (List.filter (fun r => application_rule_matches r c i) (List.filter is_deny (snap_rules s))).

Lemma deny_match_eq i :
  deny_match i = match matching_application_rule s c i with
                 | Some r => if is_deny r then Some r else None
                 | None => None
                 end.
Proof.
  unfold deny_match, matching_application_rule. rewrite filter_comm.
  apply min_by_key_filter, deny_first.
Qed.

(** Some rule accepts, when no denial matches. *)
Definition accepted_by (i : ApplicationIdentity) (r : Rule) : bool :=
  application_rule_matches r c i
  || ((strategy ==? Fast) && fast_learned_accept_rule_matches r c i)
  || outbound_network_rule_matches r c.

Lemma min_by_key_existsb {A} (lt : A -> A -> bool) p (xs : list A) :
  is_some (min_by_key lt (List.filter p xs)) = existsb p xs.
Proof.
  induction xs as [|x xs IH] using rev_ind; [done|].
  rewrite List.filter_app, existsb_app, <-IH. cbn [List.filter existsb]. rewrite orb_false_r.
  destruct (p x); rewrite ?app_nil_r, ?min_by_key_app, ?orb_false_r, ?orb_true_r; [|done].
  by destruct (min_by_key lt _).
Qed.

Lemma existsb_orb {A} (p q : A -> bool) xs :
  existsb (fun x => p x || q x) xs = existsb p xs || existsb q xs.
Proof.
  induction xs as [|x xs IH]; [done|]. simpl. rewrite IH.
  by destruct (p x), (q x), (existsb p xs), (existsb q xs).
Qed.

Lemma scan_decided i : is_some (scan_decision s strategy c i) = existsb (accepted_by i) (snap_rules s).
Proof.
  unfold accepted_by. rewrite !existsb_orb.
  rewrite <-(min_by_key_existsb policy_lt (fun r => application_rule_matches r c i)).
  rewrite <-(min_by_key_existsb id_lt (fun r => outbound_network_rule_matches r c)).
  unfold scan_decision, matching_application_rule.
  destruct (min_by_key policy_lt _); [done|]. cbn [or_else is_some orb].
  destruct (strategy ==? Fast); cbn [or_else andb].
  - rewrite <-(min_by_key_existsb id_lt). by destruct (min_by_key id_lt _).
  - replace (existsb (fun _ => false) (snap_rules s)) with false; [done|].
    by induction (snap_rules s).
Qed.

Lemma scan_action i :
  (fun r => action (spec r)) <$> scan_decision s strategy c i =
  match deny_match i with
  | Some r => Some (action (spec r))
  | None => if existsb (accepted_by i) (snap_rules s) then Some Accept else None
  end.
Proof.
  rewrite deny_match_eq, <-scan_decided.
  destruct (matching_application_rule s c i) as [m|] eqn:Hm.
  - rewrite (scan_application s strategy c i m Hm). unfold is_deny. simpl.
    by destruct (action (spec m)) eqn:Ha; rewrite ?Ha.
  - destruct (scan_decision s strategy c i) as [r|] eqn:Hr; [|done]. simpl.
    pose proof (fallback_accepts s strategy c i r Hm Hr) as Hd. unfold is_deny in Hd.
    by destruct (action (spec r)).
Qed.
End Actions.

(** Learned accept rules name the user of the process they were learned from. *)
Definition learned_accepts_have_owner (s : Snapshot) : Prop :=
  forall r a, r ∈ snap_rules s -> origin (spec r) = Learned -> action (spec r) = Accept ->
  application (spec r) = Some a -> is_Some (as_uid a).

Section Captures.
Context `{IpNetLib} (s : Snapshot) (Hv : Snapshot_validate s = Ok tt).

Lemma selector_executable r a :
  r ∈ snap_rules s -> application (spec r) = Some a -> is_Some (as_executable a).
Proof.
  intros Hr Ha. apply Snapshot_validate_Ok in Hv as (_ & _ & Hall & _).
  rewrite Forall_forall in Hall. destruct (Hall r Hr) as (_ & Hrv & Hred & _).
  unfold Rule_validate, RuleSpec_validate in Hrv. rewrite !seq_Ok, Ha, map_err_Ok in Hrv.
  unfold reject_redacted_rule, reject_redacted_spec in Hred.
  rewrite Ha, fail_if_Ok in Hred. simpl in Hred.
  destruct Hrv as (_ & _ & _ & _ & _ & _ & _ & Hs).
  unfold ApplicationSelector_validate in Hs. rewrite Hred, seq_Ok, fail_if_Ok in Hs.
  destruct Hs as [Hs _]. by destruct (as_executable a).
Qed.

(** A learned accept rule that matches completely also matches by executable
    and user. *)
Lemma complete_match_fast r c i :
  learned_accepts_have_owner s -> r ∈ snap_rules s -> stable_fast Fast r = true ->
  application_rule_matches r c i = true -> fast_learned_accept_rule_matches r c i = true.
Proof.
  intros Hown Hr Hst Hm. unfold stable_fast in Hst. rewrite !andb_true_iff, !eqb_true in Hst.
  destruct Hst as [[_ Ho] Hac]. pose proof (application_match_network _ _ _ Hm) as Hn.
  unfold fast_learned_accept_rule_matches. rewrite Ho, Hac, Hn. simpl.
  unfold application_rule_matches in Hm. rewrite Hn in Hm. simpl in Hm.
  destruct (application (spec r)) as [a|] eqn:Ha; [|done]. simpl in *.
  destruct (selector_executable r a Hr Ha) as [e He]. destruct (Hown r a Hr Ho Hac Ha) as [u Hu].
  assert (Hen : enabled (spec r) = true).
  { unfold application_rule_network_and_uid_matches in Hn.
    apply andb_prop in Hn as [Hn _]. by apply network_match_enabled in Hn as [? _]. }
  destruct (enabled_pinned s r a Hv Hr Hen Ha) as [f Hf].
  unfold ApplicationSelector_matches in Hm. rewrite He, Hu, Hf in *. simpl in *.
  rewrite !andb_true_iff in *. tauto.
Qed.

Lemma alike_accepted req strategy c i i' :
  (strategy = Fast -> learned_accepts_have_owner s) ->
  (forall r a, r ∈ snap_rules s -> application_rule_network_and_uid_matches r c = true ->
     application (spec r) = Some a -> stable_fast strategy r = false -> covers req a) ->
  captured_alike req i i' ->
  existsb (accepted_by strategy c i) (snap_rules s) = true ->
  existsb (accepted_by strategy c i') (snap_rules s) = true.
Proof.
  intros Hown Hreq Hi. rewrite !existsb_exists. intros (r & Hr & Hacc). exists r. split; [done|].
  apply list_elem_of_In in Hr. unfold accepted_by in *. rewrite <-(alike_fast c req r i i' Hi).
  rewrite !orb_true_iff in *. destruct Hacc as [[Hm|Hf]|Hn]; [|tauto..].
  destruct (stable_fast strategy r) eqn:Hst.
  - assert (strategy = Fast) as ->.
    { unfold stable_fast in Hst. rewrite !andb_true_iff, eqb_true in Hst. tauto. }
    left; right. simpl. apply complete_match_fast; auto.
  - left; left. rewrite <-Hm. symmetry. apply (alike_match c req); [done|].
    intros a Hn Ha. by apply (Hreq r a).
Qed.
End Captures.

Section Claims.
Context `{IpNetLib}.

(** C33: The index of the packet path changes no decision: for every snapshot
    that validates, either strategy, any connection and any process identity,
    the lookup through [rules_by_executable] and [network_accept_rules] finds
    exactly the rule that scanning all rules finds: the first enabled matching
    application rule by action priority (drop, reject, accept) and id; in the
    fast strategy then the first learned accept of the same executable
    version; then the first network-only accept. *)
Theorem indexed_decision_is_the_scan s strategy c i :
  Snapshot_validate s = Ok tt ->
  matching_rule (decision_policy s strategy) c i = scan_decision s strategy c i.
Proof. apply matching_rule_scan. Qed.

(** Denials decide.  The deny-only lookup that learning uses returns
    exactly the decisions of the full lookup that are drops or rejects, and
    returns nothing only when no enabled drop or reject rule matches the
    connection and the identity; and a matching drop rule is never overruled:
    the decision is then a drop, whatever accept or reject rules match too. *)
Theorem denials_decide s strategy c i :
  Snapshot_validate s = Ok tt ->
  let policy := decision_policy s strategy in
  (forall r, matching_deny_rule policy c i = Some r <->
     matching_rule policy c i = Some r /\ is_deny r = true)
  /\ (matching_deny_rule policy c i = None <->
     forall r, r ∈ snap_rules s -> is_deny r = true -> application_rule_matches r c i = false)
  /\ (forall r, r ∈ snap_rules s -> action (spec r) = Drop ->
     application_rule_matches r c i = true ->
     exists r', matching_rule policy c i = Some r' /\ action (spec r') = Drop
       /\ rule_id r' <= rule_id r).
Proof.
  intros Hv policy. unfold policy. rewrite matching_rule_scan, matching_deny_scan by done.
  destruct (matching_application_rule s c i) as [m|] eqn:Hm.
  - rewrite (scan_application s strategy c i m Hm).
    destruct (application_match_least s c i m Hm) as [Hmm Hleast]. split_and!.
    + intros r. destruct (is_deny m) eqn:Hd;
        split; try (intros [= <-]); try (intros [[= <-] Hd']); auto; congruence.
    + destruct (is_deny m) eqn:Hd; split; try done.
      * intros Hall. apply min_by_key_elem, elem_of_filter_bool in Hm as [Hin _].
        rewrite Hall in Hmm; done.
      * intros _ r Hr Hrd. apply not_true_iff_false. intros Hmr.
        rewrite (least_deny r m) in Hd; [done|done|by apply Hleast].
    + intros r Hr Hdrop Hmr. exists m. split; [done|]. by apply least_drop; [|apply Hleast].
  - pose proof (application_match_None s c i Hm) as Hno. split_and!.
    + intros r. split; [done|]. intros [Hr Hd].
      by rewrite (fallback_accepts s strategy c i r Hm Hr) in Hd.
    + split; [|done]. intros _ r Hr _. by apply Hno.
    + intros r Hr _ Hmr. by rewrite Hno in Hmr.
Qed.

(** In learning, the process fields that are read are the ones the deny
    rules need: when no rule is selected no denial can match, whatever the
    process is, and otherwise two captures that agree on the executable, its
    version, the user and the requested fields get the same denial. *)
Theorem deny_requirements_suffice s strategy c :
  Snapshot_validate s = Ok tt ->
  let policy := decision_policy s strategy in
  match deny_capture_requirements policy c with
  | None => forall i, matching_deny_rule policy c i = None
  | Some req => forall i i', captured_alike req i i' ->
      matching_deny_rule policy c i = matching_deny_rule policy c i'
  end.
Proof.
  intros Hv policy. unfold policy. pose proof (deny_requirements_spec c s strategy) as Hreq.
  unfold matching_deny_rule.
  destruct (deny_capture_requirements _ c) as [req|].
  - intros i i' Hi. rewrite !candidates_spec, (alike_file _ _ _ Hi). f_equal. apply filter_same.
    intros r [Hr Hd]%elem_of_filter_bool. apply elem_of_filter_bool in Hr as [Hr _].
    apply (alike_match c req); [done|]. intros a Hn Ha. by apply (Hreq r a).
  - intros i. rewrite candidates_spec. apply min_by_key_None. destruct (List.filter _ _) as [|r l] eqn:E; [done|].
    assert (Hr : r ∈ r :: l) by left. rewrite <-E in Hr.
    apply elem_of_filter_bool in Hr as [[Hr Hd]%elem_of_filter_bool Hm].
    apply elem_of_filter_bool in Hr as [Hr _].
    apply application_match_network in Hm. by rewrite Hreq in Hm.
Qed.

(** While enforcing, reading only the required process fields decides as
    reading all of them: when no rule is selected the outcome is the
    network-only fallback, whatever the process is, and otherwise two captures
    that agree on the executable, its version, the user and the requested
    fields are accepted, dropped or rejected alike - in the strict strategy by
    the very same rule, and in the fast strategy provided the learned accept
    rules still name their user. *)
Theorem capture_requirements_suffice s strategy c :
  Snapshot_validate s = Ok tt ->
  (strategy = Fast -> learned_accepts_have_owner s) ->
  let policy := decision_policy s strategy in
  match enforcement_capture_requirements policy c with
  | None => forall i, matching_rule policy c i = matching_network_accept policy c
  | Some req => forall i i', captured_alike req i i' ->
      (fun r => action (spec r)) <$> matching_rule policy c i
      = (fun r => action (spec r)) <$> matching_rule policy c i'
      /\ (strategy = Strict -> matching_rule policy c i = matching_rule policy c i')
  end.
Proof.
  intros Hv Hown policy. unfold policy.
  pose proof (enforcement_requirements_spec c s strategy) as Hreq.
  destruct (enforcement_capture_requirements _ c) as [req|].
  - intros i i' Hi. rewrite !matching_rule_scan by done. split.
    + rewrite !scan_action. unfold deny_match.
      rewrite (filter_same (fun r => application_rule_matches r c i)
        (fun r => application_rule_matches r c i')).
      2: { intros r [Hr Hd]%elem_of_filter_bool. apply (alike_match c req); [done|].
           intros a Hn Ha. apply (Hreq r a); [done..|]. unfold stable_fast, is_deny in *.
           destruct (action (spec r)); by rewrite ?andb_false_r. }
      destruct (min_by_key _ _); [done|].
      enough (existsb (accepted_by strategy c i) (snap_rules s)
              = existsb (accepted_by strategy c i') (snap_rules s)) as -> by done.
      apply eq_iff_eq_true. split; eapply alike_accepted; eauto using captured_alike_sym.
    + intros ->. unfold scan_decision, matching_application_rule. f_equal. f_equal.
      f_equal. apply filter_same. intros r Hr. apply (alike_match c req); [done|].
      intros a Hn Ha. by apply (Hreq r a).
  - intros i. rewrite matching_rule_scan, network_accept_scan by done. unfold scan_decision.
    assert (Hno : forall p : Rule -> bool, (forall r, p r = true ->
      application_rule_network_and_uid_matches r c = true) ->
      List.filter p (snap_rules s) = []).
    { intros p Hp. destruct (List.filter p _) as [|r l] eqn:E; [done|].
      assert (Hr : r ∈ r :: l) by left. rewrite <-E in Hr.
      apply elem_of_filter_bool in Hr as [Hr Hpr]. apply Hp in Hpr. by rewrite Hreq in Hpr. }
    unfold matching_application_rule.
    rewrite (Hno (fun r => application_rule_matches r c i))
      by (intros r; apply application_match_network).
    rewrite (Hno (fun r => fast_learned_accept_rule_matches r c i))
      by (intros r; apply fast_match_network).
    by destruct (strategy ==? Fast).
Qed.
End Claims.

(** ** Witnesses *)

Definition sample_connection : OutboundConnection :=
  mkOutboundConnection (IpV4 3232235777) (Some 40000) (IpV4 134744072) (Some 443) Tcp
    (mkInterfaceName (lit "eth0")) 1000.

(** The learned rule of the sample process and a drop rule for the same
    executable. *)
Definition sample_learned_selector (uid : option Z) : ApplicationSelector :=
  mkApplicationSelector (Some (mkApplicationPath (lit "/usr/bin/curl"))) (Some sample_file)
    (Some (mkCommandLineSelector Exact (ai_command_line sample_identity))) uid None false.
Definition sample_learned_rule (uid : option Z) : Rule :=
  mkRule 5 (mkRuleSpec (mkRuleName (lit "learned")) Outbound Accept Tcp None
    (Some (mkPortRange 443 443)) None (Some (sample_learned_selector uid)) Learned true) 10 10.
Definition sample_drop_rule : Rule :=
  mkRule 6 (mkRuleSpec (mkRuleName (lit "drop")) Outbound Drop Tcp None None None
    (Some (mkApplicationSelector (Some (mkApplicationPath (lit "/usr/bin/curl")))
       (Some sample_file) None (Some 0) None false)) Manual true) 10 10.
Definition sample_decision_snapshot (uid : option Z) : Snapshot :=
  mkSnapshot 4 2 Enforcing [sample_learned_rule uid; sample_drop_rule].

Lemma indexed_decision_is_the_scan_witness :
  matching_rule (decision_policy (sample_decision_snapshot (Some 1000)) Strict)
    sample_connection sample_identity = Some (sample_learned_rule (Some 1000)).
Proof.
  rewrite (indexed_decision_is_the_scan (sample_decision_snapshot (Some 1000)));
    vm_compute; reflexivity.
Defined.

Lemma denials_decide_witness :
  matching_deny_rule (decision_policy (sample_decision_snapshot (Some 1000)) Strict)
    sample_connection sample_identity = None.
Proof.
  destruct (denials_decide (sample_decision_snapshot (Some 1000)) Strict sample_connection
    sample_identity) as (_ & Hn & _); [vm_compute; reflexivity|].
  apply Hn. intros r Hr. simpl in Hr. rewrite !elem_of_cons, elem_of_nil in Hr.
  destruct Hr as [->|[->|[]]]; vm_compute; congruence.
Defined.

Lemma deny_requirements_suffice_witness :
  matching_deny_rule (decision_policy (sample_decision_snapshot (Some 1000)) Strict)
    sample_connection sample_identity = None.
Proof.
  assert (Hv : Snapshot_validate (sample_decision_snapshot (Some 1000)) = Ok tt)
    by (vm_compute; reflexivity).
  pose proof (deny_requirements_suffice _ Strict sample_connection Hv) as Hd.
  cbv zeta in Hd.
  assert (Hn : deny_capture_requirements
    (decision_policy (sample_decision_snapshot (Some 1000)) Strict) sample_connection = None)
    by (vm_compute; reflexivity).
  rewrite Hn in Hd. apply Hd.
Defined.

(** The capture without command line and control groups. *)
Definition minimal_capture (i : ApplicationIdentity) : ApplicationIdentity :=
  mkApplicationIdentity (ai_pid i) (ai_process_start_time_ticks i) (ai_executable i)
    (ai_executable_file i) [] (ai_uid i) [].

Lemma capture_requirements_suffice_witness :
  (fun r => action (spec r)) <$>
    matching_rule (decision_policy (sample_decision_snapshot (Some 1000)) Fast)
      sample_connection (minimal_capture sample_identity) = Some Accept.
Proof.
  assert (Hv : Snapshot_validate (sample_decision_snapshot (Some 1000)) = Ok tt)
    by (vm_compute; reflexivity).
  assert (Hown : learned_accepts_have_owner (sample_decision_snapshot (Some 1000))).
  { intros r a Hr Ho Hac Ha. simpl in Hr. rewrite !elem_of_cons, elem_of_nil in Hr.
    destruct Hr as [->|[->|[]]]; simpl in Ha; injection Ha as <-; eauto. }
  pose proof (capture_requirements_suffice _ Fast sample_connection Hv (fun _ => Hown)) as Hc.
  cbv zeta in Hc.
  assert (Hn : enforcement_capture_requirements
    (decision_policy (sample_decision_snapshot (Some 1000)) Fast) sample_connection
    = Some IdentityCaptureRequirements_minimal) by (vm_compute; reflexivity).
  rewrite Hn in Hc. destruct (Hc (minimal_capture sample_identity) sample_identity) as [-> _].
  - by split.
  - vm_compute. reflexivity.
Defined.

(** The owner is needed: once the user of a learned rule is edited away, the
    fast strategy no longer asks for the command line that the rule still
    requires, and the process the rule describes is not accepted. *)
Lemma fast_ownerless_learned_rule_is_lost :
  let policy := decision_policy (sample_decision_snapshot None) Fast in
  Snapshot_validate (sample_decision_snapshot None) = Ok tt
  /\ enforcement_capture_requirements policy sample_connection
     = Some IdentityCaptureRequirements_minimal
  /\ matching_rule policy sample_connection sample_identity = Some (sample_learned_rule None)
  /\ matching_rule policy sample_connection (minimal_capture sample_identity) = None.
Proof. vm_compute. auto. Qed.
