(* ===== verification/Netlink.v ===== *)
(** * Netlink framing

    Messages and attributes of the NFQUEUE socket, as [nfqueue.rs] builds and
    parses them.  A byte is an integer below 256.  Indexing and slicing are
    written with their run-time checks: out of range is [Panic], so that a
    parser that never returns [Panic] never aborts the daemon. *)

From S2P Require Import Prelude Text.
Local Open Scope Z_scope.

(** ** Errors, slices and byte orders *)

(** [Panic] is a failed bounds check; [Malformed] an [anyhow] error with its
    message. *)
Inductive ParseError : Type :=
| Panic
| Malformed (message : string).

#[export] Instance ParseError_eq_dec : EqDecision ParseError.
Proof. solve_decision. Defined.

Abbreviation Bytes := (list Z) (only parsing).

(** [bytes[i]] and [&bytes[from..to]]. *)
Definition index (bytes : Bytes) (i : Z) : Result ParseError Z :=
  match bytes !! Z.to_nat i with Some b => Ok b | None => Err Panic end.
Definition slice (bytes : Bytes) (from to : Z) : Result ParseError Bytes :=
  if (from <=? to) && (to <=? zlen bytes)
  then Ok (take (Z.to_nat (to - from)) (drop (Z.to_nat from) bytes)) else Err Panic.

(** Big-endian ([to_be_bytes]) and target-endian ([to_ne_bytes]) integers. *)
Fixpoint be_bytes (width : nat) (v : Z) : Bytes :=
  match width with
  | O => []
  | S w => be_bytes w (v / 256) ++ [v mod 256]
  end.
Definition from_be_bytes (bytes : Bytes) : Z := foldl (fun a b => a * 256 + b) 0 bytes.

(** The byte order of the compilation target. *)
Class Target : Type := { big_endian : bool }.
Definition ne_bytes `{Target} (width : nat) (v : Z) : Bytes :=
  if big_endian then be_bytes width v else rev (be_bytes width v).
Definition from_ne_bytes `{Target} (bytes : Bytes) : Z :=
  from_be_bytes (if big_endian then bytes else rev bytes).
Definition x86_64 : Target := {| big_endian := false |}.

(** ** Constants *)

Abbreviation NFNL_SUBSYS_QUEUE := 3 (only parsing).
Abbreviation NFQNL_MSG_PACKET := 0 (only parsing).
Abbreviation NFQNL_MSG_VERDICT := 1 (only parsing).
Abbreviation NFQA_PACKET_HDR := 1 (only parsing).
Abbreviation NFQA_VERDICT_HDR := 2 (only parsing).
Abbreviation NFQA_MARK := 3 (only parsing).
Abbreviation NFQA_IFINDEX_OUTDEV := 6 (only parsing).
Abbreviation NFQA_PAYLOAD := 10 (only parsing).
Abbreviation NFQA_CAP_LEN := 13 (only parsing).
Abbreviation NFQA_SKB_INFO := 14 (only parsing).
Abbreviation NFQA_UID := 16 (only parsing).
Abbreviation NFQA_SKB_GSO := 2 (only parsing).
Abbreviation NF_DROP := 0 (only parsing).
Abbreviation NF_ACCEPT := 1 (only parsing).
Abbreviation NF_REPEAT := 4 (only parsing).
Abbreviation NLM_F_REQUEST := 1 (only parsing).
Abbreviation NETLINK_HEADER_BYTES := 16 (only parsing).
Abbreviation NFGENMSG_BYTES := 4 (only parsing).
Abbreviation ATTRIBUTE_HEADER_BYTES := 4 (only parsing).
Abbreviation PACKET_HEADER_BYTES := 7 (only parsing).
Abbreviation COPY_RANGE := 512 (only parsing).
Abbreviation NFNETLINK_FAMILY_UNSPEC := 0 (only parsing).

(** ** Building *)

Definition align4 (value : Z) : Result ParseError Z :=
  match usize_checked_add value 3 with
  | Some value => Ok (Z.ldiff value 3)
  | None => Err (Malformed "netlink alignment overflow")
  end.

Definition network_u32 (bytes : Bytes) : Result ParseError Z :=
  ensure (zlen bytes =? 4) (Malformed "network u32 attribute has an invalid size") ;;
  mret (from_be_bytes bytes).

Definition queue_message_type (operation : Z) : Z :=
  Z.lor (Z.shiftl NFNL_SUBSYS_QUEUE 8) operation.

Definition advance_netlink_sequence (sequence : Z) : Z :=
  let next := u32_wrapping_add sequence 1 in
  if next =? 0 then 1 else next.

(** ** Items *)

Record NetlinkMessage : Type := mkMessage {
  message_type : Z;
  sequence : Z;
  msg_payload : Bytes
}.
Record Attribute : Type := mkAttribute {
  kind : Z;
  attr_payload : Bytes
}.

(** [Iterator::next] over [bytes] at [offset]: the item, if any, and the new
    offset. *)
Abbreviation Next A := (option (Result ParseError A) * Z)%type (only parsing).

Section Building.
Context `{Target}.

(** The buffer after appending one attribute to it. *)
Definition append_attribute (message : Bytes) (kind : Z) (payload : Bytes)
    : Result ParseError Bytes :=
  length ← ok_or (Malformed "netlink attribute size overflow")
             (usize_checked_add ATTRIBUTE_HEADER_BYTES (zlen payload));
  ensure (length <=? U16_MAX) (Malformed "netlink attribute is oversized") ;;
  let message := message ++ ne_bytes 2 length ++ ne_bytes 2 kind ++ payload in
  aligned ← align4 length;
  padded ← ok_or (Malformed "netlink padding overflow")
             (usize_checked_add (zlen message) (aligned - length));
  mret (message ++ replicate (Z.to_nat (padded - zlen message)) 0).

Fixpoint append_attributes (message : Bytes) (attributes : list (Z * Bytes))
    : Result ParseError Bytes :=
  match attributes with
  | [] => Ok message
  | (kind, value) :: rest =>
      message ← append_attribute message kind value; append_attributes message rest
  end.

Definition build_message (message_type flags sequence family resource_id : Z)
    (attributes : list (Z * Bytes)) : Result ParseError Bytes :=
  payload ← append_attributes ([family; 0] ++ be_bytes 2 resource_id) attributes;
  length ← ok_or (Malformed "netlink message size overflow")
             (usize_checked_add NETLINK_HEADER_BYTES (zlen payload));
  ensure (length <=? U32_MAX) (Malformed "netlink message is oversized") ;;
  mret (ne_bytes 4 length ++ ne_bytes 2 message_type ++ ne_bytes 2 flags
        ++ ne_bytes 4 sequence ++ ne_bytes 4 0 ++ payload).

Definition build_verdict_message (sequence queue_number packet_id verdict : Z)
    (mark : option Z) : Result ParseError Bytes :=
  let verdict_header := be_bytes 4 verdict ++ be_bytes 4 packet_id in
  build_message (queue_message_type NFQNL_MSG_VERDICT) NLM_F_REQUEST sequence
    NFNETLINK_FAMILY_UNSPEC queue_number
    ((NFQA_VERDICT_HDR, verdict_header)
     :: match mark with Some mark => [(NFQA_MARK, be_bytes 4 mark)] | None => [] end).

(** ** Iterating *)

(** Both iterators step to the next aligned item; the last one may end without
    its padding. *)
Definition aligned_step (length remaining : Z) : option Z :=
  match align4 length with
  | Ok aligned =>
      if aligned <=? remaining then Some aligned
      else if length =? remaining then Some length else None
  | Err _ => None
  end.

Definition NetlinkMessages_next (bytes : Bytes) (offset : Z) : Next NetlinkMessage :=
  let stop (message : string) := (Some (Err (Malformed message)), zlen bytes) in
  if offset =? zlen bytes then (None, offset)
  else if zlen bytes <? offset then
    (Some (Err (Malformed "netlink offset is outside the datagram")), offset)
  else
    let remaining := drop (Z.to_nat offset) bytes in
    if zlen remaining <? NETLINK_HEADER_BYTES then stop "netlink header is truncated"
    else
      let length := from_ne_bytes (take 4 remaining) in
      if negb ((NETLINK_HEADER_BYTES <=? length) && (length <=? zlen remaining)) then
        stop "netlink message length is invalid"
      else
        match aligned_step length (zlen remaining) with
        | None => stop "netlink message alignment is invalid"
        | Some aligned =>
            (Some (
               b4 ← index remaining 4; b5 ← index remaining 5;
               b8 ← index remaining 8; b9 ← index remaining 9;
               b10 ← index remaining 10; b11 ← index remaining 11;
               payload ← slice remaining NETLINK_HEADER_BYTES length;
               mret (mkMessage (from_ne_bytes [b4; b5]) (from_ne_bytes [b8; b9; b10; b11])
                       payload)),
             offset + aligned)
        end.

Definition Attributes_next (bytes : Bytes) (offset : Z) : Next Attribute :=
  let stop error := (Some (Err error), zlen bytes) in
  if offset =? zlen bytes then (None, offset)
  else if zlen bytes <? offset then
    (Some (Err (Malformed "attribute offset is invalid")), offset)
  else
    let remaining := drop (Z.to_nat offset) bytes in
    if zlen remaining <? ATTRIBUTE_HEADER_BYTES then
      stop (Malformed "netlink attribute header is truncated")
    else
      match b0 ← index remaining 0; b1 ← index remaining 1;
            b2 ← index remaining 2; b3 ← index remaining 3;
            mret (from_ne_bytes [b0; b1], Z.land (from_ne_bytes [b2; b3]) 0x3fff) with
      | Err e => stop e
      | Ok (length, kind) =>
          if (length <? ATTRIBUTE_HEADER_BYTES) || (zlen remaining <? length) then
            stop (Malformed "netlink attribute length is invalid")
          else
            match aligned_step length (zlen remaining) with
            | None => stop (Malformed "netlink attribute alignment is invalid")
            | Some aligned =>
                (Some (payload ← slice remaining ATTRIBUTE_HEADER_BYTES length;
                       mret (mkAttribute kind payload)), offset + aligned)
            end
      end.

(** All items of an iterator.  Every step advances the offset, so the number of
    bytes bounds the number of steps. *)
Fixpoint collect {A} (next : Z -> Next A) (fuel : nat) (offset : Z)
    : list (Result ParseError A) :=
  match fuel with
  | O => []
  | S fuel =>
      match next offset with
      | (None, _) => []
      | (Some item, offset) => item :: collect next fuel offset
      end
  end.

Definition messages (bytes : Bytes) : list (Result ParseError NetlinkMessage) :=
  collect (NetlinkMessages_next bytes) (S (length bytes)) 0.
Definition attributes (bytes : Bytes) : list (Result ParseError Attribute) :=
  collect (Attributes_next bytes) (S (length bytes)) 0.
End Building.

(** ** Facts about bytes *)

Definition is_byte (b : Z) : Prop := 0 <= b < 256.

Lemma be_bytes_length w : forall v, length (be_bytes w v) = w.
Proof. induction w as [|w IH]; intros v; [done|]. simpl. rewrite length_app, IH. simpl. lia. Qed.

Lemma from_be_bytes_snoc bs b : from_be_bytes (bs ++ [b]) = from_be_bytes bs * 256 + b.
Proof. unfold from_be_bytes. by rewrite foldl_app. Qed.

Lemma from_be_bytes_be w : forall v, from_be_bytes (be_bytes w v) = v mod 256 ^ Z.of_nat w.
Proof.
  induction w as [|w IH]; intros v; [by rewrite Z.mod_1_r|].
  cbn [be_bytes]. rewrite from_be_bytes_snoc, IH, Nat2Z.inj_succ, Z.pow_succ_r by lia.
  rewrite Z.mul_comm, Z.rem_mul_r by lia. lia.
Qed.

Lemma from_be_bytes_bound bs :
  Forall is_byte bs -> 0 <= from_be_bytes bs < 256 ^ zlen bs.
Proof.
  induction bs as [|b bs IH] using rev_ind; [done|].
  rewrite Forall_app, Forall_singleton, from_be_bytes_snoc, zlen_app. intros [Hbs Hb].
  specialize (IH Hbs). change (zlen [b]) with 1. unfold is_byte in Hb.
  pose proof (zlen_nonneg bs). rewrite Z.pow_add_r by lia. lia.
Qed.

Section ByteOrder.
Context `{Target}.

Lemma ne_bytes_length w v : length (ne_bytes w v) = w.
Proof. unfold ne_bytes. destruct big_endian; rewrite ?length_rev; apply be_bytes_length. Qed.

Lemma from_ne_bytes_ne w v : from_ne_bytes (ne_bytes w v) = v mod 256 ^ Z.of_nat w.
Proof.
  unfold from_ne_bytes, ne_bytes. destruct big_endian; rewrite ?rev_involutive;
    apply from_be_bytes_be.
Qed.

Lemma from_ne_bytes_bound bs :
  Forall is_byte bs -> 0 <= from_ne_bytes bs < 256 ^ zlen bs.
Proof.
  intros Hbs. unfold from_ne_bytes. destruct big_endian; [by apply from_be_bytes_bound|].
  replace (zlen bs) with (zlen (rev bs)) by (unfold zlen; by rewrite length_rev).
  apply from_be_bytes_bound. by apply Forall_rev.
Qed.
End ByteOrder.

Lemma index_Ok bytes i : 0 <= i < zlen bytes -> exists b, index bytes i = Ok b.
Proof.
  intros Hi. unfold index, zlen in *.
  destruct (lookup_lt_is_Some_2 bytes (Z.to_nat i)) as [b ->]; [lia|eauto].
Qed.

Lemma slice_Ok bytes from to :
  0 <= from <= to -> to <= zlen bytes ->
  exists pre mid post, slice bytes from to = Ok mid /\ bytes = pre ++ mid ++ post
    /\ zlen pre = from /\ zlen mid = to - from.
Proof.
  intros Hf Ht. exists (take (Z.to_nat from) bytes),
    (take (Z.to_nat (to - from)) (drop (Z.to_nat from) bytes)),
    (drop (Z.to_nat (to - from)) (drop (Z.to_nat from) bytes)).
  unfold slice, zlen in *. rewrite (proj2 (Z.leb_le from to)), (proj2 (Z.leb_le to _)) by lia.
  rewrite !take_drop, !length_take, length_drop. split_and!; [done|done|lia|lia].
Qed.

Lemma align4_spec n : 0 <= n -> n + 3 <= U64_MAX ->
  align4 n = Ok (n + (- n) mod 4).
Proof.
  intros Hn Hm. unfold align4, usize_checked_add.
  destruct (u64_checked_add n 3) as [v|] eqn:E.
  - apply u64_checked_add_Some in E as [-> _]. f_equal. change 3 with (Z.ones 2) at 2.
    rewrite Z.ldiff_ones_r, Z.shiftl_mul_pow2, Z.shiftr_div_pow2 by lia.
    change (2 ^ 2) with 4. pose proof (Z.div_mod (n + 3) 4). pose proof (Z.div_mod (- n) 4).
    pose proof (Z.mod_pos_bound (n + 3) 4). pose proof (Z.mod_pos_bound (- n) 4). lia.
  - unfold u64_checked_add in E. case_decide; [done|lia].
Qed.

(** ** Iteration is safe and finite *)

(** One call of [next] on [bytes]: at the end it stops, and before it the
    offset advances within the datagram; an item never is a failed bounds
    check, an error ends the iteration, and the payload of an item is a piece
    of [bytes] after the current offset. *)
Definition well_behaved {A} (bytes : Bytes) (payload : A -> Bytes) (next : Z -> Next A) : Prop :=
  next (zlen bytes) = (None, zlen bytes) /\
  forall offset, 0 <= offset < zlen bytes ->
  exists item offset', next offset = (Some item, offset')
    /\ offset < offset' <= zlen bytes
    /\ match item with
       | Err e => e <> Panic /\ offset' = zlen bytes
       | Ok a => exists pre post, bytes = pre ++ payload a ++ post
           /\ offset <= zlen pre /\ zlen pre + zlen (payload a) <= offset'
       end.

Lemma aligned_step_bounds n r a :
  0 <= n <= r -> aligned_step n r = Some a -> n <= a <= r.
Proof.
  intros Hn. unfold aligned_step.
  destruct (align4 n) as [v|] eqn:E; [|done].
  assert (n <= v).
  { unfold align4, usize_checked_add in E. destruct (u64_checked_add n 3) eqn:Ea; [|done].
    apply u64_checked_add_Some in Ea as [-> Ha].
    pose proof (align4_spec n ltac:(lia) ltac:(lia)) as Hs.
    unfold align4, usize_checked_add in Hs. rewrite (proj2 (u64_checked_add_Some n 3 _)) in Hs by done.
    pose proof (Z.mod_pos_bound (- n) 4). simplify_eq. lia. }
  destruct (Z.leb_spec v r); [intros [= <-]; lia|].
  destruct (Z.eqb_spec n r); [intros [= <-]; lia|done].
Qed.

Lemma drop_split (bytes pre mid post : Bytes) offset :
  0 <= offset <= zlen bytes -> drop (Z.to_nat offset) bytes = pre ++ mid ++ post ->
  bytes = (take (Z.to_nat offset) bytes ++ pre) ++ mid ++ post
  /\ zlen (take (Z.to_nat offset) bytes ++ pre) = offset + zlen pre.
Proof.
  intros Ho Hd. split.
  - by rewrite <-app_assoc, <-Hd, take_drop.
  - rewrite zlen_app. unfold zlen in *. rewrite length_take. lia.
Qed.

Lemma zlen_drop (bytes : Bytes) offset :
  0 <= offset <= zlen bytes -> zlen (drop (Z.to_nat offset) bytes) = zlen bytes - offset.
Proof. unfold zlen. rewrite length_drop. lia. Qed.

Section Iterators.
Context `{Target} (bytes : Bytes).

Lemma Messages_well_behaved :
  well_behaved bytes msg_payload (NetlinkMessages_next bytes).
Proof.
  split; [unfold NetlinkMessages_next; by rewrite Z.eqb_refl|].
  intros o Ho. unfold NetlinkMessages_next.
  rewrite (proj2 (Z.eqb_neq o _)), (proj2 (Z.ltb_ge _ o)) by lia.
  set (rest := drop (Z.to_nat o) bytes).
  assert (Hrest : zlen rest = zlen bytes - o) by (apply zlen_drop; lia).
  destruct (Z.ltb_spec (zlen rest) NETLINK_HEADER_BYTES) as [|Hh];
    [eexists _, _; split; [done|]; split; [lia|done]|].
  set (n := from_ne_bytes (take 4 rest)).
  destruct (Z.leb_spec 16 n), (Z.leb_spec n (zlen rest)); cbn [andb negb];
    try (eexists _, _; split; [done|]; split; [lia|done]).
  destruct (aligned_step n (zlen rest)) as [a|] eqn:Ea;
    [|eexists _, _; split; [done|]; split; [lia|done]].
  apply aligned_step_bounds in Ea; [|lia].
  eexists _, _; split; [done|]. split; [lia|].
  do 6 match goal with
  | |- context [index rest ?k] =>
      let b := fresh "b" in destruct (index_Ok rest k ltac:(lia)) as [b ->];
      cbn [mbind Result_bind]
  end.
  destruct (slice_Ok rest 16 n) as (pre & mid & post & -> & Hsplit & Hpre & Hmid); [lia..|].
  cbn [mbind Result_bind mret Result_ret msg_payload].
  destruct (drop_split bytes pre mid post o) as [Hb Hl]; [lia|done|].
  eexists _, _; split; [exact Hb|]. lia.
Qed.

Lemma Attributes_well_behaved :
  well_behaved bytes attr_payload (Attributes_next bytes).
Proof.
  split; [unfold Attributes_next; by rewrite Z.eqb_refl|].
  intros o Ho. unfold Attributes_next.
  rewrite (proj2 (Z.eqb_neq o _)), (proj2 (Z.ltb_ge _ o)) by lia.
  set (rest := drop (Z.to_nat o) bytes).
  assert (Hrest : zlen rest = zlen bytes - o) by (apply zlen_drop; lia).
  destruct (Z.ltb_spec (zlen rest) ATTRIBUTE_HEADER_BYTES) as [|Hh];
    [eexists _, _; split; [done|]; split; [lia|done]|].
  do 4 match goal with
  | |- context [index rest ?k] =>
      let b := fresh "b" in destruct (index_Ok rest k ltac:(lia)) as [b ->];
      cbn [mbind Result_bind]
  end.
  cbn [mret Result_ret]. set (n := from_ne_bytes _).
  destruct (Z.ltb_spec n 4), (Z.ltb_spec (zlen rest) n); cbn [orb];
    try (eexists _, _; split; [done|]; split; [lia|done]).
  destruct (aligned_step n (zlen rest)) as [a|] eqn:Ea;
    [|eexists _, _; split; [done|]; split; [lia|done]].
  apply aligned_step_bounds in Ea; [|lia].
  eexists _, _; split; [done|]. split; [lia|].
  destruct (slice_Ok rest 4 n) as (pre & mid & post & -> & Hsplit & Hpre & Hmid); [lia..|].
  cbn [mbind Result_bind mret Result_ret attr_payload].
  destruct (drop_split bytes pre mid post o) as [Hb Hl]; [lia|done|].
  eexists _, _; split; [exact Hb|]. lia.
Qed.
End Iterators.

Section Collect.
Context {A : Type} (bytes : Bytes) (payload : A -> Bytes) (next : Z -> Next A)
  (Hnext : well_behaved bytes payload next).

(** More fuel than there are bytes left changes nothing. *)
Lemma collect_fuel fuel : forall fuel' offset,
  0 <= offset <= zlen bytes -> zlen bytes - offset < Z.of_nat fuel ->
  zlen bytes - offset < Z.of_nat fuel' ->
  collect next fuel offset = collect next fuel' offset.
Proof.
  destruct Hnext as [Hend Hstep]. induction fuel as [|fuel IH]; intros [|fuel'] o Ho Hf Hf'; [lia..|].
  cbn [collect]. destruct (decide (o = zlen bytes)) as [->|Hne]; [by rewrite Hend|].
  destruct (Hstep o ltac:(lia)) as (item & o' & -> & Ho' & _). f_equal. apply IH; lia.
Qed.

Definition item_ok (item : Result ParseError A) : Prop :=
  match item with
  | Err e => e <> Panic
  | Ok a => exists pre post, bytes = pre ++ payload a ++ post
  end.

Lemma collect_items fuel : forall offset,
  0 <= offset <= zlen bytes -> Forall item_ok (collect next fuel offset).
Proof.
  destruct Hnext as [Hend Hstep]. induction fuel as [|fuel IH]; intros o Ho; [constructor|].
  cbn [collect]. destruct (decide (o = zlen bytes)) as [->|Hne]; [rewrite Hend; constructor|].
  destruct (Hstep o ltac:(lia)) as (item & o' & -> & Ho' & Hi). constructor; [|apply IH; lia].
  destruct item as [a|e]; simpl; [|tauto]. destruct Hi as (pre & post & Hb & _). eauto.
Qed.

(** After an error there is nothing more. *)
Lemma collect_error_last fuel : forall offset before e after,
  0 <= offset <= zlen bytes -> collect next fuel offset = before ++ Err e :: after -> after = [].
Proof.
  destruct Hnext as [Hend Hstep].
  induction fuel as [|fuel IH]; intros o before e after Ho; [by destruct before|].
  cbn [collect]. destruct (decide (o = zlen bytes)) as [->|Hne];
    [rewrite Hend; by destruct before|].
  destruct (Hstep o ltac:(lia)) as (item & o' & -> & Ho' & Hi).
  destruct before as [|x before]; intros [= -> Hrest]; [|eapply IH; [|done]; lia].
  destruct Hi as [_ ->]. destruct fuel; cbn [collect] in Hrest; [done|].
  by rewrite Hend in Hrest.
Qed.
End Collect.

(** ** What is built is parsed back *)

Section RoundTrip.
Context `{Target}.

(** One attribute on the wire: length, kind, payload, padding. *)
Definition attribute_bytes (kind : Z) (payload : Bytes) : Bytes :=
  ne_bytes 2 (4 + zlen payload) ++ ne_bytes 2 kind ++ payload
  ++ replicate (Z.to_nat ((- (4 + zlen payload)) mod 4)) 0.

Lemma append_attribute_Ok message kind payload message' :
  append_attribute message kind payload = Ok message' ->
  message' = message ++ attribute_bytes kind payload /\ 4 + zlen payload <= U16_MAX.
Proof.
  unfold append_attribute. intros Hok.
  apply bind_Ok_inv in Hok as (n & Hn & Hok). apply ok_or_Ok, u64_checked_add_Some in Hn as [-> Hn].
  pose proof (zlen_nonneg payload).
  apply seq_Ok in Hok as [Hlen Hok]. apply ensure_Ok, Z.leb_le in Hlen.
  rewrite align4_spec in Hok by (unfold U16_MAX, U64_MAX in *; lia).
  cbn [mbind Result_bind] in Hok.
  apply bind_Ok_inv in Hok as (p & Hp & Hok). apply ok_or_Ok, u64_checked_add_Some in Hp as [-> _].
  injection Hok as <-. split; [|done]. unfold attribute_bytes. rewrite <-!app_assoc.
  do 4 f_equal. f_equal. lia.
Qed.

Lemma append_attributes_Ok attrs : forall message message',
  append_attributes message attrs = Ok message' ->
  message' = message ++ concat ((fun a => attribute_bytes a.1 a.2) <$> attrs)
  /\ Forall (fun a => 4 + zlen a.2 <= U16_MAX) attrs.
Proof.
  induction attrs as [|[k v] attrs IH]; intros m m'; cbn [append_attributes].
  - intros [= ->]. by rewrite app_nil_r.
  - intros Hm. apply bind_Ok_inv in Hm as (m1 & [-> Hl]%append_attribute_Ok & Hm).
    apply IH in Hm as [-> Hall]. split; [by rewrite <-app_assoc|by constructor].
Qed.

Lemma zlen_ne_bytes w v : zlen (ne_bytes w v) = Z.of_nat w.
Proof. unfold zlen. by rewrite ne_bytes_length. Qed.

Lemma zlen_replicate {A} n (x : A) : 0 <= n -> zlen (replicate (Z.to_nat n) x) = n.
Proof. intros. unfold zlen. rewrite length_replicate. lia. Qed.

Lemma attribute_bytes_length kind payload :
  zlen (attribute_bytes kind payload)
  = 4 + zlen payload + (- (4 + zlen payload)) mod 4.
Proof.
  unfold attribute_bytes. pose proof (Z.mod_pos_bound (- (4 + zlen payload)) 4 ltac:(lia)).
  rewrite !zlen_app, !zlen_ne_bytes, zlen_replicate by lia. lia.
Qed.

Lemma two_bytes v : 0 <= v <= U16_MAX -> exists x y, ne_bytes 2 v = [x; y] /\ from_ne_bytes [x; y] = v.
Proof.
  intros Hv. pose proof (ne_bytes_length 2 v) as Hl. pose proof (from_ne_bytes_ne 2 v) as Hf.
  destruct (ne_bytes 2 v) as [|x [|y [|]]]; try done. exists x, y. split; [done|].
  rewrite Hf. apply Z.mod_small. unfold U16_MAX in Hv. lia.
Qed.

Lemma slice_middle (pre mid post : Bytes) :
  slice (pre ++ mid ++ post) (zlen pre) (zlen pre + zlen mid) = Ok mid.
Proof.
  unfold slice. rewrite !zlen_app. pose proof (zlen_nonneg mid). pose proof (zlen_nonneg post).
  rewrite (proj2 (Z.leb_le _ (zlen pre + zlen mid))), (proj2 (Z.leb_le (zlen pre + zlen mid) _)) by lia.
  cbn [andb]. f_equal. unfold zlen. rewrite Nat2Z.id, drop_app_length.
  replace (Z.to_nat _) with (length mid) by lia. by rewrite take_app_length.
Qed.

Lemma aligned_step_fits n r :
  0 <= n -> n + 3 <= U64_MAX -> n + (- n) mod 4 <= r ->
  aligned_step n r = Some (n + (- n) mod 4).
Proof.
  intros Hn Hm Hr. unfold aligned_step. rewrite align4_spec by done.
  by rewrite (proj2 (Z.leb_le _ r)).
Qed.

Lemma Attributes_next_bytes pre kind payload post :
  0 <= kind < 0x4000 -> 4 + zlen payload <= U16_MAX ->
  Attributes_next (pre ++ attribute_bytes kind payload ++ post) (zlen pre)
  = (Some (Ok (mkAttribute kind payload)), zlen pre + zlen (attribute_bytes kind payload)).
Proof.
  intros Hk Hp. pose proof (zlen_nonneg payload). pose proof (zlen_nonneg post).
  pose proof (attribute_bytes_length kind payload) as Hal.
  pose proof (Z.mod_pos_bound (- (4 + zlen payload)) 4 ltac:(lia)) as Hmod.
  unfold Attributes_next. rewrite !zlen_app.
  rewrite (proj2 (Z.eqb_neq (zlen pre) _)), (proj2 (Z.ltb_ge _ (zlen pre))) by lia.
  replace (drop (Z.to_nat (zlen pre)) (pre ++ attribute_bytes kind payload ++ post))
    with (attribute_bytes kind payload ++ post) by (unfold zlen; by rewrite Nat2Z.id, drop_app_length).
  rewrite zlen_app, (proj2 (Z.ltb_ge _ ATTRIBUTE_HEADER_BYTES)) by lia.
  rewrite Hal. unfold attribute_bytes. unfold U16_MAX in Hp.
  destruct (two_bytes (4 + zlen payload)) as (x & y & -> & Hxy); [unfold U16_MAX; lia|].
  destruct (two_bytes kind) as (z & w & -> & Hzw); [unfold U16_MAX; lia|].
  cbn [app]. set (rest := payload ++ _).
  change (index (x :: y :: z :: w :: rest ++ post) 0) with (@Ok ParseError Z x).
  change (index (x :: y :: z :: w :: rest ++ post) 1) with (@Ok ParseError Z y).
  change (index (x :: y :: z :: w :: rest ++ post) 2) with (@Ok ParseError Z z).
  change (index (x :: y :: z :: w :: rest ++ post) 3) with (@Ok ParseError Z w).
  cbn [mbind Result_bind mret Result_ret]. unfold rest.
  rewrite Hxy, Hzw. change 0x3fff with (Z.ones 14). rewrite Z.land_ones by lia.
  rewrite (Z.mod_small kind) by (change (2 ^ 14) with 0x4000; lia).
  rewrite (proj2 (Z.ltb_ge (4 + zlen payload) 4)), (proj2 (Z.ltb_ge _ (4 + zlen payload))) by lia.
  cbn [orb]. rewrite aligned_step_fits by (unfold U64_MAX; lia).
  rewrite <-app_assoc.
  pose proof (slice_middle [x; y; z; w] payload
    (replicate (Z.to_nat ((- (4 + zlen payload)) mod 4)) 0 ++ post)) as Hs.
  change (zlen [x; y; z; w]) with 4 in Hs. cbn [app] in Hs. rewrite Hs. done.
Qed.

Lemma collect_attributes attrs : forall pre fuel,
  Forall (fun a => 0 <= a.1 < 0x4000 /\ 4 + zlen a.2 <= U16_MAX) attrs ->
  (length attrs < fuel)%nat ->
  collect (Attributes_next (pre ++ concat ((fun a => attribute_bytes a.1 a.2) <$> attrs)))
    fuel (zlen pre) = (fun a => Ok (mkAttribute a.1 a.2)) <$> attrs.
Proof.
  induction attrs as [|[k v] attrs IH]; intros pre [|fuel] Hall Hf; simpl in Hf; try lia.
  - cbn [collect]. rewrite app_nil_r. by rewrite (proj1 (Attributes_well_behaved pre)).
  - apply Forall_cons in Hall as [[Hk Hv] Hall]. rewrite !fmap_cons. cbn [concat collect fst snd].
    rewrite Attributes_next_bytes by done. f_equal.
    rewrite app_assoc, <-zlen_app. apply IH; [done|lia].
Qed.
End RoundTrip.

Section Claims.
Context `{Target}.

Lemma four_bytes v :
  0 <= v <= U32_MAX -> exists a b c d, ne_bytes 4 v = [a; b; c; d] /\ from_ne_bytes [a; b; c; d] = v.
Proof.
  intros Hv. pose proof (ne_bytes_length 4 v) as Hl. pose proof (from_ne_bytes_ne 4 v) as Hf.
  destruct (ne_bytes 4 v) as [|a [|b [|c [|d [|]]]]]; try done. exists a, b, c, d.
  split; [done|]. rewrite Hf. apply Z.mod_small. unfold U32_MAX in Hv. lia.
Qed.

(** The header of [build_message] is read back, and the message ends with the
    buffer. *)
Lemma messages_single t f s payload :
  0 <= t <= U16_MAX -> 0 <= s <= U32_MAX -> 16 + zlen payload <= U32_MAX ->
  messages (ne_bytes 4 (16 + zlen payload) ++ ne_bytes 2 t ++ ne_bytes 2 f ++ ne_bytes 4 s
            ++ ne_bytes 4 0 ++ payload) = [Ok (mkMessage t s payload)].
Proof.
  intros Ht Hs Hp. pose proof (zlen_nonneg payload) as Hn. set (bytes := _ ++ _).
  assert (Hlen : zlen bytes = 16 + zlen payload).
  { unfold bytes. rewrite !zlen_app, !zlen_ne_bytes. lia. }
  enough (Hnext : NetlinkMessages_next bytes 0
    = (Some (Ok (mkMessage t s payload)), zlen bytes)).
  { unfold messages. cbn [collect]. rewrite Hnext. f_equal.
    destruct (length bytes) as [|n]; [done|]. cbn [collect].
    by rewrite (proj1 (Messages_well_behaved bytes)). }
  unfold NetlinkMessages_next. rewrite Hlen.
  rewrite (proj2 (Z.eqb_neq 0 _)), (proj2 (Z.ltb_ge _ 0)) by lia.
  change (Z.to_nat 0) with O. rewrite drop_0, Hlen.
  rewrite (proj2 (Z.ltb_ge _ NETLINK_HEADER_BYTES)) by lia.
  unfold bytes. clear Hlen bytes.
  destruct (four_bytes (16 + zlen payload)) as (l0 & l1 & l2 & l3 & -> & Hl); [lia|].
  destruct (two_bytes t) as (t0 & t1 & -> & Hty); [lia|].
  destruct (four_bytes s) as (s0 & s1 & s2 & s3 & -> & Hsq); [lia|].
  destruct (four_bytes 0) as (z0 & z1 & z2 & z3 & -> & _); [unfold U32_MAX; lia|].
  pose proof (ne_bytes_length 2 f) as Hf.
  destruct (ne_bytes 2 f) as [|f0 [|f1 [|]]]; try done. clear Hf. cbn [app take].
  rewrite Hl.
  rewrite (proj2 (Z.leb_le 16 _)), (proj2 (Z.leb_le (16 + _) _)) by lia. cbn [andb negb].
  set (bytes := l0 :: _).
  destruct (aligned_step (16 + zlen payload) (16 + zlen payload)) as [a|] eqn:Ea.
  2: { unfold aligned_step in Ea. rewrite align4_spec, Z.eqb_refl in Ea
         by (unfold U32_MAX, U64_MAX in *; lia). by case_match. }
  apply aligned_step_bounds in Ea; [|lia]. replace a with (16 + zlen payload) by lia.
  change (index bytes 4) with (@Ok ParseError Z t0).
  change (index bytes 5) with (@Ok ParseError Z t1).
  change (index bytes 8) with (@Ok ParseError Z s0).
  change (index bytes 9) with (@Ok ParseError Z s1).
  change (index bytes 10) with (@Ok ParseError Z s2).
  change (index bytes 11) with (@Ok ParseError Z s3).
  cbn [mbind Result_bind]. rewrite Hty, Hsq.
  pose proof (slice_middle [l0; l1; l2; l3; t0; t1; f0; f1; s0; s1; s2; s3; z0; z1; z2; z3]
    payload []) as Hsl. rewrite app_nil_r in Hsl.
  change (zlen [l0; l1; l2; l3; t0; t1; f0; f1; s0; s1; s2; s3; z0; z1; z2; z3]) with 16 in Hsl.
  change (_ ++ payload) with bytes in Hsl. by rewrite Hsl.
Qed.

Lemma skip_header (a b c d : Z) (body : Bytes) :
  drop (Z.to_nat NFGENMSG_BYTES) (([a; b] ++ [c; d]) ++ body) = body.
Proof. reflexivity. Qed.

Lemma attributes_concat attrs :
  Forall (fun a => 0 <= a.1 < 0x4000 /\ 4 + zlen a.2 <= U16_MAX) attrs ->
  attributes (concat ((fun a => attribute_bytes a.1 a.2) <$> attrs))
  = (fun a => Ok (mkAttribute a.1 a.2)) <$> attrs.
Proof.
  intros Hall. unfold attributes. set (body := concat _).
  pose proof (collect_attributes attrs [] (S (length body)) Hall) as Hc.
  rewrite app_nil_l in Hc. fold body in Hc. change (zlen (A := Z) []) with 0 in Hc. apply Hc.
  unfold body. clear. induction attrs as [|[k v] attrs IH]; [simpl; lia|].
  rewrite fmap_cons. cbn [concat length]. rewrite length_app. unfold attribute_bytes at 1.
  rewrite !length_app, ne_bytes_length. simpl in *. lia.
Qed.

(** Any datagram at all can be walked: neither iterator ever fails a
    bounds check, an item is either a slice of the datagram or an error, an
    error ends the iteration, and the walk is finite (giving the iterators
    more steps than there are bytes adds nothing). *)
Theorem netlink_iteration_is_total bytes :
  Forall (item_ok bytes msg_payload) (messages bytes)
  /\ Forall (item_ok bytes attr_payload) (attributes bytes)
  /\ (forall before e after, messages bytes = before ++ Err e :: after -> after = [])
  /\ (forall before e after, attributes bytes = before ++ Err e :: after -> after = [])
  /\ forall fuel, (length bytes < fuel)%nat ->
     collect (NetlinkMessages_next bytes) fuel 0 = messages bytes
     /\ collect (Attributes_next bytes) fuel 0 = attributes bytes.
Proof.
  pose proof (zlen_nonneg bytes). unfold messages, attributes. split_and!.
  - apply collect_items; [apply Messages_well_behaved|lia].
  - apply collect_items; [apply Attributes_well_behaved|lia].
  - intros. eapply collect_error_last; [apply Messages_well_behaved| |done]; lia.
  - intros. eapply collect_error_last; [apply Attributes_well_behaved| |done]; lia.
  - unfold zlen in *. intros fuel Hf. split.
    + eapply collect_fuel; [apply Messages_well_behaved|unfold zlen; lia..].
    + eapply collect_fuel; [apply Attributes_well_behaved|unfold zlen; lia..].
Qed.

(** A message that [build_message] produces is read back as one message
    with its type, sequence number and attributes, on little- and big-endian
    targets, whatever the attribute payloads are. *)
Theorem netlink_round_trip t flags s family resource_id attrs bytes :
  0 <= t <= U16_MAX -> 0 <= s <= U32_MAX -> Forall (fun a => 0 <= a.1 < 0x4000) attrs ->
  build_message t flags s family resource_id attrs = Ok bytes ->
  exists payload, messages bytes = [Ok (mkMessage t s payload)]
  /\ attributes (drop (Z.to_nat NFGENMSG_BYTES) payload)
     = (fun a => Ok (mkAttribute a.1 a.2)) <$> attrs.
Proof.
  intros Ht Hs Hk Hb. unfold build_message in Hb.
  apply bind_Ok_inv in Hb as (payload & [Hpay Hall]%append_attributes_Ok & Hb).
  apply bind_Ok_inv in Hb as (n & Hn & Hb). apply ok_or_Ok, u64_checked_add_Some in Hn as [-> _].
  apply seq_Ok in Hb as [Hl%ensure_Ok%Z.leb_le Hb]. injection Hb as <-.
  exists payload.
  split; [exact (messages_single t flags s payload Ht Hs Hl)|]. rewrite Hpay.
  pose proof (be_bytes_length 2 resource_id) as Hr.
  destruct (be_bytes 2 resource_id) as [|r0 [|r1 [|]]]; try done.
  rewrite skip_header. apply attributes_concat. apply Forall_forall. intros a Ha.
  rewrite Forall_forall in Hk, Hall. auto.
Qed.
End Claims.

Definition sample_attributes : list (Z * list Z) :=
  [(NFQA_VERDICT_HDR, be_bytes 4 NF_ACCEPT ++ be_bytes 4 77); (NFQA_MARK, be_bytes 4 5)].

Lemma netlink_round_trip_witness :
  exists bytes payload,
  @build_verdict_message x86_64 9 1337 77 NF_ACCEPT (Some 5) = Ok bytes
  /\ @messages x86_64 bytes = [Ok (mkMessage 769 9 payload)]
  /\ @attributes x86_64 (drop (Z.to_nat NFGENMSG_BYTES) payload)
     = (fun a => Ok (mkAttribute a.1 a.2)) <$> sample_attributes.
Proof.
  destruct (@build_verdict_message x86_64 9 1337 77 NF_ACCEPT (Some 5)) as [bytes|] eqn:Hb;
    [|by vm_compute in Hb].
  destruct (@netlink_round_trip x86_64 769 NLM_F_REQUEST 9 NFNETLINK_FAMILY_UNSPEC 1337
    sample_attributes bytes) as (payload & Hm & Ha).
  - unfold U16_MAX. lia.
  - unfold U32_MAX. lia.
  - apply Forall_forall. intros a Ha. unfold sample_attributes in Ha.
    rewrite !elem_of_cons, elem_of_nil in Ha.
    destruct Ha as [->|[->|[]]]; cbn [fst]; lia.
  - exact Hb.
  - exists bytes, payload. by split_and!.
Defined.
