(* ===== verification/Packet.v ===== *)
(** * Queued packets

    The parser of NFQUEUE packet messages ([nfqueue.rs]): the attributes of a
    message, the captured prefix of the IP packet, and the tuple of the
    outbound connection it belongs to.  [if_indextoname] is the operating
    system's interface table. *)

From S2P Require Import Prelude Text Net Model Netlink Decision.
Local Open Scope Z_scope.

Abbreviation MAX_PACKET_BATCH_SIZE := 32 (only parsing).

Inductive IpPacketDirection : Type := PacketOutbound | PacketReply.
#[export] Instance IpPacketDirection_eq_dec : EqDecision IpPacketDirection.
Proof. solve_decision. Defined.

Record ParsedIpPacket : Type := mkParsed {
  parsed_source_address : IpAddr;
  parsed_source_port : option Z;
  parsed_destination_address : IpAddr;
  parsed_destination_port : option Z;
  parsed_protocol : TransportProtocol;
  parsed_initial_observation : bool;
  transport_offset : Z;
  tcp_flags : option Z;
  icmp_type : option Z
}.

Record PacketCapture : Type := mkCapture {
  cap_payload : Bytes;
  original_length : Z;
  skb_info : Z
}.

Record QueuedPacket : Type := mkQueuedPacket {
  connection : OutboundConnection;
  packet_mark : Z;
  initial_observation : bool
}.

(** A packet that could not be parsed keeps its identifier and its error. *)
Record QueuedPacketWork : Type := mkWork {
  work_packet_id : Z;
  work_packet : Result ParseError QueuedPacket
}.

Definition is_gso (self : PacketCapture) : bool :=
  negb (Z.land self.(skb_info) NFQA_SKB_GSO =? 0).

(** [u16::from_be_bytes([packet[i], packet[i + 1]])]. *)
Definition be_u16 (packet : Bytes) (i : Z) : Result ParseError Z :=
  a ← index packet i; b ← index packet (i + 1); mret (from_be_bytes [a; b]).

(** [u16::trailing_zeros]. *)
Fixpoint trailing_zeros (width : nat) (v : Z) : Z :=
  match width with
  | O => 0
  | S w => if Z.odd v then 0 else 1 + trailing_zeros w (v / 2)
  end.

(** ** Transport headers *)

Definition parse_transport_ports (protocol_number : Z) (packet : Bytes) (offset : Z)
    : Result ParseError (Z * Z) :=
  (if protocol_number =? 6 then
     ensure (offset + 20 <=? zlen packet) (Malformed "TCP header is truncated") ;;
     b ← index packet (offset + 12);
     let header_length := Z.shiftr b 4 * 4 in
     ensure ((20 <=? header_length) && (offset + header_length <=? zlen packet))
       (Malformed "TCP data offset is invalid or its options are truncated")
   else
     ensure (offset + 8 <=? zlen packet) (Malformed "UDP header is truncated") ;;
     length ← be_u16 packet (offset + 4);
     ensure (8 <=? length)
       (Malformed "UDP length is smaller than its header (UDP jumbograms are unsupported)")) ;;
  source ← be_u16 packet offset;
  destination ← be_u16 packet (offset + 2);
  ensure (negb (source =? 0) && negb (destination =? 0)) (Malformed "transport port is zero") ;;
  mret (source, destination).

(** An ICMP echo: the identifier, when type and code fit the direction. *)
Definition parse_echo (packet : Bytes) (offset expected : Z) (truncated mismatch : string)
    : Result ParseError Z :=
  ensure (offset + 8 <=? zlen packet) (Malformed truncated) ;;
  ty ← index packet offset;
  code ← index packet (offset + 1);
  ensure ((ty =? expected) && (code =? 0)) (Malformed mismatch) ;;
  be_u16 packet (offset + 4).

Definition transport_tuple (source_address : IpAddr) (protocol_number : Z) (packet : Bytes)
    (offset : Z) (direction : IpPacketDirection)
    : Result ParseError (TransportProtocol * option Z * option Z) :=
  if (protocol_number =? 6) || (protocol_number =? 17) then
    ports ← parse_transport_ports protocol_number packet offset;
    mret (if protocol_number =? 6 then Tcp else Udp, Some ports.1, Some ports.2)
  else if (protocol_number =? 1) && is_ipv4 source_address then
    identifier ← parse_echo packet offset (if direction ==? PacketOutbound then 8 else 0)
                   "ICMP header is truncated"
                   "ICMP echo type/code does not match the queue direction";
    mret (Icmp, Some identifier, None)
  else if (protocol_number =? 58) && is_ipv6 source_address then
    identifier ← parse_echo packet offset (if direction ==? PacketOutbound then 128 else 129)
                   "ICMPv6 header is truncated"
                   "ICMPv6 echo type/code does not match the queue direction";
    mret (IcmpV6, Some identifier, None)
  else Err (Malformed "queued packet uses an unsupported transport protocol").

(** [slice::get]. *)
Definition byte_get (packet : Bytes) (i : Z) : option Z := packet !! Z.to_nat i.

Definition finish_transport (source_address destination_address : IpAddr) (protocol_number : Z)
    (packet : Bytes) (offset : Z) (direction : IpPacketDirection)
    : Result ParseError ParsedIpPacket :=
  tuple ← transport_tuple source_address protocol_number packet offset direction;
  let '(protocol, source_port, destination_port) := tuple in
  mret (mkParsed source_address source_port destination_address destination_port protocol
    ((protocol !=? Tcp)
     || is_some_and (fun flags => Z.land flags 0x17 =? 0x02) (byte_get packet (offset + 13)))
    offset
    (if protocol ==? Tcp then byte_get packet (offset + 13) else None)
    (if (protocol ==? Icmp) || (protocol ==? IcmpV6) then byte_get packet offset else None)).

(** ** IP headers *)

Definition parse_ipv4_packet (capture : PacketCapture) (direction : IpPacketDirection)
    : Result ParseError ParsedIpPacket :=
  let packet := capture.(cap_payload) in
  ensure (20 <=? zlen packet) (Malformed "IPv4 header is truncated") ;;
  b0 ← index packet 0;
  let header_length := Z.land b0 0x0f * 4 in
  ensure ((20 <=? header_length) && (header_length <=? zlen packet))
    (Malformed "invalid IPv4 IHL") ;;
  total_length ← be_u16 packet 2;
  ensure ((total_length =? capture.(original_length))
          || ((total_length =? 0) && is_gso capture && (U16_MAX <? capture.(original_length))))
    (Malformed "IPv4 total length does not match the kernel capture length") ;;
  fragment ← be_u16 packet 6;
  ensure (13 <=? trailing_zeros 16 fragment)
    (Malformed "non-initial IPv4 fragment is not attributable") ;;
  source ← slice packet 12 16;
  destination ← slice packet 16 20;
  protocol_number ← index packet 9;
  finish_transport (IpV4 (from_be_bytes source)) (IpV4 (from_be_bytes destination))
    protocol_number packet header_length direction.

(** The loop over at most eight extension headers, [finish] being the call that
    ends it. *)
Fixpoint ipv6_extensions {A} (n : nat) (packet : Bytes) (next_header offset : Z)
    (finish : Z -> Z -> Result ParseError A) : Result ParseError A :=
  match n with
  | O => Err (Malformed "IPv6 extension-header bound exceeded")
  | S n =>
      if (next_header =? 0) || (next_header =? 43) || (next_header =? 60) then
        ensure (offset + 2 <=? zlen packet) (Malformed "IPv6 extension header is truncated") ;;
        next ← index packet offset;
        extent ← index packet (offset + 1);
        offset ← ok_or (Malformed "IPv6 extension offset overflow")
                   (usize_checked_add offset ((extent + 1) * 8));
        ensure (offset <=? zlen packet) (Malformed "IPv6 extension data is truncated") ;;
        ipv6_extensions n packet next offset finish
      else if next_header =? 44 then
        ensure (offset + 8 <=? zlen packet) (Malformed "IPv6 fragment header is truncated") ;;
        fragment ← be_u16 packet (offset + 2);
        ensure (Z.land fragment 0xfff8 =? 0)
          (Malformed "non-initial IPv6 fragment is not attributable") ;;
        next ← index packet offset;
        ipv6_extensions n packet next (offset + 8) finish
      else if next_header =? 51 then
        ensure (offset + 2 <=? zlen packet) (Malformed "IPv6 AH header is truncated") ;;
        next ← index packet offset;
        extent ← index packet (offset + 1);
        offset ← ok_or (Malformed "IPv6 AH offset overflow")
                   (usize_checked_add offset ((extent + 2) * 4));
        ensure (offset <=? zlen packet) (Malformed "IPv6 AH data is truncated") ;;
        ipv6_extensions n packet next offset finish
      else finish next_header offset
  end.

Definition parse_ipv6_packet (capture : PacketCapture) (direction : IpPacketDirection)
    : Result ParseError ParsedIpPacket :=
  let packet := capture.(cap_payload) in
  ensure (40 <=? zlen packet) (Malformed "IPv6 header is truncated") ;;
  payload_length ← be_u16 packet 4;
  ensure ((payload_length + 40 =? capture.(original_length))
          || ((payload_length =? 0) && is_gso capture
              && (U16_MAX + 40 <? capture.(original_length))))
    (Malformed "IPv6 payload length does not match the kernel capture length (non-GSO jumbograms are unsupported)") ;;
  source ← slice packet 8 24;
  destination ← slice packet 24 40;
  next_header ← index packet 6;
  ipv6_extensions 8 packet next_header 40 (fun next_header offset =>
    finish_transport (IpV6 (from_be_bytes source)) (IpV6 (from_be_bytes destination))
      next_header packet offset direction).

Definition PacketCapture_parse (self : PacketCapture) (direction : IpPacketDirection)
    : Result ParseError ParsedIpPacket :=
  first ← ok_or (Malformed "queued IP packet is empty") (byte_get self.(cap_payload) 0);
  let version := Z.shiftr first 4 in
  parsed ←
    (if version =? 4 then parse_ipv4_packet self direction
     else if version =? 6 then parse_ipv6_packet self direction
     else Err (Malformed "queued payload is not IPv4 or IPv6"));
  (if parsed.(parsed_protocol) ==? Udp then
     let offset := parsed.(transport_offset) in
     length ← be_u16 self.(cap_payload) (offset + 4);
     ensure (offset <=? U32_MAX) (Malformed "out of range integral type conversion attempted") ;;
     ensure (offset + length <=? self.(original_length))
       (Malformed "UDP length exceeds the kernel packet length")
   else Ok tt) ;;
  mret parsed.

(** ** Message attributes *)

(** The three accumulators of [parse_packet_capture]. *)
Record CaptureFields : Type := mkCaptureFields {
  seen_payload : option Bytes;
  seen_length : option Z;
  seen_info : option Z
}.

Definition capture_attribute (fields : CaptureFields) (attribute : Attribute)
    : Result ParseError CaptureFields :=
  let '(mkCaptureFields payload original_length skb_info) := fields in
  if attribute.(kind) =? NFQA_PAYLOAD then
    ensure (is_none payload) (Malformed "duplicate queued packet payload") ;;
    mret (mkCaptureFields (Some attribute.(attr_payload)) original_length skb_info)
  else if attribute.(kind) =? NFQA_CAP_LEN then
    ensure (is_none original_length) (Malformed "duplicate queued packet capture length") ;;
    v ← network_u32 attribute.(attr_payload);
    mret (mkCaptureFields payload (Some v) skb_info)
  else if attribute.(kind) =? NFQA_SKB_INFO then
    ensure (is_none skb_info) (Malformed "duplicate queued packet skb information") ;;
    v ← network_u32 attribute.(attr_payload);
    mret (mkCaptureFields payload original_length (Some v))
  else mret fields.

(** [for attribute in attributes { let attribute = attribute?; ... }]. *)
Fixpoint for_attributes {S} (step : S -> Attribute -> Result ParseError S) (state : S)
    (items : list (Result ParseError Attribute)) : Result ParseError S :=
  match items with
  | [] => Ok state
  | item :: rest =>
      attribute ← item; state ← step state attribute; for_attributes step state rest
  end.

(** The socket user, the output interface and the mark of a packet. *)
Record PacketFields : Type := mkPacketFields {
  seen_uid : option Z;
  seen_output_index : option Z;
  seen_mark : option Z
}.

Definition packet_attribute (fields : PacketFields) (attribute : Attribute)
    : Result ParseError PacketFields :=
  let '(mkPacketFields uid output_index mark) := fields in
  if attribute.(kind) =? NFQA_UID then
    v ← network_u32 attribute.(attr_payload); mret (mkPacketFields (Some v) output_index mark)
  else if attribute.(kind) =? NFQA_IFINDEX_OUTDEV then
    v ← network_u32 attribute.(attr_payload); mret (mkPacketFields uid (Some v) mark)
  else if attribute.(kind) =? NFQA_MARK then
    v ← network_u32 attribute.(attr_payload); mret (mkPacketFields uid output_index (Some v))
  else mret fields.

Definition connection_message (e : ConnectionError) : ParseError :=
  Malformed match e with
  | FamiliesDiffer => "connection address families differ"
  | MissingOrReservedPorts => "transport connection has missing or reserved ports"
  | InvalidIcmpTuple => "invalid ICMP echo connection tuple"
  | InvalidIcmpV6Tuple => "invalid ICMPv6 echo connection tuple"
  | UntypedConnection => "untyped outbound connection cannot be attributed"
  end.

Section Messages.
Context `{Target}.

Definition parse_packet_capture (bytes : Bytes) : Result ParseError PacketCapture :=
  fields ← for_attributes capture_attribute (mkCaptureFields None None None) (attributes bytes);
  payload ← ok_or (Malformed "queued packet has no payload") fields.(seen_payload);
  let copied_length := zlen payload in
  ensure (copied_length <=? U32_MAX)
    (Malformed "out of range integral type conversion attempted") ;;
  ensure ((0 <? copied_length) && (copied_length <=? COPY_RANGE))
    (Malformed "queued packet capture exceeds the configured prefix bound or is empty") ;;
  let original_length := default copied_length fields.(seen_length) in
  ensure (copied_length <=? original_length)
    (Malformed "queued packet capture length is smaller than its payload") ;;
  mret (mkCapture payload original_length (default 0 fields.(seen_info))).

(** The first well-formed packet header, skipping malformed attributes. *)
Definition packet_id (payload : Bytes) : option Z :=
  if zlen payload <? NFGENMSG_BYTES then None
  else
    match List.find (fun attribute =>
            (attribute.(kind) =? NFQA_PACKET_HDR)
            && (PACKET_HEADER_BYTES <=? zlen attribute.(attr_payload)))
          (omap ok (attributes (drop (Z.to_nat NFGENMSG_BYTES) payload))) with
    | Some attribute => Some (from_be_bytes (take 4 attribute.(attr_payload)))
    | None => None
    end.

Context (if_indextoname : Z -> option (option ustring)).

Definition interface_for_index (ifindex : Z) : Result ParseError InterfaceName :=
  ensure (negb (ifindex =? 0)) (Malformed "output interface index is zero") ;;
  name ← ok_or (Malformed "output interface index does not exist") (if_indextoname ifindex);
  name ← ok_or (Malformed "interface name is not UTF-8") name;
  map_err (fun _ => Malformed "output interface name is invalid") (InterfaceName_new name).

Definition parse_queued_packet (payload : Bytes) : Result ParseError QueuedPacket :=
  ensure (NFGENMSG_BYTES <=? zlen payload)
    (Malformed "queued packet netlink payload is truncated") ;;
  body ← slice payload NFGENMSG_BYTES (zlen payload);
  fields ← for_attributes packet_attribute (mkPacketFields None None None) (attributes body);
  capture ← parse_packet_capture body;
  parsed ← PacketCapture_parse capture PacketOutbound;
  socket_uid ← ok_or (Malformed "queued packet has no kernel socket uid") fields.(seen_uid);
  output_index ← ok_or (Malformed "queued packet has no output interface")
                   fields.(seen_output_index);
  output_interface ← interface_for_index output_index;
  let connection := mkOutboundConnection parsed.(parsed_source_address)
    parsed.(parsed_source_port) parsed.(parsed_destination_address)
    parsed.(parsed_destination_port) parsed.(parsed_protocol) output_interface socket_uid in
  map_err connection_message (OutboundConnection_validate connection) ;;
  mret (mkQueuedPacket connection (default 0 fields.(seen_mark))
          parsed.(parsed_initial_observation)).

(** The loop of [append_packet_datagram]; the batch is extended in place, also
    when a later message is refused. *)
Fixpoint append_messages (batch : list QueuedPacketWork)
    (items : list (Result ParseError NetlinkMessage))
    : list QueuedPacketWork * Result ParseError unit :=
  match items with
  | [] => (batch, Ok tt)
  | Err e :: _ => (batch, Err e)
  | Ok message :: rest =>
      if negb (message.(message_type) =? queue_message_type NFQNL_MSG_PACKET) then
        append_messages batch rest
      else if negb (zlen batch <? MAX_PACKET_BATCH_SIZE) then
        (batch, Err (Malformed "queued packet batch exceeds its fixed bound"))
      else
        match packet_id message.(msg_payload) with
        | None => (batch, Err (Malformed "queued packet has no bounded packet identifier"))
        | Some id =>
            append_messages
              (batch ++ [mkWork id (parse_queued_packet message.(msg_payload))]) rest
        end
  end.

Definition append_packet_datagram (bytes : Bytes) (batch : list QueuedPacketWork)
    : list QueuedPacketWork * Result ParseError unit :=
  append_messages batch (messages bytes).
End Messages.

(** ** No bounds check fails *)

Definition no_panic {A} (m : Result ParseError A) : Prop := m <> Err Panic.

Lemma no_panic_bind {A B} (m : Result ParseError A) (f : A -> Result ParseError B) :
  no_panic m -> (forall a, m = Ok a -> no_panic (f a)) -> no_panic (m ≫= f).
Proof. unfold no_panic. destruct m; simpl; [auto|]. by intros ? ? [= ->]. Qed.

Lemma no_panic_ensure_seq {B} b e (k : Result ParseError B) :
  (b = true -> no_panic k) -> no_panic (ensure b (Malformed e) ;; k).
Proof. unfold no_panic. destruct b; simpl; [auto|done]. Qed.

Lemma no_panic_ensure b e : no_panic (ensure b (Malformed e)).
Proof. unfold no_panic. by destruct b. Qed.

Lemma no_panic_ok_or {A} (o : option A) e : no_panic (ok_or (Malformed e) o).
Proof. unfold no_panic. by destruct o. Qed.

Lemma no_panic_index bytes i : 0 <= i < zlen bytes -> no_panic (index bytes i).
Proof. intros Hi. by destruct (index_Ok bytes i Hi) as [b ->]. Qed.

Lemma no_panic_slice bytes a b : 0 <= a <= b -> b <= zlen bytes -> no_panic (slice bytes a b).
Proof. intros Ha Hb. by destruct (slice_Ok bytes a b Ha Hb) as (? & ? & ? & -> & _). Qed.

Lemma no_panic_be_u16 bytes i : 0 <= i -> i + 1 < zlen bytes -> no_panic (be_u16 bytes i).
Proof.
  intros. unfold be_u16. apply no_panic_bind; [apply no_panic_index; lia|]. intros a _.
  apply no_panic_bind; [apply no_panic_index; lia|done].
Qed.

(** One step of a parser; conditions of [ensure]s become hypotheses. *)
Ltac no_panic_step :=
  match goal with
  | |- no_panic (ensure _ _ ;; _) =>
      apply no_panic_ensure_seq; intros ?;
      repeat match goal with
      | Hb : (_ && _) = true |- _ => apply andb_prop in Hb as [? ?]
      | Hb : (_ <=? _) = true |- _ => apply Z.leb_le in Hb
      end
  | |- no_panic (index _ _ ≫= _) => apply no_panic_bind; [apply no_panic_index; lia|intros ? _]
  | |- no_panic (be_u16 _ _ ≫= _) => apply no_panic_bind; [apply no_panic_be_u16; lia|intros ? _]
  | |- no_panic (slice _ _ _ ≫= _) => apply no_panic_bind; [apply no_panic_slice; lia|intros ? _]
  | |- no_panic (ok_or _ _ ≫= _) => apply no_panic_bind; [apply no_panic_ok_or|intros ? ?]
  | |- no_panic (ensure _ _) => apply no_panic_ensure
  | |- no_panic (be_u16 _ _) => apply no_panic_be_u16; lia
  | |- no_panic (mret _) => done
  | |- no_panic (Err (Malformed _)) => done
  | |- no_panic (Ok _) => done
  end.
Ltac no_panic := repeat no_panic_step.

Lemma no_panic_ports n packet offset :
  0 <= offset -> no_panic (parse_transport_ports n packet offset).
Proof.
  intros Ho. unfold parse_transport_ports.
  apply no_panic_bind.
  - destruct (n =? 6); no_panic.
  - intros [] Hok. assert (offset + 8 <= zlen packet).
    { destruct (n =? 6); inv_ok Hok; lia. }
    no_panic.
Qed.

Lemma no_panic_echo packet offset expected e e' :
  0 <= offset -> no_panic (parse_echo packet offset expected e e').
Proof. intros Ho. unfold parse_echo. no_panic. Qed.

Lemma no_panic_finish src dst n packet offset direction :
  0 <= offset -> no_panic (finish_transport src dst n packet offset direction).
Proof.
  intros Ho. unfold finish_transport. apply no_panic_bind.
  - unfold transport_tuple. repeat case_match; no_panic;
      (apply no_panic_bind; [first [by apply no_panic_ports|by apply no_panic_echo]|by intros]).
  - by intros [[p s] d] _.
Qed.

Lemma index_byte bytes i b : Forall is_byte bytes -> index bytes i = Ok b -> is_byte b.
Proof.
  intros Hb. unfold index. destruct (bytes !! Z.to_nat i) as [x|] eqn:E; [|done].
  intros [= <-]. by eapply Forall_lookup_1.
Qed.

Lemma no_panic_extensions {A} packet (finish : Z -> Z -> Result ParseError A) n :
  Forall is_byte packet -> (forall next offset, 0 <= offset -> no_panic (finish next offset)) ->
  forall next offset, 0 <= offset -> no_panic (ipv6_extensions n packet next offset finish).
Proof.
  intros Hb Hf. induction n as [|n IH]; intros next offset Ho; [by no_panic|].
  cbn [ipv6_extensions].
  repeat case_match; [| | |by apply Hf].
  - no_panic_step. apply no_panic_bind; [apply no_panic_index; lia|intros x _].
    apply no_panic_bind; [apply no_panic_index; lia|intros y Hy].
    apply index_byte in Hy; [|done]. unfold is_byte in Hy.
    apply no_panic_bind; [apply no_panic_ok_or|].
    intros o [-> _]%ok_or_Ok%u64_checked_add_Some. no_panic_step. apply IH. lia.
  - no_panic_step. no_panic_step. no_panic_step. no_panic_step. apply IH. lia.
  - no_panic_step. apply no_panic_bind; [apply no_panic_index; lia|intros x _].
    apply no_panic_bind; [apply no_panic_index; lia|intros y Hy].
    apply index_byte in Hy; [|done]. unfold is_byte in Hy.
    apply no_panic_bind; [apply no_panic_ok_or|].
    intros o [-> _]%ok_or_Ok%u64_checked_add_Some. no_panic_step. apply IH. lia.
Qed.

(** ** What a parsed packet says *)

(** The tuple of a parsed packet is what its transport header holds, and the
    header lies within the captured bytes. *)
Record parsed_ok (packet : Bytes) (p : ParsedIpPacket) : Prop := {
  parsed_offset : 0 <= transport_offset p /\ transport_offset p + 8 <= zlen packet;
  parsed_family : is_ipv4 (parsed_source_address p) = is_ipv4 (parsed_destination_address p);
  parsed_tuple :
    match parsed_protocol p with
    | Any => False
    | Tcp | Udp => exists s d,
        be_u16 packet (transport_offset p) = Ok s
        /\ be_u16 packet (transport_offset p + 2) = Ok d
        /\ s <> 0 /\ d <> 0
        /\ parsed_source_port p = Some s /\ parsed_destination_port p = Some d
    | Icmp => is_ipv4 (parsed_source_address p) = true /\ exists i,
        be_u16 packet (transport_offset p + 4) = Ok i
        /\ parsed_source_port p = Some i /\ parsed_destination_port p = None
    | IcmpV6 => is_ipv6 (parsed_source_address p) = true /\ exists i,
        be_u16 packet (transport_offset p + 4) = Ok i
        /\ parsed_source_port p = Some i /\ parsed_destination_port p = None
    end
}.

Lemma ports_Ok n packet offset s d :
  parse_transport_ports n packet offset = Ok (s, d) ->
  offset + 8 <= zlen packet /\ be_u16 packet offset = Ok s /\ be_u16 packet (offset + 2) = Ok d
  /\ s <> 0 /\ d <> 0.
Proof.
  unfold parse_transport_ports. intros Hp.
  apply seq_Ok in Hp as [Hh Hp]. apply bind_Ok_inv in Hp as (s' & Hs & Hp).
  apply bind_Ok_inv in Hp as (d' & Hd & Hp). inv_ok Hp. split_and!; try done.
  destruct (n =? 6); inv_ok Hh; lia.
Qed.

Lemma echo_Ok packet offset expected e e' i :
  parse_echo packet offset expected e e' = Ok i ->
  offset + 8 <= zlen packet /\ be_u16 packet (offset + 4) = Ok i.
Proof.
  unfold parse_echo. intros Hp. apply seq_Ok in Hp as [Hl Hp]. inv_ok Hl.
  apply bind_Ok_inv in Hp as (t & _ & Hp). apply bind_Ok_inv in Hp as (c & _ & Hp).
  by apply seq_Ok in Hp as [_ Hp].
Qed.

Lemma finish_Ok src dst n packet offset direction p :
  0 <= offset -> is_ipv4 src = is_ipv4 dst ->
  finish_transport src dst n packet offset direction = Ok p ->
  parsed_ok packet p /\ parsed_source_address p = src /\ parsed_destination_address p = dst.
Proof.
  intros Ho Hfam Hp. unfold finish_transport in Hp.
  apply bind_Ok_inv in Hp as ([[pr s] d] & Ht & Hp). injection Hp as <-.
  split; [|done]. unfold transport_tuple in Ht.
  destruct (_ || _).
  - apply bind_Ok_inv in Ht as ([s' d'] & (? & ? & ? & ? & ?)%ports_Ok & Ht). injection Ht as <- <- <-.
    split; [done|done|]. simpl. destruct (n =? 6); eauto 10.
  - destruct (_ && is_ipv4 src) eqn:E4.
    + apply bind_Ok_inv in Ht as (i & [? ?]%echo_Ok & Ht). injection Ht as <- <- <-.
      apply andb_prop in E4 as [_ ?]. split; [done|done|]. simpl. eauto.
    + destruct (_ && is_ipv6 src) eqn:E6; [|done].
      apply bind_Ok_inv in Ht as (i & [? ?]%echo_Ok & Ht). injection Ht as <- <- <-.
      apply andb_prop in E6 as [_ ?]. split; [done|done|]. simpl. eauto.
Qed.

Lemma extensions_Ok {A} packet (finish : Z -> Z -> Result ParseError A) n r :
  Forall is_byte packet -> forall next offset, 0 <= offset ->
  ipv6_extensions n packet next offset finish = Ok r ->
  exists next' offset', 0 <= offset' /\ finish next' offset' = Ok r.
Proof.
  intros Hb. induction n as [|n IH]; intros next offset Ho; [done|]. cbn [ipv6_extensions].
  intros Hr. destruct (_ || _); [|destruct (next =? 44); [|destruct (next =? 51); [|eauto]]].
  - apply seq_Ok in Hr as [_ Hr]. apply bind_Ok_inv in Hr as (x & _ & Hr).
    apply bind_Ok_inv in Hr as (y & Hy%index_byte & Hr); [|done]. unfold is_byte in Hy.
    apply bind_Ok_inv in Hr as (o & [-> _]%ok_or_Ok%u64_checked_add_Some & Hr).
    apply seq_Ok in Hr as [_ Hr]. apply IH in Hr; [done|lia].
  - apply seq_Ok in Hr as [_ Hr]. apply bind_Ok_inv in Hr as (x & _ & Hr).
    apply seq_Ok in Hr as [_ Hr]. apply bind_Ok_inv in Hr as (y & _ & Hr).
    apply IH in Hr; [done|lia].
  - apply seq_Ok in Hr as [_ Hr]. apply bind_Ok_inv in Hr as (x & _ & Hr).
    apply bind_Ok_inv in Hr as (y & Hy%index_byte & Hr); [|done]. unfold is_byte in Hy.
    apply bind_Ok_inv in Hr as (o & [-> _]%ok_or_Ok%u64_checked_add_Some & Hr).
    apply seq_Ok in Hr as [_ Hr]. apply IH in Hr; [done|lia].
Qed.

(** Where the addresses are. *)
Definition addresses_of (packet : Bytes) (p : ParsedIpPacket) : Prop :=
  (exists a b, slice packet 12 16 = Ok a /\ slice packet 16 20 = Ok b
   /\ parsed_source_address p = IpV4 (from_be_bytes a)
   /\ parsed_destination_address p = IpV4 (from_be_bytes b))
  \/ (exists a b, slice packet 8 24 = Ok a /\ slice packet 24 40 = Ok b
   /\ parsed_source_address p = IpV6 (from_be_bytes a)
   /\ parsed_destination_address p = IpV6 (from_be_bytes b)).

Lemma ipv4_Ok capture direction p :
  parse_ipv4_packet capture direction = Ok p ->
  parsed_ok (cap_payload capture) p /\ addresses_of (cap_payload capture) p.
Proof.
  unfold parse_ipv4_packet. intros Hp.
  apply seq_Ok in Hp as [_ Hp]. apply bind_Ok_inv in Hp as (b0 & _ & Hp).
  apply seq_Ok in Hp as [Hl Hp]. apply ensure_Ok, andb_prop in Hl as [Hl%Z.leb_le _].
  apply bind_Ok_inv in Hp as (tl & _ & Hp). apply seq_Ok in Hp as [_ Hp].
  apply bind_Ok_inv in Hp as (fr & _ & Hp). apply seq_Ok in Hp as [_ Hp].
  apply bind_Ok_inv in Hp as (a & Ha & Hp). apply bind_Ok_inv in Hp as (b & Hb & Hp).
  apply bind_Ok_inv in Hp as (n & _ & Hp).
  apply finish_Ok in Hp as (Hok & Hs & Hd); [|lia|done]. split; [done|]. left. eauto 10.
Qed.

Lemma ipv6_Ok capture direction p :
  Forall is_byte (cap_payload capture) -> parse_ipv6_packet capture direction = Ok p ->
  parsed_ok (cap_payload capture) p /\ addresses_of (cap_payload capture) p.
Proof.
  unfold parse_ipv6_packet. intros Hbytes Hp.
  apply seq_Ok in Hp as [_ Hp]. apply bind_Ok_inv in Hp as (pl & _ & Hp).
  apply seq_Ok in Hp as [_ Hp].
  apply bind_Ok_inv in Hp as (a & Ha & Hp). apply bind_Ok_inv in Hp as (b & Hb & Hp).
  apply bind_Ok_inv in Hp as (n & _ & Hp).
  apply extensions_Ok in Hp as (n' & o' & Ho & Hp); [|done|lia].
  apply finish_Ok in Hp as (Hok & Hs & Hd); [|lia|done]. split; [done|]. right. eauto 10.
Qed.

Lemma parse_Ok capture direction p :
  Forall is_byte (cap_payload capture) -> PacketCapture_parse capture direction = Ok p ->
  parsed_ok (cap_payload capture) p /\ addresses_of (cap_payload capture) p.
Proof.
  unfold PacketCapture_parse. intros Hb Hp.
  apply bind_Ok_inv in Hp as (v & _ & Hp). apply bind_Ok_inv in Hp as (q & Hq & Hp).
  apply seq_Ok in Hp as [_ Hp]. injection Hp as <-.
  destruct (_ =? 4); [by apply ipv4_Ok in Hq|]. destruct (_ =? 6); [by apply ipv6_Ok in Hq|done].
Qed.

Lemma no_panic_parse capture direction :
  Forall is_byte (cap_payload capture) -> no_panic (PacketCapture_parse capture direction).
Proof.
  intros Hb. unfold PacketCapture_parse. no_panic_step. apply no_panic_bind.
  - repeat case_match; [| |by no_panic].
    + unfold parse_ipv4_packet. no_panic. apply no_panic_finish. lia.
    + unfold parse_ipv6_packet. no_panic. apply no_panic_extensions; [done| |lia].
      intros. by apply no_panic_finish.
  - intros p Hp. assert (Hok : parsed_ok (cap_payload capture) p).
    { destruct (_ =? 4); [by apply ipv4_Ok in Hp as [? _]|].
      destruct (_ =? 6); [by apply ipv6_Ok in Hp as [? _]|done]. }
    destruct (parsed_offset _ _ Hok). apply no_panic_bind; [|by no_panic].
    destruct (parsed_protocol p ==? Udp); no_panic.
Qed.

(** Attribute payloads are pieces of the message. *)
Lemma for_attributes_no_panic {S} (step : S -> Attribute -> Result ParseError S) items :
  (forall st a, no_panic (step st a)) -> Forall (fun i => i <> Err Panic) items ->
  forall st, no_panic (for_attributes step st items).
Proof.
  intros Hstep. induction 1 as [|i items Hi Hall IH]; intros st; cbn [for_attributes]; [done|].
  apply no_panic_bind; [done|]. intros a _. apply no_panic_bind; [apply Hstep|]. intros st' _.
  apply IH.
Qed.

Lemma for_attributes_inv {S} (P : S -> Prop) (step : S -> Attribute -> Result ParseError S) items :
  (forall st a st', P st -> Ok a ∈ items -> step st a = Ok st' -> P st') ->
  forall st st', P st -> for_attributes step st items = Ok st' -> P st'.
Proof.
  induction items as [|i items IH]; intros Hstep st st' Hp; cbn [for_attributes].
  - by intros [= <-].
  - intros Hr. apply bind_Ok_inv in Hr as (a & -> & Hr). apply bind_Ok_inv in Hr as (st1 & Hs & Hr).
    eapply IH; [|eapply Hstep; [done| |done]|done]; [|left].
    intros. eapply Hstep; [done|by right|done].
Qed.

Lemma no_panic_network_u32 bytes : no_panic (network_u32 bytes).
Proof. unfold network_u32. no_panic. Qed.

Section Safety.
Context `{Target}.

Lemma attributes_no_panic bytes : Forall (fun i => i <> Err Panic) (attributes bytes).
Proof.
  pose proof (collect_items _ _ _ (Attributes_well_behaved bytes) (Datatypes.S (length bytes)) 0)
    as Hall. unfold attributes. eapply Forall_impl; [apply Hall; pose proof (zlen_nonneg bytes); lia|].
  intros [a|e]; simpl; [done|]. congruence.
Qed.

Lemma attribute_payload_bytes bytes a :
  Forall is_byte bytes -> Ok a ∈ attributes bytes -> Forall is_byte (attr_payload a).
Proof.
  intros Hb Ha.
  pose proof (collect_items _ _ _ (Attributes_well_behaved bytes) (Datatypes.S (length bytes)) 0)
    as Hall. rewrite Forall_forall in Hall.
  destruct (Hall ltac:(pose proof (zlen_nonneg bytes); lia) _ Ha) as (pre & post & ->).
  rewrite !Forall_app in Hb. tauto.
Qed.

Lemma capture_no_panic bytes : no_panic (parse_packet_capture bytes).
Proof.
  unfold parse_packet_capture. apply no_panic_bind; [|intros ? _; no_panic].
  apply for_attributes_no_panic; [|apply attributes_no_panic].
  intros [p l i] a. unfold capture_attribute. repeat case_match; no_panic;
    (apply no_panic_bind; [apply no_panic_network_u32|by intros]).
Qed.

Lemma capture_bytes bytes c :
  Forall is_byte bytes -> parse_packet_capture bytes = Ok c ->
  Forall is_byte (cap_payload c) /\ 0 < zlen (cap_payload c) <= COPY_RANGE
  /\ zlen (cap_payload c) <= original_length c.
Proof.
  intros Hb Hc. unfold parse_packet_capture in Hc. apply bind_Ok_inv in Hc as (f & Hf & Hc).
  assert (Hp : forall p, seen_payload f = Some p -> Forall is_byte p).
  { revert Hf. apply (for_attributes_inv (fun f => forall p, seen_payload f = Some p -> Forall is_byte p));
      [|done].
    intros [p l i] a f' Hst Ha Hs. pose proof (attribute_payload_bytes bytes a Hb Ha).
    unfold capture_attribute in Hs. simpl in Hst.
    destruct (_ =? NFQA_PAYLOAD); [inv_ok Hs; naive_solver|].
    destruct (_ =? NFQA_CAP_LEN); [inv_ok Hs; naive_solver|].
    destruct (_ =? NFQA_SKB_INFO); inv_ok Hs; naive_solver. }
  apply bind_Ok_inv in Hc as (p & Hsp%ok_or_Ok & Hc). inv_ok Hc. simpl. split_and!; auto.
Qed.
End Safety.

Definition tuple_connection (p : ParsedIpPacket) (interface : InterfaceName) (uid : Z)
    : OutboundConnection :=
  mkOutboundConnection (parsed_source_address p) (parsed_source_port p)
    (parsed_destination_address p) (parsed_destination_port p) (parsed_protocol p) interface uid.

(** A parsed tuple passes the validation of connections. *)
Lemma parsed_connection_valid packet p interface uid :
  parsed_ok packet p -> OutboundConnection_validate (tuple_connection p interface uid) = Ok tt.
Proof.
  intros [_ Hf Ht]. unfold OutboundConnection_validate, tuple_connection. simpl.
  rewrite Hf, Bool.eqb_reflx. simpl. rewrite <-Hf.
  destruct (parsed_protocol p); try done.
  - destruct Ht as (s & d & _ & _ & Hs & Hd & -> & ->). simpl.
    by rewrite (proj2 (Z.eqb_neq s 0)), (proj2 (Z.eqb_neq d 0)).
  - destruct Ht as (s & d & _ & _ & Hs & Hd & -> & ->). simpl.
    by rewrite (proj2 (Z.eqb_neq s 0)), (proj2 (Z.eqb_neq d 0)).
  - destruct Ht as (-> & i & _ & -> & ->). done.
  - destruct Ht as (-> & i & _ & -> & ->). done.
Qed.

Section Claims.
Context `{Target} (if_indextoname : Z -> option (option ustring)).

Lemma interface_no_panic i : no_panic (interface_for_index if_indextoname i).
Proof. unfold interface_for_index. no_panic. by destruct (InterfaceName_new _). Qed.

Lemma queued_no_panic payload :
  Forall is_byte payload -> no_panic (parse_queued_packet if_indextoname payload).
Proof.
  intros Hb. unfold parse_queued_packet. no_panic_step.
  apply no_panic_bind; [apply no_panic_slice; lia|]. intros body Hbody.
  assert (Hbb : Forall is_byte body).
  { destruct (slice_Ok payload 4 (zlen payload)) as (pre & mid & post & Hs & Hp & _); [lia..|].
    rewrite Hbody in Hs. injection Hs as ->. rewrite Hp, !Forall_app in Hb. tauto. }
  apply no_panic_bind.
  { apply for_attributes_no_panic; [|apply attributes_no_panic]. intros [u o m] a.
    unfold packet_attribute. repeat case_match; no_panic;
      (apply no_panic_bind; [apply no_panic_network_u32|by intros]). }
  intros f _. apply no_panic_bind; [apply capture_no_panic|]. intros c [Hc _]%capture_bytes; [|done].
  apply no_panic_bind; [by apply no_panic_parse|]. intros p _. no_panic.
  apply no_panic_bind; [apply interface_no_panic|]. intros n _.
  apply no_panic_bind; [|by no_panic].
  by destruct (OutboundConnection_validate _).
Qed.

(** What one datagram may do to a batch. *)
Definition batch_grows (batch batch' : list QueuedPacketWork) : Prop :=
  exists added, batch' = batch ++ added
  /\ Forall (fun w => no_panic (work_packet w)) added
  /\ (added = [] \/ zlen batch' <= MAX_PACKET_BATCH_SIZE).

Lemma append_messages_grows items : forall batch batch' r,
  Forall (fun i => i <> Err Panic) items ->
  (forall m, Ok m ∈ items -> Forall is_byte (msg_payload m)) ->
  append_messages if_indextoname batch items = (batch', r) ->
  r <> Err Panic /\ batch_grows batch batch'.
Proof.
  assert (Hstay : forall batch, batch_grows batch batch).
  { intros. exists []. rewrite app_nil_r. auto. }
  induction items as [|[m|e] items IH]; intros batch batch' r Hall Hm; cbn [append_messages].
  - by intros [= <- <-].
  - apply Forall_cons in Hall as [_ Hall]. assert (Hm' := fun m Hi => Hm m (list_elem_of_further _ _ _ Hi)).
    destruct (negb _); [by apply IH|]. destruct (Z.ltb_spec (zlen batch) MAX_PACKET_BATCH_SIZE) as [Hlt|];
      cbn [negb]; [|by intros [= <- <-]].
    destruct (packet_id (msg_payload m)) as [id|]; [|by intros [= <- <-]].
    intros Hr. apply IH in Hr as [Hne (added & -> & Hadd & Hlen)]; [|done|done].
    split; [done|]. eexists (_ :: added). rewrite <-app_assoc. split; [done|]. split.
    + constructor; [|done]. apply queued_no_panic, Hm. left.
    + right. rewrite <-app_assoc in Hlen. destruct Hlen as [->|]; [|done].
      rewrite zlen_app. change (zlen _) with 1 at 2. lia.
  - apply Forall_cons in Hall as [He _]. intros [= <- <-]. split; [congruence|apply Hstay].
Qed.

(** C34: No datagram can crash the queue reader: whatever bytes the netlink
    socket delivers, no bounds check of the framing, attribute, IP, transport
    or interface parsers fails; the batch keeps the packets it had, in order,
    every packet added to it carries a result and not a crash, and the batch
    never exceeds its bound. *)
Theorem datagrams_cannot_panic bytes batch batch' r :
  Forall is_byte bytes ->
  append_packet_datagram if_indextoname bytes batch = (batch', r) ->
  r <> Err Panic /\ batch_grows batch batch'.
Proof.
  intros Hb Hr. unfold append_packet_datagram in Hr.
  pose proof (collect_items _ _ _ (Messages_well_behaved bytes) (Datatypes.S (length bytes)) 0
    ltac:(pose proof (zlen_nonneg bytes); lia)) as Hall.
  eapply append_messages_grows; [| |exact Hr].
  - eapply Forall_impl; [exact Hall|]. intros [m|e]; simpl; [done|congruence].
  - intros m Hm. rewrite Forall_forall in Hall. destruct (Hall _ Hm) as (pre & post & ->).
    rewrite !Forall_app in Hb. tauto.
Qed.

(** A queued packet is attributed by what its headers say: when parsing
    succeeds, the addresses are the address fields of the IPv4 or IPv6 header,
    the ports (or the echo identifier) are those of the transport header found
    at an offset inside the captured bytes, the user, interface and mark come
    from the kernel's attributes, and the tuple is always one that validation
    of connections accepts. *)
Theorem queued_packets_are_faithful payload q :
  Forall is_byte payload -> parse_queued_packet if_indextoname payload = Ok q ->
  exists body capture p fields output_index,
    slice payload NFGENMSG_BYTES (zlen payload) = Ok body
    /\ parse_packet_capture body = Ok capture
    /\ parsed_ok (cap_payload capture) p /\ addresses_of (cap_payload capture) p
    /\ for_attributes packet_attribute (mkPacketFields None None None) (attributes body) = Ok fields
    /\ seen_uid fields = Some (socket_uid (connection q))
    /\ seen_output_index fields = Some output_index
    /\ interface_for_index if_indextoname output_index = Ok (output_interface (connection q))
    /\ packet_mark q = default 0 (seen_mark fields)
    /\ connection q
       = tuple_connection p (output_interface (connection q)) (socket_uid (connection q))
    /\ OutboundConnection_validate (connection q) = Ok tt.
Proof.
  intros Hb Hq. unfold parse_queued_packet in Hq. apply seq_Ok in Hq as [Hl Hq].
  apply ensure_Ok, Z.leb_le in Hl.
  apply bind_Ok_inv in Hq as (body & Hbody & Hq). apply bind_Ok_inv in Hq as (f & Hf & Hq).
  apply bind_Ok_inv in Hq as (c & Hc & Hq). apply bind_Ok_inv in Hq as (p & Hp & Hq).
  apply bind_Ok_inv in Hq as (uid & Hu%ok_or_Ok & Hq).
  apply bind_Ok_inv in Hq as (oi & Ho%ok_or_Ok & Hq).
  apply bind_Ok_inv in Hq as (n & Hn & Hq). apply seq_Ok in Hq as [Hv%map_err_Ok Hq].
  injection Hq as <-.
  assert (Hbb : Forall is_byte body).
  { destruct (slice_Ok payload 4 (zlen payload)) as (pre & mid & post & Hs & Hpay & _); [lia..|].
    rewrite Hbody in Hs. injection Hs as ->. rewrite Hpay, !Forall_app in Hb. tauto. }
  destruct (parse_Ok c PacketOutbound p) as [Hok Haddr];
    [by apply (capture_bytes body)|done|].
  exists body, c, p, f, oi. by split_and!.
Qed.
End Claims.

(** Whatever parses, in either direction, is a complete tuple: both
    addresses of one family, non-zero ports for TCP and UDP, an identifier and
    no destination port for an echo, never an untyped protocol.  Validation of
    the connection that is built from it cannot fail. *)
Lemma parsed_tuples_are_valid capture direction p interface uid :
  Forall is_byte (cap_payload capture) -> PacketCapture_parse capture direction = Ok p ->
  OutboundConnection_validate (tuple_connection p interface uid) = Ok tt.
Proof.
  intros Hb Hp. apply parse_Ok in Hp as [Hok _]; [|done]. by apply (parsed_connection_valid (cap_payload capture)).
Qed.

(** ** A TCP segment *)

(** A TCP segment without options over IPv4: the fields of the tuple and the
    flags, everything else fixed. *)
Definition ipv4_tcp_segment (src dst sport dport flags : Z) : Bytes :=
  [69; 0; 0; 40; 0; 1; 64; 0; 64; 6; 0; 0] ++ be_bytes 4 src ++ be_bytes 4 dst
  ++ be_bytes 2 sport ++ be_bytes 2 dport ++ be_bytes 4 1 ++ be_bytes 4 0
  ++ [80; flags; 255; 255; 0; 0; 0; 0].

(** The reads that the parser makes of such a segment. *)
Record tcp_reads (packet : Bytes) (src dst sport dport flags : Z) : Prop := {
  read_length : zlen packet = 40;
  read_version : byte_get packet 0 = Some 69 /\ index packet 0 = Ok 69;
  read_protocol : index packet 9 = Ok 6;
  read_lengths : be_u16 packet 2 = Ok 40 /\ be_u16 packet 6 = Ok 16384;
  read_source : exists a, slice packet 12 16 = Ok a /\ from_be_bytes a = src;
  read_destination : exists b, slice packet 16 20 = Ok b /\ from_be_bytes b = dst;
  read_ports : be_u16 packet 20 = Ok sport /\ be_u16 packet 22 = Ok dport;
  read_flags : index packet 32 = Ok 80 /\ byte_get packet 33 = Some flags
}.

Lemma ipv4_tcp_segment_reads src dst sport dport flags :
  0 <= src <= U32_MAX -> 0 <= dst <= U32_MAX -> 0 <= sport <= U16_MAX -> 0 <= dport <= U16_MAX ->
  tcp_reads (ipv4_tcp_segment src dst sport dport flags) src dst sport dport flags.
Proof.
  intros Hs Hd Hsp Hdp.
  assert (Hbe : forall w v, 0 <= v < 256 ^ Z.of_nat w -> from_be_bytes (be_bytes w v) = v)
    by (intros; rewrite from_be_bytes_be; by apply Z.mod_small).
  pose proof (Hbe 4%nat src ltac:(unfold U32_MAX in *; lia)) as Hsrc.
  pose proof (Hbe 4%nat dst ltac:(unfold U32_MAX in *; lia)) as Hdst.
  pose proof (Hbe 2%nat sport ltac:(unfold U16_MAX in *; lia)) as Hsport.
  pose proof (Hbe 2%nat dport ltac:(unfold U16_MAX in *; lia)) as Hdport.
  unfold ipv4_tcp_segment.
  pose proof (be_bytes_length 4 src). pose proof (be_bytes_length 4 dst).
  pose proof (be_bytes_length 2 sport). pose proof (be_bytes_length 2 dport).
  destruct (be_bytes 4 src) as [|s0 [|s1 [|s2 [|s3 [|]]]]]; try done.
  destruct (be_bytes 4 dst) as [|d0 [|d1 [|d2 [|d3 [|]]]]]; try done.
  destruct (be_bytes 2 sport) as [|p0 [|p1 [|]]]; try done.
  destruct (be_bytes 2 dport) as [|q0 [|q1 [|]]]; try done.
  split; [reflexivity|split; reflexivity|reflexivity|split; reflexivity| | | |split; reflexivity].
  - by exists [s0; s1; s2; s3].
  - by exists [d0; d1; d2; d3].
  - rewrite <-Hsport, <-Hdport. split; reflexivity.
Qed.

(** SYN without FIN, RST and ACK. *)
Lemma initial_flags flags :
  0 <= flags < 256 ->
  (Z.land flags 0x17 =? 2)
  = Z.testbit flags 1 && negb (Z.testbit flags 0) && negb (Z.testbit flags 2)
    && negb (Z.testbit flags 4).
Proof.
  intros Hf.
  assert (Hall : forallb (fun n => let f := Z.of_nat n in
    Bool.eqb (Z.land f 0x17 =? 2) (Z.testbit f 1 && negb (Z.testbit f 0) && negb (Z.testbit f 2)
      && negb (Z.testbit f 4))) (seq 0 256) = true) by (vm_compute; reflexivity).
  rewrite forallb_forall in Hall. specialize (Hall (Z.to_nat flags)).
  cbv zeta in Hall. rewrite Z2Nat.id in Hall by lia. apply Bool.eqb_prop, Hall, in_seq. lia.
Qed.

Lemma tcp_reads_parse packet src dst sport dport flags direction :
  tcp_reads packet src dst sport dport flags -> sport <> 0 -> dport <> 0 ->
  PacketCapture_parse (mkCapture packet 40 0) direction
  = Ok (mkParsed (IpV4 src) (Some sport) (IpV4 dst) (Some dport) Tcp
          (Z.land flags 0x17 =? 2) 20 (Some flags) None).
Proof.
  intros [Hlen [G0 I0] I9 [U2 U6] (a & A12 & <-) (b & A16 & <-) [P20 P22] [I32 G33]] Hs Hd.
  unfold PacketCapture_parse, parse_ipv4_packet. cbn [cap_payload original_length].
  rewrite G0. cbn [ok_or mbind Result_bind]. change (Z.shiftr 69 4 =? 4) with true. cbv iota.
  rewrite Hlen, I0. cbn [Z.leb Z.compare Pos.compare Pos.compare_cont ensure mbind Result_bind].
  change (Z.land 69 15 * 4) with 20. rewrite U2, U6, A12, A16, I9.
  cbn [Z.leb Z.compare Pos.compare Pos.compare_cont andb orb ensure mbind Result_bind Z.eqb Pos.eqb].
  change (13 <=? trailing_zeros 16 16384) with true. cbn [ensure mbind Result_bind].
  unfold finish_transport, transport_tuple, parse_transport_ports.
  cbn [Z.eqb Pos.eqb orb]. change (20 + 20) with 40. change (20 + 12) with 32.
  change (20 + 2) with 22. change (20 + 13) with 33.
  rewrite Hlen, I32, P20, P22, G33.
  cbn [Z.leb Z.compare Pos.compare Pos.compare_cont ensure mbind Result_bind].
  change (Z.shiftr 80 4 * 4) with 20. change (20 + 20) with 40.
  cbn [Z.leb Z.compare Pos.compare Pos.compare_cont andb ensure mbind Result_bind].
  by rewrite (proj2 (Z.eqb_neq sport 0)), (proj2 (Z.eqb_neq dport 0)).
Qed.

(** A TCP segment over IPv4 is read back exactly: addresses, ports and
    flags, and it counts as the first packet of a connection exactly when SYN
    is set and none of FIN, RST and ACK is. *)
Theorem tcp_segments_round_trip src dst sport dport flags direction :
  0 <= src <= U32_MAX -> 0 <= dst <= U32_MAX ->
  0 < sport <= U16_MAX -> 0 < dport <= U16_MAX -> 0 <= flags < 256 ->
  PacketCapture_parse (mkCapture (ipv4_tcp_segment src dst sport dport flags) 40 0) direction
  = Ok (mkParsed (IpV4 src) (Some sport) (IpV4 dst) (Some dport) Tcp
          (Z.testbit flags 1 && negb (Z.testbit flags 0) && negb (Z.testbit flags 2)
           && negb (Z.testbit flags 4)) 20 (Some flags) None).
Proof.
  intros Hs Hd Hsp Hdp Hf. rewrite <-initial_flags by done.
  apply tcp_reads_parse; [apply ipv4_tcp_segment_reads; lia|lia..].
Qed.

(** ** Witnesses *)

Lemma tcp_segments_round_trip_witness :
  PacketCapture_parse (mkCapture (ipv4_tcp_segment 3232235777 134744072 40000 443 2) 40 0)
    PacketOutbound
  = Ok (mkParsed (IpV4 3232235777) (Some 40000) (IpV4 134744072) (Some 443) Tcp true 20
          (Some 2) None).
Proof.
  apply (tcp_segments_round_trip 3232235777 134744072 40000 443 2 PacketOutbound);
    unfold U32_MAX, U16_MAX; lia.
Defined.

Definition sample_interfaces (i : Z) : option (option ustring) :=
  if i =? 2 then Some (Some (lit "eth0")) else None.

(** A packet message with its header, interface, user and payload. *)
Definition sample_datagram : Bytes :=
  match @build_message x86_64 (queue_message_type NFQNL_MSG_PACKET) 0 0 2 1337
    [(NFQA_PACKET_HDR, [0; 0; 0; 7; 8; 0; 3]); (NFQA_IFINDEX_OUTDEV, be_bytes 4 2);
     (NFQA_UID, be_bytes 4 1000);
     (NFQA_PAYLOAD, ipv4_tcp_segment 3232235777 134744072 40000 443 2)] with
  | Ok bytes => bytes
  | Err _ => []
  end.

Lemma bytes_forallb bs : forallb (fun b => (0 <=? b) && (b <? 256)) bs = true -> Forall is_byte bs.
Proof.
  rewrite forallb_forall. intros Hb. apply Forall_forall. intros b Hin%list_elem_of_In.
  apply Hb in Hin. unfold is_byte. lia.
Qed.

Lemma datagrams_cannot_panic_witness :
  exists w, batch_grows [] [w] /\ work_packet_id w = 7
  /\ is_ok (work_packet w) = true.
Proof.
  destruct (@append_packet_datagram x86_64 sample_interfaces sample_datagram []) as [batch r] eqn:E.
  destruct (@datagrams_cannot_panic x86_64 sample_interfaces sample_datagram [] batch r) as [_ Hg].
  - apply bytes_forallb. vm_compute. reflexivity.
  - exact E.
  - vm_compute in E. injection E as <- <-. eexists. split; [exact Hg|]. split; reflexivity.
Defined.

Lemma queued_packets_are_faithful_witness :
  exists q, @parse_queued_packet x86_64 sample_interfaces (drop 16 sample_datagram) = Ok q
  /\ OutboundConnection_validate (connection q) = Ok tt.
Proof.
  destruct (@parse_queued_packet x86_64 sample_interfaces (drop 16 sample_datagram)) as [q|] eqn:E;
    [|by vm_compute in E].
  destruct (@queued_packets_are_faithful x86_64 sample_interfaces (drop 16 sample_datagram) q)
    as (? & ? & ? & ? & ? & ? & ? & ? & ? & ? & ? & ? & ? & ? & ? & Hv).
  - apply bytes_forallb. vm_compute. reflexivity.
  - exact E.
  - exists q. by split.
Defined.
