(* ===== verification/Scheduler.v ===== *)
(** * Fair scheduling of pending packets

    [nfqueue_scheduler.rs]: packets that wait for attribution, grouped by
    socket user and then by flow.  Users rotate first, then their flows, with
    a quantum per turn, until an attribution batch is full. *)

From S2P Require Import Prelude Text Net Model Netlink Decision Packet.
Local Open Scope Z_scope.

Abbreviation MAX_PENDING_PACKETS := 128 (only parsing).
Abbreviation FLOW_QUANTUM := 4 (only parsing).

Record PendingPacket : Type := mkPending {
  work : QueuedPacketWork;
  received : Z
}.

Inductive UserKey : Type :=
| SocketUid (uid : Z)
| UnparsedUser.

Inductive FlowKey : Type :=
| Network (protocol : TransportProtocol) (source destination : IpAddr)
    (source_port destination_port : option Z)
| UnparsedFlow (packet_id : Z).

#[export] Instance UserKey_eq_dec : EqDecision UserKey.
Proof. solve_decision. Defined.
#[export] Instance FlowKey_eq_dec : EqDecision FlowKey.
Proof. solve_decision. Defined.

(** [FlowKey::for_packet]. *)
Definition for_packet (work : QueuedPacketWork) : UserKey * FlowKey :=
  match work.(work_packet) with
  | Err _ => (UnparsedUser, UnparsedFlow work.(work_packet_id))
  | Ok packet =>
      let c := packet.(connection) in
      (SocketUid c.(socket_uid),
       Network c.(conn_protocol) c.(source_address) c.(destination_address) c.(source_port)
         c.(destination_port))
  end.

Record FlowQueue : Type := mkFlowQueue {
  flow_key : FlowKey;
  packets : list PendingPacket
}.
Record UserQueue : Type := mkUserQueue {
  user_key : UserKey;
  flows : list FlowQueue
}.
Record FairQueue : Type := mkFairQueue {
  users : list UserQueue;
  pending : Z
}.

Definition FairQueue_default : FairQueue := mkFairQueue [] 0.
Definition FairQueue_len (self : FairQueue) : Z := self.(pending).

(** ** Insertion *)

(** Push to the first flow with the key, or append a new flow. *)
Fixpoint push_flow (flows : list FlowQueue) (key : FlowKey) (packet : PendingPacket)
    : list FlowQueue :=
  match flows with
  | [] => [mkFlowQueue key [packet]]
  | flow :: rest =>
      if flow.(flow_key) ==? key then mkFlowQueue flow.(flow_key) (flow.(packets) ++ [packet]) :: rest
      else flow :: push_flow rest key packet
  end.

Fixpoint push_user (users : list UserQueue) (user : UserKey) (key : FlowKey)
    (packet : PendingPacket) : list UserQueue :=
  match users with
  | [] => [mkUserQueue user [mkFlowQueue key [packet]]]
  | u :: rest =>
      if u.(user_key) ==? user then
        mkUserQueue u.(user_key) (push_flow u.(flows) key packet) :: rest
      else u :: push_user rest user key packet
  end.

Inductive SchedulerError : Type := SchedulerFull.

Definition push (packet : PendingPacket) : ST FairQueue SchedulerError unit :=
  self ← get;
  lift (ensure (self.(pending) <? MAX_PENDING_PACKETS) SchedulerFull) ;;
  let '(user_key, flow_key) := for_packet packet.(work) in
  modify (fun self =>
    mkFairQueue (push_user self.(users) user_key flow_key packet) (self.(pending) + 1)).

(** ** Taking a batch *)

Definition if_nonempty {A B} (xs : list A) (b : B) : list B :=
  match xs with [] => [] | _ => [b] end.

(** One turn: the first user's first flow gives up to a quantum; what is left
    of the flow and of the user goes to the back. *)
Definition turn (self : FairQueue) (user : UserQueue) (rest : list UserQueue)
    (batch : list PendingPacket) : FairQueue * list PendingPacket :=
  match user.(flows) with
  | [] => (mkFairQueue rest self.(pending), batch)
  | flow :: others =>
      let quantum := Z.to_nat (Z.min FLOW_QUANTUM (MAX_PACKET_BATCH_SIZE - zlen batch)) in
      let taken := take quantum flow.(packets) in
      let left := drop quantum flow.(packets) in
      let flows := others ++ if_nonempty left (mkFlowQueue flow.(flow_key) left) in
      (mkFairQueue (rest ++ if_nonempty flows (mkUserQueue user.(user_key) flows))
         (self.(pending) - zlen taken),
       batch ++ taken)
  end.

Fixpoint take_loop (fuel : nat) (self : FairQueue) (batch : list PendingPacket)
    : FairQueue * list PendingPacket :=
  match fuel with
  | O => (self, batch)
  | S fuel =>
      if negb (zlen batch <? MAX_PACKET_BATCH_SIZE) then (self, batch)
      else match self.(users) with
           | [] => (self, batch)
           | user :: rest =>
               let '(self, batch) := turn self user rest batch in take_loop fuel self batch
           end
  end.

(** A turn takes at least one packet, so a batch needs at most as many turns
    as it has slots. *)
Definition take_batch (self : FairQueue) : FairQueue * list PendingPacket :=
  take_loop (Z.to_nat MAX_PACKET_BATCH_SIZE) self [].

(** ** The invariant *)

Definition key_of (p : PendingPacket) : UserKey * FlowKey := for_packet p.(work).

Definition flow_packets (fs : list FlowQueue) : list PendingPacket := concat (packets <$> fs).
Definition user_packets (us : list UserQueue) : list PendingPacket :=
  concat ((fun u => flow_packets u.(flows)) <$> us).
Definition queue_packets (q : FairQueue) : list PendingPacket := user_packets q.(users).

Definition flow_ok (u : UserKey) (f : FlowQueue) : Prop :=
  packets f <> [] /\ Forall (fun p => key_of p = (u, flow_key f)) (packets f).
Definition user_ok (u : UserQueue) : Prop :=
  flows u <> [] /\ NoDup (flow_key <$> flows u) /\ Forall (flow_ok (user_key u)) (flows u).

Record queue_ok (q : FairQueue) : Prop := {
  ok_users : Forall user_ok (users q);
  ok_distinct : NoDup (user_key <$> users q);
  ok_pending : pending q = zlen (queue_packets q);
  ok_bound : pending q <= MAX_PENDING_PACKETS
}.

(** The packets of one flow of one user, in order. *)
Definition of_key (k : UserKey * FlowKey) (ps : list PendingPacket) : list PendingPacket :=
  List.filter (fun p => key_of p ==? k) ps.

(** ** Facts *)

Lemma of_key_app k a b : of_key k (a ++ b) = of_key k a ++ of_key k b.
Proof. apply List.filter_app. Qed.

Lemma of_key_none k ps : Forall (fun p => key_of p <> k) ps -> of_key k ps = [].
Proof.
  induction 1 as [|p ps Hp _ IH]; [done|]. unfold of_key. cbn [List.filter].
  rewrite (proj2 (eqb_false _ _) Hp). exact IH.
Qed.

Lemma flow_packets_app a b : flow_packets (a ++ b) = flow_packets a ++ flow_packets b.
Proof. unfold flow_packets. by rewrite fmap_app, concat_app. Qed.

Lemma flow_packets_cons f fs : flow_packets (f :: fs) = packets f ++ flow_packets fs.
Proof. done. Qed.

Lemma user_packets_cons u us : user_packets (u :: us) = flow_packets (flows u) ++ user_packets us.
Proof. done. Qed.

Lemma user_packets_app a b : user_packets (a ++ b) = user_packets a ++ user_packets b.
Proof. unfold user_packets. by rewrite fmap_app, concat_app. Qed.

Lemma flow_packets_left key left :
  flow_packets (if_nonempty left (mkFlowQueue key left)) = left.
Proof. destruct left; [done|]. unfold flow_packets. simpl. by rewrite app_nil_r. Qed.

Lemma user_packets_left key fs :
  user_packets (if_nonempty fs (mkUserQueue key fs)) = flow_packets fs.
Proof. destruct fs; [done|]. unfold user_packets. simpl. by rewrite app_nil_r. Qed.

(** Keys of the packets of some flows of one user, and of some users. *)
Lemma flow_packets_keys u fs p :
  Forall (flow_ok u) fs -> p ∈ flow_packets fs ->
  exists fk, fk ∈ flow_key <$> fs /\ key_of p = (u, fk).
Proof.
  intros Hf (ps & Hp & Hps)%list_elem_of_In%in_concat.
  apply list_elem_of_In, list_elem_of_fmap in Hp as (f & -> & Hin).
  rewrite Forall_forall in Hf. destruct (Hf f Hin) as [_ Hk]. rewrite Forall_forall in Hk.
  exists (flow_key f). split; [by apply list_elem_of_fmap_2|].
  by apply Hk, list_elem_of_In.
Qed.

Lemma user_packets_keys us p :
  Forall user_ok us -> p ∈ user_packets us -> (key_of p).1 ∈ user_key <$> us.
Proof.
  intros Hu (ps & Hp & Hps)%list_elem_of_In%in_concat.
  apply list_elem_of_In, list_elem_of_fmap in Hp as (u & -> & Hin).
  rewrite Forall_forall in Hu. destruct (Hu u Hin) as (_ & _ & Hf).
  apply list_elem_of_In in Hps. destruct (flow_packets_keys _ _ _ Hf Hps) as (fk & _ & ->).
  cbn [fst]. by apply list_elem_of_fmap_2.
Qed.

Lemma rotation_keeps_order u fk P O R T L k :
  Forall (fun p => key_of p = (u, fk)) P ->
  (forall p, p ∈ O -> exists fk', fk' <> fk /\ key_of p = (u, fk')) ->
  (forall p, p ∈ R -> (key_of p).1 <> u) ->
  P = T ++ L ->
  of_key k (T ++ R ++ O ++ L) = of_key k (P ++ O ++ R).
Proof.
  intros HP HO HR ->. rewrite <-!app_assoc, !(of_key_app k T). f_equal.
  rewrite !of_key_app. apply Forall_app in HP as [_ HL].
  destruct (decide (k.1 = u)) as [Hu|Hu].
  - rewrite (of_key_none k R), app_nil_r, app_nil_l.
    2: { apply Forall_forall. intros p Hp E. apply (HR p Hp). by rewrite E. }
    destruct (decide (k.2 = fk)) as [Hk|Hk].
    + rewrite (of_key_none k O), app_nil_r; [done|]. apply Forall_forall. intros p Hp E.
      destruct (HO p Hp) as (fk' & Hne & E'). destruct k; simpl in *. congruence.
    + rewrite (of_key_none k L), app_nil_r; [done|].
      eapply Forall_impl; [exact HL|]. intros p E E'. destruct k; simpl in *. congruence.
  - rewrite (of_key_none k O), (of_key_none k L), app_nil_r; [done| |].
    + eapply Forall_impl; [exact HL|]. intros p E E'. destruct k; simpl in *. congruence.
    + apply Forall_forall. intros p Hp E. destruct (HO p Hp) as (fk' & _ & E').
      destruct k; simpl in *. congruence.
Qed.

(** Everything one turn does. *)
Record turn_ok (q : FairQueue) (user : UserQueue) (rest : list UserQueue)
    (batch : list PendingPacket) (q' : FairQueue) (batch' : list PendingPacket) : Prop := {
  turn_users : Forall user_ok (users q');
  turn_distinct : NoDup (user_key <$> users q');
  turn_order : forall k, of_key k (batch' ++ queue_packets q') = of_key k (batch ++ queue_packets q);
  turn_pending : pending q' + zlen batch' = pending q + zlen batch;
  turn_total : zlen batch' + zlen (queue_packets q') = zlen batch + zlen (queue_packets q);
  turn_rotates : exists back, users q' = rest ++ back;
  turn_serves : exists p taken, batch' = batch ++ p :: taken /\ (key_of p).1 = user_key user
    /\ zlen (p :: taken) <= FLOW_QUANTUM;
  turn_bound : zlen batch' <= MAX_PACKET_BATCH_SIZE
}.

Section Turn.
Context (q : FairQueue) (user : UserQueue) (rest : list UserQueue) (batch : list PendingPacket).
Context (Hq : users q = user :: rest) (Husers : Forall user_ok (users q))
  (Hdistinct : NoDup (user_key <$> users q)) (Hroom : zlen batch < MAX_PACKET_BATCH_SIZE).

Lemma left_ok u key ps n :
  flow_ok u (mkFlowQueue key ps) ->
  Forall (flow_ok u) (if_nonempty (drop n ps) (mkFlowQueue key (drop n ps))).
Proof.
  intros [_ Hk]. destruct (drop n ps) as [|x l] eqn:E; [constructor|]. cbn [if_nonempty].
  constructor; [|constructor]. split; [done|]. rewrite <-E. by apply Forall_drop.
Qed.

Lemma if_nonempty_keys {A B C} (xs : list A) (b : B) (f : B -> C) c :
  c ∈ f <$> if_nonempty xs b -> c = f b.
Proof. destruct xs; simpl; [by intros ?%elem_of_nil|]. by rewrite list_elem_of_singleton. Qed.

Lemma NoDup_rotate {A B C} (xs : list C) (f : B -> A) (key : A) (others : list B) (b : B) :
  f b = key -> NoDup (key :: (f <$> others)) -> NoDup (f <$> others ++ if_nonempty xs b).
Proof.
  intros Hb [Hk Hnd]%NoDup_cons. rewrite fmap_app, NoDup_app. split_and!; [done| |].
  - intros x Hx ->%if_nonempty_keys. by rewrite Hb in Hx.
  - destruct xs; simpl; [constructor|apply NoDup_singleton].
Qed.

Lemma turn_spec : let '(q', batch') := turn q user rest batch in
  turn_ok q user rest batch q' batch'.
Proof.
  rewrite Hq in Husers, Hdistinct. apply Forall_cons in Husers as [(Hne & Hnd & Hfs) Hrest].
  unfold turn. destruct user as [uk [|[fk ps] others]]; [done|]. cbn [flows packets flow_key user_key] in *.
  apply Forall_cons in Hfs as [Hflow Hothers]. pose proof Hflow as [Hps Hkeys].
  cbn [packets flow_key] in *.
  set (n := Z.to_nat (Z.min FLOW_QUANTUM (MAX_PACKET_BATCH_SIZE - zlen batch))).
  assert (Hn : (0 < n)%nat /\ Z.of_nat n <= FLOW_QUANTUM
    /\ Z.of_nat n <= MAX_PACKET_BATCH_SIZE - zlen batch).
  { unfold n in *. lia. }
  set (fs := others ++ if_nonempty (drop n ps) (mkFlowQueue fk (drop n ps))).
  assert (Hfs : Forall (flow_ok uk) fs) by (apply Forall_app; split; [done|by apply left_ok]).
  assert (Hfsp : flow_packets fs = flow_packets others ++ drop n ps).
  { unfold fs. by rewrite flow_packets_app, flow_packets_left. }
  assert (Hbefore : queue_packets q = ps ++ flow_packets others ++ user_packets rest).
  { unfold queue_packets. rewrite Hq. unfold user_packets, flow_packets. simpl.
    by rewrite <-app_assoc. }
  assert (Hafter : user_packets (rest ++ if_nonempty fs (mkUserQueue uk fs))
    = user_packets rest ++ flow_packets others ++ drop n ps).
  { by rewrite user_packets_app, user_packets_left, Hfsp. }
  assert (Htaken : zlen (take n ps) <= Z.of_nat n) by (unfold zlen; rewrite length_take; lia).
  split; cbn [users pending]; unfold queue_packets in *; cbn [users].
  - apply Forall_app. split; [done|]. destruct fs as [|f l] eqn:Ef; [constructor|].
    cbn [if_nonempty]. constructor; [|constructor]. rewrite <-Ef in *. split; [by rewrite Ef|].
    split; [|done]. by apply (NoDup_rotate _ flow_key fk).
  - by apply (NoDup_rotate _ user_key uk).
  - intros k. rewrite Hafter, Hbefore, <-app_assoc, !(of_key_app k batch). f_equal.
    apply (rotation_keeps_order uk fk); [done| | |by rewrite take_drop].
    + intros p Hp. destruct (flow_packets_keys _ _ _ Hothers Hp) as (fk' & Hin & E).
      exists fk'. split; [|done]. intros ->. by apply NoDup_cons in Hnd as [? _].
    + intros p Hp E. apply user_packets_keys in Hp; [|done]. rewrite E in Hp.
      by apply NoDup_cons in Hdistinct as [? _].
  - rewrite zlen_app. lia.
  - rewrite Hafter, Hbefore, !zlen_app. rewrite <-(take_drop n ps) at 3. rewrite zlen_app. lia.
  - by eexists.
  - destruct ps as [|p ps]; [done|]. destruct n as [|n]; [lia|]. cbn [take] in *.
    exists p, (take n ps). split_and!; [done| |lia].
    apply Forall_cons in Hkeys as [-> _]. done.
  - rewrite zlen_app. lia.
Qed.
End Turn.

Record loop_ok (q : FairQueue) (batch : list PendingPacket) (q' : FairQueue)
    (batch' : list PendingPacket) : Prop := {
  loop_users : Forall user_ok (users q');
  loop_distinct : NoDup (user_key <$> users q');
  loop_order : forall k, of_key k (batch' ++ queue_packets q') = of_key k (batch ++ queue_packets q);
  loop_pending : pending q' + zlen batch' = pending q + zlen batch;
  loop_total : zlen batch' + zlen (queue_packets q') = zlen batch + zlen (queue_packets q);
  loop_full : zlen batch' = MAX_PACKET_BATCH_SIZE \/ users q' = [];
  loop_bound : zlen batch' <= MAX_PACKET_BATCH_SIZE;
  loop_keeps : exists more, batch' = batch ++ more;
  loop_serves : forall n u, users q !! n = Some u ->
    (exists p, p ∈ batch' /\ (key_of p).1 = user_key u)
    \/ exists n', users q' !! n' = Some u
       /\ MAX_PACKET_BATCH_SIZE - zlen batch <= FLOW_QUANTUM * (Z.of_nat n - Z.of_nat n')
}.

Lemma take_loop_spec fuel : forall q batch,
  Forall user_ok (users q) -> NoDup (user_key <$> users q) ->
  zlen batch <= MAX_PACKET_BATCH_SIZE ->
  MAX_PACKET_BATCH_SIZE - zlen batch <= Z.of_nat fuel ->
  let '(q', batch') := take_loop fuel q batch in loop_ok q batch q' batch'.
Proof.
  assert (Hstop : forall q batch, Forall user_ok (users q) -> NoDup (user_key <$> users q) ->
    zlen batch <= MAX_PACKET_BATCH_SIZE ->
    zlen batch = MAX_PACKET_BATCH_SIZE \/ users q = [] -> loop_ok q batch q batch).
  { intros q batch Hu Hd Hb Hend. split; try done; [exists []; by rewrite app_nil_r|].
    intros n u Hn. right. exists n. split; [done|].
    destruct Hend as [->|E]; [lia|]. rewrite E in Hn. by destruct n. }
  induction fuel as [|fuel IH]; intros q batch Hu Hd Hb Hf; cbn [take_loop].
  { apply Hstop; try done. left. lia. }
  destruct (Z.ltb_spec (zlen batch) MAX_PACKET_BATCH_SIZE) as [Hlt|]; cbn [negb];
    [|apply Hstop; try done; left; lia].
  destruct (users q) as [|user rest] eqn:Eq; [by apply Hstop; rewrite ?Eq; auto|].
  pose proof (turn_spec q user rest batch Eq) as Ht. rewrite Eq in Ht. specialize (Ht Hu Hd Hlt).
  destruct (turn q user rest batch) as [q1 b1]. destruct Ht as [Tu Td To Tp Tt [back Tr] (p & tk & Tb & Tk & Tq) Tl].
  assert (Hlen : zlen b1 = zlen batch + zlen (p :: tk)) by (by rewrite Tb, zlen_app).
  assert (Hpos : 1 <= zlen (p :: tk)) by (unfold zlen; simpl; lia).
  specialize (IH q1 b1 Tu Td Tl ltac:(lia)). destruct (take_loop fuel q1 b1) as [q2 b2].
  destruct IH as [Lu Ld Lo Lp Lt Lf Ll [more Lk] Ls].
  split; try done; try lia.
  - intros k. by rewrite Lo, To.
  - exists (p :: tk ++ more). by rewrite Lk, Tb, <-app_assoc.
  - intros [|n] u Hn; rewrite Eq in Hn; cbn in Hn.
    + injection Hn as <-. left. exists p. split; [|done]. rewrite Lk, Tb.
      rewrite !elem_of_app, elem_of_cons. auto.
    + destruct (Ls n u) as [?|(n' & Hn' & Hle)]; [|by left|].
      * rewrite Tr. by apply lookup_app_l_Some.
      * right. exists n'. split; [done|]. lia.
Qed.

(** *** Insertion *)

Lemma of_key_single_move k p R :
  (forall r, r ∈ R -> key_of r <> key_of p) -> of_key k (p :: R) = of_key k (R ++ [p]).
Proof.
  intros HR. rewrite of_key_app. change (p :: R) with ([p] ++ R). rewrite of_key_app.
  destruct (decide (key_of p = k)) as [Hk|Hk].
  - rewrite (of_key_none k R), app_nil_r; [done|]. apply Forall_forall. intros r Hr E.
    apply (HR r Hr). congruence.
  - rewrite (of_key_none k [p]), app_nil_r; [done|]. by constructor; [|constructor].
Qed.

Lemma push_flow_spec u key p fs :
  key_of p = (u, key) -> NoDup (flow_key <$> fs) -> Forall (flow_ok u) fs ->
  NoDup (flow_key <$> push_flow fs key p) /\ Forall (flow_ok u) (push_flow fs key p)
  /\ (forall k, k ∈ flow_key <$> push_flow fs key p -> k = key \/ k ∈ flow_key <$> fs)
  /\ push_flow fs key p <> []
  /\ zlen (flow_packets (push_flow fs key p)) = zlen (flow_packets fs) + 1
  /\ forall k, of_key k (flow_packets (push_flow fs key p)) = of_key k (flow_packets fs ++ [p]).
Proof.
  intros Hp. induction fs as [|[fk ps] fs IH]; intros Hnd Hok; cbn [push_flow flow_key packets].
  - split_and!; try done.
    + apply NoDup_singleton.
    + repeat constructor; done.
    + intros k. simpl. rewrite list_elem_of_singleton. auto.
  - apply NoDup_cons in Hnd as [Hfk Hnd]. apply Forall_cons in Hok as [[Hne Hkeys] Hok].
    cbn [flow_key packets] in *. destruct (decide (fk = key)) as [->|Hk].
    + rewrite eqb_refl. split_and!; try done.
      * rewrite fmap_cons. by constructor.
      * constructor; [|done]. split; [by destruct ps|]. apply Forall_app. auto.
      * intros k. rewrite fmap_cons. set_solver.
      * rewrite !flow_packets_cons, !zlen_app. cbn [packets]. rewrite zlen_app. change (zlen [p]) with 1. lia.
      * intros k. rewrite !flow_packets_cons. cbn [packets]. rewrite <-!app_assoc, !(of_key_app k ps). f_equal.
        apply of_key_single_move. intros r Hr E.
        destruct (flow_packets_keys u fs r Hok Hr) as (fk' & Hin & E').
        assert (fk' = key) as -> by congruence. done.
    + rewrite (proj2 (eqb_false fk key) Hk). destruct IH as (I1 & I2 & I3 & _ & I4 & I5); [done..|].
      split_and!; try done.
      * rewrite fmap_cons. constructor; [|done]. intros [E|?]%I3; [by simpl in E|done].
      * by constructor.
      * intros k. rewrite !fmap_cons, !elem_of_cons. intros [->|?%I3]; tauto.
      * rewrite !flow_packets_cons, !zlen_app, I4. cbn [packets]. lia.
      * intros k. rewrite !flow_packets_cons, <-app_assoc. cbn [packets]. rewrite !(of_key_app k ps). by rewrite I5.
Qed.

Lemma push_user_spec u key p us :
  key_of p = (u, key) -> NoDup (user_key <$> us) -> Forall user_ok us ->
  NoDup (user_key <$> push_user us u key p) /\ Forall user_ok (push_user us u key p)
  /\ (forall k, k ∈ user_key <$> push_user us u key p -> k = u \/ k ∈ user_key <$> us)
  /\ zlen (user_packets (push_user us u key p)) = zlen (user_packets us) + 1
  /\ (forall k, of_key k (user_packets (push_user us u key p)) = of_key k (user_packets us ++ [p]))
  /\ forall n x, us !! n = Some x ->
     exists x', push_user us u key p !! n = Some x' /\ user_key x' = user_key x.
Proof.
  intros Hp. induction us as [|[uk fs] us IH]; intros Hnd Hok; cbn [push_user user_key flows].
  - split_and!; try done.
    + apply NoDup_singleton.
    + constructor; [|constructor]. split; [done|]. split; [apply NoDup_singleton|].
      by repeat constructor.
    + intros k. simpl. rewrite list_elem_of_singleton. auto.
  - apply NoDup_cons in Hnd as [Huk Hnd]. apply Forall_cons in Hok as [(Hne & Hfnd & Hfok) Hok].
    cbn [user_key flows] in *. destruct (decide (uk = u)) as [->|Hk].
    + rewrite eqb_refl. destruct (push_flow_spec u key p fs Hp Hfnd Hfok) as (P1 & P2 & _ & P3 & P4 & P5).
      split_and!.
      * rewrite fmap_cons. by constructor.
      * by constructor.
      * intros k. rewrite fmap_cons. set_solver.
      * rewrite !user_packets_cons, !zlen_app. cbn [flows]. rewrite P4. lia.
      * intros k. rewrite !user_packets_cons. cbn [flows]. rewrite of_key_app, P5, <-of_key_app.
        rewrite <-!app_assoc, !(of_key_app k (flow_packets fs)). f_equal.
        apply of_key_single_move. intros r Hr E. apply user_packets_keys in Hr; [|done].
        by rewrite E, Hp in Hr.
      * intros [|n] x Hx; simpl in *; [injection Hx as <-; eauto|eauto].
    + rewrite (proj2 (eqb_false uk u) Hk). destruct IH as (I1 & I2 & I3 & I4 & I5 & I6); [done..|].
      split_and!.
      * rewrite fmap_cons. constructor; [|done]. intros [E|?]%I3; [by simpl in E|done].
      * by constructor.
      * intros k. rewrite !fmap_cons, !elem_of_cons. intros [->|?%I3]; tauto.
      * rewrite !user_packets_cons, !zlen_app, I4. cbn [flows]. lia.
      * intros k. rewrite !user_packets_cons, <-app_assoc. cbn [flows]. rewrite !(of_key_app k (flow_packets fs)).
        by rewrite I5.
      * intros [|n] x Hx; simpl in *; [injection Hx as <-; eauto|eauto].
Qed.

Lemma take_loop_more fuel : forall fuel' q batch q' batch',
  (fuel <= fuel')%nat -> take_loop fuel q batch = (q', batch') ->
  zlen batch' = MAX_PACKET_BATCH_SIZE \/ users q' = [] -> take_loop fuel' q batch = (q', batch').
Proof.
  induction fuel as [|fuel IH]; intros fuel' q batch q' batch' Hle.
  - intros [= <- <-] Hend. destruct fuel' as [|fuel']; [done|]. cbn [take_loop].
    destruct Hend as [->|E]; [by rewrite Z.ltb_irrefl|]. by rewrite E; case_match.
  - destruct fuel' as [|fuel']; [lia|]. cbn [take_loop].
    destruct (negb _); [done|]. destruct (users q) as [|user rest]; [done|].
    destruct (turn q user rest batch) as [q1 b1]. apply IH. lia.
Qed.

Lemma take_batch_loop q :
  queue_ok q -> let '(q', batch) := take_batch q in loop_ok q [] q' batch.
Proof.
  intros [Hu Hd _ _]. apply take_loop_spec; [done..| |].
  - by vm_compute.
  - change (zlen []) with 0. lia.
Qed.

(** Insertion keeps the queue consistent and is fair to what waits: the
    packet goes behind the packets of its own user and flow and in front of
    nobody; users keep their place in the rotation; the count of pending packets
    is exact and bounded; and a full queue refuses the packet unchanged. *)
Theorem push_appends_to_its_flow p q q' r :
  queue_ok q -> push p q = (q', r) ->
  queue_ok q'
  /\ match r with
     | Err _ => q' = q /\ pending q = MAX_PENDING_PACKETS
     | Ok _ =>
         (forall k, of_key k (queue_packets q') = of_key k (queue_packets q ++ [p]))
         /\ FairQueue_len q' = FairQueue_len q + 1
         /\ forall n u, users q !! n = Some u ->
            exists u', users q' !! n = Some u' /\ user_key u' = user_key u
     end.
Proof.
  intros Hok Hp. pose proof Hok as [Hu Hd Hc Hb]. unfold push in Hp. rewrite run_get, run_lift in Hp.
  destruct (Z.ltb_spec (pending q) MAX_PENDING_PACKETS) as [Hlt|Hge]; cbn [ensure] in Hp.
  2: { injection Hp as <- <-. split; [done|]. split; [done|lia]. }
  destruct (for_packet (work p)) as [u key] eqn:Hk. injection Hp as <- <-.
  destruct (push_user_spec u key p (users q) Hk Hd Hu) as (P1 & P2 & _ & P3 & P4 & P5).
  split; [|done]. split; cbn [users pending]; [done|done| |lia].
  unfold queue_packets in *. simpl. lia.
Qed.

(** A batch loses nothing and keeps every flow in order: taking a batch
    from a consistent queue returns as many packets as there are or fit, the
    packets of each flow come out in the order they went in, nothing is
    duplicated or dropped, and the queue stays consistent.  The bound on the
    number of turns is never what ends the loop. *)
Theorem batches_preserve_flows q :
  queue_ok q ->
  let '(q', batch) := take_batch q in
  queue_ok q'
  /\ zlen batch = Z.min (FairQueue_len q) MAX_PACKET_BATCH_SIZE
  /\ FairQueue_len q' = FairQueue_len q - zlen batch
  /\ (forall k, of_key k batch ++ of_key k (queue_packets q') = of_key k (queue_packets q))
  /\ forall fuel, (Z.to_nat MAX_PACKET_BATCH_SIZE <= fuel)%nat -> take_loop fuel q [] = (q', batch).
Proof.
  intros Hok. pose proof (take_batch_loop q Hok) as Hl.
  destruct (take_batch q) as [q' batch] eqn:Et.
  destruct Hok as [_ _ Hc Hb], Hl as [Lu Ld Lo Lp Lt Lf Ll _ _].
  change (zlen (A := PendingPacket) []) with 0 in *. unfold FairQueue_len.
  pose proof (zlen_nonneg batch). pose proof (zlen_nonneg (queue_packets q')). split_and!.
  - split; [done|done|lia|lia].
  - destruct Lf as [?|E]; [lia|].
    assert (zlen (queue_packets q') = 0) by (unfold queue_packets; by rewrite E). lia.
  - lia.
  - intros k. rewrite <-of_key_app. apply Lo.
  - intros fuel Hf. apply (take_loop_more (Z.to_nat MAX_PACKET_BATCH_SIZE)); [done|done|].
    destruct Lf as [->|E]; [by left|by right].
Qed.

(** C37: No user is starved: in every batch a waiting user is either served or
    moves up by at least as many places in the rotation as there are whole
    quanta in a batch (eight), however many packets and flows the users in
    front of it have.  In particular the first eight users of the rotation are
    served by every batch. *)
Theorem waiting_users_are_served q n u :
  queue_ok q -> users q !! n = Some u ->
  let '(q', batch) := take_batch q in
  (exists p, p ∈ batch /\ (key_of p).1 = user_key u)
  \/ exists n', users q' !! n' = Some u
     /\ Z.of_nat n' + MAX_PACKET_BATCH_SIZE / FLOW_QUANTUM <= Z.of_nat n.
Proof.
  intros Hok Hn. pose proof (take_batch_loop q Hok) as Hl.
  destruct (take_batch q) as [q' batch].
  destruct (loop_serves _ _ _ _ Hl n u Hn) as [?|(n' & Hn' & Hle)]; [by left|].
  right. exists n'. split; [done|]. change (zlen []) with 0 in Hle.
  change (MAX_PACKET_BATCH_SIZE / FLOW_QUANTUM) with 8.
  lia.
Qed.

(** ** Witnesses *)

(** A flood of one user in front of one packet of another. *)
Definition sample_packet (uid id : Z) : PendingPacket :=
  mkPending (mkWork id (Ok (mkQueuedPacket
    (mkOutboundConnection (IpV4 1) (Some id) (IpV4 2) (Some 443) Tcp
       (mkInterfaceName (lit "eth0")) uid) 0 true))) 0.
Fixpoint push_all (ps : list PendingPacket) (q : FairQueue) : FairQueue :=
  match ps with [] => q | p :: ps => push_all ps (push p q).1 end.
Definition sample_queue : FairQueue :=
  push_all (((fun n => sample_packet 1 (Z.of_nat n)) <$> seq 1 40) ++ [sample_packet 2 99])
    FairQueue_default.

Lemma push_all_ok ps : forall q, queue_ok q -> queue_ok (push_all ps q).
Proof.
  induction ps as [|p ps IH]; intros q Hq; [done|]. cbn [push_all].
  apply IH. unfold push. rewrite run_get, run_lift.
  pose proof Hq as [Hu Hd Hc Hb].
  destruct (Z.ltb_spec (pending q) MAX_PENDING_PACKETS); cbn [ensure]; [|done].
  destruct (for_packet (work p)) as [u key] eqn:Hk. cbn [modify fst].
  destruct (push_user_spec u key p (users q) Hk Hd Hu) as (P1 & P2 & _ & P3 & _).
  split; cbn [users pending]; [done|done| |lia]. unfold queue_packets in *. simpl. lia.
Qed.

Lemma sample_queue_ok : queue_ok sample_queue.
Proof. apply push_all_ok. split; [constructor|constructor|done|done]. Qed.

Lemma push_appends_to_its_flow_witness :
  queue_ok (push (sample_packet 2 100) sample_queue).1.
Proof.
  destruct (push (sample_packet 2 100) sample_queue) as [q' r] eqn:E.
  apply (push_appends_to_its_flow (sample_packet 2 100) sample_queue q' r sample_queue_ok E).
Defined.

Lemma batches_preserve_flows_witness : zlen (take_batch sample_queue).2 = 32.
Proof.
  pose proof (batches_preserve_flows sample_queue sample_queue_ok) as Hb.
  destruct (take_batch sample_queue) as [q' batch]. destruct Hb as (_ & Hl & _).
  cbn [snd]. rewrite Hl. vm_compute. reflexivity.
Defined.

Lemma waiting_users_are_served_witness :
  exists p, p ∈ (take_batch sample_queue).2 /\ (key_of p).1 = SocketUid 2.
Proof.
  assert (Hu : exists u, users sample_queue !! 1%nat = Some u /\ user_key u = SocketUid 2)
    by (eexists; split; vm_compute; reflexivity).
  destruct Hu as (u & Hu & Hk).
  pose proof (waiting_users_are_served sample_queue 1 u sample_queue_ok Hu) as Hs.
  destruct (take_batch sample_queue) as [q' batch]. rewrite Hk in Hs.
  destruct Hs as [?|(n' & _ & Hle)]; [done|].
  change (MAX_PACKET_BATCH_SIZE / FLOW_QUANTUM) with 8 in Hle. lia.
Defined.
