(* ===== verification/Progress.v ===== *)
(** * Verdict progress of the OUTPUT queue

    [nfqueue_progress.rs]: packet identifiers of the kernel are 32-bit serial
    numbers.  They are admitted in order, their verdicts complete in any order,
    and the completed prefix advances a watermark.  A reply is held until the
    verdicts it depends on, up to a captured barrier, are out. *)

From S2P Require Import Prelude Text Net Model Netlink.
Local Open Scope Z_scope.

Abbreviation SERIAL_HALF_RANGE := (2 ^ 31) (only parsing).
Abbreviation MAX_TRACKED_OUTGOING := 1024 (only parsing).

(** The tuple of a reply flow, seen from this host. *)
Record FlowKey : Type := mkFlowKey {
  local : IpAddr;
  local_port : Z;
  remote : IpAddr;
  remote_port : option Z;
  fk_protocol : TransportProtocol
}.
#[export] Instance FlowKey_eq_dec : EqDecision FlowKey.
Proof. solve_decision. Defined.

Inductive OutgoingFlow : Type :=
| Reply (flow : FlowKey)
| Unrelated
| Unknown.
#[export] Instance OutgoingFlow_eq_dec : EqDecision OutgoingFlow.
Proof. solve_decision. Defined.

(** [epoch] is the address of the [Arc] of one runtime instance. *)
Record QueueIdentity : Type := mkIdentity { port_id : Z; epoch : Z }.
#[export] Instance QueueIdentity_eq_dec : EqDecision QueueIdentity.
Proof. solve_decision. Defined.

Record ReadThroughBarrier : Type := mkBarrier {
  barrier_identity : QueueIdentity;
  barrier_sequence : Z
}.

Record PacketProgress : Type := mkPacketProgress { pp_flow : OutgoingFlow; pp_completed : bool }.

Record QueueProgress : Type := mkProgress {
  identity : QueueIdentity;
  completed : Z;
  last_admitted : Z;
  order : list Z;
  verdicts : gmap Z PacketProgress
}.

Inductive ProgressError : Type :=
| NoPortId
| AdmissionBoundExceeded
| AmbiguousPacketIds
| UnadmittedPacket
| DuplicatedCompletion.

Definition QueueProgress_new (port_id epoch : Z) : Result ProgressError QueueProgress :=
  ensure (negb (port_id =? 0)) NoPortId ;;
  mret (mkProgress (mkIdentity port_id epoch) 0 0 [] ∅).

Definition remaining_capacity (self : QueueProgress) : Z :=
  MAX_TRACKED_OUTGOING - zlen self.(order).

(** The validation loop over a batch: the last identifier, if all advance. *)
Fixpoint admission_check (self : QueueProgress) (previous : Z)
    (packets : list (Z * OutgoingFlow)) : Result ProgressError Z :=
  match packets with
  | [] => Ok previous
  | (packet_id, _) :: rest =>
      let advance := u32_wrapping_sub packet_id previous in
      let outstanding_span := u32_wrapping_sub packet_id self.(completed) in
      ensure (negb (advance =? 0) && (advance <? SERIAL_HALF_RANGE)
              && negb (outstanding_span =? 0) && (outstanding_span <? SERIAL_HALF_RANGE)
              && is_none (self.(verdicts) !! packet_id)) AmbiguousPacketIds ;;
      admission_check self packet_id rest
  end.

Definition admit_one (self : QueueProgress) (packet : Z * OutgoingFlow) : QueueProgress :=
  mkProgress self.(identity) self.(completed) self.(last_admitted)
    (self.(order) ++ [packet.1])
    (<[packet.1 := mkPacketProgress packet.2 false]> self.(verdicts)).

Definition admit_classified (packets : list (Z * OutgoingFlow))
    : ST QueueProgress ProgressError unit :=
  self ← get;
  lift (ensure (zlen packets <=? remaining_capacity self) AdmissionBoundExceeded) ;;
  previous ← lift (admission_check self self.(last_admitted) packets);
  modify (fun self =>
    let self := foldl admit_one self packets in
    mkProgress self.(identity) self.(completed) previous self.(order) self.(verdicts)).

(** The [while] loop of [complete]: retire the completed prefix.  Each round
    removes one identifier from [order]. *)
Fixpoint retire (order : list Z) (completed : Z) (verdicts : gmap Z PacketProgress)
    : list Z * Z * gmap Z PacketProgress :=
  match order with
  | [] => ([], completed, verdicts)
  | first :: rest =>
      if negb (is_some_and pp_completed (verdicts !! first)) then (order, completed, verdicts)
      else retire rest first (delete first verdicts)
  end.

Definition complete (packet_id : Z) : ST QueueProgress ProgressError unit :=
  self ← get;
  packet ← lift (ok_or UnadmittedPacket (self.(verdicts) !! packet_id));
  lift (ensure (negb packet.(pp_completed)) DuplicatedCompletion) ;;
  modify (fun self =>
    let verdicts := <[packet_id := mkPacketProgress packet.(pp_flow) true]> self.(verdicts) in
    let '(order, completed, verdicts) := retire self.(order) self.(completed) verdicts in
    mkProgress self.(identity) completed self.(last_admitted) order verdicts).

Definition same_queue (self : QueueProgress) (barrier : ReadThroughBarrier) : bool :=
  (self.(identity).(port_id) =? barrier.(barrier_identity).(port_id))
  && (self.(identity).(epoch) =? barrier.(barrier_identity).(epoch)).

Definition reached (self : QueueProgress) (barrier : ReadThroughBarrier) : bool :=
  same_queue self barrier
  && (u32_wrapping_sub self.(completed) barrier.(barrier_sequence) <? SERIAL_HALF_RANGE).

(** [Iterator::take_while]. *)
Fixpoint take_while {A} (p : A -> bool) (xs : list A) : list A :=
  match xs with
  | [] => []
  | x :: xs => if p x then x :: take_while p xs else []
  end.

(** A packet that does not hold back replies of the flow [key]. *)
Definition does_not_block (key : FlowKey) (packet : PacketProgress) : bool :=
  packet.(pp_completed)
  || match packet.(pp_flow) with
     | Reply flow => flow !=? key
     | Unrelated => true
     | Unknown => false
     end.

Definition reached_for_flow (self : QueueProgress) (barrier : ReadThroughBarrier)
    (key : FlowKey) : bool :=
  if reached self barrier then true
  else if negb (same_queue self barrier)
          || (SERIAL_HALF_RANGE <=?
              u32_wrapping_sub self.(last_admitted) barrier.(barrier_sequence))
  then false
  else
    forallb (fun id => is_some_and (does_not_block key) (self.(verdicts) !! id))
      (take_while (fun id =>
         u32_wrapping_sub barrier.(barrier_sequence) id <? SERIAL_HALF_RANGE) self.(order)).

(** ** What is tracked

    The abstract history of one queue: packets are numbered by unbounded
    integers whose residues are the kernel's identifiers, and a set says whose
    verdict is out. *)

Record History : Type := mkHistory {
  admitted : list (Z * OutgoingFlow);
  done : gset Z
}.

Definition residue (u : Z) : Z := u32_wrap u.
Definition residues (es : list (Z * OutgoingFlow)) : list Z := (fun e => residue e.1) <$> es.
Definition last_of (base : Z) (es : list (Z * OutgoingFlow)) : Z :=
  default base (fst <$> last es).

Fixpoint increasing (base : Z) (es : list (Z * OutgoingFlow)) : Prop :=
  match es with
  | [] => True
  | (u, _) :: es => base < u /\ increasing u es
  end.

(** Numbering a batch of identifiers after [base]. *)
Fixpoint unwrap (base : Z) (packets : list (Z * OutgoingFlow)) : list (Z * OutgoingFlow) :=
  match packets with
  | [] => []
  | (id, flow) :: rest =>
      let u := base + u32_wrapping_sub id (residue base) in (u, flow) :: unwrap u rest
  end.

(** The window of outstanding packets: retired packets are done, the first
    outstanding one is not, and the queue holds exactly the outstanding ones. *)
Record window (p : QueueProgress) (h : History) (retired outstanding : list (Z * OutgoingFlow))
    : Prop := {
  win_split : admitted h = retired ++ outstanding;
  win_increasing : increasing 0 (admitted h);
  win_retired : forall e, e ∈ retired -> e.1 ∈ done h;
  win_done : forall u, u ∈ done h -> u ∈ fst <$> admitted h;
  win_completed : completed p = residue (last_of 0 retired);
  win_span : last_of 0 (admitted h) - last_of 0 retired < SERIAL_HALF_RANGE;
  win_order : order p = residues outstanding;
  win_verdicts : forall e, e ∈ outstanding ->
    verdicts p !! residue e.1 = Some (mkPacketProgress e.2 (bool_decide (e.1 ∈ done h)));
  win_domain : forall id, is_Some (verdicts p !! id) -> id ∈ order p;
  win_head : match outstanding with [] => True | e :: _ => e.1 ∉ done h end
}.

(** The progress of a queue follows a history. *)
Definition tracks (p : QueueProgress) (h : History) : Prop :=
  exists retired outstanding, window p h retired outstanding
  /\ last_admitted p = residue (last_of 0 (admitted h))
  /\ zlen (order p) <= MAX_TRACKED_OUTGOING.

(** ** Serial numbers *)

Lemma wrapping_sub_residue x y : u32_wrapping_sub (residue x) (residue y) = (x - y) mod 2 ^ 32.
Proof. unfold u32_wrapping_sub, residue, u32_wrap. by rewrite <-Zminus_mod. Qed.

Lemma serial_compare x y :
  - SERIAL_HALF_RANGE <= x - y < SERIAL_HALF_RANGE ->
  (u32_wrapping_sub (residue x) (residue y) <? SERIAL_HALF_RANGE) = (y <=? x).
Proof.
  intros Hxy. rewrite wrapping_sub_residue.
  change (2 ^ 31) with 2147483648 in *. change (2 ^ 32) with 4294967296.
  destruct (Z.leb_spec y x).
  - rewrite Z.mod_small by lia. lia.
  - replace (x - y) with ((x - y + 4294967296) + (-1) * 4294967296) by lia.
    rewrite Z.mod_add, Z.mod_small by lia. lia.
Qed.

Lemma residue_inj x y : - 2 ^ 32 < x - y < 2 ^ 32 -> residue x = residue y -> x = y.
Proof.
  intros Hxy E. assert (Hm : (x - y) mod 2 ^ 32 = 0).
  { rewrite <-wrapping_sub_residue, E. unfold u32_wrapping_sub, u32_wrap. by rewrite Z.sub_diag. }
  apply Z.mod_divide in Hm as [k Hk]; [|lia]. assert (k = 0) by lia. lia.
Qed.

Lemma residue_id id : 0 <= id <= U32_MAX -> residue id = id.
Proof. intros. unfold residue, u32_wrap. apply Z.mod_small. unfold U32_MAX in *. lia. Qed.

Lemma last_of_app base a b : last_of base (a ++ b) = last_of (last_of base a) b.
Proof.
  unfold last_of. rewrite last_app. destruct (last b); [done|]. by destruct (last a).
Qed.

Lemma last_of_cons base u f es : last_of base ((u, f) :: es) = last_of u es.
Proof. apply (last_of_app base [(u, f)] es). Qed.

Lemma increasing_bounds base es e :
  increasing base es -> e ∈ es -> base < e.1 <= last_of base es.
Proof.
  revert base e. induction es as [|[u f] es IH]; intros base e; [by intros _ ?%elem_of_nil|].
  cbn [increasing]. intros [Hu Hes]. rewrite last_of_cons, elem_of_cons. intros [->|He].
  - split; [done|]. cbn [fst]. destruct es as [|e es]; [done|].
    pose proof (IH u e Hes ltac:(left)). lia.
  - apply (IH u) in He; [lia|done].
Qed.

Lemma increasing_last base es : increasing base es -> base <= last_of base es.
Proof.
  destruct es as [|e es]; [done|]. intros Hi.
  pose proof (increasing_bounds base (e :: es) e Hi ltac:(left)). lia.
Qed.

Lemma increasing_app base a b :
  increasing base (a ++ b) <-> increasing base a /\ increasing (last_of base a) b.
Proof.
  revert base. induction a as [|[u f] a IH]; intros base; cbn [app increasing]; [tauto|].
  rewrite IH, last_of_cons. tauto.
Qed.

Lemma increasing_distinct base es e e' :
  increasing base es -> e ∈ es -> e' ∈ es -> e.1 = e'.1 -> e = e'.
Proof.
  revert base. induction es as [|[u f] es IH]; intros base; [by intros _ ?%elem_of_nil|].
  cbn [increasing]. intros [Hu Hes]. rewrite !elem_of_cons. intros [->|He] [->|He'] E; try done.
  - apply (increasing_bounds u) in He'; [|done]. cbn [fst] in *. lia.
  - apply (increasing_bounds u) in He; [|done]. cbn [fst] in *. lia.
  - by eapply IH.
Qed.

(** ** The operations follow the history *)

Lemma window_bounds p h ret out e :
  window p h ret out -> e ∈ out ->
  last_of 0 ret < e.1 <= last_of 0 (admitted h)
  /\ last_of 0 (admitted h) < last_of 0 ret + SERIAL_HALF_RANGE.
Proof.
  intros Hw He. pose proof (win_increasing _ _ _ _ Hw) as Hi. pose proof (win_span _ _ _ _ Hw).
  rewrite (win_split _ _ _ _ Hw) in *. apply increasing_app in Hi as [_ Hi].
  pose proof (increasing_bounds _ _ _ Hi He). rewrite last_of_app in *. lia.
Qed.

Lemma window_residue_inj p h ret out e e' :
  window p h ret out -> e ∈ out -> e' ∈ out -> residue e.1 = residue e'.1 -> e = e'.
Proof.
  intros Hw He He' E. pose proof (window_bounds _ _ _ _ _ Hw He).
  pose proof (window_bounds _ _ _ _ _ Hw He').
  apply residue_inj in E; [|lia].
  eapply increasing_distinct; [exact (win_increasing _ _ _ _ Hw)| | |exact E];
    rewrite (win_split _ _ _ _ Hw); apply elem_of_app; auto.
Qed.

Definition admits (h : History) (es : list (Z * OutgoingFlow)) : History :=
  mkHistory (admitted h ++ es) (done h).

(** One admitted packet. *)
Lemma admit_one_window p h ret out id flow :
  let base := last_of 0 (admitted h) in
  let u := base + u32_wrapping_sub id (residue base) in
  window p h ret out -> 0 <= id <= U32_MAX ->
  0 < u32_wrapping_sub id (residue base) < SERIAL_HALF_RANGE ->
  u32_wrapping_sub id (completed p) < SERIAL_HALF_RANGE ->
  residue u = id /\
  window (admit_one p (id, flow)) (admits h [(u, flow)]) ret (out ++ [(u, flow)]).
Proof.
  intros base u Hw Hid Hadv Hspan.
  assert (Hu : residue u = id).
  { unfold u, residue, u32_wrapping_sub, u32_wrap. rewrite Zplus_mod_idemp_r.
    replace (base + (id - base mod 2 ^ 32)) with (id + (base - base mod 2 ^ 32)) by lia.
    rewrite Zplus_mod, Zminus_mod_idemp_r, Z.sub_diag, Zmod_0_l, Z.add_0_r, Zmod_mod.
    apply Z.mod_small. unfold U32_MAX in Hid. lia. }
  assert (Hwin : u - last_of 0 ret < SERIAL_HALF_RANGE).
  { pose proof (win_span _ _ _ _ Hw) as Hs. fold base in Hs.
    pose proof (increasing_last _ _ (proj2 (proj1 (increasing_app 0 ret out) ltac:(
      rewrite <-(win_split _ _ _ _ Hw); exact (win_increasing _ _ _ _ Hw))))) as Hl.
    rewrite <-last_of_app, <-(win_split _ _ _ _ Hw) in Hl. fold base in Hl.
    rewrite (win_completed _ _ _ _ Hw), <-Hu, wrapping_sub_residue in Hspan.
    rewrite Z.mod_small in Hspan; lia. }
  assert (Hlast : last_of 0 (admitted h ++ [(u, flow)]) = u) by (by rewrite last_of_app).
  assert (Hfresh : u ∉ done h).
  { intros (e & E & He)%(win_done _ _ _ _ Hw)%list_elem_of_fmap.
    pose proof (increasing_bounds _ _ _ (win_increasing _ _ _ _ Hw) He). unfold u, base in *. lia. }
  split; [done|]. split; cbn [admitted done admits order verdicts completed admit_one fst snd].
  - by rewrite (win_split _ _ _ _ Hw), app_assoc.
  - apply increasing_app. split; [exact (win_increasing _ _ _ _ Hw)|]. cbn. fold base. lia.
  - exact (win_retired _ _ _ _ Hw).
  - intros x Hx%(win_done _ _ _ _ Hw). rewrite fmap_app, elem_of_app. auto.
  - exact (win_completed _ _ _ _ Hw).
  - rewrite Hlast. lia.
  - unfold residues. rewrite fmap_app, (win_order _ _ _ _ Hw). cbn. by rewrite Hu.
  - intros e [He|He]%elem_of_app.
    + rewrite lookup_insert_ne; [by apply (win_verdicts _ _ _ _ Hw)|].
      rewrite <-Hu. intros E. apply residue_inj in E.
      * pose proof (window_bounds _ _ _ _ _ Hw He). unfold u, base in *. lia.
      * pose proof (window_bounds _ _ _ _ _ Hw He).
        unfold u, base in *. lia.
    + apply list_elem_of_singleton in He as ->. cbn [fst snd]. rewrite Hu, lookup_insert_eq.
      by rewrite bool_decide_eq_false_2.
  - intros x. rewrite elem_of_app, list_elem_of_singleton.
    destruct (decide (x = id)) as [->|Hx]; [auto|]. rewrite lookup_insert_ne by done.
    intros Hs%(win_domain _ _ _ _ Hw). auto.
  - destruct out as [|e out]; [done|]. exact (win_head _ _ _ _ Hw).
Qed.

Lemma admission_step self previous id flow rest v :
  admission_check self previous ((id, flow) :: rest) = Ok v ->
  0 < u32_wrapping_sub id previous < SERIAL_HALF_RANGE
  /\ u32_wrapping_sub id (completed self) < SERIAL_HALF_RANGE
  /\ admission_check self id rest = Ok v.
Proof.
  cbn [admission_check]. intros [Hc Hr]%seq_Ok. split; [|split; [|done]].
  - apply ensure_Ok in Hc. rewrite !andb_true_iff, !negb_true_iff, !Z.eqb_neq, !Z.ltb_lt in Hc.
    assert (0 <= u32_wrapping_sub id previous) by (apply Z.mod_pos_bound; lia). lia.
  - apply ensure_Ok in Hc. rewrite !andb_true_iff, !Z.ltb_lt in Hc. tauto.
Qed.

Lemma admit_all_window self packets : forall p h ret out v,
  window p h ret out -> completed p = completed self ->
  Forall (fun e => 0 <= e.1 <= U32_MAX) packets ->
  admission_check self (residue (last_of 0 (admitted h))) packets = Ok v ->
  let es := unwrap (last_of 0 (admitted h)) packets in
  window (foldl admit_one p packets) (admits h es) ret (out ++ es)
  /\ residues es = fst <$> packets
  /\ v = residue (last_of 0 (admitted (admits h es))).
Proof.
  induction packets as [|[id flow] packets IH]; intros p h ret out v Hw Hc Hall Hv.
  { cbn in Hv. injection Hv as <-. cbn. unfold admits. rewrite !app_nil_r. by destruct h. }
  apply Forall_cons in Hall as [Hid Hall].
  apply admission_step in Hv as (Hadv & Hspan & Hv). rewrite <-Hc in Hspan.
  destruct (admit_one_window p h ret out id flow Hw Hid Hadv Hspan) as [Hu Hw'].
  cbn [unwrap foldl]. set (u := _ + _) in *. cbv zeta.
  assert (Hl : last_of 0 (admitted (admits h [(u, flow)])) = u)
    by (unfold admits; cbn [admitted]; by rewrite last_of_app).
  specialize (IH _ _ _ _ v Hw' Hc Hall). rewrite Hl, Hu in IH. specialize (IH Hv).
  cbv zeta in IH. destruct IH as (Hw2 & Hres & ->).
  assert (Hadm : admits (admits h [(u, flow)]) (unwrap u packets) = admits h ((u, flow) :: unwrap u packets)).
  { unfold admits. cbn. by rewrite <-app_assoc. }
  rewrite Hadm in *. rewrite <-app_assoc in Hw2. split_and!; [done| |done].
  unfold residues in *. rewrite !fmap_cons, Hres. cbn [fst]. by rewrite Hu.
Qed.

(** Retiring the completed prefix. *)
Lemma retire_spec (d : gset Z) out : forall c v,
  (forall e, e ∈ out -> v !! residue e.1 = Some (mkPacketProgress e.2 (bool_decide (e.1 ∈ d)))) ->
  (forall e e', e ∈ out -> e' ∈ out -> residue e.1 = residue e'.1 -> e = e') -> NoDup out ->
  exists ret' out', out = ret' ++ out'
  /\ (forall e, e ∈ ret' -> e.1 ∈ d)
  /\ match out' with [] => True | e :: _ => e.1 ∉ d end
  /\ let '(o, c', v') := retire (residues out) (residue c) v in
     o = residues out' /\ c' = residue (last_of c ret')
     /\ (forall e, e ∈ out' -> v' !! residue e.1 = Some (mkPacketProgress e.2 (bool_decide (e.1 ∈ d))))
     /\ (forall id, is_Some (v' !! id) -> is_Some (v !! id) /\ id ∉ residues ret').
Proof.
  induction out as [|e out IH]; intros c v Hv Hinj Hnd.
  { exists [], []. split_and!; try done; [by intros ? ?%elem_of_nil|]. cbn.
    split_and!; try done. intros id Hid. split; [done|]. apply not_elem_of_nil. }
  unfold residues in *. rewrite fmap_cons. cbn [retire]. rewrite (Hv e) by left.
  cbn [is_some_and pp_completed]. case_bool_decide as He; cbn [negb].
  - apply NoDup_cons in Hnd as [Hne Hnd].
    destruct (IH e.1 (delete (residue e.1) v)) as (ret' & out' & -> & H1 & H2 & H3).
    + intros e' He'. rewrite lookup_delete_ne; [apply Hv; by right|].
      intros E. apply Hne. rewrite (Hinj e e'); [done|left|by right|done].
    + intros e1 e2 He1 He2. apply Hinj; by right.
    + done.
    + exists (e :: ret'), out'. split_and!; [done| |done|].
      * intros e' [->|?]%elem_of_cons; auto.
      * destruct (retire _ _ _) as [[o c'] v']. destruct H3 as (-> & -> & H5 & H6).
        destruct e as [u f]. split_and!; [done|by rewrite last_of_cons|done|].
        intros id [Hs Hn]%H6. apply lookup_delete_is_Some in Hs as [Hid Hs]. split; [done|].
        rewrite fmap_cons, not_elem_of_cons. auto.
  - exists [], (e :: out). split; [done|]. split; [by intros ? ?%elem_of_nil|]. split; [done|].
    split; [done|]. split; [done|]. split; [done|].
    intros id Hid. split; [done|]. apply not_elem_of_nil.
Qed.

Lemma increasing_NoDup base es : increasing base es -> NoDup es.
Proof.
  revert base. induction es as [|[u f] es IH]; intros base; [constructor|].
  cbn [increasing]. intros [_ Hes]. constructor; [|by eapply IH].
  intros He. pose proof (increasing_bounds _ _ _ Hes He). cbn [fst] in *. lia.
Qed.

Definition completes (h : History) (u : Z) : History := mkHistory (admitted h) ({[u]} ∪ done h).

Lemma window_elem p h ret out e : window p h ret out -> e ∈ out -> e ∈ admitted h.
Proof. intros Hw He. rewrite (win_split _ _ _ _ Hw). apply elem_of_app. auto. Qed.

(** The map after the verdict of [e] was noted. *)
Lemma noted_verdicts p h ret out e :
  window p h ret out -> e ∈ out -> forall e', e' ∈ out ->
  <[residue e.1 := mkPacketProgress e.2 true]> (verdicts p) !! residue e'.1
  = Some (mkPacketProgress e'.2 (bool_decide (e'.1 ∈ done (completes h e.1)))).
Proof.
  intros Hw He e' He'. cbn [done completes].
  destruct (decide (residue e'.1 = residue e.1)) as [E|E].
  - assert (e' = e) as -> by (by eapply window_residue_inj).
    rewrite lookup_insert_eq, bool_decide_eq_true_2; [done|]. set_solver.
  - rewrite lookup_insert_ne by done. rewrite (win_verdicts _ _ _ _ Hw e' He').
    do 2 f_equal. apply bool_decide_ext.
    assert (e'.1 <> e.1) by (intros Eq; apply E; by rewrite Eq). set_solver.
Qed.

Lemma complete_window p h ret out e :
  window p h ret out -> e ∈ out -> e.1 ∉ done h ->
  let v := <[residue e.1 := mkPacketProgress e.2 true]> (verdicts p) in
  let '(o, c, v') := retire (order p) (completed p) v in
  exists ret' out',
  window (mkProgress (identity p) c (last_admitted p) o v') (completes h e.1) ret' out'
  /\ zlen o <= zlen (order p).
Proof.
  intros Hw He Hnd v.
  assert (Hndup : NoDup out).
  { pose proof (win_increasing _ _ _ _ Hw) as Hi. rewrite (win_split _ _ _ _ Hw) in Hi.
    apply increasing_app in Hi as [_ Hi]. by eapply increasing_NoDup. }
  destruct (retire_spec (done (completes h e.1)) out (last_of 0 ret) v) as (r1 & o1 & Hsplit & Hr & Hh & Hres);
    [by apply (noted_verdicts p h ret)|intros e1 e2; by apply (window_residue_inj p h ret)|done|].
  rewrite (win_order _ _ _ _ Hw), (win_completed _ _ _ _ Hw).
  destruct (retire _ _ _) as [[o c] v']. destruct Hres as (-> & -> & Hv & Hdom).
  exists (ret ++ r1), o1. split.
  - split; cbn [admitted done completes completed order verdicts].
    + by rewrite (win_split _ _ _ _ Hw), Hsplit, app_assoc.
    + exact (win_increasing _ _ _ _ Hw).
    + intros e' [?%(win_retired _ _ _ _ Hw)|?%Hr]%elem_of_app; [set_solver|done].
    + intros u [->%elem_of_singleton|?%(win_done _ _ _ _ Hw)]%elem_of_union; [|done].
      apply list_elem_of_fmap_2. by eapply window_elem.
    + by rewrite last_of_app.
    + pose proof (win_span _ _ _ _ Hw). rewrite last_of_app.
      pose proof (win_increasing _ _ _ _ Hw) as Hi. rewrite (win_split _ _ _ _ Hw), Hsplit in Hi.
      apply increasing_app in Hi as [_ [Hi%increasing_last _]%increasing_app]. lia.
    + done.
    + exact Hv.
    + intros id [Hs Hni]%Hdom.
      assert (Hin : id ∈ order p).
      { unfold v in Hs. destruct (decide (id = residue e.1)) as [->|Hne].
        - rewrite (win_order _ _ _ _ Hw). apply list_elem_of_fmap. eauto.
        - rewrite lookup_insert_ne in Hs by done. by apply (win_domain _ _ _ _ Hw). }
      rewrite (win_order _ _ _ _ Hw), Hsplit in Hin. unfold residues in *.
      rewrite fmap_app, elem_of_app in Hin. tauto.
    + done.
  - rewrite Hsplit. unfold residues, zlen. rewrite !length_fmap, length_app. lia.
Qed.

Lemma tracks_same_last p h : tracks p h -> last_admitted p = residue (last_of 0 (admitted h)).
Proof. by intros (? & ? & _ & ? & _). Qed.

(** C31: The bookkeeping of verdicts refines an unbounded history although
    identifiers are 32-bit serial numbers that wrap around: a new queue follows
    the empty history; admitting a batch extends the history by its packets in
    order; completing an identifier marks exactly one admitted packet that was
    not done; every packet whose verdict is missing can still be completed; and
    an operation that is refused changes nothing. *)
Theorem progress_follows_the_history :
  (forall port_id epoch p, QueueProgress_new port_id epoch = Ok p -> tracks p (mkHistory [] ∅))
  /\ (forall p h packets p' r, tracks p h -> Forall (fun e => 0 <= e.1 <= U32_MAX) packets ->
      admit_classified packets p = (p', r) ->
      match r with
      | Err _ => p' = p
      | Ok _ => tracks p' (admits h (unwrap (last_of 0 (admitted h)) packets))
          /\ residues (unwrap (last_of 0 (admitted h)) packets) = packets.*1
      end)
  /\ (forall p h id p' r, tracks p h -> complete id p = (p', r) ->
      match r with
      | Err _ => p' = p
      | Ok _ => exists e, e ∈ admitted h /\ residue e.1 = id /\ (e.1 ∉ done h)
          /\ tracks p' (completes h e.1)
      end)
  /\ (forall p h e, tracks p h -> e ∈ admitted h -> e.1 ∉ done h ->
      is_ok (complete (residue e.1) p).2 = true).
Proof.
  split_and!.
  - intros port ep p Hp. unfold QueueProgress_new in Hp. inv_ok Hp.
    exists [], []. split; [|by vm_compute]. split; try done;
      try (by intros ? ?%elem_of_nil); try (by intros ? ?%elem_of_empty).
    cbn. intros id. rewrite lookup_empty. by intros [? ?].
  - intros p h packets p' r (ret & out & Hw & Hl & Hc) Hall Ha.
    unfold admit_classified in Ha. rewrite run_get, run_lift in Ha.
    destruct (Z.leb_spec (zlen packets) (remaining_capacity p)) as [Hcap|]; cbn [ensure] in Ha;
      [|by injection Ha as <- <-].
    rewrite run_lift in Ha.
    destruct (admission_check p (last_admitted p) packets) as [v|e] eqn:Ev; [|by injection Ha as <- <-].
    injection Ha as <- <-. rewrite Hl in Ev.
    destruct (admit_all_window p packets p h ret out v Hw eq_refl Hall Ev) as (Hw' & Hres & Hv).
    split; [|done]. exists ret, (out ++ unwrap (last_of 0 (admitted h)) packets).
    destruct Hw' as [W1 W2 W3 W4 W5 W6 W7 W8 W9 W10]. split; [by split|].
    split; [exact Hv|]. cbn [order]. rewrite W7. unfold residues in *. rewrite fmap_app, Hres.
    unfold remaining_capacity in Hcap. rewrite (win_order _ _ _ _ Hw) in Hcap. unfold residues in Hcap.
    rewrite zlen_app. unfold zlen in *. rewrite !length_fmap in *. lia.
  - intros p h id p' r (ret & out & Hw & Hl & Hc) Ha. unfold complete in Ha.
    rewrite run_get, run_lift in Ha.
    destruct (verdicts p !! id) as [packet|] eqn:Ev; cbn [ok_or] in Ha; [|by injection Ha as <- <-].
    assert (Hid : id ∈ order p) by (apply (win_domain _ _ _ _ Hw); eauto).
    rewrite (win_order _ _ _ _ Hw) in Hid. apply list_elem_of_fmap in Hid as (e & -> & He).
    pose proof Ev as Ev'. rewrite (win_verdicts _ _ _ _ Hw e He) in Ev'. injection Ev' as <-.
    rewrite run_lift in Ha. cbn [pp_completed pp_flow] in Ha.
    case_bool_decide as Hd; cbn [negb ensure] in Ha; injection Ha as <- <-; [done|].
    exists e. split; [by eapply window_elem|]. split; [done|]. split; [done|].
    pose proof (complete_window p h ret out e Hw He Hd) as Hcw. cbv zeta in Hcw.
    destruct (retire _ _ _) as [[o c] v']. destruct Hcw as (ret' & out' & Hw' & Hlen).
    exists ret', out'. split; [done|]. split; [done|]. cbn [order]. lia.
  - intros p h e (ret & out & Hw & _) He Hd.
    assert (Ho : e ∈ out).
    { rewrite (win_split _ _ _ _ Hw) in He. apply elem_of_app in He as [He|]; [|done].
      by apply (win_retired _ _ _ _ Hw) in He. }
    unfold complete. rewrite run_get, run_lift, (win_verdicts _ _ _ _ Hw e Ho). cbn [ok_or].
    rewrite run_lift. cbn [pp_completed pp_flow]. by rewrite bool_decide_eq_false_2.
Qed.

(** Whether the verdict of a packet is awaited by replies of the flow [key]. *)
Definition blocks (key : FlowKey) (flow : OutgoingFlow) : Prop :=
  flow = Reply key \/ flow = Unknown.

Lemma does_not_block_spec key f (d : bool) :
  does_not_block key (mkPacketProgress f d) = true <-> (blocks key f -> d = true).
Proof.
  unfold does_not_block, blocks. cbn [pp_completed pp_flow]. destruct d; cbn [orb]; [tauto|].
  destruct f as [k| |]; [|naive_solver..].
  rewrite negb_true_iff, eqb_false. naive_solver.
Qed.

Lemma take_while_increasing base b es :
  increasing base es -> forall p : Z -> bool,
  (forall e, e ∈ es -> p (residue e.1) = (e.1 <=? b)) ->
  forall id, id ∈ take_while p (residues es) <-> exists e, e ∈ es /\ e.1 <= b /\ id = residue e.1.
Proof.
  revert base. induction es as [|[u f] es IH]; intros base Hi p Hp id.
  { cbn. split; [by intros ?%elem_of_nil|]. intros (e & He & _). by apply elem_of_nil in He. }
  destruct Hi as [Hu Hi]. unfold residues. rewrite fmap_cons. cbn [take_while fst].
  pose proof (Hp (u, f) ltac:(left)) as Hpu. cbn [fst] in Hpu. rewrite Hpu.
  destruct (Z.leb_spec u b) as [Hb|Hb].
  - rewrite elem_of_cons. fold (residues es). rewrite (IH u Hi p) by (intros; apply Hp; by right).
    split.
    + intros [->|(e & He & Hle & ->)]; [exists (u, f)|exists e]; rewrite elem_of_cons; auto.
    + intros (e & [->|He]%elem_of_cons & Hle & ->); [by left|right; eauto].
  - split; [by intros ?%elem_of_nil|]. intros (e & [->|He]%elem_of_cons & Hle & _); cbn in *; [lia|].
    pose proof (increasing_bounds _ _ _ Hi He). lia.
Qed.

(** The packets at the front of the history whose verdicts are all out. *)
Definition completed_prefix (h : History) : list (Z * OutgoingFlow) :=
  take_while (fun e => bool_decide (e.1 ∈ done h)) (admitted h).

Lemma window_prefix p h ret out : window p h ret out -> ret = completed_prefix h.
Proof.
  intros Hw. unfold completed_prefix. rewrite (win_split _ _ _ _ Hw).
  pose proof (win_retired _ _ _ _ Hw) as Hr. pose proof (win_head _ _ _ _ Hw) as Hh. clear Hw.
  induction ret as [|e ret IH]; cbn [app take_while].
  - destruct out as [|e out]; [done|]. cbn [take_while]. by rewrite bool_decide_eq_false_2.
  - rewrite bool_decide_eq_true_2 by (apply Hr; left). f_equal. apply IH.
    intros e' He'. apply Hr. by right.
Qed.

Lemma same_queue_true p barrier :
  same_queue p barrier = true <-> identity p = barrier_identity barrier.
Proof.
  unfold same_queue. rewrite andb_true_iff, !Z.eqb_eq.
  destruct (identity p), (barrier_identity barrier); cbn. naive_solver.
Qed.

Section Barrier.
Context (p : QueueProgress) (h : History) (ret out : list (Z * OutgoingFlow))
  (Hw : window p h ret out) (b : Z)
  (Hnear : - SERIAL_HALF_RANGE < b - last_of 0 ret < SERIAL_HALF_RANGE).

Lemma out_increasing : increasing (last_of 0 ret) out.
Proof.
  pose proof (win_increasing _ _ _ _ Hw) as Hi. rewrite (win_split _ _ _ _ Hw) in Hi.
  by apply increasing_app in Hi as [_ Hi].
Qed.

Lemma out_last : last_of 0 ret <= last_of 0 (admitted h).
Proof.
  rewrite (win_split _ _ _ _ Hw), last_of_app. apply increasing_last, out_increasing.
Qed.

Lemma reached_watermark :
  (u32_wrapping_sub (completed p) (residue b) <? SERIAL_HALF_RANGE) = (b <=? last_of 0 ret).
Proof. rewrite (win_completed _ _ _ _ Hw). apply serial_compare. lia. Qed.

Lemma received_watermark :
  last_of 0 ret < b ->
  (SERIAL_HALF_RANGE <=? u32_wrapping_sub (residue (last_of 0 (admitted h))) (residue b))
  = negb (b <=? last_of 0 (admitted h)).
Proof.
  intros Hb. pose proof (win_span _ _ _ _ Hw). pose proof out_last.
  rewrite <-(serial_compare (last_of 0 (admitted h)) b) by lia.
  rewrite Z.leb_antisym. done.
Qed.

(** The scan of [order] looks at the outstanding packets up to the barrier. *)
Lemma scan_spec key :
  last_of 0 ret < b ->
  forallb (fun id => is_some_and (does_not_block key) (verdicts p !! id))
    (take_while (fun id => u32_wrapping_sub (residue b) id <? SERIAL_HALF_RANGE) (order p)) = true
  <-> forall e, e ∈ out -> e.1 <= b -> blocks key e.2 -> e.1 ∈ done h.
Proof.
  intros Hb. rewrite forallb_forall, (win_order _ _ _ _ Hw).
  assert (Htw : forall id,
    id ∈ take_while (fun id => u32_wrapping_sub (residue b) id <? SERIAL_HALF_RANGE) (residues out)
    <-> exists e, e ∈ out /\ e.1 <= b /\ id = residue e.1).
  { apply (take_while_increasing (last_of 0 ret)); [apply out_increasing|]. intros e He.
    pose proof (window_bounds _ _ _ _ _ Hw He). rewrite serial_compare; [done|].
    lia. }
  split.
  - intros Hall e He Hle. specialize (Hall (residue e.1)). rewrite <-list_elem_of_In, Htw in Hall.
    rewrite (win_verdicts _ _ _ _ Hw e He) in Hall. cbn [is_some_and] in Hall.
    rewrite does_not_block_spec, bool_decide_eq_true in Hall. apply Hall. eauto.
  - intros Hall id. rewrite <-list_elem_of_In, Htw. intros (e & He & Hle & ->).
    rewrite (win_verdicts _ _ _ _ Hw e He). cbn [is_some_and].
    rewrite does_not_block_spec, bool_decide_eq_true. by apply Hall.
Qed.
End Barrier.

(** C39: a reply waits for the packets of its own flow and for no others.  For a
    progress record that follows a history of received and answered packets, and
    a barrier less than half the serial range away from the completed prefix,
    the check of a flow answers yes if and only if the barrier was captured on
    the same queue, lies within the received packets, and every packet up to it
    that belongs to the flow, or could not be classified, has its verdict.
    Packets of other flows never hold a reply back, and a barrier of another
    queue never releases one. *)
Theorem replies_wait_for_their_flow p h barrier b key :
  tracks p h -> barrier_sequence barrier = residue b ->
  - SERIAL_HALF_RANGE < b - last_of 0 (completed_prefix h) < SERIAL_HALF_RANGE ->
  reached_for_flow p barrier key = true <->
  (identity p = barrier_identity barrier /\ b <= last_of 0 (admitted h)
   /\ forall e, e ∈ admitted h -> e.1 <= b -> blocks key e.2 -> e.1 ∈ done h).
Proof.
  intros (ret & out & Hw & Hl & _) Hb Hnear. rewrite <-(window_prefix _ _ _ _ Hw) in Hnear.
  unfold reached_for_flow, reached. rewrite Hb, Hl, (reached_watermark p h ret out Hw b Hnear).
  rewrite <-(same_queue_true p barrier). pose proof (out_last p h ret out Hw).
  destruct (same_queue p barrier); cbn [andb negb orb]; [|naive_solver].
  assert (Hret : forall e, e ∈ admitted h -> e ∈ out \/ e.1 ∈ done h).
  { intros e He. rewrite (win_split _ _ _ _ Hw) in He.
    apply elem_of_app in He as [?%(win_retired _ _ _ _ Hw)|]; auto. }
  destruct (Z.leb_spec b (last_of 0 ret)) as [Hle|Hgt].
  - split; [|done]. intros _. split; [done|]. split; [lia|]. intros e He Hb' _.
    destruct (Hret e He) as [Ho|]; [|done]. pose proof (window_bounds _ _ _ _ _ Hw Ho). lia.
  - rewrite (received_watermark p h ret out Hw b Hnear Hgt).
    destruct (Z.leb_spec b (last_of 0 (admitted h))) as [Hin|Hout]; cbn [negb].
    + rewrite (scan_spec p h ret out Hw b Hnear key Hgt). split.
      * intros Hall. split; [done|]. split; [done|]. intros e He. destruct (Hret e He); auto.
      * intros (_ & _ & Hall) e He. apply Hall. by eapply window_elem.
    + split; [done|]. intros (_ & ? & _). lia.
Qed.

(** ** Witness *)

Definition sample_flow : FlowKey := mkFlowKey (IpV4 1) 40000 (IpV4 2) (Some 53) Udp.
Definition sample_packets : list (Z * OutgoingFlow) :=
  [(7, Unrelated); (8, Reply sample_flow); (9, Unrelated)].
Definition sample_progress : QueueProgress :=
  (complete 8 (admit_classified sample_packets
     (mkProgress (mkIdentity 5 1) 0 0 [] ∅)).1).1.
Definition sample_history : History := mkHistory sample_packets {[8]}.

Lemma sample_tracks : tracks sample_progress sample_history.
Proof.
  exists [], sample_packets. split; [|split; [vm_compute; reflexivity|by vm_compute]].
  split.
  - reflexivity.
  - cbn. lia.
  - by intros ? ?%elem_of_nil.
  - unfold sample_history, sample_packets. cbn [done admitted]. intros u ->%elem_of_singleton.
    cbn. set_solver.
  - vm_compute. reflexivity.
  - vm_compute. reflexivity.
  - vm_compute. reflexivity.
  - intros e He. unfold sample_packets in He. rewrite !elem_of_cons, elem_of_nil in He.
    destruct He as [->|[->|[->|[]]]]; vm_compute; reflexivity.
  - intros id Hs. assert (Hv : verdicts sample_progress
      = <[8 := mkPacketProgress (Reply sample_flow) true]>
        (<[9 := mkPacketProgress Unrelated false]> {[7 := mkPacketProgress Unrelated false]}))
      by (vm_compute; reflexivity).
    rewrite Hv, !lookup_insert_is_Some, lookup_singleton_is_Some in Hs.
    assert (Ho : order sample_progress = [7; 8; 9]) by (vm_compute; reflexivity).
    rewrite Ho, !elem_of_cons. destruct Hs as [<-|[_ [<-|[_ <-]]]]; auto.
  - cbn. set_solver.
Qed.

Lemma replies_wait_for_their_flow_witness :
  reached_for_flow sample_progress (mkBarrier (mkIdentity 5 1) 9) sample_flow = true.
Proof.
  apply (replies_wait_for_their_flow sample_progress sample_history _ 9 sample_flow sample_tracks).
  - reflexivity.
  - by vm_compute.
  - split; [reflexivity|]. split; [by vm_compute|]. intros e He _ Hbl.
    unfold sample_history, sample_packets in He. cbn in He. rewrite !elem_of_cons, elem_of_nil in He.
    destruct He as [->|[->|[->|[]]]]; [by destruct Hbl|cbn; set_solver|by destruct Hbl].
Defined.

Lemma progress_follows_the_history_witness :
  tracks (admit_classified sample_packets (mkProgress (mkIdentity 5 1) 0 0 [] ∅)).1
    (mkHistory sample_packets ∅).
Proof.
  destruct progress_follows_the_history as (Hnew & Hadmit & _).
  assert (H0 : tracks (mkProgress (mkIdentity 5 1) 0 0 [] ∅) (mkHistory [] ∅))
    by (apply (Hnew 5 1); reflexivity).
  destruct (admit_classified sample_packets (mkProgress (mkIdentity 5 1) 0 0 [] ∅)) as [p r] eqn:E.
  specialize (Hadmit _ _ sample_packets p r H0 ltac:(
    repeat (apply Forall_cons; split; [cbn; unfold U32_MAX; lia|]); constructor) E).
  assert (Hr : r = Ok tt) by (vm_compute in E; congruence). subst r.
  destruct Hadmit as [Ht _]. exact Ht.
Defined.
