(* ===== verification/Capture.v ===== *)
(** * Capturing a read-through barrier

    [QueueIdentity::capture] of [nfqueue_progress.rs]: the bounded read of the
    kernel's queue table, and the line of the OUTPUT queue in it, whose packet
    sequence is the barrier of a held reply. *)

From Stdlib Require Import DecimalString DecimalN DecimalPos.
From S2P Require Import Prelude Text Net Model Marks Nftables Netlink Progress.
Local Open Scope Z_scope.

Abbreviation MAX_PROC_BYTES := 16384 (only parsing).
Abbreviation READ_BUDGET := 100000000 (only parsing).
Abbreviation MAX_READ_CALLS := 128%nat (only parsing).

(** ** Text of the standard library *)

(** [str::from_utf8]. *)
Definition is_continuation (b : Z) : bool := in_range 0x80 0xbf b.

Fixpoint utf8_go (fuel : nat) (bytes : Bytes) : option ustring :=
  match fuel, bytes with
  | _, [] => Some []
  | S fuel, a :: rest =>
      if in_range 0 0x7f a then cons a <$> utf8_go fuel rest
      else
        match rest with
        | b :: rest =>
            if in_range 0xc2 0xdf a then
              if is_continuation b
              then cons (Z.land a 0x1f * 64 + Z.land b 0x3f) <$> utf8_go fuel rest else None
            else
              match rest with
              | c :: rest =>
                  if ((a =? 0xe0) && in_range 0xa0 0xbf b || in_range 0xe1 0xec a && is_continuation b
                      || (a =? 0xed) && in_range 0x80 0x9f b
                      || in_range 0xee 0xef a && is_continuation b) && is_continuation c
                  then cons (Z.land a 0x0f * 4096 + Z.land b 0x3f * 64 + Z.land c 0x3f)
                         <$> utf8_go fuel rest
                  else
                    match rest with
                    | d :: rest =>
                        if ((a =? 0xf0) && in_range 0x90 0xbf b
                            || in_range 0xf1 0xf3 a && is_continuation b
                            || (a =? 0xf4) && in_range 0x80 0x8f b)
                           && is_continuation c && is_continuation d
                        then cons (Z.land a 0x07 * 262144 + Z.land b 0x3f * 4096
                                   + Z.land c 0x3f * 64 + Z.land d 0x3f) <$> utf8_go fuel rest
                        else None
                    | [] => None
                    end
              | [] => None
              end
        | [] => None
        end
  | O, _ => None
  end.
Definition from_utf8 (bytes : Bytes) : option ustring := utf8_go (length bytes) bytes.

(** [str::lines]: a final line break ends the last line, and a carriage return
    before a line break belongs to it. *)
Definition strip_cr (line : ustring) : ustring :=
  match last line with
  | Some c => if c =? 13 then removelast line else line
  | None => line
  end.
Definition lines (s : ustring) : list ustring :=
  let parts := split_char 10 s in
  (strip_cr <$> removelast parts)
  ++ match last parts with Some ((_ :: _) as line) => [line] | _ => [] end.

(** [str::split_ascii_whitespace]. *)
Definition is_ascii_whitespace (c : char) : bool :=
  (c =? 32) || (c =? 9) || (c =? 10) || (c =? 12) || (c =? 13).
Fixpoint split_fields (s : ustring) : list ustring :=
  match s with
  | [] => []
  | c :: s' =>
      if is_ascii_whitespace c then split_fields s'
      else
        match s' with
        | [] => [[c]]
        | d :: _ =>
            if is_ascii_whitespace d then [c] :: split_fields s'
            else match split_fields s' with
                 | w :: ws => (c :: w) :: ws
                 | [] => [[c]]
                 end
        end
  end.

(** [str::parse] for an unsigned integer type with the given maximum. *)
Fixpoint parse_digits (max acc : Z) (s : ustring) : option Z :=
  match s with
  | [] => Some acc
  | c :: s' =>
      if in_range 48 57 c then
        let acc := acc * 10 + (c - 48) in
        if acc <=? max then parse_digits max acc s' else None
      else None
  end.
Definition parse_unsigned (max : Z) (s : ustring) : option Z :=
  match s with
  | [] => None
  | c :: s' => if c =? 43 then match s' with [] => None | _ => parse_digits max 0 s' end
               else parse_digits max 0 s
  end.

(** [u32::from_str_radix(_, 16)] and the like. *)
Definition hex_value (c : char) : option Z :=
  if in_range 48 57 c then Some (c - 48)
  else if in_range 65 70 c then Some (c - 55)
  else if in_range 97 102 c then Some (c - 87)
  else None.
Fixpoint parse_hex_digits (max acc : Z) (s : ustring) : option Z :=
  match s with
  | [] => Some acc
  | c :: s' =>
      match hex_value c with
      | Some d => let acc := acc * 16 + d in if acc <=? max then parse_hex_digits max acc s' else None
      | None => None
      end
  end.
Definition parse_hex (max : Z) (s : ustring) : option Z :=
  match s with
  | [] => None
  | c :: s' => if c =? 43 then match s' with [] => None | _ => parse_hex_digits max 0 s' end
               else parse_hex_digits max 0 s
  end.

(** [str::rsplit_once]. *)
Fixpoint rsplit_once (sep : char) (s : ustring) : option (ustring * ustring) :=
  match s with
  | [] => None
  | c :: s' =>
      match rsplit_once sep s' with
      | Some (before, after) => Some (c :: before, after)
      | None => if c =? sep then Some ([], s') else None
      end
  end.

(** [str::split_once], [str::strip_prefix] and [str::strip_suffix]. *)
Fixpoint split_once (sep : char) (s : ustring) : option (ustring * ustring) :=
  match s with
  | [] => None
  | c :: s' =>
      if c =? sep then Some ([], s')
      else match split_once sep s' with
           | Some (before, after) => Some (c :: before, after)
           | None => None
           end
  end.
Definition strip_prefix (p s : ustring) : option ustring :=
  if starts_with p s then Some (drop (length p) s) else None.
Definition strip_suffix (p s : ustring) : option ustring :=
  if ends_with p s then Some (take (length s - length p) s) else None.

(** ** The bounded read *)

Inductive CaptureError : Type :=
| CannotOpen
| ReadBudgetExceeded
| CannotRead
| MetadataTooLong
| ReadExpired
| NotUtf8
| NoQueueNumber
| InvalidQueueNumber
| DuplicatedRecord
| TruncatedRecord
| InvalidField
| ExtraFields
| OwnerChanged
| ConfigurationChanged
| MissingRecord.

(** What the operating system does on a read; a delivery may be short. *)
Inductive ReadOutcome : Type :=
| Deliver (at_most : nat)
| ReadInterrupted
| ReadFails.

(** A file with its content, and the outcome and the clock of each call. *)
Record ProcFile : Type := mkProcFile {
  content : Bytes;
  outcome : nat -> ReadOutcome;
  elapsed : nat -> Z
}.

(** [read] into a buffer of the given size; no byte is delivered at the end of
    the file only. *)
Definition read (file : ProcFile) (call : nat) (position : nat) (room : nat)
    : Result CaptureError (option Bytes) :=
  match file.(outcome) call with
  | ReadInterrupted => Ok None
  | ReadFails => Err CannotRead
  | Deliver n => Ok (Some (take (Nat.min (Nat.max 1 n) room) (drop position file.(content))))
  end.

(** The first loop; [calls] counts down from the bound. *)
Fixpoint fill (file : ProcFile) (calls : nat) (buffer : Bytes)
    : Result CaptureError (Bytes * nat) :=
  if negb (zlen buffer <? MAX_PROC_BYTES) then Ok (buffer, calls)
  else
    match calls with
    | O => Err ReadBudgetExceeded
    | S remaining =>
        let call := (MAX_READ_CALLS - calls)%nat in
        ensure (file.(elapsed) call <? READ_BUDGET) ReadBudgetExceeded ;;
        chunk ← read file call (length buffer) (Z.to_nat MAX_PROC_BYTES - length buffer);
        match chunk with
        | None => fill file remaining buffer
        | Some [] => Ok (buffer, remaining)
        | Some bytes => fill file remaining (buffer ++ bytes)
        end
    end.

(** The second loop: a full buffer must hold the whole file. *)
Fixpoint probe (file : ProcFile) (calls : nat) : Result CaptureError nat :=
  match calls with
  | O => Err ReadBudgetExceeded
  | S remaining =>
      let call := (MAX_READ_CALLS - calls)%nat in
      ensure (file.(elapsed) call <? READ_BUDGET) ReadBudgetExceeded ;;
      chunk ← read file call (Z.to_nat MAX_PROC_BYTES) 1;
      match chunk with
      | None => probe file remaining
      | Some [] => Ok remaining
      | Some _ => Err MetadataTooLong
      end
  end.

Definition read_bounded_metadata (file : ProcFile) : Result CaptureError Bytes :=
  filled ← fill file MAX_READ_CALLS [];
  remaining ← (if zlen filled.1 =? MAX_PROC_BYTES then probe file filled.2 else mret filled.2);
  ensure (file.(elapsed) (MAX_READ_CALLS - remaining)%nat <? READ_BUDGET) ReadExpired ;;
  mret filled.1.

(** ** The record of the queue *)

(** The eight numbers after the queue number. *)
Fixpoint read_values (n : nat) (fields : list ustring)
    : Result CaptureError (list Z * list ustring) :=
  match n with
  | O => Ok ([], fields)
  | S n =>
      match fields with
      | [] => Err TruncatedRecord
      | field :: rest =>
          value ← ok_or InvalidField (parse_unsigned U32_MAX field);
          more ← read_values n rest;
          mret (value :: more.1, more.2)
      end
  end.

Definition capture_line (self : QueueIdentity) (sequence : option Z) (line : ustring)
    : Result CaptureError (option Z) :=
  let fields := split_fields line in
  number ← ok_or NoQueueNumber (head fields);
  queue_number ← ok_or InvalidQueueNumber (parse_unsigned U16_MAX number);
  if negb (queue_number =? APPLICATION_QUEUE_NUMBER) then mret sequence
  else
    ensure (is_none sequence) DuplicatedRecord ;;
    read ← read_values 8 (tail fields);
    ensure (bool_decide (read.2 = [])) ExtraFields ;;
    let value i := nth i read.1 0 in
    ensure (value 0%nat =? self.(port_id)) OwnerChanged ;;
    ensure ((value 2%nat =? 2) && (value 3%nat =? 512) && (value 7%nat =? 1)) ConfigurationChanged ;;
    mret (Some (value 6%nat)).

Fixpoint capture_lines (self : QueueIdentity) (sequence : option Z) (ls : list ustring)
    : Result CaptureError (option Z) :=
  match ls with
  | [] => Ok sequence
  | line :: rest =>
      sequence ← capture_line self sequence line;
      capture_lines self sequence rest
  end.

Definition capture_from (self : QueueIdentity) (file : ProcFile)
    : Result CaptureError ReadThroughBarrier :=
  bytes ← read_bounded_metadata file;
  text ← ok_or NotUtf8 (from_utf8 bytes);
  sequence ← capture_lines self None
               (List.filter (fun line => bool_decide (trim line <> [])) (lines text));
  mkBarrier self <$> ok_or MissingRecord sequence.

Definition capture (self : QueueIdentity) (file : option ProcFile)
    : Result CaptureError ReadThroughBarrier :=
  file ← ok_or CannotOpen file; capture_from self file.

(** ** The bounded read is exact *)

Lemma read_spec file call position room chunk :
  read file call position room = Ok (Some chunk) ->
  chunk `prefix_of` drop position file.(content)
  /\ (length chunk <= room)%nat
  /\ (chunk = [] -> (0 < room)%nat -> drop position file.(content) = []).
Proof.
  unfold read. destruct (outcome file call) as [n| |]; [|done..]. intros [= <-].
  split; [apply prefix_take|]. rewrite length_take. split; [lia|].
  intros He Hr. destruct (drop position (content file)); [done|].
  by destruct (Nat.min (Nat.max 1 n) room) eqn:E; [lia|].
Qed.

Lemma prefix_grows file buffer chunk :
  buffer `prefix_of` file.(content) -> chunk `prefix_of` drop (length buffer) file.(content) ->
  buffer ++ chunk `prefix_of` file.(content).
Proof.
  intros [rest ->] Hc. rewrite drop_app_length in Hc. by apply prefix_app.
Qed.

Lemma prefix_all file buffer :
  buffer `prefix_of` file.(content) -> drop (length buffer) file.(content) = [] -> buffer = file.(content).
Proof. intros [rest Hrest]. rewrite Hrest, drop_app_length. intros ->. by rewrite app_nil_r. Qed.

Lemma fill_exact file : forall calls buffer filled,
  buffer `prefix_of` file.(content) -> zlen buffer <= MAX_PROC_BYTES ->
  fill file calls buffer = Ok filled ->
  filled.1 `prefix_of` file.(content) /\ zlen filled.1 <= MAX_PROC_BYTES
  /\ (zlen filled.1 = MAX_PROC_BYTES \/ filled.1 = file.(content)).
Proof.
  induction calls as [|calls IH]; intros buffer filled Hpre Hlen; cbn [fill];
    destruct (Z.ltb_spec (zlen buffer) MAX_PROC_BYTES) as [Hlt|Hge]; cbn [negb];
    try (intros [= <-]; cbn; split; [done|]; split; [done|left; lia]); [done|].
  intros Hf. apply seq_Ok in Hf as [_ Hf]. apply bind_Ok_inv in Hf as ([chunk|] & Hr & Hf); [|by eapply IH].
  apply read_spec in Hr as (Hchunk & Hroom & Hend). unfold zlen in *.
  destruct chunk as [|b chunk].
  - injection Hf as <-. cbn. split; [done|]. split; [done|]. right. apply prefix_all; [done|].
    apply Hend; [done|]. lia.
  - eapply IH; [..|exact Hf]; [by apply prefix_grows|]. rewrite length_app. lia.
Qed.

Lemma probe_end file : forall calls remaining,
  probe file calls = Ok remaining -> drop (Z.to_nat MAX_PROC_BYTES) file.(content) = [].
Proof.
  induction calls as [|calls IH]; intros remaining; cbn [probe]; [done|]. intros Hp.
  apply seq_Ok in Hp as [_ Hp]. apply bind_Ok_inv in Hp as ([[|]|] & Hr & Hp); [|done|by eapply IH].
  apply read_spec in Hr as (_ & _ & Hend). apply Hend; [done|lia].
Qed.

Lemma read_bounded_exact file bytes :
  read_bounded_metadata file = Ok bytes -> bytes = file.(content).
Proof.
  unfold read_bounded_metadata. intros Hr. apply bind_Ok_inv in Hr as (filled & Hf & Hr).
  apply fill_exact in Hf as (Hpre & Hlen & Hcase); [|apply prefix_nil|done].
  apply bind_Ok_inv in Hr as (remaining & Hp & Hr). apply seq_Ok in Hr as [_ [= <-]].
  destruct Hcase as [Hmax|?]; [|done]. rewrite Hmax in Hp. cbn [Z.eqb Pos.eqb] in Hp.
  apply probe_end in Hp. apply prefix_all; [done|].
  replace (length filled.1) with (Z.to_nat MAX_PROC_BYTES); [done|]. unfold zlen in Hmax. lia.
Qed.

(** ** Printing and reading numbers *)

Lemma of_uint_acc_ge d : forall acc, Z.pos acc <= Z.pos (Pos.of_uint_acc d acc).
Proof.
  induction d as [|d IH|d IH|d IH|d IH|d IH|d IH|d IH|d IH|d IH|d IH]; intros acc;
    cbn [Pos.of_uint_acc]; [lia|..]; (etrans; [|apply IH]); lia.
Qed.

Lemma digits_acc max d : forall acc,
  Z.pos (Pos.of_uint_acc d acc) <= max ->
  parse_digits max (Z.pos acc) (lit (NilEmpty.string_of_uint d)) = Some (Z.pos (Pos.of_uint_acc d acc)).
Proof.
  induction d as [|d IH|d IH|d IH|d IH|d IH|d IH|d IH|d IH|d IH|d IH]; intros acc Hmax; [done|..];
    cbn [Pos.of_uint_acc NilEmpty.string_of_uint lit parse_digits] in *;
    match type of Hmax with Z.pos (Pos.of_uint_acc _ ?a) <= _ => pose proof (of_uint_acc_ge d a);
      match goal with |- (if _ then _ else _) = _ =>
        change (in_range 48 57 _) with true; cbv iota zeta;
        match goal with |- (if ?x <=? _ then _ else _) = _ =>
          replace x with (Z.pos a) by (cbn; lia) end end;
      destruct (Z.leb_spec (Z.pos a) max) as [|Hgt]; [by apply IH|lia]
    end.
Qed.

Lemma digits_zero max d :
  Z.of_N (Pos.of_uint d) <= max ->
  parse_digits max 0 (lit (NilEmpty.string_of_uint d)) = Some (Z.of_N (Pos.of_uint d)).
Proof.
  induction d as [|d IH|d IH|d IH|d IH|d IH|d IH|d IH|d IH|d IH|d IH]; intros Hmax; [done|..];
    cbn [Pos.of_uint NilEmpty.string_of_uint lit parse_digits Z.of_N] in *.
  { change (in_range 48 57 _) with true. cbv iota zeta.
    match goal with |- (if ?x <=? _ then _ else _) = _ => change x with 0 end.
    destruct (Z.leb_spec 0 max) as [|Hneg]; [by apply IH|]. lia. }
  all: change (in_range 48 57 _) with true; cbv iota zeta;
    match type of Hmax with Z.pos (Pos.of_uint_acc _ ?a) <= _ =>
      assert (Z.pos a <= max) by (etrans; [|exact Hmax]; apply of_uint_acc_ge);
      match goal with |- (if ?x <=? _ then _ else _) = _ => replace x with (Z.pos a) by (cbn; lia) end;
      destruct (Z.leb_spec (Z.pos a) max); [by apply digits_acc|lia]
    end.
Qed.

Lemma parse_dec max n : 0 <= n <= max -> parse_unsigned max (dec n) = Some n.
Proof.
  intros Hn. unfold dec. set (d := N.to_uint (Z.to_N n)).
  assert (Hd : Z.of_N (Pos.of_uint d) = n).
  { change (Pos.of_uint d) with (N.of_uint d). unfold d. rewrite DecimalN.Unsigned.of_to. lia. }
  assert (Hnil : d <> Decimal.Nil) by apply to_uint_nonnil. clearbody d.
  pose proof (digits_zero max d ltac:(lia)) as Hz. rewrite Hd in Hz.
  unfold parse_unsigned. by destruct d.
Qed.

Definition is_digit (c : Z) : Prop := 48 <= c <= 57.

Lemma dec_digits n : Forall is_digit (dec n) /\ dec n <> [].
Proof.
  unfold dec. set (d := N.to_uint (Z.to_N n)).
  assert (Hnil : d <> Decimal.Nil) by apply to_uint_nonnil. clearbody d.
  assert (Hall : forall e, Forall is_digit (lit (NilEmpty.string_of_uint e))).
  { induction e; cbn [NilEmpty.string_of_uint lit]; constructor; try done; by vm_compute. }
  specialize (Hall d). destruct d; [done|..]; by split.
Qed.

(** ** Printing and reading the table *)

(** A record of the kernel's table. *)
Record QueueRow : Type := mkQueueRow {
  row_number : Z;
  row_port : Z;
  row_total : Z;
  row_copy_mode : Z;
  row_copy_range : Z;
  row_dropped : Z;
  row_user_dropped : Z;
  row_sequence : Z;
  row_use : Z
}.

Definition row_values (r : QueueRow) : list Z :=
  [r.(row_port); r.(row_total); r.(row_copy_mode); r.(row_copy_range); r.(row_dropped);
   r.(row_user_dropped); r.(row_sequence); r.(row_use)].

(** The numbers of a record with spaces between them; [gap] is the padding. *)
Definition print_field (gap : Z -> nat) (v : Z) : ustring := replicate (S (gap v)) 32 ++ dec v.
Definition print_row (gap : Z -> nat) (r : QueueRow) : ustring :=
  replicate (gap r.(row_number)) 32 ++ dec r.(row_number) ++ concat (print_field gap <$> row_values r).
Definition print_table (gap : Z -> nat) (rows : list QueueRow) : ustring :=
  concat ((fun r => print_row gap r ++ [10]) <$> rows).

Definition row_ok (r : QueueRow) : Prop :=
  0 <= r.(row_number) <= U16_MAX /\ Forall (fun v => 0 <= v <= U32_MAX) (row_values r).

Lemma split_fields_spaces n s : split_fields (replicate n 32 ++ s) = split_fields s.
Proof. induction n as [|n IH]; [done|]. exact IH. Qed.

Lemma split_fields_word w s :
  Forall (fun c => is_ascii_whitespace c = false) w -> w <> [] -> (s = [] \/ exists s', s = 32 :: s') ->
  split_fields (w ++ s) = w :: split_fields s.
Proof.
  intros Hw Hne Hs. induction Hw as [|c w Hc Hw IH]; [done|]. cbn [app split_fields]. rewrite Hc.
  destruct w as [|d w].
  - cbn [app]. destruct Hs as [->|[s' ->]]; done.
  - specialize (IH ltac:(done)). cbn [app] in *. apply Forall_cons in Hw as [Hd _]. by rewrite Hd, IH.
Qed.

Lemma dec_word n : Forall (fun c => is_ascii_whitespace c = false) (dec n) /\ dec n <> [].
Proof.
  destruct (dec_digits n) as [Hd Hne]. split; [|done]. eapply Forall_impl; [exact Hd|].
  intros c. unfold is_ascii_whitespace, is_digit. lia.
Qed.

Lemma split_fields_row gap vs : split_fields (concat (print_field gap <$> vs)) = dec <$> vs.
Proof.
  induction vs as [|v vs IH]; [done|]. cbn [fmap list_fmap concat].
  unfold print_field at 1. rewrite <-app_assoc, split_fields_spaces, split_fields_word; [by rewrite IH|..].
  - apply dec_word.
  - apply dec_word.
  - destruct vs; [by left|right; by eexists].
Qed.

Lemma print_row_fields gap r : split_fields (print_row gap r) = dec (row_number r) :: (dec <$> row_values r).
Proof.
  unfold print_row. rewrite split_fields_spaces, split_fields_word; [by rewrite split_fields_row|..];
    [apply dec_word..|right; by eexists].
Qed.

Lemma read_values_dec vs : Forall (fun v => 0 <= v <= U32_MAX) vs ->
  read_values (length vs) (dec <$> vs) = Ok (vs, []).
Proof.
  induction 1 as [|v vs Hv _ IH]; [done|]. cbn [length read_values fmap list_fmap].
  rewrite parse_dec by done. cbn [ok_or mbind Result_bind]. by rewrite IH.
Qed.

(** ** What the table says *)

(** The barrier of the queue in a table: one record, of this socket, with this
    configuration. *)
Definition table_barrier (self : QueueIdentity) (rows : list QueueRow)
    : Result CaptureError ReadThroughBarrier :=
  match List.filter (fun r => r.(row_number) =? APPLICATION_QUEUE_NUMBER) rows with
  | [] => Err MissingRecord
  | r :: more =>
      if negb (r.(row_port) =? self.(port_id)) then Err OwnerChanged
      else if negb ((r.(row_copy_mode) =? 2) && (r.(row_copy_range) =? 512) && (r.(row_use) =? 1))
      then Err ConfigurationChanged
      else match more with
           | [] => Ok (mkBarrier self r.(row_sequence))
           | _ => Err DuplicatedRecord
           end
  end.

Lemma capture_line_row self gap r sequence :
  row_ok r ->
  capture_line self sequence (print_row gap r)
  = if negb (row_number r =? APPLICATION_QUEUE_NUMBER) then Ok sequence
    else if is_some sequence then Err DuplicatedRecord
    else if negb (row_port r =? port_id self) then Err OwnerChanged
    else if negb ((row_copy_mode r =? 2) && (row_copy_range r =? 512) && (row_use r =? 1))
    then Err ConfigurationChanged
    else Ok (Some (row_sequence r)).
Proof.
  intros [Hn Hv]. unfold capture_line. rewrite print_row_fields. cbn [head tail ok_or mbind Result_bind].
  rewrite parse_dec by done. cbn [ok_or mbind Result_bind].
  destruct (row_number r =? APPLICATION_QUEUE_NUMBER); cbn [negb]; [|done].
  destruct sequence; cbn [is_none is_some ensure mbind Result_bind]; [done|].
  change 8%nat with (length (row_values r)). rewrite (read_values_dec _ Hv).
  cbn [mbind Result_bind fst snd]. rewrite bool_decide_eq_true_2 by done.
  cbn [ensure mbind Result_bind nth row_values].
  destruct (row_port r =? port_id self); cbn [ensure mbind Result_bind negb]; [|done].
  by destruct ((row_copy_mode r =? 2) && _ && _).
Qed.

Lemma capture_lines_again self gap rows s : Forall row_ok rows ->
  capture_lines self (Some s) (print_row gap <$> rows)
  = match List.filter (fun r => row_number r =? APPLICATION_QUEUE_NUMBER) rows with
    | [] => Ok (Some s)
    | _ => Err DuplicatedRecord
    end.
Proof.
  induction 1 as [|r rows Hr Hrows IH]; [done|].
  cbn [fmap list_fmap capture_lines List.filter]. rewrite capture_line_row by done.
  by destruct (row_number r =? APPLICATION_QUEUE_NUMBER).
Qed.

Lemma capture_lines_rows self gap rows : Forall row_ok rows ->
  (sequence ← capture_lines self None (print_row gap <$> rows);
   mkBarrier self <$> ok_or MissingRecord sequence) = table_barrier self rows.
Proof.
  unfold table_barrier. induction 1 as [|r rows Hr Hrows IH]; [done|].
  cbn [fmap list_fmap capture_lines List.filter]. rewrite capture_line_row by done.
  destruct (row_number r =? APPLICATION_QUEUE_NUMBER); cbn [negb is_some]; [|exact IH].
  destruct (row_port r =? port_id self); cbn [negb]; [|done].
  destruct ((row_copy_mode r =? 2) && _ && _); cbn [negb]; [|done]. cbn [mbind Result_bind].
  rewrite capture_lines_again by done. by destruct (List.filter _ rows).
Qed.

(** *** Lines *)

Definition is_row_char (c : Z) : Prop := c = 32 \/ is_digit c.

Lemma print_row_chars gap r : Forall is_row_char (print_row gap r) /\ exists c, c ∈ print_row gap r /\ is_digit c.
Proof.
  assert (Hdec : forall n, Forall is_row_char (dec n)).
  { intros n. eapply Forall_impl; [apply dec_digits|]. by right. }
  assert (Hpad : forall n, Forall is_row_char (replicate n 32)).
  { intros n. apply Forall_replicate. by left. }
  unfold print_row. split.
  - rewrite !Forall_app. split; [done|]. split; [done|]. apply Forall_concat, Forall_fmap, Forall_true.
    intros v. unfold compose, print_field. by rewrite Forall_app.
  - destruct (dec_digits (row_number r)) as [Hd Hne]. destruct (dec (row_number r)) as [|c cs]; [done|].
    apply Forall_cons in Hd as [Hc _]. exists c. split; [|done]. rewrite !elem_of_app. right. left. left.
Qed.

Lemma split_char_row sep w s : sep ∉ w -> split_char sep (w ++ sep :: s) = w :: split_char sep s.
Proof.
  induction w as [|c w IH]; cbn [app split_char]; [by rewrite Z.eqb_refl|].
  rewrite not_elem_of_cons. intros [Hc Hw]. rewrite (proj2 (Z.eqb_neq c sep)) by done. by rewrite IH.
Qed.

Lemma lines_print ls :
  Forall (fun line => 10 ∉ line /\ 13 ∉ line) ls -> lines (concat ((fun line => line ++ [10]) <$> ls)) = ls.
Proof.
  intros Hls.
  assert (Hsplit : split_char 10 (concat ((fun line => line ++ [10]) <$> ls)) = ls ++ [[]]).
  { induction Hls as [|line ls [Hline _] _ IH]; [done|]. cbn [fmap list_fmap concat app].
    rewrite <-app_assoc. cbn [app]. rewrite split_char_row by done. by rewrite IH. }
  unfold lines. rewrite Hsplit, removelast_last, last_snoc, app_nil_r.
  rewrite <-(list_fmap_id ls) at 2. apply list_fmap_ext. intros i line Hl.
  rewrite Forall_lookup in Hls. destruct (Hls _ _ Hl) as [_ Hr]. unfold strip_cr, id.
  destruct (last line) as [c|] eqn:E; [|done]. apply last_Some_elem_of in E.
  by destruct (Z.eqb_spec c 13) as [->|].
Qed.

Lemma lines_table gap rows : lines (print_table gap rows) = print_row gap <$> rows.
Proof.
  change (print_table gap rows) with (concat ((fun line => line ++ [10]) ∘ print_row gap <$> rows)).
  rewrite list_fmap_compose. apply lines_print, Forall_fmap, Forall_true. intros r. destruct (print_row_chars gap r) as [Hall _].
  rewrite Forall_forall in Hall. unfold is_row_char, is_digit in Hall.
  split; intros Hin; destruct (Hall _ Hin); lia.
Qed.

Lemma trim_start_nonempty s c : c ∈ s -> is_whitespace c = false -> c ∈ trim_start s.
Proof.
  induction s as [|d s IH]; [by intros ?%elem_of_nil|]. cbn [trim_start]. intros Hin Hc.
  destruct (is_whitespace d) eqn:Hd; [|done]. apply elem_of_cons in Hin as [->|?]; [congruence|by apply IH].
Qed.

Lemma row_not_blank gap r : trim (print_row gap r) <> [].
Proof.
  destruct (print_row_chars gap r) as [_ (c & Hin & Hc)].
  assert (Hws : is_whitespace c = false) by (unfold is_whitespace, in_range, is_digit in *; lia).
  apply (trim_start_nonempty _ c) in Hin; [|done]. unfold trim. intros E.
  apply (f_equal (@rev Z)) in E. rewrite rev_involutive in E. cbn in E.
  assert (Hin' : c ∈ rev (trim_start (print_row gap r))) by (by apply list_elem_of_In, in_rev; rewrite rev_involutive; apply list_elem_of_In).
  apply (trim_start_nonempty _ c) in Hin'; [|done]. rewrite E in Hin'. by apply elem_of_nil in Hin'.
Qed.

Lemma utf8_ascii s : Forall (fun c => 0 <= c <= 127) s -> from_utf8 s = Some s.
Proof.
  unfold from_utf8. induction 1 as [|c s Hc Hs IH]; [done|]. cbn [length utf8_go].
  assert (in_range 0 0x7f c = true) as -> by (unfold in_range; lia). by rewrite IH.
Qed.

(** Every call delivers all there is, in time. *)
Definition prompt (file : ProcFile) : Prop := forall call,
  elapsed file call < READ_BUDGET
  /\ exists n, outcome file call = Deliver n /\ (Z.to_nat MAX_PROC_BYTES <= n)%nat.

Lemma read_prompt file call position :
  prompt file -> zlen (content file) < MAX_PROC_BYTES -> (position <= length (content file))%nat ->
  read file call position (Z.to_nat MAX_PROC_BYTES - position) = Ok (Some (drop position (content file))).
Proof.
  intros Hp Hlen Hpos. destruct (Hp call) as [_ (n & Hn & Hle)]. unfold read, zlen in *. rewrite Hn.
  do 2 f_equal. apply take_ge. rewrite length_drop. lia.
Qed.

Lemma prompt_read file :
  prompt file -> zlen (content file) < MAX_PROC_BYTES -> read_bounded_metadata file = Ok (content file).
Proof.
  intros Hp Hlen. assert (Ht : forall call, (elapsed file call <? READ_BUDGET) = true).
  { intros call. apply Z.ltb_lt, Hp. }
  assert (Hstep : forall calls buffer, zlen buffer < MAX_PROC_BYTES -> buffer = take (length buffer) (content file) ->
    fill file (S calls) buffer = match drop (length buffer) (content file) with
      | [] => Ok (buffer, calls) | rest => fill file calls (buffer ++ rest) end).
  { intros calls buffer Hb Hpre. cbn [fill]. rewrite (proj2 (Z.ltb_lt _ _) Hb). cbn [negb]. rewrite Ht.
    cbn [ensure mbind Result_bind]. rewrite read_prompt; [by destruct (drop _ _)|done..|].
    apply (f_equal length) in Hpre. rewrite length_take in Hpre. lia. }
  assert (Hfill : exists calls, forall n, fill file (S (S n)) [] = Ok (content file, (n + calls)%nat)).
  { destruct (content file) as [|c cs] eqn:E.
    - exists 1%nat. intros n. rewrite Hstep by done. cbn. f_equal. f_equal. lia.
    - exists 0%nat. intros n. rewrite Hstep by done. cbn [length drop app]. rewrite Hstep.
      + rewrite drop_all. do 2 f_equal. lia.
      + done.
      + by rewrite firstn_all. }
  destruct Hfill as [calls Hfill]. unfold read_bounded_metadata.
  change MAX_READ_CALLS with (S (S 126)) at 1. rewrite Hfill. cbn [mbind Result_bind fst snd].
  rewrite (proj2 (Z.eqb_neq _ _)) by lia. cbn [mbind Result_bind mret Result_ret]. by rewrite Ht.
Qed.

(** The barrier of a held reply is the packet sequence of the queue.  If
    the kernel's table holds the given records, with any padding, then however
    the reads are cut or interrupted, the capture fails with the read's own
    error or answers exactly what the table says: the sequence of the only
    record of the queue if this socket owns it with the right configuration,
    and the error that names what is wrong otherwise.  A table that fits is read
    when every read delivers in time. *)
Theorem capture_reads_the_table self file gap rows :
  content file = print_table gap rows -> Forall row_ok rows ->
  capture_from self file
  = match read_bounded_metadata file with
    | Ok _ => table_barrier self rows
    | Err e => Err e
    end
  /\ (prompt file -> zlen (content file) < MAX_PROC_BYTES ->
      read_bounded_metadata file = Ok (content file)).
Proof.
  intros Hc Hrows. split; [|apply prompt_read]. unfold capture_from. destruct (read_bounded_metadata file) as [bytes|] eqn:Hr; [|done].
  apply read_bounded_exact in Hr. rewrite Hc in Hr. subst bytes. cbn [mbind Result_bind].
  rewrite utf8_ascii.
  - cbn [ok_or mbind Result_bind]. rewrite lines_table.
    rewrite (List.forallb_filter_id _ (print_row gap <$> rows)); [by apply capture_lines_rows|].
    apply forallb_forall. intros line Hin. apply list_elem_of_In, list_elem_of_fmap in Hin as (r & -> & _).
    apply bool_decide_eq_true. apply row_not_blank.
  - unfold print_table. apply Forall_concat, Forall_fmap, Forall_true. intros r. unfold compose.
    apply Forall_app. split; [|by repeat constructor].
    eapply Forall_impl; [apply print_row_chars|]. unfold is_row_char, is_digit. intros c. lia.
Qed.

(** ** Witness *)

Definition sample_rows : list QueueRow :=
  [mkQueueRow 1338 9 0 2 512 0 0 3 1; mkQueueRow 1337 77 1 2 512 0 0 42 1].
Definition sample_table : ProcFile :=
  mkProcFile (print_table (fun _ => 2%nat) sample_rows) (fun _ => Deliver (Z.to_nat 20000)) (fun _ => 0).

Lemma capture_reads_the_table_witness :
  capture_from (mkIdentity 77 1) sample_table = Ok (mkBarrier (mkIdentity 77 1) 42).
Proof.
  destruct (capture_reads_the_table (mkIdentity 77 1) sample_table (fun _ => 2%nat) sample_rows) as [Hc Hr].
  - reflexivity.
  - repeat constructor; cbn; unfold U16_MAX, U32_MAX; lia.
  - rewrite Hc, Hr; [reflexivity| |vm_compute; reflexivity].
    intros call. split; [reflexivity|]. exists (Z.to_nat 20000). split; [reflexivity|]. lia.
Defined.
