(* ===== verification/SocketDiag.v ===== *)
(** * Which socket sent a packet

    [application.rs] of the daemon: the question to the kernel's socket
    diagnosis for the socket behind a connection, the answer in several netlink
    datagrams, and the socket tables of procfs that serve connections without a
    diagnosis.  The socket that is found is named by its inode.  What the
    kernel delivers and the readings of the clock are arguments. *)

From S2P Require Import Prelude Text Net Model Netlink Decision Capture.
Local Open Scope Z_scope.

Abbreviation SOCK_DIAG_DEADLINE := 250000000 (only parsing).
Abbreviation MAX_PROC_ENTRIES := 131072 (only parsing).
Abbreviation PROC_CHUNK := (Z.to_nat (8 * 1024)) (only parsing).
Abbreviation MAX_SOCKET_TABLE_BYTES := (16 * 1024 * 1024) (only parsing).
Abbreviation MAX_SOCK_DIAG_RESPONSE_BYTES := MAX_SOCKET_TABLE_BYTES (only parsing).
Abbreviation SOCK_DIAG_RECEIVE_BUFFER_BYTES := (64 * 1024) (only parsing).
Abbreviation INET_DIAG_MESSAGE_BYTES := 72 (only parsing).
Abbreviation SOCK_DIAG_REQUEST_BYTES := 72 (only parsing).
Abbreviation SOCK_DIAG_BY_FAMILY := 20 (only parsing).
Abbreviation NLM_F_MULTI := 0x02 (only parsing).
Abbreviation NLM_F_DUMP_INTR := 0x10 (only parsing).
Abbreviation NLM_F_DUMP := 0x300 (only parsing).
Abbreviation NLMSG_ERROR := 0x02 (only parsing).
Abbreviation NLMSG_DONE := 0x03 (only parsing).
Abbreviation NLMSG_OVERRUN := 0x04 (only parsing).
Abbreviation INET_DIAG_NOCOOKIE := U32_MAX (only parsing).
Abbreviation AF_INET := 2 (only parsing).
Abbreviation AF_INET6 := 10 (only parsing).
Abbreviation IPPROTO_TCP := 6 (only parsing).
Abbreviation IPPROTO_UDP := 17 (only parsing).

(** [ProcfsAttributionTimeout] and the other errors; [Parsing] is one of the
    [ensure!]s about the bytes of an answer, or a failed bounds check. *)
Inductive DiagError : Type :=
| AttributionTimeout
| ConnectionInvalid (error : ConnectionError)
| OnlyTcpAndUdp
| SequenceExhausted
| RequestNotBuilt
| RequestNotSent
| PollFailed
| SocketFailed
| DiagReceiveFailed
| TruncationBoundary
| SocketNotOpened
| InvalidLocalAddress
| NoSender
| NotFromKernel
| EmptyDatagram
| ResponseBytesExceeded
| MessagesExceeded
| MissingOrAmbiguous
| Parsing (error : ParseError)
| UnsupportedTable
| TableNotRead
| TableTooLarge
| TableNotUtf8
| EntriesExceeded
| InvalidInode
| InvalidUid
| NoPortSeparator
| InvalidPort
| InvalidAddress
| InvalidWidth.

(** ** Candidates *)

Record SocketCandidate : Type := mkCandidate {
  sc_local_address : IpAddr;
  sc_local_port : Z;
  sc_remote_address : IpAddr;
  sc_remote_port : Z;
  sc_uid : Z;
  sc_inode : Z
}.

Definition is_unspecified (a : IpAddr) : bool := match a with IpV4 a | IpV6 a => a =? 0 end.

Definition candidate_matches (self : SocketCandidate) (connection : OutboundConnection) : bool :=
  match connection.(source_port) with
  | None => false
  | Some source_port =>
      (self.(sc_local_port) =? source_port)
      && ((self.(sc_local_address) ==? connection.(source_address)) || is_unspecified self.(sc_local_address))
      && ((self.(sc_remote_address) ==? connection.(destination_address))
            && (self.(sc_remote_port) =? default 0 connection.(destination_port))
          || is_unspecified self.(sc_remote_address) && (self.(sc_remote_port) =? 0))
      && negb (self.(sc_inode) =? 0)
  end.

Record SockDiagCandidates : Type := mkCandidates {
  found_inode : option Z;
  ambiguous : bool;
  response_bytes : Z;
  message_count : Z
}.
Definition SockDiagCandidates_default : SockDiagCandidates := mkCandidates None false 0 0.

Definition account_datagram (bytes : Z) (self : SockDiagCandidates)
    : Result DiagError SockDiagCandidates :=
  response_bytes ← ok_or ResponseBytesExceeded (usize_checked_add self.(response_bytes) bytes);
  ensure (response_bytes <=? MAX_SOCK_DIAG_RESPONSE_BYTES) ResponseBytesExceeded ;;
  mret (mkCandidates self.(found_inode) self.(ambiguous) response_bytes self.(message_count)).

Definition account_message (self : SockDiagCandidates) : Result DiagError SockDiagCandidates :=
  message_count ← ok_or MessagesExceeded (usize_checked_add self.(message_count) 1);
  ensure (message_count <=? MAX_PROC_ENTRIES) MessagesExceeded ;;
  mret (mkCandidates self.(found_inode) self.(ambiguous) self.(response_bytes) message_count).

Definition observe (candidate : SocketCandidate) (connection : OutboundConnection)
    (self : SockDiagCandidates) : SockDiagCandidates :=
  if negb (candidate.(sc_uid) =? connection.(socket_uid))
     || negb (candidate_matches candidate connection)
  then self
  else
    match self.(found_inode) with
    | None => mkCandidates (Some candidate.(sc_inode)) self.(ambiguous)
                self.(response_bytes) self.(message_count)
    | Some inode =>
        if inode =? candidate.(sc_inode) then self
        else mkCandidates self.(found_inode) true self.(response_bytes) self.(message_count)
    end.

Definition candidates_finish (self : SockDiagCandidates) : Result DiagError Z :=
  ensure (is_some self.(found_inode) && negb self.(ambiguous)) MissingOrAmbiguous ;;
  ok_or MissingOrAmbiguous self.(found_inode).

(** ** The request *)

Section Diagnosis.
Context `{Target}.

Definition address_octets (address : IpAddr) : Bytes :=
  match address with IpV4 a => be_bytes 4 a | IpV6 a => be_bytes 16 a end.

(** [encode_sock_diag_address] on a field of sixteen bytes. *)
Definition encode_sock_diag_address (address : IpAddr) : Bytes :=
  match address with
  | IpV4 _ => address_octets address ++ replicate 12 0
  | IpV6 _ => address_octets address
  end.

Definition address_family (a : IpAddr) : Z := if is_ipv4 a then AF_INET else AF_INET6.

(** The array of the source, field by field; the gaps are zero. *)
Definition build_sock_diag_request (connection : OutboundConnection) (sequence local_port_id : Z)
    : Result DiagError Bytes :=
  source_port ← ok_or RequestNotBuilt connection.(source_port);
  destination_port ← ok_or RequestNotBuilt connection.(destination_port);
  ensure (Bool.eqb (is_ipv4 connection.(source_address)) (is_ipv4 connection.(destination_address)))
    RequestNotBuilt ;;
  protocol ←
    match connection.(conn_protocol) with
    | Tcp => Ok IPPROTO_TCP
    | Udp => Ok IPPROTO_UDP
    | _ => Err RequestNotBuilt
    end;
  let diagnostic_destination_port :=
    match connection.(conn_protocol) with Tcp => destination_port | _ => 0 end in
  mret (ne_bytes 4 SOCK_DIAG_REQUEST_BYTES ++ ne_bytes 2 SOCK_DIAG_BY_FAMILY
        ++ ne_bytes 2 (Z.lor NLM_F_REQUEST NLM_F_DUMP) ++ ne_bytes 4 sequence
        ++ ne_bytes 4 local_port_id
        ++ [address_family connection.(source_address); protocol; 0; 0]
        ++ ne_bytes 4 U32_MAX
        ++ be_bytes 2 source_port ++ be_bytes 2 diagnostic_destination_port
        ++ encode_sock_diag_address connection.(source_address)
        ++ encode_sock_diag_address connection.(destination_address)
        ++ [0; 0; 0; 0]
        ++ ne_bytes 4 INET_DIAG_NOCOOKIE ++ ne_bytes 4 INET_DIAG_NOCOOKIE).

(** ** The answer *)

(** [read_ne_u16] and the like on a field of the right size. *)
Definition read_ne (width from : Z) (bytes : Bytes) : Result ParseError Z :=
  field ← slice bytes from (from + width); mret (from_ne_bytes field).
Definition read_be_u16 (from : Z) (bytes : Bytes) : Result ParseError Z :=
  field ← slice bytes from (from + 2); mret (from_be_bytes field).
Definition read_ne_i32 (from : Z) (bytes : Bytes) : Result ParseError Z :=
  value ← read_ne 4 from bytes; mret (if 2 ^ 31 <=? value then value - 2 ^ 32 else value).

Definition parse_sock_diag_address (family : Z) (octets : Bytes) : Result ParseError IpAddr :=
  if family =? AF_INET then
    ensure (forallb (fun byte => byte =? 0) (drop 4 octets))
      (Malformed "SOCK_DIAG IPv4 address has nonzero extension bytes") ;;
    mret (IpV4 (from_be_bytes (take 4 octets)))
  else if family =? AF_INET6 then mret (IpV6 (from_be_bytes octets))
  else Err (Malformed "SOCK_DIAG response has an unsupported address family").

Definition parse_sock_diag_candidate (payload : Bytes) (connection : OutboundConnection)
    : Result ParseError SocketCandidate :=
  ensure (INET_DIAG_MESSAGE_BYTES <=? zlen payload) (Malformed "inet_diag_msg payload is truncated") ;;
  family ← index payload 0;
  ensure (family =? address_family connection.(source_address))
    (Malformed "SOCK_DIAG response address family does not match the request") ;;
  local ← slice payload 8 24;
  local_address ← parse_sock_diag_address family local;
  remote ← slice payload 24 40;
  remote_address ← parse_sock_diag_address family remote;
  local_port ← read_be_u16 4 payload;
  remote_port ← read_be_u16 6 payload;
  uid ← read_ne 4 64 payload;
  inode ← read_ne 4 68 payload;
  mret (mkCandidate local_address local_port remote_address remote_port uid inode).

(** How far a message reaches: Linux may omit the padding of the last one. *)
Definition consumed_bytes (length remaining : Z) : Result ParseError Z :=
  aligned_length ← align4 length;
  if aligned_length <=? remaining then mret aligned_length
  else if length =? remaining then mret length
  else Err (Malformed "SOCK_DIAG netlink message alignment is invalid").

(** What a message does to the candidates; [None] when the dump is complete. *)
Definition dispatch_message (message_type flags : Z) (payload : Bytes) (is_last : bool)
    (connection : OutboundConnection) (candidates : SockDiagCandidates)
    : Result ParseError (option SockDiagCandidates) :=
  if message_type =? SOCK_DIAG_BY_FAMILY then
    ensure (negb (Z.land flags NLM_F_MULTI =? 0)) (Malformed "SOCK_DIAG dump response is not multipart") ;;
    candidate ← parse_sock_diag_candidate payload connection;
    mret (Some (observe candidate connection candidates))
  else if message_type =? NLMSG_DONE then
    ensure is_last (Malformed "SOCK_DIAG completion is not the final netlink message") ;;
    (if bool_decide (payload = []) then mret tt
     else
       ensure (4 <=? zlen payload) (Malformed "SOCK_DIAG completion status is truncated") ;;
       status ← read_ne_i32 0 payload;
       ensure (status =? 0) (Malformed "kernel terminated SOCK_DIAG dump with status")) ;;
    mret None
  else if message_type =? NLMSG_ERROR then
    ensure (4 <=? zlen payload) (Malformed "SOCK_DIAG netlink error is truncated") ;;
    error ← read_ne_i32 0 payload;
    ensure (error <? 0) (Malformed "SOCK_DIAG returned an unexpected successful acknowledgement") ;;
    Err (Malformed "kernel rejected SOCK_DIAG request")
  else if message_type =? NLMSG_OVERRUN then
    Err (Malformed "kernel reported a SOCK_DIAG response overrun")
  else Err (Malformed "SOCK_DIAG returned an unexpected netlink message type").

(** The loop over the bytes that remain; the candidates, and whether the dump
    is complete. *)
Fixpoint process_messages (fuel : nat) (remaining : Bytes) (expected_sequence expected_port_id : Z)
    (connection : OutboundConnection) (candidates : SockDiagCandidates)
    : Result DiagError (SockDiagCandidates * bool) :=
  match fuel with
  | O => Err (Parsing Panic)
  | S fuel =>
      if bool_decide (remaining = []) then mret (candidates, false)
      else
        ensure (NETLINK_HEADER_BYTES <=? zlen remaining)
          (Parsing (Malformed "SOCK_DIAG netlink header is truncated")) ;;
        length ← map_err Parsing (read_ne 4 0 remaining);
        ensure ((NETLINK_HEADER_BYTES <=? length) && (length <=? zlen remaining))
          (Parsing (Malformed "SOCK_DIAG netlink message length is invalid")) ;;
        consumed ← map_err Parsing (consumed_bytes length (zlen remaining));
        message_type ← map_err Parsing (read_ne 2 4 remaining);
        flags ← map_err Parsing (read_ne 2 6 remaining);
        sequence ← map_err Parsing (read_ne 4 8 remaining);
        port_id ← map_err Parsing (read_ne 4 12 remaining);
        ensure (sequence =? expected_sequence)
          (Parsing (Malformed "SOCK_DIAG response sequence does not match the request")) ;;
        ensure (port_id =? expected_port_id)
          (Parsing (Malformed "SOCK_DIAG response port ID does not match the bound socket")) ;;
        ensure (Z.land flags NLM_F_DUMP_INTR =? 0)
          (Parsing (Malformed "SOCK_DIAG dump was interrupted and may be incomplete")) ;;
        candidates ← account_message candidates;
        payload ← map_err Parsing (slice remaining NETLINK_HEADER_BYTES length);
        next ← map_err Parsing
                 (dispatch_message message_type flags payload (consumed =? zlen remaining)
                    connection candidates);
        match next with
        | None => mret (candidates, true)
        | Some candidates =>
            process_messages fuel (drop (Z.to_nat consumed) remaining) expected_sequence
              expected_port_id connection candidates
        end
  end.

Definition process_sock_diag_datagram (bytes : Bytes) (expected_sequence expected_port_id : Z)
    (connection : OutboundConnection) (candidates : SockDiagCandidates)
    : Result DiagError (SockDiagCandidates * bool) :=
  process_messages (S (length bytes)) bytes expected_sequence expected_port_id connection candidates.

(** ** The conversation *)

(** What [poll] and [recvfrom] give in one round of the loop: nothing yet, no
    more time in this call, an error, or a datagram with its sender. *)
Inductive DiagEvent : Type :=
| DiagInterrupted
| DiagSilent
| DiagPollFails
| DiagSocketFails
| DiagReceiveFails
| DiagDatagram (sender : option (Z * Z)) (bytes : Bytes).

(** A socket: what the program keeps of it, and what the kernel will do on it. *)
Record SockDiagSocket : Type := mkDiagSocket {
  local_port_id : Z;
  diag_sequence : Z;
  diag_sends : list bool;
  diag_events : list DiagEvent
}.

(** The kernel's sockets to come, with the address each is bound to; the clock
    is read at [readings]. *)
Record Resolver : Type := mkResolver {
  readings : nat;
  sock_diag : option SockDiagSocket;
  kernel_sockets : list (option (Z * Z * list bool * list DiagEvent))
}.

Definition set_sock_diag (v : option SockDiagSocket) (r : Resolver) : Resolver :=
  mkResolver r.(readings) v r.(kernel_sockets).

Section Conversation.
Context (instant : nat -> Z).

Definition next_instant {E} : ST Resolver E Z :=
  r ← get;
  modify (fun r => mkResolver (S r.(readings)) r.(sock_diag) r.(kernel_sockets)) ;;
  mret (instant r.(readings)).

Definition ensure_within_deadline (deadline : Z) : ST Resolver DiagError unit :=
  now ← next_instant;
  lift (ensure (now <=? deadline) AttributionTimeout).

(** In milliseconds; instants are nanoseconds. *)
Definition attribution_poll_timeout (deadline : Z) : ST Resolver DiagError Z :=
  now ← next_instant;
  lift (ensure (now <=? deadline) AttributionTimeout) ;;
  lift (fail_if (deadline - now =? 0) AttributionTimeout) ;;
  mret (Z.min U16_MAX (Z.max 1 ((deadline - now) / 1000000))).

Definition SockDiagSocket_open (deadline : Z) : ST Resolver DiagError SockDiagSocket :=
  ensure_within_deadline deadline ;;
  r ← get;
  modify (fun r => mkResolver r.(readings) r.(sock_diag) (tail r.(kernel_sockets))) ;;
  opened ← lift (ok_or SocketNotOpened (default None (head r.(kernel_sockets))));
  let '(pid, groups, sends, events) := opened in
  lift (ensure (negb (pid =? 0) && (groups =? 0)) InvalidLocalAddress) ;;
  ensure_within_deadline deadline ;;
  mret (mkDiagSocket pid 0 sends events).

(** The rounds of [query].  When nothing more comes, the deadline passes. *)
Fixpoint receive_answer (events : list DiagEvent) (connection : OutboundConnection)
    (socket : SockDiagSocket) (deadline : Z) (candidates : SockDiagCandidates)
    : ST Resolver DiagError Z :=
  match events with
  | [] => lift (Err AttributionTimeout)
  | event :: rest =>
      attribution_poll_timeout deadline ;;
      let socket :=
        mkDiagSocket socket.(local_port_id) socket.(diag_sequence) socket.(diag_sends) rest in
      modify (set_sock_diag (Some socket)) ;;
      match event with
      | DiagInterrupted => receive_answer rest connection socket deadline candidates
      | DiagSilent =>
          ensure_within_deadline deadline ;;
          receive_answer rest connection socket deadline candidates
      | DiagPollFails => lift (Err PollFailed)
      | DiagSocketFails => lift (Err SocketFailed)
      | DiagReceiveFails => lift (Err DiagReceiveFailed)
      | DiagDatagram sender bytes =>
          lift (ensure (zlen bytes <? SOCK_DIAG_RECEIVE_BUFFER_BYTES) TruncationBoundary) ;;
          sender ← lift (ok_or NoSender sender);
          lift (ensure ((sender.1 =? 0) && (sender.2 =? 0)) NotFromKernel) ;;
          lift (ensure (negb (zlen bytes =? 0)) EmptyDatagram) ;;
          candidates ← lift (account_datagram (zlen bytes) candidates);
          ensure_within_deadline deadline ;;
          processed ← lift (process_sock_diag_datagram bytes socket.(diag_sequence)
                              socket.(local_port_id) connection candidates);
          if (processed : SockDiagCandidates * bool).2 then
            ensure_within_deadline deadline ;;
            lift (candidates_finish processed.1)
          else
            lift (ensure (negb processed.1.(ambiguous)) MissingOrAmbiguous) ;;
            receive_answer rest connection socket deadline processed.1
      end
  end.

Definition is_tcp_udp (protocol : TransportProtocol) : bool :=
  match protocol with Tcp | Udp => true | _ => false end.

Definition query (socket : SockDiagSocket) (connection : OutboundConnection) (deadline : Z)
    : ST Resolver DiagError Z :=
  lift (map_err ConnectionInvalid (OutboundConnection_validate connection)) ;;
  lift (ensure (is_tcp_udp connection.(conn_protocol)) OnlyTcpAndUdp) ;;
  ensure_within_deadline deadline ;;
  sequence ← lift (ok_or SequenceExhausted (u32_checked_add socket.(diag_sequence) 1));
  let socket := mkDiagSocket socket.(local_port_id) sequence socket.(diag_sends) socket.(diag_events) in
  modify (set_sock_diag (Some socket)) ;;
  request ← lift (build_sock_diag_request connection sequence socket.(local_port_id));
  ensure_within_deadline deadline ;;
  let sent := default true (head socket.(diag_sends)) in
  let socket := mkDiagSocket socket.(local_port_id) sequence (tail socket.(diag_sends))
                  socket.(diag_events) in
  modify (set_sock_diag (Some socket)) ;;
  lift (ensure sent RequestNotSent) ;;
  receive_answer socket.(diag_events) connection socket deadline SockDiagCandidates_default.

(** A socket is kept for the next question only when it has answered this one. *)
Definition resolve_socket_inode_with_sock_diag (connection : OutboundConnection) (deadline : Z)
    : ST Resolver DiagError Z :=
  started ← next_instant;
  let deadline := Z.min deadline (started + SOCK_DIAG_DEADLINE) in
  r ← get;
  socket ←
    match r.(sock_diag) with
    | Some socket => mret socket
    | None =>
        socket ← SockDiagSocket_open deadline;
        modify (set_sock_diag (Some socket)) ;;
        mret socket
    end;
  result ← attempt (query socket connection deadline);
  match result with
  | Ok inode => mret inode
  | Err error => modify (set_sock_diag None) ;; lift (Err error)
  end.

(** ** The socket tables of procfs *)

(** [read_bounded]: chunks until the end of the file, each between two looks at
    the clock.  An interrupted read is an error here.  There are at most as many
    chunks as the file has bytes, and the empty one. *)
Fixpoint read_chunks (fuel : nat) (file : ProcFile) (maximum deadline : Z) (call : nat) (bytes : Bytes)
    : ST Resolver DiagError Bytes :=
  match fuel with
  | O => lift (Err TableNotRead)
  | S fuel =>
      ensure_within_deadline deadline ;;
      chunk ← lift match read file call (length bytes) PROC_CHUNK with
                   | Ok (Some chunk) => Ok chunk
                   | _ => Err TableNotRead
                   end;
      ensure_within_deadline deadline ;;
      match chunk with
      | [] => mret bytes
      | _ =>
          lift (ensure (zlen bytes + zlen chunk <=? maximum) TableTooLarge) ;;
          read_chunks fuel file maximum deadline (S call) (bytes ++ chunk)
      end
  end.

(** [opened] is what [File::open] gives, by the reading of the clock before it. *)
Definition read_bounded (opened : nat -> option ProcFile) (maximum deadline : Z) : ST Resolver DiagError Bytes :=
  ensure_within_deadline deadline ;;
  r ← get;
  file ← lift (ok_or TableNotRead (opened r.(readings)));
  ensure_within_deadline deadline ;;
  read_chunks (S (length file.(content))) file maximum deadline 0 [].

(** [to_le_bytes] of a word in hexadecimal. *)
Definition le_word (word : ustring) : option Bytes :=
  (fun value => rev (be_bytes 4 value)) <$> parse_hex U32_MAX word.

Fixpoint le_words (n : nat) (s : ustring) : option Bytes :=
  match n with
  | O => Some []
  | S n => word ← le_word (take 8 s); rest ← le_words n (drop 8 s); mret (word ++ rest)
  end.

(** A wide address that is not plain ASCII has a chunk that is no number. *)
Definition parse_proc_endpoint (value : ustring) : Result DiagError (IpAddr * Z) :=
  parts ← ok_or NoPortSeparator (rsplit_once 58 value);
  let '(address, port) := parts in
  port ← ok_or InvalidPort (parse_hex U16_MAX port);
  address ←
    (if byte_len address =? 8 then
       IpV4 ∘ from_be_bytes <$> ok_or InvalidAddress (le_word address)
     else if byte_len address =? 32 then
       ensure (forallb (in_range 0 127) address) InvalidAddress ;;
       IpV6 ∘ from_be_bytes <$> ok_or InvalidAddress (le_words 4 address)
     else Err InvalidWidth);
  mret (address, port).

Definition parse_socket_line (line : ustring) : Result DiagError (option SocketCandidate) :=
  match split_fields line with
  | _ :: local_endpoint :: remote_endpoint :: _ :: _ :: _ :: _ :: uid :: _ :: inode :: _ =>
      inode ← ok_or InvalidInode (parse_unsigned U64_MAX inode);
      if inode =? 0 then mret None
      else
        uid ← ok_or InvalidUid (parse_unsigned U32_MAX uid);
        local ← parse_proc_endpoint local_endpoint;
        remote ← parse_proc_endpoint remote_endpoint;
        mret (Some (mkCandidate local.1 local.2 remote.1 remote.2 uid inode))
  | _ => mret None
  end.

(** The loop over the lines, from the index of the next one. *)
Fixpoint scan_socket_lines (index : Z) (lines : list ustring) (connection : OutboundConnection)
    (deadline : Z) (found : SockDiagCandidates) : ST Resolver DiagError SockDiagCandidates :=
  match lines with
  | [] => mret found
  | line :: rest =>
      ensure_within_deadline deadline ;;
      lift (ensure (index <? MAX_PROC_ENTRIES) EntriesExceeded) ;;
      candidate ← lift (parse_socket_line line);
      scan_socket_lines (index + 1) rest connection deadline
        match candidate with
        | Some candidate => observe candidate connection found
        | None => found
        end
  end.

(** [files] is the directory of socket tables, which changes with time. *)
Definition resolve_socket_inode_from_procfs (files : nat -> string -> option ProcFile)
    (connection : OutboundConnection) (deadline : Z) : ST Resolver DiagError Z :=
  table_name ←
    lift match connection.(conn_protocol), connection.(source_address) with
         | Tcp, IpV4 _ => Ok "tcp"%string
         | Tcp, IpV6 _ => Ok "tcp6"%string
         | Udp, IpV4 _ => Ok "udp"%string
         | Udp, IpV6 _ => Ok "udp6"%string
         | Icmp, IpV4 _ => Ok "icmp"%string
         | IcmpV6, IpV6 _ => Ok "icmp6"%string
         | _, _ => Err UnsupportedTable
         end;
  table ← read_bounded (fun n => files n table_name) MAX_SOCKET_TABLE_BYTES deadline;
  text ← lift (ok_or TableNotUtf8 (from_utf8 table));
  found ← scan_socket_lines 0 (tail (lines text)) connection deadline SockDiagCandidates_default;
  lift (ensure (is_some found.(found_inode) && negb found.(ambiguous)) MissingOrAmbiguous) ;;
  ensure_within_deadline deadline ;;
  lift (ok_or MissingOrAmbiguous found.(found_inode)).

(** There is no way back from the diagnosis to procfs. *)
Definition resolve_socket_inode (files : nat -> string -> option ProcFile) (connection : OutboundConnection)
    (deadline : Z) : ST Resolver DiagError Z :=
  if is_tcp_udp connection.(conn_protocol)
  then resolve_socket_inode_with_sock_diag connection deadline
  else resolve_socket_inode_from_procfs files connection deadline.
End Conversation.
End Diagnosis.

(** ** Candidates as a set

    The sockets of the connection among those that were reported, and the only
    inode they have. *)

Definition concerns (connection : OutboundConnection) (c : SocketCandidate) : bool :=
  (sc_uid c =? socket_uid connection) && candidate_matches c connection.

Definition only_inode (connection : OutboundConnection) (rows : list SocketCandidate)
    : Result DiagError Z :=
  match sc_inode <$> List.filter (concerns connection) rows with
  | [] => Err MissingOrAmbiguous
  | inode :: more => if forallb (Z.eqb inode) more then Ok inode else Err MissingOrAmbiguous
  end.

Definition observed (connection : OutboundConnection) : SockDiagCandidates -> list SocketCandidate -> SockDiagCandidates :=
  foldl (fun s c => observe c connection s).

Lemma observe_eq connection c s :
  observe c connection s
  = if concerns connection c then
      mkCandidates (Some (default (sc_inode c) (found_inode s)))
        (ambiguous s || negb (default (sc_inode c) (found_inode s) =? sc_inode c))
        (response_bytes s) (message_count s)
    else s.
Proof.
  unfold observe, concerns. destruct (sc_uid c =? _), (candidate_matches c connection); try done.
  cbn [negb orb andb]. destruct s as [[inode|] amb b n]; cbn.
  - by destruct (inode =? sc_inode c) eqn:E; cbn; rewrite ?orb_false_r, ?orb_true_r.
  - by rewrite Z.eqb_refl, orb_false_r.
Qed.

Lemma observed_spec connection rows : forall s,
  let inodes := sc_inode <$> List.filter (concerns connection) rows in
  let s' := observed connection s rows in
  let found := match found_inode s with Some i => Some i | None => head inodes end in
  found_inode s' = found /\ response_bytes s' = response_bytes s /\ message_count s' = message_count s
  /\ ambiguous s' = ambiguous s || negb (forallb (fun i => is_some_and (fun j => j =? i) found) inodes).
Proof.
  unfold observed. induction rows as [|c rows IH]; intros s; cbn [foldl List.filter].
  { by destruct s as [[|] [] ? ?]. }
  destruct (IH (observe c connection s)) as (Hf & Hb & Hm & Ha). rewrite Hf, Hb, Hm, Ha. clear.
  rewrite observe_eq. destruct (concerns connection c); [|done].
  destruct s as [[i|] amb b n]; cbn; split_and!; try done.
  - by rewrite negb_andb, orb_assoc.
  - by rewrite Z.eqb_refl, orb_false_r.
Qed.

Lemma observed_finish connection s rows :
  found_inode s = None -> ambiguous s = false ->
  candidates_finish (observed connection s rows) = only_inode connection rows.
Proof.
  intros Hn Ha. destruct (observed_spec connection rows s) as (Hf & _ & _ & Ham).
  rewrite Hn in Hf, Ham. unfold candidates_finish, only_inode. rewrite Hf, Ham, Ha.
  destruct (sc_inode <$> _) as [|i more]; [done|]. cbn. rewrite Z.eqb_refl. cbn [andb].
  by destruct (forallb (Z.eqb i) more).
Qed.

Lemma observed_app connection s rows rows' :
  observed connection s (rows ++ rows') = observed connection (observed connection s rows) rows'.
Proof. apply foldl_app. Qed.

(** Once ambiguous, always ambiguous. *)
Lemma ambiguous_mono connection s rows :
  ambiguous s = true -> ambiguous (observed connection s rows) = true.
Proof. intros Ha. destruct (observed_spec connection rows s) as (_ & _ & _ & ->). by rewrite Ha. Qed.

Lemma ambiguous_only connection s rows rows' :
  found_inode s = None -> ambiguous s = false ->
  ambiguous (observed connection s rows) = true ->
  only_inode connection (rows ++ rows') = Err MissingOrAmbiguous.
Proof.
  intros Hn Ha Ham. rewrite <-(observed_finish connection s) by done. rewrite observed_app.
  unfold candidates_finish. rewrite ambiguous_mono by done. by rewrite andb_false_r.
Qed.

(** ** What the kernel sends *)

Section Messages.
Context `{Target}.

(** A netlink message, padded to four bytes. *)
Definition diag_message (type flags sequence port : Z) (payload : Bytes) : Bytes :=
  ne_bytes 4 (16 + zlen payload) ++ ne_bytes 2 type ++ ne_bytes 2 flags ++ ne_bytes 4 sequence
  ++ ne_bytes 4 port ++ payload ++ replicate (Z.to_nat ((- (16 + zlen payload)) mod 4)) 0.

(** A socket with the fields of [inet_diag_msg] that the daemon does not read,
    and the attributes after them. *)
Record KernelRow : Type := mkKernelRow {
  row_socket : SocketCandidate;
  row_state : Bytes;
  row_queues : Bytes;
  row_attributes : Bytes
}.

Definition row_payload (family : Z) (row : KernelRow) : Bytes :=
  let s := row.(row_socket) in
  (family :: row.(row_state)) ++ be_bytes 2 s.(sc_local_port) ++ be_bytes 2 s.(sc_remote_port)
  ++ encode_sock_diag_address s.(sc_local_address) ++ encode_sock_diag_address s.(sc_remote_address)
  ++ row.(row_queues) ++ ne_bytes 4 s.(sc_uid) ++ ne_bytes 4 s.(sc_inode) ++ row.(row_attributes).

Definition address_ok (v4 : bool) (a : IpAddr) : Prop :=
  match a with
  | IpV4 a => v4 = true /\ 0 <= a < 2 ^ 32
  | IpV6 a => v4 = false /\ 0 <= a < 2 ^ 128
  end.

Record socket_ok (v4 : bool) (s : SocketCandidate) : Prop := {
  so_local : address_ok v4 s.(sc_local_address);
  so_remote : address_ok v4 s.(sc_remote_address);
  so_ports : 0 <= s.(sc_local_port) <= U16_MAX /\ 0 <= s.(sc_remote_port) <= U16_MAX;
  so_uid : 0 <= s.(sc_uid) <= U32_MAX;
  so_inode : 0 <= s.(sc_inode) <= U32_MAX
}.

Record kernel_row_ok (v4 : bool) (row : KernelRow) : Prop := {
  kr_socket : socket_ok v4 row.(row_socket);
  kr_state : length row.(row_state) = 3%nat;
  kr_queues : length row.(row_queues) = 24%nat;
  kr_attributes : zlen row.(row_attributes) <= U16_MAX
}.

(** *** Reading fields *)

Lemma slice_skip (a rest : Bytes) from to :
  zlen a <= from <= to -> slice (a ++ rest) from to = slice rest (from - zlen a) (to - zlen a).
Proof.
  intros Hle. unfold slice. rewrite zlen_app. pose proof (zlen_nonneg a).
  replace (to <=? zlen a + zlen rest) with (to - zlen a <=? zlen rest) by lia.
  replace (from <=? to) with (from - zlen a <=? to - zlen a) by lia.
  destruct (_ && _); [|done]. f_equal. unfold zlen in *. rewrite drop_app_ge by lia.
  f_equal; [lia|]. f_equal. lia.
Qed.

Lemma slice_here (mid post : Bytes) from to :
  from = 0 -> to = zlen mid -> slice (mid ++ post) from to = Ok mid.
Proof.
  intros -> ->. pose proof (slice_middle [] mid post) as Hs. cbn [app] in Hs.
  change (zlen []) with 0 in Hs. by rewrite Z.add_0_l in Hs.
Qed.

Lemma zlen_be_bytes w v : zlen (be_bytes w v) = Z.of_nat w.
Proof. unfold zlen. by rewrite be_bytes_length. Qed.

(** The numbers in a field. *)
Lemma ne_field w v : 0 <= v < 256 ^ Z.of_nat w -> from_ne_bytes (ne_bytes w v) = v.
Proof. intros Hv. by rewrite from_ne_bytes_ne, Z.mod_small. Qed.
Lemma be_field w v : 0 <= v < 256 ^ Z.of_nat w -> from_be_bytes (be_bytes w v) = v.
Proof. intros Hv. by rewrite from_be_bytes_be, Z.mod_small. Qed.

Lemma encode_length a : zlen (encode_sock_diag_address a) = 16.
Proof.
  destruct a; cbn [encode_sock_diag_address address_octets]; rewrite ?zlen_app, zlen_be_bytes; done.
Qed.

Lemma parse_encoded v4 a :
  address_ok v4 a ->
  parse_sock_diag_address (if v4 then AF_INET else AF_INET6) (encode_sock_diag_address a) = Ok a.
Proof.
  destruct a as [a|a]; intros [-> Ha]; unfold parse_sock_diag_address;
    cbn [Z.eqb Pos.eqb encode_sock_diag_address address_octets].
  - rewrite drop_app_length', take_app_length' by (by rewrite be_bytes_length).
    change (forallb _ (replicate 12 0)) with true. cbn [ensure mbind Result_bind mret Result_ret].
    by rewrite from_be_bytes_be, Z.mod_small.
  - by rewrite from_be_bytes_be, Z.mod_small.
Qed.

(** Finds a field of a known layout. *)
Ltac field_at :=
  repeat (first [ rewrite slice_here by (rewrite ?zlen_ne_bytes, ?zlen_be_bytes, ?encode_length; lia)
                | rewrite slice_skip by (rewrite ?zlen_ne_bytes, ?zlen_be_bytes, ?encode_length; lia) ]);
  done.

(** *** A row *)

Lemma row_payload_length family v4 row :
  kernel_row_ok v4 row -> zlen (row_payload family row) = 72 + zlen (row_attributes row).
Proof.
  intros [_ Hs Hq _]. unfold row_payload. rewrite !zlen_app, !zlen_be_bytes, !encode_length, !zlen_ne_bytes.
  unfold zlen. cbn [length]. rewrite Hs, Hq. lia.
Qed.

Lemma row_fields family v4 row :
  kernel_row_ok v4 row ->
  let s := row_socket row in let payload := row_payload family row in
  slice payload 4 6 = Ok (be_bytes 2 (sc_local_port s))
  /\ slice payload 6 8 = Ok (be_bytes 2 (sc_remote_port s))
  /\ slice payload 8 24 = Ok (encode_sock_diag_address (sc_local_address s))
  /\ slice payload 24 40 = Ok (encode_sock_diag_address (sc_remote_address s))
  /\ slice payload 64 68 = Ok (ne_bytes 4 (sc_uid s))
  /\ slice payload 68 72 = Ok (ne_bytes 4 (sc_inode s)).
Proof.
  intros [_ Hs Hq _] s payload. unfold payload, row_payload. fold s. clear payload.
  set (head4 := family :: row_state row). assert (H4 : zlen head4 = 4) by (unfold head4, zlen; cbn [length]; lia).
  assert (H24 : zlen (row_queues row) = 24) by (unfold zlen; lia). clearbody head4.
  split_and!; field_at.
Qed.

Lemma parse_row connection v4 row :
  kernel_row_ok v4 row -> is_ipv4 (source_address connection) = v4 ->
  parse_sock_diag_candidate (row_payload (address_family (source_address connection)) row) connection
  = Ok (row_socket row).
Proof.
  intros Hrow Hfam. set (family := address_family _).
  pose proof (row_payload_length family _ _ Hrow) as Hlen.
  destruct (row_fields family _ _ Hrow) as (Flp & Frp & Fl & Fr & Fu & Fi).
  destruct Hrow as [[Hl Hr [Hlp Hrp] Hu Hi] Hs Hq Ha]. pose proof (zlen_nonneg (row_attributes row)).
  unfold parse_sock_diag_candidate. rewrite Hlen, (proj2 (Z.leb_le _ _)) by lia.
  fold family. change (index (row_payload family row) 0) with (Ok (E := ParseError) family).
  cbn [ensure mbind Result_bind]. rewrite Z.eqb_refl. cbn [ensure mbind Result_bind].
  rewrite Fl, Fr. unfold read_be_u16, read_ne.
  change (4 + 2) with 6. change (6 + 2) with 8. change (64 + 4) with 68. change (68 + 4) with 72.
  rewrite Flp, Frp, Fu, Fi. cbn [mbind Result_bind mret Result_ret].
  assert (Hf : family = if v4 then AF_INET else AF_INET6) by (unfold family, address_family; by rewrite Hfam).
  rewrite Hf, !parse_encoded by done. cbn [mbind Result_bind].
  rewrite !be_field, !ne_field by (unfold U16_MAX, U32_MAX in *; lia). by destruct (row_socket row).
Qed.

(** *** A message *)

Section OneMessage.
Context (type flags sequence port : Z) (payload rest : Bytes).
Hypothesis type_u16 : 0 <= type <= U16_MAX.
Hypothesis flags_u16 : 0 <= flags <= U16_MAX.
Hypothesis sequence_u32 : 0 <= sequence <= U32_MAX.
Hypothesis port_u32 : 0 <= port <= U32_MAX.
Hypothesis payload_small : zlen payload <= 2 * U16_MAX.

Let bytes := diag_message type flags sequence port payload ++ rest.
Let padding := (- (16 + zlen payload)) mod 4.

Lemma message_length : zlen bytes = 16 + zlen payload + padding + zlen rest.
Proof.
  unfold bytes, diag_message. rewrite !zlen_app, !zlen_ne_bytes, zlen_replicate; [unfold padding; lia|].
  apply Z.mod_pos_bound. lia.
Qed.

Lemma message_fields :
  read_ne 4 0 bytes = Ok (16 + zlen payload) /\ read_ne 2 4 bytes = Ok type
  /\ read_ne 2 6 bytes = Ok flags /\ read_ne 4 8 bytes = Ok sequence /\ read_ne 4 12 bytes = Ok port
  /\ slice bytes 16 (16 + zlen payload) = Ok payload.
Proof.
  pose proof (zlen_nonneg payload) as Hp. unfold bytes, diag_message. rewrite <-!app_assoc.
  assert (Hread : forall w v from m, slice m from (from + Z.of_nat w) = Ok (ne_bytes w v) ->
    0 <= v < 256 ^ Z.of_nat w -> read_ne (Z.of_nat w) from m = Ok v).
  { intros w v from m Hm Hv. unfold read_ne. rewrite Hm. cbn [mbind Result_bind mret Result_ret].
    by rewrite ne_field. }
  split_and!; [apply (Hread 4%nat)|apply (Hread 2%nat)|apply (Hread 2%nat)|apply (Hread 4%nat)
              |apply (Hread 4%nat)|]; try (unfold U16_MAX, U32_MAX in *; lia); field_at.
Qed.

Lemma message_consumed :
  consumed_bytes (16 + zlen payload) (zlen bytes) = Ok (16 + zlen payload + padding)
  /\ drop (Z.to_nat (16 + zlen payload + padding)) bytes = rest.
Proof.
  pose proof (zlen_nonneg payload) as Hp. pose proof (zlen_nonneg rest) as Hr.
  pose proof (Z.mod_pos_bound (- (16 + zlen payload)) 4 ltac:(lia)) as Hpad. fold padding in Hpad.
  split.
  - unfold consumed_bytes. rewrite align4_spec by (unfold U16_MAX, U64_MAX in *; lia).
    cbn [mbind Result_bind]. fold padding. rewrite message_length, (proj2 (Z.leb_le _ _)); [done|lia].
  - unfold bytes. apply drop_app_length'. pose proof message_length as Hl. unfold bytes in Hl.
    rewrite zlen_app in Hl. unfold zlen in *. lia.
Qed.

(** What remains to be done when the frame of the message is read. *)
Lemma process_header fuel expected expected_port connection candidates :
  process_messages (S fuel) bytes expected expected_port connection candidates
  = (ensure (sequence =? expected)
       (Parsing (Malformed "SOCK_DIAG response sequence does not match the request")) ;;
     ensure (port =? expected_port)
       (Parsing (Malformed "SOCK_DIAG response port ID does not match the bound socket")) ;;
     ensure (Z.land flags NLM_F_DUMP_INTR =? 0)
       (Parsing (Malformed "SOCK_DIAG dump was interrupted and may be incomplete")) ;;
     candidates ← account_message candidates;
     next ← map_err Parsing
              (dispatch_message type flags payload (bool_decide (rest = [])) connection candidates);
     match next with
     | None => mret (candidates, true)
     | Some candidates => process_messages fuel rest expected expected_port connection candidates
     end).
Proof.
  pose proof (zlen_nonneg payload) as Hp. pose proof (zlen_nonneg rest) as Hr.
  pose proof (Z.mod_pos_bound (- (16 + zlen payload)) 4 ltac:(lia)) as Hpad. fold padding in Hpad.
  destruct message_fields as (Fl & Ft & Ff & Fs & Fp & Fpay). destruct message_consumed as [Hc Hd].
  pose proof message_length as Hlen. clearbody bytes. cbn [process_messages].
  rewrite bool_decide_eq_false_2 by (intros ->; change (zlen []) with 0 in Hlen; lia).
  rewrite (proj2 (Z.leb_le 16 (zlen bytes))) by lia. cbn [ensure mbind Result_bind].
  rewrite Fl. cbn [map_err mbind Result_bind].
  rewrite (proj2 (Z.leb_le 16 _)), (proj2 (Z.leb_le _ (zlen bytes))) by lia. cbn [andb ensure mbind Result_bind].
  rewrite Hc, Ft, Ff, Fs, Fp. cbn [map_err mbind Result_bind].
  destruct (sequence =? expected), (port =? expected_port), (Z.land flags _ =? 0); try done.
  cbn [ensure mbind Result_bind].
  destruct (account_message candidates) as [c|]; [|done]. cbn [mbind Result_bind].
  rewrite Fpay. cbn [map_err mbind Result_bind]. rewrite Hd.
  replace (16 + zlen payload + padding =? zlen bytes) with (bool_decide (rest = [])); [done|].
  rewrite Hlen. clearbody padding. symmetry. destruct rest as [|b r].
  - rewrite bool_decide_eq_true_2 by done. apply Z.eqb_eq. unfold zlen. cbn [length]. lia.
  - rewrite bool_decide_eq_false_2 by done. apply Z.eqb_neq. unfold zlen. cbn [length]. lia.
Qed.

(** A message of this question, and a message of another one. *)
Lemma process_message fuel connection candidates :
  Z.land flags NLM_F_DUMP_INTR = 0 ->
  process_messages (S fuel) bytes sequence port connection candidates
  = (candidates ← account_message candidates;
     next ← map_err Parsing
              (dispatch_message type flags payload (bool_decide (rest = [])) connection candidates);
     match next with
     | None => mret (candidates, true)
     | Some candidates => process_messages fuel rest sequence port connection candidates
     end).
Proof. intros Hintr. by rewrite process_header, !Z.eqb_refl, Hintr. Qed.

Lemma process_stale fuel expected expected_port connection candidates :
  sequence <> expected ->
  is_ok (process_messages fuel bytes expected expected_port connection candidates) = false.
Proof.
  intros Hne. destruct fuel; [done|]. by rewrite process_header, (proj2 (Z.eqb_neq _ _) Hne).
Qed.
End OneMessage.
End Messages.

(** ** A datagram of the answer *)

Section Dump.
Context `{Target} (sequence port : Z) (connection : OutboundConnection) (v4 : bool).
Hypothesis sequence_u32 : 0 <= sequence <= U32_MAX.
Hypothesis port_u32 : 0 <= port <= U32_MAX.
Hypothesis family_v4 : is_ipv4 (source_address connection) = v4.

Definition row_message (row : KernelRow) : Bytes :=
  diag_message SOCK_DIAG_BY_FAMILY NLM_F_MULTI sequence port
    (row_payload (address_family (source_address connection)) row).
Definition dump_rows (rows : list KernelRow) : Bytes := concat (row_message <$> rows).
Definition dump_done : Bytes := diag_message NLMSG_DONE NLM_F_MULTI sequence port (ne_bytes 4 0).

Definition counted (n : Z) (s : SockDiagCandidates) : SockDiagCandidates :=
  mkCandidates (found_inode s) (ambiguous s) (response_bytes s) (message_count s + n).

Lemma account_counted s :
  message_count s + 1 <= MAX_PROC_ENTRIES -> account_message s = Ok (counted 1 s).
Proof.
  intros Hc. unfold account_message, usize_checked_add, u64_checked_add.
  rewrite decide_True by (unfold U64_MAX; lia). cbn [ok_or mbind Result_bind].
  by rewrite (proj2 (Z.leb_le _ _)).
Qed.

Lemma observed_counted n rows : forall s,
  observed connection (counted n s) rows = counted n (observed connection s rows).
Proof.
  unfold observed. induction rows as [|c rows IH]; intros s; [done|]. cbn [foldl]. rewrite <-IH. f_equal.
  rewrite !observe_eq. by destruct (concerns connection c).
Qed.

Lemma counted_counted n m s : counted n (counted m s) = counted (m + n) s.
Proof. unfold counted. cbn. f_equal. lia. Qed.

Lemma process_rows rows : forall fuel tail s,
  Forall (kernel_row_ok v4) rows -> message_count s + zlen rows <= MAX_PROC_ENTRIES ->
  process_messages (length rows + fuel) (dump_rows rows ++ tail) sequence port connection s
  = process_messages fuel tail sequence port connection
      (counted (zlen rows) (observed connection s (row_socket <$> rows))).
Proof.
  induction rows as [|row rows IH]; intros fuel tail s Hok Hn.
  { change (zlen []) with 0. cbn [length Nat.add dump_rows fmap list_fmap concat app observed foldl].
    f_equal. destruct s. unfold counted. cbn [found_inode ambiguous response_bytes message_count].
    by rewrite Z.add_0_r. }
  apply Forall_cons in Hok as [Hrow Hok]. unfold zlen in Hn. cbn [length] in Hn.
  change (dump_rows (row :: rows) ++ tail) with ((row_message row ++ dump_rows rows) ++ tail).
  rewrite <-app_assoc. cbn [length Nat.add]. unfold row_message at 1.
  rewrite process_message; [|done|done|done|done| |done].
  2: { rewrite (row_payload_length _ _ _ Hrow). pose proof (kr_attributes _ _ Hrow). unfold U16_MAX in *. lia. }
  rewrite account_counted by lia. cbn [mbind Result_bind]. unfold dispatch_message. cbn [Z.eqb Pos.eqb].
  change (Z.land NLM_F_MULTI NLM_F_MULTI =? 0) with false. cbn [negb ensure mbind Result_bind].
  rewrite (parse_row _ _ _ Hrow) by done. cbn [map_err mbind Result_bind mret Result_ret].
  rewrite IH; [|done|].
  - f_equal. cbn [fmap list_fmap observed foldl]. rewrite !observe_eq.
    change (foldl (fun s c => observe c connection s)) with (observed connection).
    replace (zlen (row :: rows)) with (1 + zlen rows) by (unfold zlen; cbn [length]; lia).
    rewrite <-counted_counted. f_equal. rewrite <-observed_counted. f_equal.
    by destruct (concerns connection (row_socket row)).
  - rewrite observe_eq. destruct (concerns _ _); cbn [message_count counted]; unfold zlen; lia.
Qed.

Lemma account_over s :
  MAX_PROC_ENTRIES < message_count s + 1 -> is_ok (account_message s) = false.
Proof.
  intros Hc. unfold account_message, usize_checked_add, u64_checked_add.
  case_decide; [|done]. cbn [ok_or mbind Result_bind]. by rewrite (proj2 (Z.leb_gt _ _)).
Qed.

(** Too many messages are refused. *)
Lemma process_rows_over rows : forall fuel tail s,
  Forall (kernel_row_ok v4) rows -> MAX_PROC_ENTRIES < message_count s + zlen rows ->
  message_count s <= MAX_PROC_ENTRIES ->
  is_ok (process_messages (length rows + fuel) (dump_rows rows ++ tail) sequence port connection s) = false.
Proof.
  induction rows as [|row rows IH]; intros fuel tail s Hok Hn Hs.
  { change (zlen []) with 0 in Hn. lia. }
  destruct (Z.le_gt_cases (message_count s + 1) MAX_PROC_ENTRIES) as [Hle|Hgt].
  - change (length (row :: rows) + fuel)%nat with (length [row] + (length rows + fuel))%nat.
    assert (dump_rows (row :: rows) ++ tail = dump_rows [row] ++ (dump_rows rows ++ tail)) as ->.
    { unfold dump_rows. cbn. by rewrite app_nil_r, <-app_assoc. }
    apply Forall_cons in Hok as [Hrow Hok].
    rewrite process_rows; [|by apply Forall_cons_2|by change (zlen [row]) with 1].
    apply IH; [done|..]; change (zlen [row]) with 1; cbn [counted message_count];
      destruct (observed_spec connection (row_socket <$> [row]) s) as (_ & _ & Hm & _); rewrite Hm; [|lia].
    unfold zlen in *. cbn [length] in Hn. lia.
  - apply Forall_cons in Hok as [Hrow _].
    change (dump_rows (row :: rows) ++ tail) with ((row_message row ++ dump_rows rows) ++ tail).
    rewrite <-app_assoc. cbn [length Nat.add]. unfold row_message at 1.
    rewrite process_message; [|done|done|done|done| |done].
    + pose proof (account_over s ltac:(lia)) as Ha. by destruct (account_message s).
    + rewrite (row_payload_length _ _ _ Hrow). pose proof (kr_attributes _ _ Hrow). unfold U16_MAX in *. lia.
Qed.

Lemma message_longer type flags payload rest :
  zlen rest + 16 <= zlen (diag_message type flags sequence port payload ++ rest).
Proof.
  rewrite message_length. pose proof (zlen_nonneg payload).
  pose proof (Z.mod_pos_bound (- (16 + zlen payload)) 4 ltac:(lia)). lia.
Qed.

Lemma stale_row row rest expected port' c :
  kernel_row_ok v4 row -> sequence <> expected ->
  is_ok (process_sock_diag_datagram (row_message row ++ rest) expected port' connection c) = false.
Proof.
  intros Hrow Hne. apply process_stale; [done..| |done].
  rewrite (row_payload_length _ _ _ Hrow). pose proof (kr_attributes _ _ Hrow). unfold U16_MAX in *. lia.
Qed.

(** The loop has fuel for every message. *)
Lemma dump_fuel rows tail :
  exists fuel, S (length (dump_rows rows ++ tail)) = (length rows + S (length tail + fuel))%nat.
Proof.
  enough (length rows + length tail <= length (dump_rows rows ++ tail))%nat as Hle.
  { exists (length (dump_rows rows ++ tail) - length rows - length tail)%nat. lia. }
  induction rows as [|row rows IH]; [done|].
  change (dump_rows (row :: rows) ++ tail) with ((row_message row ++ dump_rows rows) ++ tail).
  rewrite <-app_assoc.
  pose proof (message_longer SOCK_DIAG_BY_FAMILY NLM_F_MULTI
    (row_payload (address_family (source_address connection)) row) (dump_rows rows ++ tail)) as Hm.
  unfold zlen in Hm. cbn [length]. unfold row_message. lia.
Qed.

Lemma process_part rows s :
  Forall (kernel_row_ok v4) rows -> message_count s + zlen rows <= MAX_PROC_ENTRIES ->
  process_sock_diag_datagram (dump_rows rows) sequence port connection s
  = Ok (counted (zlen rows) (observed connection s (row_socket <$> rows)), false).
Proof.
  intros Hok Hn. unfold process_sock_diag_datagram. destruct (dump_fuel rows []) as [fuel Hf].
  rewrite app_nil_r in Hf. rewrite Hf, <-(app_nil_r (dump_rows rows)). by rewrite process_rows.
Qed.

Lemma process_last rows s :
  Forall (kernel_row_ok v4) rows -> message_count s + zlen rows + 1 <= MAX_PROC_ENTRIES ->
  process_sock_diag_datagram (dump_rows rows ++ dump_done) sequence port connection s
  = Ok (counted (zlen rows + 1) (observed connection s (row_socket <$> rows)), true).
Proof.
  intros Hok Hn. unfold process_sock_diag_datagram. destruct (dump_fuel rows dump_done) as [fuel ->].
  rewrite process_rows by (done || lia). rewrite <-(app_nil_r dump_done).
  unfold dump_done. rewrite process_message; [|done|done|done|done|by rewrite zlen_ne_bytes|done].
  destruct (observed_spec connection (row_socket <$> rows) s) as (_ & _ & Hm & _).
  rewrite account_counted by (cbn [counted message_count]; rewrite Hm; lia).
  cbn [mbind Result_bind]. unfold dispatch_message. cbn [Z.eqb Pos.eqb].
  change (bool_decide ([] = [])) with true. cbn [ensure mbind Result_bind].
  rewrite bool_decide_eq_false_2 by (intros E; apply (f_equal zlen) in E; by rewrite zlen_ne_bytes in E).
  rewrite zlen_ne_bytes. cbn [Z.of_nat Z.leb Z.compare Pos.compare]. change (4 <=? Z.of_nat 4) with true.
  cbn [ensure mbind Result_bind]. unfold read_ne_i32, read_ne.
  rewrite <-(app_nil_r (ne_bytes 4 0)), slice_here by (done || by rewrite zlen_ne_bytes).
  cbn [mbind Result_bind mret Result_ret]. rewrite ne_field by done. cbn. by rewrite counted_counted.
Qed.

Lemma process_part_count rows s :
  Forall (kernel_row_ok v4) rows -> message_count s <= MAX_PROC_ENTRIES ->
  is_ok (process_sock_diag_datagram (dump_rows rows) sequence port connection s) = true ->
  message_count s + zlen rows <= MAX_PROC_ENTRIES.
Proof.
  intros Hok Hs Hrun. apply Z.le_ngt. intros Hover. unfold process_sock_diag_datagram in Hrun.
  destruct (dump_fuel rows []) as [fuel Hf]. rewrite app_nil_r in Hf.
  rewrite Hf, <-(app_nil_r (dump_rows rows)), process_rows_over in Hrun; done.
Qed.

Lemma process_last_count rows s :
  Forall (kernel_row_ok v4) rows -> message_count s <= MAX_PROC_ENTRIES ->
  is_ok (process_sock_diag_datagram (dump_rows rows ++ dump_done) sequence port connection s) = true ->
  message_count s + zlen rows + 1 <= MAX_PROC_ENTRIES.
Proof.
  intros Hok Hs. unfold process_sock_diag_datagram. destruct (dump_fuel rows dump_done) as [fuel ->].
  destruct (Z.le_gt_cases (message_count s + zlen rows) MAX_PROC_ENTRIES) as [Hle|Hover].
  2: { rewrite process_rows_over; [done|done|lia|done]. }
  rewrite process_rows by done. rewrite <-(app_nil_r dump_done).
  unfold dump_done. rewrite process_message; [|done|done|done|done|by rewrite zlen_ne_bytes|done].
  destruct (observed_spec connection (row_socket <$> rows) s) as (_ & _ & Hm & _).
  intros Hrun. apply Z.le_ngt. intros Hover. set (c := counted _ _) in Hrun.
  pose proof (account_over c) as Ha. destruct (account_message c); [|done].
  cbn [is_ok] in Ha. specialize (Ha ltac:(unfold c; cbn [counted message_count]; lia)). done.
Qed.
End Dump.

(** ** The answer to a question *)

Section Answers.
Context `{Target} (instant : nat -> Z) (sequence port : Z) (connection : OutboundConnection).

(** The kernel's dump of some sockets, cut into datagrams, with the pauses in
    between; [bytes] is what the datagrams measure together. *)
Inductive answer : list DiagEvent -> list KernelRow -> Z -> Prop :=
| answer_interrupted events rows bytes :
    answer events rows bytes -> answer (DiagInterrupted :: events) rows bytes
| answer_silent events rows bytes :
    answer events rows bytes -> answer (DiagSilent :: events) rows bytes
| answer_part part events rows bytes :
    let datagram := dump_rows sequence port connection part in
    part <> [] -> zlen datagram < SOCK_DIAG_RECEIVE_BUFFER_BYTES -> answer events rows bytes ->
    answer (DiagDatagram (Some (0, 0)) datagram :: events) (part ++ rows) (zlen datagram + bytes)
| answer_last part later :
    let datagram := dump_rows sequence port connection part ++ dump_done sequence port in
    zlen datagram < SOCK_DIAG_RECEIVE_BUFFER_BYTES ->
    answer (DiagDatagram (Some (0, 0)) datagram :: later) part (zlen datagram).

Lemma answer_nonneg events rows bytes : answer events rows bytes -> 0 <= bytes.
Proof.
  induction 1 as [| |part events rows bytes datagram _ _ _ IH|part later datagram]; try done.
  - pose proof (zlen_nonneg datagram). lia.
  - apply zlen_nonneg.
Qed.

(** The clock has reached the deadline. *)
Definition late {A} (deadline : Z) (result : Result DiagError A) : Prop :=
  result = Err AttributionTimeout /\ exists n, deadline <= instant n.

Definition settles {A} (deadline : Z) (x result : Result DiagError A) : Prop :=
  result = x \/ late deadline result.

Definition tick (r : Resolver) : Resolver := mkResolver (S (readings r)) (sock_diag r) (kernel_sockets r).

Lemma within_run deadline r :
  ensure_within_deadline instant deadline r
  = (tick r, ensure (instant (readings r) <=? deadline) AttributionTimeout).
Proof. done. Qed.

Lemma within_settles {A} deadline (x : Result DiagError A) (k : unit -> ST Resolver DiagError A) r :
  settles deadline x (k tt (tick r)).2 ->
  settles deadline x ((ensure_within_deadline instant deadline ≫= k) r).2.
Proof.
  intros Hk. rewrite run_bind, within_run. cbn.
  destruct (Z.leb_spec (instant (readings r)) deadline); [done|].
  right. split; [done|]. exists (readings r). lia.
Qed.

Lemma poll_run deadline r :
  attribution_poll_timeout instant deadline r
  = (tick r,
     let now := instant (readings r) in
     if (now <=? deadline) && negb (deadline - now =? 0)
     then Ok (Z.min U16_MAX (Z.max 1 ((deadline - now) / 1000000))) else Err AttributionTimeout).
Proof.
  unfold attribution_poll_timeout. rewrite run_bind.
  change (next_instant instant r) with (tick r, Ok (E := DiagError) (instant (readings r))).
  cbn zeta match. rewrite !run_lift. destruct (_ <=? _); [|done]. cbn [ensure andb].
  by destruct (_ =? 0).
Qed.

Lemma poll_settles {A} deadline (x : Result DiagError A) (k : Z -> ST Resolver DiagError A) r :
  (forall t, settles deadline x (k t (tick r)).2) ->
  settles deadline x ((attribution_poll_timeout instant deadline ≫= k) r).2.
Proof.
  intros Hk. rewrite run_bind, poll_run. cbn zeta.
  destruct (_ && _) eqn:E; [apply Hk|]. right. split; [done|]. exists (readings r). lia.
Qed.

Lemma account_sized n s :
  0 <= n -> 0 <= response_bytes s -> response_bytes s + n <= MAX_SOCK_DIAG_RESPONSE_BYTES ->
  account_datagram n s
  = Ok (mkCandidates (found_inode s) (ambiguous s) (response_bytes s + n) (message_count s)).
Proof.
  intros Hn Hs Hc. unfold account_datagram, usize_checked_add, u64_checked_add.
  rewrite decide_True by (unfold U64_MAX; lia). cbn [ok_or mbind Result_bind].
  by rewrite (proj2 (Z.leb_le _ _)).
Qed.

(** The counters do not matter to what is found. *)
Definition same_finding (s s' : SockDiagCandidates) : Prop :=
  found_inode s = found_inode s' /\ ambiguous s = ambiguous s'.

Lemma observed_same rows s s' :
  same_finding s s' -> same_finding (observed connection s rows) (observed connection s' rows).
Proof.
  intros [Hf Ha]. destruct (observed_spec connection rows s) as (Hf1 & _ & _ & Ha1).
  destruct (observed_spec connection rows s') as (Hf2 & _ & _ & Ha2). unfold same_finding.
  by rewrite Hf1, Ha1, Hf2, Ha2, Hf, Ha.
Qed.

Lemma finish_same s s' : same_finding s s' -> candidates_finish s = candidates_finish s'.
Proof. intros [Hf Ha]. unfold candidates_finish. by rewrite Hf, Ha. Qed.

Definition sized (n : Z) (s : SockDiagCandidates) : SockDiagCandidates :=
  mkCandidates (found_inode s) (ambiguous s) (response_bytes s + n) (message_count s).

Lemma receive_datagram datagram later socket deadline s x processed r :
  0 < zlen datagram < SOCK_DIAG_RECEIVE_BUFFER_BYTES ->
  0 <= response_bytes s -> response_bytes s + zlen datagram <= MAX_SOCK_DIAG_RESPONSE_BYTES ->
  process_sock_diag_datagram datagram (diag_sequence socket) (local_port_id socket) connection
    (sized (zlen datagram) s) = Ok processed ->
  (if processed.2 then candidates_finish processed.1 = x
   else if ambiguous processed.1 then x = Err MissingOrAmbiguous
   else forall socket' r', diag_sequence socket' = diag_sequence socket ->
     local_port_id socket' = local_port_id socket ->
     settles deadline x (receive_answer instant later connection socket' deadline processed.1 r').2) ->
  settles deadline x
    (receive_answer instant (DiagDatagram (Some (0, 0)) datagram :: later) connection socket deadline s r).2.
Proof.
  intros Hd H0 Hbytes Hprocess Hnext. cbn [receive_answer]. apply poll_settles. intros t.
  rewrite run_modify, !run_lift, (proj2 (Z.ltb_lt _ _)) by lia. cbn [ensure ok_or].
  rewrite !run_lift. cbn [fst snd Z.eqb andb ensure]. rewrite ?run_lift, (proj2 (Z.eqb_neq _ 0)) by lia.
  cbn [negb ensure]. rewrite account_sized by lia.
  change (mkCandidates _ _ _ _) with (sized (zlen datagram) s). apply within_settles.
  rewrite run_lift. cbn [diag_sequence local_port_id]. rewrite Hprocess.
  destruct processed as [c []]; cbn [fst snd] in *.
  - apply within_settles. by left.
  - rewrite run_lift. destruct (ambiguous c) eqn:Ha; cbn [negb ensure].
    + left. by rewrite Hnext.
    + by apply Hnext.
Qed.

Lemma receive_answers events rows bytes deadline :
  0 <= sequence <= U32_MAX -> 0 <= port <= U32_MAX ->
  answer events rows bytes -> forall socket s r,
  diag_sequence socket = sequence -> local_port_id socket = port ->
  Forall (kernel_row_ok (is_ipv4 (source_address connection))) rows ->
  0 <= response_bytes s -> response_bytes s + bytes <= MAX_SOCK_DIAG_RESPONSE_BYTES ->
  message_count s + zlen rows + 1 <= MAX_PROC_ENTRIES ->
  settles deadline (candidates_finish (observed connection s (row_socket <$> rows)))
    (receive_answer instant events connection socket deadline s r).2.
Proof.
  intros Hseq Hport Hans.
  induction Hans as [events rows bytes _ IH|events rows bytes _ IH|part events rows bytes datagram Hne Hd Hans IH
                    |part later datagram Hd];
    intros socket s r Hs Hp Hok H0 Hbytes Hcount.
  - cbn [receive_answer]. apply poll_settles. intros t. rewrite run_modify. by apply IH.
  - cbn [receive_answer]. apply poll_settles. intros t. rewrite run_modify. apply within_settles. by apply IH.
  - apply Forall_app in Hok as [Hpart Hok]. rewrite zlen_app in Hcount.
    pose proof (zlen_nonneg rows). pose proof (answer_nonneg _ _ _ Hans) as Hb.
    assert (0 < zlen datagram).
    { destruct part as [|row part]; [done|]. unfold datagram. change (dump_rows _ _ _ (row :: part))
        with (row_message sequence port connection row ++ dump_rows sequence port connection part).
      unfold row_message.
      pose proof (message_longer sequence port SOCK_DIAG_BY_FAMILY NLM_F_MULTI
        (row_payload (address_family (source_address connection)) row) (dump_rows sequence port connection part)).
      pose proof (zlen_nonneg (dump_rows sequence port connection part)). lia. }
    eapply receive_datagram; [lia|lia|lia|rewrite Hs, Hp; eapply process_part; [done..|cbn [message_count sized]; lia]|].
    cbn [fst snd]. rewrite fmap_app, observed_app. set (c := counted _ _).
    assert (Hsame : same_finding (observed connection s (row_socket <$> part)) c)
      by (by apply (observed_same (row_socket <$> part) s (sized (zlen datagram) s))).
    rewrite (finish_same _ _ (observed_same (row_socket <$> rows) _ _ Hsame)).
    destruct (ambiguous c) eqn:Hamb.
    + unfold candidates_finish. by rewrite ambiguous_mono, andb_false_r.
    + destruct (observed_spec connection (row_socket <$> part) (sized (zlen datagram) s)) as (_ & Hb' & Hm' & _).
      intros socket' r' Hs' Hp'. apply IH; try congruence; unfold c; cbn [counted response_bytes message_count];
        rewrite ?Hb', ?Hm'; cbn [sized response_bytes message_count]; lia.
  - eapply receive_datagram; [|lia|lia|rewrite Hs, Hp; eapply process_last; [done..|cbn [message_count sized]; lia]|].
    + split; [|done]. unfold datagram. rewrite zlen_app.
      pose proof (message_longer sequence port NLMSG_DONE NLM_F_MULTI (ne_bytes 4 0) []) as Hm.
      rewrite app_nil_r in Hm. change (zlen []) with 0 in Hm. unfold dump_done.
      pose proof (zlen_nonneg (dump_rows sequence port connection part)). lia.
    + by apply finish_same, (observed_same (row_socket <$> part) (sized (zlen datagram) s) s).
Qed.

(** What a datagram that is part of a successful run passed. *)
Lemma receive_datagram_Ok datagram later socket deadline s r :
  0 <= response_bytes s ->
  is_ok (receive_answer instant (DiagDatagram (Some (0, 0)) datagram :: later) connection socket deadline s r).2
  = true ->
  response_bytes s + zlen datagram <= MAX_SOCK_DIAG_RESPONSE_BYTES
  /\ exists processed,
     process_sock_diag_datagram datagram (diag_sequence socket) (local_port_id socket) connection
       (sized (zlen datagram) s) = Ok processed
     /\ (processed.2 = false -> exists socket' r',
          diag_sequence socket' = diag_sequence socket /\ local_port_id socket' = local_port_id socket
          /\ is_ok (receive_answer instant later connection socket' deadline processed.1 r').2 = true).
Proof.
  intros H0. cbn [receive_answer]. rewrite run_bind, poll_run. cbn zeta. destruct (_ && _); [|done].
  rewrite run_modify, run_lift. destruct (_ <? _); [|done]. cbn [ensure]. rewrite run_lift.
  cbn [ok_or fst snd Z.eqb andb ensure]. rewrite run_lift. cbn [ensure]. rewrite run_lift.
  destruct (negb _); [|done]. cbn [ensure]. rewrite run_lift.
  destruct (account_datagram _ _) as [c|] eqn:Ha; [|done]. rewrite run_bind, within_run.
  destruct (_ <=? _); [|done]. cbn [ensure]. rewrite run_lift. cbn [diag_sequence local_port_id].
  unfold account_datagram in Ha.
  apply bind_Ok_inv in Ha as (total & Hadd & Ha). apply seq_Ok in Ha as [Hle Ha]. injection Ha as <-.
  unfold usize_checked_add, u64_checked_add in Hadd. case_decide; [|done]. injection Hadd as <-.
  apply ensure_Ok, Z.leb_le in Hle. change (mkCandidates _ _ _ _) with (sized (zlen datagram) s).
  destruct (process_sock_diag_datagram _ _ _ _ _) as [[c []]|]; [|cbn [fst snd]|done].
  - intros _. split; [done|]. eexists. by split.
  - rewrite run_lift. destruct (negb (ambiguous c)); [|done]. cbn [ensure]. intros Hrest.
    split; [done|]. eexists. split; [done|]. intros _. cbn [fst]. eexists _, _.
    split_and!; [| |exact Hrest]; done.
Qed.

(** An answer that was taken was within the limits. *)
Lemma receive_within events rows bytes deadline :
  0 <= sequence <= U32_MAX -> 0 <= port <= U32_MAX ->
  answer events rows bytes -> forall socket s r,
  diag_sequence socket = sequence -> local_port_id socket = port ->
  Forall (kernel_row_ok (is_ipv4 (source_address connection))) rows ->
  0 <= response_bytes s -> message_count s <= MAX_PROC_ENTRIES ->
  is_ok (receive_answer instant events connection socket deadline s r).2 = true ->
  response_bytes s + bytes <= MAX_SOCK_DIAG_RESPONSE_BYTES
  /\ message_count s + zlen rows + 1 <= MAX_PROC_ENTRIES.
Proof.
  intros Hseq Hport Hans.
  induction Hans as [events rows bytes _ IH|events rows bytes _ IH|part events rows bytes datagram Hne Hd Hans IH
                    |part later datagram Hd];
    intros socket s r Hs Hp Hok H0 Hcount.
  - cbn [receive_answer]. rewrite run_bind, poll_run. cbn zeta. destruct (_ && _); [|done].
    rewrite run_modify. by apply IH.
  - cbn [receive_answer]. rewrite run_bind, poll_run. cbn zeta. destruct (_ && _); [|done].
    rewrite run_modify, run_bind, within_run. destruct (_ <=? _); [|done]. by apply IH.
  - intros (Hb & processed & Hproc & Hnext)%receive_datagram_Ok; [|done].
    apply Forall_app in Hok as [Hpart Hok]. rewrite Hs, Hp in Hproc.
    pose proof (process_part_count sequence port connection _ Hseq Hport eq_refl part (sized (zlen datagram) s) Hpart Hcount
      (f_equal is_ok Hproc)) as Hn.
    cbn [sized message_count] in Hn.
    pose proof (process_part sequence port connection _ Hseq Hport eq_refl part (sized (zlen datagram) s) Hpart Hn) as Hsame.
    assert (Heq := eq_trans (eq_sym Hproc) Hsame). injection Heq as ->. clear Hproc Hsame.
    destruct (Hnext eq_refl) as (socket' & r' & Hs' & Hp' & Hrun). cbn [fst] in Hrun.
    destruct (observed_spec connection (row_socket <$> part) (sized (zlen datagram) s)) as (_ & Hb' & Hm' & _).
    apply IH in Hrun; cbn [counted response_bytes message_count] in *; rewrite ?Hb', ?Hm' in *;
      cbn [sized response_bytes message_count] in *; try congruence || done; rewrite ?zlen_app;
      pose proof (zlen_nonneg datagram); lia.
  - intros (Hb & processed & Hproc & _)%receive_datagram_Ok; [|done]. rewrite Hs, Hp in Hproc. split; [done|].
    apply (process_last_count sequence port connection _ Hseq Hport eq_refl part (sized (zlen datagram) s)); [done..|].
    exact (f_equal is_ok Hproc).
Qed.

Lemma receive_refused sender datagram later socket deadline s r :
  (forall c, is_ok (process_sock_diag_datagram datagram (diag_sequence socket) (local_port_id socket)
                      connection c) = false) ->
  is_ok (receive_answer instant (DiagDatagram sender datagram :: later) connection socket deadline s r).2 = false.
Proof.
  intros Hno. cbn [receive_answer]. rewrite run_bind, poll_run. cbn zeta. destruct (_ && _); [|done].
  rewrite run_modify, run_lift. destruct (_ <? _); [|done]. cbn [ensure]. rewrite run_lift.
  destruct sender as [[pid groups]|]; [|done]. cbn [ok_or]. rewrite run_lift. destruct (_ && _); [|done].
  cbn [ensure]. rewrite run_lift. destruct (negb _); [|done]. cbn [ensure]. rewrite run_lift.
  destruct (account_datagram _ _) as [c|]; [|done]. rewrite run_bind, within_run.
  destruct (_ <=? _); [|done]. cbn [ensure]. rewrite run_lift. cbn [diag_sequence local_port_id].
  specialize (Hno c). by destruct (process_sock_diag_datagram _ _ _ _ _).
Qed.

(** The answer to another question is refused. *)
Lemma receive_stale expected events rows bytes deadline :
  0 <= sequence <= U32_MAX -> 0 <= port <= U32_MAX -> sequence <> expected ->
  answer events rows bytes -> forall socket s r,
  diag_sequence socket = expected ->
  Forall (kernel_row_ok (is_ipv4 (source_address connection))) rows ->
  is_ok (receive_answer instant events connection socket deadline s r).2 = false.
Proof.
  intros Hseq Hport Hne Hans.
  induction Hans as [events rows bytes _ IH|events rows bytes _ IH|part events rows bytes datagram Hpart Hd Hans IH
                    |part later datagram Hd];
    intros socket s r Hs Hok.
  - cbn [receive_answer]. rewrite run_bind, poll_run. cbn zeta. destruct (_ && _); [|done].
    rewrite run_modify. by apply IH.
  - cbn [receive_answer]. rewrite run_bind, poll_run. cbn zeta. destruct (_ && _); [|done].
    rewrite run_modify, run_bind, within_run. destruct (_ <=? _); [|done]. by apply IH.
  - apply receive_refused. intros c. destruct part as [|row part]; [done|]. apply Forall_app in Hok as [Hok _].
    apply stale_row with (v4 := is_ipv4 (source_address connection)); [done..| |congruence].
    by apply Forall_cons in Hok as [Hrow _].
  - apply receive_refused. intros c. destruct part as [|row part].
    + unfold datagram. cbn [dump_rows fmap list_fmap concat app]. rewrite <-(app_nil_r (dump_done _ _)).
      apply process_stale; [done..|by rewrite zlen_ne_bytes|congruence].
    + unfold datagram. change (dump_rows _ _ _ (row :: part))
        with (row_message sequence port connection row ++ dump_rows sequence port connection part).
      rewrite <-app_assoc. apply stale_row with (v4 := is_ipv4 (source_address connection)); [done..| |congruence].
      by apply Forall_cons in Hok as [Hrow _].
Qed.

End Answers.

(** ** Questions *)

Section Questions.
Context `{Target} (instant : nat -> Z) (connection : OutboundConnection).
Hypothesis connection_valid : OutboundConnection_validate connection = Ok tt.
Hypothesis connection_ports : is_tcp_udp (conn_protocol connection) = true.

(** A look at the clock, which is the end when it is too late. *)
Local Ltac look := rewrite run_bind, within_run;
  match goal with |- context [instant ?n <=? ?d] =>
    destruct (Z.leb_spec (instant n) d);
      [cbn [ensure] | left; split; [done|]; exists n; lia]
  end.

Lemma request_built sequence port : exists request,
  build_sock_diag_request connection sequence port = Ok request.
Proof.
  revert connection_valid. unfold OutboundConnection_validate, build_sock_diag_request.
  destruct (Bool.eqb _ _); [|done]. cbn [negb fail_if mbind Result_bind].
  destruct (conn_protocol connection), (source_port connection), (destination_port connection);
    try done; try (by eexists); by rewrite ?andb_false_r.
Qed.

(** With the next sequence number, the kernel is asked and its answer awaited. *)
Lemma query_asks socket deadline r :
  diag_sequence socket + 1 <= U32_MAX -> default true (head (diag_sends socket)) = true ->
  late instant deadline (query instant socket connection deadline r).2
  \/ exists socket' r', diag_sequence socket' = diag_sequence socket + 1
     /\ local_port_id socket' = local_port_id socket
     /\ query instant socket connection deadline r
        = receive_answer instant (diag_events socket) connection socket' deadline SockDiagCandidates_default r'.
Proof.
  intros Hseq Hsend. unfold query. rewrite run_lift, connection_valid. cbn [map_err].
  rewrite run_lift, connection_ports. cbn [ensure].
  look. rewrite run_lift. unfold u32_checked_add. rewrite decide_True by done. cbn [ok_or].
  rewrite run_modify, run_lift. cbn [local_port_id diag_sends diag_events].
  destruct (request_built (diag_sequence socket + 1) (local_port_id socket)) as [request ->].
  look. rewrite run_modify, run_lift, Hsend. cbn [ensure].
  right. refine (ex_intro _ _ (ex_intro _ _ (conj _ (conj _ eq_refl)))); done.
Qed.

(** A question that was answered had a sequence number and was sent. *)
Lemma query_sent socket deadline r :
  is_ok (query instant socket connection deadline r).2 = true ->
  diag_sequence socket + 1 <= U32_MAX /\ default true (head (diag_sends socket)) = true.
Proof.
  unfold query. rewrite run_lift, connection_valid. cbn [map_err].
  rewrite run_lift, connection_ports. cbn [ensure]. rewrite run_bind, within_run.
  destruct (_ <=? _); [|done]. cbn [ensure]. rewrite run_lift. unfold u32_checked_add.
  case_decide as Hseq; [|done]. cbn [ok_or]. rewrite run_modify, run_lift.
  destruct (build_sock_diag_request _ _ _); [|done]. rewrite run_bind, within_run.
  destruct (_ <=? _); [|done]. cbn [ensure]. rewrite run_modify, run_lift. cbn [diag_sends].
  by destruct (default true (head (diag_sends socket))).
Qed.

(** The socket that will serve: the one that is kept, or a new one. *)
Definition serving (r : Resolver) (socket : SockDiagSocket) : Prop :=
  match sock_diag r with
  | Some kept => kept = socket
  | None => exists rest,
      kernel_sockets r = Some (local_port_id socket, 0, diag_sends socket, diag_events socket) :: rest
      /\ diag_sequence socket = 0 /\ local_port_id socket <> 0
  end.

Lemma open_serves socket deadline r rest :
  kernel_sockets r = Some (local_port_id socket, 0, diag_sends socket, diag_events socket) :: rest ->
  diag_sequence socket = 0 -> local_port_id socket <> 0 ->
  late instant deadline (SockDiagSocket_open instant deadline r).2
  \/ exists r', SockDiagSocket_open instant deadline r = (r', Ok socket).
Proof.
  intros Hk Hz Hp. unfold SockDiagSocket_open. look. rewrite run_get, run_modify, run_lift.
  cbn [tick kernel_sockets]. rewrite Hk.
  change (default None (head (Some ?o :: rest))) with (Some o). cbn match. cbn [ok_or].
  rewrite run_lift, (proj2 (Z.eqb_neq _ 0)) by done. cbn [negb andb Z.eqb ensure]. look.
  right. eexists. rewrite <-Hz. by destruct socket.
Qed.

Lemma resolve_asks socket deadline r :
  serving r socket ->
  let deadline' := Z.min deadline (instant (readings r) + SOCK_DIAG_DEADLINE) in
  late instant deadline' (resolve_socket_inode_with_sock_diag instant connection deadline r).2
  \/ exists r', (resolve_socket_inode_with_sock_diag instant connection deadline r).2
               = (query instant socket connection deadline' r').2.
Proof.
  intros Hs deadline'. unfold resolve_socket_inode_with_sock_diag. rewrite run_bind.
  change (next_instant instant r) with (tick r, Ok (E := DiagError) (instant (readings r))).
  cbn zeta match. fold deadline'. rewrite run_get. unfold serving in Hs.
  assert (Htail : forall r', exists r'',
    ((result ← attempt (query instant socket connection deadline');
      match result with
      | Ok inode => mret inode
      | Err error => modify (set_sock_diag None) ;; lift (Err error)
      end) r').2 = (query instant socket connection deadline' r'').2).
  { intros r'. exists r'. rewrite run_bind. unfold attempt.
    by destruct (query instant socket connection deadline' r') as [r'' []]. }
  cbn [tick sock_diag]. destruct (sock_diag r) as [kept|] eqn:Hkept.
  - subst kept. rewrite run_mret. right. apply Htail.
  - destruct Hs as (rest & Hk & Hz & Hp). rewrite !run_bind.
    destruct (open_serves socket deadline' (tick r) rest) as [Hlate|[r' Hopen]]; [done..| |].
    + left. destruct Hlate as [He Hn]. split; [|done].
      destruct (SockDiagSocket_open instant deadline' (tick r)) as [r' o]. cbn [snd] in He. by subst o.
    + right. rewrite Hopen. cbn [fst snd]. apply Htail.
Qed.

Lemma open_keeps deadline r : sock_diag (SockDiagSocket_open instant deadline r).1 = sock_diag r.
Proof.
  unfold SockDiagSocket_open. rewrite run_bind, within_run. destruct (_ <=? _); [|done]. cbn [ensure].
  rewrite run_get, run_modify, run_lift. destruct (ok_or _ _) as [[[[pid groups] sends] events]|]; [|done].
  rewrite run_lift. destruct (_ && _); [|done]. cbn [ensure]. rewrite run_bind, within_run.
  by destruct (_ <=? _).
Qed.

(** A socket whose question failed is closed. *)
Lemma failure_closes deadline r :
  let run := resolve_socket_inode_with_sock_diag instant connection deadline r in
  is_ok run.2 = false -> sock_diag run.1 = None.
Proof.
  unfold resolve_socket_inode_with_sock_diag. rewrite run_bind.
  change (next_instant instant r) with (tick r, Ok (E := DiagError) (instant (readings r))).
  cbn zeta match. rewrite run_get. cbn [tick sock_diag]. set (d := Z.min _ _).
  assert (Htail : forall socket r',
    let run := (result ← attempt (query instant socket connection d);
      match result with
      | Ok inode => mret inode
      | Err error => modify (set_sock_diag None) ;; lift (Err error)
      end) r' in is_ok run.2 = false -> sock_diag run.1 = None).
  { intros socket r'. cbn zeta. rewrite run_bind. unfold attempt.
    by destruct (query instant socket connection d r') as [r'' []]. }
  destruct (sock_diag r) as [kept|] eqn:Hkept; [rewrite run_mret; apply Htail|].
  pose proof (open_keeps d (tick r)) as Hopen. rewrite !run_bind.
  destruct (SockDiagSocket_open instant d (tick r)) as [r' [socket|e]]; [apply Htail|]. intros _.
  cbn [fst] in *. by rewrite Hopen.
Qed.
End Questions.

Lemma only_inode_Ok connection rows inode :
  only_inode connection rows = Ok inode
  <-> (exists c, c ∈ rows /\ concerns connection c = true)
      /\ forall c, c ∈ rows -> concerns connection c = true -> sc_inode c = inode.
Proof.
  unfold only_inode.
  assert (Hin : forall i, i ∈ sc_inode <$> List.filter (concerns connection) rows
    <-> exists c, i = sc_inode c /\ c ∈ rows /\ concerns connection c = true).
  { intros i. rewrite list_elem_of_fmap. setoid_rewrite list_elem_of_In.
    by setoid_rewrite filter_In. }
  assert (Hall : (forall c, c ∈ rows -> concerns connection c = true -> sc_inode c = inode)
    <-> Forall (eq inode) (sc_inode <$> List.filter (concerns connection) rows)).
  { rewrite Forall_forall. setoid_rewrite Hin. naive_solver. }
  assert (Hex : (exists c, c ∈ rows /\ concerns connection c = true)
    <-> exists i, i ∈ sc_inode <$> List.filter (concerns connection) rows)
    by (setoid_rewrite Hin; naive_solver).
  rewrite Hall, Hex. clear. destruct (sc_inode <$> _) as [|i more].
  { split; [done|]. intros [[i Hi] _]. by apply elem_of_nil in Hi. }
  assert (Hb : forallb (Z.eqb i) more = true <-> Forall (eq i) more).
  { rewrite forallb_forall, Forall_forall. setoid_rewrite list_elem_of_In. by setoid_rewrite Z.eqb_eq. }
  destruct (forallb (Z.eqb i) more) eqn:E.
  - split; [intros [= ->]|].
    + split; [exists inode; left|]. constructor; [done|]. by apply Hb.
    + intros [_ [-> _]%Forall_cons]. done.
  - split; [done|]. intros [_ [-> Hf]%Forall_cons]. by apply Hb in Hf.
Qed.

(** C15: the kernel's answer names the socket of a connection.  Take any answer
    that the kernel can give to a question for a TCP or UDP connection, whatever
    sockets it reports, in whatever order, with whatever attributes, cut into
    datagrams anywhere and interrupted by silence.  If the question could be
    sent with a new sequence number, and the answer carries that number and
    stays within 16 MiB and 131,071 sockets, the result is the only inode among
    the reported sockets that match the connection and its user, and an error
    when there is none or more than one; the only other outcome is a time-out,
    when the clock reached the deadline of the question.  A question that was not
    sent, an answer beyond these limits and the answer to another question give
    an error.  After any error the socket is closed, so that what is still to
    come on it is never read. *)
Theorem diagnosis_finds_the_socket `{Target} instant files connection deadline r socket sequence rows bytes :
  OutboundConnection_validate connection = Ok tt -> is_tcp_udp (conn_protocol connection) = true ->
  serving r socket ->
  0 <= local_port_id socket <= U32_MAX -> 0 <= diag_sequence socket <= U32_MAX -> 0 <= sequence <= U32_MAX ->
  answer sequence (local_port_id socket) connection (diag_events socket) rows bytes ->
  Forall (kernel_row_ok (is_ipv4 (source_address connection))) rows ->
  let run := resolve_socket_inode instant files connection deadline r in
  let asked := default true (head (diag_sends socket)) && (diag_sequence socket <? U32_MAX) in
  let answered := (sequence =? diag_sequence socket + 1) && (bytes <=? MAX_SOCK_DIAG_RESPONSE_BYTES)
                  && (zlen rows <? MAX_PROC_ENTRIES) in
  (if asked && answered
   then settles instant (Z.min deadline (instant (readings r) + SOCK_DIAG_DEADLINE))
          (only_inode connection (row_socket <$> rows)) run.2
   else is_ok run.2 = false)
  /\ (is_ok run.2 = false -> sock_diag run.1 = None).
Proof.
  intros Hv Htu Hserve Hport Hseq Hsequence Hans Hok run asked answered.
  unfold run, resolve_socket_inode. rewrite Htu. split; [|apply failure_closes].
  set (d := Z.min _ _).
  destruct (resolve_asks instant connection socket deadline r Hserve) as [Hlate|[r' Hres]].
  { destruct (asked && answered); [by right|]. by destruct Hlate as [-> _]. }
  fold d in Hres. rewrite Hres. destruct asked eqn:Hasked; cbn [andb].
  2: { destruct (is_ok _) eqn:E; [|done]. apply query_sent in E as [Hs Hsend]; [|done..].
       unfold asked in Hasked. rewrite Hsend in Hasked. apply Z.ltb_ge in Hasked. lia. }
  apply andb_true_iff in Hasked as [Hsend Hs%Z.ltb_lt].
  destruct (query_asks instant connection Hv Htu socket d r') as [Hlate|(socket' & r'' & Hs' & Hp' & ->)];
    [lia|done|destruct answered; [by right|by destruct Hlate as [-> _]]|].
  unfold answered. destruct (Z.eqb_spec sequence (diag_sequence socket + 1)) as [->|Hne]; cbn [andb].
  2: { apply (receive_stale _ sequence (local_port_id socket) _ (diag_sequence socket + 1) _ rows bytes); done. }
  destruct ((bytes <=? _) && _) eqn:Hwithin.
  - apply andb_true_iff in Hwithin as [Hbytes%Z.leb_le Hrows%Z.ltb_lt].
    rewrite <-(observed_finish connection SockDiagCandidates_default) by done.
    apply (receive_answers _ (diag_sequence socket + 1) (local_port_id socket) _ _ _ bytes); try done;
      cbn [response_bytes message_count SockDiagCandidates_default]; lia.
  - destruct (is_ok _) eqn:E; [|done]. rewrite <-Hwithin.
    apply (receive_within _ (diag_sequence socket + 1) (local_port_id socket) _ _ rows bytes) in E as [Hb Hn]; try done.
    cbn [response_bytes message_count SockDiagCandidates_default] in Hb, Hn.
    symmetry. apply andb_true_iff. split; [apply Z.leb_le|apply Z.ltb_lt]; lia.
Qed.

(** *** Witness *)

Definition sample_connection : OutboundConnection :=
  mkOutboundConnection (IpV4 0x0a000002) (Some 40000) (IpV4 0x5db8d822) (Some 443) Tcp
    (mkInterfaceName (lit "eth0")) 1000.
Definition sample_row (remote inode : Z) : KernelRow :=
  mkKernelRow (mkCandidate (IpV4 0x0a000002) 40000 (IpV4 remote) 443 1000 inode)
    [1; 0; 0] (replicate 24 0) [1; 2; 3].
Definition sample_kernel_rows : list KernelRow := [sample_row 0x01010101 7; sample_row 0x5db8d822 42].
Definition sample_diag_socket : SockDiagSocket :=
  mkDiagSocket 77 0 []
    [DiagSilent;
     DiagDatagram (Some (0, 0)) (dump_rows (H := x86_64) 1 77 sample_connection [sample_row 0x01010101 7]);
     DiagInterrupted;
     DiagDatagram (Some (0, 0))
       (dump_rows (H := x86_64) 1 77 sample_connection [sample_row 0x5db8d822 42]
        ++ dump_done (H := x86_64) 1 77)].

Lemma diagnosis_finds_the_socket_witness :
  (resolve_socket_inode (H := x86_64) (fun _ => 0) (fun _ _ => None) sample_connection 5
     (mkResolver 0 (Some sample_diag_socket) [])).2 = Ok 42.
Proof.
  destruct (diagnosis_finds_the_socket (H := x86_64) (fun _ => 0) (fun _ _ => None) sample_connection 5
    (mkResolver 0 (Some sample_diag_socket) []) sample_diag_socket 1 sample_kernel_rows 204) as [Hrun _].
  - reflexivity.
  - reflexivity.
  - reflexivity.
  - cbn. unfold U32_MAX. lia.
  - cbn. unfold U32_MAX. lia.
  - unfold U32_MAX. lia.
  - apply answer_silent.
    apply (answer_part (H := x86_64) 1 77 sample_connection [sample_row 0x01010101 7] _ [sample_row 0x5db8d822 42] 112);
      [done|vm_compute; reflexivity|].
    apply answer_interrupted. apply (answer_last (H := x86_64) 1 77 sample_connection [sample_row 0x5db8d822 42]).
    vm_compute. reflexivity.
  - apply Forall_cons_2; [|apply Forall_cons_2; [|apply Forall_nil_2]];
      (split; [split|..]; cbn; unfold U16_MAX, U32_MAX; split_and?; done).
  - destruct Hrun as [->|[_ [n Hn]]]; [reflexivity|]. cbn in Hn. lia.
Defined.
