(* ===== verification/SocketTables.v ===== *)
(** * The socket tables of procfs

    What [resolve_socket_inode_from_procfs] ([application.rs] of the daemon,
    translated in [SocketDiag]) reads from the kernel's text tables.  The tables
    are printed here as the kernel does on the little-endian machines that the
    daemon's parser is written for. *)

From S2P Require Import Prelude Text Net Model Netlink Decision Capture SocketDiag.
Local Open Scope Z_scope.

(** ** Printing *)

Definition upper_hex_digit (d : Z) : char := if d <? 10 then 48 + d else 55 + d.
Fixpoint upper_hex (width : nat) (v : Z) : ustring :=
  match width with
  | O => []
  | S w => upper_hex w (v / 16) ++ [upper_hex_digit (v mod 16)]
  end.

(** Four octets as the word that a little-endian machine holds. *)
Definition print_word (octets : Bytes) : ustring := upper_hex 8 (from_be_bytes (rev octets)).
Fixpoint print_words (n : nat) (octets : Bytes) : ustring :=
  match n with
  | O => []
  | S n => print_word (take 4 octets) ++ print_words n (drop 4 octets)
  end.
Definition print_address (a : IpAddr) : ustring :=
  print_words (match a with IpV4 _ => 1 | IpV6 _ => 4 end) (address_octets a).
Definition print_endpoint (a : IpAddr) (port : Z) : ustring := print_address a ++ 58 :: upper_hex 4 port.

(** A row, with the columns that the daemon skips. *)
Record TableRow : Type := mkTableRow {
  table_socket : SocketCandidate;
  table_slot : ustring;
  table_state : list ustring;
  table_timeout : ustring;
  table_more : list ustring
}.

Definition table_fields (r : TableRow) : list ustring :=
  let s := r.(table_socket) in
  [r.(table_slot); print_endpoint s.(sc_local_address) s.(sc_local_port);
   print_endpoint s.(sc_remote_address) s.(sc_remote_port)]
  ++ r.(table_state) ++ [dec s.(sc_uid); r.(table_timeout); dec s.(sc_inode)] ++ r.(table_more).

Definition print_fields (gap : ustring -> nat) (fields : list ustring) : ustring :=
  concat ((fun f => replicate (S (gap f)) 32 ++ f) <$> fields).
Definition print_socket_table (header : ustring) (gap : ustring -> nat) (rows : list TableRow) : ustring :=
  concat ((fun line => line ++ [10]) <$> header :: (print_fields gap ∘ table_fields <$> rows)).

Definition word_ok (w : ustring) : Prop := w <> [] /\ Forall (fun c => 33 <= c <= 126) w.

Record table_row_ok (v4 : bool) (r : TableRow) : Prop := {
  tr_local : address_ok v4 r.(table_socket).(sc_local_address);
  tr_remote : address_ok v4 r.(table_socket).(sc_remote_address);
  tr_ports : 0 <= r.(table_socket).(sc_local_port) <= U16_MAX /\ 0 <= r.(table_socket).(sc_remote_port) <= U16_MAX;
  tr_uid : 0 <= r.(table_socket).(sc_uid) <= U32_MAX;
  tr_inode : 0 <= r.(table_socket).(sc_inode) <= U64_MAX;
  tr_state : length r.(table_state) = 4%nat;
  tr_words : Forall word_ok (r.(table_slot) :: r.(table_timeout) :: r.(table_state) ++ r.(table_more))
}.

(** ** Reading what was printed *)

Lemma upper_hex_length w : forall v, length (upper_hex w v) = w.
Proof. induction w as [|w IH]; intros v; [done|]. cbn [upper_hex]. rewrite length_app, IH. cbn. lia. Qed.

Definition is_hex (c : Z) : Prop := 48 <= c <= 57 \/ 65 <= c <= 70.

Lemma upper_hex_chars w : forall v, Forall is_hex (upper_hex w v).
Proof.
  induction w as [|w IH]; intros v; [constructor|]. cbn [upper_hex]. apply Forall_app. split; [apply IH|].
  apply Forall_singleton. unfold upper_hex_digit, is_hex. pose proof (Z.mod_pos_bound v 16 ltac:(lia)).
  destruct (Z.ltb_spec (v mod 16) 10); lia.
Qed.

Lemma upper_hex_digit_value d : 0 <= d < 16 -> hex_value (upper_hex_digit d) = Some d.
Proof.
  intros Hd. unfold hex_value, upper_hex_digit, in_range. destruct (Z.ltb_spec d 10).
  - rewrite (proj2 (Z.leb_le 48 _)), (proj2 (Z.leb_le _ 57)) by lia. cbn [andb]. f_equal. lia.
  - rewrite (proj2 (Z.leb_gt _ 57)), andb_false_r by lia.
    rewrite (proj2 (Z.leb_le 65 _)), (proj2 (Z.leb_le _ 70)) by lia. cbn [andb]. f_equal. lia.
Qed.

Lemma parse_hex_snoc max s : forall acc d,
  parse_hex_digits max acc (s ++ [d])
  = match parse_hex_digits max acc s with
    | Some v => parse_hex_digits max v [d]
    | None => None
    end.
Proof.
  induction s as [|c s IH]; intros acc d; [done|]. cbn [app parse_hex_digits].
  destruct (hex_value c); [|done]. destruct (_ <=? max); [apply IH|done].
Qed.

Lemma parse_hex_printed max w : forall v,
  0 <= v <= max -> v < 16 ^ Z.of_nat w -> parse_hex_digits max 0 (upper_hex w v) = Some v.
Proof.
  induction w as [|w IH]; intros v Hv Hw.
  { cbn [upper_hex parse_hex_digits]. f_equal. cbn in Hw. lia. }
  cbn [upper_hex]. rewrite Nat2Z.inj_succ, Z.pow_succ_r in Hw by lia.
  pose proof (Z.div_mod v 16 ltac:(lia)) as Hdm. pose proof (Z.mod_pos_bound v 16 ltac:(lia)) as Hm.
  rewrite parse_hex_snoc, IH; [|split; [apply Z.div_pos; lia|]|].
  - cbn [parse_hex_digits]. rewrite upper_hex_digit_value by lia.
    replace (v / 16 * 16 + v mod 16) with v by lia. by rewrite (proj2 (Z.leb_le _ _)) by lia.
  - apply Z.div_le_upper_bound; lia.
  - apply Z.div_lt_upper_bound; lia.
Qed.

Lemma parse_printed_hex max w v :
  (0 < w)%nat -> 0 <= v <= max -> v < 16 ^ Z.of_nat w -> parse_hex max (upper_hex w v) = Some v.
Proof.
  intros Hpos Hv Hw. pose proof (upper_hex_chars w v) as Hd. pose proof (upper_hex_length w v) as Hl.
  rewrite <-(parse_hex_printed max w v) by done. unfold parse_hex.
  destruct (upper_hex w v) as [|c s]; [cbn in Hl; lia|]. apply Forall_cons in Hd as [Hc _].
  rewrite (proj2 (Z.eqb_neq c 43)); [done|]. unfold is_hex in Hc. lia.
Qed.

Lemma be_bytes_from bs : Forall is_byte bs -> be_bytes (length bs) (from_be_bytes bs) = bs.
Proof.
  induction bs as [|b bs IH] using rev_ind; [done|]. rewrite Forall_app, Forall_singleton. intros [Hbs Hb].
  unfold is_byte in Hb. rewrite length_app, Nat.add_comm, from_be_bytes_snoc. cbn [length Nat.add be_bytes].
  rewrite Z.div_add_l, Z.div_small, Z.add_0_r, IH by (done || lia).
  by rewrite Z.add_comm, Z.mod_add, Z.mod_small by lia.
Qed.

Lemma be_bytes_are_bytes w : forall v, Forall is_byte (be_bytes w v).
Proof.
  induction w as [|w IH]; intros v; [constructor|]. cbn [be_bytes]. apply Forall_app. split; [apply IH|].
  apply Forall_singleton, Z.mod_pos_bound. lia.
Qed.

Lemma le_word_printed octets :
  length octets = 4%nat -> Forall is_byte octets -> le_word (print_word octets) = Some octets.
Proof.
  intros Hl Hb. assert (Hr : Forall is_byte (rev octets)) by (by apply Forall_rev).
  assert (Hlen : length (rev octets) = 4%nat) by (by rewrite length_rev).
  pose proof (from_be_bytes_bound _ Hr) as Hbound. unfold zlen in Hbound. rewrite Hlen in Hbound.
  unfold le_word, print_word. rewrite parse_printed_hex; [|lia|unfold U32_MAX; lia|lia]. cbn [fmap option_fmap option_map].
  rewrite <-Hlen, be_bytes_from by done. by rewrite rev_involutive.
Qed.

Lemma le_words_printed n : forall octets,
  length octets = (4 * n)%nat -> Forall is_byte octets -> le_words n (print_words n octets) = Some octets.
Proof.
  induction n as [|n IH]; intros octets Hl Hb.
  { cbn in Hl. by destruct octets. }
  cbn [le_words print_words].
  rewrite take_app_length', drop_app_length' by (by unfold print_word; rewrite upper_hex_length).
  rewrite le_word_printed, IH; [|rewrite length_drop; lia|by apply Forall_drop|rewrite length_take; lia|by apply Forall_take].
  cbn [mbind option_bind mret option_ret]. by rewrite take_drop.
Qed.

Lemma print_words_chars n : forall octets, Forall is_hex (print_words n octets).
Proof.
  induction n as [|n IH]; intros octets; [constructor|]. cbn [print_words]. apply Forall_app.
  split; [apply upper_hex_chars|apply IH].
Qed.

Lemma print_words_length n : forall octets, length (print_words n octets) = (8 * n)%nat.
Proof.
  induction n as [|n IH]; intros octets; [done|]. cbn [print_words]. unfold print_word.
  rewrite length_app, upper_hex_length, IH. lia.
Qed.

Lemma rsplit_once_last sep before after : sep ∉ after -> rsplit_once sep (before ++ sep :: after) = Some (before, after).
Proof.
  intros Hno. induction before as [|c before IH]; cbn [app rsplit_once]; [|by rewrite IH].
  enough (rsplit_once sep after = None) as -> by (by rewrite Z.eqb_refl).
  induction after as [|c after IH]; [done|]. cbn [rsplit_once]. apply not_elem_of_cons in Hno as [Hc Hno].
  rewrite IH by done. by rewrite (proj2 (Z.eqb_neq c sep)) by done.
Qed.

Lemma byte_len_hex s : Forall is_hex s -> byte_len s = zlen s.
Proof.
  unfold byte_len, zlen. induction 1 as [|c s Hc Hs IH]; [done|]. cbn [foldr length]. rewrite IH.
  unfold len_utf8, is_hex in *. rewrite (proj2 (Z.ltb_lt c _)) by lia. lia.
Qed.

Lemma address_octets_facts v4 a :
  address_ok v4 a ->
  Forall is_byte (address_octets a) /\ length (address_octets a) = (if v4 then 4 else 16)%nat
  /\ (if v4 then IpV4 else IpV6) (from_be_bytes (address_octets a)) = a.
Proof.
  destruct a as [a|a]; intros [-> Ha]; cbn [address_octets];
    (split; [apply be_bytes_are_bytes|]; split; [apply be_bytes_length|]);
    by rewrite from_be_bytes_be, Z.mod_small.
Qed.

Lemma endpoint_printed v4 a port :
  address_ok v4 a -> 0 <= port <= U16_MAX -> parse_proc_endpoint (print_endpoint a port) = Ok (a, port).
Proof.
  intros Ha Hp. destruct (address_octets_facts _ _ Ha) as (Hb & Hl & Hv). unfold parse_proc_endpoint, print_endpoint.
  rewrite rsplit_once_last.
  2: { intros Hin. pose proof (upper_hex_chars 4 port) as Hh. rewrite Forall_forall in Hh.
       specialize (Hh _ Hin). unfold is_hex in Hh. lia. }
  cbn [ok_or mbind Result_bind]. rewrite parse_printed_hex; [|lia|done|unfold U16_MAX in *; lia].
  cbn [ok_or mbind Result_bind]. unfold print_address.
  set (n := match a with IpV4 _ => _ | IpV6 _ => _ end).
  rewrite byte_len_hex by apply print_words_chars. unfold zlen. rewrite print_words_length.
  destruct a as [a|a]; destruct Ha as [-> Ha]; subst n.
  - change (Z.of_nat (8 * 1) =? 8) with true. cbn [print_words]. rewrite app_nil_r, take_ge by lia.
    rewrite le_word_printed by done. cbn [ok_or fmap Result_fmap mbind Result_bind mret Result_ret]. unfold compose.
    by rewrite Hv.
  - change (Z.of_nat (8 * 4) =? 8) with false. change (Z.of_nat (8 * 4) =? 32) with true. cbn match.
    replace (forallb _ _) with true.
    + rewrite le_words_printed by done. cbn [ensure ok_or fmap Result_fmap mbind Result_bind mret Result_ret].
      unfold compose. by rewrite Hv.
    + symmetry. apply forallb_forall. intros c Hc. apply list_elem_of_In in Hc.
      pose proof (print_words_chars 4 (address_octets (IpV6 a))) as Hh. rewrite Forall_forall in Hh.
      specialize (Hh _ Hc). unfold is_hex, in_range in *. lia.
Qed.

(** *** Rows *)

Lemma word_fields w : word_ok w -> Forall (fun c => is_ascii_whitespace c = false) w /\ w <> [].
Proof.
  intros [Hne Hw]. split; [|done]. eapply Forall_impl; [exact Hw|]. intros c. unfold is_ascii_whitespace. lia.
Qed.

Lemma split_fields_printed gap fields :
  Forall word_ok fields -> split_fields (print_fields gap fields) = fields.
Proof.
  induction 1 as [|f fields Hf _ IH]; [done|]. unfold print_fields in *. cbn [fmap list_fmap concat].
  destruct (word_fields _ Hf) as [Hw Hne].
  rewrite <-app_assoc, split_fields_spaces, split_fields_word, IH; [done..|].
  destruct fields; [by left|right; by eexists].
Qed.

Lemma is_hex_word s : Forall is_hex s -> Forall (fun c => 33 <= c <= 126) s.
Proof. intros Hs. eapply Forall_impl; [exact Hs|]. unfold is_hex. lia. Qed.

Lemma endpoint_word a port : word_ok (print_endpoint a port).
Proof.
  unfold print_endpoint. split; [by destruct (print_address a)|]. apply Forall_app. split.
  - apply is_hex_word, print_words_chars.
  - constructor; [lia|]. apply is_hex_word, upper_hex_chars.
Qed.

Lemma dec_is_word n : word_ok (dec n).
Proof.
  destruct (dec_digits n) as [Hd Hne]. split; [done|]. eapply Forall_impl; [exact Hd|].
  unfold is_digit. lia.
Qed.

Lemma table_words v4 r : table_row_ok v4 r -> Forall word_ok (table_fields r).
Proof.
  intros [_ _ _ _ _ _ Hw]. rewrite !Forall_cons, Forall_app in Hw. destruct Hw as (Hs & Ht & Hst & Hm).
  unfold table_fields. rewrite !Forall_app, !Forall_cons. split_and!; try done; try apply endpoint_word; apply dec_is_word.
Qed.

(** A row gives its socket; one without an inode is skipped. *)
Lemma parse_table_row v4 gap r :
  table_row_ok v4 r ->
  parse_socket_line (print_fields gap (table_fields r))
  = Ok (if sc_inode (table_socket r) =? 0 then None else Some (table_socket r)).
Proof.
  intros Hr. unfold parse_socket_line. rewrite split_fields_printed by (by eapply table_words).
  destruct Hr as [Hl Hrem [Hlp Hrp] Hu Hi Hst _]. destruct r as [s slot state timeout more].
  cbn [table_socket table_state] in *. destruct state as [|s1 [|s2 [|s3 [|s4 [|]]]]]; try done.
  unfold table_fields. cbn [table_slot table_state table_timeout table_more table_socket app].
  rewrite (parse_dec U64_MAX) by done. cbn [ok_or mbind Result_bind]. destruct (sc_inode s =? 0); [done|].
  rewrite (parse_dec U32_MAX) by done. cbn [ok_or mbind Result_bind].
  rewrite !(endpoint_printed v4) by done. cbn [mbind Result_bind mret Result_ret fst snd]. by destruct s.
Qed.

(** ** Reading a table *)

Section Reading.
Context (instant : nat -> Z) (deadline : Z) (file : ProcFile) (rows : list TableRow).

(** Why a table is not read. *)
Inductive refused : DiagError -> Prop :=
| refused_late n : deadline < instant n -> refused AttributionTimeout
| refused_read call : (forall n, file.(outcome) call <> Deliver n) -> refused TableNotRead
| refused_large : MAX_SOCKET_TABLE_BYTES < zlen file.(content) -> refused TableTooLarge
| refused_entries : MAX_PROC_ENTRIES < zlen rows -> refused EntriesExceeded.

Definition reads {A} (x result : Result DiagError A) : Prop :=
  result = x \/ exists e, result = Err e /\ refused e.

Lemma within_reads {A} (x : Result DiagError A) (k : unit -> ST Resolver DiagError A) r :
  reads x (k tt (tick r)).2 -> reads x ((ensure_within_deadline instant deadline ≫= k) r).2.
Proof.
  intros Hk. rewrite run_bind, within_run. destruct (Z.leb_spec (instant (readings r)) deadline); [done|].
  right. exists AttributionTimeout. split; [done|]. by eapply refused_late.
Qed.

Lemma chunks_read : forall fuel call bytes r,
  bytes `prefix_of` file.(content) -> (length file.(content) - length bytes < fuel)%nat ->
  reads (Ok file.(content)) (read_chunks instant fuel file MAX_SOCKET_TABLE_BYTES deadline call bytes r).2.
Proof.
  induction fuel as [|fuel IH]; intros call bytes r Hpre Hfuel; [lia|]. cbn [read_chunks].
  apply within_reads. rewrite run_lift.
  destruct (read file call (length bytes) PROC_CHUNK) as [[chunk|]|e] eqn:Hread.
  2,3: right; exists TableNotRead; split; [done|]; apply (refused_read call); intros n Hn;
    unfold read in Hread; by rewrite Hn in Hread.
  apply within_reads. apply read_spec in Hread as (Hchunk & _ & Hend).
  destruct chunk as [|b chunk].
  { left. cbn [mret ST_ret snd]. f_equal. apply prefix_all; [done|]. apply Hend; [done|lia]. }
  assert (Hgrow : bytes ++ b :: chunk `prefix_of` content file) by (by apply prefix_grows).
  rewrite run_lift. destruct (Z.leb_spec (zlen bytes + zlen (b :: chunk)) MAX_SOCKET_TABLE_BYTES); cbn [ensure].
  - apply IH; [done|]. apply prefix_length in Hgrow. rewrite length_app in *. cbn [length] in *. lia.
  - right. exists TableTooLarge. split; [done|]. apply refused_large. apply prefix_length in Hgrow.
    unfold zlen in *. rewrite length_app in Hgrow. lia.
Qed.

Lemma table_read opened r :
  opened (S (readings r)) = Some file ->
  reads (Ok file.(content)) (read_bounded instant opened MAX_SOCKET_TABLE_BYTES deadline r).2.
Proof.
  intros Hopen. unfold read_bounded. apply within_reads. rewrite run_get, run_lift. cbn [tick readings].
  rewrite Hopen. cbn [ok_or]. apply within_reads.
  apply chunks_read; [apply prefix_nil|]. cbn [length]. lia.
Qed.

(** A socket without an inode is nobody's. *)
Lemma observe_zero connection c s : sc_inode c = 0 -> observe c connection s = s.
Proof.
  intros Hz. rewrite observe_eq. unfold concerns, candidate_matches. rewrite Hz. cbn [Z.eqb negb].
  destruct (source_port connection); by rewrite ?andb_false_r.
Qed.

Lemma rows_scanned v4 gap connection : forall part index s r,
  Forall (table_row_ok v4) part -> index + zlen part = zlen rows ->
  reads (Ok (observed connection s (table_socket <$> part)))
    (scan_socket_lines instant index (print_fields gap ∘ table_fields <$> part) connection deadline s r).2.
Proof.
  induction part as [|row part IH]; intros index s r Hok Hn; [by left|].
  apply Forall_cons in Hok as [Hrow Hok]. unfold zlen in Hn. cbn [length] in Hn.
  cbn [fmap list_fmap scan_socket_lines]. apply within_reads. rewrite run_lift.
  destruct (Z.ltb_spec index MAX_PROC_ENTRIES); cbn [ensure].
  - change ((print_fields gap ∘ table_fields) row) with (print_fields gap (table_fields row)).
    rewrite run_lift, (parse_table_row v4) by done.
    cbn [observed foldl]. replace (match _ with Some _ => _ | None => _ end)
      with (observe (table_socket row) connection s); [apply IH; [done|unfold zlen; lia]|].
    destruct (Z.eqb_spec (sc_inode (table_socket row)) 0); [by apply observe_zero|done].
  - right. exists EntriesExceeded. split; [done|]. apply refused_entries. unfold zlen. lia.
Qed.
End Reading.

Lemma table_line_chars v4 gap row :
  table_row_ok v4 row -> Forall (fun c => 32 <= c <= 126) (print_fields gap (table_fields row)).
Proof.
  intros Hr. apply table_words in Hr. unfold print_fields. apply Forall_concat, Forall_fmap.
  eapply Forall_impl; [exact Hr|]. intros f [_ Hf]. unfold compose. apply Forall_app. split.
  - apply Forall_replicate. lia.
  - eapply Forall_impl; [exact Hf|]. cbn. lia.
Qed.

Lemma table_text v4 header gap rows :
  Forall (fun c => 32 <= c <= 126) header -> Forall (table_row_ok v4) rows ->
  from_utf8 (print_socket_table header gap rows) = Some (print_socket_table header gap rows)
  /\ lines (print_socket_table header gap rows) = header :: (print_fields gap ∘ table_fields <$> rows).
Proof.
  intros Hh Hok.
  assert (Hchars : Forall (Forall (fun c => 32 <= c <= 126)) (header :: (print_fields gap ∘ table_fields <$> rows))).
  { constructor; [done|]. apply Forall_fmap. eapply Forall_impl; [exact Hok|].
    intros row Hr. by eapply table_line_chars. }
  unfold print_socket_table. split.
  - apply utf8_ascii, Forall_concat, Forall_fmap. eapply Forall_impl; [exact Hchars|]. intros line Hl.
    unfold compose. apply Forall_app. split; [|repeat constructor; lia].
    eapply Forall_impl; [exact Hl|]. cbn. lia.
  - apply lines_print. eapply Forall_impl; [exact Hchars|]. intros line Hl. cbn in Hl. rewrite Forall_forall in Hl.
    split; intros Hin; apply Hl in Hin; lia.
Qed.

(** C32: the socket tables name the socket of a connection.  For an ICMP echo
    connection, whose sockets the kernel lists as text, the result is the only
    inode among the rows of the right table that match the connection and its
    user, and an error when there is none or more than one, however the table is
    padded and however its reads are cut.  There are four other outcomes: the
    clock passed the deadline, a read failed or was interrupted, the table is
    larger than its bound in bytes, or it has more rows than their bound. *)
Theorem socket_tables_find_the_socket `{Target} instant files connection deadline r file header gap rows :
  OutboundConnection_validate connection = Ok tt -> is_tcp_udp (conn_protocol connection) = false ->
  files (S (readings r)) (match source_address connection with IpV4 _ => "icmp" | IpV6 _ => "icmp6" end)%string
  = Some file ->
  content file = print_socket_table header gap rows -> Forall (fun c => 32 <= c <= 126) header ->
  Forall (table_row_ok (is_ipv4 (source_address connection))) rows ->
  reads instant deadline file rows (only_inode connection (table_socket <$> rows))
    (resolve_socket_inode instant files connection deadline r).2.
Proof.
  intros Hv Htu Hfile Hc Hheader Hok. unfold resolve_socket_inode. rewrite Htu.
  unfold resolve_socket_inode_from_procfs.
  assert (Hname : exists name, files (S (readings r)) name = Some file /\
    match conn_protocol connection, source_address connection with
    | Tcp, IpV4 _ => Ok "tcp"%string
    | Tcp, IpV6 _ => Ok "tcp6"%string
    | Udp, IpV4 _ => Ok "udp"%string
    | Udp, IpV6 _ => Ok "udp6"%string
    | Icmp, IpV4 _ => Ok "icmp"%string
    | IcmpV6, IpV6 _ => Ok "icmp6"%string
    | _, _ => Err UnsupportedTable
    end = Ok name).
  { revert Hv Htu Hfile. unfold OutboundConnection_validate. destruct (Bool.eqb _ _); [|done].
    cbn [negb fail_if mbind Result_bind].
    destruct (conn_protocol connection), (source_address connection); try done; intros _ _ Hf; by eexists. }
  destruct Hname as (name & Hf & ->). rewrite run_lift.
  pose proof (table_read instant deadline file rows (fun n => files n name) r Hf) as Hread. rewrite run_bind.
  destruct (read_bounded _ _ _ _ r) as [r1 res]. cbn [snd] in Hread.
  destruct Hread as [->|(e & -> & He)]; [|right; by exists e].
  destruct (table_text _ header gap rows Hheader Hok) as [Hutf8 Hlines].
  rewrite run_lift, Hc, Hutf8. cbn [ok_or]. rewrite Hlines. cbn [tail].
  pose proof (rows_scanned instant deadline file rows (is_ipv4 (source_address connection)) gap connection rows 0
    SockDiagCandidates_default r1 Hok eq_refl) as Hscan.
  rewrite run_bind. destruct (scan_socket_lines _ _ _ _ _ _ r1) as [r2 res]. cbn [snd] in Hscan.
  destruct Hscan as [->|(e & -> & He)]; [|right; by exists e].
  rewrite <-(observed_finish connection SockDiagCandidates_default) by done. unfold candidates_finish.
  rewrite run_lift. destruct (_ && _); [|by left]. cbn [ensure mbind Result_bind].
  apply within_reads. by left.
Qed.

(** *** Witness *)

Definition sample_echo : OutboundConnection :=
  mkOutboundConnection (IpV4 0x0a000002) (Some 9) (IpV4 0x08080808) None Icmp
    (mkInterfaceName (lit "eth0")) 1000.
Definition sample_table_row (uid inode : Z) : TableRow :=
  mkTableRow (mkCandidate (IpV4 0) 9 (IpV4 0) 0 uid inode) [50; 58] [[48; 55]; [48]; [48]; [48]] [48] [[50]].
Definition sample_icmp_table : list TableRow := [sample_table_row 0 7; sample_table_row 1000 42].
Definition sample_proc_file : ProcFile :=
  mkProcFile (print_socket_table [115; 108] (fun _ => 1%nat) sample_icmp_table)
    (fun call => Deliver (100 - call)) (fun _ => 0).

Lemma socket_tables_find_the_socket_witness :
  (resolve_socket_inode (H := x86_64) (fun _ => 0)
     (fun _ name => if (name =? "icmp")%string then Some sample_proc_file else None) sample_echo 5
     (mkResolver 0 None [])).2 = Ok 42.
Proof.
  destruct (socket_tables_find_the_socket (H := x86_64) (fun _ => 0)
    (fun _ name => if (name =? "icmp")%string then Some sample_proc_file else None) sample_echo 5
    (mkResolver 0 None []) sample_proc_file [115; 108] (fun _ => 1%nat) sample_icmp_table)
    as [->|(e & _ & He)].
  - reflexivity.
  - reflexivity.
  - reflexivity.
  - reflexivity.
  - repeat constructor; lia.
  - apply Forall_cons_2; [|apply Forall_cons_2; [|apply Forall_nil_2]];
      (split; cbn; unfold U16_MAX, U32_MAX, U64_MAX; split_and?; try done; unfold word_ok;
       repeat constructor; done).
  - reflexivity.
  - exfalso. destruct He as [n Hn|call Hcall|Hl|Hl].
    + lia.
    + by apply (Hcall (100 - call)%nat).
    + vm_compute in Hl. discriminate.
    + vm_compute in Hl. discriminate.
Defined.
