(* ===== verification/Registry.v ===== *)
(** * Readiness of reply flows

    The registry of [nfqueue_reply.rs]: tickets of outgoing packets grouped by
    flow into waves, and what a held reply may learn from them.  No entry is an
    authorization; the most that it permits is another look at the packet by
    the kernel. *)

From S2P Require Import Prelude Text Net Model Marks Nftables Netlink Decision Packet Progress.
Local Open Scope Z_scope.

Abbreviation CAPACITY := 128 (only parsing).
(** Instants and durations are nanoseconds. *)
Abbreviation LIFETIME := 2000000000 (only parsing).
Abbreviation RETRY_BACKOFF := 5000000 (only parsing).

(** ** Hash maps

    A hash map iterates in an order that the program does not know. *)
Class HashOrder : Type := {
  hash_order : forall {A : Type}, list A -> list A;
  hash_order_perm : forall {A : Type} (xs : list A), hash_order xs ≡ₚ xs
}.

Definition hash_iter `{HashOrder} `{Countable K} {A} (m : gmap K A) : list (K * A) :=
  hash_order (map_to_list m).

#[export] Instance FlowKey_countable : Countable FlowKey.
Proof.
  apply (inj_countable'
    (fun k => (local k, local_port k, remote k, remote_port k, fk_protocol k))
    (fun x => let '(a, b, c, d, e) := x in mkFlowKey a b c d e)).
  by intros [].
Defined.

Definition saturating_duration_since (now earlier : Z) : Z := Z.max 0 (now - earlier).

(** ** Operations *)

Definition classify_outgoing (work : QueuedPacketWork) : OutgoingFlow :=
  match work.(work_packet) with
  | Err _ => Unknown
  | Ok packet =>
      let c := packet.(connection) in
      match c.(conn_protocol) with
      | Tcp => Unrelated
      | Udp | Icmp | IcmpV6 =>
          match c.(source_port) with
          | None => Unknown
          | Some local_port =>
              if (c.(conn_protocol) ==? Udp) && is_none c.(destination_port) then Unknown
              else Reply (mkFlowKey c.(source_address) local_port c.(destination_address)
                            c.(destination_port) c.(conn_protocol))
          end
      | Any => Unknown
      end
  end.

Record OutgoingTicket : Type := mkTicket {
  ticket_key : FlowKey;
  ticket_generation : Z;
  ticket_wave : Z;
  ticket_serial : Z
}.

Record Wave : Type := mkWave {
  wave_serial : Z;
  active : gset Z;
  failed : bool;
  updated : Z
}.

Record Registry : Type := mkRegistry {
  generation : option Z;
  next_serial : Z;
  waves : gmap FlowKey Wave;
  progress : QueueProgress
}.

Inductive RegistryError : Type :=
| ActiveTicketBound
| FlowBound
| TicketSpaceExhausted.

Definition Registry_new (queue_port_id epoch : Z) : Result ProgressError Registry :=
  mkRegistry None 0 ∅ <$> QueueProgress_new queue_port_id epoch.

Definition set_waves (v : gmap FlowKey Wave) (self : Registry) : Registry :=
  mkRegistry self.(generation) self.(next_serial) v self.(progress).
Definition set_progress (v : QueueProgress) (self : Registry) : Registry :=
  mkRegistry self.(generation) self.(next_serial) self.(waves) v.

Definition is_idle (wave : Wave) : bool := bool_decide (wave.(active) = ∅).

Definition prune (now : Z) (self : Registry) : Registry :=
  set_waves (filter (fun kv => negb (is_idle kv.2)
      || (saturating_duration_since now kv.2.(updated) <? LIFETIME) = true) self.(waves)) self.

Definition active_tickets (waves : gmap FlowKey Wave) : Z :=
  foldr Z.add 0 ((fun kv => Z.of_nat (size kv.2.(active))) <$> map_to_list waves).

Section Operations.
Context `{HashOrder}.

(** The idle flow that was updated first. *)
Definition oldest_idle (waves : gmap FlowKey Wave) : option FlowKey :=
  fst <$> min_by_key (fun a b => a.2.(updated) <? b.2.(updated))
            (List.filter (fun kv => is_idle kv.2) (hash_iter waves)).

Definition begin (key : FlowKey) (generation' now : Z) : ST Registry RegistryError OutgoingTicket :=
  modify (fun self =>
    if self.(generation) ==? Some generation' then self
    else mkRegistry (Some generation') self.(next_serial) ∅ self.(progress)) ;;
  modify (prune now) ;;
  self ← get;
  lift (ensure (active_tickets self.(waves) <? CAPACITY) ActiveTicketBound) ;;
  modify (fun self =>
    if is_none (self.(waves) !! key) && (CAPACITY <=? Z.of_nat (size self.(waves))) then
      match oldest_idle self.(waves) with
      | Some oldest => set_waves (delete oldest self.(waves)) self
      | None => self
      end
    else self) ;;
  self ← get;
  lift (ensure (is_some (self.(waves) !! key) || (Z.of_nat (size self.(waves)) <? CAPACITY))
          FlowBound) ;;
  serial ← lift (ok_or TicketSpaceExhausted (u64_checked_add self.(next_serial) 1));
  let wave := default (mkWave serial ∅ false now) (self.(waves) !! key) in
  let wave := if is_idle wave then mkWave serial wave.(active) false wave.(updated) else wave in
  let wave := mkWave wave.(wave_serial) ({[serial]} ∪ wave.(active)) wave.(failed) now in
  modify (fun self =>
    mkRegistry self.(generation) serial (<[key := wave]> self.(waves)) self.(progress)) ;;
  mret (mkTicket key generation' wave.(wave_serial) serial).
End Operations.

(** [Registry::complete]: whether the ticket was settled. *)
Definition settle (ticket : OutgoingTicket) (succeeded : bool) (now : Z) (self : Registry)
    : Registry * bool :=
  if self.(generation) !=? Some ticket.(ticket_generation) then (self, false)
  else
    match self.(waves) !! ticket.(ticket_key) with
    | None => (self, false)
    | Some wave =>
        if negb (wave.(wave_serial) =? ticket.(ticket_wave))
           || negb (bool_decide (ticket.(ticket_serial) ∈ wave.(active)))
        then (self, false)
        else
          (set_waves (<[ticket.(ticket_key) :=
              mkWave wave.(wave_serial) (wave.(active) ∖ {[ticket.(ticket_serial)]})
                (wave.(failed) || negb succeeded) now]> self.(waves)) self, true)
    end.

(** ** Held replies *)

Record ReplyPacket : Type := mkReplyPacket { reply_key : FlowKey; reply_mark : Z }.

Record PendingReply : Type := mkPendingReply {
  reply_packet : ReplyPacket;
  reply_generation : Z;
  started : Z;
  not_before : Z;
  read_through : ReadThroughBarrier
}.

Inductive Disposition : Type := Wait | DropReply | Repeat.
#[export] Instance Disposition_eq_dec : EqDecision Disposition.
Proof. solve_decision. Defined.

Definition readiness (pending : PendingReply) (now : Z) (self : Registry) : Registry * Disposition :=
  let self := prune now self in
  (self,
   if self.(generation) !=? Some pending.(reply_generation) then Wait
   else
     match self.(waves) !! pending.(reply_packet).(reply_key) with
     | None => Wait
     | Some wave => if wave.(failed) then DropReply else Repeat
     end).

Definition disposition (self : PendingReply) (mode : Mode) (generation' : Z) (stopping : bool)
    (now : Z) (registry : Registry) : Registry * Disposition :=
  if stopping || (mode !=? Enforcing) || negb (generation' =? self.(reply_generation))
     || (LIFETIME <=? saturating_duration_since now self.(started))
  then (registry, DropReply)
  else if now <? self.(not_before) then (registry, Wait)
  else if negb (reached_for_flow registry.(progress) self.(read_through)
                  self.(reply_packet).(reply_key))
  then (registry, Wait)
  else readiness self now registry.

Abbreviation PendingReplies := (gmap Z PendingReply).

(** [Instant::checked_add] on Linux: seconds are a signed 64-bit number. *)
Abbreviation INSTANT_MAX := (2 ^ 63 * 1000000000 - 1).
Definition instant_checked_add (now duration : Z) : option Z :=
  if now + duration <=? INSTANT_MAX then Some (now + duration) else None.

Inductive PendingError : Type := ReplyIdReused | BackoffOverflow.

Definition PendingReplies_insert (id : Z) (packet : ReplyPacket) (generation' now : Z)
    (read_through : ReadThroughBarrier) : ST PendingReplies PendingError bool :=
  self ← get;
  lift (ensure (is_none (self !! id)) ReplyIdReused) ;;
  if CAPACITY <=? Z.of_nat (size self) then mret false
  else
    not_before ←
      (if Z.shiftr packet.(reply_mark) 30 =? 0 then mret now
       else lift (ok_or BackoffOverflow (instant_checked_add now RETRY_BACKOFF)));
    modify (insert id (mkPendingReply packet generation' now not_before read_through)) ;;
    mret true.

(** ** Parsing *)

Definition mark_attribute (mark : option Z) (attribute : Attribute)
    : Result ParseError (option Z) :=
  if attribute.(kind) =? NFQA_MARK then
    ensure (is_none mark) (Malformed "reply has duplicate mark") ;;
    v ← network_u32 attribute.(attr_payload); mret (Some v)
  else mret mark.

Definition parse_reply `{Target} (payload : Bytes) : Result ParseError ReplyPacket :=
  ensure (NFGENMSG_BYTES <=? zlen payload) (Malformed "reply netlink payload is truncated") ;;
  queue ← be_u16 payload 2;
  ensure (queue =? APPLICATION_REPLY_QUEUE_NUMBER)
    (Malformed "reply message came from an unexpected queue") ;;
  body ← slice payload NFGENMSG_BYTES (zlen payload);
  capture ← parse_packet_capture body;
  mark ← for_attributes mark_attribute None (attributes body);
  let packet_mark := default 0 mark in
  ensure (negb (packet_mark =? application_reply_retry_mark packet_mark))
    (Malformed "terminal reply retry budget reached its queue again") ;;
  let ip := capture.(cap_payload) in
  parsed ← PacketCapture_parse capture PacketReply;
  ensure ((parsed.(parsed_protocol) ==? Udp) || (parsed.(parsed_protocol) ==? Icmp)
          || (parsed.(parsed_protocol) ==? IcmpV6))
    (Malformed "reply retry only supports UDP and ICMP echo replies") ;;
  ensure (parsed.(transport_offset) + 8 <=? zlen ip)
    (Malformed "reply transport header is truncated") ;;
  ports ←
    (if parsed.(parsed_protocol) ==? Udp then
       port ← ok_or (Malformed "UDP reply has no destination port")
                parsed.(parsed_destination_port);
       mret (port, parsed.(parsed_source_port))
     else
       port ← ok_or (Malformed "echo reply has no identifier") parsed.(parsed_source_port);
       mret (port, None));
  mret (mkReplyPacket (mkFlowKey parsed.(parsed_destination_address) ports.1
          parsed.(parsed_source_address) ports.2 parsed.(parsed_protocol)) packet_mark).

(** ** Waves as logs

    What a flow stands for: the tickets of its current wave in the order in
    which they began, each with the outcome of its packet once it is known. *)

Abbreviation WaveLog := (list (Z * option bool)).

Definition settled_log (log : WaveLog) : Prop := forall s, (s, None) ∉ log.

Record AbsRegistry : Type := mkAbs {
  abs_generation : option Z;
  logs : gmap FlowKey WaveLog
}.

Record tracks_wave (w : Wave) (log : WaveLog) : Prop := {
  tw_first : fst <$> head log = Some (wave_serial w);
  tw_nodup : NoDup log.*1;
  tw_active : forall s, s ∈ active w <-> (s, None) ∈ log;
  tw_failed : failed w = true <-> exists s, (s, Some false) ∈ log
}.

Definition tracked (w : option Wave) (log : option WaveLog) : Prop :=
  match w, log with
  | Some w, Some log => tracks_wave w log
  | None, None => True
  | _, _ => False
  end.

(** The registry follows the logs, and holds at most 128 flows and tickets. *)
Record follows (r : Registry) (a : AbsRegistry) : Prop := {
  fo_generation : generation r = abs_generation a;
  fo_waves : forall k, tracked (waves r !! k) (logs a !! k);
  fo_serials : forall k log s o, logs a !! k = Some log -> (s, o) ∈ log -> s <= next_serial r;
  fo_tickets : active_tickets (waves r) <= CAPACITY;
  fo_flows : Z.of_nat (size (waves r)) <= CAPACITY
}.

(** Only settled waves are forgotten. *)
Definition forgets (l l' : gmap FlowKey WaveLog) : Prop :=
  l' ⊆ l /\ forall k log, l !! k = Some log -> l' !! k = None -> settled_log log.

(** The log that a new ticket joins: a settled wave is over. *)
Definition open_log (log : option WaveLog) : WaveLog :=
  match log with
  | Some log => if existsb (fun e => is_none e.2) log then log else []
  | None => []
  end.

Definition settle_log (serial : Z) (succeeded : bool) (log : WaveLog) : WaveLog :=
  (fun e => if e.1 =? serial then (e.1, Some succeeded) else e) <$> log.

(** What the operations do to the logs. *)
Inductive RegistryOp : Type :=
| Begin (key : FlowKey) (generation now : Z)
| Settle (ticket : OutgoingTicket) (succeeded : bool) (now : Z)
| Prune (now : Z)
| AdmitPackets (packets : list (Z * OutgoingFlow))
| RecordVerdict (packet_id : Z).

Definition begun (g : Z) (a : AbsRegistry) (l : gmap FlowKey WaveLog) : Prop :=
  if decide (abs_generation a = Some g) then forgets (logs a) l else l = ∅.

Inductive wave_step : RegistryOp -> AbsRegistry -> AbsRegistry -> Prop :=
| step_begin key g now l serial a :
    begun g a l ->
    wave_step (Begin key g now) a
      (mkAbs (Some g) (<[key := open_log (l !! key) ++ [(serial, None)]]> l))
| step_begin_refused key g now l a :
    begun g a l -> wave_step (Begin key g now) a (mkAbs (Some g) l)
| step_settle ticket succeeded now log a :
    abs_generation a = Some (ticket_generation ticket) ->
    logs a !! ticket_key ticket = Some log ->
    fst <$> head log = Some (ticket_wave ticket) -> (ticket_serial ticket, None) ∈ log ->
    wave_step (Settle ticket succeeded now) a
      (mkAbs (abs_generation a)
         (<[ticket_key ticket := settle_log (ticket_serial ticket) succeeded log]> (logs a)))
| step_settle_ignored ticket succeeded now a :
    wave_step (Settle ticket succeeded now) a a
| step_prune now l a :
    forgets (logs a) l -> wave_step (Prune now) a (mkAbs (abs_generation a) l)
| step_admit packets a : wave_step (AdmitPackets packets) a a
| step_record id a : wave_step (RecordVerdict id) a a.

Definition registry_step `{HashOrder} (op : RegistryOp) (r : Registry) : Registry :=
  match op with
  | Begin key g now => (begin key g now r).1
  | Settle ticket succeeded now => (settle ticket succeeded now r).1
  | Prune now => prune now r
  | AdmitPackets packets => set_progress (admit_classified packets (progress r)).1 r
  | RecordVerdict id => set_progress (complete id (progress r)).1 r
  end.

(** *** Counting tickets *)

Lemma sum_nonneg (l : list (FlowKey * Wave)) :
  0 <= foldr Z.add 0 ((fun kv => Z.of_nat (size (active kv.2))) <$> l).
Proof. induction l as [|kv l IH]; cbn; lia. Qed.

Lemma sum_app (l l' : list (FlowKey * Wave)) :
  let f kv := Z.of_nat (size (active kv.2)) in
  foldr Z.add 0 (f <$> l ++ l') = foldr Z.add 0 (f <$> l) + foldr Z.add 0 (f <$> l').
Proof. cbv zeta. induction l as [|kv l IH]; cbn in *; lia. Qed.

Lemma sum_perm (l l' : list (FlowKey * Wave)) :
  let f kv := Z.of_nat (size (active kv.2)) in
  l ≡ₚ l' -> foldr Z.add 0 (f <$> l) = foldr Z.add 0 (f <$> l').
Proof. cbv zeta. induction 1; cbn in *; lia. Qed.

Lemma active_tickets_insert m k w :
  m !! k = None -> active_tickets (<[k := w]> m) = Z.of_nat (size (active w)) + active_tickets m.
Proof.
  intros Hk. unfold active_tickets.
  by rewrite (sum_perm _ _ (map_to_list_insert m k w Hk)).
Qed.

Lemma active_tickets_delete m k w :
  m !! k = Some w ->
  active_tickets m = Z.of_nat (size (active w)) + active_tickets (delete k m).
Proof.
  intros Hk. rewrite <-(insert_delete_id m k w Hk) at 1.
  apply active_tickets_insert, lookup_delete_eq.
Qed.

Lemma active_tickets_mono m m' : m' ⊆ m -> active_tickets m' <= active_tickets m.
Proof.
  intros Hsub%map_to_list_submseteq. apply submseteq_Permutation in Hsub as [l Hl].
  unfold active_tickets. rewrite (sum_perm _ _ Hl), sum_app.
  pose proof (sum_nonneg l). lia.
Qed.

Lemma waves_mono (m m' : gmap FlowKey Wave) : m' ⊆ m -> Z.of_nat (size m') <= Z.of_nat (size m).
Proof. intros Hsub%map_subseteq_size. lia. Qed.

(** *** Forgetting settled waves *)

#[export] Instance forgets_refl : Reflexive forgets.
Proof. intros l. split; [done|]. congruence. Qed.

#[export] Instance forgets_trans : Transitive forgets.
Proof.
  intros l1 l2 l3 [S12 F12] [S23 F23]. split; [by etrans|]. intros k log Hk H3.
  destruct (l2 !! k) as [log'|] eqn:H2; [|by eapply F12].
  pose proof (lookup_weaken _ _ _ _ H2 S12). simplify_eq. by eapply F23.
Qed.

Lemma tracked_idle w log : tracks_wave w log -> is_idle w = true <-> settled_log log.
Proof.
  intros Htr. unfold is_idle, settled_log. rewrite bool_decide_eq_true. split.
  - intros He s Hs. apply (tw_active _ _ Htr) in Hs. set_solver.
  - intros Hs. apply set_eq. intros s. rewrite (tw_active _ _ Htr). set_solver.
Qed.

Lemma follows_forget r a (m : gmap FlowKey Wave) :
  follows r a -> m ⊆ waves r ->
  (forall k w, waves r !! k = Some w -> m !! k = None -> is_idle w = true) ->
  exists l, forgets (logs a) l /\ follows (set_waves m r) (mkAbs (abs_generation a) l).
Proof.
  intros Hf Hsub Hidle.
  set (l := filter (fun kv => is_some (m !! kv.1) = true) (logs a)).
  assert (Hl : forall k, l !! k = if is_some (m !! k) then logs a !! k else None).
  { intros k. unfold l. rewrite map_lookup_filter. pose proof (fo_waves _ _ Hf k) as Ht.
    destruct (logs a !! k) as [log|]; cbn; [|by destruct (m !! k)].
    destruct (m !! k); cbn; case_guard; naive_solver. }
  exists l. split.
  - split; [apply map_filter_subseteq|]. intros k log Hk. rewrite Hl. pose proof (fo_waves _ _ Hf k) as Ht.
    rewrite Hk in Ht. destruct (waves r !! k) as [w|] eqn:Hw; [|done].
    destruct (m !! k) eqn:Hm; [by rewrite Hk|]. intros _. apply (tracked_idle w); [done|]. by eapply Hidle.
  - split; cbn [generation waves logs abs_generation next_serial set_waves].
    + by apply Hf.
    + intros k. rewrite Hl. pose proof (fo_waves _ _ Hf k) as Ht.
      destruct (m !! k) as [w|] eqn:Hm; [|done].
      by rewrite (lookup_weaken _ _ _ _ Hm Hsub) in Ht.
    + intros k log s o. rewrite Hl. destruct (m !! k); [|done]. by apply (fo_serials _ _ Hf).
    + pose proof (active_tickets_mono _ _ Hsub). pose proof (fo_tickets _ _ Hf). lia.
    + pose proof (waves_mono _ _ Hsub). pose proof (fo_flows _ _ Hf). lia.
Qed.

Lemma prune_follows now r a :
  follows r a ->
  exists l, forgets (logs a) l /\ follows (prune now r) (mkAbs (abs_generation a) l).
Proof.
  intros Hf. apply follows_forget; [done|apply map_filter_subseteq|].
  intros k w Hw Hno. rewrite map_lookup_filter, Hw in Hno. cbn in Hno.
  destruct (is_idle w); [done|]. cbn in Hno. by rewrite option_guard_True in Hno.
Qed.

(** *** Tickets *)

Lemma existsb_open log : existsb (fun e : Z * option bool => is_none e.2) log = false <-> settled_log log.
Proof.
  rewrite <-not_true_iff_false, existsb_exists. unfold settled_log. split.
  - intros Hno s Hs. apply Hno. exists (s, None). by rewrite <-list_elem_of_In.
  - intros Hs ([s [o|]] & Hin%list_elem_of_In & Hn); [done|]. by eapply Hs.
Qed.

Definition begin_wave (serial now : Z) (w : option Wave) : Wave :=
  let wave := default (mkWave serial ∅ false now) w in
  let wave := if is_idle wave then mkWave serial wave.(active) false wave.(updated) else wave in
  mkWave wave.(wave_serial) ({[serial]} ∪ wave.(active)) wave.(failed) now.

Lemma begin_wave_idle serial now w :
  (forall w', w = Some w' -> is_idle w' = true) ->
  begin_wave serial now w = mkWave serial {[serial]} false now.
Proof.
  intros Hidle. unfold begin_wave. destruct w as [w|]; cbn [from_option id].
  - rewrite (Hidle w eq_refl). cbn. specialize (Hidle w eq_refl).
    unfold is_idle in Hidle. rewrite bool_decide_eq_true in Hidle. rewrite Hidle.
    by rewrite union_empty_r_L.
  - change (mkWave serial ({[serial]} ∪ ∅) false now = mkWave serial {[serial]} false now).
    by rewrite union_empty_r_L.
Qed.

Lemma fresh_wave_tracks serial now :
  tracks_wave (mkWave serial {[serial]} false now) [(serial, None)].
Proof.
  split; cbn; [done|apply NoDup_singleton| |].
  - intros s. rewrite elem_of_singleton, list_elem_of_singleton. naive_solver.
  - split; [done|]. intros [s Hs%list_elem_of_singleton]. done.
Qed.

Lemma begin_wave_tracks serial now w log :
  tracked w log -> (forall l s o, log = Some l -> (s, o) ∈ l -> s < serial) ->
  tracks_wave (begin_wave serial now w) (open_log log ++ [(serial, None)]).
Proof.
  intros Ht Hfresh. destruct w as [w|], log as [log|]; try done.
  2: { rewrite begin_wave_idle by done. apply fresh_wave_tracks. }
  cbn [tracked open_log] in *. destruct (existsb _ log) eqn:Hopen.
  2: { apply existsb_open in Hopen. rewrite begin_wave_idle; [apply fresh_wave_tracks|].
       intros w' [= <-]. by apply (tracked_idle w log). }
  assert (Hbusy : is_idle w = false).
  { apply not_true_iff_false. intros Hi%(tracked_idle w log); [|done].
    apply existsb_open in Hi. congruence. }
  unfold begin_wave. cbn [from_option id]. rewrite Hbusy.
  destruct Ht as [H1 H2 H3 H4]. split; cbn [wave_serial active failed].
  - destruct log; [done|]. exact H1.
  - rewrite fmap_app. apply NoDup_app. split_and!; [done| |apply NoDup_singleton].
    intros s ([s' o] & -> & Hin)%list_elem_of_fmap Hs%list_elem_of_singleton.
    specialize (Hfresh _ _ _ eq_refl Hin). cbn in *. lia.
  - intros s. rewrite elem_of_union, elem_of_singleton, H3, elem_of_app, list_elem_of_singleton.
    naive_solver.
  - rewrite H4. setoid_rewrite elem_of_app. setoid_rewrite list_elem_of_singleton. naive_solver.
Qed.

Lemma begin_wave_size serial now w :
  Z.of_nat (size (active (begin_wave serial now w)))
  <= 1 + Z.of_nat (size (default ∅ (active <$> w))).
Proof.
  assert (Hadd : forall X : gset Z, Z.of_nat (size ({[serial]} ∪ X)) <= 1 + Z.of_nat (size X)).
  { intros X. pose proof (size_union_alt ({[serial]} : gset Z) X) as E. rewrite size_singleton in E.
    pose proof (subseteq_size (X ∖ {[serial]}) X ltac:(set_solver)). lia. }
  unfold begin_wave. destruct w as [w|]; cbn [from_option id fmap option_fmap option_map];
    [destruct (is_idle w)|]; apply Hadd.
Qed.

Section Follows.
Context `{HashOrder}.

Lemma reset_follows g r a :
  follows r a ->
  let r1 := if generation r ==? Some g then r
            else mkRegistry (Some g) (next_serial r) ∅ (progress r) in
  exists l, follows r1 (mkAbs (Some g) l) /\ (forall l', forgets l l' -> begun g a l').
Proof.
  intros Hf. cbv zeta. unfold begun. rewrite <-(fo_generation _ _ Hf).
  destruct (generation r ==? Some g) eqn:Hg.
  - rewrite eqb_true in Hg. destruct (decide _) as [_|]; [|done]. exists (logs a). split; [|done].
    rewrite <-Hg. by destruct Hf.
  - destruct (decide _) as [E|_]; [by rewrite E, eqb_refl in Hg|]. exists ∅. split.
    + split; cbn; try done.
    + intros l' [Hsub _]. by apply (anti_symm (⊆)); [|apply map_empty_subseteq].
Qed.

Lemma evict_follows r a key :
  follows r a -> waves r !! key = None ->
  exists l, forgets (logs a) l
  /\ follows (match oldest_idle (waves r) with
              | Some oldest => set_waves (delete oldest (waves r)) r
              | None => r
              end) (mkAbs (abs_generation a) l).
Proof.
  intros Hf Hk. destruct (oldest_idle (waves r)) as [old|] eqn:Ho.
  2: { exists (logs a). split; [done|]. by destruct a. }
  apply follows_forget; [done|apply delete_subseteq|].
  intros k w Hw Hno. unfold oldest_idle in Ho. apply fmap_Some in Ho as ([k' w'] & Hmin & ->).
  apply min_by_key_elem, elem_of_filter_bool in Hmin as [Hin Hi].
  unfold hash_iter in Hin. rewrite hash_order_perm in Hin. apply elem_of_map_to_list in Hin.
  cbn [fst snd] in *. destruct (decide (k = k')) as [->|]; [congruence|].
  by rewrite lookup_delete_ne, Hw in Hno by done.
Qed.

Lemma insert_follows r a key g now serial :
  follows r a -> abs_generation a = Some g -> active_tickets (waves r) < CAPACITY ->
  is_some (waves r !! key) || (Z.of_nat (size (waves r)) <? CAPACITY) = true ->
  serial = next_serial r + 1 ->
  follows (mkRegistry (generation r) serial
             (<[key := begin_wave serial now (waves r !! key)]> (waves r)) (progress r))
    (mkAbs (Some g) (<[key := open_log (logs a !! key) ++ [(serial, None)]]> (logs a))).
Proof.
  intros Hf Hg Ht Hcap ->. split; cbn [generation waves logs abs_generation next_serial].
  - rewrite (fo_generation _ _ Hf). done.
  - intros k. destruct (decide (k = key)) as [->|]; [|rewrite !lookup_insert_ne by done; by apply Hf].
    rewrite !lookup_insert_eq. apply begin_wave_tracks; [by apply Hf|].
    intros l s o Hl Hin. pose proof (fo_serials _ _ Hf _ _ _ _ Hl Hin). lia.
  - intros k log s o. rewrite lookup_insert_Some. intros [[<- <-]|[_ Hl]] Hin.
    + apply elem_of_app in Hin as [Hin|Hin%list_elem_of_singleton]; [|simplify_eq; lia].
      unfold open_log in Hin. destruct (logs a !! key) as [log|] eqn:Hl; [|by apply elem_of_nil in Hin].
      destruct (existsb _ log); [|by apply elem_of_nil in Hin].
      pose proof (fo_serials _ _ Hf _ _ _ _ Hl Hin). lia.
    + pose proof (fo_serials _ _ Hf _ _ _ _ Hl Hin). lia.
  - pose proof (begin_wave_size (next_serial r + 1) now (waves r !! key)) as Hs.
    destruct (waves r !! key) as [w|] eqn:Hw; cbn [fmap option_fmap option_map from_option id] in Hs.
    + rewrite (active_tickets_delete _ _ _ Hw) in Ht.
      rewrite <-insert_delete_eq, active_tickets_insert by apply lookup_delete_eq. lia.
    + rewrite active_tickets_insert by done. rewrite size_empty in Hs. lia.
  - pose proof (fo_flows _ _ Hf). rewrite map_size_insert.
    destruct (waves r !! key); cbn in Hcap |- *; [lia|]. apply Z.ltb_lt in Hcap. lia.
Qed.

Lemma begin_follows key g now r a r' res :
  follows r a -> begin key g now r = (r', res) ->
  exists l, begun g a l
  /\ match res with
     | Ok t => follows r' (mkAbs (Some g) (<[key := open_log (l !! key) ++ [(ticket_serial t, None)]]> l))
         /\ ticket_key t = key /\ ticket_generation t = g /\ ticket_serial t = next_serial r + 1
         /\ fst <$> head (open_log (l !! key) ++ [(ticket_serial t, None)]) = Some (ticket_wave t)
     | Err _ => follows r' (mkAbs (Some g) l)
     end.
Proof.
  intros Hf. unfold begin. rewrite !run_modify, run_get, run_lift.
  destruct (reset_follows g r a Hf) as (l1 & Hf1 & Hb). cbv zeta in Hf1.
  set (r1 := if generation r ==? Some g then r else _) in *.
  destruct (prune_follows now r1 _ Hf1) as (l2 & Hl2 & Hf2). cbn [abs_generation logs] in *.
  assert (Hn : next_serial (prune now r1) = next_serial r) by (unfold r1; by destruct (_ ==? _)).
  set (r2 := prune now r1) in *. clearbody r2. clear r1 Hf1.
  destruct (ensure _ _) as [[]|err] eqn:Hc1; [|intros [= <- <-]; exists l2; auto].
  apply ensure_Ok, Z.ltb_lt in Hc1. rewrite run_modify, run_get, run_lift.
  set (r3 := if is_none (waves r2 !! key) && _ then _ else r2).
  assert (exists l3, forgets l2 l3 /\ follows r3 (mkAbs (Some g) l3)
    /\ active_tickets (waves r3) < CAPACITY /\ next_serial r3 = next_serial r) as (l3 & Hl3 & Hf3 & Ht3 & Hn3).
  { unfold r3. destruct (is_none _ && _) eqn:Hfull; [|by exists l2].
    apply andb_true_iff in Hfull as [Hnone _].
    destruct (evict_follows r2 _ key Hf2) as (l3 & Hl3 & Hf3); [by destruct (waves r2 !! key)|].
    exists l3. split_and!; try done; destruct (oldest_idle (waves r2)) as [f|]; try done.
    pose proof (active_tickets_mono _ _ (delete_subseteq (waves r2) f)). cbn. lia. }
  clearbody r3. assert (Hb3 : begun g a l3) by (apply Hb; by etrans).
  destruct (ensure _ _) as [[]|err] eqn:Hc2; [|intros [= <- <-]; by exists l3].
  apply ensure_Ok in Hc2. rewrite run_lift.
  destruct (u64_checked_add _ 1) as [serial|] eqn:Hs; cbn [ok_or]; [|intros [= <- <-]; by exists l3].
  apply u64_checked_add_Some in Hs as [Hs _].
  fold (begin_wave serial now (waves r3 !! key)). rewrite run_modify.
  cbv beta iota delta [mret ST_ret]. intros [= <- <-]. exists l3. split; [done|].
  cbn [ticket_serial ticket_key ticket_generation ticket_wave].
  assert (Hins := insert_follows r3 _ key g now serial Hf3 eq_refl Ht3 Hc2 Hs).
  split_and!; try done; [lia|]. pose proof (fo_waves _ _ Hins key) as Htr.
  cbn [waves logs] in Htr. rewrite !lookup_insert_eq in Htr. apply Htr.
Qed.

Lemma keys_functional {K A} (l : list (K * A)) k x y :
  NoDup l.*1 -> (k, x) ∈ l -> (k, y) ∈ l -> x = y.
Proof.
  induction l as [|[k' z] l IH]; [by intros _ ?%elem_of_nil|].
  rewrite fmap_cons, NoDup_cons, !elem_of_cons. intros [Hk Hnd] [Ex|Hx] [Ey|Hy]; simplify_eq.
  - done.
  - destruct Hk. by apply (list_elem_of_fmap_2 fst) in Hy.
  - destruct Hk. by apply (list_elem_of_fmap_2 fst) in Hx.
  - by apply IH.
Qed.

Lemma settle_log_elem serial ok log s o :
  (s, o) ∈ settle_log serial ok log <->
  (s <> serial /\ (s, o) ∈ log) \/ (s = serial /\ o = Some ok /\ exists o', (s, o') ∈ log).
Proof.
  unfold settle_log. rewrite list_elem_of_fmap. split.
  - intros ([s' o'] & E & Hin). cbn [fst] in E. destruct (Z.eqb_spec s' serial); naive_solver.
  - intros [[Hne Hin]|(-> & -> & o' & Hin)].
    + exists (s, o). cbn [fst]. by rewrite (proj2 (Z.eqb_neq _ _) Hne).
    + exists (serial, o'). cbn [fst]. by rewrite Z.eqb_refl.
Qed.

Lemma settle_log_serials serial ok log : (settle_log serial ok log).*1 = log.*1.
Proof.
  unfold settle_log. induction log as [|[s o] log IH]; [done|]. cbn in *. rewrite IH.
  by destruct (s =? serial).
Qed.

Lemma settle_tracks w log serial ok now :
  tracks_wave w log -> serial ∈ active w ->
  tracks_wave (mkWave (wave_serial w) (active w ∖ {[serial]}) (failed w || negb ok) now)
    (settle_log serial ok log).
Proof.
  intros [H1 H2 H3 H4] Hin. split; cbn [wave_serial active failed].
  - pose proof (settle_log_serials serial ok log) as E.
    destruct log as [|[s o] log]; [done|]. cbn in *. destruct (s =? serial); done.
  - by rewrite settle_log_serials.
  - intros s. rewrite elem_of_difference, elem_of_singleton, H3, settle_log_elem. naive_solver.
  - rewrite orb_true_iff, H4. setoid_rewrite settle_log_elem. apply H3 in Hin. split.
    + intros [[s Hs]|Hok].
      * exists s. left. split; [|done]. intros ->.
        assert (Some false = None); [|done].
        by eapply keys_functional.
      * exists serial. right. destruct ok; naive_solver.
    + intros (s & [[Hne Hs]|(-> & [= <-] & _)]); [left; eauto|by right].
Qed.

Lemma settle_follows t ok now r a r' b :
  follows r a -> settle t ok now r = (r', b) ->
  if b then
    exists log, generation r = Some (ticket_generation t) /\ logs a !! ticket_key t = Some log
    /\ fst <$> head log = Some (ticket_wave t) /\ (ticket_serial t, None) ∈ log
    /\ follows r' (mkAbs (abs_generation a)
         (<[ticket_key t := settle_log (ticket_serial t) ok log]> (logs a)))
  else r' = r.
Proof.
  intros Hf. unfold settle.
  destruct (_ !=? _) eqn:Hg; [by intros [= <- <-]|]. rewrite negb_false_iff, eqb_true in Hg.
  destruct (waves r !! ticket_key t) as [w|] eqn:Hw; [|by intros [= <- <-]].
  destruct (_ || _) eqn:Hc; intros [= <- <-]; [done|].
  rewrite orb_false_iff, !negb_false_iff, Z.eqb_eq, bool_decide_eq_true in Hc.
  destruct Hc as [Hwave Hact]. pose proof (fo_waves _ _ Hf (ticket_key t)) as Htr.
  rewrite Hw in Htr. destruct (logs a !! ticket_key t) as [log|] eqn:Hl; [|done].
  exists log. cbn [tracked] in Htr.
  split_and!; [done..|by rewrite (tw_first _ _ Htr), Hwave|by apply (tw_active _ _ Htr)|].
  split; cbn [generation waves logs abs_generation next_serial set_waves].
  - by apply Hf.
  - intros k. destruct (decide (k = ticket_key t)) as [->|].
    + rewrite !lookup_insert_eq. by apply settle_tracks.
    + rewrite !lookup_insert_ne by done. by apply Hf.
  - intros k log' s o. rewrite lookup_insert_Some. intros [[<- <-]|[_ Hl']] Hin.
    + apply settle_log_elem in Hin as [[_ Hin]|(_ & _ & o' & Hin)]; by apply (fo_serials _ _ Hf _ _ _ _ Hl Hin).
    + by apply (fo_serials _ _ Hf _ _ _ _ Hl' Hin).
  - pose proof (fo_tickets _ _ Hf) as Ht. rewrite (active_tickets_delete _ _ _ Hw) in Ht.
    rewrite <-insert_delete_eq, active_tickets_insert by apply lookup_delete_eq. cbn [active].
    pose proof (subseteq_size (active w ∖ {[ticket_serial t]}) (active w) ltac:(set_solver)). lia.
  - pose proof (fo_flows _ _ Hf). rewrite map_size_insert, Hw. done.
Qed.

(** C23: the registry implements its waves.  Each operation on a registry that
    follows the logs of its flows leads to one that follows the logs again,
    with at most 128 flows and 128 active tickets: a new ticket joins the open
    wave of its flow or starts a new one, only settled waves are forgotten, and
    a ticket settles nothing but its own entry in its own wave and generation. *)
Theorem registry_refines_waves op r a :
  follows r a -> exists a', wave_step op a a' /\ follows (registry_step op r) a'.
Proof.
  intros Hf. destruct op as [key g now|t ok now|now|packets|id]; cbn [registry_step].
  - destruct (begin key g now r) as [r' [t|err]] eqn:Hb.
    + apply (begin_follows _ _ _ _ a) in Hb as (l & Hl & Hf' & _); [|done]. eexists. split; [|done].
      by constructor.
    + apply (begin_follows _ _ _ _ a) in Hb as (l & Hl & Hf'); [|done]. eexists. split; [|done].
      by constructor.
  - destruct (settle t ok now r) as [r' b] eqn:Hs. apply (settle_follows _ _ _ _ a) in Hs; [|done].
    destruct b; cbn [fst]; [|subst; exists a; split; [constructor|done]].
    destruct Hs as (log & Hg & Hl & Hw & Hin & Hf'). eexists. split; [|done].
    apply step_settle; try done. by rewrite <-(fo_generation _ _ Hf).
  - destruct (prune_follows now r a Hf) as (l & Hl & Hf'). eexists. split; [by constructor|done].
  - exists a. split; [constructor|by destruct Hf].
  - exists a. split; [constructor|by destruct Hf].
Qed.

Lemma new_follows port epoch r :
  Registry_new port epoch = Ok r -> follows r (mkAbs None ∅).
Proof.
  unfold Registry_new. destruct (QueueProgress_new port epoch) as [p|]; [|done].
  intros [= <-]. by split.
Qed.
End Follows.

(** ** Witness *)

Definition ref_hash : HashOrder :=
  {| hash_order := fun _ xs => xs; hash_order_perm := fun _ xs => reflexivity xs |}.

Lemma registry_refines_waves_witness :
  exists a', wave_step (Begin sample_flow 3 10) (mkAbs None ∅) a'
  /\ follows (@registry_step ref_hash (Begin sample_flow 3 10)
       (mkRegistry None 0 ∅ (mkProgress (mkIdentity 77 1) 0 0 [] ∅))) a'.
Proof.
  apply (@registry_refines_waves ref_hash). apply (new_follows 77 1). reflexivity.
Defined.
