(* ===== verification/Protocol.v ===== *)
(** * The local control protocol

    [crates/openshield-protocol/src/lib.rs]: requests and responses, the
    evidence about the packet path that a status carries, the selection of rule
    groups, the texts of errors and the framing of messages on a stream.  The
    JSON encoder of the messages is an interface ([JsonCodec]). *)

From S2P Require Import Prelude Text Net Application Model State Netlink.
Local Open Scope Z_scope.

Abbreviation MAX_FRAME_SIZE := (64 * 1024) (only parsing).
Abbreviation MAX_RULES_PER_PAGE := 128 (only parsing).
Abbreviation MAX_ERROR_MESSAGE_BYTES := 512 (only parsing).

(** ** The texts of errors

    The [Display] of the error types of the core crate, as [thiserror]
    derives it from the attributes. *)

Definition MAX_INTERFACE_NAME_TEXT : ustring := dec MAX_INTERFACE_NAME_BYTES.

Definition ApplicationValidationError_fmt (error : ApplicationValidationError) : ustring :=
  match error with
  | InvalidExecutablePath =>
      lit "executable path must be a bounded canonical-looking absolute UTF-8 path"
  | InvalidCgroupPath =>
      lit "cgroup path must be a bounded absolute path without traversal or controls"
  | InvalidCommandArgument =>
      lit "command argument exceeds its byte bound or contains an embedded NUL"
  | InvalidCommandLine => lit "command-line selector is empty or exceeds its fixed bounds"
  | ApplicationSelectorNeedsExecutable =>
      lit "application selector requires an exact executable path"
  | FileIdWithoutExecutablePath => lit "executable file identity requires an executable path"
  | InvalidExecutableFileId => lit "executable file version identity is invalid"
  | InvalidProcessIdentity =>
      lit "runtime process identity is incomplete or exceeds its fixed bounds"
  | InvalidLearnedEndpoint =>
      lit "learned application endpoint is not an exact supported network endpoint"
  | IncompleteLearnedApplicationIdentity =>
      lit "learned application identity requires a filesystem UID and pinned executable file"
  | InvalidRedactedSelector => lit "redacted application selector has unexpected metadata"
  end.

Definition ValidationError_fmt (error : ValidationError) : ustring :=
  match error with
  | EmptyRuleName => lit "rule name must not be empty"
  | RuleNameTooLong actual maximum =>
      lit "rule name is " ++ dec actual ++ lit " bytes; maximum is " ++ dec maximum
  | InvalidRuleName => lit "rule name has surrounding whitespace or control characters"
  | InvalidInterfaceName =>
      lit "interface name must be 1..=" ++ MAX_INTERFACE_NAME_TEXT ++ lit " safe ASCII bytes"
  | InvalidPortRange start end_ =>
      lit "invalid port range " ++ dec start ++ lit "..=" ++ dec end_
  | PortWithIncompatibleProtocol => lit "a port selector is only valid with TCP or UDP"
  | ProtocolNetworkFamilyMismatch => lit "protocol and peer network use different IP families"
  | UnrestrictedRule => lit "an any-protocol rule must have at least one selector"
  | ApplicationSelectorOnInboundRule =>
      lit "application selectors are valid only for outbound rules"
  | DenyActionOnInboundRule => lit "drop and reject actions are valid only for outbound rules"
  | InvalidApplicationSelector error => ApplicationValidationError_fmt error
  | NilRuleId => lit "rule id must not be nil"
  | InvalidRuleTimestamps => lit "rule update time precedes its creation time"
  | LearnedTransportNeedsPort => lit "a learned TCP or UDP endpoint requires a port"
  | LearnedEndpointNeedsInterface => lit "a learned endpoint must retain its outbound interface"
  | UnsupportedLearnedProtocol => lit "learning cannot persist an any-protocol endpoint"
  end.

Definition CoreError_fmt `{JsonLib} (error : CoreError) : ustring :=
  match error with
  | Validation error => ValidationError_fmt error
  | RuleNotFound id => lit "rule " ++ uuid_to_string id ++ lit " does not exist"
  | DuplicateRuleId id => lit "rule id " ++ uuid_to_string id ++ lit " appears more than once"
  | MismatchedRuleId map_id rule_id =>
      lit "state rule key " ++ uuid_to_string map_id ++ lit " differs from embedded id "
      ++ uuid_to_string rule_id
  | RulesLimitReached limit => lit "at most " ++ dec limit ++ lit " rules are allowed"
  | RevisionOverflow => lit "state revision counter is exhausted"
  | InvalidFlowGeneration =>
      lit "state flow-authorization generation is outside the supported mark domain"
  | FlowGenerationExhausted => lit "state flow-authorization generation is exhausted"
  | RedactedApplicationMetadata =>
      lit "redacted application metadata cannot enter persisted policy state"
  | InvalidObserverRedaction =>
      lit "observer snapshot contains a noncanonical or mixed application redaction"
  | UnpinnedApplicationIdentity =>
      lit "application rules require a pinned executable version identity"
  | StateSizeLimitReached limit =>
      lit "serialized state exceeds the " ++ dec limit ++ lit "-byte persistence limit"
  | StateSerialization error =>
      lit "state serialization failed during size validation: " ++ error
  end.

(** ** Protocol errors *)

Inductive ErrorCode : Type :=
| InvalidRequest | Unauthorized | NotFound | Conflict | BackendUnavailable | Internal.

#[export] Instance ErrorCode_eq_dec : EqDecision ErrorCode.
Proof. solve_decision. Defined.

Record ProtocolError : Type := mkProtocolError { code : ErrorCode; message : ustring }.

#[export] Instance ProtocolError_eq_dec : EqDecision ProtocolError.
Proof. solve_decision. Defined.

(** The loop of [sanitize_error_message]: [sanitized] is what was pushed. *)
Fixpoint sanitize_loop (sanitized characters : ustring) : ustring :=
  match characters with
  | [] => sanitized
  | character :: rest =>
      if is_control character || is_format_spoof character then sanitize_loop sanitized rest
      else if MAX_ERROR_MESSAGE_BYTES
                <? usize_saturating_add (byte_len sanitized) (len_utf8 character)
      then sanitized
      else sanitize_loop (sanitized ++ [character]) rest
  end.

Definition UNSPECIFIED_ERROR : ustring := lit "unspecified error".

Definition sanitize_error_message (message : ustring) : ustring :=
  let sanitized := sanitize_loop [] message in
  if bool_decide (sanitized = []) then UNSPECIFIED_ERROR else sanitized.

Definition ProtocolError_new (code : ErrorCode) (message : ustring) : ProtocolError :=
  mkProtocolError code (sanitize_error_message message).

(** The check of [Deserialize for ProtocolError] on the decoded fields. *)
Inductive WireError : Type :=
| UnsafeErrorMessage
| PartialCompatibility
| InconsistentCompatibility.

Definition ProtocolError_deserialize (wire : ProtocolError) : Result WireError ProtocolError :=
  let sanitized := sanitize_error_message wire.(message) in
  fail_if (sanitized !=? wire.(message)) UnsafeErrorMessage ;;
  mret (mkProtocolError wire.(code) wire.(message)).

(** ** Evidence about the packet path *)

Inductive FirewallBackendKind : Type := BackendUnknown | BackendNftables | BackendIptables.

#[export] Instance FirewallBackendKind_eq_dec : EqDecision FirewallBackendKind.
Proof. solve_decision. Defined.

Inductive CompatibilityLevel : Type :=
| LevelUnknown | KernelNative | ConntrackHybrid | LevelNfqueue.

Inductive CompatibilityReason : Type :=
| ReasonUnknown | ReasonBlockAll | EmergencyBlockAll | NetworkOnly | ReasonLearning
| ApplicationTcp | ApplicationPerPacket.

Record RuntimeCompatibility : Type := mkCompatibility {
  level : CompatibilityLevel;
  reason : CompatibilityReason
}.
Definition RuntimeCompatibility_default := mkCompatibility LevelUnknown ReasonUnknown.

#[export] Instance CompatibilityLevel_eq_dec : EqDecision CompatibilityLevel.
Proof. solve_decision. Defined.
#[export] Instance CompatibilityReason_eq_dec : EqDecision CompatibilityReason.
Proof. solve_decision. Defined.
#[export] Instance RuntimeCompatibility_eq_dec : EqDecision RuntimeCompatibility.
Proof. solve_decision. Defined.

Definition for_policy (backend : FirewallBackendKind) (mode : Mode)
    (application_interception : ApplicationInterception) : RuntimeCompatibility :=
  match backend with
  | BackendUnknown => mkCompatibility LevelUnknown ReasonUnknown
  | _ =>
      match mode with
      | BlockAll => mkCompatibility KernelNative ReasonBlockAll
      | Learning => mkCompatibility LevelNfqueue ReasonLearning
      | Enforcing =>
          match application_interception with
          | InterceptNone => mkCompatibility KernelNative NetworkOnly
          | TcpInitial => mkCompatibility ConntrackHybrid ApplicationTcp
          | PerPacket => mkCompatibility LevelNfqueue ApplicationPerPacket
          end
      end
  end.

Definition is_consistent (self : RuntimeCompatibility) : bool :=
  match self.(level), self.(reason) with
  | LevelUnknown, ReasonUnknown
  | KernelNative, (ReasonBlockAll | EmergencyBlockAll | NetworkOnly)
  | ConntrackHybrid, ApplicationTcp
  | LevelNfqueue, (ReasonLearning | ApplicationPerPacket) => true
  | _, _ => false
  end.

Definition is_consistent_with (self : RuntimeCompatibility) (mode : Mode)
    (backend : FirewallBackendKind) : bool :=
  match backend, mode, self.(level), self.(reason) with
  | (BackendNftables | BackendIptables), BlockAll, KernelNative,
      (ReasonBlockAll | EmergencyBlockAll)
  | (BackendNftables | BackendIptables), Learning, LevelNfqueue, ReasonLearning
  | (BackendNftables | BackendIptables), Enforcing, KernelNative, NetworkOnly
  | (BackendNftables | BackendIptables), Enforcing, ConntrackHybrid, ApplicationTcp
  | (BackendNftables | BackendIptables), Enforcing, LevelNfqueue, ApplicationPerPacket
  | BackendUnknown, _, LevelUnknown, ReasonUnknown => true
  | _, _, _, _ => false
  end.

(** [Serialize] refuses an impossible pair; [Deserialize] also a partial one. *)
Definition RuntimeCompatibility_serialize (self : RuntimeCompatibility)
    : Result WireError (option CompatibilityLevel * option CompatibilityReason) :=
  fail_if (negb (is_consistent self)) InconsistentCompatibility ;;
  mret (Some self.(level), Some self.(reason)).

Definition RuntimeCompatibility_deserialize
    (wire : option CompatibilityLevel * option CompatibilityReason)
    : Result WireError RuntimeCompatibility :=
  compatibility ←
    match wire with
    | (None, None) => Ok RuntimeCompatibility_default
    | (Some level, Some reason) => Ok (mkCompatibility level reason)
    | (Some _, None) | (None, Some _) => Err PartialCompatibility
    end;
  fail_if (negb (is_consistent compatibility)) InconsistentCompatibility ;;
  mret compatibility.

Record NfqueueCounters : Type := mkNfqueueCounters {
  queue_overflow : Z;
  attribution_timeout : Z;
  terminal_queue_error : Z;
  denied : Z
}.

Record LearningStatus : Type := mkLearningStatus {
  per_uid_limit : Z;
  per_application_limit : Z;
  automatic_rule_limit : Z;
  total_rule_limit : Z;
  status_automatic_rules : Z;
  status_saturated_uids : Z;
  status_saturated_applications : Z;
  status_quota_skipped_observations : Z
}.

Definition needs_attention (self : LearningStatus) (total_rules : Z) : bool :=
  negb (self.(status_saturated_uids) =? 0)
  || negb (self.(status_saturated_applications) =? 0)
  || (self.(automatic_rule_limit) <=? self.(status_automatic_rules))
  || (self.(total_rule_limit) <=? total_rules)
  || negb (self.(status_quota_skipped_observations) =? 0).

(** ** Requests *)

Inductive ReadRequest : Type :=
| ReadStatus | ReadStatusV2 | ReadStatusV3 | ReadStatusV4
| ReadRulesPage (after : option Uuid) (limit : Z)
| Subscribe (after_revision : option Z).

Inductive OutboundGroupSelector : Type :=
| GroupCgroup (cgroup : CgroupPath) (executable : option ApplicationPath)
| GroupExecutable (executable : ApplicationPath)
| GroupDestination (peer_network : option IpNet).

Inductive OutboundGroupAction : Type :=
| GroupDelete | GroupAccept | GroupReject | GroupDrop | GroupEnable | GroupDisable.

#[export] Instance OutboundGroupAction_eq_dec : EqDecision OutboundGroupAction.
Proof. solve_decision. Defined.

Inductive ControlRequest : Type :=
| RequestSetMode (expected_revision : Z) (mode : Mode)
| RequestSetEnforcement (expected_revision : Z) (strategy : EnforcementStrategy)
| RequestCreateRule (expected_revision : Z) (rule : RuleSpec)
| RequestUpdateRule (expected_revision : Z) (id : Uuid) (rule : RuleSpec)
| RequestDeleteRule (expected_revision : Z) (id : Uuid)
| RequestSetRuleEnabled (expected_revision : Z) (id : Uuid) (enabled : bool)
| RequestManageOutboundGroup (expected_revision : Z) (group : OutboundGroupSelector)
    (action : OutboundGroupAction).

Inductive Request : Type :=
| Read (request : ReadRequest)
| Control (request : ControlRequest).

Definition expected_revision (self : ControlRequest) : Z :=
  match self with
  | RequestSetMode r _ | RequestSetEnforcement r _ | RequestCreateRule r _
  | RequestUpdateRule r _ _ | RequestDeleteRule r _ | RequestSetRuleEnabled r _ _
  | RequestManageOutboundGroup r _ _ => r
  end.

(** [Option::filter]. *)
Definition option_filter {A} (f : A -> bool) (o : option A) : option A :=
  match o with Some a => if f a then Some a else None | None => None end.

Definition OutboundGroupSelector_matches `{IpNetLib} (self : OutboundGroupSelector) (rule : Rule)
    : bool :=
  if rule.(spec).(direction) !=? Outbound then false
  else
    let application :=
      option_filter (fun application => negb application.(as_metadata_redacted))
        rule.(spec).(application) in
    match self with
    | GroupCgroup cgroup executable =>
        is_some_and (fun application =>
          (application.(as_cgroup) ==? Some cgroup)
          && is_none_or (fun executable => application.(as_executable) ==? Some executable)
               executable) application
    | GroupExecutable executable =>
        is_some_and (fun application =>
          is_none application.(as_cgroup) && (application.(as_executable) ==? Some executable))
          application
    | GroupDestination peer_network =>
        is_none_or (fun application =>
          is_none application.(as_cgroup) && is_none application.(as_executable)) application
        && ((ipnet_trunc <$> rule.(spec).(Model.peer_network)) ==? (ipnet_trunc <$> peer_network))
    end.

(** ** Responses *)

Record Ack : Type := mkAck { ack_revision : Z; affected_rule : option Rule }.

Record StatusFields : Type := mkStatus {
  status_revision : Z;
  status_mode : Mode;
  status_rule_count : Z;
  status_backend : FirewallBackendKind;
  status_nfqueue : NfqueueCounters
}.

Inductive Response : Type :=
| Status (status : StatusFields)
| StatusV2 (status : StatusFields) (runtime_compatibility : RuntimeCompatibility)
| StatusV3 (status : StatusFields) (runtime_compatibility : RuntimeCompatibility)
    (learning : LearningStatus)
| StatusV4 (status : StatusFields) (runtime_compatibility : RuntimeCompatibility)
    (learning : LearningStatus) (enforcement_strategy : EnforcementStrategy)
| RulesPage (revision : Z) (rules : list Rule) (next_after : option Uuid)
| AckResponse (ack : Ack)
| EventResponse (event : Event)
| ErrorResponse (error : ProtocolError).

Definition clamp_page_limit (limit : Z) : Z := Z.max 1 (Z.min limit MAX_RULES_PER_PAGE).

(** ** Frames

    A reader is the bytes it will still deliver and the error it ends with; a
    writer is what it was given so far, the number of bytes it will still take
    and the errors it then reports. *)

Inductive IoError : Type := UnexpectedEof | InvalidData | OtherIo (errno : Z).

Record Reader : Type := mkReader { incoming : Bytes; at_end : IoError }.
Record Writer : Type := mkWriter {
  written : Bytes;
  accepts : option Z;
  write_failure : IoError;
  flush_failure : option IoError
}.

Inductive FrameError : Type :=
| EmptyFrame
| FrameTooLarge (actual maximum : Z)
| Io (error : IoError)
| Encode (message : ustring)
| Decode (message : ustring).

(** [Read::read_exact] and [Write::write_all]. *)
Definition read_exact (size : Z) : ST Reader IoError Bytes := fun reader =>
  if size <=? zlen reader.(incoming)
  then (mkReader (drop (Z.to_nat size) reader.(incoming)) reader.(at_end),
        Ok (take (Z.to_nat size) reader.(incoming)))
  else (mkReader [] reader.(at_end), Err reader.(at_end)).

Definition write_bytes (bytes : Bytes) : ST Writer IoError unit := fun writer =>
  match writer.(accepts) with
  | None => (mkWriter (writer.(written) ++ bytes) None writer.(write_failure)
               writer.(flush_failure), Ok tt)
  | Some room =>
      let fits := take (Z.to_nat room) bytes in
      (mkWriter (writer.(written) ++ fits) (Some (room - zlen fits)) writer.(write_failure)
         writer.(flush_failure),
       if zlen bytes <=? room then Ok tt else Err writer.(write_failure))
  end.

Definition flush : ST Writer IoError unit := fun writer =>
  (writer, match writer.(flush_failure) with Some e => Err e | None => Ok tt end).

(** [?] with [From<io::Error> for FrameError]. *)
Definition io {S A} (m : ST S IoError A) : ST S FrameError A := fun s =>
  let '(s', r) := m s in (s', map_err Io r).

Record BoundedBuffer : Type := mkBoundedBuffer {
  buffer_bytes : Bytes;
  maximum : Z;
  overflow_size : option Z
}.
Definition BoundedBuffer_new (maximum : Z) : BoundedBuffer := mkBoundedBuffer [] maximum None.

Definition BoundedBuffer_write (bytes : Bytes) : ST BoundedBuffer IoError Z := fun self =>
  let attempted := usize_saturating_add (zlen self.(buffer_bytes)) (zlen bytes) in
  if self.(maximum) <? attempted
  then (mkBoundedBuffer self.(buffer_bytes) self.(maximum) (Some attempted), Err InvalidData)
  else (mkBoundedBuffer (self.(buffer_bytes) ++ bytes) self.(maximum) self.(overflow_size),
        Ok (zlen bytes)).

(** The JSON encoder and decoder of one message type: the buffers that
    [to_writer] hands to the writer, with the error it ends with if the value
    cannot be represented, and [from_slice].  [io_error_text] is the text the
    encoder gives to a failed write. *)
Class JsonCodec (T : Type) : Type := {
  json_writes : T -> list Bytes * option ustring;
  json_from_slice : Bytes -> Result ustring T;
  io_error_text : IoError -> ustring
}.

(** What [serde_json] documents: a completely encoded value is decoded again,
    and a JSON text is not empty. *)
Class JsonCodecLaws (T : Type) `{JsonCodec T} : Prop := {
  json_round_trip v chunks :
    json_writes v = (chunks, None) -> json_from_slice (concat chunks) = Ok v;
  json_nonempty v chunks : json_writes v = (chunks, None) -> concat chunks <> []
}.

Fixpoint buffer_chunks (chunks : list Bytes) : ST BoundedBuffer IoError unit :=
  match chunks with
  | [] => mret tt
  | chunk :: rest => BoundedBuffer_write chunk ;; buffer_chunks rest
  end.

Section Frames.
Context {T : Type} `{JsonCodec T}.

Definition json_to_writer (value : T) : ST BoundedBuffer ustring unit := fun buffer =>
  let '(chunks, failure) := json_writes value in
  match buffer_chunks chunks buffer with
  | (buffer', Err error) => (buffer', Err (io_error_text error))
  | (buffer', Ok _) =>
      (buffer', match failure with Some error => Err error | None => Ok tt end)
  end.

(** What [write_frame] does before it touches the writer. *)
Definition encode_frame (value : T) : Result FrameError Bytes :=
  let '(bounded, encoded) := json_to_writer value (BoundedBuffer_new MAX_FRAME_SIZE) in
  match encoded with
  | Err source =>
      match bounded.(overflow_size) with
      | Some actual => Err (FrameTooLarge actual MAX_FRAME_SIZE)
      | None => Err (Encode source)
      end
  | Ok _ =>
      let payload := bounded.(buffer_bytes) in
      fail_if (bool_decide (payload = [])) EmptyFrame ;;
      fail_if (MAX_FRAME_SIZE <? zlen payload) (FrameTooLarge (zlen payload) MAX_FRAME_SIZE) ;;
      fail_if (U32_MAX <? zlen payload) (FrameTooLarge (zlen payload) MAX_FRAME_SIZE) ;;
      mret payload
  end.

Definition write_frame (value : T) : ST Writer FrameError unit :=
  payload ← lift (encode_frame value);
  io (write_bytes (be_bytes 4 (zlen payload))) ;;
  io (write_bytes payload) ;;
  io flush.

Definition read_frame : ST Reader FrameError T :=
  header ← io (read_exact 4);
  let size := from_be_bytes header in
  lift (fail_if (size =? 0) EmptyFrame) ;;
  lift (fail_if (MAX_FRAME_SIZE <? size) (FrameTooLarge size MAX_FRAME_SIZE)) ;;
  payload ← io (read_exact size);
  lift (map_err Decode (json_from_slice payload)).
End Frames.

(** ** Error messages *)

Definition safe_character (c : char) : bool := negb (is_control c || is_format_spoof c).

Lemma sanitize_loop_spec msg : forall acc,
  byte_len acc <= MAX_ERROR_MESSAGE_BYTES ->
  exists kept, sanitize_loop acc msg = acc ++ kept
  /\ kept `prefix_of` List.filter safe_character msg
  /\ byte_len (acc ++ kept) <= MAX_ERROR_MESSAGE_BYTES.
Proof.
  induction msg as [|c msg IH]; intros acc Hacc; cbn [sanitize_loop List.filter].
  - exists []. rewrite app_nil_r. by split_and!.
  - unfold safe_character at 1. destruct (is_control c || is_format_spoof c); cbn [negb].
    + by apply IH.
    + case_match eqn:Hlen.
      * exists []. rewrite app_nil_r. split_and!; [done|apply prefix_nil|done].
      * assert (byte_len (acc ++ [c]) <= MAX_ERROR_MESSAGE_BYTES) as Hc.
        { rewrite byte_len_app. simpl. unfold usize_saturating_add, u64_saturating_add in Hlen.
          apply Z.ltb_ge in Hlen. unfold U64_MAX in *. lia. }
        destruct (IH (acc ++ [c]) Hc) as (kept & -> & Hpre & Hle).
        exists (c :: kept). rewrite <-app_assoc in *. split_and!; [done| |done].
        by apply prefix_cons.
Qed.

Lemma sanitize_loop_safe msg : forall acc,
  forallb safe_character msg = true -> byte_len (acc ++ msg) <= MAX_ERROR_MESSAGE_BYTES ->
  sanitize_loop acc msg = acc ++ msg.
Proof.
  induction msg as [|c msg IH]; intros acc Hsafe Hlen; cbn [sanitize_loop].
  - by rewrite app_nil_r.
  - cbn [forallb] in Hsafe. apply andb_true_iff in Hsafe as [Hc Hsafe].
    unfold safe_character in Hc. apply negb_true_iff in Hc. rewrite Hc.
    rewrite byte_len_app in Hlen. simpl in Hlen. pose proof (byte_len_bounds msg).
    pose proof (zlen_nonneg msg).
    rewrite (proj2 (Z.ltb_ge _ _)).
    + rewrite IH; [by rewrite <-app_assoc|done|]. rewrite !byte_len_app. simpl. lia.
    + unfold usize_saturating_add, u64_saturating_add. lia.
Qed.

Lemma unspecified_error_safe :
  forallb safe_character UNSPECIFIED_ERROR = true /\ UNSPECIFIED_ERROR <> []
  /\ byte_len UNSPECIFIED_ERROR <= MAX_ERROR_MESSAGE_BYTES.
Proof. by vm_compute. Qed.

Lemma sanitize_safe m :
  let s := sanitize_error_message m in
  forallb safe_character s = true /\ s <> [] /\ byte_len s <= MAX_ERROR_MESSAGE_BYTES.
Proof.
  unfold sanitize_error_message. case_bool_decide as Hnil; [apply unspecified_error_safe|].
  destruct (sanitize_loop_spec m []) as (kept & Hs & [rest Hpre] & Hlen); [by vm_compute|].
  rewrite Hs in *. split_and!; [|done|done]. apply forallb_forall. intros c Hc.
  apply (filter_In safe_character c m). rewrite Hpre. apply in_app_iff. by left.
Qed.

Lemma sanitize_fixed s :
  forallb safe_character s = true -> s <> [] -> byte_len s <= MAX_ERROR_MESSAGE_BYTES ->
  sanitize_error_message s = s.
Proof.
  intros Hsafe Hne Hlen. unfold sanitize_error_message.
  rewrite sanitize_loop_safe by done. cbn [app]. by rewrite bool_decide_eq_false_2.
Qed.

(** Error texts are safe to show and survive the wire.  Whatever text an
    error is made from, its message is not empty, fits its byte bound, has no
    control, invisible or bidirectional-override character, consists of
    leading harmless characters of the text unless none is left, is exactly the
    text when that was harmless, and is accepted by the decoder unchanged. *)
Theorem error_messages_are_safe c m :
  let e := ProtocolError_new c m in
  code e = c /\ message e <> [] /\ byte_len (message e) <= MAX_ERROR_MESSAGE_BYTES
  /\ forallb safe_character (message e) = true
  /\ (message e `prefix_of` List.filter safe_character m \/ message e = UNSPECIFIED_ERROR)
  /\ (forallb safe_character m = true -> m <> [] -> byte_len m <= MAX_ERROR_MESSAGE_BYTES ->
      message e = m)
  /\ ProtocolError_deserialize e = Ok e.
Proof.
  destruct (sanitize_safe m) as (Hsafe & Hne & Hlen). cbv zeta. cbn [ProtocolError_new code message].
  split_and!; try done.
  - unfold sanitize_error_message. case_bool_decide as Hnil; [by right|left].
    destruct (sanitize_loop_spec m []) as (kept & -> & Hpre & _); [by vm_compute|done].
  - apply sanitize_fixed.
  - unfold ProtocolError_deserialize. cbn [message code].
    rewrite sanitize_fixed by done. by rewrite eqb_refl.
Qed.

(** ** Compatibility evidence *)

(** The evidence about the packet path is never contradictory.  What is
    derived from a backend, a mode and the interception class is one of the
    pairs the protocol defines, agrees with the mode and the backend it is
    reported with, and passes the encoder and the decoder unchanged; the
    decoder accepts nothing else but the default. *)
Theorem compatibility_evidence_is_consistent backend mode interception :
  let c := for_policy backend mode interception in
  is_consistent c = true /\ is_consistent_with c mode backend = true
  /\ (RuntimeCompatibility_serialize c ≫= RuntimeCompatibility_deserialize) = Ok c
  /\ (forall wire c', RuntimeCompatibility_deserialize wire = Ok c' ->
        is_consistent c' = true
        /\ (wire = (None, None) /\ c' = RuntimeCompatibility_default
            \/ RuntimeCompatibility_serialize c' = Ok wire)).
Proof.
  split_and!; [by destruct backend, mode, interception..|].
  intros [[l|] [r|]] c' Hc'; unfold RuntimeCompatibility_deserialize in Hc'; simpl in Hc'; try done.
  - destruct (is_consistent (mkCompatibility l r)) eqn:Hc; simpl in Hc'; [|done].
    injection Hc' as <-. split; [done|]. right. unfold RuntimeCompatibility_serialize. by rewrite Hc.
  - injection Hc' as <-. split; [done|by left].
Qed.

(** ** Frames *)

Lemma buffer_chunks_Ok chunks : forall bs b',
  zlen bs <= MAX_FRAME_SIZE ->
  buffer_chunks chunks (mkBoundedBuffer bs MAX_FRAME_SIZE None) = (b', Ok tt) <->
  zlen bs + zlen (concat chunks) <= MAX_FRAME_SIZE
  /\ b' = mkBoundedBuffer (bs ++ concat chunks) MAX_FRAME_SIZE None.
Proof.
  induction chunks as [|chunk chunks IH]; intros bs b' Hbs; cbn [buffer_chunks concat].
  - rewrite run_ret, app_nil_r. change (zlen []) with 0. naive_solver lia.
  - rewrite run_bind. unfold BoundedBuffer_write. cbn [buffer_bytes maximum overflow_size].
    pose proof (zlen_nonneg bs). pose proof (zlen_nonneg chunk).
    pose proof (zlen_nonneg (concat chunks)). rewrite zlen_app.
    unfold usize_saturating_add, u64_saturating_add.
    destruct (Z.ltb_spec MAX_FRAME_SIZE (Z.min (zlen bs + zlen chunk) U64_MAX)) as [Hlt|Hge].
    + split; [done|]. intros [Hle _]. lia.
    + assert (zlen bs + zlen chunk <= MAX_FRAME_SIZE)
        by (unfold U64_MAX in *; lia).
      rewrite IH by (rewrite zlen_app; lia). rewrite zlen_app, <-app_assoc.
      split; intros [? ->]; (split; [lia|done]).
Qed.

Section FrameFacts.
Context {T : Type} `{JsonCodec T}.

Lemma encode_frame_Ok (v : T) payload :
  encode_frame v = Ok payload <->
  exists chunks, json_writes v = (chunks, None) /\ payload = concat chunks
  /\ payload <> [] /\ zlen payload <= MAX_FRAME_SIZE.
Proof.
  unfold encode_frame, json_to_writer, BoundedBuffer_new.
  destruct (json_writes v) as [chunks failure].
  destruct (buffer_chunks chunks _) as [b [[]|e]] eqn:Hrun.
  - apply buffer_chunks_Ok in Hrun as [Hle ->]; [|by vm_compute]. cbn [app] in *.
    change (zlen []) with 0 in Hle.
    destruct failure as [error|]; cbn [overflow_size buffer_bytes].
    + split; [done|]. by intros (? & ? & _).
    + rewrite !seq_Ok, !fail_if_Ok, bool_decide_eq_false, !Z.ltb_ge.
      assert (zlen (concat chunks) <= U32_MAX) by (unfold U32_MAX in *; lia).
      unfold mret, Result_ret. split.
      * intros (? & ? & ? & [= <-]). exists chunks. split_and!; try done; lia.
      * intros (? & [= <-] & -> & ? & ?). split_and!; try done; lia.
  - split; [by destruct (overflow_size b)|]. intros (? & [= <- ->] & -> & _ & Hle).
    assert (buffer_chunks chunks (mkBoundedBuffer [] MAX_FRAME_SIZE None)
      = (mkBoundedBuffer (concat chunks) MAX_FRAME_SIZE None, Ok tt)) as Hok
      by (refine (proj2 (buffer_chunks_Ok chunks [] _ _) _); [by vm_compute|by split]).
    rewrite Hrun in Hok. done.
Qed.

Definition frame_of (payload : Bytes) : Bytes := be_bytes 4 (zlen payload) ++ payload.

Lemma write_bytes_open bytes w :
  accepts w = None ->
  write_bytes bytes w
  = (mkWriter (written w ++ bytes) None (write_failure w) (flush_failure w), Ok tt).
Proof. intros Ha. unfold write_bytes. by rewrite Ha. Qed.

Lemma write_frame_Ok (v : T) payload w :
  encode_frame v = Ok payload -> accepts w = None -> flush_failure w = None ->
  write_frame v w
  = (mkWriter (written w ++ frame_of payload) None (write_failure w) None, Ok tt).
Proof.
  intros He Ha Hf. unfold write_frame. rewrite run_lift, He.
  rewrite run_bind. unfold io at 1. rewrite write_bytes_open by done. cbn [map_err].
  rewrite run_bind. unfold io at 1. rewrite write_bytes_open by done. cbn [map_err].
  unfold io, flush. cbn [flush_failure written write_failure]. rewrite Hf. cbn [map_err].
  unfold frame_of. by rewrite <-app_assoc.
Qed.

Lemma read_exact_app bs rest e :
  read_exact (zlen bs) (mkReader (bs ++ rest) e) = (mkReader rest e, Ok bs).
Proof.
  unfold read_exact. cbn [incoming at_end]. rewrite zlen_app.
  pose proof (zlen_nonneg rest). rewrite (proj2 (Z.leb_le _ _)) by lia.
  unfold zlen. rewrite Nat2Z.id, take_app_length, drop_app_length. done.
Qed.

Lemma read_frame_Ok (v : T) payload rest e :
  json_from_slice payload = Ok v -> payload <> [] -> zlen payload <= MAX_FRAME_SIZE ->
  read_frame (mkReader (frame_of payload ++ rest) e) = (mkReader rest e, Ok v).
Proof.
  intros Hv Hne Hle. unfold read_frame, frame_of. rewrite <-app_assoc, run_bind. unfold io at 1.
  assert (4 = zlen (be_bytes 4 (zlen payload))) as H4 by (unfold zlen; by rewrite be_bytes_length).
  rewrite H4, read_exact_app. cbn [map_err]. rewrite from_be_bytes_be.
  assert (0 < zlen payload) by (destruct payload; [done|unfold zlen; cbn [length]; lia]).
  rewrite Z.mod_small by (simpl; lia).
  rewrite run_lift, (proj2 (Z.eqb_neq _ _)) by lia. cbn [fail_if].
  rewrite run_lift, (proj2 (Z.ltb_ge _ _)) by lia. cbn [fail_if].
  rewrite run_bind. unfold io at 1. rewrite read_exact_app. cbn [map_err].
  unfold lift. by rewrite Hv.
Qed.

(** A conversation: several messages on one stream. *)
Fixpoint write_frames (vs : list T) : ST Writer FrameError unit :=
  match vs with
  | [] => mret tt
  | v :: rest => write_frame v ;; write_frames rest
  end.

Fixpoint read_frames (n : nat) : ST Reader FrameError (list T) :=
  match n with
  | O => mret []
  | S n => v ← read_frame; vs ← read_frames n; mret (v :: vs)
  end.

(** Messages come back as they were sent.  Messages that can be encoded
    within the frame bound, written one after another to a stream that takes
    them, are read back from it in order and unchanged, and exactly their bytes
    are consumed: whatever follows them stays on the stream. *)
Theorem frames_round_trip `{!JsonCodecLaws T} (vs : list T) w rest e :
  Forall (fun v => is_ok (encode_frame v) = true) vs ->
  accepts w = None -> flush_failure w = None ->
  exists w' sent, write_frames vs w = (w', Ok tt) /\ written w' = written w ++ sent
  /\ read_frames (length vs) (mkReader (sent ++ rest) e) = (mkReader rest e, Ok vs).
Proof.
  intros Hvs. revert w. induction Hvs as [|v vs Hv _ IH]; intros w Ha Hf.
  - exists w, []. by rewrite app_nil_r.
  - destruct (encode_frame v) as [payload|] eqn:He; [|done].
    destruct (IH (mkWriter (written w ++ frame_of payload) None (write_failure w) None))
      as (w' & sent & Hw & Hsent & Hr); [done..|].
    exists w', (frame_of payload ++ sent). cbn [write_frames length read_frames].
    rewrite run_bind, (write_frame_Ok _ _ _ He Ha Hf), Hw. split_and!; [done| |].
    + rewrite Hsent. cbn [written]. by rewrite <-app_assoc.
    + apply encode_frame_Ok in He as (chunks & Hj & -> & Hne & Hle).
      rewrite run_bind, <-app_assoc, (read_frame_Ok v) by (by eauto using json_round_trip).
      by rewrite run_bind, Hr.
Qed.

(** The bytes that a step took off a reader. *)
Definition consumed (bound : Z) (r r' : Reader) : Prop :=
  exists n, 0 <= n <= bound /\ incoming r' = drop (Z.to_nat n) (incoming r) /\ at_end r' = at_end r.

Lemma read_exact_consumed size r r' res :
  0 <= size -> read_exact size r = (r', res) ->
  consumed size r r' /\ (forall bs, res = Ok bs -> bs = take (Z.to_nat size) (incoming r)
                                        /\ size <= zlen (incoming r)).
Proof.
  intros Hs. unfold read_exact. destruct (Z.leb_spec size (zlen (incoming r))) as [Hle|Hgt];
    intros [= <- <-].
  - split; [exists size; split_and!; done || lia|]. by intros ? [= <-].
  - split; [|done]. exists (zlen (incoming r)). pose proof (zlen_nonneg (incoming r)).
    split_and!; [lia|lia| |done]. cbn [incoming]. unfold zlen. rewrite Nat2Z.id.
    symmetry. by apply drop_ge.
Qed.

Lemma consumed_mono b b' r r' : b <= b' -> consumed b r r' -> consumed b' r r'.
Proof. intros Hb (n & ? & ? & ?). exists n. split_and!; done || lia. Qed.

Lemma consumed_trans b b' r1 r2 r3 :
  consumed b r1 r2 -> consumed b' r2 r3 -> consumed (b + b') r1 r3.
Proof.
  intros (n & Hn & Hi & He) (m & Hm & Hi' & He'). exists (n + m). split_and!; [lia|lia| |congruence].
  rewrite Hi', Hi, drop_drop. f_equal. lia.
Qed.

Lemma write_bytes_prefix bytes w w' res :
  write_bytes bytes w = (w', res) ->
  exists sent, written w' = written w ++ sent /\ sent `prefix_of` bytes
  /\ (res = Ok tt -> sent = bytes).
Proof.
  unfold write_bytes. destruct (accepts w) as [room|]; intros [= <- <-]; cbn [written].
  - exists (take (Z.to_nat room) bytes). split_and!; [done|apply prefix_take|].
    destruct (Z.leb_spec (zlen bytes) room); [|done]. intros _. apply take_ge. unfold zlen in *. lia.
  - exists bytes. by split_and!.
Qed.

Lemma write_frame_prefix v payload w w' res :
  encode_frame v = Ok payload -> write_frame v w = (w', res) ->
  exists sent, written w' = written w ++ sent /\ sent `prefix_of` frame_of payload
  /\ (res = Ok tt -> sent = frame_of payload).
Proof.
  intros He. unfold write_frame. rewrite run_lift, He, run_bind. unfold io at 1.
  destruct (write_bytes _ w) as [w1 r1] eqn:H1. apply write_bytes_prefix in H1 as (s1 & E1 & P1 & O1).
  unfold frame_of. destruct r1 as [[]|e1]; cbn [map_err].
  2: { intros [= <- <-]. exists s1. split_and!; [done|by apply prefix_app_r|done]. }
  rewrite (O1 eq_refl) in E1. rewrite run_bind. unfold io at 1.
  destruct (write_bytes _ w1) as [w2 r2] eqn:H2. apply write_bytes_prefix in H2 as (s2 & E2 & P2 & O2).
  assert (exists sent, written w2 = written w ++ sent /\ sent = be_bytes 4 (zlen payload) ++ s2)
    as (sent & E & ->) by (eexists; split; [by rewrite E2, E1, <-app_assoc|done]).
  destruct r2 as [[]|e2]; cbn [map_err].
  - unfold io, flush. intros [= <- <-]. eexists. split; [exact E|].
    rewrite (O2 eq_refl). by split.
  - intros [= <- <-]. eexists. split; [exact E|]. split; [by apply prefix_app|done].
Qed.

Lemma read_frame_consumed r r' res :
  Forall is_byte (incoming r) -> read_frame r = (r', res) ->
  consumed (4 + MAX_FRAME_SIZE) r r'
  /\ let size := from_be_bytes (take 4 (incoming r)) in
     4 <= zlen (incoming r) -> size = 0 \/ MAX_FRAME_SIZE < size ->
     consumed 4 r r'
     /\ res = Err (if size =? 0 then EmptyFrame else FrameTooLarge size MAX_FRAME_SIZE).
Proof.
  intros Hb. unfold read_frame. rewrite run_bind. unfold io at 1.
  destruct (read_exact 4 r) as [r1 res1] eqn:H1.
  assert (4 <= zlen (incoming r) -> exists bs, res1 = Ok bs) as Hlong.
  { intros Hle. unfold read_exact in H1. rewrite (proj2 (Z.leb_le _ _)) in H1 by done.
    injection H1 as <- <-. eauto. }
  apply read_exact_consumed in H1 as [C1 Ok1]; [|done].
  assert (consumed (4 + MAX_FRAME_SIZE) r r1) as C1'
    by (eapply consumed_mono; [|exact C1]; lia).
  destruct res1 as [header|]; cbn [map_err].
  2: { intros [= <- <-]. split; [done|]. cbv zeta. intros Hle. by destruct (Hlong Hle). }
  destruct (Ok1 header eq_refl) as [-> Hle]. change (Z.to_nat 4) with 4%nat.
  pose proof (from_be_bytes_bound (take 4 (incoming r)) (Forall_take _ _ _ Hb)) as [Hnn _].
  set (size := from_be_bytes (take 4 (incoming r))) in *. cbv zeta.
  rewrite run_lift. destruct (Z.eqb_spec size 0) as [E0|N0]; cbn [fail_if].
  { intros [= <- <-]. by split. }
  rewrite run_lift. destruct (Z.ltb_spec MAX_FRAME_SIZE size) as [Hbig|Hok]; cbn [fail_if].
  { intros [= <- <-]. by split. }
  rewrite run_bind. unfold io at 1. destruct (read_exact size r1) as [r2 res2] eqn:H2.
  apply read_exact_consumed in H2 as [C2 _]; [|done]. intros Hrun.
  assert (r2 = r') as -> by (destruct res2; by injection Hrun).
  split; [|lia]. eapply consumed_mono; [|exact (consumed_trans _ _ _ _ _ C1 C2)]. lia.
Qed.

(** Frames are bounded in both directions.  Whatever a peer sends, reading
    one frame takes at most four bytes and one maximal payload off the stream,
    and a size outside the bound is refused after the four bytes of the header.
    Writing puts nothing on the stream unless the whole message was encoded
    within the bound, and never anything but a prefix of its frame. *)
Theorem frames_are_bounded (v : T) r r' res w w' resw :
  Forall is_byte (incoming r) ->
  read_frame r = (r', res) -> write_frame v w = (w', resw) ->
  consumed (4 + MAX_FRAME_SIZE) r r'
  /\ (let size := from_be_bytes (take 4 (incoming r)) in
      4 <= zlen (incoming r) -> size = 0 \/ MAX_FRAME_SIZE < size ->
      consumed 4 r r'
      /\ res = Err (if size =? 0 then EmptyFrame else FrameTooLarge size MAX_FRAME_SIZE))
  /\ match encode_frame v with
     | Err error => w' = w /\ resw = Err error
     | Ok payload => exists sent, written w' = written w ++ sent
                     /\ sent `prefix_of` frame_of payload
                     /\ (resw = Ok tt -> sent = frame_of payload)
     end.
Proof.
  intros Hb Hr Hw. destruct (read_frame_consumed r r' res Hb Hr) as [Hc Hbad].
  split_and!; [done|done|]. destruct (encode_frame v) as [payload|error] eqn:He.
  - by eapply write_frame_prefix.
  - unfold write_frame in Hw. rewrite run_lift, He in Hw. by injection Hw as <- <-.
Qed.
End FrameFacts.

(** ** A concrete codec

    Natural numbers in decimal, one buffer per digit. *)

Fixpoint digits_value (bs : Bytes) (acc : Z) : Result ustring Z :=
  match bs with
  | [] => Ok acc
  | b :: rest => if in_range 48 57 b then digits_value rest (acc * 10 + (b - 48))
                 else Err (lit "expected a digit")
  end.

(** One decimal digit; larger values are not represented. *)
Definition digit_codec : JsonCodec Z := {|
  json_writes v := if in_range 0 9 v then ([[48 + v]], None) else ([], Some (lit "too large"));
  json_from_slice bs := digits_value bs 0;
  io_error_text _ := lit "write failed"
|}.

Lemma digit_codec_laws : @JsonCodecLaws Z digit_codec.
Proof.
  split; intros v chunks; cbn [json_writes digit_codec];
    destruct (in_range 0 9 v) eqn:Hv; intros [= <-]; [|done].
  unfold in_range in Hv. apply andb_true_iff in Hv as [Hl%Z.leb_le Hu%Z.leb_le]. cbn.
  unfold in_range. rewrite !(proj2 (Z.leb_le _ _)) by lia. cbn [andb]. f_equal. lia.
Qed.

Definition open_writer : Writer := mkWriter [] None InvalidData None.

Lemma frames_round_trip_witness :
  exists w' sent, @write_frames Z digit_codec [7; 3] open_writer = (w', Ok tt)
  /\ sent = [0; 0; 0; 1; 55; 0; 0; 0; 1; 51]
  /\ @read_frames Z digit_codec 2 (mkReader (sent ++ [1; 2]) UnexpectedEof)
     = (mkReader [1; 2] UnexpectedEof, Ok [7; 3]).
Proof.
  destruct (@frames_round_trip Z digit_codec digit_codec_laws [7; 3] open_writer [1; 2] UnexpectedEof)
    as (w' & sent & Hw & Hs & Hr); [repeat constructor|reflexivity|reflexivity|].
  exists w', sent. split; [exact Hw|]. split; [|exact Hr].
  assert (E : w' = mkWriter [0; 0; 0; 1; 55; 0; 0; 0; 1; 51] None InvalidData None)
    by (vm_compute in Hw; by injection Hw).
  rewrite E in Hs. exact (eq_sym Hs).
Defined.

Lemma frames_are_bounded_witness :
  @read_frame Z digit_codec (mkReader [0; 1; 0; 1; 9; 9] UnexpectedEof)
  = (mkReader [9; 9] UnexpectedEof, Err (FrameTooLarge 65537 MAX_FRAME_SIZE))
  /\ consumed 4 (mkReader [0; 1; 0; 1; 9; 9] UnexpectedEof) (mkReader [9; 9] UnexpectedEof).
Proof.
  split; [vm_compute; reflexivity|].
  refine (proj1 (proj1 (proj2 (@frames_are_bounded Z digit_codec 7
    (mkReader [0; 1; 0; 1; 9; 9] UnexpectedEof) (mkReader [9; 9] UnexpectedEof)
    (Err (FrameTooLarge 65537 MAX_FRAME_SIZE)) open_writer
    (mkWriter [0; 0; 0; 1; 55] None InvalidData None) (Ok tt) _ _ _)) _ _)).
  - repeat constructor; unfold is_byte; lia.
  - vm_compute. reflexivity.
  - vm_compute. reflexivity.
  - vm_compute. congruence.
  - right. vm_compute. reflexivity.
Defined.
