(* ===== verification/Bus.v ===== *)
(** * Counters and the event bus

    [crates/openshield-daemon/src/engine.rs], lines 34 to 265: the saturating
    counters of the packet queues and the bounded broadcast of policy events to
    observers.  A [sync_channel] is a bounded queue with two ends; the bus
    keeps the sending ends in its map and a subscription the receiving one. *)

From S2P Require Import Prelude Text Net Application Model State Protocol.
Local Open Scope Z_scope.

Abbreviation MAX_EVENT_SUBSCRIBERS := 64 (only parsing).
Abbreviation EVENT_QUEUE_CAPACITY := 512 (only parsing).

(** ** Counters *)

(** [SaturatingCounter::increment], on a native atomic or behind a mutex. *)
Definition increment (value : Z) : Z := u64_saturating_add value 1.

(** [NfqueueRuntimeCounters]; its [snapshot] is the record itself. *)
Definition record_queue_overflow (self : NfqueueCounters) : NfqueueCounters :=
  mkNfqueueCounters (increment self.(queue_overflow)) self.(attribution_timeout)
    self.(terminal_queue_error) self.(denied).
Definition record_attribution_timeout (self : NfqueueCounters) : NfqueueCounters :=
  mkNfqueueCounters self.(queue_overflow) (increment self.(attribution_timeout))
    self.(terminal_queue_error) self.(denied).
Definition record_terminal_queue_error (self : NfqueueCounters) : NfqueueCounters :=
  mkNfqueueCounters self.(queue_overflow) self.(attribution_timeout)
    (increment self.(terminal_queue_error)) self.(denied).
Definition record_denied (self : NfqueueCounters) : NfqueueCounters :=
  mkNfqueueCounters self.(queue_overflow) self.(attribution_timeout)
    self.(terminal_queue_error) (increment self.(denied)).
Definition NfqueueCounters_default : NfqueueCounters := mkNfqueueCounters 0 0 0 0.

(** ** Channels *)

Record Channel : Type := mkChannel {
  queued : list Event;
  sender_alive : bool;
  receiver_alive : bool
}.

Inductive TrySendError : Type := SendFull | SendDisconnected.
Inductive RecvTimeoutError : Type := RecvTimeout | RecvDisconnected.

(** [SyncSender::try_send]. *)
Definition try_send (capacity : Z) (event : Event) : ST Channel TrySendError unit := fun channel =>
  if negb channel.(receiver_alive) then (channel, Err SendDisconnected)
  else if capacity <=? zlen channel.(queued) then (channel, Err SendFull)
  else (mkChannel (channel.(queued) ++ [event]) channel.(sender_alive) channel.(receiver_alive),
        Ok tt).

(** [Receiver::recv_timeout] when nothing arrives while it waits. *)
Definition recv : ST Channel RecvTimeoutError Event := fun channel =>
  match channel.(queued) with
  | event :: rest =>
      (mkChannel rest channel.(sender_alive) channel.(receiver_alive), Ok event)
  | [] => (channel, Err (if channel.(sender_alive) then RecvTimeout else RecvDisconnected))
  end.

Definition close_sender (channel : Channel) : Channel :=
  mkChannel channel.(queued) false channel.(receiver_alive).
Definition close_receiver (channel : Channel) : Channel :=
  mkChannel [] channel.(sender_alive) false.

(** ** The bus *)

(** [subscribers] are the keys of the map of senders; [channels] are the
    channels themselves, which the subscriptions share. *)
Record EventBus : Type := mkEventBus {
  next_id : Z;
  subscribers : gset Z;
  latest_counters : option Event;
  channels : gmap Z Channel;
  maximum_subscribers : Z;
  queue_capacity : Z;
  bus_poisoned : bool
}.

Inductive SubscribeError : Type := LimitReached | Unavailable.

Definition set_bus (next_id : Z) (subscribers : gset Z) (channels : gmap Z Channel)
    (self : EventBus) : EventBus :=
  mkEventBus next_id subscribers self.(latest_counters) channels self.(maximum_subscribers)
    self.(queue_capacity) self.(bus_poisoned).
Definition set_latest_counters (v : option Event) (self : EventBus) : EventBus :=
  mkEventBus self.(next_id) self.(subscribers) v self.(channels) self.(maximum_subscribers)
    self.(queue_capacity) self.(bus_poisoned).

Definition with_limits (maximum_subscribers queue_capacity : Z) : EventBus :=
  mkEventBus 0 ∅ None ∅ maximum_subscribers queue_capacity false.
Definition EventBus_new : EventBus := with_limits MAX_EVENT_SUBSCRIBERS EVENT_QUEUE_CAPACITY.

(** The result is the identifier of the subscription. *)
Definition subscribe : ST EventBus SubscribeError Z :=
  self ← get;
  lift (fail_if self.(bus_poisoned) Unavailable) ;;
  lift (fail_if (self.(maximum_subscribers) <=? Z.of_nat (size self.(subscribers)))
          LimitReached) ;;
  let id := self.(next_id) in
  next ← lift (ok_or Unavailable (u64_checked_add id 1));
  modify (fun self => set_bus next self.(subscribers) self.(channels) self) ;;
  let opened := mkChannel [] true true in
  channel ← lift
    match self.(latest_counters) with
    | Some event =>
        match try_send self.(queue_capacity) event opened with
        | (channel, Ok _) => Ok channel
        | (_, Err _) => Err Unavailable
        end
    | None => Ok opened
    end;
  modify (fun self => set_bus self.(next_id) ({[id]} ∪ self.(subscribers))
                        (<[id := channel]> self.(channels)) self) ;;
  mret id.

Definition is_counters_event (event : Event) : bool :=
  match event.(kind) with CountersUpdated _ => true | _ => false end.

(** One call of the closure of [retain]: a sender that is not retained is
    dropped. *)
Definition offer (capacity : Z) (event : Event) (channel : Channel) : Channel * bool :=
  match try_send capacity event channel with
  | (channel', Ok _) => (channel', true)
  | (channel', Err _) => (close_sender channel', false)
  end.

Definition publish (event : Event) (self : EventBus) : EventBus :=
  if self.(bus_poisoned) then self
  else
    let self := if is_counters_event event then set_latest_counters (Some event) self else self in
    set_bus self.(next_id)
      (filter (fun id => is_some_and (fun channel => (offer self.(queue_capacity) event channel).2)
                           (self.(channels) !! id) = true) self.(subscribers))
      (map_imap (fun id channel =>
         Some (if bool_decide (id ∈ self.(subscribers))
               then (offer self.(queue_capacity) event channel).1 else channel))
         self.(channels))
      self.

Definition remove (id : Z) (self : EventBus) : EventBus :=
  if self.(bus_poisoned) then self
  else
    set_bus self.(next_id) (self.(subscribers) ∖ {[id]})
      (if bool_decide (id ∈ self.(subscribers))
       then alter close_sender id self.(channels) else self.(channels)) self.

Definition clear_counter_snapshot (self : EventBus) : EventBus :=
  if self.(bus_poisoned) then self else set_latest_counters None self.

(** [Drop for EventSubscription], and then the drop of its receiver. *)
Definition drop_subscription (id : Z) (self : EventBus) : EventBus :=
  let self := remove id self in
  set_bus self.(next_id) self.(subscribers) (alter close_receiver id self.(channels)) self.

(** [EventSubscription::recv_timeout] on the channel of a subscription. *)
Definition recv_timeout (id : Z) : ST EventBus RecvTimeoutError Event := fun self =>
  match self.(channels) !! id with
  | None => (self, Err RecvDisconnected)
  | Some channel =>
      let '(channel', result) := recv channel in
      (set_bus self.(next_id) self.(subscribers) (<[id := channel']> self.(channels)) self, result)
  end.

(** ** What observers see

    The operations on the bus, with the history that a subscription is owed
    ([due]: the counter snapshot it started with and everything published
    since) and what its observer has received ([seen]). *)

Inductive BusOp : Type :=
| Publish (event : Event)
| Join
| Receive (id : Z)
| Leave (id : Z)
| ClearCounters.

Record History : Type := mkHistory { due : gmap Z (list Event); seen : gmap Z (list Event) }.

Definition option_list {A} (o : option A) : list A :=
  match o with Some a => [a] | None => [] end.

Definition bus_step (op : BusOp) (system : EventBus * History) : EventBus * History :=
  let '(bus, history) := system in
  match op with
  | Publish event =>
      (publish event bus, mkHistory ((fun d => d ++ [event]) <$> history.(due)) history.(seen))
  | Join =>
      match subscribe bus with
      | (bus', Ok id) =>
          (bus', mkHistory (<[id := option_list bus.(latest_counters)]> history.(due))
                   (<[id := []]> history.(seen)))
      | (bus', Err _) => (bus', history)
      end
  | Receive id =>
      match recv_timeout id bus with
      | (bus', Ok event) =>
          (bus', mkHistory history.(due) (alter (fun s => s ++ [event]) id history.(seen)))
      | (bus', Err _) => (bus', history)
      end
  | Leave id => (drop_subscription id bus, history)
  | ClearCounters => (clear_counter_snapshot bus, history)
  end.

Definition bus_run (ops : list BusOp) (system : EventBus * History) : EventBus * History :=
  foldl (fun system op => bus_step op system) system ops.

Definition bus_start (maximum capacity : Z) : EventBus * History :=
  (with_limits maximum capacity, mkHistory ∅ ∅).

(** What holds of one channel. *)
Record channel_ok (capacity : Z) (history : History) (id : Z) (channel : Channel) : Prop := {
  channel_bounded : zlen channel.(queued) <= capacity;
  channel_faithful : channel.(receiver_alive) = true ->
    exists d s, history.(due) !! id = Some d /\ history.(seen) !! id = Some s
    /\ (s ++ channel.(queued)) `prefix_of` d
    /\ (channel.(sender_alive) = true -> s ++ channel.(queued) = d)
}.

Record bus_ok (maximum capacity : Z) (system : EventBus * History) : Prop := {
  bus_limits : maximum_subscribers system.1 = maximum /\ queue_capacity system.1 = capacity
               /\ bus_poisoned system.1 = false;
  bus_senders : forall id, id ∈ subscribers system.1 <->
    exists channel, channels system.1 !! id = Some channel /\ sender_alive channel = true;
  bus_fresh : forall id channel, channels system.1 !! id = Some channel -> id < next_id system.1;
  bus_count : Z.of_nat (size (subscribers system.1)) <= Z.max 0 maximum;
  bus_channels : forall id channel, channels system.1 !! id = Some channel ->
    channel_ok capacity system.2 id channel
}.

Lemma bus_start_ok maximum capacity : bus_ok maximum capacity (bus_start maximum capacity).
Proof.
  split; cbn.
  - done.
  - intros id. rewrite elem_of_empty, lookup_empty. naive_solver.
  - intros id ch. by rewrite lookup_empty.
  - rewrite size_empty. lia.
  - intros id ch. by rewrite lookup_empty.
Qed.

Lemma offer_ok capacity event history id channel :
  0 <= capacity -> sender_alive channel = true -> channel_ok capacity history id channel ->
  channel_ok capacity
    (mkHistory ((fun d => d ++ [event]) <$> history.(due)) history.(seen)) id
    (offer capacity event channel).1
  /\ sender_alive (offer capacity event channel).1 = (offer capacity event channel).2.
Proof.
  intros Hcap Hs [Hb Hf]. unfold offer, try_send.
  destruct (receiver_alive channel) eqn:Hr; cbn [negb].
  2: { cbn. split; [|done]. split; [done|]. cbn. congruence. }
  destruct (Hf eq_refl) as (d & s & Hd & Hse & Hpre & Hall). specialize (Hall Hs).
  destruct (Z.leb_spec capacity (zlen (queued channel))) as [Hfull|Hroom]; cbn.
  - split; [|done]. split; [done|]. intros _. exists (d ++ [event]), s. cbn.
    rewrite lookup_fmap, Hd. split_and!; try done. rewrite Hall. by apply prefix_app_r.
  - split; [|done]. split.
    + cbn. rewrite zlen_app. change (zlen [event]) with 1. lia.
    + intros _. exists (d ++ [event]), s. cbn. rewrite lookup_fmap, Hd, app_assoc, Hall.
      by split_and!.
Qed.

Lemma owed_more capacity event history id channel :
  sender_alive channel = false -> channel_ok capacity history id channel ->
  channel_ok capacity
    (mkHistory ((fun d => d ++ [event]) <$> history.(due)) history.(seen)) id channel.
Proof.
  intros Hs [Hb Hf]. split; [done|]. intros (d & s & Hd & Hse & Hpre & _)%Hf.
  exists (d ++ [event]), s. cbn. rewrite lookup_fmap, Hd.
  split_and!; try done; [by apply prefix_app_r|congruence].
Qed.

(** The channel of [id] after an event was published. *)
Definition published (bus : EventBus) (event : Event) (id : Z) (channel : Channel) : Channel :=
  if bool_decide (id ∈ subscribers bus) then (offer (queue_capacity bus) event channel).1
  else channel.

Lemma publish_ok maximum capacity event bus history :
  0 <= capacity -> bus_ok maximum capacity (bus, history) ->
  bus_ok maximum capacity (bus_step (Publish event) (bus, history)).
Proof.
  intros Hcap [(Hm & Hq & Hp) Hsend Hfresh Hcount Hch]. cbn in *.
  assert (Hlook : forall id, channels (publish event bus) !! id
    = published bus event id <$> channels bus !! id).
  { intros id. unfold publish, published. rewrite Hp.
    destruct (is_counters_event event); cbn; rewrite map_lookup_imap; by destruct (channels bus !! id). }
  assert (Hsubs : subscribers (publish event bus) = filter (fun id =>
    is_some_and (fun ch => (offer (queue_capacity bus) event ch).2) (channels bus !! id) = true)
    (subscribers bus)) by (unfold publish; rewrite Hp; by destruct (is_counters_event event)).
  assert (Hpub : forall id ch, channels bus !! id = Some ch ->
    channel_ok capacity (mkHistory ((fun d => d ++ [event]) <$> due history) (seen history)) id
      (published bus event id ch)
    /\ sender_alive (published bus event id ch)
       = bool_decide (id ∈ subscribers bus) && (offer (queue_capacity bus) event ch).2).
  { intros id ch Hid. unfold published. rewrite Hq. case_bool_decide as Hin.
    - apply Hsend in Hin as (ch' & Hid' & Hs). simplify_eq. apply offer_ok; eauto.
    - assert (sender_alive ch = false).
      { destruct (sender_alive ch) eqn:Hs; [|done]. destruct Hin. apply Hsend. eauto. }
      split; [apply owed_more; eauto|done]. }
  split; cbn.
  - unfold publish. rewrite Hp. by destruct (is_counters_event event).
  - intros id. rewrite Hsubs, elem_of_filter, Hlook. split.
    + intros [Ho Hin]. pose proof Hin as (ch & Hid & _)%Hsend. rewrite Hid in Ho |- *.
      eexists. split; [done|]. rewrite (proj2 (Hpub id ch Hid)), bool_decide_eq_true_2 by done.
      exact Ho.
    + intros (ch' & Hid & Hs). destruct (channels bus !! id) as [ch|] eqn:Hc; [|done].
      injection Hid as <-. rewrite (proj2 (Hpub id ch Hc)) in Hs.
      apply andb_true_iff in Hs as [Hin%bool_decide_eq_true Ho]. done.
  - intros id ch' Hid. rewrite Hlook in Hid. destruct (channels bus !! id) eqn:Hc; [|done].
    unfold publish. rewrite Hp. destruct (is_counters_event event); cbn; eauto.
  - rewrite Hsubs. assert (Z.of_nat (size (filter (fun id =>
      is_some_and (fun ch => (offer (queue_capacity bus) event ch).2) (channels bus !! id) = true)
      (subscribers bus))) <= Z.of_nat (size (subscribers bus))); [|lia].
    apply inj_le, subseteq_size. set_solver.
  - intros id ch' Hid. rewrite Hlook in Hid. destruct (channels bus !! id) as [ch|] eqn:Hc; [|done].
    injection Hid as <-. by apply Hpub.
Qed.

Lemma join_ok maximum capacity bus history :
  0 <= capacity -> bus_ok maximum capacity (bus, history) ->
  bus_ok maximum capacity (bus_step Join (bus, history)).
Proof.
  intros Hcap Hok. pose proof Hok as [(Hm & Hq & Hp) Hsend Hfresh Hcount Hch]. cbn in *.
  unfold subscribe. rewrite run_get, run_lift, Hp. cbn [fail_if].
  rewrite run_lift. destruct (Z.leb_spec (maximum_subscribers bus)
    (Z.of_nat (size (subscribers bus)))) as [Hfull|Hroom]; cbn [fail_if]; [done|].
  rewrite run_lift. destruct (u64_checked_add (next_id bus) 1) as [next|] eqn:Hn; cbn [ok_or]; [|done].
  apply u64_checked_add_Some in Hn as [-> _]. rewrite run_modify, run_lift.
  destruct (match latest_counters bus with Some _ => _ | None => _ end) as [ch|e] eqn:Hopen.
  2: { split; cbn; [done|done| |done|done]. intros id c Hc. apply Hfresh in Hc. lia. }
  rewrite run_modify. cbn.
  assert (zlen (queued ch) <= capacity /\ ch = mkChannel (option_list (latest_counters bus)) true true)
    as [Hlen ->].
  { destruct (latest_counters bus) as [ev|]; [|injection Hopen as <-; by split].
    unfold try_send in Hopen. cbn in Hopen. rewrite Hq in Hopen.
    destruct (Z.leb_spec capacity (zlen (@nil Event))) as [|Hlt] in Hopen; [done|].
    injection Hopen as <-. change (zlen (@nil Event)) with 0 in Hlt. cbn. split; [|done].
    change (zlen [ev]) with 1. lia. }
  assert (Hnew : channels bus !! next_id bus = None).
  { destruct (channels bus !! next_id bus) eqn:Hc; [|done]. apply Hfresh in Hc. lia. }
  assert (Hnotin : next_id bus ∉ subscribers bus) by (rewrite Hsend, Hnew; naive_solver).
  split; cbn.
  - done.
  - intros id. rewrite elem_of_union, elem_of_singleton.
    destruct (decide (id = next_id bus)) as [->|Hne].
    + rewrite lookup_insert_eq. naive_solver.
    + rewrite lookup_insert_ne by done. rewrite Hsend. naive_solver.
  - intros id c Hc. destruct (decide (id = next_id bus)) as [->|Hne]; [lia|].
    rewrite lookup_insert_ne in Hc by done. apply Hfresh in Hc. lia.
  - rewrite size_union, size_singleton by set_solver. lia.
  - intros id c Hc. destruct (decide (id = next_id bus)) as [->|Hne].
    + rewrite lookup_insert_eq in Hc. injection Hc as <-. split; [done|]. intros _.
      eexists _, []. cbn. rewrite !lookup_insert_eq. by split_and!.
    + rewrite lookup_insert_ne in Hc by done. destruct (Hch id c Hc) as [Hb Hf].
      split; [done|]. cbn. rewrite !lookup_insert_ne by done. done.
Qed.

Lemma receive_ok maximum capacity id bus history :
  bus_ok maximum capacity (bus, history) ->
  bus_ok maximum capacity (bus_step (Receive id) (bus, history)).
Proof.
  intros Hok. pose proof Hok as [(Hm & Hq & Hp) Hsend Hfresh Hcount Hch]. cbn in *.
  unfold recv_timeout. destruct (channels bus !! id) as [ch|] eqn:Hid; [|done].
  unfold recv. destruct (queued ch) as [|ev rest] eqn:Hqd.
  { replace (set_bus _ _ _ bus) with bus; [done|]. destruct bus; cbn in *. unfold set_bus. cbn.
    by rewrite insert_id. }
  split; cbn.
  - done.
  - intros i. destruct (decide (i = id)) as [->|Hne].
    + rewrite lookup_insert_eq, Hsend, Hid. naive_solver.
    + by rewrite lookup_insert_ne.
  - intros i c Hc. destruct (decide (i = id)) as [->|Hne]; [by eapply Hfresh|].
    rewrite lookup_insert_ne in Hc by done. by eapply Hfresh.
  - done.
  - intros i c Hc. destruct (decide (i = id)) as [->|Hne].
    + rewrite lookup_insert_eq in Hc. injection Hc as <-.
      destruct (Hch id ch Hid) as [Hb Hf]. rewrite Hqd in Hb, Hf. split; cbn.
      * unfold zlen in *. cbn [length] in Hb. lia.
      * intros (d & s & Hd & Hs & Hpre & Hall)%Hf. exists d, (s ++ [ev]).
        rewrite lookup_alter_eq, Hs, <-app_assoc. by split_and!.
    + rewrite lookup_insert_ne in Hc by done. destruct (Hch i c Hc) as [Hb Hf].
      split; [done|]. cbn. by rewrite lookup_alter_ne.
Qed.

Lemma leave_ok maximum capacity id bus history :
  0 <= capacity -> bus_ok maximum capacity (bus, history) ->
  bus_ok maximum capacity (bus_step (Leave id) (bus, history)).
Proof.
  intros Hcap [(Hm & Hq & Hp) Hsend Hfresh Hcount Hch].
  change (bus_ok maximum capacity (drop_subscription id bus, history)). cbn [fst snd] in *.
  assert (Hlook : forall i, channels (drop_subscription id bus) !! i
    = (fun ch => if decide (i = id)
                 then mkChannel [] false false else ch) <$> channels bus !! i).
  { intros i. unfold drop_subscription, remove. rewrite Hp. cbn. case_bool_decide as Hin.
    - destruct (decide (i = id)) as [->|Hne].
      + rewrite !lookup_alter_eq. by destruct (channels bus !! id).
      + rewrite !lookup_alter_ne by done. by destruct (channels bus !! i).
    - destruct (decide (i = id)) as [->|Hne].
      + rewrite lookup_alter_eq. destruct (channels bus !! id) as [ch|] eqn:Hid; [|done]. cbn.
        destruct (sender_alive ch) eqn:Hs; [destruct Hin; apply Hsend; eauto|].
        unfold close_receiver. by rewrite Hs.
      + rewrite lookup_alter_ne by done. by destruct (channels bus !! i). }
  assert (Hbus : subscribers (drop_subscription id bus) = subscribers bus ∖ {[id]}
    /\ next_id (drop_subscription id bus) = next_id bus)
    by (unfold drop_subscription, remove; by rewrite Hp).
  destruct Hbus as [Hsubs Hnext]. split; cbn [fst snd].
  - unfold drop_subscription, remove. by rewrite Hp.
  - intros i. rewrite Hsubs, Hlook, elem_of_difference, elem_of_singleton, Hsend.
    destruct (channels bus !! i) as [c|]; cbn; [|naive_solver].
    destruct (decide (i = id)); naive_solver.
  - intros i c. rewrite Hlook, Hnext. destruct (channels bus !! i) eqn:Hc; [|done]. eauto.
  - rewrite Hsubs. assert (Z.of_nat (size (subscribers bus ∖ {[id]}))
      <= Z.of_nat (size (subscribers bus))); [|lia]. apply inj_le, subseteq_size. set_solver.
  - intros i c. rewrite Hlook. destruct (channels bus !! i) as [c0|] eqn:Hc; [|done]. cbn.
    intros [= <-]. destruct (decide (i = id)); [|by apply Hch]. by split.
Qed.

Lemma bus_step_ok maximum capacity op system :
  0 <= capacity -> bus_ok maximum capacity system ->
  bus_ok maximum capacity (bus_step op system).
Proof.
  destruct system as [bus history]. intros Hcap Hok. destruct op.
  - by apply publish_ok.
  - by apply join_ok.
  - by apply receive_ok.
  - by apply leave_ok.
  - destruct Hok as [(Hm & Hq & Hp) Hsend Hfresh Hcount Hch]. cbn in *.
    unfold clear_counter_snapshot. rewrite Hp. by split.
Qed.

Lemma bus_run_ok maximum capacity ops : forall system,
  0 <= capacity -> bus_ok maximum capacity system -> bus_ok maximum capacity (bus_run ops system).
Proof.
  induction ops as [|op ops IH]; intros system Hcap Hok; [done|].
  cbn [bus_run foldl]. apply IH; [done|]. by apply bus_step_ok.
Qed.

(** An observer never misses an event without noticing.  However
    publications, subscriptions, receptions and departures are interleaved, what
    a live subscription has received followed by what is queued for it is a
    prefix of everything published since it subscribed (led by the counter
    snapshot of that moment), and all of it as long as the bus keeps its sender;
    so a reception that times out has seen everything, and a subscription
    that fell behind ends in a disconnection.  Queues never exceed their
    capacity and there are never more senders than allowed. *)
Theorem observers_miss_nothing_silently maximum capacity ops :
  0 <= capacity ->
  let '(bus, history) := bus_run ops (bus_start maximum capacity) in
  Z.of_nat (size bus.(subscribers)) <= Z.max 0 maximum
  /\ forall id channel, bus.(channels) !! id = Some channel ->
     zlen channel.(queued) <= capacity
     /\ (channel.(receiver_alive) = true ->
         exists d s, history.(due) !! id = Some d /\ history.(seen) !! id = Some s
         /\ (s ++ channel.(queued)) `prefix_of` d
         /\ (id ∈ bus.(subscribers) -> s ++ channel.(queued) = d)
         /\ (forall bus', recv_timeout id bus = (bus', Err RecvTimeout) -> s = d)
         /\ (forall bus', recv_timeout id bus = (bus', Err RecvDisconnected) ->
             (id ∉ bus.(subscribers)) /\ s `prefix_of` d)).
Proof.
  intros Hcap. pose proof (bus_run_ok maximum capacity ops (bus_start maximum capacity) Hcap
    (bus_start_ok _ _)) as Hok.
  destruct (bus_run ops _) as [bus history]. destruct Hok as [_ Hsend _ Hcount Hch]. cbn in *.
  split; [done|]. intros id ch Hid. destruct (Hch id ch Hid) as [Hb Hf]. split; [done|].
  intros (d & s & Hd & Hs & Hpre & Hall)%Hf. exists d, s. split_and!; try done.
  - intros (ch' & Hid' & Hsa)%Hsend. simplify_eq. by apply Hall.
  - intros bus'. unfold recv_timeout, recv. rewrite Hid. destruct (queued ch) eqn:Hq; [|done].
    destruct (sender_alive ch); intros [= <-]. rewrite <-Hall by done. by rewrite app_nil_r.
  - intros bus'. unfold recv_timeout, recv. rewrite Hid. destruct (queued ch) eqn:Hq; [|done].
    destruct (sender_alive ch) eqn:Hsa; intros [= <-]. split.
    + intros (c & Hc & Hca)%Hsend. congruence.
    + by rewrite app_nil_r in Hpre.
Qed.

Definition sample_event (n : Z) : Event := mkEvent n 0 (ModeChanged BlockAll Learning).

(** A subscription of capacity one that falls behind: it gets the first event
    and then the end of the stream. *)
Definition sample_bus_run : EventBus * History :=
  bus_run [Join; Publish (sample_event 1); Publish (sample_event 2); Receive 0] (bus_start 4 1).

Lemma observers_miss_nothing_silently_witness :
  (recv_timeout 0 sample_bus_run.1).2 = Err RecvDisconnected
  /\ Z.of_nat (size (subscribers sample_bus_run.1)) <= 4.
Proof.
  split; [vm_compute; reflexivity|].
  assert (H1 : 0 <= 1) by lia.
  pose proof (observers_miss_nothing_silently 4 1
    [Join; Publish (sample_event 1); Publish (sample_event 2); Receive 0] H1) as H.
  unfold sample_bus_run. destruct (bus_run _ _) as [bus history]. exact (proj1 H).
Defined.
