(* ===== verification/Pinning.v ===== *)
(** * Pinning executables

    [crates/openshield-daemon/src/application.rs], lines 136 to 228: before a
    rule with an application selector becomes policy, its path is resolved and
    bound to the exact version of the file.  The file system is a parameter
    that may answer differently at each of the accesses of one call. *)

From S2P Require Import Prelude Text Net Application Model State StateFacts Protocol.
Local Open Scope Z_scope.

(** A path is text, or bytes that are not UTF-8. *)
Inductive PathBuf : Type :=
| Utf8Path (text : ustring)
| OtherPath (bytes : list Z).

#[export] Instance PathBuf_eq_dec : EqDecision PathBuf.
Proof. solve_decision. Defined.

Definition to_str (path : PathBuf) : option ustring :=
  match path with Utf8Path text => Some text | OtherPath _ => None end.

Record Metadata : Type := mkMetadata {
  is_file : bool;
  dev : Z;
  ino : Z;
  md_size : Z;
  ctime : Z;
  ctime_nsec : Z
}.

Inductive OpenError : Type := CannotOpen | CannotInspect.

(** The answers of the file system to the accesses of one call, by the number
    of the access; [display_lossy] is [Path::display] of what is not text. *)
Record FsView : Type := mkFsView {
  canonicalize : nat -> ustring -> option PathBuf;
  open_metadata : nat -> PathBuf -> Result OpenError Metadata;
  display_lossy : list Z -> ustring
}.

(** The outermost message of each error. *)
Inductive PinError : Type :=
| NoExecutablePath
| CannotCanonicalize (prefix path : ustring)
| CannotOpenExecutable (path : ustring)
| CannotInspectExecutable
| NotARegularFile
| PathChanged
| VersionChanged
| PathNotUtf8
| PinValidation (error : ApplicationValidationError)
| SuppliedVersionDiffers
| PinSpecValidation (error : ValidationError).

Definition PinError_fmt (error : PinError) : ustring :=
  match error with
  | NoExecutablePath => lit "application selector has no executable path"
  | CannotCanonicalize prefix path => prefix ++ path
  | CannotOpenExecutable path => lit "cannot open executable " ++ path
  | CannotInspectExecutable => lit "cannot inspect executable file"
  | NotARegularFile => lit "application executable is not a regular file"
  | PathChanged => lit "executable path changed while it was pinned"
  | VersionChanged => lit "executable version changed while it was pinned"
  | PathNotUtf8 => lit "canonical executable path is not UTF-8"
  | PinValidation error => ApplicationValidationError_fmt error
  | SuppliedVersionDiffers => lit "supplied executable version does not match the opened path"
  | PinSpecValidation error => ValidationError_fmt error
  end.

Definition path_display (fs : FsView) (path : PathBuf) : ustring :=
  match path with Utf8Path text => text | OtherPath bytes => fs.(display_lossy) bytes end.

Definition executable_file_id (metadata : Metadata) : Result PinError ExecutableFileId :=
  ensure metadata.(is_file) NotARegularFile ;;
  let identity := mkExecutableFileId metadata.(dev) metadata.(ino) metadata.(md_size)
    metadata.(ctime) metadata.(ctime_nsec) in
  map_err PinValidation (ExecutableFileId_validate identity) ;;
  mret identity.

Definition open_executable_version (fs : FsView) (access : nat) (path : PathBuf)
    : Result PinError ExecutableFileId :=
  metadata ← map_err (fun error =>
      match error with
      | CannotOpen => CannotOpenExecutable (path_display fs path)
      | CannotInspect => CannotInspectExecutable
      end) (fs.(open_metadata) access path);
  executable_file_id metadata.

Definition pin_selector (executable : ApplicationPath) (file : ExecutableFileId)
    (selector : ApplicationSelector) : ApplicationSelector :=
  mkApplicationSelector (Some executable) (Some file) selector.(as_command_line)
    selector.(as_uid) selector.(as_cgroup) selector.(as_metadata_redacted).

Definition pin_rule_application (fs : FsView) (specification : RuleSpec)
    : Result PinError RuleSpec :=
  match specification.(application) with
  | None => Ok specification
  | Some selector =>
      executable ← ok_or NoExecutablePath selector.(as_executable);
      let executable_path := executable.(path_str) in
      canonical_path ←
        ok_or (CannotCanonicalize (lit "cannot canonicalize executable ") executable_path)
          (fs.(canonicalize) 0 executable_path);
      actual_file ← open_executable_version fs 0 canonical_path;
      verified_canonical_path ←
        ok_or (CannotCanonicalize (lit "cannot re-canonicalize executable ") executable_path)
          (fs.(canonicalize) 1 executable_path);
      ensure (verified_canonical_path ==? canonical_path) PathChanged ;;
      verified_file ← open_executable_version fs 1 verified_canonical_path;
      ensure (verified_file ==? actual_file) VersionChanged ;;
      final_canonical_path ←
        ok_or (CannotCanonicalize (lit "cannot finally canonicalize executable ") executable_path)
          (fs.(canonicalize) 2 executable_path);
      ensure (final_canonical_path ==? canonical_path) PathChanged ;;
      canonical_text ← ok_or PathNotUtf8 (to_str canonical_path);
      canonical_application ← map_err PinValidation (ApplicationPath_new canonical_text);
      match selector.(as_executable_file) with
      | Some expected_file => ensure (expected_file ==? actual_file) SuppliedVersionDiffers
      | None => Ok tt
      end ;;
      let specification :=
        set_application (Some (pin_selector canonical_application actual_file selector))
          specification in
      map_err PinSpecValidation (RuleSpec_validate specification) ;;
      mret specification
  end.

(** ** What a pinned rule is *)

Lemma open_executable_version_Ok fs access path file :
  open_executable_version fs access path = Ok file <->
  exists metadata, open_metadata fs access path = Ok metadata /\ is_file metadata = true
  /\ file = mkExecutableFileId (dev metadata) (ino metadata) (md_size metadata) (ctime metadata)
              (ctime_nsec metadata)
  /\ ExecutableFileId_validate file = Ok tt.
Proof.
  unfold open_executable_version, executable_file_id. split.
  - intros Hr. apply bind_Ok_inv in Hr as (md & Hmd & Hr). apply map_err_Ok in Hmd.
    apply seq_Ok in Hr as [Hf%ensure_Ok Hr]. apply seq_Ok in Hr as [Hv%map_err_Ok Hr].
    injection Hr as <-. eauto.
  - intros (md & -> & Hf & -> & Hv). cbn. by rewrite Hf, Hv.
Qed.

Lemma ensure_eqb_Ok `{EqDecision A} {E} (x y : A) (e : E) u : ensure (x ==? y) e = Ok u -> x = y.
Proof. rewrite ensure_Ok. apply eqb_true. Qed.


(** A file system with one executable. *)
Definition sample_metadata : Metadata := mkMetadata true 8 42 4096 1000 0.
Definition sample_fs : FsView :=
  mkFsView (fun _ path => if path ==? lit "/bin/curl" then Some (Utf8Path (lit "/usr/bin/curl"))
                          else None)
    (fun _ path => if path ==? Utf8Path (lit "/usr/bin/curl") then Ok sample_metadata
                   else Err CannotOpen) (fun _ => []).
Definition unpinned_spec : RuleSpec :=
  mkRuleSpec (mkRuleName (lit "curl")) Outbound Accept Tcp None (Some (mkPortRange 443 443)) None
    (Some (mkApplicationSelector (Some (mkApplicationPath (lit "/bin/curl"))) None None None None
             false)) Manual true.

