(* ===== verification/Procfs.v ===== *)
(** * Processes in procfs

    [application.rs] of the daemon: what is read of processes, tasks and their
    descriptors below [/proc].  The file system answers differently at each
    access, so it is an argument indexed by the readings that were made of it
    and of the clock. *)

From S2P Require Import Prelude Text Net Application Model State Netlink Decision Capture SocketDiag Pinning.
Local Open Scope Z_scope.

Abbreviation MAX_FDS_PER_TASK := 16384 (only parsing).
Abbreviation SOCKET_LINK_BUFFER_BYTES := 32 (only parsing).
Abbreviation MAX_STATUS_BYTES := (256 * 1024) (only parsing).
Abbreviation MAX_STAT_BYTES := (64 * 1024) (only parsing).
Abbreviation MAX_CGROUP_BYTES := (256 * 1024) (only parsing).

(** ** The file system *)

Inductive IoError : Type := NotFound | NotADirectory | NoSuchProcess | PermissionDenied | OtherError.

#[export] Instance IoError_eq_dec : EqDecision IoError.
Proof. solve_decision. Defined.

(** The directory of a process, or of one of its tasks. *)
Inductive ProcPath : Type :=
| ProcessPath (process_id : Z)
| TaskPath (process_id tid : Z).

#[export] Instance ProcPath_eq_dec : EqDecision ProcPath.
Proof. solve_decision. Defined.

(** An entry of the [fd] directory. *)
Abbreviation FdPath := (ProcPath * Bytes)%type (only parsing).

(** Directories are listed as names and failed entries.  An executable that is
    opened is pinned under a number, by which it can be inspected later. *)
Record Procfs : Type := mkProcfs {
  proc_open : ProcPath -> string -> option ProcFile;
  proc_tables : string -> option ProcFile;
  proc_processes : Result IoError (list (Result IoError Bytes));
  proc_tasks : Z -> Result IoError (list (Result IoError Bytes));
  proc_fds : ProcPath -> Result IoError (list (Result IoError Bytes));
  proc_fd_link : FdPath -> Result IoError Bytes;
  proc_metadata : ProcPath -> Result IoError unit;
  proc_exe : ProcPath -> option PathBuf;
  proc_exe_open : ProcPath -> option Z;
  proc_inspect : Z -> option Metadata
}.

(** An error is one of the socket lookup, or a message of this part; a context
    that is added on the way is left out. *)
Inductive OwnerError : Type :=
| Lookup (error : DiagError)
| Failed (message : string)
| Invalid (error : ApplicationValidationError)
| NotPinned (error : PinError).

Definition owner_timed_out (error : OwnerError) : bool :=
  match error with Lookup AttributionTimeout => true | _ => false end.

Definition with_error {S E E' A} (f : E -> E') (m : ST S E A) : ST S E' A := fun s =>
  let '(s', r) := m s in (s', map_err f r).

(** ** Parsing *)

Definition parse_fs_uid (bytes : Bytes) : Result OwnerError Z :=
  text ← ok_or (Failed "process status is not UTF-8 ASCII") (from_utf8 bytes);
  line ← ok_or (Failed "process status has no Uid field") (List.find (starts_with (lit "Uid:")) (lines text));
  field ← ok_or (Failed "process Uid field does not contain an fsuid") (split_fields line !! 4%nat);
  ok_or (Failed "process fsuid is invalid") (parse_unsigned U32_MAX field).

(** The fields of [stat] after the command, which ends with the last closing
    parenthesis. *)
Definition stat_fields (bytes : Bytes) : Result OwnerError (list ustring) :=
  text ← ok_or (Failed "process stat is not UTF-8 ASCII") (from_utf8 bytes);
  parts ← ok_or (Failed "process stat has no command terminator") (rsplit_once 41 text);
  mret (split_fields parts.2).

Definition parse_start_time (bytes : Bytes) : Result OwnerError Z :=
  fields ← stat_fields bytes;
  field ← ok_or (Failed "process stat has no start-time field") (fields !! 19%nat);
  ok_or (Failed "process start-time field is invalid") (parse_unsigned U64_MAX field).

Definition parse_task_state (bytes : Bytes) : Result OwnerError char :=
  fields ← stat_fields bytes;
  state ← ok_or (Failed "task stat has no state field") (head fields);
  match state with
  | [state] => ensure (in_range 0 127 state) (Failed "task stat state is invalid") ;; mret state
  | _ => Err (Failed "task stat state is invalid")
  end.

Definition parse_command_argument (argument : Bytes) : Result OwnerError CommandArgument :=
  argument ← ok_or (Failed "process command-line argument is not UTF-8") (from_utf8 argument);
  map_err Invalid (CommandArgument_new argument).

Definition parse_command_line (bytes : Bytes) : Result OwnerError (list CommandArgument) :=
  ensure (negb (bool_decide (bytes = []))) (Failed "process command line is empty") ;;
  let raw_arguments := split_char 0 bytes in
  let raw_arguments :=
    if is_some_and (fun argument => bool_decide (argument = [])) (last raw_arguments)
    then removelast raw_arguments else raw_arguments in
  ensure (negb (bool_decide (raw_arguments = [])) && (zlen raw_arguments <=? MAX_COMMAND_ARGUMENTS))
    (Failed "process command-line argument bound exceeded") ;;
  mapM parse_command_argument raw_arguments.

Definition is_controller_character (c : char) : bool :=
  in_range 48 57 c || in_range 65 90 c || in_range 97 122 c || (c =? 95) || (c =? 45) || (c =? 61).

(** One line of [cgroup]: the unified path afterwards. *)
Definition parse_cgroup_line (line : ustring) (unified : option CgroupPath)
    : Result OwnerError (option CgroupPath) :=
  first ← ok_or (Failed "process cgroup entry has no controller list") (split_once 58 line);
  second ← ok_or (Failed "process cgroup entry has no path") (split_once 58 first.2);
  let hierarchy := first.1 in
  let controllers := second.1 in
  validated_path ← map_err Invalid (CgroupPath_new second.2);
  if (hierarchy ==? lit "0") && bool_decide (controllers = []) then
    ensure (is_none unified) (Failed "process has multiple unified cgroup v2 memberships") ;;
    mret (Some validated_path)
  else
    hierarchy ← ok_or (Failed "process cgroup v1 hierarchy is invalid") (parse_unsigned U32_MAX hierarchy);
    ensure (negb (hierarchy =? 0) && negb (bool_decide (controllers = [])))
      (Failed "process cgroup membership mixes invalid hierarchy metadata") ;;
    ensure (forallb (fun controller =>
              negb (bool_decide (controller = [])) && forallb is_controller_character controller)
              (split_char 44 controllers))
      (Failed "process cgroup v1 controller list is invalid") ;;
    mret unified.

Definition socket_inode_from_bytes (bytes : Bytes) : option Z :=
  text ← from_utf8 bytes;
  rest ← strip_prefix (lit "socket:[") text;
  inode ← strip_suffix (lit "]") rest;
  if bool_decide (inode = []) || negb (forallb (in_range 48 57) inode) then None
  else parse_unsigned U64_MAX inode.

Definition socket_link (inode : Z) : Bytes := lit "socket:[" ++ dec inode ++ lit "]".

Definition procfs_enumeration_may_indicate_disappearance (error : IoError) : bool :=
  match error with NotFound | NotADirectory | NoSuchProcess => true | _ => false end.

(** ** Reading *)

Section Reading.
Context (procfs : nat -> Procfs) (instant : nat -> Z).

(** One access to the file system. *)
Definition look {E A} (access : Procfs -> A) : ST Resolver E A :=
  r ← get; modify tick ;; mret (access (procfs r.(readings))).

Definition check_deadline (deadline : Z) : ST Resolver OwnerError unit :=
  with_error Lookup (ensure_within_deadline instant deadline).

Definition read_proc_file (path : ProcPath) (name : string) (maximum deadline : Z)
    : ST Resolver OwnerError Bytes :=
  with_error Lookup (read_bounded instant (fun n => proc_open (procfs n) path name) maximum deadline).

(** The loop of [read_process_fs_uid]: up to the first [PROC_CHUNK] bytes in
    place, then in chunks. *)
Fixpoint read_status_chunks (fuel : nat) (file : ProcFile) (deadline : Z) (call : nat) (bytes : Bytes)
    : ST Resolver OwnerError Bytes :=
  match fuel with
  | O => lift (Err (Lookup TableNotRead))
  | S fuel =>
      check_deadline deadline ;;
      let in_place := (length bytes <? PROC_CHUNK)%nat in
      let room := if in_place then (PROC_CHUNK - length bytes)%nat else PROC_CHUNK in
      chunk ← lift match read file call (length bytes) room with
                   | Ok (Some chunk) => Ok chunk
                   | _ => Err (Lookup TableNotRead)
                   end;
      check_deadline deadline ;;
      match chunk with
      | [] => mret bytes
      | _ =>
          lift (ensure (in_place || (zlen bytes + zlen chunk <=? MAX_STATUS_BYTES)) (Lookup TableTooLarge)) ;;
          read_status_chunks fuel file deadline (S call) (bytes ++ chunk)
      end
  end.

Definition read_process_fs_uid (process : ProcPath) (deadline : Z) : ST Resolver OwnerError Z :=
  check_deadline deadline ;;
  file ← look (fun fs => proc_open fs process "status");
  file ← lift (ok_or (Lookup TableNotRead) file);
  check_deadline deadline ;;
  bytes ← read_status_chunks (S (length file.(content))) file deadline 0 [];
  lift (parse_fs_uid bytes).

Definition read_start_time (process : ProcPath) (deadline : Z) : ST Resolver OwnerError Z :=
  bytes ← read_proc_file process "stat" MAX_STAT_BYTES deadline;
  lift (parse_start_time bytes).

Definition read_task_state (task : ProcPath) (deadline : Z) : ST Resolver OwnerError char :=
  bytes ← read_proc_file task "stat" MAX_STAT_BYTES deadline;
  lift (parse_task_state bytes).

Definition read_command_line (process : ProcPath) (deadline : Z)
    : ST Resolver OwnerError (list CommandArgument) :=
  bytes ← read_proc_file process "cmdline" MAX_COMMAND_LINE_BYTES deadline;
  lift (parse_command_line bytes).

Fixpoint read_cgroup_lines (ls : list ustring) (deadline : Z) (unified : option CgroupPath)
    : ST Resolver OwnerError (option CgroupPath) :=
  match ls with
  | [] => mret unified
  | line :: rest =>
      check_deadline deadline ;;
      unified ← lift (parse_cgroup_line line unified);
      read_cgroup_lines rest deadline unified
  end.

(** There are fewer lines than a count of machine size can overflow on. *)
Definition read_cgroups (process : ProcPath) (deadline : Z) : ST Resolver OwnerError (list CgroupPath) :=
  bytes ← read_proc_file process "cgroup" MAX_CGROUP_BYTES deadline;
  text ← lift (ok_or (Failed "process cgroup data is not UTF-8 ASCII") (from_utf8 bytes));
  unified ← read_cgroup_lines (lines text) deadline None;
  check_deadline deadline ;;
  lift (ensure (negb (bool_decide (lines text = []))) (Failed "process has no cgroup membership")) ;;
  mret (option_list unified).

Definition path_disappeared (path : ProcPath) : ST Resolver OwnerError bool :=
  found ← look (fun fs => proc_metadata fs path);
  match found with
  | Ok _ => mret false
  | Err NotFound | Err NoSuchProcess => mret true
  | Err _ => lift (Err (Failed "cannot recheck procfs path"))
  end.

Definition procfs_subject_disappeared_after (error : IoError) (subject : ProcPath)
    : ST Resolver OwnerError bool :=
  if procfs_enumeration_may_indicate_disappearance error then path_disappeared subject else mret false.

Definition task_is_stably_zombie (task : ProcPath) (deadline : Z) : ST Resolver OwnerError bool :=
  before ← read_task_state task deadline;
  check_deadline deadline ;;
  after ← read_task_state task deadline;
  mret ((before =? 90) && (after =? 90)).

(** *** Enumeration *)

(** The numbers among the names of a listing; [None] for an entry that failed. *)
Definition numeric_name (name : Bytes) : option Z := text ← from_utf8 name; parse_unsigned U32_MAX text.

Fixpoint process_id_entries (entries : list (Result IoError Bytes)) (deadline : Z) (process_ids : list Z)
    : ST Resolver OwnerError (list Z) :=
  match entries with
  | [] => mret process_ids
  | entry :: rest =>
      check_deadline deadline ;;
      name ← lift (map_err (fun _ => Failed "cannot read procfs directory entry") entry);
      match numeric_name name with
      | None => process_id_entries rest deadline process_ids
      | Some process_id =>
          let process_ids := process_ids ++ [process_id] in
          lift (ensure (zlen process_ids <=? MAX_PROC_ENTRIES) (Failed "procfs process bound exceeded")) ;;
          process_id_entries rest deadline process_ids
      end
  end.

Definition enumerate_process_ids (deadline : Z) : ST Resolver OwnerError (list Z) :=
  check_deadline deadline ;;
  listing ← look proc_processes;
  entries ← lift (map_err (fun _ => Failed "cannot enumerate procfs") listing);
  process_ids ← process_id_entries entries deadline [];
  mret (merge_sort Z.le process_ids).

(** The tasks, and the count of all tasks so far, which a failure keeps. *)
Fixpoint task_id_entries (entries : list (Result IoError Bytes)) (deadline : Z) (task_ids : list Z)
    (task_count : Z) : ST Resolver (Z * OwnerError) (list Z * Z) :=
  match entries with
  | [] => mret (task_ids, task_count)
  | entry :: rest =>
      with_error (pair task_count) (check_deadline deadline) ;;
      match entry with
      | Err NotFound => task_id_entries rest deadline task_ids task_count
      | Err _ => lift (Err (task_count, Failed "cannot inspect task entry"))
      | Ok name =>
          match numeric_name name with
          | None => task_id_entries rest deadline task_ids task_count
          | Some task_id =>
              task_count ← lift (ok_or (task_count, Failed "procfs task count overflow") (usize_checked_add task_count 1));
              lift (ensure (task_count <=? MAX_PROC_ENTRIES) (task_count, Failed "procfs task bound exceeded")) ;;
              task_id_entries rest deadline (task_ids ++ [task_id]) task_count
          end
      end
  end.

Definition enumerate_task_ids (process_id deadline task_count : Z)
    : ST Resolver (Z * OwnerError) (option (list Z) * Z) :=
  listing ← look (fun fs => proc_tasks fs process_id);
  match listing with
  | Err error =>
      with_error (pair task_count) (
        if procfs_enumeration_may_indicate_disappearance error then
          disappeared ← procfs_subject_disappeared_after error (ProcessPath process_id);
          if disappeared : bool then mret (None, task_count)
          else lift (Err (Failed "cannot prove socket ownership: task list for live process is unavailable"))
        else lift (Err (Failed "cannot enumerate task list")))
  | Ok entries =>
      tasks ← task_id_entries entries deadline [] task_count;
      match merge_sort Z.le tasks.1 with
      | [] =>
          with_error (pair tasks.2) (
            disappeared ← path_disappeared (ProcessPath process_id);
            if disappeared : bool then mret (None, tasks.2)
            else lift (Err (Failed "cannot prove socket ownership: live process has no enumerable tasks")))
      | task_ids => mret (Some task_ids, tasks.2)
      end
  end.

(** *** Descriptors *)

(** [readlinkat] into the small buffer: what fills it may be truncated. *)
Definition read_socket_inode_at (descriptor : FdPath) : ST Resolver OwnerError (Result IoError (option Z)) :=
  link ← look (fun fs => proc_fd_link fs descriptor);
  mret ((fun link => if SOCKET_LINK_BUFFER_BYTES <=? zlen link then None else socket_inode_from_bytes link)
          <$> link).

(** The order of the names in one directory. *)
Fixpoint bytes_lt (a b : Bytes) : bool :=
  match a, b with
  | _, [] => false
  | [], _ :: _ => true
  | x :: a, y :: b => (x <? y) || (x =? y) && bytes_lt a b
  end.

Definition least_name (name : Bytes) (current : option Bytes) : Bytes :=
  match current with
  | Some current => if bytes_lt name current then name else current
  | None => name
  end.

(** The matches are the descriptor of each target that was found: a map from
    inodes to names. *)
Fixpoint scan_fd_entries (entries : list (Result IoError Bytes)) (task : ProcPath)
    (target_inodes : list Z) (deadline maximum_fds count : Z) (matches : gmap Z Bytes)
    : ST Resolver OwnerError (gmap Z Bytes) :=
  match entries with
  | [] => check_deadline deadline ;; check_deadline deadline ;; mret matches
  | entry :: rest =>
      check_deadline deadline ;;
      check_deadline deadline ;;
      match entry with
      | Err error =>
          lift (ensure (count <? maximum_fds) (Failed "cannot prove unique batched socket ownership: fd bound exceeded")) ;;
          if error ==? NotFound
          then scan_fd_entries rest task target_inodes deadline maximum_fds (count + 1) matches
          else lift (Err (Failed "cannot inspect descriptor entry"))
      | Ok name =>
          if (name ==? lit ".") || (name ==? lit "..")
          then scan_fd_entries rest task target_inodes deadline maximum_fds count matches
          else
            lift (ensure (count <? maximum_fds) (Failed "cannot prove unique batched socket ownership: fd bound exceeded")) ;;
            inode ← read_socket_inode_at (task, name);
            match inode with
            | Err NotFound => scan_fd_entries rest task target_inodes deadline maximum_fds (count + 1) matches
            | Err _ => lift (Err (Failed "cannot inspect descriptor link"))
            | Ok inode =>
                check_deadline deadline ;;
                scan_fd_entries rest task target_inodes deadline maximum_fds (count + 1)
                  match inode with
                  | Some inode =>
                      if bool_decide (inode ∈ target_inodes)
                      then <[inode := least_name name (matches !! inode)]> matches else matches
                  | None => matches
                  end
            end
      end
  end.

(** The directory is listed from its beginning. *)
Definition scan_fd_entries_for_inodes (entries : list (Result IoError Bytes)) (task : ProcPath)
    (target_inodes : list Z) (deadline maximum_fds : Z) : ST Resolver OwnerError (gmap Z Bytes) :=
  check_deadline deadline ;;
  check_deadline deadline ;;
  scan_fd_entries entries task target_inodes deadline maximum_fds 0 ∅.

Definition verify_socket_owner_uid (task : ProcPath) (observed_fsuid expected_uid deadline : Z)
    : ST Resolver OwnerError unit :=
  owner_uid ← read_process_fs_uid task deadline;
  lift (ensure ((owner_uid =? observed_fsuid) && (owner_uid =? expected_uid))
          (Failed "socket owner filesystem UID differs from the kernel socket UID")).

Definition task_socket_fds_for_inodes (task : ProcPath) (process_id task_id observed_fsuid : Z)
    (target_inodes : list Z) (deadline maximum_fds : Z) : ST Resolver OwnerError (gmap Z Bytes) :=
  descriptors ← look (fun fs => proc_fds fs task);
  match descriptors with
  | Err error =>
      if procfs_enumeration_may_indicate_disappearance error then
        disappeared ← procfs_subject_disappeared_after error task;
        if disappeared : bool then mret ∅
        else lift (Err (Failed "cannot prove batched socket ownership: descriptor table for live task is unavailable"))
      else
        zombie ← (if (error ==? PermissionDenied) && (task_id =? process_id)
                  then task_is_stably_zombie task deadline else mret false);
        if zombie : bool then mret ∅
        else lift (Err (Failed "cannot enumerate descriptor table for task"))
  | Ok entries =>
      matches ← scan_fd_entries_for_inodes entries task target_inodes deadline maximum_fds;
      (if bool_decide (matches = ∅) then mret tt
       else verify_socket_owner_uid task observed_fsuid observed_fsuid deadline) ;;
      mret matches
  end.

(** *** Hints

    [hint] is the name that [TaskFdHints::get] prefers for an inode. *)

Fixpoint hinted_inodes (target_inodes : list Z) (task : ProcPath) (hint : Z -> option Bytes) (deadline : Z)
    (matches : gmap Z Bytes) : ST Resolver OwnerError (option (gmap Z Bytes)) :=
  match target_inodes with
  | [] => mret (Some matches)
  | inode :: rest =>
      check_deadline deadline ;;
      match hint inode with
      | None => mret None
      | Some fd_name =>
          link ← look (fun fs => proc_fd_link fs (task, fd_name));
          check_deadline deadline ;;
          if bool_decide (match link with Ok link => socket_inode_from_bytes link | Err _ => None end = Some inode)
          then hinted_inodes rest task hint deadline (<[inode := fd_name]> matches)
          else mret None
      end
  end.

Definition hinted_task_socket_fds_for_inodes (task : ProcPath) (observed_fsuid : Z)
    (target_inodes : list Z) (hint : Z -> option Bytes) (deadline : Z)
    : ST Resolver OwnerError (option (gmap Z Bytes)) :=
  matches ← hinted_inodes target_inodes task hint deadline ∅;
  match matches with
  | None => mret None
  | Some matches =>
      if bool_decide (matches = ∅) then mret None
      else
        verify_socket_owner_uid task observed_fsuid observed_fsuid deadline ;;
        mret (Some matches)
  end.

(** The matches in the order of their inodes; the changed map, and whether it
    changed. *)
Fixpoint prefer_hints (found : list (Z * Bytes)) (task : ProcPath) (hint : Z -> option Bytes) (deadline : Z)
    (matches : gmap Z Bytes) (changed : bool) : ST Resolver OwnerError (gmap Z Bytes * bool) :=
  match found with
  | [] => mret (matches, changed)
  | (inode, fd_name) :: rest =>
      check_deadline deadline ;;
      match hint inode with
      | None => prefer_hints rest task hint deadline matches changed
      | Some preferred =>
          if fd_name ==? preferred then prefer_hints rest task hint deadline matches changed
          else
            link ← look (fun fs => proc_fd_link fs (task, preferred));
            check_deadline deadline ;;
            if bool_decide (match link with Ok link => socket_inode_from_bytes link | Err _ => None end = Some inode)
            then prefer_hints rest task hint deadline (<[inode := preferred]> matches) true
            else prefer_hints rest task hint deadline matches changed
      end
  end.

Definition prefer_verified_socket_fd_hints (task : ProcPath) (observed_fsuid : Z)
    (matches : gmap Z Bytes) (hint : Z -> option Bytes) (deadline : Z)
    : ST Resolver OwnerError (gmap Z Bytes) :=
  preferred ← prefer_hints (btree_entries matches) task hint deadline matches false;
  (if (preferred : gmap Z Bytes * bool).2
   then verify_socket_owner_uid task observed_fsuid observed_fsuid deadline else mret tt) ;;
  mret preferred.1.
End Reading.

(** ** Time goes on *)

Definition later (r r' : Resolver) : Prop := (readings r <= readings r')%nat.
#[export] Instance later_preorder : PreOrder later.
Proof. split; unfold later; [intros r; lia|intros r1 r2 r3; lia]. Qed.

Create HintDb later.

Lemma always_with_error {S E E' A} (R : S -> S -> Prop) (f : E -> E') (m : ST S E A) :
  always R m -> always R (with_error f m).
Proof. intros Hm s. specialize (Hm s). unfold with_error. by destruct (m s). Qed.
Lemma always_attempt {S E E' A} (R : S -> S -> Prop) (m : ST S E A) :
  always R m -> always R (attempt m : ST S E' _).
Proof. intros Hm s. specialize (Hm s). unfold attempt. by destruct (m s). Qed.

(** Follows the structure of a computation. *)
Ltac goes_on :=
  repeat first
    [ assumption
    | solve [eauto 3 with later]
    | apply always_bind; [apply _| |intros]
    | apply always_lift; apply _ | apply always_ret; apply _ | apply always_get; apply _
    | apply always_with_error | apply always_attempt
    | apply always_modify; intros; unfold later; cbn; lia
    | match goal with |- always _ (match ?x with _ => _ end) => destruct x end
    | progress cbn zeta ].

Section Later.
Context (procfs : nat -> Procfs) (instant : nat -> Z).

Lemma within_later deadline : always later (ensure_within_deadline instant deadline).
Proof. intros r. rewrite within_run. unfold later. cbn. lia. Qed.
#[local] Hint Resolve within_later : later.

Lemma check_later deadline : always later (check_deadline instant deadline).
Proof. unfold check_deadline. goes_on. Qed.
Lemma look_later {E A} (access : Procfs -> A) : always later (look procfs access : ST Resolver E A).
Proof. unfold look. goes_on. Qed.
#[local] Hint Resolve check_later look_later : later.

Lemma read_chunks_later fuel file maximum deadline : forall call bytes,
  always later (read_chunks instant fuel file maximum deadline call bytes).
Proof. induction fuel as [|fuel IH]; intros call bytes; cbn [read_chunks]; goes_on. Qed.
#[local] Hint Resolve read_chunks_later : later.
Lemma read_file_later path name maximum deadline :
  always later (read_proc_file procfs instant path name maximum deadline).
Proof. unfold read_proc_file, read_bounded. goes_on. Qed.
#[local] Hint Resolve read_file_later : later.

Lemma read_status_later fuel file deadline : forall call bytes,
  always later (read_status_chunks instant fuel file deadline call bytes).
Proof. induction fuel as [|fuel IH]; intros call bytes; cbn [read_status_chunks]; goes_on. Qed.
#[local] Hint Resolve read_status_later : later.

Lemma fs_uid_later process deadline : always later (read_process_fs_uid procfs instant process deadline).
Proof. unfold read_process_fs_uid. goes_on. Qed.
Lemma start_time_later process deadline : always later (read_start_time procfs instant process deadline).
Proof. unfold read_start_time. goes_on. Qed.
Lemma task_state_later task deadline : always later (read_task_state procfs instant task deadline).
Proof. unfold read_task_state. goes_on. Qed.
Lemma command_line_later process deadline : always later (read_command_line procfs instant process deadline).
Proof. unfold read_command_line. goes_on. Qed.
Lemma cgroup_lines_later ls deadline : forall unified,
  always later (read_cgroup_lines instant ls deadline unified).
Proof. induction ls as [|line ls IH]; intros unified; cbn [read_cgroup_lines]; goes_on. Qed.
#[local] Hint Resolve fs_uid_later start_time_later task_state_later command_line_later cgroup_lines_later : later.
Lemma cgroups_later process deadline : always later (read_cgroups procfs instant process deadline).
Proof. unfold read_cgroups. goes_on. Qed.

Lemma disappeared_later path : always later (path_disappeared procfs path).
Proof. unfold path_disappeared. goes_on. Qed.
#[local] Hint Resolve disappeared_later : later.
Lemma subject_later error subject : always later (procfs_subject_disappeared_after procfs error subject).
Proof. unfold procfs_subject_disappeared_after. goes_on. Qed.
Lemma zombie_later task deadline : always later (task_is_stably_zombie procfs instant task deadline).
Proof. unfold task_is_stably_zombie. goes_on. Qed.
#[local] Hint Resolve subject_later zombie_later : later.

Lemma process_entries_later entries deadline : forall ids,
  always later (process_id_entries instant entries deadline ids).
Proof. induction entries as [|e es IH]; intros ids; cbn [process_id_entries]; goes_on. Qed.
#[local] Hint Resolve process_entries_later : later.
Lemma process_ids_later deadline : always later (enumerate_process_ids procfs instant deadline).
Proof. unfold enumerate_process_ids. goes_on. Qed.
Lemma task_entries_later entries deadline : forall ids n,
  always later (task_id_entries instant entries deadline ids n).
Proof. induction entries as [|e es IH]; intros ids n; cbn [task_id_entries]; goes_on. Qed.
#[local] Hint Resolve task_entries_later : later.
Lemma task_ids_later process_id deadline n :
  always later (enumerate_task_ids procfs instant process_id deadline n).
Proof. unfold enumerate_task_ids. goes_on. Qed.

Lemma inode_at_later descriptor : always later (read_socket_inode_at procfs descriptor).
Proof. unfold read_socket_inode_at. goes_on. Qed.
#[local] Hint Resolve inode_at_later : later.
Lemma fd_entries_later entries task inodes deadline maximum : forall count matches,
  always later (scan_fd_entries procfs instant entries task inodes deadline maximum count matches).
Proof. induction entries as [|e es IH]; intros count matches; cbn [scan_fd_entries]; goes_on. Qed.
#[local] Hint Resolve fd_entries_later : later.
Lemma fd_scan_later entries task inodes deadline maximum :
  always later (scan_fd_entries_for_inodes procfs instant entries task inodes deadline maximum).
Proof. unfold scan_fd_entries_for_inodes. goes_on. Qed.
Lemma verify_later task observed expected deadline :
  always later (verify_socket_owner_uid procfs instant task observed expected deadline).
Proof. unfold verify_socket_owner_uid. goes_on. Qed.
#[local] Hint Resolve fd_scan_later verify_later : later.
Lemma task_fds_later task process_id task_id uid inodes deadline maximum :
  always later (task_socket_fds_for_inodes procfs instant task process_id task_id uid inodes deadline maximum).
Proof. unfold task_socket_fds_for_inodes. goes_on. Qed.
Lemma hinted_inodes_later inodes task hint deadline : forall matches,
  always later (hinted_inodes procfs instant inodes task hint deadline matches).
Proof. induction inodes as [|i inodes IH]; intros matches; cbn [hinted_inodes]; goes_on. Qed.
#[local] Hint Resolve hinted_inodes_later : later.
Lemma hinted_later task uid inodes hint deadline :
  always later (hinted_task_socket_fds_for_inodes procfs instant task uid inodes hint deadline).
Proof. unfold hinted_task_socket_fds_for_inodes. goes_on. Qed.
Lemma prefer_hints_later found task hint deadline : forall matches changed,
  always later (prefer_hints procfs instant found task hint deadline matches changed).
Proof. induction found as [|[i n] found IH]; intros matches changed; cbn [prefer_hints]; goes_on. Qed.
#[local] Hint Resolve prefer_hints_later : later.
Lemma prefer_later task uid matches hint deadline :
  always later (prefer_verified_socket_fd_hints procfs instant task uid matches hint deadline).
Proof. unfold prefer_verified_socket_fd_hints. goes_on. Qed.
End Later.
#[export] Hint Resolve check_later look_later read_chunks_later read_file_later read_status_later fs_uid_later start_time_later command_line_later cgroups_later
  disappeared_later subject_later zombie_later task_state_later inode_at_later process_ids_later task_ids_later process_entries_later task_entries_later fd_entries_later fd_scan_later
  verify_later hinted_inodes_later prefer_hints_later task_fds_later hinted_later prefer_later : later.

(** ** What was read *)

Lemma later_run {E A} (m : ST Resolver E A) r r' x :
  always later m -> m r = (r', x) -> (readings r <= readings r')%nat.
Proof. intros Hm Hr. specialize (Hm r). by rewrite Hr in Hm. Qed.

Lemma with_error_Ok {S E E' A} (f : E -> E') (m : ST S E A) s s' a :
  with_error f m s = (s', Ok a) <-> m s = (s', Ok a).
Proof. unfold with_error. destruct (m s) as [s1 [x|e]]; cbn; naive_solver. Qed.

(** Takes the first step off a run that ends well. *)
Tactic Notation "step" hyp(Hrun) ident(a) ident(r1) ident(H1) :=
  apply run_bind_Ok in Hrun as (a & r1 & H1 & Hrun).
(** A step that only checks, or one whose result is known. *)
Ltac checked Hrun := apply run_bind_Ok in Hrun as (? & ? & _ & Hrun).
Tactic Notation "takes" hyp(Hrun) ident(a) ident(H1) :=
  apply run_lift_Ok in Hrun as (a & H1 & Hrun).
Tactic Notation "passes" hyp(Hrun) ident(H1) :=
  apply run_lift_Ok in Hrun as (? & H1 & Hrun).
(** The time that a run took. *)
Ltac took H :=
  let T := fresh "T" in
  match type of H with ?m ?r = (?r', ?x) =>
    assert (readings r <= readings r')%nat as T by (apply (later_run m r r' x); [goes_on|exact H])
  end.

Section Facts.
Context (procfs : nat -> Procfs) (instant : nat -> Z).

Lemma look_Ok {E A} (access : Procfs -> A) r r' a :
  (look procfs access : ST Resolver E A) r = (r', Ok a) -> r' = tick r /\ a = access (procfs (readings r)).
Proof. unfold look. rewrite run_get, run_modify. intros [= <- <-]. done. Qed.

Lemma check_Ok deadline r r' x :
  check_deadline instant deadline r = (r', Ok x) -> r' = tick r /\ instant (readings r) <= deadline.
Proof.
  unfold check_deadline. rewrite with_error_Ok, within_run.
  destruct (Z.leb_spec (instant (readings r)) deadline); naive_solver.
Qed.

Lemma status_chunks_exact file deadline : forall fuel call bytes r r' out,
  bytes `prefix_of` content file ->
  read_status_chunks instant fuel file deadline call bytes r = (r', Ok out) -> out = content file.
Proof.
  induction fuel as [|fuel IH]; intros call bytes r r' out Hpre Hrun; [done|]. cbn [read_status_chunks] in Hrun.
  checked Hrun. cbn zeta in Hrun. passes Hrun Hread. checked Hrun.
  destruct (read file call (length bytes) _) as [[chunk|]|] eqn:Hr; try done. injection Hread as <-.
  apply read_spec in Hr as (Hchunk & _ & Hend). destruct chunk as [|b chunk].
  - injection Hrun as _ <-. apply prefix_all; [done|]. apply Hend; [done|].
    destruct (Nat.ltb_spec (length bytes) PROC_CHUNK); lia.
  - passes Hrun He. eapply IH; [|exact Hrun]. by apply prefix_grows.
Qed.

(** A file that was read is one of that time, as a whole. *)
Definition opened_between (n n' : nat) (path : ProcPath) (name : string) (bytes : Bytes) : Prop :=
  exists k file, (n <= k < n')%nat /\ proc_open (procfs k) path name = Some file /\ content file = bytes.

Lemma fs_uid_Ok process deadline r r' uid :
  read_process_fs_uid procfs instant process deadline r = (r', Ok uid) ->
  exists bytes, opened_between (readings r) (readings r') process "status" bytes /\ parse_fs_uid bytes = Ok uid.
Proof.
  unfold read_process_fs_uid. intros Hrun. step Hrun x r1 H1. took H1. step Hrun file r2 H2.
  apply look_Ok in H2 as [-> ->]. passes Hrun Hopen. step Hrun y r3 H3. took H3. step Hrun bytes r4 H4.
  took H4. apply ok_or_Ok in Hopen. cbn [tick readings] in *. injection Hrun as <- Hrun.
  apply status_chunks_exact in H4; [|apply prefix_nil]. subst bytes. eexists. split; [|exact Hrun].
  exists (readings r1). eexists. split_and!; [lia|lia|exact Hopen|done].
Qed.

Lemma read_chunks_exact file maximum deadline : forall fuel call bytes r r' out,
  bytes `prefix_of` content file ->
  read_chunks instant fuel file maximum deadline call bytes r = (r', Ok out) -> out = content file.
Proof.
  induction fuel as [|fuel IH]; intros call bytes r r' out Hpre Hrun; [done|]. cbn [read_chunks] in Hrun.
  checked Hrun. passes Hrun Hread. checked Hrun.
  destruct (read file call (length bytes) _) as [[chunk|]|] eqn:Hr; try done. injection Hread as <-.
  apply read_spec in Hr as (Hchunk & _ & Hend). destruct chunk as [|b chunk].
  - injection Hrun as _ <-. apply prefix_all; [done|]. apply Hend; [done|lia].
  - passes Hrun He. eapply IH; [|exact Hrun]. by apply prefix_grows.
Qed.

Lemma read_file_Ok path name maximum deadline r r' bytes :
  read_proc_file procfs instant path name maximum deadline r = (r', Ok bytes) ->
  opened_between (readings r) (readings r') path name bytes.
Proof.
  intros Hrun. unfold read_proc_file in Hrun. rewrite with_error_Ok in Hrun. unfold read_bounded in Hrun.
  rewrite run_bind, within_run in Hrun. destruct (_ <=? _); [|done]. cbn [ensure] in Hrun.
  rewrite run_get in Hrun. passes Hrun Hopen. apply ok_or_Ok in Hopen. cbn [tick readings] in Hopen.
  rewrite run_bind, within_run in Hrun. destruct (_ <=? _); [|done]. cbn [ensure] in Hrun.
  took Hrun. cbn [tick readings] in *. apply read_chunks_exact in Hrun as ->; [|apply prefix_nil].
  exists (S (readings r)). eexists. split_and!; [lia|lia|exact Hopen|done].
Qed.

(** *** Descriptors *)

Definition names_socket (inode : Z) (link : Bytes) : Prop :=
  zlen link < SOCKET_LINK_BUFFER_BYTES /\ socket_inode_from_bytes link = Some inode.

(** From [n] until [n'], the task has the socket at this descriptor. *)
Definition linked (n n' : nat) (task : ProcPath) (name : Bytes) (inode : Z) : Prop :=
  name <> lit "." /\ name <> lit ".."
  /\ forall k, (n <= k < n')%nat ->
     exists link, proc_fd_link (procfs k) (task, name) = Ok link /\ names_socket inode link.

Lemma linked_within n n' m m' task name inode :
  linked n n' task name inode -> (n <= m)%nat -> (m' <= n')%nat -> linked m m' task name inode.
Proof. intros (Hd & Hdd & Hl) Hm Hm'. split_and!; [done..|]. intros k Hk. apply Hl. lia. Qed.

Lemma scan_fd_finds task inodes deadline maximum name inode : forall entries count matches r r' found,
  scan_fd_entries procfs instant entries task inodes deadline maximum count matches r = (r', Ok found) ->
  inode ∈ inodes -> linked (readings r) (readings r') task name inode ->
  Ok name ∈ entries \/ is_Some (matches !! inode) -> is_Some (found !! inode).
Proof.
  induction entries as [|entry entries IH]; intros count matches r r' found Hrun Hin Hl Hfind; cbn [scan_fd_entries] in Hrun.
  { checked Hrun. checked Hrun. injection Hrun as _ <-. by destruct Hfind as [?%elem_of_nil|?]. }
  step Hrun x1 r1 H1. took H1. step Hrun x2 r2 H2. took H2. destruct entry as [entry|e].
  2: { passes Hrun He. destruct (e ==? NotFound); [|done]. took Hrun. eapply IH; [exact Hrun|done| |].
       - eapply linked_within; [done|lia|lia].
       - by destruct Hfind as [[|]%elem_of_cons|]; [|left|right]. }
  destruct ((entry ==? lit ".") || (entry ==? lit "..")) eqn:Edots.
  { took Hrun. eapply IH; [exact Hrun|done| |]; [eapply linked_within; [done|lia|lia]|].
    destruct Hfind as [[[= <-]|]%elem_of_cons|]; [|by left|by right]. destruct Hl as (Hd & Hdd & _).
    apply orb_true_iff in Edots as [E|E]; apply (proj1 (eqb_true _ _)) in E; [destruct (Hd E)|destruct (Hdd E)]. }
  passes Hrun He. step Hrun at_fd r3 H3. unfold read_socket_inode_at in H3. step H3 link r4 H4.
  apply look_Ok in H4 as [-> ->]. injection H3 as <- <-.
  destruct (proc_fd_link (procfs (readings r2)) (task, entry)) as [link|e] eqn:Elink; cbn [fmap Result_fmap] in Hrun.
  - step Hrun x3 r3 H3. took H3. took Hrun. cbn [tick readings] in *.
    eapply IH; [exact Hrun|done|eapply linked_within; [done|lia|lia]|].
    destruct Hfind as [[[= <-]|Hf]%elem_of_cons|Hf]; [|by left|].
    + right. destruct Hl as (_ & _ & Hl). destruct (Hl (readings r2)) as (link' & Hlink & Hlen & Hsock); [lia|].
      rewrite Elink in Hlink. injection Hlink as <-. rewrite (proj2 (Z.leb_gt _ _)) by lia. rewrite Hsock.
      rewrite bool_decide_eq_true_2 by done. by rewrite lookup_insert_eq.
    + right. repeat case_match; try done. case_bool_decide; [|done].
      match goal with |- is_Some (<[?i := _]> _ !! _) => destruct (decide (i = inode)) as [->|] end;
        [by rewrite lookup_insert_eq|by rewrite lookup_insert_ne].
  - destruct e; try done. took Hrun. cbn [tick readings] in *.
    eapply IH; [exact Hrun|done|eapply linked_within; [done|cbn [tick readings]; lia|lia]|].
    destruct Hfind as [[[= <-]|Hf]%elem_of_cons|Hf]; [|by left|by right].
    destruct Hl as (_ & _ & Hl). destruct (Hl (readings r2)) as (link' & Hlink & _); [lia|]. congruence.
Qed.

(** At some time from [n] until [n'], the descriptor was the socket. *)
Definition seen (n n' : nat) (task : ProcPath) (name : Bytes) (inode : Z) : Prop :=
  exists k link, (n <= k < n')%nat /\ proc_fd_link (procfs k) (task, name) = Ok link
  /\ socket_inode_from_bytes link = Some inode.

Lemma seen_within n n' m m' task name inode :
  seen m m' task name inode -> (n <= m)%nat -> (m' <= n')%nat -> seen n n' task name inode.
Proof. intros (k & link & Hk & Hl) Hm Hm'. exists k, link. split; [lia|done]. Qed.

Definition matches_seen (n n' : nat) (task : ProcPath) (matches : gmap Z Bytes) : Prop :=
  forall inode name, matches !! inode = Some name -> seen n n' task name inode.

Lemma matches_seen_insert n n' task matches inode name :
  matches_seen n n' task matches -> seen n n' task name inode ->
  matches_seen n n' task (<[inode := name]> matches).
Proof. intros Hm Hs i x [[<- <-]|[_ Hi]]%lookup_insert_Some; [done|by apply Hm]. Qed.

Lemma matches_seen_within n n' m m' task matches :
  matches_seen m m' task matches -> (n <= m)%nat -> (m' <= n')%nat -> matches_seen n n' task matches.
Proof. intros Hm H1 H2 i x Hi. eapply seen_within; [by apply Hm|done..]. Qed.

Lemma scan_fd_sound task inodes deadline maximum n : forall entries count matches r r' found,
  scan_fd_entries procfs instant entries task inodes deadline maximum count matches r = (r', Ok found) ->
  (n <= readings r)%nat -> matches_seen n (readings r) task matches ->
  matches_seen n (readings r') task found.
Proof.
  induction entries as [|entry entries IH]; intros count matches r r' found Hrun Hn Hm; cbn [scan_fd_entries] in Hrun.
  { step Hrun x1 r1 H1. took H1. step Hrun x2 r2 H2. took H2. injection Hrun as <- <-.
    eapply matches_seen_within; [done|lia|lia]. }
  step Hrun x1 r1 H1. took H1. step Hrun x2 r2 H2. took H2. destruct entry as [entry|e].
  2: { passes Hrun He. destruct (e ==? NotFound); [|done]. eapply IH; [exact Hrun|lia|].
       eapply matches_seen_within; [done|lia|lia]. }
  destruct (_ || _).
  { eapply IH; [exact Hrun|lia|]. eapply matches_seen_within; [done|lia|lia]. }
  passes Hrun He. step Hrun at_fd r3 H3. unfold read_socket_inode_at in H3. step H3 link r4 H4.
  apply look_Ok in H4 as [-> ->]. injection H3 as <- <-.
  destruct (proc_fd_link (procfs (readings r2)) (task, entry)) as [link|e] eqn:Elink; cbn [fmap Result_fmap] in Hrun.
  - step Hrun x3 r3 H3. took H3. cbn [tick readings] in *. eapply IH; [exact Hrun|lia|].
    assert (Hm' : matches_seen n (readings r3) task matches) by (eapply matches_seen_within; [done|lia|lia]).
    destruct (SOCKET_LINK_BUFFER_BYTES <=? zlen link); [done|].
    destruct (socket_inode_from_bytes link) as [inode|] eqn:Es; [|done]. case_bool_decide; [|done].
    apply matches_seen_insert; [done|]. unfold least_name.
    assert (Hhere : seen n (readings r3) task entry inode) by (exists (readings r2), link; split; [lia|done]).
    destruct (matches !! inode) as [current|] eqn:Ec; [|done]. destruct (bytes_lt entry current); [done|].
    by apply Hm'.
  - destruct e; try done. eapply IH; [exact Hrun|cbn [tick readings]; lia|].
    eapply matches_seen_within; [done|lia|cbn [tick readings]; lia].
Qed.

Lemma hinted_facts task hint deadline n : forall inodes matches r r' found,
  hinted_inodes procfs instant inodes task hint deadline matches r = (r', Ok (Some found)) ->
  (n <= readings r)%nat -> matches_seen n (readings r) task matches ->
  matches_seen n (readings r') task found
  /\ forall inode, inode ∈ inodes \/ is_Some (matches !! inode) -> is_Some (found !! inode).
Proof.
  induction inodes as [|inode inodes IH]; intros matches r r' found Hrun Hn Hm; cbn [hinted_inodes] in Hrun.
  { injection Hrun as <- <-. split; [done|]. by intros inode [?%elem_of_nil|?]. }
  step Hrun x1 r1 H1. took H1. destruct (hint inode) as [fd_name|]; [|done]. step Hrun link r2 H2.
  apply look_Ok in H2 as [-> ->]. step Hrun x2 r3 H3. took H3. cbn [tick readings] in *.
  case_bool_decide as Hlink; [|done]. destruct (proc_fd_link _ _) as [link|] eqn:El; [|done].
  destruct (IH _ _ _ _ Hrun) as [Hs Hf]; [lia|apply matches_seen_insert|].
  - eapply matches_seen_within; [done|lia|lia].
  - exists (readings r1), link. split; [lia|done].
  - split; [done|]. intros i Hi. apply Hf. destruct (decide (i = inode)) as [->|Hne].
    + right. by rewrite lookup_insert_eq.
    + destruct Hi as [[->|]%elem_of_cons|]; [done|by left|right; by rewrite lookup_insert_ne].
Qed.

Lemma prefer_facts task hint deadline n : forall list matches changed r r' found,
  prefer_hints procfs instant list task hint deadline matches changed r = (r', Ok found) ->
  (n <= readings r)%nat -> matches_seen n (readings r) task matches ->
  matches_seen n (readings r') task found.1
  /\ forall inode, is_Some (matches !! inode) -> is_Some (found.1 !! inode).
Proof.
  induction list as [|[inode fd_name] list IH]; intros matches changed r r' found Hrun Hn Hm; cbn [prefer_hints] in Hrun.
  { injection Hrun as <- <-. done. }
  step Hrun x1 r1 H1. took H1.
  assert (Hm1 : matches_seen n (readings r1) task matches) by (eapply matches_seen_within; [done|lia|lia]).
  destruct (hint inode) as [preferred|]; [|eapply IH; [exact Hrun|lia|done]].
  destruct (fd_name ==? preferred); [eapply IH; [exact Hrun|lia|done]|].
  step Hrun link r2 H2. apply look_Ok in H2 as [-> ->]. step Hrun x2 r3 H3. took H3. cbn [tick readings] in *.
  assert (Hm3 : matches_seen n (readings r3) task matches) by (eapply matches_seen_within; [done|lia|lia]).
  case_bool_decide as Hlink; [|eapply IH; [exact Hrun|lia|done]].
  destruct (proc_fd_link _ _) as [link|] eqn:El; [|done].
  destruct (IH _ _ _ _ _ Hrun) as [Hs Hf]; [lia|apply matches_seen_insert; [done|]|].
  - exists (readings r1), link. split; [lia|done].
  - split; [done|]. intros i Hi. apply Hf. destruct (decide (i = inode)) as [->|Hne];
      [by rewrite lookup_insert_eq|by rewrite lookup_insert_ne].
Qed.

(** *** Enumeration *)

Lemma process_entries_all deadline : forall entries ids r r' found,
  process_id_entries instant entries deadline ids r = (r', Ok found) ->
  forall name id, Ok name ∈ entries /\ numeric_name name = Some id \/ id ∈ ids -> id ∈ found.
Proof.
  induction entries as [|entry entries IH]; intros ids r r' found Hrun name id Hid; cbn [process_id_entries] in Hrun.
  { injection Hrun as _ <-. by destruct Hid as [[?%elem_of_nil _]|?]. }
  checked Hrun. passes Hrun He. destruct entry as [entry|]; [|done]. injection He as <-.
  destruct (numeric_name entry) as [i|] eqn:En.
  - passes Hrun Hb. eapply (IH _ _ _ _ Hrun name). rewrite elem_of_app, list_elem_of_singleton.
    destruct Hid as [[[[= <-]|Hin]%elem_of_cons Hn]|Hid]; [right; right; congruence|by left|right; by left].
  - eapply (IH _ _ _ _ Hrun name).
    destruct Hid as [[[[= <-]|Hin]%elem_of_cons Hn]|Hid]; [congruence|by left|by right].
Qed.

Lemma process_ids_Ok deadline r r' ids :
  enumerate_process_ids procfs instant deadline r = (r', Ok ids) ->
  exists k entries, (readings r <= k < readings r')%nat /\ proc_processes (procfs k) = Ok entries
  /\ forall name id, Ok name ∈ entries -> numeric_name name = Some id -> id ∈ ids.
Proof.
  unfold enumerate_process_ids. intros Hrun. step Hrun x1 r1 H1. took H1. step Hrun listing r2 H2.
  apply look_Ok in H2 as [-> ->]. passes Hrun He. step Hrun found r3 H3. took H3. injection Hrun as <- <-.
  cbn [tick readings] in *. destruct (proc_processes (procfs (readings r1))) as [entries|] eqn:Ep; [|done].
  injection He as <-. exists (readings r1), entries. split_and!; [lia|lia|done|]. intros name id Hin Hn.
  rewrite merge_sort_Permutation. eapply process_entries_all; [exact H3|]. left. eauto.
Qed.

Lemma task_entries_all deadline : forall entries ids n r r' found,
  task_id_entries instant entries deadline ids n r = (r', Ok found) ->
  forall name id, Ok name ∈ entries /\ numeric_name name = Some id \/ id ∈ ids -> id ∈ found.1.
Proof.
  induction entries as [|entry entries IH]; intros ids n r r' found Hrun name id Hid; cbn [task_id_entries] in Hrun.
  { injection Hrun as _ <-. by destruct Hid as [[?%elem_of_nil _]|?]. }
  step Hrun x1 r1 H1. destruct entry as [entry|[]]; try done.
  - destruct (numeric_name entry) as [i|] eqn:En.
    + passes Hrun Hc. passes Hrun Hb. eapply (IH _ _ _ _ _ Hrun name). rewrite elem_of_app, list_elem_of_singleton.
      destruct Hid as [[[[= <-]|Hin]%elem_of_cons Hn]|Hid]; [right; right; congruence|by left|right; by left].
    + eapply (IH _ _ _ _ _ Hrun name).
      destruct Hid as [[[[= <-]|Hin]%elem_of_cons Hn]|Hid]; [congruence|by left|by right].
  - eapply (IH _ _ _ _ _ Hrun name). destruct Hid as [[[[=]|Hin]%elem_of_cons Hn]|Hid]; [by left|by right].
Qed.

(** From [n] until [n'], the task is listed. *)
Definition task_listed (n n' : nat) (process_id tid : Z) : Prop :=
  forall k, (n <= k < n')%nat -> exists entries name,
  proc_tasks (procfs k) process_id = Ok entries /\ Ok name ∈ entries /\ numeric_name name = Some tid.

Lemma task_ids_Ok process_id tid deadline n r r' found :
  enumerate_task_ids procfs instant process_id deadline n r = (r', Ok found) ->
  task_listed (readings r) (readings r') process_id tid ->
  exists ids, found.1 = Some ids /\ tid ∈ ids.
Proof.
  unfold enumerate_task_ids. intros Hrun Hl. step Hrun listing r1 H1. apply look_Ok in H1 as [-> ->].
  assert (Hnow : exists entries name, proc_tasks (procfs (readings r)) process_id = Ok entries
    /\ Ok name ∈ entries /\ numeric_name name = Some tid).
  { apply Hl. enough (S (readings r) <= readings r')%nat by lia.
    change (S (readings r)) with (readings (tick r)).
    destruct (proc_tasks _ _); [|destruct (procfs_enumeration_may_indicate_disappearance _)]; by took Hrun. }
  destruct Hnow as (entries & name & Hp & Hin & Hn). rewrite Hp in Hrun. step Hrun tasks r2 H2.
  pose proof (task_entries_all _ _ _ _ _ _ _ H2 name tid (or_introl (conj Hin Hn))) as Ht.
  rewrite <-(merge_sort_Permutation Z.le tasks.1) in Ht.
  destruct (merge_sort Z.le tasks.1) as [|id ids]; [by apply elem_of_nil in Ht|].
  injection Hrun as _ <-. by eexists.
Qed.
End Facts.
