(* ===== verification/Owners.v ===== *)
(** * Which processes own a socket

    [application.rs] of the daemon, lines 581 to 683 and 1415 to 2102: the scan
    of all tasks below [/proc] for the descriptors of a batch of sockets, by one
    or two threads, and the snapshot of the owners that it gives. *)

From S2P Require Import Prelude Text Net Application Model State Netlink Decision Capture SocketDiag Pinning Procfs.
Local Open Scope Z_scope.

Abbreviation MAX_ATTRIBUTION_BATCH_SIZE := 32 (only parsing).
Abbreviation PARALLEL_OWNER_SCAN_MINIMUM_TASKS := 64 (only parsing).

(** ** Data *)

Record SocketOwnerKey : Type := mkKey { key_inode : Z; key_uid : Z }.

#[export] Instance SocketOwnerKey_eq_dec : EqDecision SocketOwnerKey.
Proof. solve_decision. Defined.
#[export] Instance SocketOwnerKey_countable : Countable SocketOwnerKey.
Proof.
  by refine (inj_countable' (fun k => (key_inode k, key_uid k)) (fun '(i, u) => mkKey i u) _); intros [].
Defined.

(** The derived order of keys. *)
Definition socket_key_le (a b : SocketOwnerKey) : Prop :=
  a.(key_inode) < b.(key_inode) \/ a.(key_inode) = b.(key_inode) /\ a.(key_uid) <= b.(key_uid).
#[export] Instance socket_key_le_dec : RelDecision socket_key_le.
Proof. intros a b. unfold socket_key_le. apply _. Defined.

(** The directory of the task is [TaskPath ot_process_id ot_tid], and the path
    of its descriptor is [ot_fd_name] there. *)
Record OwnerTask : Type := mkOwner {
  ot_process_id : Z;
  ot_tid : Z;
  ot_fd_name : Bytes
}.

#[export] Instance OwnerTask_eq_dec : EqDecision OwnerTask.
Proof. solve_decision. Defined.

Definition ot_path (owner : OwnerTask) : ProcPath := TaskPath owner.(ot_process_id) owner.(ot_tid).

(** The order of [sort_unstable_by_key]; a task is listed once. *)
Definition owner_le (a b : OwnerTask) : Prop :=
  a.(ot_process_id) < b.(ot_process_id) \/ a.(ot_process_id) = b.(ot_process_id) /\ a.(ot_tid) <= b.(ot_tid).
#[export] Instance owner_le_dec : RelDecision owner_le.
Proof. intros a b. unfold owner_le. apply _. Defined.

Record OwnerSnapshot : Type := mkSnapshot {
  unique : gmap SocketOwnerKey (list OwnerTask);
  failures : gmap SocketOwnerKey string;
  snapshot_processes : gmap SocketOwnerKey (gset Z)
}.
Definition OwnerSnapshot_default : OwnerSnapshot := mkSnapshot ∅ ∅ ∅.

Abbreviation OwnerFdHints := (gmap (Z * Z) (gmap SocketOwnerKey Bytes)) (only parsing).

Record TaskFdHints : Type := mkTaskFdHints {
  discovered : gmap SocketOwnerKey Bytes;
  previous : option (gmap SocketOwnerKey Bytes)
}.
Definition TaskFdHints_get (self : TaskFdHints) (key : SocketOwnerKey) : option Bytes :=
  match (hints ← self.(previous); hints !! key) with
  | Some name => Some name
  | None => self.(discovered) !! key
  end.

Record OwnerScanLimits : Type := mkLimits {
  maximum_fds : Z;
  maximum_owner_records : Z;
  maximum_tasks : Z;
  parallel_task_threshold : Z
}.

Record OwnerTaskGroup : Type := mkGroup { group_process_id : Z; task_ids : list Z }.

#[export] Instance OwnerTaskGroup_eq_dec : EqDecision OwnerTaskGroup.
Proof. solve_decision. Defined.

Record OwnerScanAccumulator : Type := mkAccumulator {
  owners : gmap SocketOwnerKey (gmap Z (list OwnerTask));
  observed_processes : gmap SocketOwnerKey (gset Z);
  ambiguous_targets : gset SocketOwnerKey;
  owner_records : Z
}.
Definition OwnerScanAccumulator_default : OwnerScanAccumulator := mkAccumulator ∅ ∅ ∅ 0.

Definition set_owners v a := mkAccumulator v a.(observed_processes) a.(ambiguous_targets) a.(owner_records).
Definition set_observed v a := mkAccumulator a.(owners) v a.(ambiguous_targets) a.(owner_records).
Definition set_ambiguous v a := mkAccumulator a.(owners) a.(observed_processes) v a.(owner_records).
Definition set_records v a := mkAccumulator a.(owners) a.(observed_processes) a.(ambiguous_targets) v.

(** ** The accumulator *)

Definition record (key : SocketOwnerKey) (owner : OwnerTask) (maximum_records : Z)
    : ST OwnerScanAccumulator OwnerError unit :=
  modify (fun a => set_observed
    (<[key := default ∅ (a.(observed_processes) !! key) ∪ {[owner.(ot_process_id)]}]> a.(observed_processes)) a) ;;
  a ← get;
  if bool_decide (key ∈ a.(ambiguous_targets)) then mret tt
  else
    let process_owners := default ∅ (a.(owners) !! key) in
    modify (set_owners (<[key := process_owners]> a.(owners))) ;;
    if negb (bool_decide (process_owners = ∅)) && is_none (process_owners !! owner.(ot_process_id)) then
      modify (fun a => set_ambiguous (a.(ambiguous_targets) ∪ {[key]})
                         (set_owners (<[key := ∅]> a.(owners)) a))
    else
      owner_records ← lift (ok_or (Failed "batched socket-owner record count overflowed")
                              (usize_checked_add a.(owner_records) 1));
      modify (set_records owner_records) ;;
      lift (ensure (owner_records <=? maximum_records) (Failed "batched socket-owner record bound exceeded")) ;;
      modify (fun a => set_owners
        (<[key := <[owner.(ot_process_id)
                      := default [] (process_owners !! owner.(ot_process_id)) ++ [owner]]> process_owners]>
           a.(owners)) a).

(** ** The tasks of one scan *)

Definition ordered_targets (targets : gset SocketOwnerKey) : list SocketOwnerKey :=
  merge_sort socket_key_le (elements targets).

(** The inodes of the targets of a user, if there are any. *)
Definition socket_targets_by_uid (targets : gset SocketOwnerKey) (uid : Z) : option (list Z) :=
  match key_inode <$> List.filter (fun target => target.(key_uid) =? uid) (ordered_targets targets) with
  | [] => None
  | inodes => Some inodes
  end.

(** Both sums of [owner_task_partition] start at zero. *)
Definition owner_task_partition (groups : list OwnerTaskGroup) (minimum_tasks : Z)
    : option (list OwnerTaskGroup * list OwnerTaskGroup) :=
  let total := foldr (fun group n => zlen group.(task_ids) + n) 0 groups in
  if (total <? minimum_tasks) || (zlen groups <? 2) then None
  else
    let '(first, second, _, _) :=
      foldl (fun acc group =>
        let '(first, second, load0, load1) := acc in
        let size := zlen group.(task_ids) in
        if load1 <? load0 then (first, second ++ [group], load0, load1 + size)
        else (first ++ [group], second, load0 + size, load1)) ([], [], 0, 0) groups in
    Some (first, second).

(** A scan, and what both of its threads share. *)
Record Scan : Type := mkScan { scan_resolver : Resolver; scan_accumulator : OwnerScanAccumulator }.

Definition on_resolver {E A} (m : ST Resolver E A) : ST Scan E A := fun s =>
  let '(r, result) := m s.(scan_resolver) in (mkScan r s.(scan_accumulator), result).
Definition on_accumulator {E A} (m : ST OwnerScanAccumulator E A) : ST Scan E A := fun s =>
  let '(a, result) := m s.(scan_accumulator) in (mkScan s.(scan_resolver) a, result).

Section Scanning.
Context (procfs : nat -> Procfs) (instant : nat -> Z).
Context (targets : gset SocketOwnerKey) (deadline : Z) (limits : OwnerScanLimits)
        (previous_hints : option OwnerFdHints).

Definition task_socket_fds_for_batch (process_id task_id : Z) (preferred_fd_names : TaskFdHints)
    : ST Resolver OwnerError (option (Z * gmap Z Bytes)) :=
  let task := TaskPath process_id task_id in
  observed ← attempt (read_process_fs_uid procfs instant task deadline);
  match observed with
  | Err error =>
      disappeared ← path_disappeared procfs task;
      if disappeared : bool then mret None else lift (Err error)
  | Ok observed_uid =>
      match socket_targets_by_uid targets observed_uid with
      | None => mret None
      | Some inodes =>
          let hint := fun inode => TaskFdHints_get preferred_fd_names (mkKey inode observed_uid) in
          hinted ← hinted_task_socket_fds_for_inodes procfs instant task observed_uid inodes hint deadline;
          match hinted with
          | Some matches => mret (Some (observed_uid, matches))
          | None =>
              matches ← task_socket_fds_for_inodes procfs instant task process_id task_id observed_uid inodes
                          deadline limits.(maximum_fds);
              matches ← prefer_verified_socket_fd_hints procfs instant task observed_uid matches hint deadline;
              mret (Some (observed_uid, matches))
          end
      end
  end.

(** The matches of a task, in the order of their inodes. *)
Fixpoint record_matches (matches : list (Z * Bytes)) (process_id tid observed_uid : Z)
    (preferred : gmap SocketOwnerKey Bytes) : ST Scan OwnerError (gmap SocketOwnerKey Bytes) :=
  match matches with
  | [] => mret preferred
  | (inode, fd_name) :: rest =>
      on_resolver (check_deadline instant deadline) ;;
      let key := mkKey inode observed_uid in
      on_accumulator (record key (mkOwner process_id tid fd_name) limits.(maximum_owner_records)) ;;
      record_matches rest process_id tid observed_uid
        (match preferred !! key with Some _ => preferred | None => <[key := fd_name]> preferred end)
  end.

(** One round of the inner loop of [scan_owner_partition]: the descriptor names
    that the thread has discovered so far. *)
Definition scan_task (process_id tid : Z) (preferred : gmap SocketOwnerKey Bytes)
    : ST Scan OwnerError (gmap SocketOwnerKey Bytes) :=
  on_resolver (check_deadline instant deadline) ;;
  found ← on_resolver (task_socket_fds_for_batch process_id tid
            (mkTaskFdHints preferred (hints ← previous_hints; hints !! (process_id, tid))));
  match found with
  | None => mret preferred
  | Some (observed_uid, matches) => record_matches (btree_entries matches) process_id tid observed_uid preferred
  end.

(** A thread that runs [scan_owner_partition]: it stops at its first error, and
    looks at the clock when it is through. *)
Record Worker : Type := mkWorker {
  pending : list (Z * Z);
  preferred_fd_names : gmap SocketOwnerKey Bytes;
  finished : option (Result OwnerError unit)
}.

Definition start_worker (groups : list OwnerTaskGroup) : Worker :=
  mkWorker (groups ≫= fun group => (fun tid => (group.(group_process_id), tid)) <$> group.(task_ids)) ∅ None.

Definition worker_step (s : Scan) (w : Worker) : Scan * Worker :=
  match w.(finished) with
  | Some _ => (s, w)
  | None =>
      match w.(pending) with
      | [] =>
          let '(s, result) := on_resolver (check_deadline instant deadline) s in
          (s, mkWorker [] w.(preferred_fd_names) (Some result))
      | (process_id, tid) :: rest =>
          match scan_task process_id tid w.(preferred_fd_names) s with
          | (s, Ok preferred) => (s, mkWorker rest preferred None)
          | (s, Err error) => (s, mkWorker rest w.(preferred_fd_names) (Some (Err error)))
          end
      end
  end.

Fixpoint worker_steps (n : nat) (s : Scan) (w : Worker) : Scan * Worker :=
  match n with
  | O => (s, w)
  | S n => let '(s, w) := worker_step s w in worker_steps n s w
  end.
Definition worker_finish (s : Scan) (w : Worker) : Scan * Worker := worker_steps (S (length w.(pending))) s w.

Definition worker_result (w : Worker) : Result OwnerError unit :=
  default (Err (Failed "bounded procfs owner-scan worker panicked")) w.(finished).

(** The whole loop, without another thread. *)
Definition scan_owner_partition (groups : list OwnerTaskGroup) : ST Scan OwnerError unit := fun s =>
  let '(s, w) := worker_finish s (start_worker groups) in (s, worker_result w).

(** Two threads, of which the schedule says who is next; in the end each runs to
    its end.  A task is scanned in one go: the lock is held for its records, and
    what the other thread reads meanwhile does not depend on it. *)
Fixpoint interleave (schedule : list bool) (s : Scan) (helper current : Worker) : Scan * Worker * Worker :=
  match schedule with
  | [] =>
      let '(s, current) := worker_finish s current in
      let '(s, helper) := worker_finish s helper in
      (s, helper, current)
  | true :: schedule => let '(s, helper) := worker_step s helper in interleave schedule s helper current
  | false :: schedule => let '(s, current) := worker_step s current in interleave schedule s helper current
  end.

(** [spawned] is the schedule, unless the thread cannot be started. *)
Definition scan_owner_task_groups (groups : list OwnerTaskGroup) (workers : Z) (spawned : option (list bool))
    : ST Resolver OwnerError OwnerScanAccumulator := fun r =>
  let s := mkScan r OwnerScanAccumulator_default in
  let partition :=
    if workers =? 2 then owner_task_partition groups limits.(parallel_task_threshold) else None in
  let '(s, result) :=
    match partition with
    | Some (first, second) =>
        match spawned with
        | None => (s, Err (Failed "cannot start bounded procfs owner-scan worker"))
        | Some schedule =>
            let '(s, helper, current) := interleave schedule s (start_worker first) (start_worker second) in
            (s, worker_result current ;; worker_result helper)
        end
    | None => scan_owner_partition groups s
    end in
  match result with
  | Err error => (s.(scan_resolver), Err error)
  | Ok _ =>
      (check_deadline instant deadline ;; mret s.(scan_accumulator)) s.(scan_resolver)
  end.
End Scanning.

(** ** The snapshot *)

Abbreviation DAEMON_OWNS := "the firewall daemon unexpectedly owns the attributed application socket"%string (only parsing).
Abbreviation SHARED := "socket is shared by multiple processes; attribution is ambiguous"%string (only parsing).
Abbreviation NO_OWNER := "no process owns the attributed socket inode"%string (only parsing).

(** What the snapshot says of one target. *)
Definition finish_target (daemon_owned : gset SocketOwnerKey) (accumulated : OwnerScanAccumulator)
    (target : SocketOwnerKey) : string + list OwnerTask :=
  if bool_decide (target ∈ daemon_owned) then inl DAEMON_OWNS
  else if bool_decide (target ∈ accumulated.(ambiguous_targets)) then inl SHARED
  else
    match accumulated.(owners) !! target with
    | None => inl NO_OWNER
    | Some process_owners =>
        match map_to_list process_owners with
        | [(_, owner_tasks)] => inr (merge_sort owner_le owner_tasks)
        | _ => inl SHARED
        end
    end.

Definition finish_owner_snapshot (targets daemon_owned : gset SocketOwnerKey)
    (accumulated : OwnerScanAccumulator) : OwnerSnapshot :=
  foldl (fun snapshot target =>
    match finish_target daemon_owned accumulated target with
    | inl failure => mkSnapshot snapshot.(unique) (<[target := failure]> snapshot.(failures)) snapshot.(snapshot_processes)
    | inr owner_tasks => mkSnapshot (<[target := owner_tasks]> snapshot.(unique)) snapshot.(failures) snapshot.(snapshot_processes)
    end) (mkSnapshot ∅ ∅ accumulated.(observed_processes)) (ordered_targets targets).

Section Snapshot.
Context (procfs : nat -> Procfs) (instant : nat -> Z) (daemon_process_id : option Z).

Definition daemon_owned_targets (process : ProcPath) (targets : gset SocketOwnerKey) (deadline maximum_fds : Z)
    : ST Resolver OwnerError (gset SocketOwnerKey) :=
  uid_before ← read_process_fs_uid procfs instant process deadline;
  match socket_targets_by_uid targets uid_before with
  | None => mret ∅
  | Some inodes =>
      descriptors ← look procfs (fun fs => proc_fds fs process);
      descriptors ← lift (map_err (fun _ => Failed "cannot inspect the firewall daemon descriptor table") descriptors);
      matches ← scan_fd_entries_for_inodes procfs instant descriptors process inodes deadline maximum_fds;
      (if bool_decide (matches = ∅) then mret tt
       else
         uid_after ← read_process_fs_uid procfs instant process deadline;
         lift (ensure (uid_before =? uid_after)
                 (Failed "firewall daemon filesystem UID changed during descriptor scan"))) ;;
      mret (list_to_set ((fun inode => mkKey inode uid_before) <$> (map_to_list matches).*1))
  end.

Definition daemon_owned_targets_for_batch (targets : gset SocketOwnerKey) (deadline maximum_fds : Z)
    : ST Resolver OwnerError (gset SocketOwnerKey) :=
  match daemon_process_id with
  | None => mret ∅
  | Some process_id => daemon_owned_targets (ProcessPath process_id) targets deadline maximum_fds
  end.

Fixpoint enumerate_groups (process_ids : list Z) (deadline maximum_tasks : Z) (groups : list OwnerTaskGroup)
    (task_count : Z) : ST Resolver OwnerError (list OwnerTaskGroup) :=
  match process_ids with
  | [] => mret groups
  | process_id :: rest =>
      check_deadline instant deadline ;;
      if bool_decide (daemon_process_id = Some process_id)
      then enumerate_groups rest deadline maximum_tasks groups task_count
      else
        tasks ← with_error snd (enumerate_task_ids procfs instant process_id deadline task_count);
        match tasks with
        | (None, task_count) => enumerate_groups rest deadline maximum_tasks groups task_count
        | (Some task_ids, task_count) =>
            lift (ensure (task_count <=? maximum_tasks) (Failed "procfs task bound exceeded")) ;;
            enumerate_groups rest deadline maximum_tasks (groups ++ [mkGroup process_id task_ids]) task_count
        end
  end.

Definition enumerate_owner_task_groups (deadline maximum_tasks : Z)
    : ST Resolver OwnerError (list OwnerTaskGroup) :=
  process_ids ← enumerate_process_ids procfs instant deadline;
  groups ← enumerate_groups process_ids deadline maximum_tasks [] 0;
  check_deadline instant deadline ;;
  mret groups.

(** [workers] and [spawned] are what the threads of this scan do. *)
Definition resolve_owner_snapshot_with_hints (targets : gset SocketOwnerKey) (deadline : Z)
    (limits : OwnerScanLimits) (workers : Z) (spawned : option (list bool))
    (previous_hints : option OwnerFdHints) : ST Resolver OwnerError OwnerSnapshot :=
  lift (ensure (negb (bool_decide (targets = ∅))) (Failed "socket-owner batch is empty")) ;;
  lift (ensure (Z.of_nat (size targets) <=? MAX_ATTRIBUTION_BATCH_SIZE)
          (Failed "socket-owner batch exceeds its fixed bound")) ;;
  lift (ensure (0 <? limits.(maximum_fds)) (Failed "per-task fd bound is zero")) ;;
  lift (ensure (0 <? limits.(maximum_owner_records)) (Failed "batched socket-owner record bound is zero")) ;;
  lift (ensure ((0 <? limits.(maximum_tasks)) && (limits.(maximum_tasks) <=? MAX_PROC_ENTRIES))
          (Failed "invalid procfs task bound")) ;;
  lift (ensure (in_range 1 2 workers) (Failed "invalid owner-scan worker count")) ;;
  daemon_before ← daemon_owned_targets_for_batch targets deadline limits.(maximum_fds);
  groups ← enumerate_owner_task_groups deadline limits.(maximum_tasks);
  accumulated ← scan_owner_task_groups procfs instant targets deadline limits previous_hints groups workers spawned;
  daemon_after ← daemon_owned_targets_for_batch targets deadline limits.(maximum_fds);
  check_deadline instant deadline ;;
  mret (finish_owner_snapshot targets (daemon_before ∪ daemon_after) accumulated).

Definition strict_limits : OwnerScanLimits :=
  mkLimits MAX_FDS_PER_TASK MAX_PROC_ENTRIES MAX_PROC_ENTRIES PARALLEL_OWNER_SCAN_MINIMUM_TASKS.
End Snapshot.
