(* ===== verification/OwnerFacts.v ===== *)
(** * What an owner snapshot shows

    Facts about the scans of [Owners]: a task that has a socket open for the
    time of a scan is in its snapshot, in every interleaving of the two scanning
    threads, and a snapshot that names a unique process has seen no other. *)

From S2P Require Import Prelude Text Net Application Model State StateFacts Netlink Decision Capture SocketDiag.
From S2P Require Import Pinning Procfs Owners.
Local Open Scope Z_scope.

(** ** The accumulator *)

Definition listed (a : OwnerScanAccumulator) (key : SocketOwnerKey) (owner : OwnerTask) : Prop :=
  exists process_owners tasks, owners a !! key = Some process_owners
  /\ process_owners !! ot_process_id owner = Some tasks /\ owner ∈ tasks.

(** The owner is listed, or its socket is known to be shared. *)
Definition tracked (a : OwnerScanAccumulator) (key : SocketOwnerKey) (owner : OwnerTask) : Prop :=
  key ∈ ambiguous_targets a \/ listed a key owner.

(** At most one process is kept for a socket. *)
Definition accumulator_ok (a : OwnerScanAccumulator) : Prop :=
  forall key process_owners, owners a !! key = Some process_owners ->
  process_owners = ∅
  \/ exists process_id tasks, process_owners = {[process_id := tasks]}
     /\ Forall (fun o => ot_process_id o = process_id) tasks.

Definition grows (a a' : OwnerScanAccumulator) : Prop :=
  (accumulator_ok a -> accumulator_ok a')
  /\ forall key owner, tracked a key owner -> tracked a' key owner.

#[export] Instance grows_preorder : PreOrder grows.
Proof. split; [by intros a|]. intros a b c [H1 H2] [H3 H4]. split; eauto. Qed.

Section Record.
Context (key : SocketOwnerKey) (owner : OwnerTask) (maximum : Z).

(** The map of a socket is replaced by one with the same tasks or more. *)
Lemma grows_owners a process_owners n :
  (forall old, owners a !! key = Some old -> forall process_id tasks, old !! process_id = Some tasks ->
     exists more, process_owners !! process_id = Some (tasks ++ more)) ->
  (accumulator_ok a -> process_owners = ∅
     \/ exists process_id tasks, process_owners = {[process_id := tasks]}
        /\ Forall (fun o => ot_process_id o = process_id) tasks) ->
  grows a (set_records n (set_owners (<[key := process_owners]> (owners a)) a)).
Proof.
  intros Hmore Hok. split.
  - intros Ha k po Hk. cbn in Hk. apply lookup_insert_Some in Hk as [[<- <-]|[_ Hk]]; [by apply Hok|by apply (Ha k)].
  - intros k o [Hamb|(po & tasks & Hpo & Ht & Hin)]; [by left|]. right. unfold listed. cbn.
    destruct (decide (k = key)) as [->|]; [|rewrite lookup_insert_ne by done; eauto].
    rewrite lookup_insert_eq. destruct (Hmore po Hpo _ _ Ht) as [more Hm].
    eexists _, _. split_and!; [done|exact Hm|]. apply elem_of_app. by left.
Qed.

Lemma record_spec a :
  grows a (record key owner maximum a).1
  /\ forall x, (record key owner maximum a).2 = Ok x -> tracked (record key owner maximum a).1 key owner.
Proof.
  unfold record. rewrite run_modify, run_get. set (a1 := set_observed _ a).
  assert (H1 : grows a a1) by done. revert H1. generalize a1. clear a1. intros a1 H1.
  case_bool_decide as Hamb; [split; [done|]; by left|]. set (po := default ∅ (owners a1 !! key)).
  assert (Hsame : forall old, owners a1 !! key = Some old -> old = po) by (intros old Ho; unfold po; by rewrite Ho).
  assert (Hpo : accumulator_ok a1 -> po = ∅ \/ exists process_id tasks, po = {[process_id := tasks]}
      /\ Forall (fun o => ot_process_id o = process_id) tasks).
  { intros Ha. unfold po. destruct (owners a1 !! key) eqn:E; [by apply (Ha key)|by left]. }
  assert (Hkeep : forall n, grows a1 (set_records n (set_owners (<[key := po]> (owners a1)) a1))).
  { intros n. apply grows_owners; [|done]. intros old ->%Hsame p t Ht. exists []. by rewrite app_nil_r. }
  rewrite run_modify. destruct (negb _ && _) eqn:Ebranch.
  { split; [|by left; set_solver]. etrans; [exact H1|]. split.
    - intros Ha k q Hk. cbn in Hk. rewrite insert_insert_eq in Hk. apply lookup_insert_Some in Hk as [[_ <-]|[_ Hk]]; [by left|by apply (Ha k)].
    - intros k o [Hk|(q & t & Hq & Ht & Hin)]; [left; cbn; set_solver|]. cbn.
      destruct (decide (k = key)) as [->|]; [left; cbn; set_solver|]. right. exists q, t.
      cbn. rewrite !lookup_insert_ne by done. done. }
  rewrite run_lift. destruct (ok_or _ _) as [n|e]; cbn [fst snd].
  2: { split; [|done]. etrans; [exact H1|]. exact (Hkeep (owner_records a1)). }
  rewrite run_modify, run_lift. destruct (n <=? maximum); cbn [ensure fst snd].
  2: { split; [|done]. etrans; [exact H1|]. exact (Hkeep n). }
  cbn [modify fst snd set_records set_owners owners ambiguous_targets]. rewrite insert_insert_eq.
  set (tasks := default [] (po !! ot_process_id owner) ++ [owner]). split.
  - etrans; [exact H1|].
    apply (grows_owners a1 (<[ot_process_id owner := tasks]> po) n); [|].
    + intros old ->%Hsame p t Ht. destruct (decide (p = ot_process_id owner)) as [->|].
      * rewrite lookup_insert_eq. unfold tasks. rewrite Ht. by eexists.
      * rewrite lookup_insert_ne by done. exists []. by rewrite app_nil_r.
    + intros Ha. right. destruct (Hpo Ha) as [He|(p & t & He & Hf)].
      * exists (ot_process_id owner), [owner]. unfold tasks. rewrite He, lookup_empty.
        split; [by rewrite insert_empty|by constructor].
      * rewrite He in Ebranch. rewrite bool_decide_eq_false_2 in Ebranch by apply map_non_empty_singleton.
        cbn [negb andb] in Ebranch. apply is_none_false in Ebranch as [t' Ht'].
        apply lookup_singleton_Some in Ht' as [-> ->]. exists (ot_process_id owner), tasks.
        unfold tasks. rewrite He, lookup_singleton_eq, insert_singleton_eq.
        split; [done|].
        cbn. apply Forall_app. split; [done|by constructor].
  - intros _ _. right. eexists _, _. cbn. rewrite lookup_insert_eq. split_and!; [done|by rewrite lookup_insert_eq|].
    unfold tasks. apply elem_of_app. right. by apply list_elem_of_singleton.
Qed.

(** Nothing else is listed. *)
Lemma record_listed a k o :
  listed (record key owner maximum a).1 k o -> listed a k o \/ k = key /\ o = owner.
Proof.
  unfold record. rewrite run_modify, run_get. set (a1 := set_observed _ a).
  change (listed a k o) with (listed a1 k o). clearbody a1. case_bool_decide; [by left|].
  set (po := default ∅ (owners a1 !! key)).
  assert (Hkeep : forall n, listed (set_records n (set_owners (<[key := po]> (owners a1)) a1)) k o -> listed a1 k o).
  { intros n (q & t & Hq & Ht & Hin). cbn in Hq. apply lookup_insert_Some in Hq as [[<- <-]|[_ Hq]].
    - unfold po in Ht. destruct (owners a1 !! key) as [q|] eqn:E; [by exists q, t|].
      cbn [from_option] in Ht. by rewrite lookup_empty in Ht.
    - by exists q, t. }
  rewrite run_modify. destruct (negb _ && _).
  { intros (q & t & Hq & Ht & Hin). cbn in Hq. rewrite insert_insert_eq in Hq.
    apply lookup_insert_Some in Hq as [[_ <-]|[_ Hq]]; [by rewrite lookup_empty in Ht|left; by exists q, t]. }
  rewrite run_lift. destruct (ok_or _ _) as [n|e]; [|intros Hl; left; exact (Hkeep (owner_records a1) Hl)].
  rewrite run_modify, run_lift. destruct (n <=? maximum); [|intros Hl; left; exact (Hkeep n Hl)].
  intros (q & t & Hq & Ht & Hin). cbn in Hq. rewrite insert_insert_eq in Hq.
  apply lookup_insert_Some in Hq as [[<- <-]|[_ Hq]]; [|left; by exists q, t].
  apply lookup_insert_Some in Ht as [[Hp <-]|[_ Ht]].
  - apply elem_of_app in Hin as [Hin| ->%list_elem_of_singleton]; [|by right].
    left. unfold po in Hin. destruct (owners a1 !! key) as [q|] eqn:E; cbn [from_option id] in Hin.
    + destruct (q !! ot_process_id owner) as [t|] eqn:Et; [|by apply elem_of_nil in Hin].
      exists q, t. rewrite <-Hp. done.
    + rewrite lookup_empty in Hin. by apply elem_of_nil in Hin.
  - left. unfold po in Ht. destruct (owners a1 !! key) as [q|] eqn:E; [by exists q, t|].
      cbn [from_option] in Ht. by rewrite lookup_empty in Ht.
Qed.
End Record.

(** ** A scan goes on *)

Definition goes_forth (s s' : Scan) : Prop :=
  later (scan_resolver s) (scan_resolver s') /\ grows (scan_accumulator s) (scan_accumulator s').
#[export] Instance goes_forth_preorder : PreOrder goes_forth.
Proof. split; [intros s; split; reflexivity|]. intros a b c [H1 H2] [H3 H4]. split; by etrans. Qed.

Lemma always_on_resolver {E A} (m : ST Resolver E A) : always later m -> always goes_forth (on_resolver m).
Proof.
  intros Hm s. specialize (Hm (scan_resolver s)). unfold on_resolver. destruct (m _). by split.
Qed.
Lemma always_on_accumulator {E A} (m : ST OwnerScanAccumulator E A) :
  always grows m -> always goes_forth (on_accumulator m).
Proof.
  intros Hm s. specialize (Hm (scan_accumulator s)). unfold on_accumulator. destruct (m _). split; [reflexivity|done].
Qed.

Lemma on_resolver_Ok {E A} (m : ST Resolver E A) s s' a :
  on_resolver m s = (s', Ok a) ->
  m (scan_resolver s) = (scan_resolver s', Ok a) /\ scan_accumulator s' = scan_accumulator s.
Proof. unfold on_resolver. destruct (m _). intros [= <- ->]. done. Qed.
Lemma on_accumulator_Ok {E A} (m : ST OwnerScanAccumulator E A) s s' a :
  on_accumulator m s = (s', Ok a) ->
  m (scan_accumulator s) = (scan_accumulator s', Ok a) /\ scan_resolver s' = scan_resolver s.
Proof. unfold on_accumulator. destruct (m _). intros [= <- ->]. done. Qed.

Section Scans.
Context (procfs : nat -> Procfs) (instant : nat -> Z).
Context (targets : gset SocketOwnerKey) (deadline : Z) (limits : OwnerScanLimits)
        (previous_hints : option OwnerFdHints).

Lemma task_fds_batch_later process_id tid hints :
  always later (task_socket_fds_for_batch procfs instant targets deadline limits process_id tid hints).
Proof. unfold task_socket_fds_for_batch. goes_on. Qed.

Lemma record_matches_forth process_id tid uid : forall matches preferred,
  always goes_forth (record_matches instant deadline limits matches process_id tid uid preferred).
Proof.
  induction matches as [|[inode fd_name] matches IH]; intros preferred; cbn [record_matches].
  - apply always_ret. apply _.
  - apply always_bind; [apply _|apply always_on_resolver, check_later|intros _]. cbn zeta.
    apply always_bind; [apply _|apply always_on_accumulator; intros a; apply record_spec|intros _]. apply IH.
Qed.

Lemma scan_task_forth process_id tid preferred :
  always goes_forth (scan_task procfs instant targets deadline limits previous_hints process_id tid preferred).
Proof.
  unfold scan_task. apply always_bind; [apply _|apply always_on_resolver, check_later|intros _].
  apply always_bind; [apply _|apply always_on_resolver, task_fds_batch_later|intros [[uid matches]|]].
  - apply record_matches_forth.
  - apply always_ret. apply _.
Qed.

(** ** Holding a socket *)

(** From [n] until [n'], the task is there, belongs to the user of the socket,
    and has it open. *)
Record holds (n n' : nat) (process_id tid : Z) (key : SocketOwnerKey) (fd_name : Bytes) : Prop := {
  hold_process : forall k, (n <= k < n')%nat -> exists entries name,
    proc_processes (procfs k) = Ok entries /\ Ok name ∈ entries /\ numeric_name name = Some process_id;
  hold_task : task_listed procfs n n' process_id tid;
  hold_present : forall k, (n <= k < n')%nat -> proc_metadata (procfs k) (TaskPath process_id tid) = Ok tt;
  hold_uid : forall k, (n <= k < n')%nat -> exists file,
    proc_open (procfs k) (TaskPath process_id tid) "status" = Some file
    /\ parse_fs_uid (content file) = Ok (key_uid key);
  hold_fds : forall k, (n <= k < n')%nat -> exists entries,
    proc_fds (procfs k) (TaskPath process_id tid) = Ok entries /\ Ok fd_name ∈ entries;
  hold_link : linked procfs n n' (TaskPath process_id tid) fd_name (key_inode key)
}.

Lemma holds_within n n' m m' process_id tid key fd_name :
  holds n n' process_id tid key fd_name -> (n <= m)%nat -> (m' <= n')%nat ->
  holds m m' process_id tid key fd_name.
Proof.
  intros [H1 H2 H3 H4 H5 H6] Hm Hm'. split; try (intros k Hk; (apply H1 || apply H2 || apply H3 || apply H4 || apply H5); lia).
  eapply linked_within; done.
Qed.

Lemma targets_by_uid_in key :
  key ∈ targets -> exists inodes, socket_targets_by_uid targets (key_uid key) = Some inodes /\ key_inode key ∈ inodes.
Proof.
  intros Hk. unfold socket_targets_by_uid. set (l := key_inode <$> _).
  assert (Hin : key_inode key ∈ l).
  { apply list_elem_of_fmap. exists key. split; [done|]. apply elem_of_filter_bool. split; [|apply Z.eqb_refl].
    unfold ordered_targets. rewrite merge_sort_Permutation. by apply elem_of_elements. }
  destruct l; [by apply elem_of_nil in Hin|]. by eexists.
Qed.

(** The user that is read is the one the task has all the time. *)
Lemma held_uid process_id tid key fd_name r r' uid :
  read_process_fs_uid procfs instant (TaskPath process_id tid) deadline r = (r', Ok uid) ->
  holds (readings r) (readings r') process_id tid key fd_name -> uid = key_uid key.
Proof.
  intros Hrun Hh. apply fs_uid_Ok in Hrun as (bytes & (k & file & Hk & Ho & <-) & Hp).
  destruct (hold_uid _ _ _ _ _ _ Hh k Hk) as (file' & Ho' & Hp'). congruence.
Qed.

Lemma held_present process_id tid key fd_name r r' x :
  path_disappeared procfs (TaskPath process_id tid) r = (r', Ok x) ->
  holds (readings r) (readings r') process_id tid key fd_name -> x = false.
Proof.
  unfold path_disappeared. intros Hrun Hh. step Hrun found r1 H1. apply look_Ok in H1 as [-> ->].
  rewrite (hold_present _ _ _ _ _ _ Hh (readings r)) in Hrun.
  - by injection Hrun as _ <-.
  - enough (S (readings r) <= readings r')%nat by lia. change (S (readings r)) with (readings (tick r)).
    destruct (proc_metadata _ _) as [|[]]; by took Hrun.
Qed.

Lemma held_fds process_id tid key fd_name inodes maximum r r' found :
  task_socket_fds_for_inodes procfs instant (TaskPath process_id tid) process_id tid (key_uid key) inodes deadline
    maximum r = (r', Ok found) ->
  holds (readings r) (readings r') process_id tid key fd_name -> key_inode key ∈ inodes ->
  is_Some (found !! key_inode key).
Proof.
  unfold task_socket_fds_for_inodes. intros Hrun Hh Hin. step Hrun listing r1 H1. apply look_Ok in H1 as [-> ->].
  destruct (hold_fds _ _ _ _ _ _ Hh (readings r)) as (entries & He & Hname).
  { enough (S (readings r) <= readings r')%nat by lia. change (S (readings r)) with (readings (tick r)).
    destruct (proc_fds _ _); [|destruct (procfs_enumeration_may_indicate_disappearance _)]; by took Hrun. }
  rewrite He in Hrun. step Hrun matches r2 H2. took H2. step Hrun x r3 H3. injection Hrun as <- <-.
  assert (T3 : (readings r2 <= readings r3)%nat) by (case_bool_decide; by took H3).
  unfold scan_fd_entries_for_inodes in H2. step H2 x1 r4 H4. took H4. step H2 x2 r5 H5. took H5. took H2.
  cbn [tick readings] in *. eapply scan_fd_finds; [exact H2|done| |by left].
  eapply linked_within; [apply (hold_link _ _ _ _ _ _ Hh)|lia|lia].
Qed.

Lemma no_matches_seen n n' task : matches_seen procfs n n' task ∅.
Proof. intros i x. by rewrite lookup_empty. Qed.

Lemma fds_sound task process_id tid uid inodes maximum r r' found :
  task_socket_fds_for_inodes procfs instant task process_id tid uid inodes deadline maximum r = (r', Ok found) ->
  matches_seen procfs (readings r) (readings r') task found.
Proof.
  unfold task_socket_fds_for_inodes. intros Hrun. step Hrun listing r1 H1. apply look_Ok in H1 as [-> ->].
  destruct (proc_fds _ _) as [entries|e].
  2: { assert (found = ∅) as ->; [|apply no_matches_seen].
       destruct (procfs_enumeration_may_indicate_disappearance e).
       - step Hrun gone r2 H2. destruct gone; [by injection Hrun as _ <-|done].
       - step Hrun zombie r2 H2. destruct zombie; [by injection Hrun as _ <-|done]. }
  step Hrun matches r2 H2. step Hrun x r3 H3. injection Hrun as <- <-.
  assert (T3 : (readings r2 <= readings r3)%nat) by (case_bool_decide; by took H3).
  unfold scan_fd_entries_for_inodes in H2. step H2 x1 r4 H4. took H4. step H2 x2 r5 H5. took H5.
  cbn [tick readings] in *.
  apply (scan_fd_sound _ _ _ _ _ _ (readings r)) in H2; [|lia|apply no_matches_seen].
  eapply matches_seen_within; [exact H2|lia|lia].
Qed.

(** The hints change which descriptor is named, not which sockets are found. *)
Lemma preferred_facts task uid hint matches n r r' found :
  prefer_verified_socket_fd_hints procfs instant task uid matches hint deadline r = (r', Ok found) ->
  (n <= readings r)%nat -> matches_seen procfs n (readings r) task matches ->
  matches_seen procfs n (readings r') task found
  /\ forall inode, is_Some (matches !! inode) -> is_Some (found !! inode).
Proof.
  unfold prefer_verified_socket_fd_hints. intros Hrun Hn Hm. step Hrun out r1 H1. step Hrun x r2 H2.
  injection Hrun as <- <-. assert (T2 : (readings r1 <= readings r2)%nat) by (destruct out.2; by took H2).
  took H1. eapply prefer_facts in H1 as [Hs Hd]; [|exact Hn|exact Hm]. split; [|done].
  eapply matches_seen_within; [exact Hs|lia|lia].
Qed.

Lemma hinted_task_facts task uid inodes hint r r' found :
  hinted_task_socket_fds_for_inodes procfs instant task uid inodes hint deadline r = (r', Ok (Some found)) ->
  matches_seen procfs (readings r) (readings r') task found
  /\ forall inode, inode ∈ inodes -> is_Some (found !! inode).
Proof.
  unfold hinted_task_socket_fds_for_inodes. intros Hrun. step Hrun out r1 H1. destruct out as [out|]; [|done].
  case_bool_decide; [done|]. step Hrun x r2 H2. took H2. injection Hrun as <- <-.
  eapply hinted_facts in H1 as [Hs Hd]; [|done|apply no_matches_seen]. split; [|by eauto].
  eapply matches_seen_within; [exact Hs|lia|lia].
Qed.

Lemma batch_held process_id tid key fd_name hints r r' found :
  task_socket_fds_for_batch procfs instant targets deadline limits process_id tid hints r = (r', Ok found) ->
  holds (readings r) (readings r') process_id tid key fd_name -> key ∈ targets ->
  exists matches, found = Some (key_uid key, matches) /\ is_Some (matches !! key_inode key).
Proof.
  unfold task_socket_fds_for_batch. intros Hrun Hh Hkey. step Hrun observed r1 H1.
  unfold attempt in H1. destruct (read_process_fs_uid _ _ _ _ r) as [r1' uid] eqn:Huid. injection H1 as <- <-.
  took Huid. destruct uid as [uid|e].
  2: { step Hrun gone r2 H2. took H2. assert (readings r2 = readings r') as Hr2.
       { destruct gone; injection Hrun as <- _; done. }
       apply (held_present _ _ key fd_name) in H2 as ->; [done|]. eapply holds_within; [done|lia|lia]. }
  assert (uid = key_uid key) as ->.
  { eapply held_uid; [exact Huid|]. eapply holds_within; [exact Hh|lia|].
    destruct (socket_targets_by_uid targets uid); by took Hrun. }
  destruct (targets_by_uid_in key Hkey) as (inodes & Hi & Hin). rewrite Hi in Hrun.
  step Hrun hinted r2 H2. took H2. destruct hinted as [matches|].
  - injection Hrun as <- <-. exists matches. split; [done|]. apply hinted_task_facts in H2 as [_ Hall]. by apply Hall.
  - step Hrun found1 r3 H3. took H3. step Hrun found2 r4 H4. took H4. injection Hrun as <- <-.
    eexists. split; [done|]. eapply (preferred_facts _ _ _ _ (readings r2)) in H4 as [_ Hall];
      [apply Hall|done|by eapply fds_sound].
    eapply held_fds; [exact H3| |done]. eapply holds_within; [exact Hh|lia|lia].
Qed.

Lemma batch_sound process_id tid hints r r' uid matches :
  task_socket_fds_for_batch procfs instant targets deadline limits process_id tid hints r = (r', Ok (Some (uid, matches))) ->
  matches_seen procfs (readings r) (readings r') (TaskPath process_id tid) matches.
Proof.
  unfold task_socket_fds_for_batch. intros Hrun. step Hrun observed r1 H1. took H1. destruct observed as [uid'|e].
  2: { step Hrun gone r2 H2. by destruct gone. }
  destruct (socket_targets_by_uid targets uid') as [inodes|]; [|done].
  step Hrun hinted r2 H2. took H2. destruct hinted as [found|].
  - injection Hrun as <- <- <-. apply hinted_task_facts in H2 as [Hs _]. eapply matches_seen_within; [exact Hs|lia|lia].
  - step Hrun found1 r3 H3. took H3. step Hrun found2 r4 H4. injection Hrun as <- <- <-.
    eapply (preferred_facts _ _ _ _ (readings r2)) in H4 as [Hs _]; [|done|by eapply fds_sound].
    eapply matches_seen_within; [exact Hs|lia|lia].
Qed.

(** ** The records of a scan *)

Definition time (s : Scan) : nat := readings (scan_resolver s).

(** The tasks to scan. *)
Context (among : Z -> Z -> Prop).

(** Whatever is listed is one of them, and was seen since [n]. *)
Definition sound_since (n : nat) (s : Scan) : Prop :=
  forall key owner, listed (scan_accumulator s) key owner ->
  among (ot_process_id owner) (ot_tid owner)
  /\ seen procfs n (time s) (ot_path owner) (ot_fd_name owner) (key_inode key).

Lemma sound_later n s s' :
  sound_since n s -> (time s <= time s')%nat -> scan_accumulator s' = scan_accumulator s -> sound_since n s'.
Proof.
  intros Hs Ht Ha key owner Hl. rewrite Ha in Hl. destruct (Hs key owner Hl) as [Hm Hseen]. split; [done|].
  eapply seen_within; [exact Hseen|lia|done].
Qed.

Lemma forth_time {A} (m : ST Scan OwnerError A) s s' x :
  always goes_forth m -> m s = (s', x) -> (time s <= time s')%nat /\ grows (scan_accumulator s) (scan_accumulator s').
Proof. intros Hm Hr. specialize (Hm s). by rewrite Hr in Hm. Qed.

Lemma matches_recorded process_id tid uid : forall matches preferred s s' out,
  record_matches instant deadline limits matches process_id tid uid preferred s = (s', Ok out) ->
  (forall inode fd_name, (inode, fd_name) ∈ matches ->
     tracked (scan_accumulator s') (mkKey inode uid) (mkOwner process_id tid fd_name))
  /\ forall n, sound_since n s -> (n <= time s)%nat -> among process_id tid ->
     (forall inode fd_name, (inode, fd_name) ∈ matches -> seen procfs n (time s) (TaskPath process_id tid) fd_name inode) ->
     sound_since n s'.
Proof.
  induction matches as [|[inode fd_name] matches IH]; intros preferred s s' out Hrun; cbn [record_matches] in Hrun.
  { injection Hrun as <- _. split; [by intros ? ? ?%elem_of_nil|done]. }
  step Hrun x1 s1 H1. apply on_resolver_Ok in H1 as [H1 Ha1]. took H1. cbn zeta in Hrun. step Hrun x2 s2 H2.
  apply on_accumulator_Ok in H2 as [H2 Hr2].
  destruct (record_spec (mkKey inode uid) (mkOwner process_id tid fd_name) (maximum_owner_records limits) (scan_accumulator s1)) as [_ Htr].
  pose proof (record_listed (mkKey inode uid) (mkOwner process_id tid fd_name) (maximum_owner_records limits) (scan_accumulator s1)) as Hli.
  rewrite H2 in Htr, Hli. cbn [fst snd] in *. specialize (Htr _ eq_refl).
  destruct (IH _ _ _ _ Hrun) as [IHt IHs]. clear IH.
  destruct (forth_time _ _ _ _ (record_matches_forth _ _ _ _ _) Hrun) as [_ [_ Hg]]. split.
  - intros i f [[= -> ->]|Hin]%elem_of_cons; [by apply Hg|by apply IHt].
  - intros n Hs Hn Hm Hseen. change (time s <= time s1)%nat in T.
    assert (Ht2 : time s2 = time s1) by (unfold time; by rewrite Hr2). apply IHs; [|lia|done|].
    + intros k o Hl. apply Hli in Hl as [Hl|[-> ->]].
      * rewrite Ha1 in Hl. destruct (Hs k o Hl). split; [done|]. eapply seen_within; [done|lia|lia].
      * split; [done|]. eapply seen_within; [apply (Hseen inode); by left|lia|lia].
    + intros i f Hin. eapply seen_within; [apply (Hseen i); by right|lia|lia].
Qed.

Lemma scan_task_facts process_id tid preferred s s' out :
  scan_task procfs instant targets deadline limits previous_hints process_id tid preferred s = (s', Ok out) ->
  (forall key fd_name, holds (time s) (time s') process_id tid key fd_name -> key ∈ targets ->
     exists fd, tracked (scan_accumulator s') key (mkOwner process_id tid fd))
  /\ (among process_id tid -> forall n, sound_since n s -> (n <= time s)%nat -> sound_since n s').
Proof.
  unfold scan_task. intros Hrun. step Hrun x1 s1 H1. apply on_resolver_Ok in H1 as [H1 Ha1]. took H1.
  step Hrun found s2 H2. apply on_resolver_Ok in H2 as [H2 Ha2].
  pose proof (later_run _ _ _ _ (task_fds_batch_later _ _ _) H2) as T2.
  assert (Hs2 : forall n, sound_since n s -> (n <= time s)%nat -> sound_since n s2).
  { intros n Hs Hn. eapply sound_later; [exact Hs|unfold time; lia|by rewrite Ha2]. }
  destruct found as [[uid matches]|].
  - destruct (forth_time _ _ _ _ (record_matches_forth _ _ _ _ _) Hrun) as [T3 _].
    apply matches_recorded in Hrun as [Ht Hsound]. split.
    + intros key fd_name Hh Hkey. eapply batch_held in H2 as (found & Hf & [fd Hfd]); [|eapply holds_within; [exact Hh|..]|done].
      * injection Hf as -> ->. exists fd. destruct key as [inode uid]. apply Ht. by apply elem_of_btree_entries.
      * unfold time. lia.
      * done.
    + intros Hm n Hs Hn. apply Hsound; [by apply Hs2|unfold time in *; lia|done|]. intros inode fd_name Hin.
      apply elem_of_btree_entries in Hin. apply batch_sound in H2. eapply seen_within; [by apply H2| |done].
      unfold time in *. lia.
  - injection Hrun as <- _. split; [|by intros _]. intros key fd_name Hh Hkey.
    eapply batch_held in H2 as (found & Hf & _); [done|eapply holds_within; [exact Hh|unfold time; lia|done]|done].
Qed.

(** ** Threads *)

(** The thread has not failed. *)
Definition fine (w : Worker) : Prop :=
  match finished w with
  | None => True
  | Some (Ok _) => pending w = []
  | Some (Err _) => False
  end.

(** A task that has its socket all the time is tracked at the end. *)
Definition caught (n : nat) (s : Scan) (process_id tid : Z) : Prop :=
  forall key fd_name, key ∈ targets -> holds n (time s) process_id tid key fd_name ->
  exists fd, tracked (scan_accumulator s) key (mkOwner process_id tid fd).

(** The thread was given tasks to scan. *)
Definition given (w : Worker) : Prop := forall process_id tid, (process_id, tid) ∈ pending w -> among process_id tid.

(** What the steps of any threads do to the scan, and of one to its tasks. *)
Record progress (s : Scan) (w : Worker) (s' : Scan) (w' : Worker) : Prop := {
  pg_time : (time s <= time s')%nat;
  pg_grows : grows (scan_accumulator s) (scan_accumulator s');
  pg_fine : fine w' -> fine w;
  pg_given : given w -> given w';
  pg_sound : fine w' -> given w -> forall n, (n <= time s)%nat -> sound_since n s -> sound_since n s';
  pg_tasks : fine w' -> forall process_id tid, (process_id, tid) ∈ pending w ->
    (process_id, tid) ∈ pending w' \/ caught (time s) s' process_id tid
}.

Lemma caught_later n s s' process_id tid m :
  caught m s process_id tid -> (n <= m)%nat -> (time s <= time s')%nat ->
  grows (scan_accumulator s) (scan_accumulator s') -> caught n s' process_id tid.
Proof.
  intros Hc Hn Ht [_ Hg] key fd_name Hkey Hh. destruct (Hc key fd_name Hkey) as [fd Hfd].
  - eapply holds_within; [exact Hh|lia|lia].
  - exists fd. by apply Hg.
Qed.

Lemma progress_refl s w : progress s w s w.
Proof. split; [done|reflexivity|done|done|done|by left]. Qed.

Lemma progress_trans s1 w1 s2 w2 s3 w3 :
  progress s1 w1 s2 w2 -> progress s2 w2 s3 w3 -> progress s1 w1 s3 w3.
Proof.
  intros [T1 G1 F1 V1 S1 C1] [T2 G2 F2 V2 S2 C2]. split.
  - lia.
  - by etrans.
  - auto.
  - auto.
  - intros Hf Hv n Hn Hs. apply S2; [done|by auto|lia|]. by apply S1; auto.
  - intros Hf p t Hin. destruct (C1 (F2 Hf) p t Hin) as [Hin'|Hc].
    + destruct (C2 Hf p t Hin') as [?|Hc]; [by left|right]. by eapply caught_later; [exact Hc|..].
    + right. by eapply caught_later; [exact Hc|..].
Qed.

(** The other thread, while this one waits. *)
Lemma progress_other s w s' w' v :
  progress s w s' w' -> fine w' -> given w -> progress s v s' v.
Proof. intros [T G F V S C] Hw Hv. split; [done..|by intros _ _; apply S|by left]. Qed.

Abbreviation step_of := (worker_step procfs instant targets deadline limits previous_hints) (only parsing).
Abbreviation steps_of := (worker_steps procfs instant targets deadline limits previous_hints) (only parsing).

Lemma worker_step_progress s w s' w' : step_of s w = (s', w') -> progress s w s' w'.
Proof.
  unfold worker_step. destruct (finished w) as [result|] eqn:Ef.
  { intros [= <- <-]. apply progress_refl. }
  assert (Hw : fine w) by (unfold fine; by rewrite Ef).
  destruct (pending w) as [|[process_id tid] rest] eqn:Ep.
  - destruct (on_resolver _ s) as [s1 result] eqn:E1. intros [= <- <-].
    pose proof (always_on_resolver _ (check_later instant deadline) s) as [T G]. rewrite E1 in T, G.
    split; [done|done|done|by intros _ p t ?%elem_of_nil| |by rewrite Ep; intros _ p t ?%elem_of_nil].
    intros _ _ n Hn Hs. eapply sound_later; [exact Hs|done|].
    unfold on_resolver in E1. destruct (check_deadline _ _ _). by injection E1 as <- _.
  - destruct (scan_task _ _ _ _ _ _ _ _ _ s) as [s1 [preferred|error]] eqn:E1; intros [= <- <-];
      destruct (forth_time _ _ _ _ (scan_task_forth _ _ _) E1) as [T G].
    + assert (Hrest : forall p t, (p, t) ∈ rest -> (p, t) ∈ pending w) by (rewrite Ep; by right).
      apply scan_task_facts in E1 as [Hheld Hsound]. split; [done|done|done|intros Hg p t Hin; by apply Hg, Hrest| |].
      { intros _ Hg n Hn Hs. apply Hsound; [|done|done]. apply Hg. rewrite Ep. by left. }
      rewrite Ep. intros _ p t [[= -> ->]|Hin]%elem_of_cons; [right|by left].
      intros key fd_name Hkey Hh. by eapply Hheld.
    + split; [done|done|done| |done|done]. intros Hg p t Hin. apply Hg. rewrite Ep. by right.
Qed.

Lemma worker_steps_progress n : forall s w s' w', steps_of n s w = (s', w') -> progress s w s' w'.
Proof.
  induction n as [|n IH]; intros s w s' w'; cbn [worker_steps].
  { intros [= <- <-]. apply progress_refl. }
  destruct (worker_step _ _ _ _ _ _ s w) as [s1 w1] eqn:E1. intros Hn.
  eapply progress_trans; [by apply worker_step_progress|by apply IH].
Qed.

Lemma worker_finish_progress s w s' w' :
  worker_finish procfs instant targets deadline limits previous_hints s w = (s', w') -> progress s w s' w'.
Proof. apply worker_steps_progress. Qed.

Lemma interleave_progress schedule : forall s helper current s' helper' current',
  interleave procfs instant targets deadline limits previous_hints schedule s helper current
  = (s', helper', current') ->
  fine helper' -> fine current' -> given helper -> given current ->
  progress s helper s' helper' /\ progress s current s' current'.
Proof.
  induction schedule as [|[] schedule IH]; intros s h c s' h' c' Hrun Hh Hc Vh Vc; cbn [interleave] in Hrun.
  - destruct (worker_finish _ _ _ _ _ _ s c) as [s1 c1] eqn:E1.
    destruct (worker_finish _ _ _ _ _ _ s1 h) as [s2 h2] eqn:E2. injection Hrun as <- <- <-.
    apply worker_finish_progress in E1, E2. split.
    + eapply progress_trans; [by eapply progress_other|done].
    + eapply progress_trans; [done|by eapply progress_other].
  - destruct (worker_step _ _ _ _ _ _ s h) as [s1 h1] eqn:E1. apply worker_step_progress in E1.
    destruct (IH _ _ _ _ _ _ Hrun Hh Hc) as [P1 P2]; [by apply (pg_given _ _ _ _ E1)|done|].
    split; [by eapply progress_trans|]. eapply progress_trans; [|done]. eapply progress_other; [done| |done].
    by apply (pg_fine _ _ _ _ P1).
  - destruct (worker_step _ _ _ _ _ _ s c) as [s1 c1] eqn:E1. apply worker_step_progress in E1.
    destruct (IH _ _ _ _ _ _ Hrun Hh Hc) as [P1 P2]; [done|by apply (pg_given _ _ _ _ E1)|].
    split; [|by eapply progress_trans]. eapply progress_trans; [|done]. eapply progress_other; [done| |done].
    by apply (pg_fine _ _ _ _ P2).
Qed.

(** The work is divided, and none of it is lost. *)
Lemma partition_all groups minimum first second group :
  owner_task_partition groups minimum = Some (first, second) ->
  group ∈ groups <-> group ∈ first \/ group ∈ second.
Proof.
  unfold owner_task_partition. destruct (_ || _); [done|].
  assert (Hfold : forall gs f0 s0 l0 l1 f s l m,
    foldl (fun acc group =>
        let '(first, second, load0, load1) := acc in
        let size := zlen group.(task_ids) in
        if load1 <? load0 then (first, second ++ [group], load0, load1 + size)
        else (first ++ [group], second, load0 + size, load1)) (f0, s0, l0, l1) gs = (f, s, l, m) ->
    group ∈ gs \/ group ∈ f0 \/ group ∈ s0 <-> group ∈ f \/ group ∈ s).
  { induction gs as [|g gs IH]; intros f0 s0 l0 l1 f s l m; cbn [foldl].
    { intros [= <- <- _ _]. rewrite elem_of_nil. tauto. }
    cbn zeta. destruct (l1 <? l0); intros Hf; rewrite <-(IH _ _ _ _ _ _ _ _ Hf), elem_of_app,
      list_elem_of_singleton, elem_of_cons; tauto. }
  destruct (foldl _ _ groups) as [[[f s] l] m] eqn:E. intros [= <- <-].
  rewrite <-(Hfold _ _ _ _ _ _ _ _ _ E), elem_of_nil. tauto.
Qed.

Lemma start_worker_tasks groups process_id tid :
  (process_id, tid) ∈ pending (start_worker groups)
  <-> exists group, group ∈ groups /\ group_process_id group = process_id /\ tid ∈ task_ids group.
Proof.
  cbn [start_worker pending]. rewrite list_elem_of_bind. setoid_rewrite list_elem_of_fmap. naive_solver.
Qed.

Lemma worker_result_Ok w x : worker_result w = Ok x -> finished w = Some (Ok x).
Proof. unfold worker_result. destruct (finished w) as [[]|]; cbn; naive_solver. Qed.

(** A thread that is through has scanned all of its tasks. *)
Definition tidy (w : Worker) : Prop := forall x, finished w = Some (Ok x) -> pending w = [].

Lemma worker_step_tidy s w : tidy w -> tidy (step_of s w).2.
Proof.
  intros Hw. unfold worker_step. destruct (finished w) as [result|] eqn:Ef; [done|].
  destruct (pending w) as [|[process_id tid] rest]; [by destruct (on_resolver _ s)|].
  by destruct (scan_task _ _ _ _ _ _ _ _ _ s) as [s1 []].
Qed.

Lemma worker_steps_tidy n : forall s w, tidy w -> tidy (steps_of n s w).2.
Proof.
  induction n as [|n IH]; intros s w Hw; cbn [worker_steps]; [done|].
  pose proof (worker_step_tidy s w Hw) as H1. destruct (worker_step _ _ _ _ _ _ s w) as [s1 w1]. by apply IH.
Qed.

Lemma interleave_tidy schedule : forall s helper current,
  tidy helper -> tidy current ->
  let '(_, helper', current') :=
    interleave procfs instant targets deadline limits previous_hints schedule s helper current in
  tidy helper' /\ tidy current'.
Proof.
  induction schedule as [|[] schedule IH]; intros s h c Hh Hc; cbn [interleave].
  - pose proof (worker_steps_tidy (S (length (pending c))) s c Hc) as H1. unfold worker_finish.
    destruct (worker_steps _ _ _ _ _ _ _ s c) as [s1 c1].
    pose proof (worker_steps_tidy (S (length (pending h))) s1 h Hh) as H2.
    by destruct (worker_steps _ _ _ _ _ _ _ s1 h) as [s2 h2].
  - pose proof (worker_step_tidy s h Hh) as H1. destruct (worker_step _ _ _ _ _ _ s h) as [s1 h1]. by apply IH.
  - pose proof (worker_step_tidy s c Hc) as H1. destruct (worker_step _ _ _ _ _ _ s c) as [s1 c1]. by apply IH.
Qed.

Lemma tidy_fine w x : tidy w -> worker_result w = Ok x -> fine w.
Proof. intros Ht Hr%worker_result_Ok. unfold fine. rewrite Hr. by eapply Ht. Qed.

(** All that a thread was given to do. *)
Lemma all_caught gs s s' w x group tid :
  progress s (start_worker gs) s' w -> tidy w -> worker_result w = Ok x ->
  group ∈ gs -> tid ∈ task_ids group -> caught (time s) s' (group_process_id group) tid.
Proof.
  intros P Ht Hr Hg Htid.
  destruct (pg_tasks _ _ _ _ P (tidy_fine _ _ Ht Hr) (group_process_id group) tid) as [Hin|?]; [| |done].
  - apply start_worker_tasks. eauto.
  - rewrite (Ht x) in Hin; [by apply elem_of_nil in Hin|by apply worker_result_Ok].
Qed.

(** The end of a scan. *)
Lemma scan_closes (groups : list OwnerTaskGroup) r s r' accumulated :
  (readings r <= time s)%nat -> grows OwnerScanAccumulator_default (scan_accumulator s) -> sound_since (readings r) s ->
  (forall group tid, group ∈ groups -> tid ∈ task_ids group -> caught (readings r) s (group_process_id group) tid) ->
  (check_deadline instant deadline ;; mret (scan_accumulator s)) (scan_resolver s) = (r', Ok accumulated) ->
  let s' := mkScan r' accumulated in
  (readings r <= readings r')%nat /\ accumulator_ok accumulated /\ sound_since (readings r) s'
  /\ forall group tid, group ∈ groups -> tid ∈ task_ids group -> caught (readings r) s' (group_process_id group) tid.
Proof.
  intros Ht Hg Hs Hc Hrun. step Hrun x r2 H2. took H2. injection Hrun as <- <-. unfold time in Ht. split_and!.
  - lia.
  - apply Hg. intros k po Hk. cbn in Hk. by rewrite lookup_empty in Hk.
  - by eapply sound_later.
  - intros group tid Hgr Htid. eapply caught_later; [by apply Hc|done|done|reflexivity].
Qed.

Lemma sound_default r : sound_since (readings r) (mkScan r OwnerScanAccumulator_default).
Proof. intros k o (po & t & Hpo & _). cbn in Hpo. by rewrite lookup_empty in Hpo. Qed.

Lemma start_worker_given groups :
  (forall group tid, group ∈ groups -> tid ∈ task_ids group -> among (group_process_id group) tid) ->
  given (start_worker groups).
Proof. intros Hm p t (g & Hg & <- & Ht)%start_worker_tasks. by apply Hm. Qed.

(** A scan that succeeds, however its threads were scheduled. *)
Lemma scan_groups_Ok groups workers spawned r r' accumulated :
  scan_owner_task_groups procfs instant targets deadline limits previous_hints groups workers spawned r
  = (r', Ok accumulated) ->
  (forall group tid, group ∈ groups -> tid ∈ task_ids group -> among (group_process_id group) tid) ->
  let s := mkScan r' accumulated in
  (readings r <= readings r')%nat /\ accumulator_ok accumulated /\ sound_since (readings r) s
  /\ forall group tid, group ∈ groups -> tid ∈ task_ids group -> caught (readings r) s (group_process_id group) tid.
Proof.
  intros Hrun Hm. revert Hrun.
  unfold scan_owner_task_groups. set (s0 := mkScan r OwnerScanAccumulator_default).
  pose proof (sound_default r : sound_since (readings r) s0) as Hs0.
  destruct (if workers =? 2 then _ else _) as [[first second]|] eqn:Epart.
  - destruct spawned as [schedule|]; [|done].
    destruct (workers =? 2); [|done]. pose proof (fun g => partition_all _ _ _ _ g Epart) as Hpart.
    assert (Vf : given (start_worker first)) by (apply start_worker_given; intros g t Hg; apply Hm, Hpart; by left).
    assert (Vs : given (start_worker second)) by (apply start_worker_given; intros g t Hg; apply Hm, Hpart; by right).
    destruct (interleave _ _ _ _ _ _ schedule s0 _ _) as [[s1 h] c] eqn:E.
    pose proof (interleave_tidy schedule s0 (start_worker first) (start_worker second) ltac:(done) ltac:(done)) as Htidy.
    rewrite E in Htidy. destruct Htidy as [Hth Htc].
    destruct (worker_result c) as [x|] eqn:Ec; [|done]. cbn [mbind Result_bind].
    destruct (worker_result h) as [y|] eqn:Eh; [|done].
    apply interleave_progress in E as [P1 P2]; [|by eapply tidy_fine|by eapply tidy_fine|done|done].
    apply scan_closes; [apply (pg_time _ _ _ _ P1)|apply (pg_grows _ _ _ _ P1)| |].
    + apply (pg_sound _ _ _ _ P1); [by eapply tidy_fine|done|done|done].
    + intros group tid [Hin|Hin]%Hpart Htid; [by apply (all_caught first s0 s1 h y)|by apply (all_caught second s0 s1 c x)].
  - unfold scan_owner_partition. destruct (worker_finish _ _ _ _ _ _ s0 _) as [s1 w] eqn:E.
    pose proof (worker_steps_tidy (S (length (pending (start_worker groups)))) s0 (start_worker groups) ltac:(done)) as Htidy.
    unfold worker_finish in E. rewrite E in Htidy. cbn [snd] in Htidy.
    destruct (worker_result w) as [x|] eqn:Ew; [|done]. apply worker_steps_progress in E.
    apply scan_closes; [apply (pg_time _ _ _ _ E)|apply (pg_grows _ _ _ _ E)| |].
    + apply (pg_sound _ _ _ _ E); [by eapply tidy_fine|by apply start_worker_given|done|done].
    + intros group tid Hgr Htid. by apply (all_caught groups s0 s1 w x).
Qed.
End Scans.

(** ** Snapshots *)

Lemma finish_lookup targets daemon_owned accumulated key :
  let snapshot := finish_owner_snapshot targets daemon_owned accumulated in
  let in_targets {A} (o : option A) := if bool_decide (key ∈ targets) then o else None in
  unique snapshot !! key
  = in_targets match finish_target daemon_owned accumulated key with inr tasks => Some tasks | inl _ => None end
  /\ failures snapshot !! key
  = in_targets match finish_target daemon_owned accumulated key with inr _ => None | inl failure => Some failure end
  /\ snapshot_processes snapshot = observed_processes accumulated.
Proof.
  unfold finish_owner_snapshot. cbn zeta.
  assert (Hin : key ∈ targets <-> key ∈ ordered_targets targets)
    by (unfold ordered_targets; by rewrite merge_sort_Permutation, elem_of_elements).
  rewrite (bool_decide_ext _ _ Hin). clear Hin. generalize (ordered_targets targets). clear targets.
  intros l. induction l as [|target l IH] using rev_ind.
  { rewrite bool_decide_eq_false_2 by apply not_elem_of_nil. cbn. by rewrite !lookup_empty. }
  rewrite foldl_snoc. destruct (foldl _ _ l) as [u f p]. cbn [unique failures snapshot_processes] in IH.
  destruct IH as (IHu & IHf & ->). destruct (decide (target = key)) as [->|Hne].
  - rewrite (bool_decide_eq_true_2 (key ∈ l ++ [key])) by (apply elem_of_app; right; by apply list_elem_of_singleton).
    destruct (finish_target _ _ key) as [failure|tasks]; cbn [unique failures snapshot_processes];
      rewrite lookup_insert_eq, ?IHu, ?IHf; by destruct (bool_decide _).
  - rewrite (bool_decide_ext (key ∈ l ++ [target]) (key ∈ l))
      by (rewrite elem_of_app, list_elem_of_singleton; naive_solver).
    destruct (finish_target _ _ target); cbn [unique failures snapshot_processes];
      rewrite ?lookup_insert_ne by done; by rewrite IHu, IHf.
Qed.

(** A unique owner is a process of which nothing contradicts. *)
Lemma finish_target_unique daemon_owned accumulated key tasks :
  accumulator_ok accumulated -> finish_target daemon_owned accumulated key = inr tasks ->
  key ∉ daemon_owned
  /\ exists process_id, Forall (fun o => ot_process_id o = process_id) tasks
     /\ (forall owner, owner ∈ tasks -> listed accumulated key owner)
     /\ forall owner, tracked accumulated key owner -> owner ∈ tasks.
Proof.
  unfold finish_target. intros Hok Hf. case_bool_decide as Hd; [done|]. split; [done|].
  case_bool_decide as Hamb; [done|]. destruct (owners accumulated !! key) as [po|] eqn:Eo; [|done].
  destruct (Hok key po Eo) as [->|(p & t & -> & Ht)]; [by rewrite map_to_list_empty in Hf|].
  rewrite map_to_list_singleton in Hf. injection Hf as <-. exists p. split_and!.
  - by rewrite merge_sort_Permutation.
  - intros o Ho. rewrite merge_sort_Permutation in Ho. exists {[p := t]}, t. split_and!; [done| |done].
    rewrite Forall_forall in Ht. rewrite (Ht o Ho). apply lookup_singleton_eq.
  - intros o [?|(q & t' & Hq & Hl & Hin)]; [done|]. rewrite Eo in Hq. injection Hq as <-.
    apply lookup_singleton_Some in Hl as [_ ->]. by rewrite merge_sort_Permutation.
Qed.

Section Snapshots.
Context (procfs : nat -> Procfs) (instant : nat -> Z) (daemon_process_id : option Z).

Lemma groups_all process_id tid deadline maximum : forall ids groups n r r' found,
  enumerate_groups procfs instant daemon_process_id ids deadline maximum groups n r = (r', Ok found) ->
  (readings r <= readings r')%nat
  /\ (forall group, group ∈ groups -> group ∈ found)
  /\ (process_id ∈ ids -> daemon_process_id <> Some process_id ->
      task_listed procfs (readings r) (readings r') process_id tid ->
      exists group, group ∈ found /\ group_process_id group = process_id /\ tid ∈ task_ids group).
Proof.
  induction ids as [|id ids IH]; intros groups n r r' found Hrun; cbn [enumerate_groups] in Hrun.
  { injection Hrun as <- <-. split_and!; [done..|]. by intros ?%elem_of_nil. }
  step Hrun x1 r1 H1. took H1. case_bool_decide as Hd.
  { destruct (IH _ _ _ _ _ Hrun) as (T2 & Hg & Hf). split_and!; [lia|done|].
    intros [->|Hin]%elem_of_cons Hnd Hl; [done|]. apply Hf; [done..|]. intros k Hk. apply Hl. lia. }
  step Hrun tasks r2 H2. took H2.
  assert (Hhere : id = process_id -> (readings r2 <= readings r')%nat ->
    task_listed procfs (readings r) (readings r') process_id tid -> exists ids', tasks.1 = Some ids' /\ tid ∈ ids').
  { intros -> Hle Hl. eapply task_ids_Ok; [apply with_error_Ok in H2; exact H2|]. intros k Hk. apply Hl. lia. }
  destruct tasks as [[task_ids|] n']; cbn [fst] in Hhere.
  - passes Hrun Hb. destruct (IH _ _ _ _ _ Hrun) as (T3 & Hg & Hf). split_and!; [lia| |].
    + intros group Hin. apply Hg, elem_of_app. by left.
    + intros [->|Hin]%elem_of_cons Hnd Hl.
      * destruct (Hhere eq_refl T3 Hl) as (ids' & [= <-] & Ht). exists (mkGroup id task_ids).
        split_and!; [|done|done]. apply Hg, elem_of_app. right. by apply list_elem_of_singleton.
      * apply Hf; [done..|]. intros k Hk. apply Hl. lia.
  - destruct (IH _ _ _ _ _ Hrun) as (T3 & Hg & Hf). split_and!; [lia|done|].
    intros [->|Hin]%elem_of_cons Hnd Hl; [by destruct (Hhere eq_refl T3 Hl) as (? & ? & _)|].
    apply Hf; [done..|]. intros k Hk. apply Hl. lia.
Qed.

Lemma groups_foreign deadline maximum : forall ids groups n r r' found,
  enumerate_groups procfs instant daemon_process_id ids deadline maximum groups n r = (r', Ok found) ->
  forall group, group ∈ found -> group ∈ groups \/ daemon_process_id <> Some (group_process_id group).
Proof.
  induction ids as [|id ids IH]; intros groups n r r' found Hrun group Hin; cbn [enumerate_groups] in Hrun.
  { injection Hrun as _ <-. by left. }
  step Hrun x1 r1 H1. case_bool_decide as Hd; [by eapply IH|]. step Hrun tasks r2 H2.
  destruct tasks as [[task_ids|] n']; [|by eapply IH]. passes Hrun Hb.
  destruct (IH _ _ _ _ _ Hrun group Hin) as [[?| ->%list_elem_of_singleton]%elem_of_app|?]; [by left|by right|by right].
Qed.

Lemma task_groups_Ok deadline maximum r r' groups :
  enumerate_owner_task_groups procfs instant daemon_process_id deadline maximum r = (r', Ok groups) ->
  (readings r <= readings r')%nat
  /\ (forall group, group ∈ groups -> daemon_process_id <> Some (group_process_id group))
  /\ forall process_id tid key fd_name,
     holds procfs (readings r) (readings r') process_id tid key fd_name -> daemon_process_id <> Some process_id ->
     exists group, group ∈ groups /\ group_process_id group = process_id /\ tid ∈ task_ids group.
Proof.
  unfold enumerate_owner_task_groups. intros Hrun. step Hrun ids r1 H1. took H1. step Hrun found r2 H2.
  step Hrun x r3 H3. took H3. injection Hrun as <- <-.
  pose proof (fun p t => groups_all p t _ _ _ _ _ _ _ _ H2) as Hall. destruct (Hall 0 0) as (T2 & _).
  split_and!; [lia| |].
  { intros g Hg. by destruct (groups_foreign _ _ _ _ _ _ _ _ H2 g Hg) as [?%elem_of_nil|]. }
  intros process_id tid key fd_name Hh Hd. destruct (Hall process_id tid) as (_ & _ & Hf).
  apply Hf; [|done|intros k Hk; apply (hold_task _ _ _ _ _ _ _ Hh); lia].
  apply process_ids_Ok in H1 as (k & entries & Hk & Hp & Hin).
  destruct (hold_process _ _ _ _ _ _ _ Hh k) as (entries' & name & Hp' & Hname & Hn); [lia|].
  eapply Hin; [|exact Hn]. congruence.
Qed.

Lemma daemon_targets_later targets deadline maximum :
  always later (daemon_owned_targets_for_batch procfs instant daemon_process_id targets deadline maximum).
Proof. unfold daemon_owned_targets_for_batch, daemon_owned_targets. goes_on. Qed.

(** What a scan of the tasks in [scope] says of a socket that it gives a unique
    owner, between the times [n] and [n']: the owners are tasks of one process,
    each of which is in scope and was seen with the socket, and every task in
    scope that has the socket all the time is among them. *)
Record owned_by (scope : Z -> Z -> Prop) (n n' : nat) (key : SocketOwnerKey) (process_id : Z)
    (tasks : list OwnerTask) : Prop := {
  ob_process : Forall (fun o => ot_process_id o = process_id) tasks;
  ob_scope : forall o, o ∈ tasks -> scope (ot_process_id o) (ot_tid o);
  ob_seen : forall o, o ∈ tasks -> seen procfs n n' (ot_path o) (ot_fd_name o) (key_inode key);
  ob_all : forall holder tid fd_name, holds procfs n n' holder tid key fd_name -> scope holder tid ->
    holder = process_id /\ exists fd, mkOwner holder tid fd ∈ tasks
}.

(** The tasks of groups. *)
Definition task_of (groups : list OwnerTaskGroup) (process_id tid : Z) : Prop :=
  exists group, group ∈ groups /\ group_process_id group = process_id /\ tid ∈ task_ids group.

Lemma scanned_owned targets deadline limits hints groups workers spawned daemon_owned r r' accumulated n n' key tasks :
  scan_owner_task_groups procfs instant targets deadline limits hints groups workers spawned r = (r', Ok accumulated) ->
  (n <= readings r)%nat -> (readings r' <= n')%nat ->
  unique (finish_owner_snapshot targets daemon_owned accumulated) !! key = Some tasks ->
  failures (finish_owner_snapshot targets daemon_owned accumulated) !! key = None
  /\ exists process_id, owned_by (task_of groups) n n' key process_id tasks.
Proof.
  intros Hrun Hn Hn' Hu. apply (scan_groups_Ok _ _ _ _ _ _ (task_of groups)) in Hrun as (T & Hok & Hsound & Hcaught);
    [|intros g t Hg Ht; by exists g].
  destruct (finish_lookup targets daemon_owned accumulated key) as (Eu & Ef & _). rewrite Eu in Hu. rewrite Ef.
  case_bool_decide as Hkey; [|done].
  destruct (finish_target daemon_owned accumulated key) as [|tasks'] eqn:Et; [done|]. injection Hu as ->.
  split; [done|]. apply finish_target_unique in Et as (_ & p & Hp & Hlist & Htrack); [|done]. exists p. split.
  - done.
  - intros o Ho. by apply (Hsound key), Hlist.
  - intros o Ho. eapply seen_within; [by apply Hsound, Hlist|lia|unfold time; cbn [scan_resolver]; lia].
  - intros holder tid fd_name Hh (g & Hg & <- & Htid).
    destruct (Hcaught g tid Hg Htid key fd_name Hkey) as [fd Hfd].
    { eapply holds_within; [exact Hh|lia|unfold time; cbn [scan_resolver]; lia]. }
    apply Htrack in Hfd. split; [|by exists fd]. rewrite Forall_forall in Hp. by apply (Hp _ Hfd).
Qed.

(** Every task of another process. *)
Definition foreign (holder tid : Z) : Prop := daemon_process_id <> Some holder.

Lemma snapshot_Ok targets deadline limits workers spawned hints r r' snapshot :
  resolve_owner_snapshot_with_hints procfs instant daemon_process_id targets deadline limits workers spawned hints r
  = (r', Ok snapshot) ->
  (readings r <= readings r')%nat
  /\ forall key tasks, unique snapshot !! key = Some tasks ->
     failures snapshot !! key = None
     /\ exists process_id, owned_by foreign (readings r) (readings r') key process_id tasks.
Proof.
  unfold resolve_owner_snapshot_with_hints. intros Hrun. do 6 (let H := fresh in passes Hrun H; clear H).
  step Hrun d1 r1 H1. pose proof (later_run _ _ _ _ (daemon_targets_later _ _ _) H1) as T1.
  step Hrun groups r2 H2. apply task_groups_Ok in H2 as (T2 & Hforeign & Hgroups).
  step Hrun acc r3 H3. destruct (scan_groups_Ok _ _ _ _ _ _ (fun _ _ => True) _ _ _ _ _ _ H3) as (T3 & _); [done|].
  step Hrun d2 r4 H4. pose proof (later_run _ _ _ _ (daemon_targets_later _ _ _) H4) as T4.
  step Hrun y r5 H5. took H5. injection Hrun as <- <-. split; [lia|]. intros key tasks Hu.
  apply (scanned_owned _ _ _ _ _ _ _ _ _ _ _ (readings r) (readings r5) _ _ H3) in Hu as (Hf & p & [Hp Hsc Hs Hall]); [|lia|lia].
  split; [done|]. exists p. split; [done| |done|].
  { intros o (g & Hg & <- & _)%Hsc. by apply Hforeign. } intros holder tid fd_name Hh Hd.
  eapply Hall; [exact Hh|]. eapply Hgroups; [|done]. eapply holds_within; [exact Hh|lia|lia].
Qed.
End Snapshots.
