(* ===== verification/Resolution.v ===== *)
(** * The application behind a connection

    [application.rs] of the daemon, lines 844 to 1166, 1667 to 1824 and 2521 to
    2603: a batch of connections is attributed by looking up their sockets, the
    owners of the sockets, the identities of the owners, and the owners again. *)

From S2P Require Import Prelude Text Net Application Model State Netlink Decision Capture SocketDiag.
From S2P Require Import Pinning Procfs Owners.
Local Open Scope Z_scope.

#[export] Instance IdentityCaptureRequirements_eq_dec : EqDecision IdentityCaptureRequirements.
Proof. solve_decision. Defined.
#[export] Instance IdentityCaptureRequirements_countable : Countable IdentityCaptureRequirements.
Proof.
  by refine (inj_countable' (fun r => (req_command_line r, req_cgroups r)) (fun '(a, b) => mkRequirements a b) _); intros [].
Defined.

Abbreviation IdentityCaptureResult := (Result OwnerError ApplicationIdentity) (only parsing).
Abbreviation SocketIdentityCaptureKey := (SocketOwnerKey * IdentityCaptureRequirements)%type (only parsing).
Abbreviation Captures := (gmap SocketIdentityCaptureKey IdentityCaptureResult) (only parsing).

(** The path of the task follows from its numbers. *)
Record TaskIdentityCaptureKey : Type := mkCaptureKey {
  ck_process_id : Z;
  ck_tid : Z;
  ck_socket_uid : Z;
  ck_requirements : IdentityCaptureRequirements
}.

#[export] Instance TaskIdentityCaptureKey_eq_dec : EqDecision TaskIdentityCaptureKey.
Proof. solve_decision. Defined.
#[export] Instance TaskIdentityCaptureKey_countable : Countable TaskIdentityCaptureKey.
Proof.
  by refine (inj_countable' (fun k => (ck_process_id k, ck_tid k, ck_socket_uid k, ck_requirements k))
    (fun '(a, b, c, d) => mkCaptureKey a b c d) _); intros [].
Defined.

(** The derived order. *)
Definition capture_key_code (k : TaskIdentityCaptureKey) : list Z :=
  [k.(ck_process_id); k.(ck_tid); k.(ck_socket_uid); Z.b2z k.(ck_requirements).(req_command_line);
   Z.b2z k.(ck_requirements).(req_cgroups)].
Definition capture_key_le {A} (p q : TaskIdentityCaptureKey * A) : Prop :=
  bytes_lt (capture_key_code q.1) (capture_key_code p.1) = false.
#[export] Instance capture_key_le_dec {A} : RelDecision (@capture_key_le A).
Proof. intros p q. unfold capture_key_le. apply _. Defined.
Definition socket_entry_le {A} (p q : SocketOwnerKey * A) : Prop := socket_key_le p.1 q.1.
#[export] Instance socket_entry_le_dec {A} : RelDecision (@socket_entry_le A).
Proof. intros p q. unfold socket_entry_le. apply _. Defined.
Definition socket_entries {A} (m : gmap SocketOwnerKey A) : list (SocketOwnerKey * A) :=
  merge_sort socket_entry_le (map_to_list m).

Definition equivalent_enforcement_identity (left right : ApplicationIdentity) : bool :=
  (left.(ai_executable) ==? right.(ai_executable))
  && (left.(ai_executable_file) ==? right.(ai_executable_file))
  && (left.(ai_command_line) ==? right.(ai_command_line))
  && (left.(ai_uid) =? right.(ai_uid))
  && (left.(ai_cgroups) ==? right.(ai_cgroups)).

Definition equivalent_mandatory_process_identity (left right : ApplicationIdentity) : bool :=
  (left.(ai_pid) =? right.(ai_pid))
  && (left.(ai_process_start_time_ticks) =? right.(ai_process_start_time_ticks))
  && (left.(ai_executable) ==? right.(ai_executable))
  && (left.(ai_executable_file) ==? right.(ai_executable_file))
  && (left.(ai_uid) =? right.(ai_uid)).

(** Every owning task must agree; the last one represents them. *)
Definition merge_task_identity (captures : Captures) (key : SocketIdentityCaptureKey)
    (identity : IdentityCaptureResult) : Captures :=
  match captures !! key with
  | None => <[key := identity]> captures
  | Some (Err _) => captures
  | Some (Ok previous) =>
      <[key := identity ← identity;
               ensure (equivalent_enforcement_identity previous identity)
                 (Failed "socket-owning tasks have ambiguous application identities") ;;
               mret identity]> captures
  end.

(** ** The identity of a task *)

Section Identity.
Context (procfs : nat -> Procfs) (instant : nat -> Z).

(** [read_dir] does not list the two dot entries. *)
Fixpoint find_fd_entries (entries : list (Result IoError Bytes)) (process : ProcPath) (target : Bytes)
    (deadline maximum_fds count : Z) : ST Resolver OwnerError (option Bytes) :=
  match entries with
  | [] => mret None
  | entry :: rest =>
      check_deadline instant deadline ;;
      lift (ensure (count <? maximum_fds) (Failed "per-task fd bound exceeded")) ;;
      name ← lift (map_err (fun _ => Failed "cannot inspect process fd") entry);
      link ← look procfs (fun fs => proc_fd_link fs (process, name));
      match link with
      | Err NotFound => find_fd_entries rest process target deadline maximum_fds (count + 1)
      | Err _ => lift (Err (Failed "cannot inspect process descriptor link"))
      | Ok link =>
          check_deadline instant deadline ;;
          if link ==? target then mret (Some name)
          else find_fd_entries rest process target deadline maximum_fds (count + 1)
      end
  end.

Definition is_dot_entry (entry : Result IoError Bytes) : bool :=
  match entry with Ok name => (name ==? lit ".") || (name ==? lit "..") | Err _ => false end.

Definition find_socket_fd_bounded (process : ProcPath) (target : Bytes) (deadline maximum_fds : Z)
    : ST Resolver OwnerError (option Bytes) :=
  lift (ensure (0 <? maximum_fds) (Failed "per-task fd bound is zero")) ;;
  check_deadline instant deadline ;;
  listing ← look procfs (fun fs => proc_fds fs process);
  entries ← lift (map_err (fun _ => Failed "cannot enumerate process fds") listing);
  check_deadline instant deadline ;;
  find_fd_entries (List.filter (fun entry => negb (is_dot_entry entry)) entries) process target deadline maximum_fds 0.

Definition verified_socket_fd (process : ProcPath) (observed_fd : Bytes) (target : Bytes) (deadline : Z)
    : ST Resolver OwnerError Bytes :=
  check_deadline instant deadline ;;
  link ← look procfs (fun fs => proc_fd_link fs (process, observed_fd));
  let search :=
    found ← find_socket_fd_bounded process target deadline MAX_FDS_PER_TASK;
    lift (ok_or (Failed "attributed socket fd is no longer owned by the process") found) in
  match link with
  | Ok link => if link ==? target then mret observed_fd else search
  | Err NotFound => search
  | Err _ => lift (Err (Failed "cannot revalidate attributed socket descriptor"))
  end.

Definition capture_process_identity (process : ProcPath) (pid expected_uid deadline : Z)
    (requirements : IdentityCaptureRequirements) : ST Resolver OwnerError ApplicationIdentity :=
  let command_line :=
    if requirements.(req_command_line) then read_command_line procfs instant process deadline else mret [] in
  let cgroups :=
    if requirements.(req_cgroups) then read_cgroups procfs instant process deadline else mret [] in
  start_before ← read_start_time procfs instant process deadline;
  uid_before ← read_process_fs_uid procfs instant process deadline;
  lift (ensure (uid_before =? expected_uid) (Failed "process/socket uid mismatch")) ;;
  check_deadline instant deadline ;;
  link ← look procfs (fun fs => proc_exe fs process);
  executable_link_before ← lift (ok_or (Failed "cannot read process executable link") link);
  check_deadline instant deadline ;;
  executable_text ← lift (ok_or (Failed "process executable path is not UTF-8") (to_str executable_link_before));
  executable ← lift (map_err Invalid (ApplicationPath_new executable_text));
  handle ← look procfs (fun fs => proc_exe_open fs process);
  handle ← lift (ok_or (Failed "cannot pin process executable") handle);
  check_deadline instant deadline ;;
  metadata ← look procfs (fun fs => proc_inspect fs handle);
  metadata ← lift (ok_or (Failed "cannot inspect pinned process executable") metadata);
  check_deadline instant deadline ;;
  executable_file ← lift (map_err NotPinned (executable_file_id metadata));
  command_line_before ← command_line;
  cgroups_before ← cgroups;
  check_deadline instant deadline ;;
  link ← look procfs (fun fs => proc_exe fs process);
  executable_link_after ← lift (ok_or (Failed "cannot re-read process executable link") link);
  check_deadline instant deadline ;;
  handle ← look procfs (fun fs => proc_exe_open fs process);
  handle ← lift (ok_or (Failed "cannot re-pin process executable") handle);
  metadata ← look procfs (fun fs => proc_inspect fs handle);
  metadata ← lift (ok_or (Failed "cannot re-inspect process executable") metadata);
  executable_file_after ← lift (map_err NotPinned (executable_file_id metadata));
  check_deadline instant deadline ;;
  command_line_after ← command_line;
  cgroups_after ← cgroups;
  start_after ← read_start_time procfs instant process deadline;
  uid_after ← read_process_fs_uid procfs instant process deadline;
  lift (ensure ((executable_link_before ==? executable_link_after) && (executable_file ==? executable_file_after)
                && (command_line_before ==? command_line_after) && (cgroups_before ==? cgroups_after)
                && (start_before =? start_after) && (uid_before =? uid_after))
          (Failed "process identity changed while it was captured")) ;;
  let identity := mkApplicationIdentity pid start_before executable executable_file command_line_before
                    uid_before cgroups_before in
  lift (map_err Invalid (ApplicationIdentity_validate identity)) ;;
  mret identity.

(** The descriptors that still are the sockets, and the failures of the others. *)
Fixpoint verify_sockets {E} (sockets : list (SocketOwnerKey * Bytes)) (task : ProcPath) (deadline : Z)
    (verified : gmap SocketOwnerKey Bytes) (captured : gmap SocketOwnerKey IdentityCaptureResult)
    : ST Resolver E (gmap SocketOwnerKey Bytes * gmap SocketOwnerKey IdentityCaptureResult) :=
  match sockets with
  | [] => mret (verified, captured)
  | (key, fd_name) :: rest =>
      found ← attempt (verified_socket_fd task fd_name (socket_link key.(key_inode)) deadline);
      match found with
      | Ok fd_name => verify_sockets rest task deadline (<[key := fd_name]> verified) captured
      | Err error => verify_sockets rest task deadline verified (<[key := Err error]> captured)
      end
  end.

Definition reverify_socket (task : ProcPath) (key : SocketOwnerKey) (fd_name : Bytes) (deadline : Z)
    (identity : ApplicationIdentity) : ST Resolver OwnerError ApplicationIdentity :=
  check_deadline instant deadline ;;
  final_socket_link ← look procfs (fun fs => proc_fd_link fs (task, fd_name));
  check_deadline instant deadline ;;
  lift (ensure (match final_socket_link with Ok link => link ==? socket_link key.(key_inode) | Err _ => false end)
          (Failed "process closed or replaced the attributed socket")) ;;
  mret identity.

Fixpoint reverify_sockets {E} (verified : list (SocketOwnerKey * Bytes)) (task : ProcPath) (deadline : Z)
    (metadata : IdentityCaptureResult) (captured : gmap SocketOwnerKey IdentityCaptureResult)
    : ST Resolver E (gmap SocketOwnerKey IdentityCaptureResult) :=
  match verified with
  | [] => mret captured
  | (key, fd_name) :: rest =>
      identity ← match metadata with
                 | Err error => mret (Err error)
                 | Ok identity => attempt (reverify_socket task key fd_name deadline identity)
                 end;
      reverify_sockets rest task deadline metadata (<[key := identity]> captured)
  end.

Definition capture_task_socket_identities {E} (task : ProcPath) (sockets : gmap SocketOwnerKey Bytes)
    (deadline : Z) (capture_metadata : ST Resolver OwnerError ApplicationIdentity)
    : ST Resolver E (gmap SocketOwnerKey IdentityCaptureResult) :=
  checked ← verify_sockets (socket_entries sockets) task deadline ∅ ∅;
  if bool_decide ((checked : gmap SocketOwnerKey Bytes * gmap SocketOwnerKey IdentityCaptureResult).1 = ∅)
  then mret checked.2
  else
    metadata ← attempt capture_metadata;
    reverify_sockets (socket_entries checked.1) task deadline metadata checked.2.
End Identity.

(** ** The captures of a batch *)

Abbreviation Request := (OutboundConnection * IdentityCaptureRequirements)%type (only parsing).

Abbreviation CaptureGroups := (gmap TaskIdentityCaptureKey (gmap SocketOwnerKey Bytes)) (only parsing).

Definition add_capture (key : SocketOwnerKey) (requirements : IdentityCaptureRequirements) (owner : OwnerTask)
    (groups : CaptureGroups) : CaptureGroups :=
  let task := mkCaptureKey owner.(ot_process_id) owner.(ot_tid) key.(key_uid) requirements in
  <[task := <[key := owner.(ot_fd_name)]> (default ∅ (groups !! task))]> groups.

(** What is known of one request: an error, an identity, or neither. *)
Abbreviation Slot := (option OwnerError * option ApplicationIdentity)%type (only parsing).

Section Batch.
Context `{Target} (procfs : nat -> Procfs) (instant : nat -> Z) (daemon_process_id : option Z).
(** The threads of a scan that starts at a reading. *)
Context (workers : nat -> Z) (spawned : nat -> option (list bool)).

Fixpoint group_owners (owner_tasks : list OwnerTask) (key : SocketOwnerKey)
    (requirements : IdentityCaptureRequirements) (deadline : Z) (groups : CaptureGroups)
    : ST Resolver OwnerError CaptureGroups :=
  match owner_tasks with
  | [] => mret groups
  | owner :: rest =>
      check_deadline instant deadline ;;
      group_owners rest key requirements deadline (add_capture key requirements owner groups)
  end.

Fixpoint group_captures (requests : list (Request * option SocketOwnerKey)) (before : OwnerSnapshot)
    (deadline : Z) (seen : gset SocketIdentityCaptureKey) (groups : CaptureGroups)
    : ST Resolver OwnerError CaptureGroups :=
  match requests with
  | [] => mret groups
  | ((_, requirements), key) :: rest =>
      check_deadline instant deadline ;;
      match key with
      | None => group_captures rest before deadline seen groups
      | Some key =>
          if is_some (before.(failures) !! key) || bool_decide ((key, requirements) ∈ seen)
          then group_captures rest before deadline seen groups
          else
            groups ← group_owners (default [] (before.(unique) !! key)) key requirements deadline groups;
            group_captures rest before deadline (seen ∪ {[(key, requirements)]}) groups
      end
  end.

Fixpoint capture_groups (groups : list (TaskIdentityCaptureKey * gmap SocketOwnerKey Bytes)) (deadline : Z)
    (captures : Captures) : ST Resolver OwnerError Captures :=
  match groups with
  | [] => mret captures
  | (task, sockets) :: rest =>
      check_deadline instant deadline ;;
      let path := TaskPath task.(ck_process_id) task.(ck_tid) in
      identities ← capture_task_socket_identities procfs instant path sockets deadline
                     (capture_process_identity procfs instant path task.(ck_tid) task.(ck_socket_uid) deadline
                        task.(ck_requirements));
      capture_groups rest deadline
        (foldl (fun captures entry => merge_task_identity captures (entry.1, task.(ck_requirements)) entry.2)
           captures (socket_entries identities))
  end.

(** When time is up, every request fails for that reason. *)
Definition timed_out (requests : list (Request * option SocketOwnerKey)) : Captures :=
  foldl (fun captures entry =>
    match entry.2 with
    | Some key => <[(key, entry.1.2) := Err (Lookup AttributionTimeout)]> captures
    | None => captures
    end) ∅ requests.

Definition capture_batch_identities {E} (requests : list Request) (keys : list (option SocketOwnerKey))
    (before : OwnerSnapshot) (deadline : Z) : ST Resolver E Captures :=
  let requests := zip requests keys in
  captures ← attempt (
    groups ← group_captures requests before deadline ∅ ∅;
    capture_groups (merge_sort capture_key_le (map_to_list groups)) deadline ∅);
  match captures with
  | Ok captures => mret captures
  | Err _ => mret (timed_out requests)
  end.

(** ** The sockets of a batch *)

Fixpoint resolve_batch_socket_keys {E} (requests : list Request) (deadline : Z)
    : ST Resolver E (list (Result OwnerError SocketOwnerKey)) :=
  match requests with
  | [] => mret []
  | (connection, _) :: rest =>
      resolved ← attempt (
        lift (map_err (Lookup ∘ ConnectionInvalid) (OutboundConnection_validate connection)) ;;
        inode ← with_error Lookup (resolve_socket_inode instant (fun n => proc_tables (procfs n)) connection deadline);
        mret (mkKey inode connection.(socket_uid)));
      rest ← resolve_batch_socket_keys rest deadline;
      mret (resolved :: rest)
  end.

Definition batch_keys (resolved : list (Result OwnerError SocketOwnerKey)) : list (option SocketOwnerKey) :=
  (fun result => match result with Ok key => Some key | Err _ => None end) <$> resolved.
Definition batch_errors (resolved : list (Result OwnerError SocketOwnerKey)) : list (option OwnerError) :=
  (fun result => match result with Ok _ => None | Err error => Some error end) <$> resolved.
Definition batch_targets (resolved : list (Result OwnerError SocketOwnerKey)) : gset SocketOwnerKey :=
  list_to_set (omap id (batch_keys resolved)).

(** ** Deciding *)

Definition batch_resolution_result (slot : Slot) : IdentityCaptureResult :=
  match slot with
  | (Some error, _) => Err error
  | (None, Some identity) => Ok identity
  | (None, None) => Err (Failed "batched application identity is unavailable")
  end.

(** The loop of [resolve_batch_strict_until] over the requests. *)
Definition captured_slot (before : OwnerSnapshot) (captures : Captures)
    (requirements : IdentityCaptureRequirements) (key : option SocketOwnerKey) (error : option OwnerError) : Slot :=
  match key with
  | None => (error, None)
  | Some key =>
      match before.(failures) !! key with
      | Some failure => (Some (Failed failure), None)
      | None =>
          if is_none (before.(unique) !! key)
          then (Some (Failed "batched socket-owner snapshot omitted a target"), None)
          else
            match default (Err (Failed "attributed process has no socket-owning task"))
                    (captures !! (key, requirements)) with
            | Ok identity => (error, Some identity)
            | Err failure => (Some failure, None)
            end
      end
  end.

(** The first identity of each socket, and the sockets whose identities differ. *)
Definition inconsistent_keys (keys : list (option SocketOwnerKey)) (identities : list (option ApplicationIdentity))
    : gset SocketOwnerKey :=
  (foldl (fun acc entry =>
    match entry with
    | (Some key, Some identity) =>
        match acc.1 !! key with
        | Some first =>
            if equivalent_mandatory_process_identity first identity then acc else (acc.1, acc.2 ∪ {[key]})
        | None => (<[key := identity]> acc.1, acc.2)
        end
    | _ => acc
    end) ((∅ : gmap SocketOwnerKey ApplicationIdentity), ∅) (zip keys identities)).2.

Definition reject_inconsistent_batch_identities (keys : list (option SocketOwnerKey)) (slots : list Slot) : list Slot :=
  let inconsistent := inconsistent_keys keys slots.*2 in
  zip_with (fun (key : option SocketOwnerKey) (slot : Slot) =>
    if is_some_and (fun key => bool_decide (key ∈ inconsistent)) key && is_some slot.2
    then (Some (Failed "mandatory process identity changed between captures for one socket"), None)
    else slot) keys slots.

(** The names of the descriptors that the first snapshot saw. *)
Fixpoint owner_fd_hints (owners : list (SocketOwnerKey * OwnerTask)) (deadline : Z) (hints : OwnerFdHints)
    : ST Resolver OwnerError OwnerFdHints :=
  match owners with
  | [] => mret hints
  | (key, owner) :: rest =>
      check_deadline instant deadline ;;
      let task := (owner.(ot_process_id), owner.(ot_tid)) in
      owner_fd_hints rest deadline (<[task := <[key := owner.(ot_fd_name)]> (default ∅ (hints !! task))]> hints)
  end.
Definition hinted_owners (snapshot : OwnerSnapshot) (targets : gset SocketOwnerKey)
    : list (SocketOwnerKey * OwnerTask) :=
  ordered_targets targets ≫= fun key => pair key <$> default [] (snapshot.(unique) !! key).

Definition owner_snapshot (targets : gset SocketOwnerKey) (deadline : Z) (hints : option OwnerFdHints)
    : ST Resolver OwnerError OwnerSnapshot :=
  r ← get;
  resolve_owner_snapshot_with_hints procfs instant daemon_process_id targets deadline strict_limits
    (workers r.(readings)) (spawned r.(readings)) hints.

Definition successful_targets (keys : list (option SocketOwnerKey)) (slots : list Slot) : gset SocketOwnerKey :=
  list_to_set (omap (fun entry => match entry with (key, (_, Some _)) => key | _ => None end) (zip keys slots)).

Definition revalidated_slot (before after : OwnerSnapshot) (key : option SocketOwnerKey) (slot : Slot) : Slot :=
  match key with
  | None => slot
  | Some key =>
      if is_none slot.2 then slot
      else
        match after.(failures) !! key with
        | Some failure =>
            (Some (Failed (String.append "socket ownership became unsafe during batched attribution: " failure)), None)
        | None =>
            if bool_decide (before.(unique) !! key = after.(unique) !! key) then slot
            else (Some (Failed "socket ownership changed during batched attribution"), None)
        end
  end.

Definition revalidate_batch_owners {E} (keys : list (option SocketOwnerKey)) (before : OwnerSnapshot)
    (deadline : Z) (slots : list Slot) : ST Resolver E (list Slot) :=
  let targets := successful_targets keys slots in
  if bool_decide (targets = ∅) then mret slots
  else
    resolved ← attempt (
      hints ← owner_fd_hints (hinted_owners before targets) deadline ∅;
      owner_snapshot targets deadline (Some hints));
    match resolved with
    | Err error =>
        mret ((fun slot : Slot => if is_some slot.2 then (Some error, None) else slot) <$> slots)
    | Ok after => mret (zip_with (revalidated_slot before after) keys slots)
    end.

(** The strict attribution: the first snapshot if there was one, what was found
    of the sockets, and the results. *)
Definition resolve_strict {E} (requests : list Request) (deadline : Z)
    : ST Resolver E (option OwnerSnapshot * list (option SocketOwnerKey) * list IdentityCaptureResult) :=
  resolved ← resolve_batch_socket_keys requests deadline;
  let keys := batch_keys resolved in
  let errors := batch_errors resolved in
  let targets := batch_targets resolved in
  before ← (if bool_decide (targets = ∅) then mret (Ok OwnerSnapshot_default)
            else attempt (owner_snapshot targets deadline None));
  match before with
  | Err error =>
      let slots := zip_with (fun (key : option SocketOwnerKey) (slot : option OwnerError) =>
        (if is_some key && is_none slot then Some error else slot, None)) keys errors in
      mret (None, keys, batch_resolution_result <$> slots)
  | Ok before =>
      captures ← capture_batch_identities requests keys before deadline;
      let slots := zip_with (fun (request : Request) (entry : option SocketOwnerKey * option OwnerError) =>
        captured_slot before captures request.2 entry.1 entry.2) requests (zip keys errors) in
      let slots := reject_inconsistent_batch_identities keys slots in
      slots ← revalidate_batch_owners keys before deadline slots;
      mret (Some before, keys, batch_resolution_result <$> slots)
  end.
End Batch.
