(* ===== verification/ResolutionFacts.v ===== *)
(** * What an attribution shows

    The connection between a result of [Resolution] and the state of [/proc]
    during the lookup. *)

From S2P Require Import Prelude Text Net Application Model State StateFacts Netlink Decision Capture SocketDiag.
From S2P Require Import Pinning Procfs Owners OwnerFacts Resolution.
Local Open Scope Z_scope.

(** ** Time *)

Section DiagLater.
Context `{Target} (instant : nat -> Z).

Lemma poll_later deadline : always later (attribution_poll_timeout instant deadline).
Proof. intros r. rewrite poll_run. unfold later. cbn. lia. Qed.
#[local] Hint Resolve poll_later within_later : later.

Lemma receive_later connection deadline : forall events socket s,
  always later (receive_answer instant events connection socket deadline s).
Proof. induction events as [|event events IH]; intros socket s; cbn [receive_answer]; goes_on. Qed.
#[local] Hint Resolve receive_later : later.

Lemma query_later socket connection deadline : always later (query instant socket connection deadline).
Proof. unfold query. goes_on. Qed.
Lemma open_later deadline : always later (SockDiagSocket_open instant deadline).
Proof. unfold SockDiagSocket_open. goes_on. Qed.
#[local] Hint Resolve query_later open_later : later.
Lemma diag_later connection deadline :
  always later (resolve_socket_inode_with_sock_diag instant connection deadline).
Proof. unfold resolve_socket_inode_with_sock_diag, next_instant. goes_on. Qed.
Lemma scan_lines_later connection deadline : forall ls index s,
  always later (scan_socket_lines instant index ls connection deadline s).
Proof. induction ls as [|line ls IH]; intros index s; cbn [scan_socket_lines]; goes_on. Qed.
#[local] Hint Resolve diag_later scan_lines_later : later.
Lemma socket_inode_later files connection deadline :
  always later (resolve_socket_inode instant files connection deadline).
Proof.
  unfold resolve_socket_inode, resolve_socket_inode_from_procfs, read_bounded. goes_on.
Qed.
End DiagLater.
#[export] Hint Resolve socket_inode_later : later.

Section IdentityLater.
Context (procfs : nat -> Procfs) (instant : nat -> Z).

Lemma find_fd_later process target deadline maximum : forall entries count,
  always later (find_fd_entries procfs instant entries process target deadline maximum count).
Proof. induction entries as [|entry entries IH]; intros count; cbn [find_fd_entries]; goes_on. Qed.
#[local] Hint Resolve find_fd_later : later.
Lemma find_socket_later process target deadline maximum :
  always later (find_socket_fd_bounded procfs instant process target deadline maximum).
Proof. unfold find_socket_fd_bounded. goes_on. Qed.
#[local] Hint Resolve find_socket_later : later.
Lemma verified_fd_later process fd target deadline :
  always later (verified_socket_fd procfs instant process fd target deadline).
Proof. unfold verified_socket_fd. goes_on. Qed.
Lemma identity_later process pid uid deadline requirements :
  always later (capture_process_identity procfs instant process pid uid deadline requirements).
Proof. unfold capture_process_identity. goes_on. Qed.
#[local] Hint Resolve verified_fd_later identity_later : later.
Lemma verify_sockets_later {E} task deadline : forall sockets verified captured,
  always later (verify_sockets procfs instant sockets task deadline verified captured : ST Resolver E _).
Proof. induction sockets as [|[key fd] sockets IH]; intros verified captured; cbn [verify_sockets]; goes_on. Qed.
Lemma reverify_later task key fd deadline identity :
  always later (reverify_socket procfs instant task key fd deadline identity).
Proof. unfold reverify_socket. goes_on. Qed.
#[local] Hint Resolve verify_sockets_later reverify_later : later.
Lemma reverify_sockets_later {E} task deadline metadata : forall verified captured,
  always later (reverify_sockets procfs instant verified task deadline metadata captured : ST Resolver E _).
Proof. induction verified as [|[key fd] verified IH]; intros captured; cbn [reverify_sockets]; goes_on. Qed.
#[local] Hint Resolve reverify_sockets_later : later.
Lemma capture_task_later {E} task sockets deadline metadata :
  always later metadata ->
  always later (capture_task_socket_identities procfs instant task sockets deadline metadata : ST Resolver E _).
Proof. intros Hm. unfold capture_task_socket_identities. goes_on. Qed.
End IdentityLater.
#[export] Hint Resolve verified_fd_later identity_later verify_sockets_later reverify_later reverify_sockets_later
  capture_task_later : later.

(** ** Captures *)

Section Captured.
Context (procfs : nat -> Procfs) (instant : nat -> Z).

(** At a time, the task runs this executable. *)
Definition runs_at (k : nat) (task : ProcPath) (identity : ApplicationIdentity) : Prop :=
  proc_exe (procfs k) task = Some (Utf8Path (path_str (ai_executable identity))).

(** Between two times, the executable that the task runs was opened and
    inspected, and is the file of the identity. *)
Definition pinned_between (n n' : nat) (task : ProcPath) (identity : ApplicationIdentity) : Prop :=
  exists k k' handle metadata, (n <= k < k')%nat /\ (k' < n')%nat
  /\ proc_exe_open (procfs k) task = Some handle /\ proc_inspect (procfs k') handle = Some metadata
  /\ executable_file_id metadata = Ok (ai_executable_file identity).

(** Between two times, the numbers of the task are those of the identity. *)
Definition numbered_between (n n' : nat) (task : ProcPath) (identity : ApplicationIdentity) : Prop :=
  (exists bytes, opened_between procfs n n' task "stat" bytes
     /\ parse_start_time bytes = Ok (ai_process_start_time_ticks identity))
  /\ exists bytes, opened_between procfs n n' task "status" bytes /\ parse_fs_uid bytes = Ok (ai_uid identity).

(** Twice between two times: the same process, user, executable and file. *)
Definition described (n n' : nat) (task : ProcPath) (identity : ApplicationIdentity) : Prop :=
  exists k k', (n <= k < k')%nat /\ (k' < n')%nat
  /\ numbered_between n k task identity /\ runs_at k task identity /\ pinned_between k k' task identity
  /\ runs_at k' task identity /\ pinned_between k' n' task identity /\ numbered_between k' n' task identity.

Lemma start_time_Ok process deadline r r' ticks :
  read_start_time procfs instant process deadline r = (r', Ok ticks) ->
  exists bytes, opened_between procfs (readings r) (readings r') process "stat" bytes /\ parse_start_time bytes = Ok ticks.
Proof.
  unfold read_start_time. intros Hrun. step Hrun bytes' r1 H1. apply read_file_Ok in H1. injection Hrun as <- Hp. eauto.
Qed.

Lemma opened_within n n' m m' path name bytes' :
  opened_between procfs m m' path name bytes' -> (n <= m)%nat -> (m' <= n')%nat ->
  opened_between procfs n n' path name bytes'.
Proof. intros (k & file & Hk & Ho) Hn Hm. exists k, file. split; [lia|done]. Qed.

Lemma optional_later {A} (b : bool) (m : ST Resolver OwnerError A) x :
  always later m -> always later (if b then m else mret x).
Proof. intros Hm. destruct b; goes_on. Qed.

Lemma ApplicationPath_new_text text path : ApplicationPath_new text = Ok path -> path_str path = text.
Proof. unfold ApplicationPath_new. repeat (case_match; [done|]). by intros [= <-]. Qed.

Lemma identity_captured process pid uid deadline requirements r r' identity :
  capture_process_identity procfs instant process pid uid deadline requirements r = (r', Ok identity) ->
  ai_pid identity = pid /\ ai_uid identity = uid /\ ApplicationIdentity_validate identity = Ok tt
  /\ described (readings r) (readings r') process identity.
Proof.
  unfold capture_process_identity. cbn zeta. intros Hrun.
  step Hrun start0 r1 H1. took H1. step Hrun uid0 r2 H2. took H2. passes Hrun Hu0. apply ensure_Ok, Z.eqb_eq in Hu0 as <-.
  step Hrun x3 r3 H3. took H3. step Hrun link0 r4 H4. apply look_Ok in H4 as [-> ->]. takes Hrun l0 Hlink0.
  step Hrun x5 r5 H5. took H5. takes Hrun text Htext. takes Hrun path Hpath.
  step Hrun handle0 r6 H6. apply look_Ok in H6 as [-> ->]. takes Hrun h0 Hopen0. step Hrun x7 r7 H7. took H7.
  step Hrun meta0 r8 H8. apply look_Ok in H8 as [-> ->]. takes Hrun m0 Hmeta0. step Hrun x9 r9 H9. took H9. takes Hrun f0 Hfile0.
  step Hrun cmd0 r10 H10. pose proof (later_run _ _ _ _ (optional_later _ _ _ (command_line_later _ _ _ _)) H10) as T10.
  step Hrun cg0 r11 H11. pose proof (later_run _ _ _ _ (optional_later _ _ _ (cgroups_later _ _ _ _)) H11) as T11.
  step Hrun x12 r12 H12. took H12. step Hrun link1 r13 H13. apply look_Ok in H13 as [-> ->]. takes Hrun l1 Hlink1.
  step Hrun x14 r14 H14. took H14. step Hrun handle1 r15 H15. apply look_Ok in H15 as [-> ->]. takes Hrun h1 Hopen1.
  step Hrun meta1 r16 H16. apply look_Ok in H16 as [-> ->]. takes Hrun m1 Hmeta1. takes Hrun f1 Hfile1.
  step Hrun x17 r17 H17. took H17.
  step Hrun cmd1 r18 H18. pose proof (later_run _ _ _ _ (optional_later _ _ _ (command_line_later _ _ _ _)) H18) as T18.
  step Hrun cg1 r19 H19. pose proof (later_run _ _ _ _ (optional_later _ _ _ (cgroups_later _ _ _ _)) H19) as T19.
  step Hrun start1 r20 H20. took H20. step Hrun uid1 r21 H21. took H21. passes Hrun Hsame. passes Hrun Hvalid.
  injection Hrun as <- <-. apply map_err_Ok in Hvalid.
  match type of Hvalid with _ = Ok ?u => destruct u end.
  apply ensure_Ok in Hsame. rewrite !andb_true_iff in Hsame. destruct Hsame as [[[[[El Ef] _] _] Es] Eu].
  apply (proj1 (eqb_true _ _)) in El, Ef. apply Z.eqb_eq in Es as <-, Eu as <-.
  apply ok_or_Ok in Hlink0, Htext, Hopen0, Hmeta0, Hlink1, Hopen1, Hmeta1. apply map_err_Ok in Hpath, Hfile0, Hfile1.
  apply ApplicationPath_new_text in Hpath. subst l1 f1 text. cbn [tick readings] in *.
  assert (l0 = Utf8Path (path_str path)) as -> by (destruct l0; cbn in Htext; congruence).
  apply start_time_Ok in H1 as (b1 & Ho1 & Hp1), H20 as (b20 & Ho20 & Hp20).
  apply fs_uid_Ok in H2 as (b2 & Ho2 & Hp2), H21 as (b21 & Ho21 & Hp21).
  split_and!; [done|done|done|]. exists (readings r3), (readings r12). split_and!; [lia|lia|lia| |done| |done| |].
  - split; eexists; (split; [eapply opened_within; [exact Ho1 || exact Ho2|lia|lia]|done]).
  - exists (readings r5), (readings r7), h0, m0. split_and!; [lia|lia|lia|done..].
  - exists (readings r14), (S (readings r14)), h1, m1. split_and!; [lia|lia|lia|done..].
  - split; eexists; (split; [eapply opened_within; [exact Ho20 || exact Ho21|lia|lia]|done]).
Qed.

(** At some time from [n] until [n'], the descriptor was the socket. *)
Definition shown (n n' : nat) (task : ProcPath) (name : Bytes) (inode : Z) : Prop :=
  exists k, (n <= k < n')%nat /\ proc_fd_link (procfs k) (task, name) = Ok (socket_link inode).

Lemma shown_within n n' m m' task name inode :
  shown m m' task name inode -> (n <= m)%nat -> (m' <= n')%nat -> shown n n' task name inode.
Proof. intros (k & Hk & Hl) Hn Hm. exists k. split; [lia|done]. Qed.

Lemma find_fd_shown process inode deadline maximum : forall entries count r r' name,
  find_fd_entries procfs instant entries process (socket_link inode) deadline maximum count r = (r', Ok (Some name)) ->
  shown (readings r) (readings r') process name inode.
Proof.
  induction entries as [|entry entries IH]; intros count r r' name Hrun; cbn [find_fd_entries] in Hrun; [done|].
  step Hrun x1 r1 H1. took H1. passes Hrun Hb. takes Hrun name' Hn. step Hrun link r2 H2. apply look_Ok in H2 as [-> ->].
  destruct (proc_fd_link (procfs (readings r1)) (process, name')) as [link|[]] eqn:El; try done.
  - step Hrun x3 r3 H3. took H3. cbn [tick readings] in *. destruct (link ==? socket_link inode) eqn:Eq.
    + injection Hrun as <- <-. apply (proj1 (eqb_true _ _)) in Eq. subst link. exists (readings r1). split; [lia|done].
    + eapply shown_within; [by eapply IH|lia|done].
  - eapply shown_within; [by eapply IH|cbn [tick readings]; lia|done].
Qed.

Lemma verified_fd_shown task fd inode deadline r r' name :
  verified_socket_fd procfs instant task fd (socket_link inode) deadline r = (r', Ok name) ->
  shown (readings r) (readings r') task name inode.
Proof.
  unfold verified_socket_fd. intros Hrun. step Hrun x1 r1 H1. took H1. step Hrun link r2 H2. apply look_Ok in H2 as [-> ->].
  cbn zeta in Hrun.
  assert (Hsearch : (found ← find_socket_fd_bounded procfs instant task (socket_link inode) deadline MAX_FDS_PER_TASK;
    lift (ok_or (Failed "attributed socket fd is no longer owned by the process") found)) (tick r1) = (r', Ok name) ->
    shown (readings r) (readings r') task name inode).
  { intros Hs. step Hs found r3 H3. injection Hs as <- Hs. apply ok_or_Ok in Hs as ->.
    unfold find_socket_fd_bounded in H3. passes H3 Hm. step H3 x4 r4 H4. took H4. step H3 listing r5 H5. took H5.
    passes H3 He. step H3 x6 r6 H6. took H6. cbn [tick readings] in *.
    eapply shown_within; [by eapply find_fd_shown|lia|done]. }
  destruct (proc_fd_link (procfs (readings r1)) (task, fd)) as [link|[]] eqn:El; try done; [|by apply Hsearch].
  destruct (link ==? socket_link inode) eqn:Eq; [|by apply Hsearch]. injection Hrun as <- <-.
  apply (proj1 (eqb_true _ _)) in Eq. subst link. exists (readings r1). cbn. split; [lia|done].
Qed.

Lemma attempt_run {S E E' A} (m : ST S E A) s s' x :
  (attempt m : ST S E' _) s = (s', Ok x) -> m s = (s', x).
Proof. unfold attempt. destruct (m s). by intros [= <- <-]. Qed.

Lemma verify_sockets_facts {E} task deadline n : forall sockets verified captured r r' out,
  (verify_sockets procfs instant sockets task deadline verified captured : ST Resolver E _) r = (r', Ok out) ->
  (n <= readings r)%nat ->
  (forall key name, verified !! key = Some name -> shown n (readings r) task name (key_inode key)) ->
  (forall key x, captured !! key = Some x -> is_ok x = false) ->
  (forall key name, out.1 !! key = Some name -> shown n (readings r') task name (key_inode key))
  /\ (forall key x, out.2 !! key = Some x -> is_ok x = false)
  /\ forall key, key ∈ sockets.*1 \/ is_Some (verified !! key) \/ is_Some (captured !! key) <->
     is_Some (out.1 !! key) \/ is_Some (out.2 !! key).
Proof.
  induction sockets as [|[key fd] sockets IH]; intros verified captured r r' out Hrun Hn Hv Hc; cbn [verify_sockets] in Hrun.
  { injection Hrun as <- <-. split_and!; [done..|]. intros key. split; [by intros [?%elem_of_nil|?]|by right]. }
  step Hrun found r1 H1. took H1. apply attempt_run in H1. destruct found as [name|e].
  - destruct (IH _ _ _ _ _ Hrun) as (Hv' & Hc' & Hall); [lia| |done|].
    + intros k x [[<- <-]|[_ Hk]]%lookup_insert_Some.
      * eapply shown_within; [by eapply verified_fd_shown|lia|done].
      * eapply shown_within; [by apply Hv|lia|done].
    + split_and!; [done..|]. intros k. rewrite <-Hall. cbn [fmap list_fmap fst]. rewrite elem_of_cons.
      destruct (decide (k = key)) as [->|Hne]; [rewrite lookup_insert_eq|rewrite lookup_insert_ne by done]; naive_solver.
  - destruct (IH _ _ _ _ _ Hrun) as (Hv' & Hc' & Hall); [lia| | |].
    + intros k x Hk. eapply shown_within; [by apply Hv|lia|done].
    + intros k x [[<- <-]|[_ Hk]]%lookup_insert_Some; [done|by eapply Hc].
    + split_and!; [done..|]. intros k. rewrite <-Hall. cbn [fmap list_fmap fst]. rewrite elem_of_cons.
      destruct (decide (k = key)) as [->|Hne]; [rewrite lookup_insert_eq|rewrite lookup_insert_ne by done]; naive_solver.
Qed.

Lemma reverify_sockets_facts {E} task deadline metadata : forall verified captured r r' out,
  (reverify_sockets procfs instant verified task deadline metadata captured : ST Resolver E _) r = (r', Ok out) ->
  (forall key identity, out !! key = Some (Ok identity) ->
     captured !! key = Some (Ok identity)
     \/ exists name, (key, name) ∈ verified /\ metadata = Ok identity
        /\ shown (readings r) (readings r') task name (key_inode key))
  /\ forall key, key ∈ verified.*1 \/ is_Some (captured !! key) <-> is_Some (out !! key).
Proof.
  induction verified as [|[key fd] verified IH]; intros captured r r' out Hrun; cbn [reverify_sockets] in Hrun.
  { injection Hrun as <- <-. split; [by left|]. intros key. split; [by intros [?%elem_of_nil|?]|by right]. }
  step Hrun identity r1 H1. assert (T1 : (readings r <= readings r1)%nat) by (destruct metadata; by took H1). took Hrun.
  destruct (IH _ _ _ _ Hrun) as [Hid Hall]. split.
  - intros k id Hk. destruct (Hid k id Hk) as [Hc|(name & Hin & Hm & Hs)].
    + apply lookup_insert_Some in Hc as [[<- ->]|[_ Hc]]; [right|by left].
      destruct metadata as [metadata|e]; [|by injection H1]. apply attempt_run in H1. exists fd. split; [by left|].
      unfold reverify_socket in H1. step H1 x2 r2 H2. took H2. step H1 link r3 H3. apply look_Ok in H3 as [-> ->].
      step H1 x4 r4 H4. took H4. passes H1 He. injection H1 as <- <-. split; [done|]. apply ensure_Ok in He.
      cbn [tick readings] in *. destruct (proc_fd_link _ _) as [link|] eqn:El; [|done].
      apply (proj1 (eqb_true _ _)) in He. subst link. exists (readings r2). split; [lia|done].
    + right. exists name. split_and!; [by right|done|]. eapply shown_within; [done|lia|done].
  - intros k. rewrite <-Hall. cbn [fmap list_fmap fst]. rewrite elem_of_cons.
    destruct (decide (k = key)) as [->|Hne]; [rewrite lookup_insert_eq|rewrite lookup_insert_ne by done]; naive_solver.
Qed.

Lemma socket_entries_in {A} (m : gmap SocketOwnerKey A) key x :
  (key, x) ∈ socket_entries m <-> m !! key = Some x.
Proof. unfold socket_entries. by rewrite merge_sort_Permutation, elem_of_map_to_list. Qed.

Lemma socket_entries_keys {A} (m : gmap SocketOwnerKey A) key : key ∈ (socket_entries m).*1 <-> is_Some (m !! key).
Proof.
  rewrite list_elem_of_fmap. split.
  - intros ([k x] & -> & Hin). apply socket_entries_in in Hin. by exists x.
  - intros [x Hx]. exists (key, x). split; [done|]. by apply socket_entries_in.
Qed.

(** A capture that succeeds is between two sights of the socket. *)
Lemma capture_task_facts {E} task sockets deadline metadata r r' out :
  always later metadata ->
  (capture_task_socket_identities procfs instant task sockets deadline metadata : ST Resolver E _) r = (r', Ok out) ->
  (forall key identity, out !! key = Some (Ok identity) -> exists r1 r2 name,
     metadata r1 = (r2, Ok identity) /\ (readings r2 <= readings r')%nat
     /\ shown (readings r) (readings r1) task name (key_inode key)
     /\ shown (readings r2) (readings r') task name (key_inode key))
  /\ forall key, is_Some (sockets !! key) <-> is_Some (out !! key).
Proof.
  intros Hm. unfold capture_task_socket_identities. intros Hrun. step Hrun checked r1 H1. took H1.
  apply (verify_sockets_facts _ _ (readings r)) in H1 as (Hv & Hc & Hall);
    [|done|by intros k x; rewrite lookup_empty|by intros k x; rewrite lookup_empty].
  case_bool_decide as Hnone.
  { injection Hrun as <- <-. split.
    - intros key identity Hk. apply Hc in Hk. done.
    - intros key. specialize (Hall key). rewrite socket_entries_keys, Hnone, !lookup_empty in Hall.
      pose proof (is_Some_None (A := Bytes)). pose proof (is_Some_None (A := IdentityCaptureResult)). tauto. }
  step Hrun result r2 H2. took H2. took Hrun. apply attempt_run in H2.
  apply reverify_sockets_facts in Hrun as [Hid Hdom]. split.
  - intros key identity Hk. destruct (Hid _ _ Hk) as [Hbad|(name & Hin & -> & Hs)]; [by apply Hc in Hbad|].
    exists r1, r2, name. apply socket_entries_in in Hin. split_and!; [done|lia|by apply Hv|done].
  - intros key. specialize (Hall key). specialize (Hdom key). rewrite socket_entries_keys in *.
    rewrite !lookup_empty in Hall. pose proof (is_Some_None (A := Bytes)).
    pose proof (is_Some_None (A := IdentityCaptureResult)). tauto.
Qed.
End Captured.

(** ** The captures of a batch *)

(** Identities that a rule cannot tell apart. *)
Record same_application (a b : ApplicationIdentity) : Prop := {
  sa_executable : ai_executable a = ai_executable b;
  sa_file : ai_executable_file a = ai_executable_file b;
  sa_command_line : ai_command_line a = ai_command_line b;
  sa_uid : ai_uid a = ai_uid b;
  sa_cgroups : ai_cgroups a = ai_cgroups b
}.
#[export] Instance same_application_equiv : Equivalence same_application.
Proof. split; [by intros a|by intros a b []|intros a b c [] []; split; congruence]. Qed.

Lemma equivalent_enforcement_spec a b : equivalent_enforcement_identity a b = true <-> same_application a b.
Proof.
  unfold equivalent_enforcement_identity. rewrite !andb_true_iff, !eqb_true, Z.eqb_eq.
  split; [by intros [[[[]]]]; split|by intros []].
Qed.

(** What [merge_task_identity] leaves under a key. *)
Definition merged (previous : option IdentityCaptureResult) (identity : IdentityCaptureResult) : IdentityCaptureResult :=
  match previous with
  | None => identity
  | Some (Err error) => Err error
  | Some (Ok previous) =>
      identity ← identity;
      ensure (equivalent_enforcement_identity previous identity)
        (Failed "socket-owning tasks have ambiguous application identities") ;;
      mret identity
  end.

Lemma merge_lookup captures key identity key' :
  merge_task_identity captures key identity !! key'
  = if decide (key = key') then Some (merged (captures !! key) identity) else captures !! key'.
Proof.
  unfold merge_task_identity, merged. destruct (captures !! key) as [[previous|error]|] eqn:E; case_decide as Hk; subst;
    first [done|by rewrite lookup_insert_eq|by rewrite lookup_insert_ne].
Qed.

Lemma merge_fold requirements key requirements' : forall entries captures,
  NoDup entries.*1 ->
  foldl (fun captures entry => merge_task_identity captures (entry.1, requirements) entry.2) captures entries
    !! (key, requirements')
  = match (if decide (requirements = requirements') then snd <$> List.find (fun e => bool_decide (e.1 = key)) entries else None) with
    | Some identity => Some (merged (captures !! (key, requirements')) identity)
    | None => captures !! (key, requirements')
    end.
Proof.
  induction entries as [|[k x] entries IH]; intros captures Hnd; cbn [foldl].
  { cbn. by case_decide. }
  cbn [fmap list_fmap fst] in Hnd. apply NoDup_cons in Hnd as [Hk Hnd]. rewrite IH, merge_lookup by done. cbn [fst snd].
  cbn [List.find fst]. case_decide as Hr; [subst requirements'|by rewrite decide_False by congruence].
  case_bool_decide as Hkey.
  - subst k. rewrite decide_True by done.
    destruct (List.find _ entries) as [[k' y]|] eqn:Ef; [|done]. exfalso. apply Hk.
    apply find_some in Ef as [Hin Heq]. cbn in Heq. apply bool_decide_eq_true in Heq as ->.
    apply list_elem_of_fmap. exists (key, y). split; [done|]. by apply list_elem_of_In.
  - rewrite decide_False by congruence. done.
Qed.

Lemma merge_entries requirements key requirements' (identities : gmap SocketOwnerKey IdentityCaptureResult) captures :
  foldl (fun captures entry => merge_task_identity captures (entry.1, requirements) entry.2) captures
    (socket_entries identities) !! (key, requirements')
  = match (if decide (requirements = requirements') then identities !! key else None) with
    | Some identity => Some (merged (captures !! (key, requirements')) identity)
    | None => captures !! (key, requirements')
    end.
Proof.
  assert (Hnd : NoDup (socket_entries identities).*1).
  { unfold socket_entries. rewrite merge_sort_Permutation. apply NoDup_fst_map_to_list. }
  rewrite merge_fold by done. case_decide; [|done].
  replace (snd <$> _) with (identities !! key); [done|].
  destruct (List.find _ _) as [[k x]|] eqn:Ef.
  - apply find_some in Ef as [Hin Hk]. cbn in Hk. apply bool_decide_eq_true in Hk as ->.
    apply list_elem_of_In, socket_entries_in in Hin. done.
  - destruct (identities !! key) as [x|] eqn:Ex; [|done]. apply socket_entries_in, list_elem_of_In in Ex.
    eapply find_none in Ex; [|exact Ef]. cbn in Ex. by apply bool_decide_eq_false in Ex.
Qed.

Lemma merged_Ok previous identity result :
  merged previous identity = Ok result ->
  identity = Ok result /\ forall x, previous = Some x -> exists id, x = Ok id /\ same_application id result.
Proof.
  unfold merged. destruct previous as [[previous|error]|]; [|done|naive_solver].
  intros Hm. apply bind_Ok_inv in Hm as (id & -> & Hm). apply seq_Ok in Hm as [He [= ->]].
  split; [done|]. intros x [= <-]. apply ensure_Ok, equivalent_enforcement_spec in He. eauto.
Qed.

Section Groups.
Context (procfs : nat -> Procfs) (instant : nat -> Z).

(** Between [n] and [n'], the task was seen with the socket, described by the
    identity, and seen with the socket again. *)
Definition captured (n n' : nat) (process_id tid : Z) (key : SocketOwnerKey) (identity : ApplicationIdentity) : Prop :=
  ai_pid identity = tid /\ ai_uid identity = key_uid key /\ ApplicationIdentity_validate identity = Ok tt
  /\ exists k k' name, (n <= k)%nat /\ (k' <= n')%nat
     /\ shown procfs n k (TaskPath process_id tid) name (key_inode key)
     /\ described procfs k k' (TaskPath process_id tid) identity
     /\ shown procfs k' n' (TaskPath process_id tid) name (key_inode key).

Lemma captured_within n n' m m' process_id tid key identity :
  captured m m' process_id tid key identity -> (n <= m)%nat -> (m' <= n')%nat ->
  captured n n' process_id tid key identity.
Proof.
  intros (Hp & Hu & Hv & k & k' & name & Hk & Hk' & Hs & Hd & Hs') Hn Hm. split_and!; [done..|].
  exists k, k', name. split_and!; [lia|lia|eapply shown_within; [exact Hs|lia|lia]|done|eapply shown_within; [exact Hs'|lia|lia]].
Qed.

(** A task of a group of captures that has the socket. *)
Definition group_has (task : TaskIdentityCaptureKey) (sockets : gmap SocketOwnerKey Bytes) (key : SocketOwnerKey)
    (requirements : IdentityCaptureRequirements) : Prop :=
  ck_requirements task = requirements /\ is_Some (sockets !! key).

Lemma capture_groups_facts deadline : forall groups captures r r' out,
  capture_groups procfs instant groups deadline captures r = (r', Ok out) ->
  (forall task sockets key, (task, sockets) ∈ groups -> is_Some (sockets !! key) -> key_uid key = ck_socket_uid task) ->
  (readings r <= readings r')%nat
  /\ forall key requirements identity, out !! (key, requirements) = Some (Ok identity) ->
     (forall x, captures !! (key, requirements) = Some x -> exists id, x = Ok id /\ same_application id identity)
     /\ (forall task sockets, (task, sockets) ∈ groups -> group_has task sockets key requirements ->
         exists id, captured (readings r) (readings r') (ck_process_id task) (ck_tid task) key id
                    /\ same_application id identity)
     /\ (captures !! (key, requirements) = Some (Ok identity)
         \/ exists task sockets, (task, sockets) ∈ groups /\ group_has task sockets key requirements
            /\ captured (readings r) (readings r') (ck_process_id task) (ck_tid task) key identity).
Proof.
  induction groups as [|[task sockets] groups IH]; intros captures r r' out Hrun Huid; cbn [capture_groups] in Hrun.
  { injection Hrun as <- <-. split; [done|]. intros key req id Hid. split_and!; [naive_solver|by intros ? ? ?%elem_of_nil|by left]. }
  step Hrun x1 r1 H1. took H1. cbn zeta in Hrun. step Hrun identities r2 H2. took H2.
  destruct (IH _ _ _ _ Hrun) as [T3 Hout]; [intros t so k Hin; apply Huid; by right|]. split; [lia|].
  apply capture_task_facts in H2 as [Hid Hdom]; [|apply identity_later].
  assert (Hhead : forall key id, identities !! key = Some (Ok id) -> is_Some (sockets !! key) ->
    captured (readings r) (readings r') (ck_process_id task) (ck_tid task) key id).
  { intros key id Hk Hs. destruct (Hid key id Hk) as (ra & rb & name & Hm & Tb & Hs1 & Hs2).
    pose proof (later_run _ _ _ _ (identity_later _ _ _ _ _ _ _) Hm) as Tm. destruct Hs1 as (ka & Hka & Hla).
    apply identity_captured in Hm as (Hp & Hu & Hv & Hd). split_and!; [done| |done|].
    - rewrite Hu. symmetry. eapply Huid; [by left|done].
    - exists (readings ra), (readings rb), name. split_and!; [lia|lia| |done|eapply shown_within; [done|lia|lia]].
      exists ka. split; [lia|done]. }
  intros key req identity Hkey. destruct (Hout key req identity Hkey) as (Hprev & Hall & Hfrom).
  rewrite merge_entries in Hprev, Hfrom.
  assert (Hlater : forall task' sockets', (task', sockets') ∈ groups -> group_has task' sockets' key req ->
    exists id, captured (readings r) (readings r') (ck_process_id task') (ck_tid task') key id /\ same_application id identity).
  { intros t so Hin Hg. destruct (Hall t so Hin Hg) as (id & Hc & Hs). exists id. split; [|done].
    eapply captured_within; [done|lia|lia]. }
  destruct (if decide (ck_requirements task = req) then identities !! key else None) as [x|] eqn:Ex.
  - case_decide as Hreq; [|done]. destruct (Hprev _ eq_refl) as (id1 & Hm & Hs1).
    apply merged_Ok in Hm as [-> Hold]. split_and!.
    + intros x0 Hx0. destruct (Hold x0 Hx0) as (id0 & -> & Hs0). exists id0. split; [done|]. by etrans.
    + intros t so [[= -> ->]|Hin]%elem_of_cons Hg; [|by eapply Hlater].
      exists id1. split; [|done]. apply Hhead; [done|apply Hg].
    + right. destruct Hfrom as [Hm|(t & so & Hin & Hg & Hc)].
      * injection Hm as Hm. apply merged_Ok in Hm as [[= ->] _].
        assert (is_Some (sockets !! key)) by (apply Hdom; by rewrite Ex).
        exists task, sockets. split_and!; [by left|done|by apply Hhead].
      * exists t, so. split_and!; [by right|done|]. eapply captured_within; [done|lia|lia].
  - split_and!; [done| |].
    + intros t so [[= -> ->]|Hin]%elem_of_cons Hg; [|by eapply Hlater]. destruct Hg as [Hreq Hs].
      rewrite decide_True in Ex by done. apply Hdom in Hs as [y Hy]. congruence.
    + destruct Hfrom as [Hm|(t & so & Hin & Hg & Hc)]; [by left|right].
      exists t, so. split_and!; [by right|done|]. eapply captured_within; [done|lia|lia].
Qed.

(** *** The groups *)

Definition in_groups (groups : CaptureGroups) (task : TaskIdentityCaptureKey) (key : SocketOwnerKey) : Prop :=
  exists sockets, groups !! task = Some sockets /\ is_Some (sockets !! key).

Definition capture_key_of (key : SocketOwnerKey) (requirements : IdentityCaptureRequirements) (owner : OwnerTask)
    : TaskIdentityCaptureKey :=
  mkCaptureKey (ot_process_id owner) (ot_tid owner) (key_uid key) requirements.

Lemma add_capture_in key requirements owner groups task key' :
  in_groups (add_capture key requirements owner groups) task key'
  <-> in_groups groups task key' \/ task = capture_key_of key requirements owner /\ key' = key.
Proof.
  unfold in_groups, add_capture. cbn zeta. fold (capture_key_of key requirements owner).
  set (t := capture_key_of key requirements owner). destruct (decide (task = t)) as [->|Hne].
  - rewrite lookup_insert_eq. split.
    + intros (so & [= <-] & Hk). destruct (decide (key' = key)) as [->|]; [by right|].
      rewrite lookup_insert_ne in Hk by done. left. destruct (groups !! t) as [so|]; [by eauto|].
      cbn [from_option] in Hk. rewrite lookup_empty in Hk. by destruct Hk.
    + intros [(so & Hso & Hk)|[_ ->]]; eexists; (split; [done|]).
      * rewrite Hso. cbn [from_option]. destruct (decide (key' = key)) as [->|];
          [by rewrite lookup_insert_eq|by rewrite lookup_insert_ne].
      * by rewrite lookup_insert_eq.
  - rewrite lookup_insert_ne by done. naive_solver.
Qed.

Lemma group_owners_facts key requirements deadline : forall tasks groups r r' out,
  group_owners instant tasks key requirements deadline groups r = (r', Ok out) ->
  (readings r <= readings r')%nat
  /\ forall task key', in_groups out task key'
     <-> in_groups groups task key'
         \/ key' = key /\ exists owner, owner ∈ tasks /\ task = capture_key_of key requirements owner.
Proof.
  induction tasks as [|owner tasks IH]; intros groups r r' out Hrun; cbn [group_owners] in Hrun.
  { injection Hrun as <- <-. split; [done|]. intros t k. split; [by left|].
    by intros [?|(_ & o & ?%elem_of_nil & _)]. }
  step Hrun x1 r1 H1. took H1. destruct (IH _ _ _ _ Hrun) as [T2 Hin]. split; [lia|]. intros t k.
  rewrite Hin, add_capture_in. setoid_rewrite elem_of_cons. naive_solver.
Qed.

(** The owners of the sockets of the batch. *)
Definition to_capture (requests : list (Request * option SocketOwnerKey)) (before : OwnerSnapshot)
    (task : TaskIdentityCaptureKey) (key : SocketOwnerKey) : Prop :=
  exists connection requirements tasks owner, ((connection, requirements), Some key) ∈ requests
  /\ failures before !! key = None /\ unique before !! key = Some tasks /\ owner ∈ tasks
  /\ task = capture_key_of key requirements owner.

Lemma group_captures_facts before deadline : forall requests seen groups r r' out,
  group_captures instant requests before deadline seen groups r = (r', Ok out) ->
  (forall key requirements tasks owner, (key, requirements) ∈ seen -> unique before !! key = Some tasks -> owner ∈ tasks ->
     in_groups groups (capture_key_of key requirements owner) key) ->
  (readings r <= readings r')%nat
  /\ forall task key, in_groups out task key <-> in_groups groups task key \/ to_capture requests before task key.
Proof.
  induction requests as [|[[connection requirements] key] requests IH]; intros seen groups r r' out Hrun Hseen;
    cbn [group_captures] in Hrun.
  { injection Hrun as <- <-. split; [done|]. intros t k. split; [by left|].
    by intros [?|(c & q & ts & o & ?%elem_of_nil & _)]. }
  step Hrun x1 r1 H1. took H1. destruct key as [key|].
  2: { destruct (IH _ _ _ _ _ Hrun Hseen) as [T2 Hin]. split; [lia|]. intros t k. rewrite Hin. unfold to_capture.
       setoid_rewrite elem_of_cons. naive_solver. }
  destruct (is_some (failures before !! key) || bool_decide ((key, requirements) ∈ seen)) eqn:Eskip.
  - destruct (IH _ _ _ _ _ Hrun Hseen) as [T2 Hin]. split; [lia|]. intros t k. rewrite Hin. unfold to_capture.
    setoid_rewrite elem_of_cons. split; [naive_solver|].
    intros [?|(c & q & ts & o & [[= -> -> ->]|?] & Hf & Hu & Ho & ->)]; [by left| |naive_solver].
    left. apply orb_true_iff in Eskip as [Es|Es]; [by rewrite Hf in Es|]. apply bool_decide_eq_true in Es.
    by eapply Hseen.
  - step Hrun groups1 r2 H2. apply group_owners_facts in H2 as [T2 Hg].
    destruct (IH _ _ _ _ _ Hrun) as [T3 Hin].
    { intros k q ts o [Hk|[= -> ->]%elem_of_singleton]%elem_of_union Hu Ho; rewrite Hg; [left; by eapply Hseen|].
      right. rewrite Hu. cbn [from_option]. eauto. }
    split; [lia|]. intros t k. rewrite Hin, Hg. apply orb_false_iff in Eskip as [Ef _]. apply is_some_false in Ef.
    unfold to_capture. setoid_rewrite elem_of_cons. split.
    + intros [[?|(-> & o & Ho & ->)]|?]; [by left| |naive_solver]. right.
      destruct (unique before !! key) as [ts|] eqn:Eu; [|by apply elem_of_nil in Ho]. cbn [from_option] in Ho.
      exists connection, requirements, ts, o. naive_solver.
    + intros [?|(c & q & ts & o & [[= -> -> ->]|?] & Hf & Hu & Ho & ->)]; [by left; left| |right; naive_solver].
      left. right. rewrite Hu. cbn [from_option]. eauto.
Qed.

Lemma group_owners_later key requirements deadline : forall tasks groups,
  always later (group_owners instant tasks key requirements deadline groups).
Proof. induction tasks as [|owner tasks IH]; intros groups; cbn [group_owners]; goes_on. Qed.
#[local] Hint Resolve group_owners_later : later.
Lemma group_captures_later before deadline : forall requests seen groups,
  always later (group_captures instant requests before deadline seen groups).
Proof. induction requests as [|[[c q] key] requests IH]; intros seen groups; cbn [group_captures]; goes_on. Qed.
Lemma capture_groups_later deadline : forall groups captures,
  always later (capture_groups procfs instant groups deadline captures).
Proof. induction groups as [|[task sockets] groups IH]; intros captures; cbn [capture_groups]; goes_on. Qed.
#[local] Hint Resolve group_captures_later capture_groups_later : later.
Lemma capture_batch_later {E} requests keys before deadline :
  always later (capture_batch_identities procfs instant requests keys before deadline : ST Resolver E _).
Proof. unfold capture_batch_identities. cbn zeta. goes_on. Qed.

Lemma timed_out_fails requests entry identity : timed_out requests !! entry <> Some (Ok identity).
Proof.
  unfold timed_out. induction requests as [|[[c q] [key|]] requests IH] using rev_ind; [done| |];
    rewrite foldl_snoc; [|done]. cbn [fst snd]. destruct (decide ((key, q) = entry)) as [<-|];
    [by rewrite lookup_insert_eq|by rewrite lookup_insert_ne].
Qed.

(** An identity that a batch captured for a socket is the identity of one of
    the socket's owners, and the other owners are the same application. *)
Lemma capture_batch_facts {E} requests keys before deadline r r' captures i connection requirements key identity :
  (capture_batch_identities procfs instant requests keys before deadline : ST Resolver E _) r = (r', Ok captures) ->
  requests !! i = Some (connection, requirements) -> keys !! i = Some (Some key) ->
  captures !! (key, requirements) = Some (Ok identity) ->
  exists tasks, unique before !! key = Some tasks /\
  (forall owner, owner ∈ tasks -> exists id,
     captured (readings r) (readings r') (ot_process_id owner) (ot_tid owner) key id /\ same_application id identity)
  /\ exists owner, owner ∈ tasks
     /\ captured (readings r) (readings r') (ot_process_id owner) (ot_tid owner) key identity.
Proof.
  unfold capture_batch_identities. cbn zeta. intros Hrun Hreq Hkey Hid. step Hrun result r1 H1.
  destruct result as [found|]; [|injection Hrun as <- <-; by apply timed_out_fails in Hid].
  injection Hrun as <- <-. apply attempt_run in H1. step H1 groups r2 H2.
  apply group_captures_facts in H2 as [T2 Hin]; [|by intros k q ts o ?%elem_of_empty].
  assert (Hnone : forall t k, ~ in_groups ∅ t k) by (intros t k (so & Hso & _); by rewrite lookup_empty in Hso).
  assert (Hsorted : forall t so, (t, so) ∈ merge_sort capture_key_le (map_to_list groups) <-> groups !! t = Some so)
    by (intros t so; by rewrite merge_sort_Permutation, elem_of_map_to_list).
  apply capture_groups_facts in H1 as [T1 Hall].
  2: { intros t so k Hg%Hsorted Hk. destruct (Hin t k) as [[?|(c & q & ts & o & _ & _ & _ & _ & ->)] _]; [by exists so|by edestruct Hnone|done]. }
  destruct (Hall _ _ _ Hid) as (_ & Hevery & [Hbad|(t & so & Hg%Hsorted & [Hq Hk] & Hc)]).
  - by rewrite lookup_empty in Hbad.
  - destruct (Hin t key) as [[?|(c & q & tasks & o & _ & Hf & Hu & Ho & ->)] _]; [by exists so|by edestruct Hnone|].
    exists tasks. split_and!; [done| |exists o; split; [done|eapply captured_within; [exact Hc|lia|lia]]].
    intros owner Howner. destruct (Hin (capture_key_of key requirements owner) key) as [_ Hmem].
    destruct Hmem as (so' & Hso' & Hk').
    { right. exists connection, requirements, tasks, owner. split_and!; [|done..].
      apply list_elem_of_lookup. exists i. rewrite lookup_zip_with, Hreq. cbn. by rewrite Hkey. }
    destruct (Hevery (capture_key_of key requirements owner) so') as (id & Hcap & Hsame); [by apply Hsorted|done|].
    exists id. split; [|done]. eapply captured_within; [exact Hcap|lia|lia].
Qed.
End Groups.
#[export] Hint Resolve capture_batch_later : later.
