(* ===== verification/Attributed.v ===== *)
(** * Attributed connections

    What the strict attribution of a batch guarantees of every connection that
    it gives an application: the socket belongs to one process before and after
    the capture, and every task that has it runs that application. *)

From S2P Require Import Prelude Text Net Application Model State StateFacts Netlink Decision Capture SocketDiag.
From S2P Require Import Pinning Procfs Owners OwnerFacts Resolution ResolutionFacts.
Local Open Scope Z_scope.

(** ** The slots of a batch *)

Lemma captured_slot_Ok before captures requirements key error identity :
  captured_slot before captures requirements key error = (None, Some identity) ->
  exists socket tasks, key = Some socket /\ failures before !! socket = None
  /\ unique before !! socket = Some tasks /\ captures !! (socket, requirements) = Some (Ok identity).
Proof.
  unfold captured_slot. destruct key as [key|]; [|done]. destruct (failures before !! key) eqn:Ef; [done|].
  destruct (unique before !! key) as [tasks|] eqn:Eu; [|done]. cbn [is_none].
  destruct (captures !! (key, requirements)) as [[id|]|] eqn:Ec; cbn [from_option]; [|done|done].
  intros [= -> ->]. exists key, tasks. done.
Qed.

Lemma rejected_slot_kept keys slots i error identity :
  reject_inconsistent_batch_identities keys slots !! i = Some (error, Some identity) ->
  slots !! i = Some (error, Some identity).
Proof.
  unfold reject_inconsistent_batch_identities. cbn zeta. rewrite lookup_zip_with.
  destruct (keys !! i) as [key|]; [|done]. cbn. destruct (slots !! i) as [slot|]; [|done]. cbn.
  by destruct (_ && _).
Qed.

Lemma result_Ok slot identity : batch_resolution_result slot = Ok identity -> slot = (None, Some identity).
Proof. destruct slot as [[error|] [id|]]; cbn; naive_solver. Qed.

Lemma batch_keys_Ok resolved i key : batch_keys resolved !! i = Some (Some key) -> resolved !! i = Some (Ok key).
Proof.
  unfold batch_keys. rewrite list_lookup_fmap. destruct (resolved !! i) as [[k|]|]; naive_solver.
Qed.

Section Attributed.
Context `{Target} (procfs : nat -> Procfs) (instant : nat -> Z) (daemon_process_id : option Z).
Context (workers : nat -> Z) (spawned : nat -> option (list bool)).

Lemma fd_hints_later deadline : forall owners hints, always later (owner_fd_hints instant owners deadline hints).
Proof. induction owners as [|[key owner] owners IH]; intros hints; cbn [owner_fd_hints]; goes_on. Qed.

(** ** The sockets *)

(** The resolver after the socket of a request was looked up. *)
Definition after_lookup (deadline : Z) (r : Resolver) (request : Request) : Resolver :=
  match OutboundConnection_validate request.1 with
  | Ok _ => (resolve_socket_inode instant (fun k => proc_tables (procfs k)) request.1 deadline r).1
  | Err _ => r
  end.

(** The question for connection [i] of a batch, asked of the kernel after those
    for the connections before it and answered by the time [n'], named the
    socket [key]. *)
Definition looked_up (requests : list Request) (deadline : Z) (r : Resolver) (i : nat) (key : SocketOwnerKey)
    (n' : nat) : Prop :=
  exists connection requirements r',
    requests !! i = Some (connection, requirements)
    /\ OutboundConnection_validate connection = Ok tt /\ key_uid key = socket_uid connection
    /\ resolve_socket_inode instant (fun k => proc_tables (procfs k)) connection deadline
         (foldl (after_lookup deadline) r (take i requests)) = (r', Ok (key_inode key))
    /\ (readings r' <= n')%nat.

Lemma socket_key_run {E} connection requirements deadline r r1 result :
  (attempt (
     lift (map_err (Lookup ∘ ConnectionInvalid) (OutboundConnection_validate connection)) ;;
     inode ← with_error Lookup (resolve_socket_inode instant (fun n => proc_tables (procfs n)) connection deadline);
     mret (mkKey inode connection.(socket_uid))) : ST Resolver E _) r = (r1, Ok result) ->
  r1 = after_lookup deadline r (connection, requirements)
  /\ forall key, result = Ok key ->
     OutboundConnection_validate connection = Ok tt /\ key_uid key = socket_uid connection
     /\ resolve_socket_inode instant (fun k => proc_tables (procfs k)) connection deadline r = (r1, Ok (key_inode key)).
Proof.
  unfold attempt, after_lookup. cbn [fst]. rewrite run_lift.
  destruct (OutboundConnection_validate connection) as [[]|e]; cbn [map_err]; [|by intros [= <- <-]].
  rewrite run_bind. unfold with_error.
  destruct (resolve_socket_inode _ _ connection deadline r) as [r2 [inode|e]]; intros [= <- <-]; [|done].
  split; [done|]. by intros key [= <-].
Qed.

Lemma socket_keys_facts {E} deadline : forall requests r r' resolved,
  (resolve_batch_socket_keys procfs instant requests deadline : ST Resolver E _) r = (r', Ok resolved) ->
  (readings r <= readings r')%nat
  /\ forall i key, resolved !! i = Some (Ok key) -> looked_up requests deadline r i key (readings r').
Proof.
  induction requests as [|[connection requirements] requests IH]; intros r r' resolved Hrun;
    cbn [resolve_batch_socket_keys] in Hrun.
  { injection Hrun as <- <-. by split. }
  step Hrun result r1 H1. took H1. step Hrun rest r2 H2. destruct (IH _ _ _ H2) as [T2 Hrest].
  injection Hrun as <- <-. apply (socket_key_run connection requirements) in H1 as [-> Hkey].
  split; [lia|]. intros [|i] key Hi; cbn in Hi.
  - injection Hi as ->. destruct (Hkey key eq_refl) as (Hv & Hu & Hr).
    exists connection, requirements. eexists. split_and!; [done..|exact Hr|done].
  - destruct (Hrest i key Hi) as (c & q & rk & Hreq & Hv & Hu & Hr & Hn). by exists c, q, rk.
Qed.

(** ** The second snapshot *)

Lemma revalidated_kept {E} keys before deadline slots r r' out i identity :
  (revalidate_batch_owners procfs instant daemon_process_id workers spawned keys before deadline slots : ST Resolver E _) r
  = (r', Ok out) ->
  out !! i = Some (None, Some identity) -> slots !! i = Some (None, Some identity).
Proof.
  unfold revalidate_batch_owners. cbn zeta. intros Hrun Hout. case_bool_decide; [by injection Hrun as <- <-|].
  step Hrun result r1 H1. destruct result as [after|error]; injection Hrun as <- <-.
  - rewrite lookup_zip_with in Hout. destruct (keys !! i) as [key|]; [|done]. cbn in Hout.
    destruct (slots !! i) as [slot|]; [|done]. cbn in Hout. injection Hout as Hslot. unfold revalidated_slot in Hslot.
    destruct key as [key|]; [|by rewrite Hslot]. destruct slot as [error [id|]]; cbn [snd is_none] in Hslot; [|done].
    destruct (failures after !! key); [done|]. case_bool_decide; [|done]. by injection Hslot as -> ->.
  - rewrite list_lookup_fmap in Hout. destruct (slots !! i) as [[e [id|]]|]; done.
Qed.

Lemma revalidated_Ok {E} keys before deadline slots r r' out i key identity :
  (revalidate_batch_owners procfs instant daemon_process_id workers spawned keys before deadline slots : ST Resolver E _) r
  = (r', Ok out) ->
  keys !! i = Some (Some key) -> out !! i = Some (None, Some identity) ->
  exists n after, (readings r <= n <= readings r')%nat /\ unique before !! key = unique after !! key
     /\ forall tasks, unique after !! key = Some tasks ->
        exists process_id, owned_by procfs (foreign daemon_process_id) n (readings r') key process_id tasks.
Proof.
  unfold revalidate_batch_owners. cbn zeta. intros Hrun Hkey Hout. case_bool_decide as Hempty.
  { injection Hrun as <- <-. exfalso. apply (not_elem_of_empty (C := gset SocketOwnerKey) key). rewrite <- Hempty.
    apply elem_of_list_to_set, list_elem_of_omap. exists (Some key, (None, Some identity)). split; [|done].
    apply list_elem_of_lookup. exists i. rewrite lookup_zip_with, Hkey. cbn. by rewrite Hout. }
  step Hrun result r1 H1. destruct result as [after|error]; injection Hrun as <- <-.
  - rewrite lookup_zip_with, Hkey in Hout. cbn in Hout. destruct (slots !! i) as [slot|]; [|done]. cbn in Hout.
    injection Hout as Hslot. unfold revalidated_slot in Hslot.
    apply attempt_run in H1. step H1 hints r2 H2. pose proof (later_run _ _ _ _ (fd_hints_later _ _ _) H2) as T2.
    unfold owner_snapshot in H1. rewrite run_get in H1. apply snapshot_Ok in H1 as [T1 Hown].
    destruct slot as [error [id|]]; cbn [snd is_none] in Hslot; [|done].
    destruct (failures after !! key); [done|]. case_bool_decide as Heq; [|done].
    exists (readings r2), after. split_and!; [lia|lia|done|]. intros tasks Ht. by apply Hown.
  - rewrite list_lookup_fmap in Hout. destruct (slots !! i) as [[e [id|]]|]; done.
Qed.

(** ** The batch *)

Lemma first_snapshot_Ok {E} targets deadline r r' before key tasks :
  (if bool_decide (targets = ∅) then mret (Ok OwnerSnapshot_default)
   else attempt (owner_snapshot procfs instant daemon_process_id workers spawned targets deadline None)
   : ST Resolver E _) r = (r', Ok (Ok before)) ->
  unique before !! key = Some tasks ->
  (readings r <= readings r')%nat
  /\ exists process_id, owned_by procfs (foreign daemon_process_id) (readings r) (readings r') key process_id tasks.
Proof.
  case_bool_decide as Hempty; intros Hrun Hu.
  - injection Hrun as <- <-. cbn [OwnerSnapshot_default unique] in Hu. by rewrite lookup_empty in Hu.
  - apply attempt_run in Hrun. unfold owner_snapshot in Hrun. rewrite run_get in Hrun.
    apply snapshot_Ok in Hrun as [T Hown]. split; [done|]. by apply Hown.
Qed.

(** What the attribution of connection [i] of a batch established until [n'] by
    scans of the tasks in [scope], when it began with the resolver [r]. *)
Record attributed (scope : Z -> Z -> Prop) (r : Resolver) (n' : nat) (requests : list Request) (deadline : Z)
    (i : nat) (identity : ApplicationIdentity) (key : SocketOwnerKey) (process_id : Z) (tasks : list OwnerTask)
    (n1 n2 n3 n4 : nat) : Prop := {
  at_order : (readings r <= n1 <= n2)%nat /\ (n2 <= n3 <= n4)%nat /\ (n4 <= n')%nat;
  at_socket : looked_up requests deadline r i key n1;
  at_before : owned_by procfs scope n1 n2 key process_id tasks;
  at_identity : exists owner, owner ∈ tasks /\ captured procfs n2 n3 process_id (ot_tid owner) key identity;
  at_after : owned_by procfs scope n4 n' key process_id tasks;
  at_holders : forall holder tid fd_name,
    holds procfs n1 n2 holder tid key fd_name \/ holds procfs n4 n' holder tid key fd_name ->
    scope holder tid ->
    holder = process_id
    /\ exists id, captured procfs n2 n3 process_id tid key id /\ same_application id identity
}.

(** Two scans with the same owners, and a capture in between. *)
Lemma attributed_between {E} scope requests keys before deadline r0 r r' captures i connection requirements key tasks
    identity n1 n4 n' process_id other :
  (capture_batch_identities procfs instant requests keys before deadline : ST Resolver E _) r = (r', Ok captures) ->
  requests !! i = Some (connection, requirements) -> keys !! i = Some (Some key) ->
  unique before !! key = Some tasks -> captures !! (key, requirements) = Some (Ok identity) ->
  looked_up requests deadline r0 i key n1 ->
  owned_by procfs scope n1 (readings r) key process_id tasks ->
  owned_by procfs scope n4 n' key other tasks ->
  (readings r0 <= n1 <= readings r)%nat -> (readings r' <= n4 <= n')%nat ->
  attributed scope r0 n' requests deadline i identity key process_id tasks n1 (readings r) (readings r') n4.
Proof.
  intros H3 Hreq Ekey Hu Hid Hlook Hbefore Hafter Hn Hn'.
  pose proof (later_run _ _ _ _ (capture_batch_later _ _ _ _ _ _) H3) as T3.
  destruct (capture_batch_facts _ _ _ _ _ _ _ _ _ _ _ _ _ _ H3 Hreq Ekey Hid) as (tasks' & Hu' & Hall & owner & Hin & Hcaptured).
  assert (tasks' = tasks) as -> by congruence.
  assert (ot_process_id owner = process_id /\ other = process_id) as [Hpid ->].
  { destruct Hbefore as [Hp _ _ _], Hafter as [Ho _ _ _]. rewrite Forall_forall in Hp, Ho.
    specialize (Hp _ Hin). specialize (Ho _ Hin). by subst. }
  split.
  - lia.
  - done.
  - done.
  - exists owner. by subst process_id.
  - done.
  - intros holder tid fd_name Hholds Hd.
    assert (holder = process_id /\ exists fd, mkOwner holder tid fd ∈ tasks) as [-> [fd Hfd]].
    { destruct Hholds as [Hh|Hh]; [by apply (ob_all _ _ _ _ _ _ _ Hbefore _ _ fd_name)|by apply (ob_all _ _ _ _ _ _ _ Hafter _ _ fd_name)]. }
    split; [done|]. by apply Hall in Hfd.
Qed.

Lemma strict_slots {E} requests deadline r r' found keys results i identity :
  (resolve_strict procfs instant daemon_process_id workers spawned requests deadline : ST Resolver E _) r
  = (r', Ok (found, keys, results)) ->
  results !! i = Some (Ok identity) ->
  exists before resolved r1 r2 captures r3 slots,
    found = Some before
    /\ (resolve_batch_socket_keys procfs instant requests deadline : ST Resolver E _) r = (r1, Ok resolved)
    /\ (if bool_decide (batch_targets resolved = ∅) then mret (Ok OwnerSnapshot_default)
        else attempt (owner_snapshot procfs instant daemon_process_id workers spawned (batch_targets resolved) deadline None)
        : ST Resolver E _) r1 = (r2, Ok (Ok before))
    /\ keys = batch_keys resolved
    /\ (capture_batch_identities procfs instant requests keys before deadline : ST Resolver E _) r2 = (r3, Ok captures)
    /\ (revalidate_batch_owners procfs instant daemon_process_id workers spawned keys before deadline
          (reject_inconsistent_batch_identities keys
            (zip_with (fun request entry => captured_slot before captures request.2 entry.1 entry.2)
               requests (zip keys (batch_errors resolved)))) : ST Resolver E _) r3 = (r', Ok slots)
    /\ slots !! i = Some (None, Some identity).
Proof.
  unfold resolve_strict. intros Hrun Hi. step Hrun resolved r1 H1. cbn zeta in Hrun. step Hrun first r2 H2.
  destruct first as [first|error].
  - step Hrun captures r3 H3. step Hrun slots r4 H4. injection Hrun as <- <- <- <-.
    rewrite list_lookup_fmap in Hi. destruct (slots !! i) as [slot|] eqn:Es; [|done]. injection Hi as Hi.
    apply result_Ok in Hi as ->. exists first, resolved, r1, r2, captures, r3, slots. done.
  - injection Hrun as <- <- <- <-. rewrite list_lookup_fmap, lookup_zip_with in Hi.
    destruct (batch_keys resolved !! i) as [key|]; [|done]. cbn in Hi.
    destruct (batch_errors resolved !! i) as [slot|]; [|done]. cbn in Hi. injection Hi as Hi.
    by destruct (if _ && _ then _ else _).
Qed.

(** *** Totality *)

Lemma run_attempt {S F E A B} (m : ST S F A) (f : Result F A -> ST S E B) s :
  (attempt m ≫= f) s = f (m s).2 (m s).1.
Proof. rewrite run_bind. unfold attempt. by destruct (m s). Qed.

Tactic Notation "attempts" ident(s') ident(result) :=
  rewrite run_attempt;
  match goal with |- context [snd (?m ?s)] => destruct (m s) as [s' result]; cbn [fst snd] end.

Lemma socket_keys_total {E} deadline : forall requests r, exists r' resolved,
  (resolve_batch_socket_keys procfs instant requests deadline : ST Resolver E _) r = (r', Ok resolved)
  /\ length resolved = length requests.
Proof.
  induction requests as [|[connection requirements] requests IH]; intros r; cbn [resolve_batch_socket_keys].
  { by exists r, []. }
  attempts r1 result.
  destruct (IH r1) as (r2 & rest & Hrest & Hlen). rewrite run_bind, Hrest.
  exists r2, (result :: rest). cbn. by rewrite Hlen.
Qed.

Lemma capture_batch_total {E} requests keys before deadline r : exists r' captures,
  (capture_batch_identities procfs instant requests keys before deadline : ST Resolver E _) r = (r', Ok captures).
Proof.
  unfold capture_batch_identities. cbn zeta. attempts r1 result. destruct result as [captures|e].
  - by exists r1, captures.
  - by eexists r1, _.
Qed.

Lemma revalidate_total {E} keys before deadline slots r :
  length keys = length slots -> exists r' out,
  (revalidate_batch_owners procfs instant daemon_process_id workers spawned keys before deadline slots : ST Resolver E _) r
  = (r', Ok out) /\ length out = length slots.
Proof.
  intros Hlen. unfold revalidate_batch_owners. cbn zeta. case_bool_decide; [by exists r, slots|].
  attempts r1 result. destruct result as [after|error]; eexists r1, _; (split; [done|]).
  - rewrite length_zip_with. lia.
  - apply length_fmap.
Qed.

Lemma strict_total {E} requests deadline r : exists r' found keys results,
  (resolve_strict procfs instant daemon_process_id workers spawned requests deadline : ST Resolver E _) r
  = (r', Ok (found, keys, results)) /\ length results = length requests.
Proof.
  unfold resolve_strict. rewrite run_bind.
  destruct (socket_keys_total (E := E) deadline requests r) as (r1 & resolved & -> & Hlen). cbn zeta.
  assert (length (batch_keys resolved) = length requests) as Hk by (unfold batch_keys; by rewrite length_fmap).
  assert (length (batch_errors resolved) = length requests) as He by (unfold batch_errors; by rewrite length_fmap).
  assert (exists r2 first, (if bool_decide (batch_targets resolved = ∅) then mret (Ok OwnerSnapshot_default)
    else attempt (owner_snapshot procfs instant daemon_process_id workers spawned (batch_targets resolved) deadline None)
    : ST Resolver E _) r1 = (r2, Ok first)) as (r2 & first & Hfirst).
  { case_bool_decide; [by eexists _, _|]. unfold attempt. destruct (owner_snapshot _ _ _ _ _ _ _ _ r1) as [r2 x].
    by exists r2, x. }
  rewrite run_bind, Hfirst. destruct first as [before|error].
  - rewrite run_bind. destruct (capture_batch_total (E := E) requests (batch_keys resolved) before deadline r2)
      as (r3 & captures & ->). rewrite run_bind. set (slots := reject_inconsistent_batch_identities _ _).
    assert (length slots = length requests) as Hs.
    { unfold slots, reject_inconsistent_batch_identities. cbn zeta. rewrite !length_zip_with, Hk, He. lia. }
    destruct (revalidate_total (E := E) (batch_keys resolved) before deadline slots r3) as (r4 & out & -> & Hout); [congruence|].
    eexists r4, _, _, _. split; [done|]. rewrite length_fmap. congruence.
  - eexists r2, _, _, _. split; [done|]. rewrite length_fmap, length_zip_with. lia.
Qed.

Lemma strict_sound {E} requests deadline r r' found keys results i connection requirements identity :
  (resolve_strict procfs instant daemon_process_id workers spawned requests deadline : ST Resolver E _) r
  = (r', Ok (found, keys, results)) ->
  requests !! i = Some (connection, requirements) -> results !! i = Some (Ok identity) ->
  exists key process_id tasks n1 n2 n3 n4,
    attributed (foreign daemon_process_id) r (readings r') requests deadline i identity key process_id tasks n1 n2 n3 n4.
Proof.
  intros Hrun Hreq Hi.
  destruct (strict_slots _ _ _ _ _ _ _ _ _ Hrun Hi) as (first & resolved & r1 & r2 & captures & r3 & slots & -> & H1 & H2 & Hkeys & H3 & H4 & Hslot).
  pose proof (revalidated_kept _ _ _ _ _ _ _ _ _ H4 Hslot) as Hcap. apply rejected_slot_kept in Hcap.
  rewrite lookup_zip_with, Hreq in Hcap. cbn [mbind option_bind] in Hcap.
  destruct (zip keys (batch_errors resolved) !! i) as [[key error]|] eqn:Ez; [|done]. cbn in Hcap. injection Hcap as Hcap.
  apply captured_slot_Ok in Hcap as (socket & tasks & -> & Hf & Hu & Hid).
  apply lookup_zip_Some in Ez as [Ekey _]. pose proof (later_run _ _ _ _ (capture_batch_later _ _ _ _ _ _) H3) as T3.
  destruct (first_snapshot_Ok _ _ _ _ _ _ _ H2 Hu) as (T2 & process_id & Hbefore).
  destruct (revalidated_Ok _ _ _ _ _ _ _ _ _ _ H4 Ekey Hslot) as (n4 & after & T4 & Hsame & Hafter).
  rewrite Hu in Hsame. destruct (Hafter tasks) as (other & Howned); [done|].
  subst keys. apply batch_keys_Ok in Ekey as Hkey. apply socket_keys_facts in H1 as [T1 Hsockets].
  exists socket, process_id, tasks, (readings r1), (readings r2), (readings r3), n4.
  eapply (attributed_between (E := E)); [done..| |done|done|lia|lia].
  by apply Hsockets.
Qed.

(** C7: the strict attribution of a batch gives every connection a result, and
    an application that it gives a connection is the application of that
    connection.  The question for this connection, asked of the kernel after
    those for the connections before it, named the socket; a first scan of
    the processes saw the socket in one process only and, after the capture, a
    second scan saw it in the same tasks of that process; in between, the
    identity was captured, with its executable pinned and read twice, from a
    task that had the socket before and after.  Every task but the daemon's that
    has the socket during one of the scans, whatever the scans' threads and
    their order, is a task of that process in which a rule cannot tell the
    application from that identity. *)
Theorem attribution_names_the_owner {E} requests deadline r :
  exists r' found keys results,
    (resolve_strict procfs instant daemon_process_id workers spawned requests deadline : ST Resolver E _) r
    = (r', Ok (found, keys, results))
    /\ length results = length requests
    /\ forall i connection requirements identity,
       requests !! i = Some (connection, requirements) -> results !! i = Some (Ok identity) ->
       exists key process_id tasks n1 n2 n3 n4,
         attributed (foreign daemon_process_id) r (readings r') requests deadline i identity key process_id tasks n1 n2 n3 n4.
Proof.
  destruct (strict_total (E := E) requests deadline r) as (r' & found & keys & results & Hrun & Hlen).
  exists r', found, keys, results. split_and!; [done|done|]. intros i connection requirements identity. by apply (strict_sound (E := E) requests deadline r r' found keys).
Qed.
End Attributed.

(** ** Witness *)

Definition sample_file (bytes : Bytes) : ProcFile := mkProcFile bytes (fun _ => Deliver 8) (fun _ => 0).
Definition sample_status : Bytes :=
  lit "Name:" ++ [9] ++ lit "curl" ++ [10] ++ lit "Uid:" ++ [9] ++ lit "1000" ++ [9] ++ lit "1000" ++ [9]
  ++ lit "1000" ++ [9] ++ lit "1000" ++ [10].
Definition sample_stat : Bytes := lit "301 (curl) x) S 1 1 1 0 -1 4194304 0 0 0 0 0 0 0 0 20 0 2 0 8642 0 0" ++ [10].
Definition sample_open (path : ProcPath) (name : string) : option ProcFile :=
  match path with
  | TaskPath 300 _ =>
      if (name =? "status")%string then Some (sample_file sample_status)
      else if (name =? "stat")%string then Some (sample_file sample_stat)
      else if (name =? "cmdline")%string then Some (sample_file (lit "curl" ++ [0] ++ lit "-s" ++ [0]))
      else if (name =? "cgroup")%string then Some (sample_file (lit "0::/user.slice" ++ [10]))
      else None
  | _ => Some (sample_file sample_status)
  end.
Definition sample_procfs : Procfs :=
  mkProcfs sample_open (fun _ => None) (Ok [Ok (lit "20"); Ok (lit "self"); Ok (lit "300")])
    (fun process => if process =? 300 then Ok [Ok (lit "300"); Ok (lit "301")] else Ok [Ok (lit "20")])
    (fun path => match path with TaskPath 300 _ => Ok [Ok (lit "3"); Ok (lit "4")] | _ => Ok [] end)
    (fun fd => if fd.2 ==? lit "4" then Ok (lit "socket:[42]") else Ok (lit "/dev/null"))
    (fun _ => Ok tt) (fun _ => Some (Utf8Path (lit "/usr/bin/curl"))) (fun _ => Some 9)
    (fun _ => Some (mkMetadata true 8 77 4096 100 5)).
Definition sample_resolver : Resolver := mkResolver 0 (Some sample_diag_socket) [].
Definition sample_identity : ApplicationIdentity :=
  mkApplicationIdentity 301 8642 (mkApplicationPath (lit "/usr/bin/curl")) (mkExecutableFileId 8 77 4096 100 5)
    (mkCommandArgument <$> [lit "curl"; lit "-s"]) 1000 [mkCgroupPath (lit "/user.slice")].

Definition sample_run :=
  resolve_strict (H := x86_64) (E := OwnerError) (fun _ => sample_procfs) (fun _ => 0) (Some 20) (fun _ => 2) (fun _ => Some [])
    [(sample_connection, IdentityCaptureRequirements_full)] 5 sample_resolver.

Lemma attribution_names_the_owner_witness :
  exists key process_id tasks n1 n2 n3 n4,
    attributed (H := x86_64) (fun _ => sample_procfs) (fun _ => 0) (foreign (Some 20)) sample_resolver
      (readings sample_run.1) [(sample_connection, IdentityCaptureRequirements_full)] 5 0 sample_identity key process_id tasks n1 n2 n3 n4.
Proof.
  destruct (attribution_names_the_owner (H := x86_64) (fun _ => sample_procfs) (fun _ => 0) (Some 20)
    (fun _ => 2) (fun _ => Some []) (E := OwnerError) [(sample_connection, IdentityCaptureRequirements_full)] 5
    sample_resolver) as (r' & found & keys & results & Hrun & _ & Hall).
  assert (r' = sample_run.1 /\ results = [Ok sample_identity]) as [-> ->].
  { unfold sample_run. rewrite Hrun. split; [done|]. vm_compute in Hrun. by injection Hrun as _ _ _ <-. }
  by apply (Hall 0%nat sample_connection IdentityCaptureRequirements_full).
Defined.
