(* ===== verification/OwnerCache.v ===== *)
(** * Recent owners

    [application_fast.rs] of the daemon, lines 28 to 409, and the entry points
    of [application.rs] that use it: the cache of processes that recently owned
    a socket, and the attribution that searches only them. *)

From S2P Require Import Prelude Text Net Application Model State Netlink Decision Capture SocketDiag Pinning Procfs.
From S2P Require Import Owners Resolution.
Local Open Scope Z_scope.

Abbreviation MAX_OWNER_HINTS := 256 (only parsing).
Abbreviation OWNER_HINT_TTL := 180000000000 (only parsing).
Abbreviation LEARNING_PROC_SCAN_DEADLINE := 5000000000 (only parsing).

(** ** The cache *)

Record OwnerHint : Type := mkHint {
  hint_process_id : Z;
  anchor_tid : Z;
  anchor_start : Z;
  last_verified_at : Z
}.

(** The entries, by user and process. *)
Record OwnerCache : Type := mkCache {
  cache_generation : option Z;
  learning_warm : bool;
  cache_entries : gmap (Z * Z) OwnerHint
}.
Definition OwnerCache_default : OwnerCache := mkCache None false ∅.

Definition set_entries v c := mkCache c.(cache_generation) c.(learning_warm) v.

(** The order of the keys, in which a [BTreeMap] is walked. *)
Definition entry_le (a b : (Z * Z) * OwnerHint) : Prop :=
  a.1.1 < b.1.1 \/ a.1.1 = b.1.1 /\ a.1.2 <= b.1.2.
#[export] Instance entry_le_dec : RelDecision entry_le.
Proof. intros a b. unfold entry_le. apply _. Defined.
Definition ordered_entries (entries : gmap (Z * Z) OwnerHint) : list ((Z * Z) * OwnerHint) :=
  merge_sort entry_le (map_to_list entries).

(** [Instant::saturating_duration_since]. *)
Definition saturating_since (now earlier : Z) : Z := Z.max 0 (now - earlier).

Definition retain_fresh (now : Z) (entries : gmap (Z * Z) OwnerHint) : gmap (Z * Z) OwnerHint :=
  filter (fun entry => saturating_since now entry.2.(last_verified_at) < OWNER_HINT_TTL) entries.

Definition clear (self : OwnerCache) : OwnerCache := mkCache None false ∅.

Definition prepare (generation now : Z) (self : OwnerCache) : OwnerCache :=
  let direct_learning_transition :=
    self.(learning_warm)
    && is_some_and (fun previous => u32_wrapping_add previous 1 =? generation) self.(cache_generation) in
  let entries :=
    if negb (bool_decide (self.(cache_generation) = Some generation)) && negb direct_learning_transition
    then ∅ else self.(cache_entries) in
  mkCache (Some generation) false (retain_fresh now entries).

Definition prepare_learning (generation now : Z) (self : OwnerCache) : OwnerCache :=
  let entries :=
    if negb (bool_decide (self.(cache_generation) = Some generation)) then ∅ else self.(cache_entries) in
  mkCache (Some generation) true (retain_fresh now entries).

(** [Iterator::min_by_key]: the first of the least. *)
Fixpoint oldest_entry (entries : list ((Z * Z) * OwnerHint)) : option ((Z * Z) * OwnerHint) :=
  match entries with
  | [] => None
  | entry :: rest =>
      match oldest_entry rest with
      | Some other => if other.2.(last_verified_at) <? entry.2.(last_verified_at) then Some other else Some entry
      | None => Some entry
      end
  end.

Definition insert_hint (uid : Z) (hint : OwnerHint) (self : OwnerCache) : OwnerCache :=
  let key := (uid, hint.(hint_process_id)) in
  let entries := self.(cache_entries) in
  let entries :=
    if is_none (entries !! key) && (MAX_OWNER_HINTS <=? Z.of_nat (size entries)) then
      match oldest_entry (ordered_entries entries) with
      | Some oldest => delete oldest.1 entries
      | None => entries
      end
    else entries in
  set_entries (<[key := hint]> entries) self.

Definition touch (verified_processes : gset (Z * Z)) (now : Z) (self : OwnerCache) : OwnerCache :=
  set_entries
    (foldl (fun entries key =>
       alter (fun hint => mkHint hint.(hint_process_id) hint.(anchor_tid) hint.(anchor_start) now) key entries)
       self.(cache_entries) (elements verified_processes)) self.

(** [str::contains] of the messages. *)
Definition contains_text (message part : string) : bool := is_some (String.index 0 part message).

Definition is_ambiguity (error : OwnerError) : bool :=
  match error with
  | Failed message =>
      contains_text message "socket is shared by multiple processes"
      || contains_text message "socket-owning tasks have ambiguous application identities"
      || contains_text message "mandatory process identity changed between captures"
  | _ => false
  end.

Definition clear_after_detected_ambiguity (results : list IdentityCaptureResult) (self : OwnerCache) : OwnerCache :=
  if existsb (fun result => match result with Err error => is_ambiguity error | Ok _ => false end) results
  then set_entries ∅ self else self.

(** The processes that were seen with a socket whose attribution failed. *)
Definition unsafe_processes (before : OwnerSnapshot) (keys : list (option SocketOwnerKey))
    (results : list IdentityCaptureResult) : gset Z :=
  foldr (fun entry processes =>
    match entry with
    | (Some key, Err _) => default ∅ (before.(snapshot_processes) !! key) ∪ processes
    | _ => processes
    end) ∅ (zip keys results).

Definition seed_result (before : OwnerSnapshot) (unsafe : gset Z) (now : Z) (self : OwnerCache)
    (entry : option SocketOwnerKey * IdentityCaptureResult) : OwnerCache :=
  match entry with
  | (Some key, Ok identity) =>
      match List.find (fun owner => (owner.(ot_tid) =? identity.(ai_pid))
                                    && negb (bool_decide (owner.(ot_process_id) ∈ unsafe)))
              (default [] (before.(unique) !! key)) with
      | Some owner =>
          insert_hint key.(key_uid)
            (mkHint owner.(ot_process_id) owner.(ot_tid) identity.(ai_process_start_time_ticks) now) self
      | None => self
      end
  | _ => self
  end.

Definition seed (before : OwnerSnapshot) (keys : list (option SocketOwnerKey))
    (results : list IdentityCaptureResult) (now : Z) (self : OwnerCache) : OwnerCache :=
  if negb (length keys =? length results)%nat then self
  else foldl (seed_result before (unsafe_processes before keys results) now) self (zip keys results).

(** ** The search of recent owners *)

Section Fast.
Context `{Target} (procfs : nat -> Procfs) (instant : nat -> Z) (daemon_process_id : option Z).

Definition key_uids (targets : gset SocketOwnerKey) : gset Z := set_map key_uid targets.

Fixpoint fast_hint_entries (hints : list ((Z * Z) * OwnerHint)) (uids : gset Z) (deadline : Z)
    (processes : gset Z) (groups : list OwnerTaskGroup) (task_count : Z)
    : ST Resolver OwnerError (list OwnerTaskGroup) :=
  match hints with
  | [] => mret groups
  | ((uid, _), hint) :: rest =>
      let skip := fast_hint_entries rest uids deadline processes groups task_count in
      if negb (bool_decide (uid ∈ uids)) then skip
      else
        check_deadline instant deadline ;;
        now ← next_instant instant;
        if OWNER_HINT_TTL <=? saturating_since now hint.(last_verified_at) then skip
        else
          let anchor := TaskPath hint.(hint_process_id) hint.(anchor_tid) in
          start ← attempt (read_start_time procfs instant anchor deadline);
          match start with
          | Err error => if owner_timed_out error then lift (Err error) else skip
          | Ok start =>
              if negb (start =? hint.(anchor_start)) then skip
              else
                observed_uid ← attempt (read_process_fs_uid procfs instant anchor deadline);
                match observed_uid with
                | Err error => if owner_timed_out error then lift (Err error) else skip
                | Ok observed_uid =>
                    if negb (observed_uid =? uid) || bool_decide (hint.(hint_process_id) ∈ processes) then skip
                    else
                      let processes := processes ∪ {[hint.(hint_process_id)]} in
                      tasks ← attempt (enumerate_task_ids procfs instant hint.(hint_process_id) deadline task_count);
                      match tasks with
                      | Ok (Some task_ids, task_count) =>
                          fast_hint_entries rest uids deadline processes
                            (groups ++ [mkGroup hint.(hint_process_id) task_ids]) task_count
                      | Ok (None, task_count) =>
                          fast_hint_entries rest uids deadline processes groups task_count
                      | Err (task_count, error) =>
                          if owner_timed_out error then lift (Err error)
                          else fast_hint_entries rest uids deadline processes groups task_count
                      end
                end
          end
  end.

Definition fast_hint_groups (hints : list ((Z * Z) * OwnerHint)) (targets : gset SocketOwnerKey) (deadline : Z)
    : ST Resolver OwnerError (list OwnerTaskGroup) :=
  groups ← fast_hint_entries hints (key_uids targets) deadline ∅ [] 0;
  check_deadline instant deadline ;;
  mret groups.

Definition fast_limits : OwnerScanLimits := mkLimits MAX_FDS_PER_TASK MAX_PROC_ENTRIES MAX_PROC_ENTRIES USIZE_MAX.

Definition fast_owner_snapshot (groups : list OwnerTaskGroup) (targets : gset SocketOwnerKey) (deadline : Z)
    (previous_hints : option OwnerFdHints) : ST Resolver OwnerError OwnerSnapshot :=
  daemon_before ← daemon_owned_targets_for_batch procfs instant daemon_process_id targets deadline MAX_FDS_PER_TASK;
  accumulated ← scan_owner_task_groups procfs instant targets deadline fast_limits previous_hints groups 1 None;
  daemon_after ← daemon_owned_targets_for_batch procfs instant daemon_process_id targets deadline MAX_FDS_PER_TASK;
  mret (finish_owner_snapshot targets (daemon_before ∪ daemon_after) accumulated).

Definition fast_slot (before after : OwnerSnapshot) (captures : Captures)
    (requirements : IdentityCaptureRequirements) (key : option SocketOwnerKey) (error : option OwnerError) : Slot :=
  match key with
  | None => (error, None)
  | Some key =>
      if is_some error || is_some (before.(failures) !! key) || is_some (after.(failures) !! key)
         || negb (bool_decide (before.(unique) !! key = after.(unique) !! key))
      then (error, None)
      else
        match captures !! (key, requirements) with
        | Some (Ok identity) => (error, Some identity)
        | _ => (error, None)
        end
  end.

(** The processes that own a socket with an identity. *)
Definition verified_processes (before : OwnerSnapshot) (keys : list (option SocketOwnerKey)) (slots : list Slot)
    : gset (Z * Z) :=
  list_to_set (zip keys slots ≫= fun entry =>
    match entry with
    | (Some key, (_, Some _)) =>
        (fun owner => (key.(key_uid), owner.(ot_process_id))) <$> default [] (before.(unique) !! key)
    | _ => []
    end).

(** The search up to the update of the cache: the identities, and the processes
    to keep, if there was anything to look for. *)
Definition fast_candidates (requests : list Request) (deadline : Z) (hints : list ((Z * Z) * OwnerHint))
    : ST Resolver OwnerError (list (option ApplicationIdentity) * option (gset (Z * Z))) :=
  resolved ← resolve_batch_socket_keys procfs instant requests deadline;
  let keys := batch_keys resolved in
  let errors := batch_errors resolved in
  let targets := batch_targets resolved in
  if bool_decide (targets = ∅) then mret (replicate (length requests) None, None)
  else
    groups ← fast_hint_groups hints targets deadline;
    before ← fast_owner_snapshot groups targets deadline None;
    captures ← capture_batch_identities procfs instant requests keys before deadline;
    fd_hints ← owner_fd_hints instant (hinted_owners before targets) deadline ∅;
    after_groups ← fast_hint_groups hints targets deadline;
    lift (ensure (bool_decide (groups = after_groups)) (Failed "cached process task set changed during attribution")) ;;
    after ← fast_owner_snapshot after_groups targets deadline (Some fd_hints);
    last_groups ← fast_hint_groups hints targets deadline;
    lift (ensure (bool_decide (after_groups = last_groups)) (Failed "cached owner changed after final descriptor scan")) ;;
    let slots := zip_with (fun (request : Request) (entry : option SocketOwnerKey * option OwnerError) =>
      fast_slot before after captures request.2 entry.1 entry.2) requests (zip keys errors) in
    let slots := reject_inconsistent_batch_identities keys slots in
    check_deadline instant deadline ;;
    mret (slots.*2, Some (verified_processes before keys slots)).
End Fast.

(** ** Attribution with the shared cache *)

(** The cache is shared with other resolvers. *)
Record Attributor : Type := mkAttributor { proc_resolver : Resolver; fast_owners : OwnerCache }.

Definition on_proc {E A} (m : ST Resolver E A) : ST Attributor E A := fun s =>
  let '(r, result) := m s.(proc_resolver) in (mkAttributor r s.(fast_owners), result).

Section Attribution.
Context `{Target} (procfs : nat -> Procfs) (instant : nat -> Z) (daemon_process_id : option Z).
Context (workers : nat -> Z) (spawned : nat -> option (list bool)).
(** What an attempt to lock the cache finds: another holder, or the cache as the
    others left it. *)
Context (lock : nat -> option (OwnerCache -> OwnerCache)).

(** [if let Ok(mut cache) = self.fast_owners.try_lock()] *)
Definition when_locked {E} (body : ST Attributor E unit) : ST Attributor E bool :=
  s ← get;
  modify (fun s => mkAttributor (tick s.(proc_resolver)) s.(fast_owners)) ;;
  match lock s.(proc_resolver).(readings) with
  | None => mret false
  | Some others =>
      modify (fun s => mkAttributor s.(proc_resolver) (others s.(fast_owners))) ;;
      body ;;
      mret true
  end.

Definition update {E} (f : OwnerCache -> OwnerCache) : ST Attributor E unit :=
  modify (fun s => mkAttributor s.(proc_resolver) (f s.(fast_owners))).
(** With [Instant::now()]. *)
Definition update_now {E} (f : Z -> OwnerCache -> OwnerCache) : ST Attributor E unit :=
  now ← on_proc (next_instant instant);
  update (f now).

Definition resolve_fast_candidates (requests : list Request) (deadline : Z) (hints : list ((Z * Z) * OwnerHint))
    : ST Attributor OwnerError (list (option ApplicationIdentity)) :=
  found ← on_proc (fast_candidates procfs instant daemon_process_id requests deadline hints);
  match found.2 with
  | None => mret found.1
  | Some verified => when_locked (update_now (touch verified)) ;; mret found.1
  end.

Definition resolve_batch_strict_until {E} (requests : list Request) (deadline : Z) (seed_fast_hints : bool)
    : ST Attributor E (list IdentityCaptureResult) :=
  if bool_decide (requests = []) then mret []
  else if MAX_ATTRIBUTION_BATCH_SIZE <? zlen requests then
    mret ((fun _ => Err (Failed "application attribution batch exceeds its fixed bound")) <$> requests)
  else
    found ← on_proc (resolve_strict procfs instant daemon_process_id workers spawned requests deadline);
    match found with
    | (Some before, keys, results) =>
        (if seed_fast_hints then when_locked (update_now (seed before keys results)) else mret false) ;;
        mret results
    | (None, _, results) => mret results
    end.

Definition resolve_batch_for_enforcement_until {E} (requests : list Request) (deadline : Z)
    : ST Attributor E (list IdentityCaptureResult) :=
  when_locked (update clear) ;;
  resolve_batch_strict_until requests deadline false.

Definition resolve_batch_for_learning {E} (requests : list Request) (generation : Z)
    : ST Attributor E (list IdentityCaptureResult) :=
  when_locked (update_now (prepare_learning generation)) ;;
  now ← on_proc (next_instant instant);
  resolve_batch_strict_until requests (now + LEARNING_PROC_SCAN_DEADLINE) true.

Definition resolve_batch_with_strategy_until {E} (requests : list Request) (deadline : Z)
    (strategy : EnforcementStrategy) (generation : Z) : ST Attributor E (list IdentityCaptureResult) :=
  if is_strict strategy then resolve_batch_for_enforcement_until requests deadline
  else if MAX_ATTRIBUTION_BATCH_SIZE <? zlen requests then resolve_batch_for_enforcement_until requests deadline
  else if bool_decide (requests = []) then
    when_locked (update_now (prepare generation)) ;;
    mret []
  else
    locked ← when_locked (update_now (prepare generation));
    s ← get;
    let hints := if locked : bool then ordered_entries s.(fast_owners).(cache_entries) else [] in
    if bool_decide (hints = []) then resolve_batch_strict_until requests deadline true
    else
      candidates ← attempt (resolve_fast_candidates requests deadline hints);
      match (match candidates with Ok identities => mapM id identities | Err _ => None end) with
      | Some identities => mret (Ok <$> identities)
      | None =>
          results ← resolve_batch_strict_until requests deadline true;
          when_locked (update (clear_after_detected_ambiguity results)) ;;
          mret results
      end.
End Attribution.
