(* ===== verification/FastAttribution.v ===== *)
(** * What the search of recent owners shows

    The cache of recent owners is bounded, and an identity that the search gives
    is as certain as a strict one for the processes that were searched. *)

From S2P Require Import Prelude Text Net Application Model State StateFacts Netlink Decision Capture SocketDiag.
From S2P Require Import Pinning Procfs Owners OwnerFacts Resolution ResolutionFacts Attributed OwnerCache.
Local Open Scope Z_scope.

(** ** Time *)

Section ScanTime.
Context (procfs : nat -> Procfs) (instant : nat -> Z) (daemon_process_id : option Z).
Context (targets : gset SocketOwnerKey) (deadline : Z) (limits : OwnerScanLimits) (hints : option OwnerFdHints).

Lemma steps_time n s w :
  (time s <= time (worker_steps procfs instant targets deadline limits hints n s w).1)%nat.
Proof.
  destruct (worker_steps _ _ _ _ _ _ n s w) as [s' w'] eqn:E.
  apply (worker_steps_progress _ _ _ _ _ _ (fun _ _ => True)) in E. apply (pg_time _ _ _ _ _ _ _ E).
Qed.

Lemma interleave_time : forall schedule s helper current,
  (time s <= time (interleave procfs instant targets deadline limits hints schedule s helper current).1.1)%nat.
Proof.
  induction schedule as [|turn schedule IH]; intros s h c; cbn [interleave]; unfold worker_finish.
  - pose proof (steps_time (S (length (pending c))) s c) as T1. destruct (worker_steps _ _ _ _ _ _ _ s c) as [s1 c1].
    pose proof (steps_time (S (length (pending h))) s1 h) as T2. destruct (worker_steps _ _ _ _ _ _ _ s1 h) as [s2 h2].
    cbn [fst] in *. lia.
  - destruct turn.
    + destruct (worker_step _ _ _ _ _ _ s h) as [s1 h1] eqn:E. specialize (IH s1 h1 c).
      apply (worker_step_progress _ _ _ _ _ _ (fun _ _ => True)), pg_time in E. lia.
    + destruct (worker_step _ _ _ _ _ _ s c) as [s1 c1] eqn:E. specialize (IH s1 h c1).
      apply (worker_step_progress _ _ _ _ _ _ (fun _ _ => True)), pg_time in E. lia.
Qed.

Lemma scan_groups_later groups workers spawned :
  always later (scan_owner_task_groups procfs instant targets deadline limits hints groups workers spawned).
Proof.
  intros r. unfold scan_owner_task_groups, scan_owner_partition, worker_finish, later. cbn zeta.
  set (s0 := mkScan r OwnerScanAccumulator_default).
  assert (Hclose : forall A s (result : Result OwnerError A), (time s0 <= time s)%nat ->
    (readings r <= readings (match result with
       | Ok _ => (check_deadline instant deadline ;; mret (scan_accumulator s)) (scan_resolver s)
       | Err error => (scan_resolver s, Err error : Result OwnerError OwnerScanAccumulator)
       end).1)%nat).
  { intros A s [x|e] Ht; [|done]. etrans; [exact Ht|].
    assert (Hl : always later (check_deadline instant deadline ;; mret (scan_accumulator s))) by goes_on. apply Hl. }
  destruct (if workers =? 2 then _ else _) as [[first second]|].
  - destruct spawned as [schedule|]; [|by apply (Hclose unit s0 (Err _))].
    pose proof (interleave_time schedule s0 (start_worker first) (start_worker second)) as T.
    destruct (interleave _ _ _ _ _ _ _ _ _ _) as [[s1 h] c]. by apply Hclose.
  - pose proof (steps_time (S (length (pending (start_worker groups)))) s0 (start_worker groups)) as T.
    destruct (worker_steps _ _ _ _ _ _ _ s0 _) as [s1 w]. by apply Hclose.
Qed.
End ScanTime.
#[export] Hint Resolve scan_groups_later daemon_targets_later : later.

Section BatchTime.
Context `{Target} (procfs : nat -> Procfs) (instant : nat -> Z) (daemon_process_id : option Z).
Context (workers : nat -> Z) (spawned : nat -> option (list bool)).

Lemma enumerate_groups_later deadline maximum : forall ids groups n,
  always later (enumerate_groups procfs instant daemon_process_id ids deadline maximum groups n).
Proof. induction ids as [|id ids IH]; intros groups n; cbn [enumerate_groups]; goes_on. Qed.
#[local] Hint Resolve enumerate_groups_later : later.
Lemma owner_snapshot_later targets deadline hints :
  always later (owner_snapshot procfs instant daemon_process_id workers spawned targets deadline hints).
Proof.
  unfold owner_snapshot, resolve_owner_snapshot_with_hints, enumerate_owner_task_groups. goes_on.
Qed.
#[local] Hint Resolve owner_snapshot_later fd_hints_later : later.
Lemma socket_keys_later {E} deadline : forall requests,
  always later (resolve_batch_socket_keys procfs instant requests deadline : ST Resolver E _).
Proof. induction requests as [|[c q] requests IH]; cbn [resolve_batch_socket_keys]; goes_on. Qed.
#[local] Hint Resolve socket_keys_later : later.
Lemma resolve_strict_later {E} requests deadline :
  always later (resolve_strict procfs instant daemon_process_id workers spawned requests deadline : ST Resolver E _).
Proof. unfold resolve_strict, revalidate_batch_owners. goes_on. Qed.

Lemma now_later {E} : always later (next_instant instant : ST Resolver E Z).
Proof. unfold next_instant. goes_on. Qed.
#[local] Hint Resolve now_later : later.
Lemma hint_entries_later uids deadline : forall hints processes groups n,
  always later (fast_hint_entries procfs instant hints uids deadline processes groups n).
Proof.
  induction hints as [|[[uid pid] hint] hints IH]; intros processes groups n; cbn [fast_hint_entries]; goes_on.
Qed.
#[local] Hint Resolve hint_entries_later : later.
Lemma candidates_later requests deadline hints :
  always later (fast_candidates procfs instant daemon_process_id requests deadline hints).
Proof. unfold fast_candidates, fast_hint_groups, fast_owner_snapshot. goes_on. Qed.
End BatchTime.
#[export] Hint Resolve resolve_strict_later now_later hint_entries_later candidates_later : later.

(** ** The search *)

Lemma fast_slot_Ok before after captures requirements key error e identity :
  fast_slot before after captures requirements key error = (e, Some identity) ->
  exists socket, key = Some socket /\ failures before !! socket = None
  /\ unique before !! socket = unique after !! socket /\ captures !! (socket, requirements) = Some (Ok identity).
Proof.
  unfold fast_slot. destruct key as [key|]; [|done].
  destruct (_ || negb _) eqn:Eb; [done|]. rewrite !orb_false_iff in Eb. destruct Eb as [[[_ Ef] _] Eu].
  apply is_some_false in Ef. apply negb_false_iff, bool_decide_eq_true in Eu.
  destruct (captures !! (key, requirements)) as [[id|]|] eqn:Ec; [|done|done].
  intros [= _ ->]. exists key. done.
Qed.

Section Search.
Context `{Target} (procfs : nat -> Procfs) (instant : nat -> Z) (daemon_process_id : option Z).

(** Between two times, the numbers of the task of a hint were those of the hint. *)
Definition anchored (n n' : nat) (uid : Z) (hint : OwnerHint) : Prop :=
  let anchor := TaskPath (hint_process_id hint) (anchor_tid hint) in
  (exists bytes, opened_between procfs n n' anchor "stat" bytes
     /\ parse_start_time bytes = Ok (anchor_start hint))
  /\ exists bytes, opened_between procfs n n' anchor "status" bytes /\ parse_fs_uid bytes = Ok uid.

(** The process of the group is one of a hint. *)
Definition hinted (hints : list ((Z * Z) * OwnerHint)) (n n' : nat) (process_id : Z) : Prop :=
  exists key hint, (key, hint) ∈ hints /\ hint_process_id hint = process_id /\ anchored n n' key.1 hint.

Lemma hinted_within hints n n' m m' process_id :
  hinted hints m m' process_id -> (n <= m)%nat -> (m' <= n')%nat -> hinted hints n n' process_id.
Proof.
  intros (key & hint & Hin & Hp & (b & Hb & Hs) & b' & Hb' & Hu) Hn Hm. exists key, hint. split_and!; [done..|].
  split; [exists b|exists b']; (split; [by eapply opened_within|done]).
Qed.

Lemma hint_entries_Ok uids deadline : forall hints processes groups n r r' found,
  fast_hint_entries procfs instant hints uids deadline processes groups n r = (r', Ok found) ->
  forall group, group ∈ found ->
    group ∈ groups \/ hinted hints (readings r) (readings r') (group_process_id group).
Proof.
  induction hints as [|[[uid pid] hint] hints IH]; intros processes groups n r r' found Hrun group Hin;
    cbn [fast_hint_entries] in Hrun.
  { injection Hrun as _ <-. by left. }
  assert (Hskip : forall processes groups n r1, (readings r <= readings r1)%nat ->
    fast_hint_entries procfs instant hints uids deadline processes groups n r1 = (r', Ok found) ->
    group ∈ groups \/ hinted (((uid, pid), hint) :: hints) (readings r) (readings r') (group_process_id group)).
  { intros p g n1 r1 T1 Hr. destruct (IH _ _ _ _ _ _ Hr group Hin) as [?|(key & h & Hh & Hp & Ha)]; [by left|right].
    eapply hinted_within; [|exact T1|done]. exists key, h. split_and!; [by right|done|done]. }
  cbn zeta in Hrun. destruct (negb _); [by eapply Hskip|]. step Hrun x1 r1 H1. took H1. step Hrun now r2 H2. took H2.
  destruct (_ <=? _); [eapply Hskip; [|exact Hrun]; lia|]. step Hrun start r3 H3. took H3.
  destruct start as [start|error]; [|destruct (owner_timed_out error); [done|eapply Hskip; [|exact Hrun]; lia]].
  destruct (Z.eqb_spec start (anchor_start hint)) as [->|]; cbn [negb] in Hrun; [|eapply Hskip; [|exact Hrun]; lia].
  step Hrun observed r4 H4. took H4.
  destruct observed as [observed|error]; [|destruct (owner_timed_out error); [done|eapply Hskip; [|exact Hrun]; lia]].
  destruct (Z.eqb_spec observed uid) as [->|]; cbn [negb orb] in Hrun; [|eapply Hskip; [|exact Hrun]; lia].
  case_bool_decide; [eapply Hskip; [|exact Hrun]; lia|]. step Hrun tasks r5 H5. took H5.
  destruct tasks as [[[ids|] count]|[count error]].
  - pose proof (later_run _ _ _ _ (hint_entries_later _ _ _ _ _ _ _ _) Hrun) as T6.
    apply Hskip in Hrun; [|lia]. rewrite elem_of_app, list_elem_of_singleton in Hrun.
    destruct Hrun as [[?| ->]|?]; [by left| |by right]. right. exists (uid, pid), hint.
    split_and!; [by left|done|]. apply attempt_run in H3, H4. apply start_time_Ok in H3 as (b & Hb & Hs).
    apply fs_uid_Ok in H4 as (b' & Hb' & Hu). split; [exists b|exists b'];
      (split; [eapply opened_within; [done|lia|lia]|done]).
  - eapply Hskip; [|exact Hrun]. lia.
  - destruct (owner_timed_out error); [done|]. eapply Hskip; [|exact Hrun]. lia.
Qed.

(** *** The hints that were followed *)

(** The tasks that a listing names. *)
Definition task_names (entries : list (Result IoError Bytes)) : list Z :=
  omap (fun entry => match entry with Ok name => numeric_name name | Err _ => None end) entries.

Definition listed_tasks (k : nat) (process_id : Z) : Z :=
  match proc_tasks (procfs k) process_id with Ok entries => zlen (task_names entries) | Err _ => 0 end.

(** The processes of the hints have more tasks than a search may list. *)
Definition crowded (hints : list ((Z * Z) * OwnerHint)) (n n' : nat) : Prop :=
  exists looks : list (Z * nat), NoDup looks.*1
  /\ (forall process_id k, (process_id, k) ∈ looks -> (n <= k < n')%nat
        /\ exists key hint, (key, hint) ∈ hints /\ hint_process_id hint = process_id)
  /\ MAX_PROC_ENTRIES < foldr Z.add 0 ((fun look => listed_tasks look.2 look.1) <$> looks).

(** A listing of the tasks of a process was not complete. *)
Definition unlistable (n n' : nat) (process_id : Z) : Prop :=
  exists k, (n <= k < n')%nat
  /\ match proc_tasks (procfs k) process_id with
     | Ok entries => task_names entries = [] \/ exists e, Err e ∈ entries /\ e <> NotFound
     | Err _ => True
     end.

(** The tasks of a process are a group, as they were listed, or they could not
    be listed. *)
Definition listed_process (hints : list ((Z * Z) * OwnerHint)) (groups : list OwnerTaskGroup) (n n' : nat)
    (process_id : Z) : Prop :=
  (exists task_ids k entries, mkGroup process_id task_ids ∈ groups /\ (n <= k < n')%nat
     /\ proc_tasks (procfs k) process_id = Ok entries
     /\ forall tid, tid ∈ task_ids <-> tid ∈ task_names entries)
  \/ unlistable n n' process_id \/ crowded hints n n'.

(** A reading between two times, with time left, that did not give [wanted]. *)
Definition misses {A} (n n' : nat) (m : ST Resolver OwnerError A) (wanted : A) : Prop :=
  exists r r' result, m r = (r', result) /\ (n <= readings r)%nat /\ (readings r' <= n')%nat
  /\ match result with Ok a => a <> wanted | Err error => owner_timed_out error = false end.

(** A hint of the user was followed to its process, or it did not hold: it was
    too old, or its task could not be read or was another one or another
    user's. *)
Definition followed (hints : list ((Z * Z) * OwnerHint)) (groups : list OwnerTaskGroup) (deadline : Z) (n n' : nat)
    (uid : Z) (hint : OwnerHint) : Prop :=
  let anchor := TaskPath (hint_process_id hint) (anchor_tid hint) in
  listed_process hints groups n n' (hint_process_id hint)
  \/ (exists k, (n <= k < n')%nat /\ OWNER_HINT_TTL <= saturating_since (instant k) (last_verified_at hint))
  \/ misses n n' (read_start_time procfs instant anchor deadline) (anchor_start hint)
  \/ misses n n' (read_process_fs_uid procfs instant anchor deadline) uid.

Lemma crowded_within hints n n' m m' : crowded hints m m' -> (n <= m)%nat -> (m' <= n')%nat -> crowded hints n n'.
Proof.
  intros (looks & Hnd & Hall & Hmax) Hn Hn'. exists looks. split_and!; [done| |done].
  intros p k Hin. destruct (Hall p k Hin) as [Hk Hh]. split; [lia|done].
Qed.

Lemma listed_within hints groups groups' n n' m m' process_id :
  listed_process hints groups m m' process_id -> groups ⊆ groups' -> (n <= m)%nat -> (m' <= n')%nat ->
  listed_process hints groups' n n' process_id.
Proof.
  intros [(ids & k & entries & Hg & Hk & He & Hids)|[(k & Hk & He)|Hc]] Hsub Hn Hn'.
  - left. exists ids, k, entries. split_and!; [by apply Hsub|lia|lia|done|done].
  - right; left. exists k. split; [lia|done].
  - right; right. by eapply crowded_within.
Qed.

Lemma misses_within {A} n n' m m' (run : ST Resolver OwnerError A) wanted :
  misses m m' run wanted -> (n <= m)%nat -> (m' <= n')%nat -> misses n n' run wanted.
Proof. intros (r & r' & result & Hr & Hm & Hm' & Hx) Hn Hn'. exists r, r', result. split_and!; [done|lia|lia|done]. Qed.

Lemma followed_within hints groups groups' deadline n n' m m' uid hint :
  followed hints groups deadline m m' uid hint -> groups ⊆ groups' -> (n <= m)%nat -> (m' <= n')%nat ->
  followed hints groups' deadline n n' uid hint.
Proof.
  intros [Hl|[(k & Hk & Ht)|[Hs|Hu]]] Hsub Hn Hn'.
  - left. by eapply listed_within.
  - right; left. exists k. split; [lia|done].
  - right; right; left. by eapply misses_within.
  - right; right; right. by eapply misses_within.
Qed.

(** *** Listing the tasks of a process *)

Lemma check_fails deadline r r' error :
  check_deadline instant deadline r = (r', Err error) -> owner_timed_out error = true.
Proof.
  unfold check_deadline, with_error. rewrite within_run. destruct (_ <=? _); [done|]. by intros [= _ <-].
Qed.

(** What reading the entries of a listing amounts to, from the tasks and the
    count so far. *)
Definition lists (entries : list (Result IoError Bytes)) (ids : list Z) (count : Z)
    (result : Result (Z * OwnerError) (list Z * Z)) : Prop :=
  match result with
  | Ok (ids', count') => ids' = ids ++ task_names entries /\ count' = count + zlen (task_names entries)
  | Err (count', error) => count <= count' <= count + zlen (task_names entries)
      /\ (owner_timed_out error = true \/ (exists e, Err e ∈ entries /\ e <> NotFound)
          \/ MAX_PROC_ENTRIES < count + zlen (task_names entries))
  end.

Lemma lists_skip entry entries ids count result :
  task_names (entry :: entries) = task_names entries -> lists entries ids count result ->
  lists (entry :: entries) ids count result.
Proof.
  intros Hskip. unfold lists. rewrite Hskip. destruct result as [[ids' c']|[c' error]]; [done|].
  intros [Hb [?|[(e & He & Hne)|?]]]; (split; [done|]); [by left| |by right; right].
  right; left. exists e. split; [by right|done].
Qed.

Lemma lists_task name tid entries ids count result :
  numeric_name name = Some tid -> lists entries (ids ++ [tid]) (count + 1) result ->
  lists (Ok name :: entries) ids count result.
Proof.
  intros En. unfold lists.
  assert (Hname : task_names (Ok name :: entries) = tid :: task_names entries)
    by (unfold task_names; cbn [omap list_omap]; by rewrite En).
  rewrite Hname. replace (zlen (tid :: task_names entries)) with (1 + zlen (task_names entries)) by (unfold zlen; cbn [length]; lia).
  destruct result as [[ids' c']|[c' error]].
  - intros [-> ->]. rewrite <-app_assoc. split; [done|lia].
  - intros [Hb [?|[(e & He & Hne)|?]]]; (split; [lia|]); [by left| |right; right; lia].
    right; left. exists e. split; [by right|done].
Qed.

Lemma task_entries_run deadline : forall entries ids count r r' result,
  task_id_entries instant entries deadline ids count r = (r', result) -> lists entries ids count result.
Proof.
  induction entries as [|entry entries IH]; intros ids count r r' result Hrun; cbn [task_id_entries] in Hrun.
  { injection Hrun as _ <-. unfold lists. cbn [task_names omap list_omap]. rewrite app_nil_r. change (zlen []) with 0. split; [done|lia]. }
  pose proof (zlen_nonneg (task_names (entry :: entries))) as Hlen. rewrite run_bind in Hrun. unfold with_error in Hrun.
  destruct (check_deadline instant deadline r) as [r1 [x|error]] eqn:Hc; cbn [map_err] in Hrun.
  2: { injection Hrun as _ <-. apply check_fails in Hc. split; [lia|by left]. }
  destruct entry as [name|e].
  - destruct (numeric_name name) as [tid|] eqn:En.
    2: { apply lists_skip; [|by eapply IH]. unfold task_names. cbn [omap list_omap]. by rewrite En. }
    rewrite run_lift in Hrun. unfold usize_checked_add, u64_checked_add in Hrun.
    assert (Hone : 1 <= zlen (task_names (Ok name :: entries))).
    { unfold task_names. cbn [omap list_omap]. rewrite En. unfold zlen. cbn [length]. lia. }
    case_decide as Hmax; cbn [ok_or] in Hrun.
    2: { injection Hrun as _ <-. split; [lia|]. right; right. unfold U64_MAX in Hmax. lia. }
    rewrite run_lift in Hrun. destruct (Z.leb_spec (count + 1) MAX_PROC_ENTRIES); cbn [ensure] in Hrun.
    + eapply lists_task; [done|by eapply IH].
    + injection Hrun as _ <-. split; [lia|]. right; right. lia.
  - destruct e.
    { apply lists_skip; [done|by eapply IH]. }
    all: injection Hrun as _ <-; (split; [lia|]); right; left; eexists; (split; [by left|done]).
Qed.

(** A listing gives the tasks that it names, or there is a reason. *)
Lemma task_ids_run deadline process_id count r r' result :
  enumerate_task_ids procfs instant process_id deadline count r = (r', result) -> (readings r < readings r')%nat
  /\ match result with
     | Ok (Some ids, count') => count' <= count + listed_tasks (readings r) process_id
         /\ exists entries, proc_tasks (procfs (readings r)) process_id = Ok entries
            /\ forall tid, tid ∈ ids <-> tid ∈ task_names entries
     | Ok (None, count') => count' <= count + listed_tasks (readings r) process_id
         /\ unlistable (readings r) (readings r') process_id
     | Err (count', error) => count' <= count + listed_tasks (readings r) process_id
         /\ (owner_timed_out error = false -> unlistable (readings r) (readings r') process_id
             \/ MAX_PROC_ENTRIES < count + listed_tasks (readings r) process_id)
     end.
Proof.
  unfold enumerate_task_ids. rewrite run_bind. unfold look at 1. rewrite run_get, run_modify.
  cbv beta iota delta [mret ST_ret]. intros Hrun. change (mkResolver _ _ _) with (tick r) in Hrun.
  assert (T : (readings (tick r) <= readings r')%nat).
  { revert Hrun. destruct (proc_tasks _ _); intros Hrun; by took Hrun. }
  cbn [tick readings] in T. split; [lia|]. unfold listed_tasks.
  destruct (proc_tasks (procfs (readings r)) process_id) as [entries|e] eqn:El.
  - pose proof (zlen_nonneg (task_names entries)) as Hlen. rewrite run_bind in Hrun.
    destruct (task_id_entries instant entries deadline [] count (tick r)) as [r1 tasks] eqn:Ht.
    apply task_entries_run in Ht. destruct tasks as [[ids c]|[c error]]; cbn [lists] in Ht.
    2: { injection Hrun as <- <-. destruct Ht as [Hb Hwhy]. split; [lia|]. intros Ho.
         destruct Hwhy as [?|[He|?]]; [congruence| |by right]. left. exists (readings r). rewrite El. split; [lia|by right]. }
    destruct Ht as [-> ->]. cbn [app fst snd] in Hrun.
    pose proof (merge_sort_Permutation Z.le (task_names entries)) as Hp.
    destruct (merge_sort Z.le (task_names entries)) as [|id ids] eqn:Em.
    + assert (Hnil : task_names entries = []) by (by apply Permutation_nil in Hp).
      assert (Hun : unlistable (readings r) (readings r') process_id)
        by (exists (readings r); rewrite El; split; [lia|by left]).
      revert Hrun. unfold with_error. rewrite run_bind.
      destruct (path_disappeared procfs (ProcessPath process_id) r1) as [r2 [[]|error]]; intros [= <- <-];
        (split; [lia|]); auto.
    + injection Hrun as <- <-. split; [lia|]. exists entries. split; [done|]. intros tid. by rewrite Hp.
  - assert (Hun : unlistable (readings r) (readings r') process_id)
      by (exists (readings r); rewrite El; split; [lia|done]).
    revert Hrun. unfold with_error. destruct (procfs_enumeration_may_indicate_disappearance e).
    + rewrite run_bind. destruct (procfs_subject_disappeared_after procfs e _ _) as [r2 [[]|error]]; intros [= <- <-];
        (split; [lia|]); auto.
    + intros [= <- <-]. split; [lia|]. auto.
Qed.

(** *** The loop over the hints *)

(** The count is that of tasks listed so far, of processes that were searched. *)
Definition counts (hints : list ((Z * Z) * OwnerHint)) (n n' : nat) (processes : gset Z) (count : Z) : Prop :=
  exists looks : list (Z * nat), NoDup looks.*1
  /\ (forall process_id k, (process_id, k) ∈ looks -> process_id ∈ processes /\ (n <= k < n')%nat
        /\ exists key hint, (key, hint) ∈ hints /\ hint_process_id hint = process_id)
  /\ count <= foldr Z.add 0 ((fun look => listed_tasks look.2 look.1) <$> looks).

Lemma counts_within hints n n' m' processes count :
  counts hints n m' processes count -> (m' <= n')%nat -> counts hints n n' processes count.
Proof.
  intros (looks & Hnd & Hall & Hc) Hm. exists looks. split_and!; [done| |done].
  intros p k Hin. destruct (Hall p k Hin) as (? & ? & ?). split_and!; [done|lia|lia|done].
Qed.

(** One more process is listed, at [k]. *)
Lemma counts_more hints n n' processes count count' key hint k :
  counts hints n k processes count -> (key, hint) ∈ hints -> hint_process_id hint ∉ processes ->
  (n <= k < n')%nat -> count' <= count + listed_tasks k (hint_process_id hint) ->
  counts hints n n' (processes ∪ {[hint_process_id hint]}) count'
  /\ (MAX_PROC_ENTRIES < count + listed_tasks k (hint_process_id hint) -> crowded hints n n').
Proof.
  intros (looks & Hnd & Hall & Hc) Hin Hnew Hk Hcount. set (p := hint_process_id hint) in *.
  assert (Hnd' : NoDup ((p, k) :: looks).*1).
  { cbn. constructor; [|done]. intros ([p' k'] & Heq & Hl)%list_elem_of_fmap. cbn in Heq. subst p'.
    by destruct (Hall _ _ Hl). }
  assert (Hall' : forall process_id k', (process_id, k') ∈ (p, k) :: looks -> process_id ∈ processes ∪ {[p]}
    /\ (n <= k' < n')%nat /\ exists key hint, (key, hint) ∈ hints /\ hint_process_id hint = process_id).
  { intros p' k' [[= -> ->]|Hl]%elem_of_cons; [split_and!; [set_solver|lia|lia|by exists key, hint]|].
    destruct (Hall _ _ Hl) as (? & ? & ?). split_and!; [set_solver|lia|lia|done]. }
  split.
  - exists ((p, k) :: looks). split_and!; [done|done|]. cbn [fmap list_fmap foldr fst snd]. lia.
  - intros Hmax. exists ((p, k) :: looks). split_and!; [done| |cbn [fmap list_fmap foldr fst snd]; lia].
    intros p' k' Hl. by apply Hall' in Hl as (_ & ? & ?).
Qed.

Section Loop.
Context (uids : gset Z) (deadline : Z) (all : list ((Z * Z) * OwnerHint)) (n0 : nat).

(** The hints are followed, unless their process was searched before. *)
Definition follows (hints : list ((Z * Z) * OwnerHint)) (processes : gset Z) (groups found : list OwnerTaskGroup)
    (n' : nat) : Prop :=
  groups ⊆ found
  /\ forall key hint, (key, hint) ∈ hints -> key.1 ∈ uids ->
     followed all found deadline n0 n' key.1 hint \/ hint_process_id hint ∈ processes.

(** The rest of the loop, when what became of this hint is known. *)
Lemma follows_cons key hint hints processes processes' groups groups' found n1 n' :
  follows hints processes' groups' found n' -> (n1 <= n')%nat -> groups ⊆ groups' ->
  (key.1 ∈ uids -> followed all groups' deadline n0 n1 key.1 hint \/ hint_process_id hint ∈ processes) ->
  (forall process_id, process_id ∈ processes' -> process_id ∈ processes
     \/ listed_process all groups' n0 n1 process_id) ->
  follows ((key, hint) :: hints) processes groups found n'.
Proof.
  intros [Hsub Hrest] Hn Hg Hthis Hp. split; [by etrans|].
  intros k h [[= -> ->]|Hin]%elem_of_cons Hu.
  - destruct (Hthis Hu) as [Hf|]; [left|by right]. eapply followed_within; [exact Hf|done|lia|lia].
  - destruct (Hrest k h Hin Hu) as [Hf|Hh]; [by left|].
    destruct (Hp _ Hh) as [?|Hl]; [by right|]. left; left. eapply listed_within; [exact Hl|done|lia|lia].
Qed.

(** Listing the process of a hint. *)
Lemma process_listed key hint processes count r r' result :
  enumerate_task_ids procfs instant (hint_process_id hint) deadline count r = (r', result) ->
  (key, hint) ∈ all -> (n0 <= readings r)%nat -> counts all n0 (readings r) processes count ->
  hint_process_id hint ∉ processes ->
  (readings r < readings r')%nat
  /\ let counted := counts all n0 (readings r') (processes ∪ {[hint_process_id hint]}) in
     match result with
     | Ok (Some ids, count') => counted count'
         /\ forall groups, listed_process all (groups ++ [mkGroup (hint_process_id hint) ids]) n0 (readings r')
                             (hint_process_id hint)
     | Ok (None, count') => counted count'
         /\ forall groups, listed_process all groups n0 (readings r') (hint_process_id hint)
     | Err (count', error) => counted count'
         /\ (owner_timed_out error = false ->
             forall groups, listed_process all groups n0 (readings r') (hint_process_id hint))
     end.
Proof.
  intros [T Hres]%task_ids_run Hin Hn Hcount Hnew. split; [done|]. cbn zeta.
  assert (Hmore : forall count', count' <= count + listed_tasks (readings r) (hint_process_id hint) ->
    counts all n0 (readings r') (processes ∪ {[hint_process_id hint]}) count'
    /\ (MAX_PROC_ENTRIES < count + listed_tasks (readings r) (hint_process_id hint) -> crowded all n0 (readings r'))).
  { intros count' Hc. by apply (counts_more all n0 (readings r') processes count count' key hint (readings r)). }
  assert (Hun : unlistable (readings r) (readings r') (hint_process_id hint) ->
    unlistable n0 (readings r') (hint_process_id hint)).
  { intros (k & Hk & Hwhy). exists k. split; [lia|done]. }
  destruct result as [[[ids|] count']|[count' error]]; destruct Hres as [Hc Hwhy];
    (split; [by apply Hmore|]); [intros groups|intros groups|intros Ho groups].
  - destruct Hwhy as (entries & He & Hids). left. exists ids, (readings r), entries. split_and!; [set_solver|lia|lia|done|done].
  - right; left. by apply Hun.
  - destruct (Hwhy Ho) as [?|Hmax]; [right; left; by apply Hun|right; right]. by apply (Hmore count').
Qed.

(** The loop over these hints follows them. *)
Definition loops (hints : list ((Z * Z) * OwnerHint)) : Prop :=
  forall processes groups count r r' found,
    fast_hint_entries procfs instant hints uids deadline processes groups count r = (r', Ok found) ->
    (n0 <= readings r)%nat -> counts all n0 (readings r) processes count ->
    follows hints processes groups found (readings r').

(** The loop goes on without the process of a hint. *)
Lemma loops_skip key hint hints processes groups count r r1 r' found :
  loops hints -> counts all n0 (readings r) processes count -> (n0 <= readings r <= readings r1)%nat ->
  fast_hint_entries procfs instant hints uids deadline processes groups count r1 = (r', Ok found) ->
  (key.1 ∈ uids -> followed all groups deadline n0 (readings r1) key.1 hint \/ hint_process_id hint ∈ processes) ->
  follows ((key, hint) :: hints) processes groups found (readings r').
Proof.
  intros IH Hcount Hn Hr Hthis. pose proof (later_run _ _ _ _ (hint_entries_later _ _ _ _ _ _ _ _) Hr) as T.
  eapply follows_cons; [|exact T|done|done|by left].
  eapply IH; [exact Hr|lia|]. eapply counts_within; [exact Hcount|lia].
Qed.

(** The loop goes on after the process of a hint was listed. *)
Lemma loops_list key hint hints processes groups groups' count r r' found :
  loops hints -> (n0 <= readings r)%nat -> groups ⊆ groups' ->
  fast_hint_entries procfs instant hints uids deadline (processes ∪ {[hint_process_id hint]}) groups' count r
    = (r', Ok found) ->
  counts all n0 (readings r) (processes ∪ {[hint_process_id hint]}) count ->
  listed_process all groups' n0 (readings r) (hint_process_id hint) ->
  follows ((key, hint) :: hints) processes groups found (readings r').
Proof.
  intros IH Hn Hg Hr Hc Hl. pose proof (later_run _ _ _ _ (hint_entries_later _ _ _ _ _ _ _ _) Hr) as T.
  eapply follows_cons; [eapply IH; [exact Hr|done|done]|exact T|done|intros _; left; by left|].
  intros p [?|Hp%elem_of_singleton]%elem_of_union; [by left|subst p; by right].
Qed.

Lemma hint_entries_all : forall hints, hints ⊆ all -> loops hints.
Proof.
  induction hints as [|[[uid pid] hint] hints IH]; intros Hall processes groups count r r' found Hrun Hn Hcount;
    cbn [fast_hint_entries] in Hrun.
  { injection Hrun as _ <-. split; [done|]. by intros key hint ?%elem_of_nil. }
  assert (Hin : ((uid, pid), hint) ∈ all) by (apply Hall; by left).
  specialize (IH (fun x Hx => Hall x (list_elem_of_further _ _ _ Hx))). clear Hall.
  assert (Hskip : forall r1, (readings r <= readings r1)%nat ->
    fast_hint_entries procfs instant hints uids deadline processes groups count r1 = (r', Ok found) ->
    (uid ∈ uids -> followed all groups deadline n0 (readings r1) uid hint \/ hint_process_id hint ∈ processes) ->
    follows (((uid, pid), hint) :: hints) processes groups found (readings r'))
    by (intros; by eapply (loops_skip (uid, pid))).
  cbn zeta in Hrun. case_bool_decide as Huid; cbn [negb] in Hrun; [|by eapply Hskip].
  step Hrun x1 r1 H1. took H1. step Hrun now r2 H2. took H2.
  assert (r2 = tick r1 /\ now = instant (readings r1)) as [-> ->].
  { revert H2. unfold next_instant. rewrite run_get, run_modify. by intros [= <- <-]. }
  cbn [tick readings] in *.
  destruct (Z.leb_spec OWNER_HINT_TTL (saturating_since (instant (readings r1)) (last_verified_at hint))) as [Hold|_].
  { eapply Hskip; [|exact Hrun|]; [cbn; lia|]. intros _. left; right; left. exists (readings r1). split; [cbn; lia|done]. }
  step Hrun start r3 H3. took H3. apply attempt_run in H3. cbn [tick readings] in *.
  assert (Hstart : start <> Ok (anchor_start hint) ->
    match start with Err error => owner_timed_out error = false | Ok _ => True end ->
    followed all groups deadline n0 (readings r3) uid hint).
  { intros Hne Hlate. right; right; left. exists (tick r1), r3, start. split_and!; [done|cbn; lia|done|].
    destruct start; [congruence|done]. }
  destruct start as [start|error]; [|destruct (owner_timed_out error) eqn:Ho; [done|]; eapply Hskip; [|exact Hrun|]; [lia|auto]].
  destruct (Z.eqb_spec start (anchor_start hint)) as [->|Hne]; cbn [negb] in Hrun.
  2: { eapply Hskip; [|exact Hrun|]; [lia|]. left. apply Hstart; [congruence|done]. }
  step Hrun observed r4 H4. took H4. apply attempt_run in H4.
  assert (Huser : observed <> Ok uid ->
    match observed with Err error => owner_timed_out error = false | Ok _ => True end ->
    followed all groups deadline n0 (readings r4) uid hint).
  { intros Hne Hlate. right; right; right. exists r3, r4, observed. split_and!; [done|lia|done|].
    destruct observed; [congruence|done]. }
  destruct observed as [observed|error]; [|destruct (owner_timed_out error) eqn:Ho; [done|]; eapply Hskip; [|exact Hrun|]; [lia|auto]].
  destruct (Z.eqb_spec observed uid) as [->|Hne]; cbn [negb orb] in Hrun.
  2: { eapply Hskip; [|exact Hrun|]; [lia|]. left. apply Huser; [congruence|done]. }
  case_bool_decide as Hold; [eapply Hskip; [|exact Hrun|]; [lia|by right]|].
  step Hrun tasks r5 H5. apply attempt_run in H5.
  apply (process_listed (uid, pid) hint processes) in H5 as [T5 Htasks]; [|done|lia|eapply counts_within; [exact Hcount|lia]|done].
  destruct tasks as [[[ids|] count']|[count' error]]; destruct Htasks as [Hc Hl].
  - eapply loops_list; [exact IH| | |exact Hrun|done|apply Hl]; [lia|set_solver].
  - eapply loops_list; [exact IH| | |exact Hrun|done|apply Hl]; [lia|done].
  - destruct (owner_timed_out error) eqn:Ho; [done|].
    eapply loops_list; [exact IH| | |exact Hrun|done|by apply Hl]; [lia|done].
Qed.
End Loop.

Lemma hint_groups_Ok hints targets deadline r r' groups :
  fast_hint_groups procfs instant hints targets deadline r = (r', Ok groups) ->
  (readings r <= readings r')%nat
  /\ (forall group, group ∈ groups -> hinted hints (readings r) (readings r') (group_process_id group))
  /\ forall key hint, (key, hint) ∈ hints -> key.1 ∈ key_uids targets ->
     followed hints groups deadline (readings r) (readings r') key.1 hint.
Proof.
  unfold fast_hint_groups. intros Hrun. step Hrun found r1 H1.
  pose proof (later_run _ _ _ _ (hint_entries_later _ _ _ _ _ _ _ _) H1) as T1. step Hrun x r2 H2. took H2.
  injection Hrun as <- <-. split_and!; [lia| |].
  - intros group Hin.
    destruct (hint_entries_Ok _ _ _ _ _ _ _ _ _ H1 group Hin) as [?%elem_of_nil|Hh]; [done|].
    eapply hinted_within; [exact Hh|lia|lia].
  - intros key hint Hin Hu.
    destruct (hint_entries_all _ deadline hints (readings r) hints ltac:(done) ∅ [] 0 r r1 found H1) as [_ Hall]; [done| |].
    { exists []. split_and!; [constructor|by intros p k ?%elem_of_nil|done]. }
    destruct (Hall key hint Hin Hu) as [Hf|?%not_elem_of_empty]; [|done].
    eapply followed_within; [exact Hf|done|lia|lia].
Qed.

Lemma fast_snapshot_Ok groups targets deadline hints r r' snapshot :
  fast_owner_snapshot procfs instant daemon_process_id groups targets deadline hints r = (r', Ok snapshot) ->
  (readings r <= readings r')%nat
  /\ forall key tasks, unique snapshot !! key = Some tasks ->
     exists process_id, owned_by procfs (task_of groups) (readings r) (readings r') key process_id tasks.
Proof.
  unfold fast_owner_snapshot. intros Hrun.
  step Hrun d1 r1 H1. pose proof (later_run _ _ _ _ (daemon_targets_later _ _ _ _ _ _) H1) as T1.
  step Hrun acc r2 H2. destruct (scan_groups_Ok _ _ _ _ _ _ (fun _ _ => True) _ _ _ _ _ _ H2) as (T2 & _); [done|].
  step Hrun d2 r3 H3. pose proof (later_run _ _ _ _ (daemon_targets_later _ _ _ _ _ _) H3) as T3.
  injection Hrun as <- <-. split; [lia|]. intros key tasks Hu.
  eapply scanned_owned in Hu as [_ Hu]; [exact Hu|exact H2|lia|lia].
Qed.

(** What the search established of connection [i] of a batch until [n'], when it
    began with the resolver [r].  Before the first scan and after the second, all
    the hints of the user of the socket were followed; the scope of the scans is
    the tasks of their processes; and the process that was found is that of a
    hint. *)
Definition found_fast (hints : list ((Z * Z) * OwnerHint)) (r : Resolver) (n' : nat) (requests : list Request)
    (deadline : Z) (i : nat) (identity : ApplicationIdentity) : Prop :=
  exists groups key process_id tasks n1 n2 n3 n4 n5, (n5 <= n')%nat
  /\ attributed procfs instant (task_of groups) r n5 requests deadline i identity key process_id tasks n1 n2 n3 n4
  /\ hinted hints (readings r) n1 process_id /\ hinted hints n5 n' process_id
  /\ forall hint_key hint, (hint_key, hint) ∈ hints -> hint_key.1 = key_uid key ->
     followed hints groups deadline (readings r) n1 (key_uid key) hint
     /\ followed hints groups deadline n5 n' (key_uid key) hint.

Lemma candidates_found requests deadline hints r r' identities verified i connection requirements identity :
  fast_candidates procfs instant daemon_process_id requests deadline hints r = (r', Ok (identities, verified)) ->
  requests !! i = Some (connection, requirements) -> identities !! i = Some (Some identity) ->
  found_fast hints r (readings r') requests deadline i identity.
Proof.
  unfold fast_candidates. intros Hrun Hreq Hi. step Hrun resolved r1 H1. cbn zeta in Hrun.
  apply socket_keys_facts in H1 as [T1 Hsockets].
  case_bool_decide; [injection Hrun as <- <- <-; by apply lookup_replicate in Hi as [? _]|].
  step Hrun groups r2 H2. apply hint_groups_Ok in H2 as (T2 & Hfirst & Hbegin).
  step Hrun before r3 H3. apply fast_snapshot_Ok in H3 as [T3 Hbefore].
  step Hrun captures r4 H4. pose proof (later_run _ _ _ _ (capture_batch_later _ _ _ _ _ _) H4) as T4.
  step Hrun fd_hints r5 H5. pose proof (later_run _ _ _ _ (fd_hints_later _ _ _ _) H5) as T5.
  step Hrun after_groups r6 H6. apply hint_groups_Ok in H6 as (T6 & _).
  passes Hrun Hg1. apply ensure_Ok, bool_decide_eq_true in Hg1 as <-.
  step Hrun after r7 H7. apply fast_snapshot_Ok in H7 as [T7 Hafter].
  step Hrun last_groups r8 H8. apply hint_groups_Ok in H8 as (T8 & Hlast & Hend).
  passes Hrun Hg2. apply ensure_Ok, bool_decide_eq_true in Hg2 as <-.
  step Hrun z r9 H9. took H9. injection Hrun as <- <- _.
  apply list_lookup_fmap_Some in Hi as ([e o] & Eo & Er). cbn in Eo. subst o.
  apply rejected_slot_kept in Er. rewrite lookup_zip_with, Hreq in Er. cbn [mbind option_bind] in Er.
  destruct (zip _ _ !! i) as [[key error]|] eqn:Ez; [|done]. cbn in Er. injection Er as Er.
  apply fast_slot_Ok in Er as (socket & -> & Hf & Hu & Hid). apply lookup_zip_Some in Ez as [Ekey _].
  destruct (capture_batch_facts _ _ _ _ _ _ _ _ _ _ _ _ _ _ H4 Hreq Ekey Hid) as (tasks & Eu & _). rewrite Eu in Hu.
  destruct (Hbefore socket tasks Eu) as [p Hb]. destruct (Hafter socket tasks) as [q Ha]; [done|].
  pose proof (batch_keys_Ok _ _ _ Ekey) as Hkey.
  assert (Huid : key_uid socket ∈ key_uids (batch_targets resolved)).
  { unfold key_uids, batch_targets. apply elem_of_map. exists socket. split; [done|].
    apply elem_of_list_to_set, list_elem_of_omap. exists (Some socket). split; [|done]. by eapply list_elem_of_lookup_2. }
  assert (Hatt : attributed procfs instant (task_of groups) r (readings r7) requests deadline i identity
    socket p tasks (readings r2) (readings r3) (readings r4) (readings r6)).
  { eapply attributed_between; [exact H4|done|done|done|done| |done|done|lia|lia].
    destruct (Hsockets i socket Hkey) as (c & rq & rk & ? & ? & ? & ? & ?). exists c, rq, rk. split_and!; [done..|lia]. }
  destruct (at_identity _ _ _ _ _ _ _ _ _ _ _ _ _ _ _ _ Hatt) as (owner & Hin & _).
  destruct (ob_scope _ _ _ _ _ _ _ Hb owner Hin) as (g & Hg & Hp & _).
  pose proof (proj1 (Forall_forall _ _) (ob_process _ _ _ _ _ _ _ Hb) _ Hin) as Hq. cbn in Hq.
  exists groups, socket, p, tasks, (readings r2), (readings r3), (readings r4), (readings r6), (readings r7).
  rewrite <-Hq, <-Hp.
  split_and!; [lia|congruence|eapply hinted_within; [by apply Hfirst|lia|lia]|eapply hinted_within; [by apply Hlast|lia|lia]|].
  intros hint_key hint Hh Heq. rewrite <-Heq in *.
  split; [eapply followed_within; [by eapply Hbegin|done|lia|lia]|eapply followed_within; [by eapply Hend|done|lia|lia]].
Qed.
End Search.

(** ** The cache *)

(** At most [MAX_OWNER_HINTS] hints, each under its own process. *)
Record cache_ok (c : OwnerCache) : Prop := {
  co_bounded : Z.of_nat (size (cache_entries c)) <= MAX_OWNER_HINTS;
  co_keyed : forall key hint, cache_entries c !! key = Some hint -> hint_process_id hint = key.2
}.

Lemma fewer_ok c c' : cache_ok c -> cache_entries c' ⊆ cache_entries c -> cache_ok c'.
Proof.
  intros [Hb Hk] Hsub. split.
  - pose proof (map_subseteq_size _ _ Hsub). lia.
  - intros key hint Hh. apply Hk. by eapply lookup_weaken.
Qed.

Lemma empty_ok g w : cache_ok (mkCache g w ∅).
Proof. split; cbn; [by rewrite map_size_empty|intros key hint Hh; by rewrite lookup_empty in Hh]. Qed.

Lemma retained_ok g w g' w' now entries : cache_ok (mkCache g w entries) -> cache_ok (mkCache g' w' (retain_fresh now entries)).
Proof. intros Hc. eapply fewer_ok; [exact Hc|]. apply map_filter_subseteq. Qed.

Lemma prepare_ok generation now c : cache_ok c -> cache_ok (prepare generation now c).
Proof.
  intros Hc. unfold prepare. cbn zeta.
  eapply (retained_ok (cache_generation c) (learning_warm c)). destruct (_ && _); [apply empty_ok|by destruct c].
Qed.

Lemma prepare_learning_ok generation now c : cache_ok c -> cache_ok (prepare_learning generation now c).
Proof.
  intros Hc. unfold prepare_learning. cbn zeta.
  eapply (retained_ok (cache_generation c) (learning_warm c)). destruct (negb _); [apply empty_ok|by destruct c].
Qed.

Lemma oldest_least entries oldest :
  oldest_entry entries = Some oldest ->
  oldest ∈ entries /\ forall entry, entry ∈ entries -> last_verified_at oldest.2 <= last_verified_at entry.2.
Proof.
  revert oldest. induction entries as [|e entries IH]; intros oldest; cbn [oldest_entry]; [done|].
  destruct (oldest_entry entries) as [other|] eqn:Eo.
  - destruct (IH other eq_refl) as [Hin Hle]. destruct (Z.ltb_spec (last_verified_at other.2) (last_verified_at e.2)); intros [= <-].
    + split; [by right|]. intros x [->|Hx]%elem_of_cons; [lia|by apply Hle].
    + split; [by left|]. intros x [->|Hx]%elem_of_cons; [lia|]. specialize (Hle x Hx). lia.
  - intros [= <-]. destruct entries as [|e' entries]; [|cbn [oldest_entry] in Eo; by repeat case_match].
    split; [by left|]. intros x [->|?%elem_of_nil]%elem_of_cons; done.
Qed.

Lemma ordered_entries_in entries key hint : (key, hint) ∈ ordered_entries entries <-> entries !! key = Some hint.
Proof. unfold ordered_entries. by rewrite merge_sort_Permutation, elem_of_map_to_list. Qed.

(** A new hint in a full cache takes the place of one that was verified before
    all others. *)
Lemma insert_hint_spec uid hint c :
  let c' := insert_hint uid hint c in
  let key := (uid, hint_process_id hint) in
  cache_entries c' !! key = Some hint
  /\ forall other h, other <> key -> cache_entries c !! other = Some h ->
     cache_entries c' !! other = Some h
     \/ cache_entries c !! key = None /\ MAX_OWNER_HINTS <= Z.of_nat (size (cache_entries c))
        /\ forall k h', cache_entries c !! k = Some h' -> last_verified_at h <= last_verified_at h'.
Proof.
  unfold insert_hint, set_entries. cbn zeta. cbn [cache_entries]. split; [apply lookup_insert_eq|].
  intros other h Hne Hh. rewrite lookup_insert_ne by done.
  destruct (_ && _) eqn:Eb; [|by left]. apply andb_true_iff in Eb as [En%is_none_true Es%Z.leb_le].
  destruct (oldest_entry _) as [oldest|] eqn:Eo; [|by left]. destruct (oldest_least _ _ Eo) as [Hin Hle].
  destruct (decide (oldest.1 = other)) as [<-|]; [|left; by rewrite lookup_delete_ne].
  right. split_and!; [done|done|]. intros k h' Hk. apply ordered_entries_in in Hk, Hh.
  destruct oldest as [o ho]. cbn [fst snd] in *. apply ordered_entries_in in Hin, Hh.
  assert (ho = h) as -> by congruence. by apply (Hle (k, h')).
Qed.

Lemma insert_hint_ok uid hint c : cache_ok c -> cache_ok (insert_hint uid hint c).
Proof.
  intros [Hb Hk]. unfold insert_hint, set_entries. cbn zeta. split; cbn [cache_entries].
  - destruct (cache_entries c !! (uid, hint_process_id hint)) as [h|] eqn:Eh; cbn [is_none is_some negb andb].
    { by rewrite map_size_insert_Some by done. }
    destruct (Z.leb_spec MAX_OWNER_HINTS (Z.of_nat (size (cache_entries c)))) as [Hfull|Hroom].
    2: { rewrite map_size_insert_None by done. lia. }
    destruct (oldest_entry _) as [[o h]|] eqn:Eo.
    + apply oldest_least in Eo as [Hin _]. apply ordered_entries_in in Hin. cbn [fst].
      rewrite map_size_insert_None by (by rewrite lookup_delete_None; right).
      rewrite map_size_delete_Some by done. lia.
    + exfalso. destruct (ordered_entries (cache_entries c)) as [|e l] eqn:El; [|cbn in Eo; by repeat case_match].
      assert (length (map_to_list (cache_entries c)) = 0%nat) as Hl.
      { pose proof (merge_sort_Permutation entry_le (map_to_list (cache_entries c))) as Hp.
        unfold ordered_entries in El. rewrite El in Hp. by apply Permutation_length in Hp. }
      rewrite length_map_to_list in Hl. lia.
  - intros key h [[<- <-]|[_ Hh]]%lookup_insert_Some; [done|]. apply Hk.
    destruct (_ && _); [|done]. destruct (oldest_entry _); [|done]. by apply lookup_delete_Some in Hh as [_ Hh].
Qed.

Lemma touch_ok verified now c : cache_ok c -> cache_ok (touch verified now c).
Proof.
  unfold touch. generalize (elements verified). intros l Hc.
  enough (cache_ok (set_entries (cache_entries c) c)) as H0.
  2: by destruct c. revert H0. generalize (cache_entries c). induction l as [|key l IH]; intros entries Hok; cbn [foldl]; [done|].
  apply IH. destruct Hok as [Hb Hk]. cbn [set_entries cache_entries] in *. split; cbn [set_entries cache_entries].
  - by rewrite <-(size_dom (D := gset (Z * Z))), dom_alter_L, size_dom.
  - intros k h [(<- & h' & Hh & ->)|[_ Hh]]%lookup_alter_Some; [|by apply Hk]. by apply (Hk _ h').
Qed.

Lemma clear_after_ok results c : cache_ok c -> cache_ok (clear_after_detected_ambiguity results c).
Proof. unfold clear_after_detected_ambiguity. case_match; [intros _; apply empty_ok|done]. Qed.

Lemma seed_ok before keys results now c : cache_ok c -> cache_ok (seed before keys results now c).
Proof.
  unfold seed. destruct (negb _); [done|]. generalize (unsafe_processes before keys results). intros unsafe.
  generalize (zip keys results). intros l. revert c. induction l as [|[[key|] [identity|e]] l IH]; intros c Hc; cbn [foldl]; try done.
  - apply IH. cbn [seed_result]. destruct (List.find _ _); [by apply insert_hint_ok|done].
  - by apply IH.
  - by apply IH.
  - by apply IH.
Qed.

(** ** The shared cache *)

Section Shared.
Context `{Target} (procfs : nat -> Procfs) (instant : nat -> Z) (daemon_process_id : option Z).
Context (workers : nat -> Z) (spawned : nat -> option (list bool)).
Context (lock : nat -> option (OwnerCache -> OwnerCache)).

Definition clock (s : Attributor) : nat := readings (proc_resolver s).

Lemma on_proc_run {E A} (m : ST Resolver E A) s r x :
  m (proc_resolver s) = (r, x) -> on_proc m s = (mkAttributor r (fast_owners s), x).
Proof. unfold on_proc. by intros ->. Qed.

Lemma locked_run {E} f s :
  (when_locked lock (update f) : ST Attributor E bool) s
  = (mkAttributor (tick (proc_resolver s))
       (match lock (clock s) with Some others => f (others (fast_owners s)) | None => fast_owners s end),
     Ok (is_some (lock (clock s)))).
Proof. unfold when_locked, update. rewrite run_get, run_modify. fold (clock s). by destruct (lock (clock s)). Qed.

Lemma locked_now_run {E} f s :
  (when_locked lock (update_now instant f) : ST Attributor E bool) s
  = match lock (clock s) with
    | Some others => (mkAttributor (tick (tick (proc_resolver s))) (f (instant (S (clock s))) (others (fast_owners s))), Ok true)
    | None => (mkAttributor (tick (proc_resolver s)) (fast_owners s), Ok false)
    end.
Proof. unfold when_locked, update_now, update. rewrite run_get, run_modify. fold (clock s). by destruct (lock (clock s)). Qed.

(** *** The bound of the cache *)

Definition keeps (s s' : Attributor) : Prop := cache_ok (fast_owners s) -> cache_ok (fast_owners s').
#[local] Instance keeps_preorder : PreOrder keeps.
Proof. split; unfold keeps; [by intros s|intros s1 s2 s3; auto]. Qed.

Context (others_ok : forall n others c, lock n = Some others -> cache_ok c -> cache_ok (others c)).

Lemma on_proc_keeps {E A} (m : ST Resolver E A) : always keeps (on_proc m).
Proof. intros s Hc. unfold on_proc. by destruct (m _). Qed.

Lemma locked_keeps {E} f :
  (forall c, cache_ok c -> cache_ok (f c)) -> always keeps (when_locked lock (update f) : ST Attributor E bool).
Proof. intros Hf s Hc. rewrite locked_run. cbn. destruct (lock (clock s)) eqn:El; [|done]. apply Hf. by eapply others_ok. Qed.

Lemma locked_now_keeps {E} f :
  (forall now c, cache_ok c -> cache_ok (f now c)) ->
  always keeps (when_locked lock (update_now instant f) : ST Attributor E bool).
Proof. intros Hf s Hc. rewrite locked_now_run. destruct (lock (clock s)) eqn:El; [|done]. apply Hf. by eapply others_ok. Qed.

Lemma strict_keeps {E} requests deadline seeds :
  always keeps (resolve_batch_strict_until procfs instant daemon_process_id workers spawned lock requests deadline seeds
                : ST Attributor E _).
Proof.
  unfold resolve_batch_strict_until. case_bool_decide; [apply always_ret, _|]. case_match; [apply always_ret, _|].
  apply always_bind; [apply _|apply on_proc_keeps|]. intros [[[before|] keys] results]; [|apply always_ret, _].
  apply always_bind; [apply _| |intros; apply always_ret, _]. destruct seeds; [|apply always_ret, _].
  apply locked_now_keeps. intros now c. apply seed_ok.
Qed.

Lemma enforcement_keeps {E} requests deadline :
  always keeps (resolve_batch_for_enforcement_until procfs instant daemon_process_id workers spawned lock requests deadline
                : ST Attributor E _).
Proof.
  apply always_bind; [apply _| |intros; apply strict_keeps]. apply locked_keeps. intros c _. apply empty_ok.
Qed.

Lemma learning_keeps {E} requests generation :
  always keeps (resolve_batch_for_learning procfs instant daemon_process_id workers spawned lock requests generation
                : ST Attributor E _).
Proof.
  apply always_bind; [apply _| |intros _].
  - apply locked_now_keeps. intros now c. apply prepare_learning_ok.
  - apply always_bind; [apply _|apply on_proc_keeps|intros; apply strict_keeps].
Qed.

Lemma candidates_keep requests deadline hints :
  always keeps (resolve_fast_candidates procfs instant daemon_process_id lock requests deadline hints).
Proof.
  apply always_bind; [apply _|apply on_proc_keeps|]. intros [ids [verified|]]; cbn [fst snd]; [|apply always_ret, _].
  apply always_bind; [apply _| |intros; apply always_ret, _]. apply locked_now_keeps. intros now c. apply touch_ok.
Qed.

Lemma strategy_keeps {E} requests deadline strategy generation :
  always keeps (resolve_batch_with_strategy_until procfs instant daemon_process_id workers spawned lock requests deadline
                  strategy generation : ST Attributor E _).
Proof.
  unfold resolve_batch_with_strategy_until. case_match; [apply enforcement_keeps|]. case_match; [apply enforcement_keeps|].
  assert (Hprepare : forall F, always keeps (when_locked lock (update_now instant (prepare generation)) : ST Attributor F bool)).
  { intros F. apply locked_now_keeps. intros now c. apply prepare_ok. }
  case_bool_decide; [apply always_bind; [apply _|apply Hprepare|intros; apply always_ret, _]|].
  apply always_bind; [apply _|apply Hprepare|]. intros locked. apply always_bind; [apply _|apply always_get, _|].
  intros s. cbn zeta. case_bool_decide; [apply strict_keeps|].
  apply always_bind; [apply _|apply always_attempt, candidates_keep|]. intros candidates.
  destruct (match candidates with Ok _ => _ | Err _ => _ end); [apply always_ret, _|].
  apply always_bind; [apply _|apply strict_keeps|]. intros results.
  apply always_bind; [apply _| |intros; apply always_ret, _]. apply locked_keeps. intros c. apply clear_after_ok.
Qed.

(** The cache of recent owners stays bounded.  Whatever is attributed, for
    enforcement with either strategy or for learning, whatever the clock and the
    processes do and whenever the lock is held by another resolver, the cache
    has at most [MAX_OWNER_HINTS] hints afterwards and each is filed under its
    own process, if that holds before and the other resolvers keep it. *)
Theorem owner_cache_stays_bounded {E} requests deadline strategy generation s :
  cache_ok (fast_owners s) ->
  cache_ok (fast_owners ((resolve_batch_with_strategy_until procfs instant daemon_process_id workers spawned lock
                            requests deadline strategy generation : ST Attributor E _) s).1)
  /\ cache_ok (fast_owners ((resolve_batch_for_learning procfs instant daemon_process_id workers spawned lock
                               requests generation : ST Attributor E _) s).1).
Proof. intros Hc. split; [by apply strategy_keeps|by apply learning_keeps]. Qed.
End Shared.

Section Strategy.
Context `{Target} (procfs : nat -> Procfs) (instant : nat -> Z) (daemon_process_id : option Z).
Context (workers : nat -> Z) (spawned : nat -> option (list bool)).
Context (lock : nat -> option (OwnerCache -> OwnerCache)).

(** Only time passes. *)
Definition waited (r r' : Resolver) : Prop :=
  exists k, r' = mkResolver (k + readings r) (sock_diag r) (kernel_sockets r).

#[local] Instance waited_preorder : PreOrder waited.
Proof.
  split; [intros []; by exists 0%nat|]. intros r1 r2 r3 [k ->] [k' ->]. exists (k' + k)%nat. cbn. by rewrite Nat.add_assoc.
Qed.

Lemma waited_tick r : waited r (tick r).
Proof. by exists 1%nat. Qed.

Lemma waited_time r r' : waited r r' -> (readings r <= readings r')%nat.
Proof. intros [k ->]. cbn. lia. Qed.

(** The resolver with which the strict lookup begins: the one of the batch, or
    the one that a search of these hints left. *)
Definition begins (hints : list ((Z * Z) * OwnerHint)) (requests : list Request) (deadline : Z) (r r0 : Resolver) : Prop :=
  waited r r0
  \/ exists r1, waited r r1
     /\ waited (fast_candidates procfs instant daemon_process_id requests deadline hints r1).1 r0.

(** Every identity among the results was found by the strict lookup, which began
    with the resolver [r0]. *)
Definition all_strict (r0 : Resolver) (n' : nat) (requests : list Request) (deadline : Z)
    (results : list IdentityCaptureResult) : Prop :=
  forall i identity, results !! i = Some (Ok identity) ->
  exists m key process_id tasks n1 n2 n3 n4, (m <= n')%nat
  /\ attributed procfs instant (foreign daemon_process_id) r0 m requests deadline i identity key process_id tasks n1 n2 n3 n4.

Lemma all_strict_within r0 n' m' requests deadline results :
  all_strict r0 m' requests deadline results -> (m' <= n')%nat -> all_strict r0 n' requests deadline results.
Proof.
  intros Hall Hm i identity Hres. destruct (Hall i identity Hres) as (m & key & p & ts & n1 & n2 & n3 & n4 & Hk & Ha).
  exists m, key, p, ts, n1, n2, n3, n4. split; [lia|done].
Qed.

Lemma locked_total {E} f s : exists s' b,
  (when_locked lock (update f) : ST Attributor E bool) s = (s', Ok b) /\ waited (proc_resolver s) (proc_resolver s').
Proof. rewrite locked_run. eexists _, _. split; [done|apply waited_tick]. Qed.

Lemma locked_now_total {E} f s : exists s' b,
  (when_locked lock (update_now instant f) : ST Attributor E bool) s = (s', Ok b)
  /\ waited (proc_resolver s) (proc_resolver s').
Proof.
  rewrite locked_now_run. destruct (lock (clock s)); eexists _, _; (split; [done|]); [|apply waited_tick].
  etrans; apply waited_tick.
Qed.

Lemma strict_until_total {E} requests deadline seeds s : exists s' results,
  (resolve_batch_strict_until procfs instant daemon_process_id workers spawned lock requests deadline seeds : ST Attributor E _) s
  = (s', Ok results) /\ length results = length requests
  /\ all_strict (proc_resolver s) (clock s') requests deadline results.
Proof.
  unfold resolve_batch_strict_until. case_bool_decide as He; [subst requests; by exists s, []|].
  case_match.
  { exists s. eexists. split; [done|]. split; [apply length_fmap|]. intros i identity Hres.
    rewrite list_lookup_fmap in Hres. by destruct (requests !! i). }
  destruct (strict_total procfs instant daemon_process_id workers spawned (E := E) requests deadline (proc_resolver s))
    as (r' & found & keys & results & Hrun & Hlen).
  assert (Hall : all_strict (proc_resolver s) (readings r') requests deadline results).
  { intros i identity Hres. destruct (lookup_lt_is_Some_2 requests i) as [[c q] Hreq].
    { rewrite <-Hlen. by eapply lookup_lt_Some. }
    destruct (strict_sound procfs instant daemon_process_id workers spawned _ _ _ _ _ _ _ _ _ _ _ Hrun Hreq Hres)
      as (key & p & ts & n1 & n2 & n3 & n4 & Ha).
    by exists (readings r'), key, p, ts, n1, n2, n3, n4. }
  rewrite run_bind, (on_proc_run _ _ _ _ Hrun). destruct found as [before|]; [|by exists (mkAttributor r' (fast_owners s)), results].
  destruct seeds; [|by exists (mkAttributor r' (fast_owners s)), results].
  destruct (locked_now_total (E := E) (seed before keys results) (mkAttributor r' (fast_owners s))) as (s' & b & Hl & T').
  rewrite run_bind, Hl. apply waited_time in T'.
  exists s', results. split_and!; [done|done|]. by eapply all_strict_within.
Qed.

Lemma enforcement_total {E} requests deadline s : exists s' results r0,
  (resolve_batch_for_enforcement_until procfs instant daemon_process_id workers spawned lock requests deadline : ST Attributor E _) s
  = (s', Ok results) /\ length results = length requests
  /\ waited (proc_resolver s) r0 /\ all_strict r0 (clock s') requests deadline results.
Proof.
  unfold resolve_batch_for_enforcement_until. destruct (locked_total (E := E) clear s) as (s1 & b & Hl & T1).
  rewrite run_bind, Hl. destruct (strict_until_total (E := E) requests deadline false s1) as (s2 & results & -> & Hlen & Hall).
  by exists s2, results, (proc_resolver s1).
Qed.

(** *** The strategy *)

Lemma found_fast_within hints r n' m' requests deadline i identity :
  found_fast procfs instant hints r m' requests deadline i identity -> (m' <= n')%nat ->
  found_fast procfs instant hints r n' requests deadline i identity.
Proof.
  intros (gs & key & p & ts & n1 & n2 & n3 & n4 & n5 & H5 & Ha & Hh1 & Hh2 & Hf) Hm.
  exists gs, key, p, ts, n1, n2, n3, n4, n5. split_and!; [lia|done|done|eapply hinted_within; [exact Hh2|lia|lia]|].
  intros k h Hin Hk. destruct (Hf k h Hin Hk) as [Hf1 Hf2]. split; [done|]. by eapply followed_within.
Qed.

Lemma candidates_length requests deadline hints r r' identities verified :
  fast_candidates procfs instant daemon_process_id requests deadline hints r = (r', Ok (identities, verified)) ->
  length identities = length requests.
Proof.
  unfold fast_candidates. intros Hrun.
  destruct (socket_keys_total procfs instant (E := OwnerError) deadline requests r) as (r1 & resolved & Hkeys & Hlen).
  rewrite run_bind, Hkeys in Hrun. cbn zeta in Hrun.
  case_bool_decide; [injection Hrun as _ <- _; apply length_replicate|].
  step Hrun groups r2 H2. step Hrun before r3 H3. step Hrun captures r4 H4. step Hrun fd_hints r5 H5.
  step Hrun after_groups r6 H6. passes Hrun Hg1. step Hrun after r7 H7. step Hrun last_groups r8 H8. passes Hrun Hg2.
  step Hrun z r9 H9. injection Hrun as _ <- _. unfold reject_inconsistent_batch_identities, batch_keys, batch_errors.
  cbn zeta. rewrite length_fmap, !length_zip_with, !length_fmap. lia.
Qed.

Lemma fast_resolved requests deadline hints s s' result :
  resolve_fast_candidates procfs instant daemon_process_id lock requests deadline hints s = (s', result) ->
  waited (fast_candidates procfs instant daemon_process_id requests deadline hints (proc_resolver s)).1 (proc_resolver s')
  /\ forall identities, result = Ok identities ->
     length identities = length requests
     /\ forall i identity, identities !! i = Some (Some identity) ->
        found_fast procfs instant hints (proc_resolver s) (clock s') requests deadline i identity.
Proof.
  unfold resolve_fast_candidates. rewrite run_bind. unfold on_proc.
  destruct (fast_candidates _ _ _ _ _ _ _) as [r1 [[ids verified]|e]] eqn:E1; cbn [fst snd].
  2: { intros [= <- <-]. split; [reflexivity|done]. }
  intros Hrun. assert (waited r1 (proc_resolver s') /\ result = Ok ids) as [Hw ->].
  { destruct verified as [verified|]; [|injection Hrun as <- <-; by split; [reflexivity|]].
    destruct (locked_now_total (E := OwnerError) (touch verified) (mkAttributor r1 (fast_owners s))) as (s3 & b' & Hl & T).
    rewrite run_bind, Hl in Hrun. by injection Hrun as <- <-. }
  split; [done|]. intros identities [= <-]. split; [by eapply candidates_length|]. intros i identity Hi.
  destruct (lookup_lt_is_Some_2 requests i) as [[c q] Hreq].
  { rewrite <-(candidates_length _ _ _ _ _ _ _ E1). by eapply lookup_lt_Some. }
  eapply found_fast_within; [by eapply candidates_found|by apply waited_time].
Qed.

(** Every connection has an identity from the search. *)
Definition all_fast (hints : list ((Z * Z) * OwnerHint)) (r0 : Resolver) (n' : nat) (requests : list Request)
    (deadline : Z) (results : list IdentityCaptureResult) : Prop :=
  forall i connection requirements, requests !! i = Some (connection, requirements) ->
  exists identity, results !! i = Some (Ok identity)
  /\ found_fast procfs instant hints r0 n' requests deadline i identity.

(** The search, and the strict lookup when it is not complete. *)
Lemma search_total {E} requests deadline hints s : exists s' results,
  (candidates ← attempt (resolve_fast_candidates procfs instant daemon_process_id lock requests deadline hints);
   match (match candidates with Ok identities => mapM id identities | Err _ => None end) with
   | Some identities => mret (Ok <$> identities)
   | None =>
       results ← resolve_batch_strict_until procfs instant daemon_process_id workers spawned lock requests deadline true;
       when_locked lock (update (clear_after_detected_ambiguity results)) ;;
       mret results
   end : ST Attributor E _) s = (s', Ok results)
  /\ length results = length requests
  /\ ((exists r0, begins hints requests deadline (proc_resolver s) r0 /\ all_strict r0 (clock s') requests deadline results)
      \/ all_fast hints (proc_resolver s) (clock s') requests deadline results).
Proof.
  rewrite run_attempt.
  destruct (resolve_fast_candidates _ _ _ _ _ _ _ s) as [s1 candidates] eqn:E1. cbn [fst snd] in *.
  apply fast_resolved in E1 as [Hw Hfast].
  destruct (match candidates with Ok _ => _ | Err _ => _ end) as [ids|] eqn:Em.
  - destruct candidates as [identities|]; [|done]. destruct (Hfast _ eq_refl) as [Hlen Hfound].
    apply mapM_Some in Em as Hall. exists s1, (Ok <$> ids). split_and!; [done| |].
    { rewrite length_fmap, <-Hlen. symmetry. by eapply Forall2_length. }
    right. intros i c q Hreq.
    destruct (lookup_lt_is_Some_2 identities i) as [o Ho]; [rewrite Hlen; by eapply lookup_lt_Some|].
    eapply Forall2_lookup_l in Hall as (identity & Hid & Heq); [|exact Ho]. cbn in Heq. subst o.
    exists identity. rewrite list_lookup_fmap, Hid. split; [done|]. by apply Hfound.
  - destruct (strict_until_total (E := E) requests deadline true s1) as (s2 & results & Hrun & Hlen & Hall).
    rewrite run_bind, Hrun. destruct (locked_total (E := E) (clear_after_detected_ambiguity results) s2) as (s3 & b & Hl & T3).
    rewrite run_bind, Hl. exists s3, results. split_and!; [done|done|]. left. exists (proc_resolver s1). split.
    + right. exists (proc_resolver s). by split; [reflexivity|].
    + eapply all_strict_within; [exact Hall|by apply waited_time].
Qed.

(** C16: the fast strategy does not mix what it finds with guesses.  The
    attribution of a batch gives every connection a result.  Either every
    application among the results was found by the strict lookup, or the
    strategy is Fast and every connection has an application, found by the
    search of the hints that the cache kept for this generation.  The search
    looked up the socket and followed every hint for the user of the socket,
    before its first scan and after its second: the tasks of the hint's process
    were scanned, as they were listed, unless the hint was too old, its task
    could not be read or had another start time or user, the process could not
    be listed, or the hinted processes had more tasks than the bound.  The
    owners of the socket among these tasks were the same before and after the
    capture, the process that was found is that of a hint that held before and
    after, and no other of these tasks that has the socket belongs to another
    process or application. *)
Theorem fast_attribution_never_mixes {E} requests deadline strategy generation s :
  let hints others := ordered_entries (cache_entries
    (prepare generation (instant (S (clock s))) (others (fast_owners s)))) in
  exists s' results,
    (resolve_batch_with_strategy_until procfs instant daemon_process_id workers spawned lock requests deadline strategy
       generation : ST Attributor E _) s = (s', Ok results)
    /\ length results = length requests
    /\ ((exists r0, all_strict r0 (clock s') requests deadline results
           /\ (waited (proc_resolver s) r0
               \/ strategy = Fast /\ exists others, lock (clock s) = Some others
                  /\ begins (hints others) requests deadline (proc_resolver s) r0))
        \/ strategy = Fast /\ exists others r0, lock (clock s) = Some others /\ waited (proc_resolver s) r0
           /\ all_fast (hints others) r0 (clock s') requests deadline results).
Proof.
  intros hints. unfold resolve_batch_with_strategy_until.
  assert (Hstrict : exists s' results,
    (resolve_batch_for_enforcement_until procfs instant daemon_process_id workers spawned lock requests deadline
       : ST Attributor E _) s = (s', Ok results) /\ length results = length requests
    /\ exists r0, all_strict r0 (clock s') requests deadline results /\ waited (proc_resolver s) r0).
  { destruct (enforcement_total (E := E) requests deadline s) as (s' & results & r0 & ? & ? & ? & ?).
    exists s', results. eauto. }
  destruct strategy; cbn [is_strict].
  { destruct Hstrict as (s' & results & ? & ? & r0 & ? & ?). exists s', results. eauto 8. }
  case_match.
  { destruct Hstrict as (s' & results & ? & ? & r0 & ? & ?). exists s', results. eauto 8. }
  clear Hstrict. case_bool_decide as Hempty.
  { subst requests. destruct (locked_now_total (E := E) (prepare generation) s) as (s' & b & Hl & _).
    rewrite run_bind, Hl. exists s', []. split_and!; [done|done|]. left. exists (proc_resolver s).
    split; [by intros i identity|left; reflexivity]. }
  rewrite run_bind, locked_now_run. destruct (lock (clock s)) as [others|] eqn:El; rewrite run_get; cbn zeta.
  - set (s1 := mkAttributor _ _). assert (Hw : waited (proc_resolver s) (proc_resolver s1)) by (etrans; apply waited_tick).
    cbn [fast_owners s1]. case_bool_decide.
    + destruct (strict_until_total (E := E) requests deadline true s1) as (s2 & results & -> & Hlen & Hall).
      exists s2, results. split_and!; [done|done|]. left. exists (proc_resolver s1). auto.
    + destruct (search_total (E := E) requests deadline (hints others) s1) as (s2 & results & Hrun & Hlen & Hcase).
      unfold hints in Hrun at 1. rewrite Hrun.
      exists s2, results. split_and!; [done|done|]. destruct Hcase as [(r0 & Hb & Hall)|Hfast].
      * left. exists r0. split; [done|right]. split; [done|]. exists others. split; [done|].
        destruct Hb as [Hb|(r1 & Hb & Hb')]; [left; by etrans|right]. exists r1. split; [by etrans|done].
      * right. split; [done|]. by exists others, (proc_resolver s1).
  - rewrite bool_decide_eq_true_2 by done. set (s1 := mkAttributor _ _).
    destruct (strict_until_total (E := E) requests deadline true s1) as (s2 & results & -> & Hlen & Hall).
    exists s2, results. split_and!; [done|done|]. left. exists (proc_resolver s1). split; [done|]. left. apply waited_tick.
Qed.
End Strategy.

(** ** Witnesses *)

Definition sample_cache : OwnerCache :=
  mkCache (Some 7) true {[ (1000, 300) := mkHint 300 301 8642 0; (1000, 9) := mkHint 9 9 1 0 ]}.
Definition sample_attributor : Attributor := mkAttributor sample_resolver sample_cache.
Definition sample_requests : list Request := [(sample_connection, IdentityCaptureRequirements_full)].
Definition sample_fast_run : Attributor * Result OwnerError (list IdentityCaptureResult) :=
  resolve_batch_with_strategy_until (H := x86_64) (fun _ => sample_procfs) (fun _ => 0) (Some 20) (fun _ => 2)
    (fun _ => Some []) (fun _ => Some (fun c => c)) sample_requests 5 Fast 8 sample_attributor.

Lemma owner_cache_stays_bounded_witness :
  size (cache_entries (fast_owners sample_fast_run.1)) = 2%nat /\ cache_ok (fast_owners sample_fast_run.1).
Proof.
  split; [vm_compute; reflexivity|].
  destruct (owner_cache_stays_bounded (H := x86_64) (fun _ => sample_procfs) (fun _ => 0) (Some 20) (fun _ => 2)
    (fun _ => Some []) (fun _ => Some (fun c => c)) ltac:(by intros n others c [= <-]) (E := OwnerError) sample_requests 5 Fast 8
    sample_attributor) as [Hc _]; [|exact Hc].
  split; [vm_compute; discriminate|]. cbn [sample_attributor fast_owners sample_cache cache_entries].
  intros key hint [[<- <-]|[_ Hh]]%lookup_insert_Some; [done|]. by apply lookup_singleton_Some in Hh as [<- <-].
Defined.

Lemma fast_attribution_never_mixes_witness :
  sample_fast_run.2 = Ok [Ok sample_identity]
  /\ exists s' results, sample_fast_run = (s', Ok results) /\ length results = length sample_requests.
Proof.
  split; [vm_compute; reflexivity|].
  destruct (fast_attribution_never_mixes (H := x86_64) (fun _ => sample_procfs) (fun _ => 0) (Some 20) (fun _ => 2)
    (fun _ => Some []) (fun _ => Some (fun c => c)) (E := OwnerError) sample_requests 5 Fast 8 sample_attributor)
    as (s' & results & Hrun & Hlen & _).
  exists s', results. unfold sample_fast_run. split; [exact Hrun|exact Hlen].
Defined.
