(* ===== verification/Storage.v ===== *)
(** * The state file

    [crates/openshield-core/src/storage.rs]: the trait of state stores and the
    store that replaces a file atomically.

    The calls into [std::fs] are the class [FileSystem]; nothing is assumed about
    it where a theorem is meant to hold whatever other processes do between two
    calls.  [Disk] is the model of [std::fs] without such interference: names and
    nodes apart, as file systems keep them, so that an open file is not a name,
    and a script of faults that lets any call fail. *)

From S2P Require Import Prelude Text Net Application Model State Netlink Protocol.
Local Open Scope Z_scope.

(** ** Paths, as [std::path] sees them *)

Inductive PathComponent : Type := RootDir | CurDir | ParentDir | Normal (name : ustring).
#[export] Instance PathComponent_eq_dec : EqDecision PathComponent.
Proof. solve_decision. Defined.
#[export] Instance PathComponent_countable : Countable PathComponent.
Proof.
  refine (inj_countable'
    (fun c => match c with RootDir => inl 0 | CurDir => inl 1 | ParentDir => inl 2 | Normal n => inr n end)
    (fun s => match s with inl z => if z =? 0 then RootDir else if z =? 1 then CurDir else ParentDir
                      | inr n => Normal n end) _); intros []; done.
Defined.

Definition Path : Type := list PathComponent.

Definition Path_parent (path : Path) : option Path :=
  match last path with
  | Some (Normal _ | CurDir | ParentDir) => Some (removelast path)
  | _ => None
  end.
Definition Path_file_name (path : Path) : option ustring :=
  match last path with Some (Normal name) => Some name | _ => None end.
Definition Path_with_file_name (path : Path) (name : ustring) : Path :=
  (if is_some (Path_file_name path) then removelast path else path) ++ [Normal name].

(** ** Files *)

Inductive FileType : Type := RegularFile | DirectoryFile | SymlinkFile | OtherFile.
#[export] Instance FileType_eq_dec : EqDecision FileType.
Proof. solve_decision. Defined.

Record Stat : Type := mkStat { st_type : FileType; st_uid : Z; st_mode : Z }.

(** [io::ErrorKind::NotFound]. *)
Definition ENOENT : IoError := OtherIo 2.
#[export] Instance IoError_eq_dec : EqDecision IoError.
Proof. solve_decision. Defined.

Class FileSystem (F : Type) : Type := {
  Handle : Type;
  symlink_metadata : Path -> ST F IoError Stat;
  open_nofollow : Path -> ST F IoError Handle;
  open_follow : Path -> ST F IoError Handle;
  create_new : Path -> Z -> ST F IoError Handle;
  file_metadata : Handle -> ST F IoError Stat;
  read_to_end : Handle -> Z -> ST F IoError Bytes;
  write_all : Handle -> Bytes -> ST F IoError unit;
  sync_all : Handle -> ST F IoError unit;
  rename : Path -> Path -> ST F IoError unit;
  remove_file : Path -> ST F IoError unit;
  new_v4 : F -> F * Uuid
}.

(** ** The store *)

Abbreviation STATE_FILE_MODE := 384 (only parsing).

Inductive StorageError : Type :=
| StorageIo (operation : ustring) (path : Path) (source : IoError)
| MissingParent (path : Path)
| MissingFileName (path : Path)
| UnsafeFileType (path : Path)
| WrongOwner (path : Path) (expected actual : Z)
| InsecureDirectoryMode (path : Path) (mode : Z)
| InsecureFileMode (path : Path) (mode : Z)
| StateTooLarge (bytes : Z)
| InvalidJson (error : ustring)
| StorageInvalidState (error : CoreError)
(** Not an error of the source: the call waits on a condition that nobody will
    signal.  [no_exclusive_writer_is_stuck] shows that this does not happen. *)
| WaitsForever.

Class StateStore (D : Type) : Type := {
  store_load : ST D StorageError (option State);
  store_save : State -> ST D StorageError unit
}.

(** The provided method of the trait. *)
Definition load_or_fail_closed `{StateStore D} : ST D StorageError State :=
  loaded ← store_load;
  mret (default State_new loaded).

Record AtomicStateStore : Type := mkAtomicStateStore { store_path : Path; required_owner : Z }.

Definition AtomicStateStore_root_owned (path : Path) : AtomicStateStore := mkAtomicStateStore path 0.

Definition validate_owner (path : Path) (metadata : Stat) (required_owner : Z)
    : Result StorageError unit :=
  fail_if (negb (metadata.(st_uid) =? required_owner))
    (WrongOwner path required_owner metadata.(st_uid)).

(** [serde_json::to_vec]. *)
Definition json_to_vec `{JsonCodec T} (value : T) : Result ustring Bytes :=
  let '(chunks, failure) := json_writes value in
  match failure with Some error => Err error | None => Ok (concat chunks) end.

Section Store.
Context {F : Type} `{FileSystem F} `{JsonLib} `{!JsonCodec State}.
Variable self : AtomicStateStore.

(** [.map_err(|source| StorageError::io(operation, path, source))]. *)
Definition storage_io {A} (operation : ustring) (path : Path) (m : ST F IoError A)
    : ST F StorageError A := fun f =>
  let '(f', r) := m f in (f', map_err (StorageIo operation path) r).

Definition validate_parent : ST F StorageError Path :=
  let path := self.(store_path) in
  parent ← lift (ok_or (MissingParent path)
             (option_filter (fun parent => parent !=? []) (Path_parent path)));
  metadata ← storage_io (lit "inspect state directory") parent (symlink_metadata parent);
  lift (ensure (metadata.(st_type) ==? DirectoryFile) (UnsafeFileType parent)) ;;
  lift (validate_owner parent metadata self.(required_owner)) ;;
  let mode := Z.land metadata.(st_mode) 511 in
  lift (fail_if (negb (Z.land mode 18 =? 0)) (InsecureDirectoryMode parent mode)) ;;
  mret parent.

(** The checks that a state file passes by name and again when it is open. *)
Definition validate_mode (path : Path) (metadata : Stat) : Result StorageError unit :=
  let mode := Z.land metadata.(st_mode) 511 in
  fail_if (negb (mode =? STATE_FILE_MODE)) (InsecureFileMode path mode).

Definition validate_existing_file : ST F StorageError (option Stat) :=
  let path := self.(store_path) in
  inspected ← attempt (symlink_metadata path);
  match inspected with
  | Ok metadata =>
      lift (ensure (metadata.(st_type) ==? RegularFile) (UnsafeFileType path)) ;;
      lift (validate_owner path metadata self.(required_owner)) ;;
      lift (validate_mode path metadata) ;;
      mret (Some metadata)
  | Err error =>
      if error ==? ENOENT then mret None
      else lift (Err (StorageIo (lit "inspect state file") path error))
  end.

Definition fresh_uuid : ST F StorageError Uuid := fun f => let '(f', uuid) := new_v4 f in (f', Ok uuid).

Definition temporary_path : ST F StorageError Path :=
  let path := self.(store_path) in
  file_name ← lift (ok_or (MissingFileName path) (Path_file_name path));
  uuid ← fresh_uuid;
  mret (Path_with_file_name path (file_name ++ lit "." ++ uuid_to_string uuid ++ lit ".tmp")).

Definition AtomicStateStore_load : ST F StorageError (option State) :=
  let path := self.(store_path) in
  validate_parent ;;
  existing ← validate_existing_file;
  match existing with
  | None => mret None
  | Some _ =>
      file ← storage_io (lit "open state file") path (open_nofollow path);
      metadata ← storage_io (lit "inspect open state file") path (file_metadata file);
      lift (ensure (metadata.(st_type) ==? RegularFile) (UnsafeFileType path)) ;;
      lift (validate_owner path metadata self.(required_owner)) ;;
      lift (validate_mode path metadata) ;;
      bytes ← storage_io (lit "read state file") path (read_to_end file (MAX_STATE_BYTES + 1));
      lift (fail_if (MAX_STATE_BYTES <? zlen bytes) (StateTooLarge (zlen bytes))) ;;
      state ← lift (map_err InvalidJson (json_from_slice bytes));
      lift (map_err StorageInvalidState (State_validate state)) ;;
      mret (Some state)
  end.

(** The closure of [save] once the temporary file has been created. *)
Definition replace_state_file (temporary : Handle) (temporary_path parent : Path) (bytes : Bytes)
    : ST F StorageError unit :=
  metadata ← storage_io (lit "inspect temporary state file") temporary_path
    (file_metadata temporary);
  lift (validate_owner temporary_path metadata self.(required_owner)) ;;
  lift (validate_mode temporary_path metadata) ;;
  storage_io (lit "write temporary state file") temporary_path (write_all temporary bytes) ;;
  storage_io (lit "sync temporary state file") temporary_path (sync_all temporary) ;;
  storage_io (lit "replace state file") self.(store_path)
    (rename temporary_path self.(store_path)) ;;
  storage_io (lit "sync state directory") parent
    (directory ← open_follow parent; sync_all directory).

Definition AtomicStateStore_save (state : State) : ST F StorageError unit :=
  lift (map_err StorageInvalidState (State_validate state)) ;;
  parent ← validate_parent;
  validate_existing_file ;;
  bytes ← lift (map_err InvalidJson (json_to_vec state));
  lift (fail_if (MAX_STATE_BYTES <? zlen bytes) (StateTooLarge (zlen bytes))) ;;
  temporary_path ← temporary_path;
  temporary ← storage_io (lit "create temporary state file") temporary_path
    (create_new temporary_path STATE_FILE_MODE);
  result ← attempt (replace_state_file temporary temporary_path parent bytes);
  (if is_ok result then mret tt
   else attempt (remove_file temporary_path) ≫= fun _ => mret tt) ;;
  lift result.

Definition AtomicStateStore_ops : StateStore F := {|
  store_load := AtomicStateStore_load;
  store_save := AtomicStateStore_save
|}.

(** ** What is read is what was checked *)

Lemma storage_io_Ok {A} operation path (m : ST F IoError A) f f' a :
  storage_io operation path m f = (f', Ok a) <-> m f = (f', Ok a).
Proof. unfold storage_io. destruct (m f) as [f1 []]; cbn [map_err]; naive_solver. Qed.

Lemma validate_owner_Ok path metadata owner :
  validate_owner path metadata owner = Ok tt <-> st_uid metadata = owner.
Proof. unfold validate_owner. rewrite fail_if_Ok, negb_false_iff. apply Z.eqb_eq. Qed.

Lemma validate_mode_Ok path metadata :
  validate_mode path metadata = Ok tt <-> Z.land (st_mode metadata) 511 = STATE_FILE_MODE.
Proof. unfold validate_mode. rewrite fail_if_Ok, negb_false_iff. apply Z.eqb_eq. Qed.

(** A file that belongs to the required owner, who alone may read and write it. *)
Definition private_file (metadata : Stat) : Prop :=
  st_uid metadata = self.(required_owner) /\ Z.land (st_mode metadata) 511 = STATE_FILE_MODE.

Lemma attempt_Ok {E E' A} (m : ST F E A) f f' (r : Result E A) :
  (attempt m : ST F E' _) f = (f', Ok r) <-> m f = (f', r).
Proof. unfold attempt. destruct (m f). naive_solver. Qed.

Lemma replace_state_file_Ok temporary temporary_path parent bytes f f' :
  replace_state_file temporary temporary_path parent bytes f = (f', Ok tt) ->
  exists f1 f2 f3 f4 metadata,
    file_metadata temporary f = (f1, Ok metadata) /\ private_file metadata
    /\ write_all temporary bytes f1 = (f2, Ok tt)
    /\ sync_all temporary f2 = (f3, Ok tt)
    /\ rename temporary_path self.(store_path) f3 = (f4, Ok tt).
Proof.
  unfold replace_state_file. intros (metadata & f1 & Hstat%storage_io_Ok & Hrun)%run_bind_Ok.
  apply run_seq_Ok in Hrun as [Howner%validate_owner_Ok Hrun].
  apply run_seq_Ok in Hrun as [Hmode%validate_mode_Ok Hrun].
  apply run_bind_Ok in Hrun as ([] & f2 & Hwrite%storage_io_Ok & Hrun).
  apply run_bind_Ok in Hrun as ([] & f3 & Hsync%storage_io_Ok & Hrun).
  apply run_bind_Ok in Hrun as ([] & f4 & Hrename%storage_io_Ok & _).
  exists f1, f2, f3, f4, metadata. by repeat split.
Qed.

Lemma temporary_path_Ok f f' path :
  temporary_path f = (f', Ok path) ->
  exists name uuid,
    Path_file_name self.(store_path) = Some name /\ new_v4 f = (f', uuid)
    /\ path = removelast self.(store_path)
             ++ [Normal (name ++ lit "." ++ uuid_to_string uuid ++ lit ".tmp")].
Proof.
  unfold temporary_path. intros (name & Hname%ok_or_Ok & Hrun)%run_lift_Ok.
  apply run_bind_Ok in Hrun as (uuid & f1 & Hnew & Hrun). apply run_ret in Hrun as [-> ->].
  unfold fresh_uuid in Hnew. destruct (new_v4 f) as [f2 u] eqn:Hv. injection Hnew as -> ->.
  exists name, uuid. split_and!; try done. unfold Path_with_file_name. by rewrite Hname.
Qed.

Lemma temporary_path_new f f' path : temporary_path f = (f', Ok path) -> path <> self.(store_path).
Proof.
  intros (name & uuid & Hname & _ & ->)%temporary_path_Ok E. revert Hname. unfold Path_file_name.
  rewrite <-E, last_snoc. intros [= E'].
  apply (f_equal length) in E'. rewrite !length_app in E'. cbn [length] in E'. change (length (lit ".tmp")) with 4%nat in E'. lia.
Qed.

(** The calls of a load that reports no error. *)
Lemma load_Ok f f' o :
  AtomicStateStore_load f = (f', Ok o) ->
  exists f1 parent, validate_parent f = (f1, Ok parent)
  /\ ((o = None /\ validate_existing_file f1 = (f', Ok None))
      \/ exists f2 f3 f4 found file metadata bytes s,
           validate_existing_file f1 = (f2, Ok (Some found))
           /\ open_nofollow self.(store_path) f2 = (f3, Ok file)
           /\ file_metadata file f3 = (f4, Ok metadata)
           /\ st_type metadata = RegularFile /\ private_file metadata
           /\ read_to_end file (MAX_STATE_BYTES + 1) f4 = (f', Ok bytes)
           /\ zlen bytes <= MAX_STATE_BYTES
           /\ json_from_slice bytes = Ok s /\ State_validate s = Ok tt /\ o = Some s).
Proof.
  unfold AtomicStateStore_load. intros (parent & f1 & Hparent & Hrun)%run_bind_Ok.
  exists f1, parent. split; [done|].
  apply run_bind_Ok in Hrun as ([found|] & f2 & Hfound & Hrun); [right|left; by apply run_ret in Hrun as [-> ->]].
  apply run_bind_Ok in Hrun as (file & f3 & Hopen%storage_io_Ok & Hrun).
  apply run_bind_Ok in Hrun as (metadata & f4 & Hstat%storage_io_Ok & Hrun).
  apply run_seq_Ok in Hrun as [Htype Hrun]. apply run_seq_Ok in Hrun as [Howner%validate_owner_Ok Hrun].
  apply run_seq_Ok in Hrun as [Hmode%validate_mode_Ok Hrun].
  apply run_bind_Ok in Hrun as (bytes & f5 & Hread%storage_io_Ok & Hrun).
  apply run_seq_Ok in Hrun as [Hsize Hrun]. apply run_lift_Ok in Hrun as (state & Hjson & Hrun).
  apply run_seq_Ok in Hrun as [Hvalid Hrun]. apply run_ret in Hrun as [-> ->].
  apply ensure_Ok in Htype. rewrite eqb_true in Htype. apply map_err_Ok in Hjson, Hvalid.
  apply fail_if_Ok, Z.ltb_ge in Hsize.
  exists f2, f3, f4, found, file, metadata, bytes, state. by repeat split.
Qed.

(** Whatever happens to the file system between two calls, a state that
    [load] returns was read, through one open descriptor and without following
    a symbolic link, from a regular file whose owner and mode were checked on
    that descriptor; it is at most [MAX_STATE_BYTES] long and validated. *)
Theorem loads_what_it_checked f f' s :
  AtomicStateStore_load f = (f', Ok (Some s)) ->
  exists f1 f2 f3 file metadata bytes,
    open_nofollow self.(store_path) f1 = (f2, Ok file)
    /\ file_metadata file f2 = (f3, Ok metadata)
    /\ st_type metadata = RegularFile /\ private_file metadata
    /\ read_to_end file (MAX_STATE_BYTES + 1) f3 = (f', Ok bytes)
    /\ zlen bytes <= MAX_STATE_BYTES
    /\ json_from_slice bytes = Ok s /\ State_validate s = Ok tt.
Proof.
  intros (f1 & parent & _ & [[[=] _]|Hread])%load_Ok.
  destruct Hread as (f2 & f3 & f4 & found & file & metadata & bytes & s' & _ & Hread). naive_solver.
Qed.

(** Whatever happens to the file system between two calls, a save that
    reports success has written the state, completely and flushed to disk, into
    a private file that it created itself under a new name, and renamed that
    file to the state file as its last change. *)
Theorem saves_through_a_private_file s f f' :
  AtomicStateStore_save s f = (f', Ok tt) ->
  exists f1 f2 f3 f4 f5 f6 temporary_path temporary metadata bytes,
    temporary_path <> self.(store_path)
    /\ create_new temporary_path STATE_FILE_MODE f1 = (f2, Ok temporary)
    /\ file_metadata temporary f2 = (f3, Ok metadata) /\ private_file metadata
    /\ json_to_vec s = Ok bytes /\ zlen bytes <= MAX_STATE_BYTES /\ State_validate s = Ok tt
    /\ write_all temporary bytes f3 = (f4, Ok tt)
    /\ sync_all temporary f4 = (f5, Ok tt)
    /\ rename temporary_path self.(store_path) f5 = (f6, Ok tt).
Proof.
  unfold AtomicStateStore_save. intros [Hvalid Hrun]%run_seq_Ok.
  apply run_bind_Ok in Hrun as (parent & f1 & _ & Hrun).
  apply run_bind_Ok in Hrun as (existing & f2 & _ & Hrun).
  apply run_lift_Ok in Hrun as (bytes & Hjson & Hrun). apply run_seq_Ok in Hrun as [Hsize Hrun].
  apply run_bind_Ok in Hrun as (path & f3 & Hpath%temporary_path_new & Hrun).
  apply run_bind_Ok in Hrun as (temporary & f4 & Hcreate%storage_io_Ok & Hrun).
  apply run_bind_Ok in Hrun as (result & f5 & Hreplace & Hrun). rewrite attempt_Ok in Hreplace.
  apply run_bind_Ok in Hrun as ([] & f6 & _ & Hrun). injection Hrun as -> ->.
  apply replace_state_file_Ok in Hreplace as (g1 & g2 & g3 & g4 & metadata & ? & ? & ? & ? & ?).
  apply map_err_Ok in Hvalid, Hjson. apply fail_if_Ok, Z.ltb_ge in Hsize.
  exists f3, f4, g1, g2, g3, g4, path, temporary, metadata, bytes. by split_and!.
Qed.
End Store.
