(* ===== verification/Engine.v ===== *)
(** * The policy engine

    [crates/openshield-daemon/src/engine.rs], lines 267 to 1973.  The engine owns
    the policy state, the firewall backend and the state file, and keeps the
    three together: it commits privileged changes, learns while the state file
    is written by another thread, and falls back to blocking everything when
    an outcome is unknown.

    [FirewallBackend] is the source's trait, an interface whose implementations
    talk to the kernel; [StateStore] is the trait of the state file.  Mutexes become
    the order of operations; the condition variable on which an exclusive writer
    waits is modelled by letting the learning thread ([worker]) finish first.
    Log output is left out. *)

From S2P Require Import Prelude Text Net Application Model State StateLearning Decision Protocol.
From S2P Require Import Bus Pinning Storage.
Local Open Scope Z_scope.

Abbreviation MAX_LEARNED_RULES_PER_POLL := 256 (only parsing).

#[export] Instance State_eq_dec : EqDecision State.
Proof. solve_decision. Defined.

(** ** Interfaces *)

(** [anyhow::Error] of a backend, by its text. *)
Definition BackendError : Type := ustring.

Class FirewallBackend (B : Type) : Type := {
  backend_kind : B -> FirewallBackendKind;
  backend_apply : Snapshot -> ST B BackendError unit;
  backend_fail_closed : ST B BackendError unit
}.

(** ** Data *)

Inductive StartupPolicy : Type := Pending | Active.

Inductive LearningPersistence : Type :=
| LearningActive
| InFlight (token : Z)
| LearningPaused.

#[export] Instance StartupPolicy_eq_dec : EqDecision StartupPolicy.
Proof. solve_decision. Defined.
#[export] Instance LearningPersistence_eq_dec : EqDecision LearningPersistence.
Proof. solve_decision. Defined.

Inductive LearningQueueAdmission : Type :=
| Enqueue | QueueAlreadyKnown | QueueSaturated | PersistencePaused.

Inductive PersistedStateAfterFailure : Type := PreviousState | CandidateOrUnknown.

#[export] Instance PersistedStateAfterFailure_eq_dec : EqDecision PersistedStateAfterFailure.
Proof. solve_decision. Defined.

Inductive LearningStoreOutcome : Type := Saved | PreviousRetained | Unsafe.

(** The reservation is its token. *)
Record ApplicationLearningTransaction : Type := mkTransaction {
  tx_token : Z;
  tx_previous : State;
  tx_candidate : State;
  tx_events : list Event
}.

(** The learning thread between taking a transaction and finalizing it: the
    outcome once the transaction was persisted, and whether the thread exits
    without persisting it. *)
Record Worker : Type := mkWorker {
  worker_transaction : ApplicationLearningTransaction;
  worker_outcome : option LearningStoreOutcome;
  worker_exits : bool
}.

(** ** Persisting state *)

Section Coordinator.
Context {D : Type} `{StateStore D}.

Record PersistenceCoordinator : Type := mkCoordinator {
  store : D;
  learning_reservation : option Z;
  coordinator_poisoned : bool;
  worker : option Worker
}.

Definition set_store (v : D) (c : PersistenceCoordinator) : PersistenceCoordinator :=
  mkCoordinator v c.(learning_reservation) c.(coordinator_poisoned) c.(worker).
Definition set_reservation (v : option Z) (c : PersistenceCoordinator)
    : PersistenceCoordinator :=
  mkCoordinator c.(store) v c.(coordinator_poisoned) c.(worker).
Definition set_worker (v : option Worker) (c : PersistenceCoordinator) : PersistenceCoordinator :=
  mkCoordinator c.(store) c.(learning_reservation) c.(coordinator_poisoned) v.

Definition Coordinator_new (store : D) : PersistenceCoordinator :=
  mkCoordinator store None false None.

Definition coordinator_error : StorageError :=
  InvalidJson (lit "state persistence coordinator is poisoned").

(** A call on the store, its result as a value. *)
Definition on_store {E A} (m : ST D StorageError A)
    : ST PersistenceCoordinator E (Result StorageError A) := fun c =>
  let '(d, r) := m c.(store) in (set_store d c, Ok r).

Definition persisted_state_after_failed_save_result (persisted : option State)
    (previous candidate : State) : PersistedStateAfterFailure :=
  match persisted with
  | Some persisted =>
      if persisted ==? previous then PreviousState
      else if persisted ==? candidate then CandidateOrUnknown else CandidateOrUnknown
  | None => CandidateOrUnknown
  end.

(** The free function of this name, on a store. *)
Definition persisted_state_after_failed_save {E} (previous candidate : State)
    : ST PersistenceCoordinator E PersistedStateAfterFailure :=
  loaded ← on_store store_load;
  mret match loaded with
       | Ok persisted => persisted_state_after_failed_save_result persisted previous candidate
       | Err _ => CandidateOrUnknown
       end.

Definition reserve_learning (token : Z) : ST PersistenceCoordinator ProtocolError Z :=
  c ← get;
  lift (fail_if c.(coordinator_poisoned)
          (ProtocolError_new Internal (lit "state persistence coordinator is poisoned"))) ;;
  lift (fail_if (is_some c.(learning_reservation))
          (ProtocolError_new Conflict
             (lit "another automatic-learning transaction is already being persisted"))) ;;
  modify (set_reservation (Some token)) ;;
  mret token.

Definition cancel_learning_reservation (token : Z) (c : PersistenceCoordinator)
    : PersistenceCoordinator :=
  if c.(coordinator_poisoned) then c
  else if c.(learning_reservation) ==? Some token then set_reservation None c else c.

Definition persist_learning {E} (token : Z) (previous candidate : State)
    : ST PersistenceCoordinator E LearningStoreOutcome :=
  c ← get;
  if c.(coordinator_poisoned) then mret Unsafe
  else if c.(learning_reservation) !=? Some token then mret Unsafe
  else
    saved ← on_store (store_save candidate);
    outcome ←
      match saved with
      | Ok _ => mret Saved
      | Err _ =>
          found ← persisted_state_after_failed_save previous candidate;
          if found ==? CandidateOrUnknown then
            rolled_back ← on_store (store_save previous);
            mret match rolled_back with Ok _ => PreviousRetained | Err _ => Unsafe end
          else mret PreviousRetained
      end;
    modify (cancel_learning_reservation token) ;;
    mret outcome.

(** [ApplicationLearningTransaction::persist]. *)
Definition persist {E} (self : ApplicationLearningTransaction)
    : ST PersistenceCoordinator E LearningStoreOutcome :=
  persist_learning self.(tx_token) self.(tx_previous) self.(tx_candidate).

(** The next step of the learning thread: it persists its transaction, or
    exits, dropping the reservation. *)
Definition worker_step (c : PersistenceCoordinator) : PersistenceCoordinator :=
  match c.(worker) with
  | Some (mkWorker transaction None exits) =>
      if exits then set_worker None (cancel_learning_reservation transaction.(tx_token) c)
      else
        match persist (E := Empty_set) transaction c with
        | (c', Ok outcome) => set_worker (Some (mkWorker transaction (Some outcome) false)) c'
        | (c', Err _) => c'
        end
  | _ => c
  end.

(** Sleeping on the condition variable lets the learning thread run. *)
Definition wait_until_exclusive : ST PersistenceCoordinator StorageError unit :=
  c ← get;
  lift (fail_if c.(coordinator_poisoned) coordinator_error) ;;
  match c.(learning_reservation) with
  | None => mret tt
  | Some _ =>
      modify worker_step ;;
      c ← get;
      lift (fail_if (is_some c.(learning_reservation)) WaitsForever)
  end.

Definition load_exclusive : ST PersistenceCoordinator StorageError (option State) :=
  wait_until_exclusive ;;
  loaded ← on_store store_load;
  lift loaded.

Definition save_exclusive (state : State) : ST PersistenceCoordinator StorageError unit :=
  wait_until_exclusive ;;
  saved ← on_store (store_save state);
  lift saved.
End Coordinator.
Arguments PersistenceCoordinator : clear implicits.

(** ** Derived policy *)

Definition decision_rule_filter (mode : Mode) (rule : Rule) : bool :=
  match mode with
  | Enforcing =>
      rule.(spec).(enabled)
      && (is_some rule.(spec).(application)
          || ((rule.(spec).(direction) ==? Outbound) && (rule.(spec).(action) ==? Accept)))
  | Learning =>
      rule.(spec).(enabled) && (rule.(spec).(direction) ==? Outbound)
      && is_some rule.(spec).(application)
      && match rule.(spec).(action) with Drop | Reject => true | Accept => false end
  | BlockAll => false
  end.

Definition build_application_decision_policy (state : State) : ApplicationDecisionPolicy :=
  let rules := List.filter (decision_rule_filter state.(mode)) (State_rules state) in
  with_enforcement_strategy
    (Policy_new (mkSnapshot state.(revision) state.(flow_generation) state.(mode) rules))
    (if state.(mode) ==? Enforcing then state.(State.enforcement_strategy) else Strict).

Definition build_application_learning_admission (state : State) (limits : LearningLimits)
    : ApplicationLearningAdmissionIndex :=
  application_learning_admission_index_with_limits state limits.

(** ** Checking a learning transition *)

Definition valid_learned_rule (rule : Rule) : bool :=
  (rule.(spec).(origin) ==? Learned) && (rule.(spec).(direction) ==? Outbound)
  && (rule.(spec).(action) ==? Accept) && rule.(spec).(enabled)
  && is_some rule.(spec).(application).

Definition valid_template (rule : Rule) : bool :=
  (rule.(spec).(origin) ==? Template) && (rule.(spec).(direction) ==? Outbound)
  && (rule.(spec).(action) ==? Accept) && (rule.(spec).(protocol) ==? Any)
  && is_none rule.(spec).(peer_network) && is_none rule.(spec).(port)
  && is_none rule.(spec).(interface) && negb rule.(spec).(enabled)
  && is_some_and (fun selector =>
       is_some selector.(as_executable) && is_none selector.(as_executable_file)
       && is_none selector.(as_command_line) && is_none selector.(as_uid)
       && negb selector.(as_metadata_redacted)) rule.(spec).(application).

(** The loop over the events; the result is [expected_revision] at its end. *)
Fixpoint validate_learning_events (previous candidate : State) (expected_revision : Z)
    (events : list Event) : option Z :=
  match events with
  | [] => Some expected_revision
  | event :: rest =>
      next_revision ← u64_checked_add expected_revision 1;
      rule ← match event.(kind) with RuleCreated rule => Some rule | _ => None end;
      if negb (event.(event_revision) =? next_revision)
         || negb (valid_learned_rule rule || valid_template rule)
         || is_some (State_rule previous rule.(rule_id))
         || (State_rule candidate rule.(rule_id) !=? Some rule)
      then None
      else validate_learning_events previous candidate next_revision rest
  end.

Definition validate_application_learning_transition (previous candidate : State)
    (events : list Event) : bool :=
  if (candidate.(mode) !=? Learning)
     || (candidate.(State.enforcement_strategy) !=? previous.(State.enforcement_strategy))
     || negb (candidate.(flow_generation) =? previous.(flow_generation))
     || negb (btree_len candidate.(rules)
              =? usize_saturating_add (btree_len previous.(rules)) (zlen events))
     || existsb (fun rule => State_rule candidate rule.(rule_id) !=? Some rule)
          (State_rules previous)
  then false
  else
    match validate_learning_events previous candidate previous.(revision) events with
    | Some expected_revision => candidate.(revision) =? expected_revision
    | None => false
    end.

(** ** Errors of the protocol *)

Definition fatal_protocol_error : ProtocolError :=
  ProtocolError_new BackendUnavailable
    (lit "kernel policy state is unknown; daemon is terminating for service-manager recovery").
Definition restart_protocol_error : ProtocolError :=
  ProtocolError_new BackendUnavailable
    (lit "firewall integrity repair failed; emergency BlockAll is active and the daemon is restarting").

Definition core_error_code (error : CoreError) : ErrorCode :=
  match error with
  | Validation _ => InvalidRequest
  | RuleNotFound _ => NotFound
  | DuplicateRuleId _ | RulesLimitReached _ | StateSizeLimitReached _ | RevisionOverflow
  | FlowGenerationExhausted => Conflict
  | InvalidFlowGeneration | InvalidObserverRedaction | StateSerialization _
  | MismatchedRuleId _ _ => Internal
  | RedactedApplicationMetadata | UnpinnedApplicationIdentity => InvalidRequest
  end.
Definition core_protocol_error `{JsonLib} (error : CoreError) : ProtocolError :=
  ProtocolError_new (core_error_code error) (CoreError_fmt error).

(** ** Control requests on a candidate state

    The draws of identifiers and clock readings, and the file system, at each
    step of a request. *)

Record ControlEnv : Type := mkControlEnv { draws : Supply; files : nat -> FsView }.

(** [map_err] on a state computation. *)
Definition map_err_st {S E F A} (f : E -> F) (m : ST S E A) : ST S F A := fun s =>
  let '(s', r) := m s in (s', map_err f r).

Section Candidate.
Context `{IpNetLib} `{JsonLib}.

(** [pin_rule_application(&mut rule).map_err(..)?]. *)
Definition pin (fs : FsView) (specification : RuleSpec) : ST State ProtocolError RuleSpec :=
  lift (map_err (fun error => ProtocolError_new InvalidRequest (PinError_fmt error))
          (pin_rule_application fs specification)).

Definition rule_missing (id : Uuid) : ProtocolError :=
  ProtocolError_new NotFound (lit "rule " ++ uuid_to_string id ++ lit " does not exist").

Definition needs_pin (specification : RuleSpec) : bool :=
  is_some_and (fun selector => is_none selector.(as_executable_file))
    specification.(application).

(** The [SetRuleEnabled] arm, which the group actions use as well. *)
Definition control_set_rule_enabled (env : ControlEnv) (step : nat) (id : Uuid) (enabled : bool)
    : ST State ProtocolError (list Event * option Rule) :=
  candidate ← get;
  current ← lift (ok_or (rule_missing id) (State_rule candidate id));
  changed ←
    (if enabled && ((current.(spec).(origin) ==? Template) || needs_pin current.(spec)) then
       specification ← pin (env.(files) step) current.(spec);
       map_err_st core_protocol_error
         (update_rule (env.(draws) step).2 id (set_enabled true specification))
     else
       map_err_st core_protocol_error (set_rule_enabled (env.(draws) step).2 id enabled));
  mret ([changed.2], Some changed.1).

Definition group_action (action : OutboundGroupAction) : RuleAction :=
  match action with GroupReject => Reject | GroupDrop => Drop | _ => Accept end.

Definition set_action (v : RuleAction) (s : RuleSpec) : RuleSpec :=
  mkRuleSpec s.(name) s.(direction) v s.(protocol) s.(peer_network) s.(port) s.(interface)
    s.(application) s.(origin) s.(enabled).

(** One iteration of the loop over the members of a group. *)
Definition control_group_member (env : ControlEnv) (step : nat) (action : OutboundGroupAction)
    (member : Rule) : ST State ProtocolError (list Event) :=
  match action with
  | GroupDelete =>
      deleted ← map_err_st core_protocol_error
                  (delete_rule (env.(draws) step).2 member.(rule_id));
      mret [deleted.2]
  | GroupAccept | GroupReject | GroupDrop =>
      let specification := set_action (group_action action) member.(spec) in
      specification ←
        (if (specification.(Model.action) !=? Accept) && needs_pin specification
         then pin (env.(files) step) specification else mret specification);
      updated ← map_err_st core_protocol_error
                  (update_rule (env.(draws) step).2 member.(rule_id) specification);
      mret [updated.2]
  | GroupEnable | GroupDisable =>
      changed ← control_set_rule_enabled env step member.(rule_id) (action ==? GroupEnable);
      mret changed.1
  end.

Fixpoint control_group_loop (env : ControlEnv) (step : nat) (action : OutboundGroupAction)
    (members : list Rule) : ST State ProtocolError (list Event) :=
  match members with
  | [] => mret []
  | member :: rest =>
      changed ← control_group_member env step action member;
      others ← control_group_loop env (S step) action rest;
      mret (changed ++ others)
  end.

Definition apply_outbound_group_to_candidate (env : ControlEnv) (group : OutboundGroupSelector)
    (action : OutboundGroupAction) : ST State ProtocolError (list Event) :=
  candidate ← get;
  let members :=
    List.filter (fun rule => OutboundGroupSelector_matches group rule) (State_rules candidate) in
  lift (fail_if (bool_decide (members = []))
          (ProtocolError_new NotFound
             (lit "outbound group has no matching rules; reload before retrying"))) ;;
  control_group_loop env 0 action members.

Definition apply_control_to_candidate (env : ControlEnv) (request : ControlRequest)
    : ST State ProtocolError (list Event * option Rule) :=
  let now := (env.(draws) 0%nat).2 in
  match request with
  | RequestSetEnforcement _ strategy =>
      event ← map_err_st core_protocol_error (enforce strategy now);
      mret ([event], None)
  | RequestSetMode _ mode =>
      event ← map_err_st core_protocol_error (set_mode mode now);
      mret ([event], None)
  | RequestCreateRule _ rule =>
      lift (fail_if (rule.(origin) !=? Manual)
              (ProtocolError_new InvalidRequest
                 (lit "only the daemon may create rules marked as learned or template"))) ;;
      rule ← pin (env.(files) 0%nat) rule;
      created ← map_err_st core_protocol_error (create_rule (env.(draws) 0%nat).1 now rule);
      mret ([created.2], Some created.1)
  | RequestUpdateRule _ id rule =>
      candidate ← get;
      current ← lift (ok_or (rule_missing id) (State_rule candidate id));
      lift (fail_if (current.(spec).(origin) !=? rule.(origin))
              (ProtocolError_new InvalidRequest (lit "a rule's origin cannot be changed"))) ;;
      rule ← pin (env.(files) 0%nat) rule;
      updated ← map_err_st core_protocol_error (update_rule now id rule);
      mret ([updated.2], Some updated.1)
  | RequestDeleteRule _ id =>
      deleted ← map_err_st core_protocol_error (delete_rule now id);
      mret ([deleted.2], Some deleted.1)
  | RequestSetRuleEnabled _ id enabled => control_set_rule_enabled env 0 id enabled
  | RequestManageOutboundGroup _ group action =>
      events ← apply_outbound_group_to_candidate env group action;
      mret (events, None)
  end.
End Candidate.

(** ** The engine *)

Section Engine.
Context {B D : Type} `{FirewallBackend B} `{StateStore D} `{IpNetLib} `{JsonLib}.

Record Engine : Type := mkEngine {
  state : State;
  learning_limits : LearningLimits;
  quota_skipped_observations : Z;
  application_policy : ApplicationDecisionPolicy;
  application_learning_admission : ApplicationLearningAdmissionIndex;
  pending_application_learning_admission : option ApplicationLearningAdmissionIndex;
  pending_application_learning_candidate : option State;
  pending_application_learning_events : list Event;
  backend : B;
  persistence : PersistenceCoordinator D;
  events : EventBus;
  nfqueue_counters : NfqueueCounters;
  poisoned : bool;
  fatal : bool;
  restart_required_flag : bool;
  startup_policy : StartupPolicy;
  learning_persistence : LearningPersistence;
  next_learning_transaction : Z;
  superseded_learning_transaction : option Z
}.

Definition set_state (v : State) (e : Engine) : Engine :=
  mkEngine v e.(learning_limits) e.(quota_skipped_observations) e.(application_policy)
    e.(application_learning_admission) e.(pending_application_learning_admission)
    e.(pending_application_learning_candidate) e.(pending_application_learning_events)
    e.(backend) e.(persistence) e.(events) e.(nfqueue_counters) e.(poisoned) e.(fatal)
    e.(restart_required_flag) e.(startup_policy) e.(learning_persistence)
    e.(next_learning_transaction) e.(superseded_learning_transaction).
Definition set_quota_skipped (v : Z) (e : Engine) : Engine :=
  mkEngine e.(state) e.(learning_limits) v e.(application_policy)
    e.(application_learning_admission) e.(pending_application_learning_admission)
    e.(pending_application_learning_candidate) e.(pending_application_learning_events)
    e.(backend) e.(persistence) e.(events) e.(nfqueue_counters) e.(poisoned) e.(fatal)
    e.(restart_required_flag) e.(startup_policy) e.(learning_persistence)
    e.(next_learning_transaction) e.(superseded_learning_transaction).
Definition set_policy (v : ApplicationDecisionPolicy) (e : Engine) : Engine :=
  mkEngine e.(state) e.(learning_limits) e.(quota_skipped_observations) v
    e.(application_learning_admission) e.(pending_application_learning_admission)
    e.(pending_application_learning_candidate) e.(pending_application_learning_events)
    e.(backend) e.(persistence) e.(events) e.(nfqueue_counters) e.(poisoned) e.(fatal)
    e.(restart_required_flag) e.(startup_policy) e.(learning_persistence)
    e.(next_learning_transaction) e.(superseded_learning_transaction).
Definition set_admission (v : ApplicationLearningAdmissionIndex) (e : Engine) : Engine :=
  mkEngine e.(state) e.(learning_limits) e.(quota_skipped_observations) e.(application_policy) v
    e.(pending_application_learning_admission) e.(pending_application_learning_candidate)
    e.(pending_application_learning_events) e.(backend) e.(persistence) e.(events)
    e.(nfqueue_counters) e.(poisoned) e.(fatal) e.(restart_required_flag) e.(startup_policy)
    e.(learning_persistence) e.(next_learning_transaction) e.(superseded_learning_transaction).
Definition set_pending_admission (v : option ApplicationLearningAdmissionIndex) (e : Engine) : Engine :=
  mkEngine e.(state) e.(learning_limits) e.(quota_skipped_observations) e.(application_policy)
    e.(application_learning_admission) v e.(pending_application_learning_candidate)
    e.(pending_application_learning_events) e.(backend) e.(persistence) e.(events)
    e.(nfqueue_counters) e.(poisoned) e.(fatal) e.(restart_required_flag) e.(startup_policy)
    e.(learning_persistence) e.(next_learning_transaction) e.(superseded_learning_transaction).
Definition set_pending_candidate (v : option State) (e : Engine) : Engine :=
  mkEngine e.(state) e.(learning_limits) e.(quota_skipped_observations) e.(application_policy)
    e.(application_learning_admission) e.(pending_application_learning_admission) v
    e.(pending_application_learning_events) e.(backend) e.(persistence) e.(events)
    e.(nfqueue_counters) e.(poisoned) e.(fatal) e.(restart_required_flag) e.(startup_policy)
    e.(learning_persistence) e.(next_learning_transaction) e.(superseded_learning_transaction).
Definition set_pending_events (v : list Event) (e : Engine) : Engine :=
  mkEngine e.(state) e.(learning_limits) e.(quota_skipped_observations) e.(application_policy)
    e.(application_learning_admission) e.(pending_application_learning_admission)
    e.(pending_application_learning_candidate) v e.(backend) e.(persistence) e.(events)
    e.(nfqueue_counters) e.(poisoned) e.(fatal) e.(restart_required_flag) e.(startup_policy)
    e.(learning_persistence) e.(next_learning_transaction) e.(superseded_learning_transaction).
Definition set_backend (v : B) (e : Engine) : Engine :=
  mkEngine e.(state) e.(learning_limits) e.(quota_skipped_observations) e.(application_policy)
    e.(application_learning_admission) e.(pending_application_learning_admission)
    e.(pending_application_learning_candidate) e.(pending_application_learning_events) v
    e.(persistence) e.(events) e.(nfqueue_counters) e.(poisoned) e.(fatal)
    e.(restart_required_flag) e.(startup_policy) e.(learning_persistence)
    e.(next_learning_transaction) e.(superseded_learning_transaction).
Definition set_persistence (v : PersistenceCoordinator D) (e : Engine) : Engine :=
  mkEngine e.(state) e.(learning_limits) e.(quota_skipped_observations) e.(application_policy)
    e.(application_learning_admission) e.(pending_application_learning_admission)
    e.(pending_application_learning_candidate) e.(pending_application_learning_events)
    e.(backend) v e.(events) e.(nfqueue_counters) e.(poisoned) e.(fatal)
    e.(restart_required_flag) e.(startup_policy) e.(learning_persistence)
    e.(next_learning_transaction) e.(superseded_learning_transaction).
Definition set_events (v : EventBus) (e : Engine) : Engine :=
  mkEngine e.(state) e.(learning_limits) e.(quota_skipped_observations) e.(application_policy)
    e.(application_learning_admission) e.(pending_application_learning_admission)
    e.(pending_application_learning_candidate) e.(pending_application_learning_events)
    e.(backend) e.(persistence) v e.(nfqueue_counters) e.(poisoned) e.(fatal)
    e.(restart_required_flag) e.(startup_policy) e.(learning_persistence)
    e.(next_learning_transaction) e.(superseded_learning_transaction).
Definition set_poisoned (v : bool) (e : Engine) : Engine :=
  mkEngine e.(state) e.(learning_limits) e.(quota_skipped_observations) e.(application_policy)
    e.(application_learning_admission) e.(pending_application_learning_admission)
    e.(pending_application_learning_candidate) e.(pending_application_learning_events)
    e.(backend) e.(persistence) e.(events) e.(nfqueue_counters) v e.(fatal)
    e.(restart_required_flag) e.(startup_policy) e.(learning_persistence)
    e.(next_learning_transaction) e.(superseded_learning_transaction).
Definition set_fatal (v : bool) (e : Engine) : Engine :=
  mkEngine e.(state) e.(learning_limits) e.(quota_skipped_observations) e.(application_policy)
    e.(application_learning_admission) e.(pending_application_learning_admission)
    e.(pending_application_learning_candidate) e.(pending_application_learning_events)
    e.(backend) e.(persistence) e.(events) e.(nfqueue_counters) e.(poisoned) v
    e.(restart_required_flag) e.(startup_policy) e.(learning_persistence)
    e.(next_learning_transaction) e.(superseded_learning_transaction).
Definition set_restart_required (v : bool) (e : Engine) : Engine :=
  mkEngine e.(state) e.(learning_limits) e.(quota_skipped_observations) e.(application_policy)
    e.(application_learning_admission) e.(pending_application_learning_admission)
    e.(pending_application_learning_candidate) e.(pending_application_learning_events)
    e.(backend) e.(persistence) e.(events) e.(nfqueue_counters) e.(poisoned) e.(fatal) v
    e.(startup_policy) e.(learning_persistence) e.(next_learning_transaction)
    e.(superseded_learning_transaction).
Definition set_startup_policy (v : StartupPolicy) (e : Engine) : Engine :=
  mkEngine e.(state) e.(learning_limits) e.(quota_skipped_observations) e.(application_policy)
    e.(application_learning_admission) e.(pending_application_learning_admission)
    e.(pending_application_learning_candidate) e.(pending_application_learning_events)
    e.(backend) e.(persistence) e.(events) e.(nfqueue_counters) e.(poisoned) e.(fatal)
    e.(restart_required_flag) v e.(learning_persistence) e.(next_learning_transaction)
    e.(superseded_learning_transaction).
Definition set_learning_persistence (v : LearningPersistence) (e : Engine) : Engine :=
  mkEngine e.(state) e.(learning_limits) e.(quota_skipped_observations) e.(application_policy)
    e.(application_learning_admission) e.(pending_application_learning_admission)
    e.(pending_application_learning_candidate) e.(pending_application_learning_events)
    e.(backend) e.(persistence) e.(events) e.(nfqueue_counters) e.(poisoned) e.(fatal)
    e.(restart_required_flag) e.(startup_policy) v e.(next_learning_transaction)
    e.(superseded_learning_transaction).
Definition set_next_transaction (v : Z) (e : Engine) : Engine :=
  mkEngine e.(state) e.(learning_limits) e.(quota_skipped_observations) e.(application_policy)
    e.(application_learning_admission) e.(pending_application_learning_admission)
    e.(pending_application_learning_candidate) e.(pending_application_learning_events)
    e.(backend) e.(persistence) e.(events) e.(nfqueue_counters) e.(poisoned) e.(fatal)
    e.(restart_required_flag) e.(startup_policy) e.(learning_persistence) v
    e.(superseded_learning_transaction).
Definition set_superseded (v : option Z) (e : Engine) : Engine :=
  mkEngine e.(state) e.(learning_limits) e.(quota_skipped_observations) e.(application_policy)
    e.(application_learning_admission) e.(pending_application_learning_admission)
    e.(pending_application_learning_candidate) e.(pending_application_learning_events)
    e.(backend) e.(persistence) e.(events) e.(nfqueue_counters) e.(poisoned) e.(fatal)
    e.(restart_required_flag) e.(startup_policy) e.(learning_persistence)
    e.(next_learning_transaction) v.

(** Calls on the backend and on the coordinator, their results as values. *)
Definition on_backend {E A} (m : ST B BackendError A) : ST Engine E (Result BackendError A) :=
  fun e => let '(b, r) := m e.(backend) in (set_backend b e, Ok r).
Definition on_persistence {E A} (m : ST (PersistenceCoordinator D) StorageError A)
    : ST Engine E (Result StorageError A) :=
  fun e => let '(c, r) := m e.(persistence) in (set_persistence c e, Ok r).

Definition publish_all (published : list Event) (e : Engine) : Engine :=
  set_events (foldl (fun bus event => publish event bus) e.(events) published) e.
Definition clear_counters (e : Engine) : Engine :=
  set_events (clear_counter_snapshot e.(events)) e.

Definition clear_pending_application_learning (e : Engine) : Engine :=
  set_pending_events [] (set_pending_candidate None (set_pending_admission None e)).

Definition replace_state (state : State) (e : Engine) : Engine :=
  clear_pending_application_learning
    (set_admission (build_application_learning_admission state e.(learning_limits))
      (set_policy (build_application_decision_policy state) (set_state state e))).

Definition emergency_protocol_error (e : Engine) : ProtocolError :=
  if e.(fatal) then fatal_protocol_error
  else if e.(restart_required_flag) then restart_protocol_error
  else ProtocolError_new BackendUnavailable
         (lit "emergency BlockAll is active but could not be persisted; daemon is quarantined and requires storage repair").

(** [return Err(self.emergency_protocol_error())]. *)
Definition emergency_error {A} : ST Engine ProtocolError A :=
  e ← get; lift (Err (emergency_protocol_error e)).

Definition restart_required (e : Engine) : bool := e.(restart_required_flag) || e.(fatal).

Definition enter_emergency_fail_closed {E} (revision_floor : Z) : ST Engine E unit :=
  e ← get;
  let retained_state := default e.(state) e.(pending_application_learning_candidate) in
  let revision_floor := Z.max revision_floor retained_state.(revision) in
  modify (set_poisoned true) ;;
  modify (set_learning_persistence LearningPaused) ;;
  modify (set_restart_required false) ;;
  closed ← on_backend backend_fail_closed;
  match closed with
  | Ok _ =>
      match from_snapshot
              (mkSnapshot (u64_saturating_add revision_floor 1) retained_state.(flow_generation)
                 BlockAll (State_snapshot retained_state).(snap_rules)) with
      | Ok fail_closed =>
          modify (replace_state fail_closed) ;;
          modify clear_counters ;;
          saved ← on_persistence (save_exclusive fail_closed);
          match saved with
          | Ok _ => modify (set_restart_required true)
          | Err _ => mret tt
          end
      | Err _ =>
          modify (set_fatal true) ;;
          modify (set_restart_required true)
      end
  | Err _ =>
      modify (set_fatal true) ;;
      modify (set_restart_required true)
  end.

(** The method of this name. *)
Definition engine_persisted_state_after_failed_save {E} (previous candidate : State)
    : ST Engine E PersistedStateAfterFailure :=
  loaded ← on_persistence load_exclusive;
  mret match loaded with
       | Ok persisted => persisted_state_after_failed_save_result persisted previous candidate
       | Err _ => CandidateOrUnknown
       end.

Definition commit (candidate : State) (changes : list Event) : ST Engine ProtocolError unit :=
  e ← get;
  let previous := e.(state) in
  applied ← on_backend (backend_apply (State_snapshot candidate));
  match applied with
  | Err _ =>
      restored ← on_backend (backend_apply (State_snapshot previous));
      match restored with
      | Ok _ =>
          modify clear_counters ;;
          lift (Err (ProtocolError_new BackendUnavailable
            (lit "firewall transaction failed; previous policy was reinstalled")))
      | Err _ =>
          enter_emergency_fail_closed (Z.max previous.(revision) candidate.(revision)) ;;
          emergency_error
      end
  | Ok _ =>
      saved ← on_persistence (save_exclusive candidate);
      match saved with
      | Err _ =>
          backend_rollback ← on_backend (backend_apply (State_snapshot previous));
          found ← engine_persisted_state_after_failed_save previous candidate;
          storage_rollback ←
            match found with
            | PreviousState => mret (Ok tt)
            | CandidateOrUnknown => on_persistence (save_exclusive previous)
            end;
          if negb (is_ok backend_rollback) || negb (is_ok storage_rollback) then
            enter_emergency_fail_closed (Z.max previous.(revision) candidate.(revision)) ;;
            emergency_error
          else
            lift (Err (ProtocolError_new Internal
              (lit "state persistence failed; previous policy restored")))
      | Ok _ =>
          modify (replace_state candidate) ;;
          modify (set_learning_persistence LearningActive) ;;
          modify clear_counters ;;
          modify (publish_all changes)
      end
  end.

Definition missing_candidate : ProtocolError :=
  ProtocolError_new Internal (lit "application learning transaction has no pending candidate").

Definition commit_block_all_during_learning (utc_now : DateTime) (token : Z)
    : ST Engine ProtocolError Z :=
  e ← get;
  pending ← lift (ok_or missing_candidate e.(pending_application_learning_candidate));
  let '(blocked, changed) := set_mode BlockAll utc_now pending in
  event ← lift (map_err core_protocol_error changed);
  lift (map_err core_protocol_error (State_validate blocked)) ;;
  let revision := blocked.(State.revision) in
  let pending_events := e.(pending_application_learning_events) in
  closed ← on_backend backend_fail_closed;
  match closed with
  | Err _ =>
      modify (set_poisoned true) ;;
      modify (set_fatal true) ;;
      modify (set_restart_required true) ;;
      modify (set_learning_persistence LearningPaused) ;;
      lift (Err fatal_protocol_error)
  | Ok _ =>
      saved ← on_persistence (save_exclusive blocked);
      persisted ←
        match saved with
        | Ok _ => mret (Ok tt)
        | Err _ => on_persistence (save_exclusive blocked)
        end;
      modify (replace_state blocked) ;;
      modify (set_superseded (Some token)) ;;
      match persisted with
      | Err _ =>
          modify (set_poisoned true) ;;
          modify (set_learning_persistence LearningPaused) ;;
          modify (set_restart_required false) ;;
          emergency_error
      | Ok _ =>
          modify (set_learning_persistence LearningActive) ;;
          modify clear_counters ;;
          modify (publish_all pending_events) ;;
          modify (publish_all [event]) ;;
          mret revision
      end
  end.

Definition is_block_all_request (request : ControlRequest) : bool :=
  match request with RequestSetMode _ BlockAll => true | _ => false end.

Definition handle_control (env : ControlEnv) (request : ControlRequest)
    : ST Engine ProtocolError Ack :=
  e ← get;
  lift (fail_if e.(poisoned)
          (ProtocolError_new BackendUnavailable
             (lit "policy engine is locked after a failed rollback"))) ;;
  let expected := expected_revision request in
  let current := e.(state).(revision) in
  lift (fail_if (negb (expected =? current))
          (ProtocolError_new Conflict
             (lit "policy revision changed: expected " ++ dec expected ++ lit ", current "
              ++ dec current ++ lit "; reload before retrying"))) ;;
  match e.(learning_persistence) with
  | InFlight token =>
      if is_block_all_request request then
        revision ← commit_block_all_during_learning (env.(draws) 0%nat).2 token;
        mret (mkAck revision None)
      else
        lift (Err (ProtocolError_new Conflict
          (lit "automatic learning is being persisted; retry the privileged change")))
  | _ =>
      let '(candidate, applied) := apply_control_to_candidate env request e.(state) in
      changes ← lift applied;
      lift (map_err core_protocol_error (State_validate candidate)) ;;
      let revision := candidate.(State.revision) in
      commit candidate changes.1 ;;
      mret (mkAck revision changes.2)
  end.

(** [record_learning_quota_skipped], without the rate-limited warning. *)
Definition record_learning_quota_skipped (count : Z) (e : Engine) : Engine :=
  set_quota_skipped (Nat.iter (Z.to_nat count) increment e.(quota_skipped_observations)) e.

Definition is_saturated (r : Result ApplicationValidationError ApplicationLearningAdmission)
    : bool :=
  match r with Ok Saturated => true | _ => false end.

Definition prepare_application_learning (supply : Supply) (expected_flow_generation : Z)
    (endpoints : list LearnedApplicationEndpoint)
    : ST Engine ProtocolError (option ApplicationLearningTransaction) :=
  e ← get;
  if e.(poisoned) || (e.(learning_persistence) !=? LearningActive)
     || (e.(state).(mode) !=? Learning)
     || negb (e.(state).(flow_generation) =? expected_flow_generation)
  then mret None
  else
    let previous := e.(state) in
    let valid_endpoints :=
      List.filter (fun endpoint => is_ok (LearnedApplicationEndpoint_validate endpoint))
        (take (Z.to_nat MAX_RULES) endpoints) in
    let '(candidate, learned) :=
      learn_new_application_endpoints_with_limits supply valid_endpoints
        MAX_LEARNED_RULES_PER_POLL e.(learning_limits) e.(state) in
    outcomes ← lift (map_err core_protocol_error learned);
    let resulting_admission :=
      build_application_learning_admission candidate e.(learning_limits) in
    let skipped :=
      zlen (List.filter (fun endpoint => is_saturated (classify resulting_admission endpoint))
              valid_endpoints) in
    modify (record_learning_quota_skipped skipped) ;;
    let changes := omap outcome_event outcomes in
    if bool_decide (changes = []) then mret None
    else
      match State_validate candidate with
      | Err (StateSizeLimitReached _) =>
          modify (set_learning_persistence LearningPaused) ;;
          mret None
      | Err error => lift (Err (core_protocol_error error))
      | Ok _ =>
          lift (fail_if (negb (validate_application_learning_transition previous candidate changes))
                  (ProtocolError_new Internal
                     (lit "automatic learning produced an invalid policy transition"))) ;;
          token ← lift (ok_or (ProtocolError_new Conflict
                                 (lit "automatic-learning transaction counter is exhausted"))
                          (u64_checked_add e.(next_learning_transaction) 1));
          reservation ← (fun e => let '(c, r) := reserve_learning token e.(persistence) in
                                  (set_persistence c e, r));
          modify (set_next_transaction token) ;;
          modify (set_pending_admission
                    (Some (build_application_learning_admission candidate e.(learning_limits)))) ;;
          modify (set_pending_candidate (Some candidate)) ;;
          modify (set_pending_events changes) ;;
          modify (set_learning_persistence (InFlight token)) ;;
          mret (Some (mkTransaction reservation previous candidate changes))
      end.

Definition finalize_application_learning (transaction : ApplicationLearningTransaction)
    (outcome : LearningStoreOutcome) : ST Engine ProtocolError Z :=
  e ← get;
  let token := transaction.(tx_token) in
  if e.(superseded_learning_transaction) ==? Some token then
    modify (set_superseded None) ;; mret 0
  else if e.(fatal) || e.(poisoned) then emergency_error
  else if (e.(learning_persistence) !=? InFlight token)
          || (e.(state) !=? transaction.(tx_previous)) then
    enter_emergency_fail_closed
      (Z.max e.(state).(revision) transaction.(tx_candidate).(revision)) ;;
    emergency_error
  else
    match outcome with
    | Saved =>
        modify (replace_state transaction.(tx_candidate)) ;;
        modify (set_learning_persistence LearningActive) ;;
        modify clear_counters ;;
        modify (publish_all transaction.(tx_events)) ;;
        mret (zlen transaction.(tx_events))
    | PreviousRetained =>
        modify clear_pending_application_learning ;;
        modify (set_learning_persistence LearningPaused) ;;
        mret 0
    | Unsafe =>
        enter_emergency_fail_closed
          (Z.max e.(state).(revision) transaction.(tx_candidate).(revision)) ;;
        emergency_error
    end.

Definition publish_counters_if_current (utc_now : DateTime) (expected_revision : Z)
    (counters : FirewallCounters) (e : Engine) : Engine * bool :=
  if e.(poisoned) || negb (e.(state).(revision) =? expected_revision) then (e, false)
  else (publish_all [counters_event e.(state) counters utc_now] e, true).

Definition repair_policy (expected_revision : Z) : ST Engine ProtocolError bool :=
  e ← get;
  if e.(poisoned) then emergency_error
  else if restart_required e then
    lift (Err (if e.(fatal) then fatal_protocol_error else restart_protocol_error))
  else if negb (e.(state).(revision) =? expected_revision) then mret false
  else
    let previous := e.(state) in
    applied ← on_backend (backend_apply (State_snapshot previous));
    match applied with
    | Ok _ => modify clear_counters ;; mret true
    | Err _ => enter_emergency_fail_closed previous.(revision) ;; emergency_error
    end.

Definition quarantine_after_runtime_failure : ST Engine Empty_set unit :=
  e ← get;
  if e.(startup_policy) ==? Pending then
    modify (set_poisoned true) ;;
    modify (set_learning_persistence LearningPaused) ;;
    closed ← on_backend backend_fail_closed;
    match closed with Ok _ => mret tt | Err _ => modify (set_fatal true) end
  else if negb e.(poisoned) && negb e.(fatal) then
    enter_emergency_fail_closed e.(state).(revision)
  else mret tt.

Definition quarantine_after_engine_poison : ST Engine Empty_set unit :=
  modify (set_poisoned true) ;;
  modify (set_fatal true) ;;
  modify (set_restart_required true) ;;
  modify (set_learning_persistence LearningPaused) ;;
  modify clear_counters ;;
  _ ← on_backend backend_fail_closed;
  mret tt.

Definition install_shutdown_quarantine : ST Engine BackendError unit :=
  closed ← on_backend backend_fail_closed;
  match closed with
  | Ok _ => modify clear_counters
  | Err error =>
      modify (set_poisoned true) ;;
      modify (set_fatal true) ;;
      lift (Err error)
  end.

(** ** Start-up *)

Inductive LoadError : Type :=
| QuarantineFailed (error : BackendError)
| EpochsExhausted
| RotationFailed (error : CoreError)
| MigrationFailed (error : CoreError)
| EpochNotPersisted (error : StorageError) (quarantine : option BackendError)
| InitialModeFailed (error : CoreError)
| InitialNotPersisted (error : StorageError)
| StateUnsafe (error : StorageError) (quarantine : option BackendError).

Definition rotate_startup_flow_generation : ST State LoadError unit :=
  state ← get;
  generation ← lift (ok_or EpochsExhausted
    (option_filter (fun generation => generation <=? MAX_FLOW_GENERATION)
       (if state.(flow_generation) + 1 <=? U32_MAX then Some (state.(flow_generation) + 1)
        else None)));
  map_err_st RotationFailed (rotate_flow_generation generation).

(** The two resources of the constructor while it runs. *)
Definition Resources : Type := B * PersistenceCoordinator D.

Definition resource_backend {A} (m : ST B BackendError A)
    : ST Resources LoadError (Result BackendError A) :=
  fun '(b, c) => let '(b', r) := m b in ((b', c), Ok r).
Definition resource_store {A} (m : ST (PersistenceCoordinator D) StorageError A)
    : ST Resources LoadError (Result StorageError A) :=
  fun '(b, c) => let '(c', r) := m c in ((b, c'), Ok r).

(** [fail_closed] on an error path: both errors are reported. *)
Definition quarantine_again {A} (report : option BackendError -> LoadError)
    : ST Resources LoadError A :=
  closed ← resource_backend backend_fail_closed;
  lift (Err (report match closed with Ok _ => None | Err error => Some error end)).

Definition load_state (supply : Supply) (utc_now : DateTime) : ST Resources LoadError State :=
  loaded ← resource_store load_exclusive;
  match loaded with
  | Ok (Some state) =>
      let '(state, rotated) := rotate_startup_flow_generation state in
      lift rotated ;;
      let '(state, migrated) := ensure_application_group_templates supply MAX_RULES state in
      lift (map_err MigrationFailed migrated) ;;
      saved ← resource_store (save_exclusive state);
      match saved with
      | Ok _ => mret state
      | Err save_error => quarantine_again (EpochNotPersisted save_error)
      end
  | Ok None =>
      let '(state, changed) := set_mode Learning utc_now State_new in
      lift (map_err InitialModeFailed changed) ;;
      let '(state, rotated) := rotate_startup_flow_generation state in
      lift rotated ;;
      saved ← resource_store (save_exclusive state);
      lift (map_err InitialNotPersisted saved) ;;
      mret state
  | Err load_error => quarantine_again (StateUnsafe load_error)
  end.

Definition load_with_learning_limits (supply : Supply) (utc_now : DateTime) (events : EventBus)
    (learning_limits : LearningLimits) : ST Resources LoadError Engine :=
  closed ← resource_backend backend_fail_closed;
  lift (map_err QuarantineFailed closed) ;;
  state ← load_state supply utc_now;
  resources ← get;
  mret (mkEngine state learning_limits 0 (build_application_decision_policy state)
          (build_application_learning_admission state learning_limits) None None []
          resources.1 resources.2 events NfqueueCounters_default false false false Pending
          LearningActive 0 None).

(** The error is the backend's, with the outcome of the second quarantine. *)
Definition activate_startup_policy
    : ST Engine (BackendError * option BackendError) unit :=
  e ← get;
  if e.(startup_policy) ==? Active then mret tt
  else
    applied ← on_backend (backend_apply (State_snapshot e.(state)));
    match applied with
    | Err apply_error =>
        closed ← on_backend backend_fail_closed;
        lift (Err (apply_error, match closed with Ok _ => None | Err error => Some error end))
    | Ok _ => modify (set_startup_policy Active)
    end.

(** ** Queries *)

Definition subscription_revision (e : Engine) : Result ProtocolError Z :=
  fail_if e.(fatal) fatal_protocol_error ;; mret e.(state).(revision).

Definition application_decision_snapshot (e : Engine)
    : Result ProtocolError ApplicationDecisionPolicy :=
  fail_if (e.(fatal) || e.(poisoned)) (emergency_protocol_error e) ;;
  mret e.(application_policy).

Definition application_decision_identity (e : Engine) : Result ProtocolError (Mode * Z) :=
  fail_if (e.(fatal) || e.(poisoned)) (emergency_protocol_error e) ;;
  mret (e.(state).(mode), e.(state).(flow_generation)).

Definition application_learning_queue_admission (expected_mode : Mode)
    (expected_flow_generation : Z) (endpoint : LearnedApplicationEndpoint)
    : ST Engine ProtocolError LearningQueueAdmission :=
  e ← get;
  lift (fail_if (e.(fatal) || e.(poisoned)) (emergency_protocol_error e)) ;;
  lift (fail_if ((expected_mode !=? Learning) || (e.(state).(mode) !=? expected_mode)
                 || negb (e.(state).(flow_generation) =? expected_flow_generation))
          (ProtocolError_new Conflict
             (lit "policy changed while the application learning endpoint was attributed"))) ;;
  let cached := e.(application_learning_admission) in
  lift (fail_if (negb (cached.(index_revision) =? e.(state).(revision))
                 || (cached.(index_mode) !=? e.(state).(mode))
                 || negb (cached.(index_flow_generation) =? e.(state).(flow_generation)))
          (ProtocolError_new Internal
             (lit "application learning admission cache is not current"))) ;;
  match e.(learning_persistence) with
  | LearningPaused => mret PersistencePaused
  | persistence =>
      admission ←
        match persistence with
        | InFlight _ =>
            lift (ok_or (ProtocolError_new Internal
                    (lit "application learning transaction has no pending admission index"))
                    e.(pending_application_learning_admission))
        | _ => mret cached
        end;
      classified ← lift (map_err (fun error =>
          ProtocolError_new InvalidRequest (ApplicationValidationError_fmt error))
        (classify admission endpoint));
      match classified with
      | AlreadyKnown => mret QueueAlreadyKnown
      | Saturated => modify (record_learning_quota_skipped 1) ;; mret QueueSaturated
      | Candidate => mret Enqueue
      end
  end.

(** [u32::try_from(..).unwrap_or(u32::MAX)]. *)
Definition u32_or_max (v : Z) : Z := if v <=? U32_MAX then v else U32_MAX.

Definition rule_count_field (e : Engine) : Z := u32_or_max (btree_len e.(state).(rules)).

Definition status_fields (e : Engine) : StatusFields :=
  mkStatus e.(state).(revision) e.(state).(mode) (rule_count_field e)
    (backend_kind e.(backend)) e.(nfqueue_counters).

Definition learning_status (e : Engine) : LearningStatus :=
  let summary := summary e.(application_learning_admission) in
  mkLearningStatus (u32_or_max e.(learning_limits).(per_uid))
    (u32_or_max e.(learning_limits).(per_application))
    (u32_or_max MAX_AUTOMATIC_LEARNED_RULES) (u32_or_max MAX_RULES)
    (u32_or_max summary.(automatic_rules)) (u32_or_max summary.(saturated_uids))
    (u32_or_max summary.(saturated_applications)) e.(quota_skipped_observations).

(** [select_runtime_compatibility] is [RuntimeCompatibility::for_policy]. *)
Definition runtime_compatibility (e : Engine) : RuntimeCompatibility :=
  if e.(poisoned) && (e.(state).(mode) ==? BlockAll)
  then mkCompatibility KernelNative EmergencyBlockAll
  else for_policy (backend_kind e.(backend)) e.(state).(mode)
         (State_application_interception e.(state)).

Definition status_response (e : Engine) : Response :=
  if e.(fatal) then ErrorResponse fatal_protocol_error else Status (status_fields e).
Definition status_v2_response (e : Engine) : Response :=
  if e.(fatal) then ErrorResponse fatal_protocol_error
  else StatusV2 (status_fields e) (runtime_compatibility e).
Definition status_v3_response (e : Engine) : Response :=
  if e.(fatal) then ErrorResponse fatal_protocol_error
  else StatusV3 (status_fields e) (runtime_compatibility e) (learning_status e).
Definition status_v4_response (e : Engine) : Response :=
  if e.(fatal) then ErrorResponse fatal_protocol_error
  else StatusV4 (status_fields e) (runtime_compatibility e) (learning_status e)
         e.(state).(State.enforcement_strategy).

Definition rules_page_response (after : option Uuid) (requested_limit : Z) (e : Engine)
    : Response :=
  if e.(fatal) then ErrorResponse fatal_protocol_error
  else
    let limit := Z.to_nat (clamp_page_limit requested_limit) in
    let matching := rules_after e.(state) after in
    let rules := take limit matching in
    let next_after :=
      match drop limit matching with [] => None | _ :: _ => rule_id <$> last rules end in
    RulesPage e.(state).(revision) rules next_after.
End Engine.
Arguments Engine : clear implicits.
Arguments Resources : clear implicits.
