(* ===== verification/EngineLearning.v ===== *)
(** * What the engine derives from a state

    Three facts on which the engine relies without checking them at run time,
    or which it checks at run time although they always hold: the rules that the
    packet path keeps decide as the whole policy, learned rules do not change
    the kernel's script, and a learning step always passes its own check. *)

From S2P Require Import Prelude Text Net Application Model State StateFacts StateLearning.
From S2P Require Import StateLearningFacts Policy Learning Snapshots Marks Nftables Decision.
From S2P Require Import Protocol.
From S2P Require Import Bus Pinning Storage Engine.
Local Open Scope Z_scope.

(** ** The resident decision policy *)

Lemma filter_snapshot_validates s p rev mode' :
  state_ok s ->
  Snapshot_validate (mkSnapshot rev (flow_generation s) mode' (List.filter p (State_rules s)))
  = Ok tt.
Proof.
  intros Hok. pose proof (state_snapshot_validates s Hok) as Hv.
  apply Snapshot_validate_Ok in Hv as (Hlen & Hgen & Hall & Hnd).
  cbn [State_snapshot snap_rules snap_flow_generation] in *.
  apply Snapshot_validate_Ok. cbn [snap_rules snap_flow_generation]. unfold State_rules.
  split; [|split; [done|split]].
  - pose proof (zlen_filter_le p (btree_values (rules s))). lia.
  - apply Forall_forall. intros r [Hr _]%elem_of_filter_bool. by eapply Forall_forall in Hall.
  - clear Hlen Hall. induction (btree_values (rules s)) as [|r l IH]; [done|].
    rewrite fmap_cons, NoDup_cons in Hnd. destruct Hnd as [Hr Hnd]. cbn [List.filter].
    destruct (p r); [|by apply IH]. rewrite fmap_cons, NoDup_cons. split; [|by apply IH].
    intros (r' & E & [Hr' _]%elem_of_filter_bool)%list_elem_of_fmap. apply Hr. rewrite E.
    by apply list_elem_of_fmap_2.
Qed.

Section Derived.
Context `{IpNetLib}.

Lemma application_match_enforced r c i :
  application_rule_matches r c i = true -> decision_rule_filter Enforcing r = true.
Proof.
  unfold application_rule_matches, application_rule_network_and_uid_matches, decision_rule_filter.
  rewrite !andb_true_iff. intros [[Hn Ha] _]. apply network_match_enabled in Hn as [-> _].
  by destruct (application (spec r)).
Qed.

Lemma fast_match_enforced r c i :
  fast_learned_accept_rule_matches r c i = true -> decision_rule_filter Enforcing r = true.
Proof.
  intros Hm. pose proof (fast_match_network c r i Hm) as Hn.
  unfold application_rule_network_and_uid_matches, decision_rule_filter in *.
  apply andb_true_iff in Hn as [Hn Ha]. apply network_match_enabled in Hn as [-> _].
  by destruct (application (spec r)).
Qed.

Lemma network_match_enforced r c :
  outbound_network_rule_matches r c = true -> decision_rule_filter Enforcing r = true.
Proof.
  unfold outbound_network_rule_matches, decision_rule_filter. rewrite !andb_true_iff.
  intros [[_ Ha] Hn]. apply network_match_enabled in Hn as [-> ->].
  by rewrite Ha, eqb_refl, orb_true_r.
Qed.

Lemma deny_match_learning r c i :
  is_deny r = true -> application_rule_matches r c i = true ->
  decision_rule_filter Learning r = true.
Proof.
  unfold application_rule_matches, application_rule_network_and_uid_matches, decision_rule_filter,
    is_deny.
  intros Hd. rewrite !andb_true_iff. intros [[Hn Ha] _]. apply network_match_enabled in Hn as [-> ->].
  by destruct (application (spec r)), (action (spec r)).
Qed.

Lemma scan_deny snapshot strategy c i :
  Snapshot_validate snapshot = Ok tt ->
  matching_deny_rule (decision_policy snapshot strategy) c i =
  min_by_key policy_lt (List.filter (fun r => application_rule_matches r c i)
    (List.filter is_deny (snap_rules snapshot))).
Proof.
  intros Hv. unfold matching_deny_rule. rewrite candidates_spec, (filter_comm is_deny), filter_narrow; [done|].
  intros r [Hr _]%elem_of_filter_bool. by apply (application_match_pinned snapshot).
Qed.

Lemma resident_policy s :
  build_application_decision_policy s
  = decision_policy (mkSnapshot (revision s) (flow_generation s) (mode s)
      (List.filter (decision_rule_filter (mode s)) (State_rules s)))
      (if mode s ==? Enforcing then State.enforcement_strategy s else Strict).
Proof. reflexivity. Qed.

(** The rules kept under enforcement decide as all rules of the state. *)
Lemma resident_enforcing s c i :
  state_ok s -> mode s = Enforcing ->
  matching_rule (build_application_decision_policy s) c i
  = scan_decision (State_snapshot s) (State.enforcement_strategy s) c i.
Proof.
  intros Hok Hm. rewrite resident_policy, Hm.
  rewrite matching_rule_scan by (by apply filter_snapshot_validates).
  unfold scan_decision, matching_application_rule. cbn [snap_rules State_snapshot].
  rewrite eqb_refl. unfold State_rules.
  rewrite !(filter_narrow (decision_rule_filter Enforcing)); [done| | |]; intros r _.
  - apply network_match_enforced.
  - apply fast_match_enforced.
  - apply application_match_enforced.
Qed.

(** The rules kept while learning deny as all rules of the state. *)
Lemma resident_learning s c i :
  state_ok s -> mode s = Learning ->
  matching_deny_rule (build_application_decision_policy s) c i
  = deny_match (State_snapshot s) c i.
Proof.
  intros Hok Hm. rewrite resident_policy, Hm.
  rewrite scan_deny by (by apply filter_snapshot_validates). unfold deny_match.
  cbn [snap_rules State_snapshot]. unfold State_rules.
  rewrite (filter_comm is_deny), filter_narrow; [done|].
  intros r [_ Hd]%elem_of_filter_bool. by apply deny_match_learning.
Qed.

(** The packet path decides as the policy does.  The subset of rules that
    the engine keeps for it gives, under enforcement, the same decision for
    every connection and process as all rules of the state with the state's
    strategy; while learning it gives the same denials; and when everything is
    blocked it is empty. *)
Theorem resident_policy_decides_as_the_state s c i :
  state_ok s ->
  let resident := build_application_decision_policy s in
  match mode s with
  | Enforcing =>
      matching_rule resident c i
      = matching_rule (decision_policy (State_snapshot s) (State.enforcement_strategy s)) c i
  | Learning =>
      matching_deny_rule resident c i
      = matching_deny_rule (decision_policy (State_snapshot s) Strict) c i
  | BlockAll => snap_rules (policy_snapshot resident) = []
  end.
Proof.
  intros Hok. cbv zeta. pose proof (state_snapshot_validates s Hok) as Hv.
  destruct (mode s) eqn:Hm.
  - rewrite resident_policy, Hm, (proj2 (policy_fields _ _)). cbn [snap_rules].
    induction (State_rules s); [done|]. by cbn [List.filter decision_rule_filter].
  - by rewrite resident_learning, scan_deny.
  - by rewrite resident_enforcing, matching_rule_scan.
Qed.
End Derived.

(** ** Learning steps *)

Section Steps.
Context `{IpNetLib} (limits : LearningLimits) (observed : LearnedApplicationEndpoint -> Prop).

Abbreviation steps := (trace (app_step limits observed)).

Definition learned_shape (r : Rule) : Prop :=
  (valid_learned_rule r || valid_template r) = true.

Lemma app_step_effect out s s' :
  app_step limits observed out s s' ->
  exists ev, outcome_event out = Some ev /\ event_revision ev = revision s + 1
  /\ kind ev = RuleCreated (outcome_rule out) /\ revision s + 1 <= U64_MAX
  /\ learned_shape (outcome_rule out) /\ rules s !! rule_id (outcome_rule out) = None
  /\ s' = mkState (revision s + 1) (flow_generation s) (mode s) (State.enforcement_strategy s)
            (<[rule_id (outcome_rule out) := outcome_rule out]> (rules s)).
Proof.
  intros Hstep.
  assert (learned_shape (outcome_rule out)) as Hshape.
  { unfold learned_shape, valid_learned_rule, valid_template.
    destruct Hstep as [key Hsp _ _|learned uid file _ Hsp _ _ _ _ _ _]; rewrite Hsp.
    - apply orb_true_iff. right. unfold template_spec.
      cbn [origin direction action protocol peer_network port interface enabled application].
      by rewrite !eqb_refl.
    - unfold learned_spec. cbn [origin direction action enabled application].
      by rewrite !eqb_refl. }
  apply app_step_learn_step in Hstep.
  pose proof (learn_step_effect _ _ _ Hstep) as (id & Hid & Hrid & Hs').
  destruct Hstep as [_ (id' & now & ev & Hev & Hrun)].
  apply create_rule_at_Ok in Hrun as ((_ & _ & _ & _ & Hc & _) & Hr & Hev' & _).
  exists ev. rewrite Hrid. split_and!; try done; by rewrite Hev'.
Qed.

Lemma steps_frame outs s s' :
  steps outs s s' ->
  mode s' = mode s /\ flow_generation s' = flow_generation s
  /\ State.enforcement_strategy s' = State.enforcement_strategy s
  /\ revision s' = revision s + zlen outs
  /\ btree_len (rules s') = btree_len (rules s) + zlen outs
  /\ rules s ⊆ rules s'.
Proof.
  induction 1 as [s|out outs s1 s2 s3 Hstep _ (Hm & Hg & Hst & Hr & Hl & Hsub)].
  - change (zlen (@nil LearnOutcome)) with 0. split_and!; done || lia.
  - apply app_step_effect in Hstep as (ev & _ & _ & _ & _ & _ & Hid & ->). cbn in *.
    rewrite zlen_cons, Hr, Hl, btree_len_insert by done. split_and!; try done; try lia.
    etrans; [|exact Hsub]. by apply insert_subseteq.
Qed.

Lemma steps_events_validate s0 outs s s' :
  steps outs s s' -> rules s0 ⊆ rules s ->
  validate_learning_events s0 s' (revision s) (omap outcome_event outs) = Some (revision s').
Proof.
  induction 1 as [s|out outs s1 s2 s3 Hstep Htr IH]; intros Hsub; [done|].
  apply app_step_effect in Hstep as (ev & Hev & Hrev & Hk & Hu & Hshape & Hid & Hs2).
  pose proof (steps_frame _ _ _ Htr) as (_ & _ & _ & _ & _ & Hsub3).
  replace (omap outcome_event (out :: outs)) with (ev :: omap outcome_event outs)
    by (cbn; by rewrite Hev).
  cbn [validate_learning_events].
  rewrite (proj2 (u64_checked_add_Some _ _ (revision s1 + 1))) by done.
  cbn [mbind option_bind]. rewrite Hk. cbn [mbind option_bind].
  rewrite Hrev, Z.eqb_refl. cbn [negb orb].
  assert (Hnew : State_rule s3 (rule_id (outcome_rule out)) = Some (outcome_rule out)).
  { eapply lookup_weaken; [|exact Hsub3]. rewrite Hs2. cbn [rules]. apply lookup_insert_eq. }
  assert (Hold : State_rule s0 (rule_id (outcome_rule out)) = None)
    by (by eapply lookup_weaken_None).
  unfold learned_shape in Hshape. rewrite Hshape, Hnew, Hold, eqb_refl. cbn [negb orb is_some].
  rewrite Hs2 in IH. cbn [revision rules] in IH. apply IH. etrans; [exact Hsub|].
  by apply insert_subseteq.
Qed.

Lemma steps_transition_valid outs s s' :
  state_ok s -> mode s = Learning -> steps outs s s' ->
  btree_len (rules s') <= USIZE_MAX ->
  validate_application_learning_transition s s' (omap outcome_event outs) = true.
Proof.
  intros Hok Hm Htr Hle. pose proof (steps_frame _ _ _ Htr) as (Hm' & Hg & Hst & Hr & Hl & Hsub).
  assert (Hlen : zlen (omap outcome_event outs) = zlen outs).
  { clear -Htr. induction Htr as [|out outs s1 s2 s3 Hstep _ IH]; [done|].
    apply app_step_effect in Hstep as (ev & Hev & _). cbn. rewrite Hev, !zlen_cons. lia. }
  unfold validate_application_learning_transition.
  rewrite Hm', Hm, Hst, Hg, Hlen, Z.eqb_refl, !eqb_refl. cbn [negb orb].
  unfold usize_saturating_add, u64_saturating_add. fold USIZE_MAX.
  rewrite Z.min_l, Hl, Z.eqb_refl by lia. cbn [negb orb].
  assert (existsb (fun rule => State_rule s' (rule_id rule) !=? Some rule) (State_rules s) = false)
    as ->.
  { apply not_true_is_false. intros (r & Hr' & Hne)%existsb_exists.
    apply list_elem_of_In, (btree_values_entry s) in Hr' as [Hr' _]; [|done].
    apply (lookup_weaken _ (rules s')) in Hr'; [|done].
    unfold State_rule in Hne. rewrite Hr', eqb_refl in Hne. done. }
  rewrite (steps_events_validate s outs s s' Htr) by done. apply Z.eqb_refl.
Qed.

(** ** The kernel's script while learning *)

(** The rules that the learning script is made of. *)
Definition kernel_relevant (r : Rule) : bool :=
  enabled (spec r) && (is_none (application (spec r)) || (action (spec r) !=? Accept)).

Lemma learned_not_relevant r : learned_shape r -> kernel_relevant r = false.
Proof.
  unfold learned_shape, valid_learned_rule, valid_template, kernel_relevant, is_none.
  destruct (application (spec r)); simpl; [|by rewrite !andb_false_r].
  destruct (enabled (spec r)); [|done]. simpl. rewrite !andb_true_r.
  rewrite orb_true_iff, !andb_true_iff. intros [[_ ->]|Hf]; [done|]. by destruct Hf as [[_ ?] _].
Qed.
End Steps.

(** Sorted entries with distinct keys are determined by their elements. *)
Lemma sorted_entries_unique {A} (l l' : list (Z * A)) :
  StronglySorted key_le l -> StronglySorted key_le l' -> NoDup l.*1 -> l ≡ₚ l' -> l = l'.
Proof.
  revert l'. induction l as [|[k v] l IH]; intros l' Hs Hs' Hnd Hp.
  { by apply Permutation_nil_l in Hp. }
  destruct l' as [|[k' v'] l']; [by apply Permutation_nil_r in Hp|].
  apply StronglySorted_inv in Hs as [Hs Hk]. apply StronglySorted_inv in Hs' as [Hs' Hk'].
  rewrite Forall_forall in Hk, Hk'. unfold key_le in Hk, Hk'. cbn [fst] in Hk, Hk'.
  assert (Hnd' : NoDup ((k', v') :: l').*1) by (by rewrite <-Hp).
  assert ((k, v) = (k', v')) as [= <- <-].
  { assert (Hin : (k, v) ∈ (k', v') :: l') by (rewrite <-Hp; left).
    assert (Hin' : (k', v') ∈ (k, v) :: l) by (rewrite Hp; left).
    apply elem_of_cons in Hin as [?|Hin]; [done|]. apply elem_of_cons in Hin' as [?|Hin']; [done|].
    specialize (Hk _ Hin'). specialize (Hk' _ Hin). cbn [fst] in *.
    assert (k = k') as -> by lia. rewrite fmap_cons, NoDup_cons in Hnd. destruct Hnd as [Hn _].
    destruct Hn. exact (list_elem_of_fmap_2 fst _ _ Hin'). }
  rewrite fmap_cons, NoDup_cons in Hnd. destruct Hnd. f_equal. apply IH; try done.
  by apply Permutation_cons_inv in Hp.
Qed.

Lemma filter_keys {A} (p : Z * A -> bool) l : NoDup l.*1 -> NoDup (List.filter p l).*1.
Proof.
  induction l as [|x l IH]; [done|]. rewrite fmap_cons, NoDup_cons. intros [Hx Hnd].
  cbn [List.filter]. destruct (p x); [|by apply IH]. rewrite fmap_cons, NoDup_cons.
  split; [|by apply IH]. intros (y & E & [Hy _]%elem_of_filter_bool)%list_elem_of_fmap.
  apply Hx. rewrite E. by apply list_elem_of_fmap_2.
Qed.

Lemma filter_values (p : Rule -> bool) (l : list (Z * Rule)) :
  List.filter p l.*2 = (List.filter (fun e => p e.2) l).*2.
Proof.
  induction l as [|[k v] l IH]; [done|]. cbn [fmap list_fmap List.filter snd].
  change (List.map snd l) with (l.*2). destruct (p v); cbn [fmap list_fmap]; rewrite <-?IH; done.
Qed.

(** A rule that is filtered out does not disturb the order of the others. *)
Lemma filter_btree_values_insert (p : Rule -> bool) m k v :
  m !! k = None -> p v = false ->
  List.filter p (btree_values (<[k := v]> m)) = List.filter p (btree_values m).
Proof.
  intros Hk Hp. unfold btree_values. rewrite !filter_values. f_equal.
  apply sorted_entries_unique.
  - apply filter_sorted, btree_entries_sorted.
  - apply filter_sorted, btree_entries_sorted.
  - apply filter_keys, btree_entries_keys.
  - transitivity (List.filter (fun e : Z * Rule => p e.2) ((k, v) :: map_to_list m)).
    + apply filter_perm. by rewrite btree_entries_perm, map_to_list_insert.
    + cbn [List.filter snd]. rewrite Hp. symmetry. apply filter_perm, btree_entries_perm.
Qed.

Lemma steps_relevant_rules `{IpNetLib} limits observed outs s s' :
  trace (app_step limits observed) outs s s' ->
  List.filter kernel_relevant (State_rules s') = List.filter kernel_relevant (State_rules s).
Proof.
  induction 1 as [s|out outs s1 s2 s3 Hstep _ IH]; [done|]. rewrite IH.
  apply app_step_effect in Hstep as (ev & _ & _ & _ & _ & Hshape & Hid & ->).
  unfold State_rules. cbn [rules].
  apply filter_btree_values_insert; [done|]. by apply learned_not_relevant.
Qed.

Section Script.
Context `{IpNetLib}.

(** Two learning snapshots that differ in rules the script does not use. *)
Record same_script_rules (s1 s2 : Snapshot) : Prop := {
  same_modes : snap_mode s1 = Learning /\ snap_mode s2 = Learning;
  same_generation : snap_flow_generation s1 = snap_flow_generation s2;
  same_relevant :
    List.filter kernel_relevant (snap_rules s1) = List.filter kernel_relevant (snap_rules s2)
}.

Lemma same_filter s1 s2 (p : Rule -> bool) :
  same_script_rules s1 s2 -> (forall r, p r = true -> kernel_relevant r = true) ->
  List.filter p (snap_rules s1) = List.filter p (snap_rules s2).
Proof.
  intros [_ _ Hr] Hp. rewrite <-(filter_narrow kernel_relevant p (snap_rules s1)) by auto.
  rewrite <-(filter_narrow kernel_relevant p (snap_rules s2)) by auto. by rewrite Hr.
Qed.

Lemma same_direct_rules s1 s2 d actions :
  same_script_rules s1 s2 -> direct_rules s1 d actions = direct_rules s2 d actions.
Proof.
  intros Hs. unfold direct_rules. f_equal. apply same_filter; [done|]. intros r.
  unfold kernel_relevant. rewrite !andb_true_iff. intros [[[-> _] ->] _]. done.
Qed.

Lemma same_reverse_rules s1 s2 d :
  same_script_rules s1 s2 -> reverse_rules s1 d = reverse_rules s2 d.
Proof.
  intros Hs. unfold reverse_rules. f_equal. apply same_filter; [done|]. intros r.
  unfold kernel_relevant. rewrite !andb_true_iff. intros [[[-> _] ->] _]. done.
Qed.

Lemma same_application_denials s1 s2 :
  same_script_rules s1 s2 ->
  application_rules s1 [Drop; Reject] = application_rules s2 [Drop; Reject].
Proof.
  intros Hs. unfold application_rules. f_equal. apply same_filter; [done|]. intros r.
  unfold kernel_relevant. rewrite !andb_true_iff. intros [[[-> _] _] Ha].
  destruct (action (spec r)); [done|by rewrite orb_true_r..].
Qed.

Lemma same_reject s1 s2 :
  same_script_rules s1 s2 -> has_enabled_outbound_reject s1 = has_enabled_outbound_reject s2.
Proof.
  intros Hs. unfold has_enabled_outbound_reject.
  assert (Hex : forall p (l : list Rule), existsb p l = negb (bool_decide (List.filter p l = []))).
  { intros p l. induction l as [|r l IH]; [done|]. cbn [existsb List.filter].
    destruct (p r); [done|]. exact IH. }
  rewrite !Hex. do 2 f_equal. erewrite same_filter; [done|done|]. intros r.
  unfold kernel_relevant. rewrite !andb_true_iff, !eqb_true. intros [[-> _] ->].
  by rewrite orb_true_r.
Qed.

Lemma same_chain s1 s2 d :
  same_script_rules s1 s2 -> append_chain s1 d PerPacket = append_chain s2 d PerPacket.
Proof.
  intros Hs. pose proof Hs as [[Hm1 Hm2] Hg _].
  assert (forall actions counter, append_direct_rules s1 d actions counter
    = append_direct_rules s2 d actions counter) as Hd
    by (intros; unfold append_direct_rules; by rewrite (same_direct_rules _ _ _ _ Hs), Hm1, Hm2, Hg).
  assert (forall counter, append_reverse_rules s1 d counter = append_reverse_rules s2 d counter) as Hr
    by (intros; unfold append_reverse_rules; by rewrite (same_reverse_rules _ _ _ Hs), Hm1, Hm2, Hg).
  assert (append_application_rule_queues s1 [Drop; Reject]
    = append_application_rule_queues s2 [Drop; Reject]) as Hq
    by (unfold append_application_rule_queues; by rewrite (same_application_denials _ _ Hs)).
  assert (forall counter, append_application_candidate_guard_drops s1 counter [Drop; Reject]
    = append_application_candidate_guard_drops s2 counter [Drop; Reject]) as Hc
    by (intros; unfold append_application_candidate_guard_drops;
        by rewrite (same_application_denials _ _ Hs)).
  assert (forall counter, append_application_loopback_accept s1 d counter PerPacket
    = append_application_loopback_accept s2 d counter PerPacket) as Hl
    by (intros; unfold append_application_loopback_accept; by rewrite Hm1, Hm2).
  assert (forall counter, append_application_flow_accept s1 d counter PerPacket
    = append_application_flow_accept s2 d counter PerPacket) as Hf
    by (intros; unfold append_application_flow_accept; by rewrite Hg).
  assert ((Learning ==? Enforcing) = false) as He by reflexivity.
  assert (append_chain_policy s1 d PerPacket = append_chain_policy s2 d PerPacket) as Hp.
  { unfold append_chain_policy. cbv zeta.
    rewrite (same_reject _ _ Hs), Hm1, Hm2, Hg, He, !andb_false_r, !andb_false_l. cbv match.
    rewrite !Hd, !Hr, Hq, Hc, Hl, Hf. reflexivity. }
  unfold append_chain. rewrite Hp, Hm1, Hm2. reflexivity.
Qed.

Lemma same_script s1 s2 :
  Snapshot_validate s1 = Ok tt -> Snapshot_validate s2 = Ok tt -> same_script_rules s1 s2 ->
  compile s1 = compile s2.
Proof.
  intros Hv1 Hv2 Hs. pose proof Hs as [[Hm1 Hm2] Hg _]. unfold compile. rewrite Hv1, Hv2.
  cbn [map_err mbind Result_bind].
  assert (forall s, snap_mode s = Learning -> Snapshot_application_interception s = PerPacket)
    as Hi by (intros s Hm; unfold Snapshot_application_interception; by rewrite Hm).
  rewrite (Hi _ Hm1), (Hi _ Hm2), !(same_chain s1 s2) by done.
  assert (append_application_authorization_chain s1 PerPacket
    = append_application_authorization_chain s2 PerPacket) as ->
    by (unfold append_application_authorization_chain; by rewrite Hm1, Hm2, Hg).
  rewrite Hm1, Hm2. reflexivity.
Qed.
End Script.

(** ** Learning on a valid state *)

Section Learned.
Context `{IpNetLib}.

Lemma steps_preserve limits observed outs s s' :
  state_ok s -> trace (app_step limits observed) outs s s' -> state_ok s'.
Proof.
  intros Hok Htr. eapply (effect_preserves false); [exact Hok|]. apply effect_learn.
  eapply trace_mono; [|exact Htr]. apply app_step_learn_step.
Qed.

Lemma steps_script limits observed outs s s' :
  state_ok s -> mode s = Learning -> trace (app_step limits observed) outs s s' ->
  compile (State_snapshot s) = compile (State_snapshot s').
Proof.
  intros Hok Hm Htr. pose proof (steps_frame _ _ _ _ _ Htr) as (Hm' & Hg & _).
  apply same_script.
  - by apply state_snapshot_validates.
  - apply state_snapshot_validates. by eapply steps_preserve.
  - split; cbn [State_snapshot snap_mode snap_flow_generation snap_rules].
    + split; congruence.
    + congruence.
    + symmetry. by eapply steps_relevant_rules.
Qed.

(** Learning needs no kernel update and always passes its own check.
    Whatever endpoints a batch carries, the state it leads to from a valid
    learning state compiles to the very same script, is accepted by the
    transition check of the engine with the events of the batch, and is valid;
    so skipping the backend while learning is sound, and the engine's internal
    error for an invalid transition cannot occur. *)
Theorem learning_needs_no_kernel_update supply endpoints max limits s s' outs :
  state_ok s -> mode s = Learning -> max < USIZE_MAX ->
  learn_new_application_endpoints_with_limits supply endpoints max limits s = (s', Ok outs) ->
  state_ok s'
  /\ compile (State_snapshot s') = compile (State_snapshot s)
  /\ validate_application_learning_transition s s' (omap outcome_event outs) = true.
Proof.
  intros Hok Hm Hmax Hrun. apply learn_new_applications_trace in Hrun as (new & Htr & _ & Hnew); [|done].
  specialize (Hnew _ eq_refl). subst new.
  assert (Hok' : state_ok s') by (by eapply steps_preserve).
  split_and!; [done|symmetry; by eapply steps_script|].
  eapply steps_transition_valid; [done..|].
  destruct Hok' as [_ _ Hsize _]. unfold MAX_RULES, USIZE_MAX, U64_MAX in *. lia.
Qed.
End Learned.

(** ** Concrete states *)

Definition fresh_state (m : Mode) : State := set_mode_field m State_new.

Lemma fresh_state_ok m : state_ok (fresh_state m).
Proof. destruct State_new_ok. by split. Qed.

Lemma resident_policy_decides_as_the_state_witness :
  exists c i, matching_rule (H := ref_ipnet) (build_application_decision_policy (fresh_state Enforcing)) c i
  = matching_rule (decision_policy (State_snapshot (fresh_state Enforcing)) Strict) c i.
Proof.
  exists (mkOutboundConnection (IpV4 1) (Some 5000) (IpV4 2) (Some 443) Tcp
    (mkInterfaceName (lit "eth0")) 1000), sample_identity.
  exact (@resident_policy_decides_as_the_state ref_ipnet (fresh_state Enforcing) _ _
    (fresh_state_ok Enforcing)).
Defined.

Definition learning_run : State * Result CoreError (list LearnOutcome) :=
  learn_new_application_endpoints_with_limits sample_supply [sample_observation] 64
    LearningLimits_default (fresh_state Learning).

Lemma learning_needs_no_kernel_update_witness :
  btree_len (rules learning_run.1) = 2
  /\ compile (State_snapshot learning_run.1) = compile (State_snapshot (fresh_state Learning)).
Proof.
  split; [vm_compute; reflexivity|].
  destruct learning_run as [s' [outs|e]] eqn:Hl; [|vm_compute in Hl; discriminate Hl].
  refine (proj1 (proj2 (@learning_needs_no_kernel_update ref_ipnet sample_supply [sample_observation] 64
    LearningLimits_default (fresh_state Learning) s' outs (fresh_state_ok Learning) eq_refl _ _))).
  - reflexivity.
  - exact Hl.
Defined.
