(* ===== verification/EngineControl.v ===== *)
(** * What a control request does to its candidate

    A successful request is a sequence of effects of the state machine, each
    with its event; from that follow the validity of the candidate, the
    numbering of its events and what happens to the rules of a group. *)

From S2P Require Import Prelude Text Net Application Model State StateFacts StateLearning.
From S2P Require Import StateLearningFacts Policy Learning Snapshots Decision Protocol Bus.
From S2P Require Import Pinning Storage Engine.
Local Open Scope Z_scope.

(** Several effects in a row, none of them a rotation. *)
Inductive changes : State -> State -> list Event -> Prop :=
| changes_nil s : changes s s []
| changes_cons s1 s2 s3 evs evs' :
    effect false s1 s2 evs -> changes s2 s3 evs' -> changes s1 s3 (evs ++ evs').

Lemma changes_one s s' evs : effect false s s' evs -> changes s s' evs.
Proof. intros He. rewrite <-(app_nil_r evs). econstructor; [done|constructor]. Qed.

Lemma changes_preserve s s' evs : state_ok s -> changes s s' evs -> state_ok s'.
Proof. intros Hok Hc. induction Hc; [done|]. apply IHHc. by eapply effect_preserves. Qed.

Lemma consecutive_app from evs evs' :
  consecutive from evs -> consecutive (from + zlen evs) evs' -> consecutive from (evs ++ evs').
Proof.
  unfold consecutive, zlen. intros H1 H2.
  rewrite fmap_app, H1, H2, length_app, seq_app, fmap_app. f_equal. cbn [Nat.add].
  generalize (length evs') as n, (length evs) as k. intros n k. clear.
  replace (seq k n) with ((Nat.add k) <$> seq 0 n) by (by rewrite fmap_add_seq, Nat.add_0_r).
  rewrite <-list_fmap_compose. apply list_fmap_ext. intros _ x _. cbn. lia.
Qed.

Lemma changes_revision s s' evs :
  changes s s' evs -> revision s' = revision s + zlen evs /\ consecutive (revision s) evs.
Proof.
  induction 1 as [s|s1 s2 s3 evs evs' He _ [IHr IHc]].
  - change (zlen (@nil Event)) with 0. split; [lia|done].
  - apply effect_revision in He as [Hr Hc]. rewrite zlen_app. split; [lia|].
    apply consecutive_app; [done|]. by rewrite <-Hr.
Qed.

Lemma changes_authority s s' evs :
  changes s s' evs ->
  flow_generation s <= flow_generation s'
  /\ (flow_generation s' = flow_generation s -> same_authority s s').
Proof.
  induction 1 as [s|s1 s2 s3 evs evs' He _ [IHm IHa]]; [done|].
  apply effect_authority in He as [Hm Ha]. specialize (Hm eq_refl). split; [lia|].
  intros Hg. etrans; [apply Ha|apply IHa]; lia.
Qed.

(** ** Requests *)

Lemma map_err_st_Ok {S E F A} (f : E -> F) (m : ST S E A) s s' a :
  map_err_st f m s = (s', Ok a) <-> m s = (s', Ok a).
Proof.
  unfold map_err_st. destruct (m s) as [s1 r]. destruct r; cbn [map_err]; naive_solver.
Qed.

Section Control.
Context `{IpNetLib} `{JsonLib}.

Lemma pin_Ok fs sp s s' sp' :
  pin fs sp s = (s', Ok sp') <-> s' = s /\ pin_rule_application fs sp = Ok sp'.
Proof. unfold pin, lift. destruct (pin_rule_application fs sp); cbn [map_err]; naive_solver. Qed.

Lemma mode_effect m strategy now s s' ev :
  set_mode_with_strategy_at m strategy now s = (s', Ok ev) -> effect false s s' [ev].
Proof.
  intros (g & (Hr & Hg) & -> & ->)%set_mode_with_strategy_at_Ok. by eapply effect_mode.
Qed.

Lemma control_enabled_Ok env step id b s s' evs r :
  control_set_rule_enabled env step id b s = (s', Ok (evs, r)) ->
  exists rule ev, evs = [ev] /\ r = Some rule /\ effect false s s' [ev].
Proof.
  unfold control_set_rule_enabled. rewrite run_get, run_lift_Ok. intros (cur & _ & Hrun).
  apply run_bind_Ok in Hrun as ([rule ev] & s1 & Hrun & Hret). apply run_ret in Hret as [-> [= -> ->]].
  exists rule, ev. split_and!; try done. case_match.
  - apply run_bind_Ok in Hrun as (sp & s2 & Hpin & Hrun). apply pin_Ok in Hpin as [-> _].
    apply map_err_st_Ok in Hrun. unfold update_rule in Hrun. by eapply effect_update.
  - apply map_err_st_Ok in Hrun. unfold set_rule_enabled in Hrun. by eapply effect_enabled.
Qed.

Lemma control_member_Ok env step action member s s' evs :
  control_group_member env step action member s = (s', Ok evs) ->
  exists ev, evs = [ev] /\ effect false s s' [ev].
Proof.
  assert (Hupd : forall sp, (updated ← map_err_st core_protocol_error
      (update_rule (draws env step).2 (rule_id member) sp); mret [updated.2]) s = (s', Ok evs) ->
    exists ev, evs = [ev] /\ effect false s s' [ev]).
  { intros sp Hrun. apply run_bind_Ok in Hrun as ([r ev] & s1 & Hrun & Hret).
    apply run_ret in Hret as [-> ->]. apply map_err_st_Ok in Hrun. unfold update_rule in Hrun.
    exists ev. split; [done|]. by eapply effect_update. }
  assert (Hverdict : (let sp := set_action (group_action action) (spec member) in
      sp ← (if (Model.action sp !=? Accept) && needs_pin sp then pin (files env step) sp else mret sp);
      updated ← map_err_st core_protocol_error
        (update_rule (draws env step).2 (rule_id member) sp); mret [updated.2]) s = (s', Ok evs) ->
    exists ev, evs = [ev] /\ effect false s s' [ev]).
  { cbv zeta. intros Hrun. apply run_bind_Ok in Hrun as (sp & s1 & Hp & Hrun).
    assert (s1 = s) as ->; [|by eapply Hupd].
    case_match; [by apply pin_Ok in Hp as [-> _]|by apply run_ret in Hp as [-> _]]. }
  unfold control_group_member. destruct action; try exact Hverdict; intros Hrun.
  - apply run_bind_Ok in Hrun as ([r ev] & s1 & Hrun & Hret). apply run_ret in Hret as [-> ->].
    apply map_err_st_Ok in Hrun. unfold delete_rule in Hrun. exists ev. split; [done|].
    by eapply effect_delete.
  - apply run_bind_Ok in Hrun as ([evs1 r] & s1 & Hrun & Hret). apply run_ret in Hret as [-> ->].
    apply control_enabled_Ok in Hrun as (rule & ev & -> & _ & He). by exists ev.
  - apply run_bind_Ok in Hrun as ([evs1 r] & s1 & Hrun & Hret). apply run_ret in Hret as [-> ->].
    apply control_enabled_Ok in Hrun as (rule & ev & -> & _ & He). by exists ev.
Qed.

Lemma control_loop_Ok env action members : forall step s s' evs,
  control_group_loop env step action members s = (s', Ok evs) ->
  changes s s' evs /\ length evs = length members.
Proof.
  induction members as [|m ms IH]; intros step s s' evs; cbn [control_group_loop].
  - intros [-> ->]%run_ret. split; [constructor|done].
  - intros (evs1 & s1 & H1 & Hrun)%run_bind_Ok.
    apply run_bind_Ok in Hrun as (evs2 & s2 & H2 & Hret). apply run_ret in Hret as [-> ->].
    apply control_member_Ok in H1 as (ev & -> & He). apply IH in H2 as [Hc Hlen].
    split; [by econstructor|]. cbn. by rewrite Hlen.
Qed.

Lemma control_request_changes env request s s' evs r :
  apply_control_to_candidate env request s = (s', Ok (evs, r)) ->
  changes s s' evs /\ evs <> [].
Proof.
  assert (Hone : forall ev, effect false s s' [ev] -> changes s s' [ev] /\ [ev] <> [])
    by (intros; split; [by apply changes_one|done]).
  unfold apply_control_to_candidate. destruct request; intros Hrun.
  - apply run_bind_Ok in Hrun as (ev & s1 & Hrun & Hret). apply run_ret in Hret as [-> [= -> ->]].
    apply map_err_st_Ok in Hrun. unfold set_mode, set_mode_at in Hrun. rewrite run_get in Hrun.
    apply mode_effect in Hrun. by apply Hone.
  - apply run_bind_Ok in Hrun as (ev & s1 & Hrun & Hret). apply run_ret in Hret as [-> [= -> ->]].
    apply map_err_st_Ok in Hrun. unfold enforce in Hrun. apply mode_effect in Hrun. by apply Hone.
  - apply run_seq_Ok in Hrun as [_ Hrun]. apply run_bind_Ok in Hrun as (sp & s1 & Hp & Hrun).
    apply pin_Ok in Hp as [-> _]. apply run_bind_Ok in Hrun as ([rule1 ev] & s1 & Hrun & Hret).
    apply run_ret in Hret as [-> [= -> ->]]. apply map_err_st_Ok in Hrun. unfold create_rule in Hrun.
    apply Hone. by eapply effect_create.
  - rewrite run_get in Hrun. apply run_lift_Ok in Hrun as (cur & _ & Hrun).
    apply run_seq_Ok in Hrun as [_ Hrun]. apply run_bind_Ok in Hrun as (sp & s1 & Hp & Hrun).
    apply pin_Ok in Hp as [-> _]. apply run_bind_Ok in Hrun as ([rule1 ev] & s1 & Hrun & Hret).
    apply run_ret in Hret as [-> [= -> ->]]. apply map_err_st_Ok in Hrun. unfold update_rule in Hrun.
    apply Hone. by eapply effect_update.
  - apply run_bind_Ok in Hrun as ([rule1 ev] & s1 & Hrun & Hret).
    apply run_ret in Hret as [-> [= -> ->]]. apply map_err_st_Ok in Hrun. unfold delete_rule in Hrun.
    apply Hone. by eapply effect_delete.
  - apply control_enabled_Ok in Hrun as (rule1 & ev & -> & _ & He). by apply Hone.
  - apply run_bind_Ok in Hrun as (evs1 & s1 & Hrun & Hret). apply run_ret in Hret as [-> [= -> ->]].
    unfold apply_outbound_group_to_candidate in Hrun. rewrite run_get in Hrun.
    apply run_seq_Ok in Hrun as [Hne Hrun]. apply fail_if_Ok, bool_decide_eq_false in Hne.
    apply control_loop_Ok in Hrun as [Hc Hlen]. split; [done|]. intros ->.
    by apply Hne, nil_length_inv.
Qed.
End Control.
