(* ===== verification/EngineLaws.v ===== *)
(** * What the engine relies on

    The promises of the two traits, [FirewallBackend] and [StateStore], and what
    they give for the coordinator that the engine shares with the learning
    thread: what the state file holds after each of its operations, and that
    a writer waiting for exclusive access is always let through. *)

From S2P Require Import Prelude Text Net Application Model State StateFacts StateLearning.
From S2P Require Import StateLearningFacts Policy Learning Snapshots Marks Nftables Decision.
From S2P Require Import Protocol Bus Pinning Storage Engine EngineLearning.
Local Open Scope Z_scope.

(** ** What backends and stores promise *)

(** The policy in the kernel: a snapshot that was applied as a whole, the
    blocking policy, or anything else after a failure. *)
Inductive Kernel : Type :=
| Installed (snapshot : Snapshot)
| Quarantined
| Unspecified.

Class BackendLaws (B : Type) `{FirewallBackend B} : Type := {
  kernel : B -> Kernel;
  apply_installs snapshot b b' :
    backend_apply snapshot b = (b', Ok tt) -> kernel b' = Installed snapshot;
  fail_closed_blocks b b' :
    backend_fail_closed b = (b', Ok tt) -> kernel b' = Quarantined
}.

(** The store replaces the state file atomically, also when it reports an error
    after the replacement, and loads what was validated. *)
Class StoreLaws (D : Type) `{StateStore D} : Type := {
  durable : D -> option State;
  load_reads d d' r :
    store_load d = (d', r) -> durable d' = durable d /\ forall o, r = Ok o -> o = durable d;
  load_validates d d' s : store_load d = (d', Ok (Some s)) -> state_ok s;
  save_writes s d d' : store_save s d = (d', Ok tt) -> durable d' = Some s;
  save_replaces s d d' error :
    store_save s d = (d', Err error) -> durable d' = durable d \/ durable d' = Some s
}.

(** ** The coordinator *)

Section CoordinatorFacts.
Context {D : Type} `{StoreLaws D}.
Implicit Types (c : PersistenceCoordinator D).

(** A reservation is held exactly by a thread that has not persisted yet. *)
Definition coordinator_ok c : Prop :=
  coordinator_poisoned c = false
  /\ forall t, learning_reservation c = Some t <->
     exists tx exits, worker c = Some (mkWorker tx None exits) /\ tx_token tx = t.

Lemma persisted_previous (o : option State) s s' :
  persisted_state_after_failed_save_result o s s' = PreviousState -> o = Some s.
Proof.
  unfold persisted_state_after_failed_save_result. destruct o as [p|]; [|done].
  destruct (p ==? s) eqn:Hp; [rewrite eqb_true in Hp; by subst|by destruct (p ==? s')].
Qed.

(** What the disk holds after a transaction was persisted with an outcome. *)
Definition persisted_as (o : LearningStoreOutcome) (prev cand : State) (before after : option State)
    : Prop :=
  match o with
  | Saved => after = Some cand
  | PreviousRetained => after = Some prev
  | Unsafe => after = before \/ after = Some cand \/ after = Some prev
  end.

Lemma cancel_own t c :
  coordinator_poisoned c = false -> learning_reservation c = Some t ->
  cancel_learning_reservation t c = set_reservation None c.
Proof.
  intros Hp Hr. unfold cancel_learning_reservation. by rewrite Hp, Hr, eqb_refl.
Qed.

Lemma persist_spec {E} tx c c' (r : Result E LearningStoreOutcome) :
  coordinator_poisoned c = false -> learning_reservation c = Some (tx_token tx) ->
  persist tx c = (c', r) ->
  exists o d, r = Ok o /\ c' = set_reservation None (set_store d c)
  /\ persisted_as o (tx_previous tx) (tx_candidate tx) (durable (store c)) (durable d).
Proof.
  intros Hp Hr. unfold persist, persist_learning. rewrite run_get, Hp, Hr, eqb_refl. cbn [negb].
  rewrite run_bind. unfold on_store at 1.
  destruct (store_save (tx_candidate tx) (store c)) as [d1 r1] eqn:H1.
  assert (Hcancel : forall d, cancel_learning_reservation (tx_token tx) (set_store d c)
    = set_reservation None (set_store d c)) by (intros; by apply cancel_own).
  destruct r1 as [[]|e1].
  { rewrite run_mret, run_modify, Hcancel. intros [= <- <-]. exists Saved, d1.
    split_and!; try done. by eapply save_writes. }
  apply save_replaces in H1. rewrite run_bind. unfold persisted_state_after_failed_save.
  rewrite run_bind, run_bind. unfold on_store at 1. cbn [store set_store].
  destruct (store_load d1) as [d2 r2] eqn:H2. apply load_reads in H2 as [Hd2 Hr2].
  change (set_store d2 (set_store d1 c)) with (set_store d2 c).
  cbv beta iota delta [mret ST_ret].
  destruct (match r2 with Ok persisted => _ | Err _ => _ end) eqn:Hfound.
  - change (PreviousState ==? CandidateOrUnknown) with false. cbv beta iota.
    rewrite run_modify, Hcancel.
    intros [= <- <-]. exists PreviousRetained, d2.
    split_and!; try done. destruct r2 as [o|]; [|done]. apply persisted_previous in Hfound.
    cbn. by rewrite Hd2, <-(Hr2 o eq_refl), Hfound.
  - rewrite eqb_refl, run_bind. unfold on_store. cbn [store set_store].
    destruct (store_save (tx_previous tx) d2) as [d3 r3] eqn:H3.
    change (set_store d3 (set_store d2 c)) with (set_store d3 c).
    cbv beta iota. rewrite run_modify, Hcancel.
    intros [= <- <-]. destruct r3 as [[]|e3].
    + exists PreviousRetained, d3. split_and!; try done. by eapply save_writes.
    + exists Unsafe, d3. split_and!; try done. apply save_replaces in H3. cbn.
      destruct H3 as [-> | ->]; [|tauto]. rewrite Hd2. destruct H1; tauto.
Qed.

(** What the learning thread's step does to a disk. *)
Inductive worker_moved c c' : Prop :=
| worker_idle :
    learning_reservation c = None -> c' = c -> worker_moved c c'
| worker_exited tx :
    worker c = Some (mkWorker tx None true) ->
    c' = mkCoordinator (store c) None false None -> worker_moved c c'
| worker_persisted tx o d :
    worker c = Some (mkWorker tx None false) ->
    c' = mkCoordinator d None false (Some (mkWorker tx (Some o) false)) ->
    persisted_as o (tx_previous tx) (tx_candidate tx) (durable (store c)) (durable d) ->
    worker_moved c c'.

Lemma worker_step_moved c : coordinator_ok c -> worker_moved c (worker_step c).
Proof.
  intros [Hp Hres]. unfold worker_step.
  destruct (worker c) as [[tx [o|] exits]|] eqn:Hw.
  - apply worker_idle; [|done]. destruct (learning_reservation c) as [t|] eqn:Hr; [|done].
    destruct (proj1 (Hres t) eq_refl) as (? & ? & [=] & _).
  - assert (Hr : learning_reservation c = Some (tx_token tx)) by (apply Hres; eauto).
    destruct exits.
    + eapply worker_exited; [done|]. rewrite cancel_own by done. unfold set_worker. cbn.
      by rewrite Hp.
    + destruct (persist tx c) as [c' r] eqn:Hper.
      apply persist_spec in Hper as (o & d & -> & -> & Hd); [|done..].
      eapply worker_persisted; [done| |exact Hd]. unfold set_worker. cbn. by rewrite Hp.
  - apply worker_idle; [|done]. destruct (learning_reservation c) as [t|] eqn:Hr; [|done].
    destruct (proj1 (Hres t) eq_refl) as (? & ? & [=] & _).
Qed.

Lemma worker_moved_ok c c' :
  coordinator_ok c -> worker_moved c c' -> coordinator_ok c' /\ learning_reservation c' = None.
Proof.
  intros Hok Hm. destruct Hm as [Hr -> |tx Hw -> |tx o d Hw -> _]; [done|split|split];
    try done; (split; [done|]); cbn; intros t; split; try done; by intros (? & ? & [=] & _).
Qed.

Lemma wait_settles c :
  coordinator_ok c -> wait_until_exclusive c = (worker_step c, Ok tt).
Proof.
  intros Hok. pose proof Hok as [Hp Hres].
  pose proof (worker_step_moved c Hok) as Hm.
  pose proof (worker_moved_ok c _ Hok Hm) as [_ Hnone].
  unfold wait_until_exclusive. rewrite run_get, run_lift, Hp. cbn [fail_if].
  destruct (learning_reservation c) as [t|] eqn:Hr.
  - rewrite run_modify, run_get. unfold lift. by rewrite Hnone.
  - destruct Hm as [_ -> |tx Hw|tx o d Hw]; [done|..];
      (assert (None = Some (tx_token tx)) by (apply Hres; eauto)); congruence.
Qed.

Lemma save_exclusive_run s c :
  coordinator_ok c ->
  save_exclusive s c =
  let '(d, r) := store_save s (store (worker_step c)) in (set_store d (worker_step c), r).
Proof.
  intros Hok. unfold save_exclusive. rewrite run_bind, wait_settles by done.
  rewrite run_bind. unfold on_store. by destruct (store_save s (store (worker_step c))).
Qed.

Lemma load_exclusive_run c :
  coordinator_ok c ->
  load_exclusive c =
  let '(d, r) := store_load (store (worker_step c)) in (set_store d (worker_step c), r).
Proof.
  intros Hok. unfold load_exclusive. rewrite run_bind, wait_settles by done.
  rewrite run_bind. unfold on_store. by destruct (store_load (store (worker_step c))).
Qed.

Lemma set_store_ok d c : coordinator_ok c -> coordinator_ok (set_store d c).
Proof. done. Qed.
End CoordinatorFacts.

(** ** A scripted backend and a scripted store

    They answer as a script tells them, and then successfully; runs of the engine
    can be evaluated with them. *)

Inductive ScriptedAnswer : Type := Succeeds | FailsBefore | FailsAfter.

Record ScriptedBackend : Type := mkScriptedBackend {
  in_kernel : Kernel;
  backend_script : list ScriptedAnswer
}.

Definition scripted_backend_call (k : Kernel) : ST ScriptedBackend BackendError unit := fun b =>
  match backend_script b with
  | [] => (mkScriptedBackend k [], Ok tt)
  | Succeeds :: rest => (mkScriptedBackend k rest, Ok tt)
  | _ :: rest => (mkScriptedBackend Unspecified rest, Err (lit "scripted failure"))
  end.

#[export] Instance ScriptedBackend_ops : FirewallBackend ScriptedBackend := {|
  backend_kind _ := BackendNftables;
  backend_apply snapshot := scripted_backend_call (Installed snapshot);
  backend_fail_closed := scripted_backend_call Quarantined
|}.

Lemma scripted_backend_call_Ok k b b' :
  scripted_backend_call k b = (b', Ok tt) -> in_kernel b' = k.
Proof.
  unfold scripted_backend_call. destruct (backend_script b) as [|[] rest]; by intros [= <-].
Qed.

#[export] Instance ScriptedBackend_laws : BackendLaws ScriptedBackend := {|
  kernel := in_kernel;
  apply_installs snapshot b b' Hrun := scripted_backend_call_Ok _ b b' Hrun;
  fail_closed_blocks b b' Hrun := scripted_backend_call_Ok _ b b' Hrun
|}.

Record ScriptedStore : Type := mkScriptedStore {
  state_file : option State;
  store_script : list ScriptedAnswer
}.

Definition scripted_load `{JsonLib} : ST ScriptedStore StorageError (option State) := fun d =>
  (d, match state_file d with
      | None => Ok None
      | Some s =>
          if (0 <=? revision s) && (revision s <=? U64_MAX) && is_ok (State_validate s)
          then Ok (Some s) else Err (InvalidJson (lit "scripted state is invalid"))
      end).

Definition scripted_save (s : State) : ST ScriptedStore StorageError unit := fun d =>
  match store_script d with
  | [] => (mkScriptedStore (Some s) [], Ok tt)
  | Succeeds :: rest => (mkScriptedStore (Some s) rest, Ok tt)
  | FailsBefore :: rest =>
      (mkScriptedStore (state_file d) rest, Err (StorageIo (lit "scripted failure") [] (OtherIo 5)))
  | FailsAfter :: rest =>
      (mkScriptedStore (Some s) rest, Err (StorageIo (lit "scripted failure") [] (OtherIo 5)))
  end.

Section ScriptedStore.
Context `{JsonLib}.

#[export] Instance ScriptedStore_ops : StateStore ScriptedStore := {|
  store_load := scripted_load;
  store_save := scripted_save
|}.

Lemma scripted_load_reads d d' r :
  scripted_load d = (d', r) ->
  state_file d' = state_file d /\ forall o, r = Ok o -> o = state_file d.
Proof.
  unfold scripted_load. intros [= <- <-]. split; [done|].
  destruct (state_file d) as [s|]; [|by intros o [= <-]].
  destruct (_ && _); [by intros o [= <-]|done].
Qed.

Lemma scripted_load_validates d d' s :
  scripted_load d = (d', Ok (Some s)) -> state_ok s.
Proof.
  unfold scripted_load. intros [= _ Hr]. destruct (state_file d) as [s'|]; [|done].
  destruct (0 <=? revision s') eqn:Hlo, (revision s' <=? U64_MAX) eqn:Hhi, (State_validate s') as [[]|]
    eqn:Hv; try done. injection Hr as <-.
  apply State_validate_Ok in Hv as (? & ? & ? & _). split; try done. lia.
Qed.

Lemma scripted_save_writes s d d' : scripted_save s d = (d', Ok tt) -> state_file d' = Some s.
Proof. unfold scripted_save. destruct (store_script d) as [|[] rest]; by intros [= <-]. Qed.

Lemma scripted_save_replaces s d d' error :
  scripted_save s d = (d', Err error) -> state_file d' = state_file d \/ state_file d' = Some s.
Proof.
  unfold scripted_save. destruct (store_script d) as [|[] rest]; intros [= <-]; cbn; tauto.
Qed.

#[export] Instance ScriptedStore_laws : StoreLaws ScriptedStore := {|
  durable := state_file;
  load_reads := scripted_load_reads;
  load_validates := scripted_load_validates;
  save_writes := scripted_save_writes;
  save_replaces := scripted_save_replaces
|}.
End ScriptedStore.
