(* ===== verification/EngineSafety.v ===== *)
(** * Safety of the engine

    [engine_step] runs one operation of the engine or one step of the learning
    thread.  [engine_ok] is what holds between operations: the resident state is
    valid and agrees with its caches, the kernel runs the script of the resident
    state or blocks everything, and the state file holds the resident state or
    one of the two states of the transaction in flight.  What is known of the
    kernel depends on how the start-up policy was activated, which [Activation]
    says. *)

From S2P Require Import Prelude Text Net Application Model State StateFacts StateLearning.
From S2P Require Import StateLearningFacts Policy Learning Snapshots Marks Nftables Decision.
From S2P Require Import Protocol Bus Pinning Storage Engine EngineLearning EngineControl EngineLaws.
Local Open Scope Z_scope.

Create HintDb engine discriminated.
#[export] Hint Constants Opaque : engine.

(** How the start-up policy was activated, if it was: before any failure was
    reported, after one, or not at all since the activation itself failed.  The
    engine does not record it. *)
Inductive Activation : Type := OnTime | AfterFailure | ActivationFailed.
#[export] Instance Activation_eq_dec : EqDecision Activation.
Proof. solve_decision. Defined.

Section Safety.
Context {B D : Type} `{BackendLaws B} `{StoreLaws D} `{IpNetLib} `{JsonLib}.
Context {activation : Activation}.
Implicit Types (e : Engine B D).

(** ** The invariant *)

Definition learned (limits : LearningLimits) (s s' : State) (evs : list Event) : Prop :=
  exists outs, trace (app_step limits (fun _ => True)) outs s s' /\ evs = omap outcome_event outs.

(** The kernel enforces the resident state, or blocks everything. *)
Definition enforces (k : Kernel) (s : State) : Prop :=
  k = Quarantined
  \/ exists snapshot, k = Installed snapshot /\ compile snapshot = compile (State_snapshot s).

Definition on_disk e : option State := durable (store (persistence e)).

(** The state file during a transaction, by the progress of its thread. *)
Definition file_in_flight (w : option Worker) (prev cand : State) (file : option State) : Prop :=
  match w with
  | Some (mkWorker _ (Some Saved) _) => file = Some cand
  | Some (mkWorker _ (Some Unsafe) _) => file = Some prev \/ file = Some cand
  | _ => file = Some prev
  end.

Definition live_ok e : Prop :=
  let w := worker (persistence e) in
  match learning_persistence e with
  | InFlight t =>
      exists cand,
        pending_application_learning_candidate e = Some cand
        /\ pending_application_learning_admission e
           = Some (build_application_learning_admission cand (learning_limits e))
        /\ mode (state e) = Learning
        /\ learned (learning_limits e) (state e) cand (pending_application_learning_events e)
        /\ superseded_learning_transaction e <> Some t /\ t <= next_learning_transaction e
        /\ (forall x, w = Some x -> worker_transaction x
              = mkTransaction t (state e) cand (pending_application_learning_events e))
        /\ file_in_flight w (state e) cand (on_disk e)
  | _ =>
      pending_application_learning_candidate e = None
      /\ pending_application_learning_admission e = None
      /\ pending_application_learning_events e = []
      /\ on_disk e = Some (state e)
      /\ (forall x, w = Some x ->
            superseded_learning_transaction e = Some (tx_token (worker_transaction x))
            /\ worker_outcome x <> None)
  end.

(** The part that every operation keeps, whatever the kernel and the disk do. *)
Record engine_base e : Prop := {
  base_state : state_ok (state e);
  base_pending cand : pending_application_learning_candidate e = Some cand -> state_ok cand;
  base_policy : application_policy e = build_application_decision_policy (state e);
  base_admission : application_learning_admission e
    = build_application_learning_admission (state e) (learning_limits e);
  base_coordinator : coordinator_ok (persistence e);
  base_superseded t :
    superseded_learning_transaction e = Some t -> t <= next_learning_transaction e
}.

Record engine_ok e : Prop := {
  ok_base : engine_base e;
  ok_fatal : fatal e = true -> poisoned e = true;
  ok_restart : restart_required_flag e = true -> poisoned e = true;
  ok_live : poisoned e = false -> live_ok e;
  ok_kernel : fatal e = false -> activation <> ActivationFailed -> enforces (kernel (backend e)) (state e);
  ok_quarantine : fatal e = false -> poisoned e = true -> activation = OnTime ->
    kernel (backend e) = Quarantined;
  ok_blocked : fatal e = false -> poisoned e = true -> startup_policy e = Active -> activation = OnTime ->
    mode (state e) = BlockAll;
  ok_resumable : fatal e = false -> restart_required_flag e = true ->
    mode (state e) = BlockAll /\ on_disk e = Some (state e)
    /\ learning_reservation (persistence e) = None
}.

(** Reading a field of an updated engine; statements about whole engines are
    left alone, since an update mentions its engine once per field. *)
Ltac engine_simpl :=
  lazymatch goal with
  | |- engine_base _ => idtac
  | |- engine_ok _ => idtac
  | |- _ => cbn [state learning_limits quota_skipped_observations application_policy
      application_learning_admission pending_application_learning_admission
      pending_application_learning_candidate pending_application_learning_events backend
      persistence events nfqueue_counters poisoned fatal restart_required_flag startup_policy
      learning_persistence next_learning_transaction superseded_learning_transaction
      set_state set_quota_skipped set_policy set_admission set_pending_admission
      set_pending_candidate set_pending_events set_backend set_persistence set_events
      set_poisoned set_fatal set_restart_required set_startup_policy set_learning_persistence
      set_next_transaction set_superseded
      store learning_reservation coordinator_poisoned worker set_store set_reservation set_worker
      replace_state clear_pending_application_learning publish_all clear_counters]
  end.
Ltac engine_done :=
  engine_simpl;
  lazymatch goal with
  | |- engine_base _ => idtac
  | |- engine_ok _ => idtac
  | |- _ => try done
  end.

Lemma run_bind_assoc {S E A1 A2 A3} (m : ST S E A1) (f : A1 -> ST S E A2) (g : A2 -> ST S E A3) s :
  (x ← m; y ← f x; g y) s = (y ← (x ← m; f x); g y) s.
Proof. rewrite !run_bind. by destruct (m s) as [s' [a|]]. Qed.

(** ** Updates that the base does not depend on *)

Lemma base_events v e : engine_base e -> engine_base (set_events v e).
Proof. by destruct 1; split. Qed.
Lemma base_publish v e : engine_base e -> engine_base (publish_all v e).
Proof. apply base_events. Qed.
Lemma base_clear e : engine_base e -> engine_base (clear_counters e).
Proof. apply base_events. Qed.
Lemma base_learning v e : engine_base e -> engine_base (set_learning_persistence v e).
Proof. by destruct 1; split. Qed.
Lemma base_poisoned v e : engine_base e -> engine_base (set_poisoned v e).
Proof. by destruct 1; split. Qed.
Lemma base_fatal v e : engine_base e -> engine_base (set_fatal v e).
Proof. by destruct 1; split. Qed.
Lemma base_restart v e : engine_base e -> engine_base (set_restart_required v e).
Proof. by destruct 1; split. Qed.
Lemma base_backend v e : engine_base e -> engine_base (set_backend v e).
Proof. by destruct 1; split. Qed.
Lemma base_startup v e : engine_base e -> engine_base (set_startup_policy v e).
Proof. by destruct 1; split. Qed.
Lemma base_quota v e : engine_base e -> engine_base (set_quota_skipped v e).
Proof. by destruct 1; split. Qed.
Lemma base_persistence v e : coordinator_ok v -> engine_base e -> engine_base (set_persistence v e).
Proof. by destruct 2; split. Qed.
Lemma base_replace v e : state_ok v -> engine_base e -> engine_base (replace_state v e).
Proof. by destruct 2; split. Qed.

#[local] Hint Resolve base_events base_publish base_clear base_learning base_poisoned base_fatal base_restart
  base_backend base_startup base_quota base_persistence base_replace base_coordinator ok_base : engine.

(** ** The emergency path *)

Lemma emergency_state s floor fc :
  state_ok s -> 0 <= floor ->
  from_snapshot (mkSnapshot (u64_saturating_add floor 1) (flow_generation s) BlockAll
                   (snap_rules (State_snapshot s))) = Ok fc ->
  fc = mkState (u64_saturating_add floor 1) (flow_generation s) BlockAll Strict (rules s)
  /\ state_ok fc.
Proof.
  intros Hok Hf. unfold from_snapshot. intros [_ Hfs]%seq_Ok.
  apply seq_Ok in Hfs as [_ [= <-]].
  cbn [State_snapshot snap_rules snap_revision snap_flow_generation snap_mode].
  rewrite collect_state_rules by done. split; [done|]. destruct Hok. split; cbn; try done.
  unfold u64_saturating_add, U64_MAX. lia.
Qed.

(** What the emergency path leaves behind, from the state and the coordinator it
    starts with. *)
Record emergency_outcome (retained : State) (floor : Z) (before : PersistenceCoordinator D) e
    : Prop := {
  emergency_ok : engine_ok e;
  emergency_writer : persistence e = before \/ learning_reservation (persistence e) = None;
  emergency_poisoned : poisoned e = true;
  emergency_blocks : fatal e = false -> kernel (backend e) = Quarantined;
  emergency_retains : fatal e = true
    \/ state e = mkState (u64_saturating_add (Z.max floor (revision retained)) 1)
                   (flow_generation retained) BlockAll Strict (rules retained)
}.

Lemma fatal_ok e : engine_base e -> fatal e = true -> poisoned e = true -> engine_ok e.
Proof. intros Hb Hf Hp. split; congruence || done. Qed.

Lemma coordinator_save s (c : PersistenceCoordinator D) c' r :
  coordinator_ok c -> save_exclusive s c = (c', r) ->
  coordinator_ok c' /\ learning_reservation c' = None
  /\ (r = Ok tt -> durable (store c') = Some s)
  /\ (durable (store c') = durable (store (worker_step c)) \/ durable (store c') = Some s)
  /\ worker c' = worker (worker_step c).
Proof.
  intros Hok. rewrite save_exclusive_run by done.
  destruct (worker_moved_ok c _ Hok (worker_step_moved c Hok)) as [Hok' Hr].
  destruct (store_save s (store (worker_step c))) as [d r'] eqn:Hs. intros [= <- <-].
  split_and!; try done.
  - intros ->. by eapply save_writes.
  - destruct r' as [[]|err]; [right; by eapply save_writes|by eapply save_replaces].
Qed.

Lemma emergency_spec {E} floor e e' (r : Result E unit) :
  engine_base e -> 0 <= floor -> enter_emergency_fail_closed floor e = (e', r) ->
  r = Ok tt
  /\ emergency_outcome (default (state e) (pending_application_learning_candidate e)) floor
       (persistence e) e'.
Proof.
  intros Hb Hf. unfold enter_emergency_fail_closed. rewrite run_get.
  set (retained := default _ _).
  assert (Hret : state_ok retained).
  { unfold retained. destruct (pending_application_learning_candidate e) eqn:Hp; cbn [default].
    - by apply (base_pending e Hb). - apply Hb. }
  rewrite !run_modify, run_bind. unfold on_backend. engine_simpl.
  destruct (backend_fail_closed (backend e)) as [b [[]|err]] eqn:Hfc.
  2: { rewrite run_modify. intros [= <- <-]. split; [done|]. split; engine_simpl; try tauto; [|done].
       apply fatal_ok; auto 8 with engine. }
  apply fail_closed_blocks in Hfc.
  destruct (from_snapshot _) as [fc|err] eqn:Hfs.
  2: { rewrite run_modify. intros [= <- <-]. split; [done|]. split; engine_simpl; try tauto.
       apply fatal_ok; auto 8 with engine. }
  apply emergency_state in Hfs as [Hst Hok]; [|done|lia].
  rewrite !run_modify, run_bind. unfold on_persistence. engine_simpl.
  destruct (save_exclusive fc (persistence e)) as [c r1] eqn:Hs.
  apply coordinator_save in Hs as (Hc & Hres & Hdisk & _); [|apply Hb].
  assert (Hbase : forall flag, engine_base (set_restart_required flag (set_persistence c
    (clear_counters (replace_state fc (set_backend b (set_restart_required false
      (set_learning_persistence LearningPaused (set_poisoned true e))))))))).
  { auto 12 with engine. }
  assert (Hk : enforces (kernel b) fc) by (by left).
  destruct r1 as [[]|err].
  - cbv beta iota delta [modify]. intros [= <- <-]. split; [done|].
    split; engine_simpl; [|by right|done|done|by right].
    split; engine_done; [apply Hbase|by rewrite Hst|].
    intros _ _. split_and!; [by rewrite Hst|by apply Hdisk|done].
  - intros [= <- <-]. split; [done|]. split; engine_simpl; [|by right|done|done|by right].
    split; engine_done; [apply (Hbase false)|by rewrite Hst].
Qed.

(** ** Commits *)

Definition idle (c : PersistenceCoordinator D) : Prop :=
  forall w, worker c = Some w -> worker_outcome w <> None.

Lemma idle_step c : idle c -> worker_step c = c.
Proof.
  intros Hi. unfold worker_step. destruct (worker c) as [[tx [o|] x]|] eqn:Hw; try done.
  by destruct (Hi _ Hw).
Qed.

Definition in_flight e : bool :=
  match learning_persistence e with InFlight _ => true | _ => false end.

(** Nothing in flight: the file holds the resident state, and the learning
    thread has nothing left to write. *)
Lemma settled e :
  live_ok e -> in_flight e = false ->
  pending_application_learning_candidate e = None /\ pending_application_learning_admission e = None
  /\ pending_application_learning_events e = [] /\ on_disk e = Some (state e)
  /\ (forall w, worker (persistence e) = Some w ->
       superseded_learning_transaction e = Some (tx_token (worker_transaction w)))
  /\ idle (persistence e).
Proof.
  unfold live_ok, in_flight, idle. destruct (learning_persistence e); try done;
    intros (Hc & Ha & He & Hd & Hw) _; split_and!; try done; intros w Hx; by apply Hw.
Qed.

Lemma live_flags e :
  engine_ok e -> poisoned e = false -> fatal e = false /\ restart_required_flag e = false.
Proof.
  intros [_ Hf Hr _ _ _ _ _] Hp. split.
  - destruct (fatal e); [|done]. by rewrite Hf in Hp.
  - destruct (restart_required_flag e); [|done]. by rewrite Hr in Hp.
Qed.

Lemma published evs e :
  publish_all evs (clear_counters e) = set_events
    (foldl (fun bus event => publish event bus) (clear_counter_snapshot (events e)) evs) e.
Proof. reflexivity. Qed.

Lemma settled_ok e :
  engine_base e -> poisoned e = false -> fatal e = false -> restart_required_flag e = false ->
  in_flight e = false -> (activation <> ActivationFailed -> enforces (kernel (backend e)) (state e)) ->
  pending_application_learning_candidate e = None -> pending_application_learning_admission e = None ->
  pending_application_learning_events e = [] -> on_disk e = Some (state e) ->
  (forall w, worker (persistence e) = Some w ->
     superseded_learning_transaction e = Some (tx_token (worker_transaction w))) ->
  idle (persistence e) -> engine_ok e.
Proof.
  intros Hb Hp Hf Hr Hl Hk H1' H2' H3' Hd Hsup Hidle. split; try congruence; try done.
  intros _. unfold live_ok. unfold in_flight in Hl.
  destruct (learning_persistence e); try done; split_and!; try done;
    intros w Hw; (split; [by apply Hsup|by apply Hidle]).
Qed.

(** Replacing the resident state once the file holds it. *)
Lemma replaced_ok cand c b bus e :
  engine_base e -> poisoned e = false -> live_ok e -> in_flight e = false ->
  fatal e = false -> restart_required_flag e = false ->
  state_ok cand -> coordinator_ok c -> worker c = worker (persistence e) ->
  durable (store c) = Some cand -> enforces (kernel b) cand ->
  engine_ok (set_events bus (set_learning_persistence LearningActive
    (replace_state cand (set_persistence c (set_backend b e))))).
Proof.
  intros Hb Hp Hl Hf Hfatal Hflag Hok Hc Hw Hd Hk.
  apply settled in Hl as (_ & _ & _ & _ & Hsup & Hidle); [|done].
  apply settled_ok; engine_done.
  - auto 8 with engine.
  - by rewrite Hw.
  - unfold idle. by rewrite Hw.
Qed.

(** The resident state stays, with the kernel and the file set back to it. *)
Lemma restored_ok c b bus e :
  engine_ok e -> poisoned e = false -> in_flight e = false ->
  coordinator_ok c -> worker c = worker (persistence e) ->
  durable (store c) = Some (state e) -> enforces (kernel b) (state e) ->
  engine_ok (set_events bus (set_persistence c (set_backend b e))).
Proof.
  intros Hok Hp Hf Hc Hw Hd Hk. destruct (live_flags e Hok Hp) as [Hfatal Hflag].
  pose proof (settled e (ok_live e Hok Hp) Hf) as (H1' & H2' & H3' & _ & Hsup & Hidle).
  apply settled_ok; engine_done.
  - auto with engine.
  - by rewrite Hw.
  - unfold idle. by rewrite Hw.
Qed.

(** The three ways a commit can end. *)
Inductive committed (cand : State) (evs : list Event) e
    : Engine B D -> Result ProtocolError unit -> Prop :=
| committed_all b c :
    kernel b = Installed (State_snapshot cand) -> durable (store c) = Some cand ->
    coordinator_ok c -> worker c = worker (persistence e) ->
    committed cand evs e
      (publish_all evs (clear_counters (set_learning_persistence LearningActive
        (replace_state cand (set_persistence c (set_backend b e)))))) (Ok tt)
| committed_nothing b c bus error :
    kernel b = Installed (State_snapshot (state e)) -> durable (store c) = Some (state e) ->
    coordinator_ok c -> worker c = worker (persistence e) ->
    bus = events e \/ bus = clear_counter_snapshot (events e) ->
    committed cand evs e (set_events bus (set_persistence c (set_backend b e))) (Err error)
| committed_emergency before e' error :
    emergency_outcome (state e) (Z.max (revision (state e)) (revision cand)) before e' ->
    committed cand evs e e' (Err error).

Lemma emergency_then_error {A} floor e e' (r : Result ProtocolError A) :
  engine_base e -> 0 <= floor ->
  (enter_emergency_fail_closed floor ;; emergency_error) e = (e', r) ->
  exists error, r = Err error
  /\ emergency_outcome (default (state e) (pending_application_learning_candidate e)) floor
       (persistence e) e'.
Proof.
  intros Hb Hf. rewrite run_bind.
  destruct (enter_emergency_fail_closed floor e) as [e1 r1] eqn:He.
  apply emergency_spec in He as [-> Hout]; [|done..].
  unfold emergency_error. rewrite run_get. unfold lift. intros [= <- <-]. eauto.
Qed.

Lemma save_idle s (c : PersistenceCoordinator D) c' r :
  coordinator_ok c -> idle c -> save_exclusive s c = (c', r) ->
  coordinator_ok c' /\ worker c' = worker c
  /\ (r = Ok tt -> durable (store c') = Some s)
  /\ (durable (store c') = durable (store c) \/ durable (store c') = Some s).
Proof.
  intros Hok Hi (Hc & _ & Hd & Hd' & Hw)%coordinator_save; [|done].
  by rewrite idle_step in Hd', Hw.
Qed.

(** After a failed save, the file is found to hold the previous state or is
    written back. *)
Lemma storage_rollback prev cand e e' r :
  coordinator_ok (persistence e) -> idle (persistence e) ->
  (found ← engine_persisted_state_after_failed_save prev cand;
   match found with
   | PreviousState => mret (Ok tt)
   | CandidateOrUnknown => on_persistence (save_exclusive prev)
   end : ST (Engine B D) ProtocolError (Result StorageError unit)) e = (e', r) ->
  exists c o, e' = set_persistence c e /\ r = Ok o /\ coordinator_ok c
  /\ worker c = worker (persistence e) /\ (o = Ok tt -> durable (store c) = Some prev).
Proof.
  intros Hok Hi. rewrite run_bind. unfold engine_persisted_state_after_failed_save.
  rewrite run_bind. unfold on_persistence at 1. rewrite load_exclusive_run, idle_step by done.
  destruct (store_load (store (persistence e))) as [d r1] eqn:Hl.
  apply load_reads in Hl as [Hd Hr1]. cbv beta iota delta [mret ST_ret].
  destruct (match r1 with Ok persisted => _ | Err _ => _ end) eqn:Hfound.
  - intros [= <- <-]. exists (set_store d (persistence e)), (Ok tt). split_and!; try done.
    intros _. destruct r1 as [o|]; [|done]. apply persisted_previous in Hfound.
    cbn [store set_store]. by rewrite Hd, <-(Hr1 o eq_refl).
  - unfold on_persistence. engine_simpl.
    destruct (save_exclusive prev (set_store d (persistence e))) as [c r2] eqn:Hs.
    intros [= <- <-]. apply save_idle in Hs as (Hc & Hw & Hd2 & _); [|done..].
    by exists c, r2.
Qed.

Lemma commit_spec cand evs e e' r :
  engine_base e -> 0 <= revision cand -> live_ok e -> in_flight e = false ->
  commit cand evs e = (e', r) -> committed cand evs e e' r.
Proof.
  intros Hb Hrev Hl Hf. apply settled in Hl as (Hpend & _ & _ & Hdisk & _ & Hidle); [|done].
  assert (Hfloor : 0 <= Z.max (revision (state e)) (revision cand)) by lia.
  assert (Hemergency : forall b c err e'', engine_base (set_persistence c (set_backend b e)) ->
    emergency_outcome (default (state e) (pending_application_learning_candidate e))
      (Z.max (revision (state e)) (revision cand)) c e'' ->
    committed cand evs e e'' (Err err)).
  { intros b c err e'' _ Hout. rewrite Hpend in Hout. by econstructor. }
  assert (Hbase : forall b c, coordinator_ok c -> engine_base (set_persistence c (set_backend b e))).
  { auto with engine. }
  unfold commit. rewrite run_get, run_bind. unfold on_backend at 1.
  destruct (backend_apply (State_snapshot cand) (backend e)) as [b1 [[]|err1]] eqn:H1'.
  2: { rewrite run_bind. unfold on_backend at 1. engine_simpl.
       destruct (backend_apply (State_snapshot (state e)) b1) as [b2 [[]|err2]] eqn:H2'.
       - rewrite run_modify. unfold lift. intros [= <- <-]. apply apply_installs in H2'.
         eapply (committed_nothing cand evs e b2 (persistence e)); try done; [apply Hb|tauto].
       - intros (err & -> & Hout)%emergency_then_error; [|apply (Hbase b2 _), Hb|done].
         by apply (Hemergency b2 (persistence e)); [apply Hbase, Hb|]. }
  apply apply_installs in H1'. rewrite run_bind. unfold on_persistence at 1. engine_simpl.
  destruct (save_exclusive cand (persistence e)) as [c1 r1] eqn:Hs.
  apply save_idle in Hs as (Hc1 & Hw1 & Hd1 & _); [|apply Hb|done].
  destruct r1 as [[]|err1].
  { rewrite !run_modify. unfold modify. intros [= <- <-].
    apply (committed_all cand evs e b1 c1); try done. by apply Hd1. }
  rewrite run_bind. unfold on_backend at 1. engine_simpl.
  destruct (backend_apply (State_snapshot (state e)) b1) as [b2 r2] eqn:H2'.
  rewrite run_bind_assoc, run_bind.
  match goal with |- (match ?m with pair _ _ => _ end) = _ -> _ => destruct m as [e3 r3] eqn:Hroll end.
  apply storage_rollback in Hroll as (c3 & o & -> & -> & Hc3 & Hw3 & Hd3);
    [|done|intros w Hw; apply Hidle; by rewrite <-Hw1].
  change (worker c3 = worker c1) in Hw3.
  destruct (negb (is_ok r2) || negb (is_ok o)) eqn:Hfailed.
  - intros (err & -> & Hout)%emergency_then_error; [|by apply (Hbase b2 c3)|done].
    by apply (Hemergency b2 c3); [apply Hbase|].
  - unfold lift. intros [= <- <-]. destruct r2 as [[]|]; [|done]. destruct o as [[]|]; [|done].
    apply apply_installs in H2'.
    apply (committed_nothing cand evs e b2 c3 (events e)); try done; [by apply Hd3|congruence|tauto].
Qed.

Lemma committed_ok cand evs e e' r :
  engine_ok e -> poisoned e = false -> in_flight e = false -> state_ok cand ->
  committed cand evs e e' r -> engine_ok e'.
Proof.
  intros Hok Hp Hf Hcand Hc. destruct Hc as [b c Hk Hd Hc Hw|b c bus err Hk Hd Hc Hw _|before e' err Hout].
  - destruct (live_flags e Hok Hp) as [Hfatal Hflag]. rewrite published.
    apply replaced_ok; try done; [apply Hok|by apply Hok|].
    right. eauto.
  - apply restored_ok; try done. right. eauto.
  - apply Hout.
Qed.

(** ** Blocking everything while learning *)

Lemma unreserved_idle (c : PersistenceCoordinator D) :
  coordinator_ok c -> learning_reservation c = None -> idle c.
Proof.
  intros [_ Hres] Hr w Hw Ho. destruct w as [tx o x]. cbn in Ho. subst o.
  assert (learning_reservation c = Some (tx_token tx)) by (apply Hres; eauto). congruence.
Qed.

Lemma worker_step_transaction (c : PersistenceCoordinator D) w :
  coordinator_ok c -> worker (worker_step c) = Some w ->
  exists w0, worker c = Some w0 /\ worker_transaction w0 = worker_transaction w.
Proof.
  intros Hok. destruct (worker_step_moved c Hok) as [_ -> |tx Hw -> |tx o d Hw -> _]; cbn; intros E.
  - eauto.
  - done.
  - injection E as <-. eauto.
Qed.

(** A privileged [BlockAll] that overtakes a transaction of the learning thread. *)
Inductive preempted t e : Engine B D -> Result ProtocolError Z -> Prop :=
| preempted_refused error : preempted t e e (Err error)
| preempted_fatal e' error :
    engine_ok e' -> poisoned e' = true -> fatal e' = true -> preempted t e e' (Err error)
| preempted_unsaved e' error blocked ev :
    engine_ok e' -> poisoned e' = true -> fatal e' = false -> state e' = blocked ->
    mode blocked = BlockAll -> kernel (backend e') = Quarantined ->
    (exists cand, pending_application_learning_candidate e = Some cand
       /\ effect false cand blocked [ev] /\ rules blocked = rules cand) ->
    preempted t e e' (Err error)
| preempted_blocked e' blocked ev :
    engine_ok e' -> poisoned e' = false -> in_flight e' = false ->
    state e' = blocked -> mode blocked = BlockAll -> kernel (backend e') = Quarantined -> on_disk e' = Some blocked ->
    (exists cand, pending_application_learning_candidate e = Some cand
       /\ effect false cand blocked [ev] /\ rules blocked = rules cand) ->
    events e' = foldl (fun bus event => publish event bus) (clear_counter_snapshot (events e))
                  (pending_application_learning_events e ++ [ev]) ->
    superseded_learning_transaction e' = Some t ->
    preempted t e e' (Ok (revision blocked)).

Lemma learned_ok limits s s' evs : state_ok s -> learned limits s s' evs -> state_ok s'.
Proof. intros Hok (outs & Htr & _). by eapply steps_preserve. Qed.

(** Up to two attempts to write a state while the learning thread may be busy. *)
Lemma save_twice s e e' (r : Result ProtocolError (Result StorageError unit)) :
  coordinator_ok (persistence e) ->
  (saved ← on_persistence (save_exclusive s);
   match saved with
   | Ok _ => mret (Ok tt)
   | Err _ => on_persistence (save_exclusive s)
   end) e = (e', r) ->
  exists c o, e' = set_persistence c e /\ r = Ok o /\ coordinator_ok c
  /\ learning_reservation c = None /\ worker c = worker (worker_step (persistence e))
  /\ (o = Ok tt -> durable (store c) = Some s).
Proof.
  intros Hok. rewrite run_bind. unfold on_persistence.
  destruct (save_exclusive s (persistence e)) as [c1 r1] eqn:Hs.
  apply coordinator_save in Hs as (Hc1 & Hres1 & Hd1 & _ & Hw1); [|done].
  destruct r1 as [[]|err].
  - intros [= <- <-]. exists c1, (Ok tt). split_and!; try done.
  - engine_simpl. destruct (save_exclusive s c1) as [c2 r2] eqn:Hs2.
    apply coordinator_save in Hs2 as (Hc2 & Hres2 & Hd2 & _ & Hw2); [|done].
    rewrite idle_step in Hw2 by (by apply unreserved_idle).
    intros [= <- <-]. exists c2, r2. by rewrite Hw2.
Qed.

Lemma preempt_settles t blocked ev (c : PersistenceCoordinator D) (o : Result StorageError unit)
    cand e b e' r :
  engine_base e -> poisoned e = false -> fatal e = false -> restart_required_flag e = false ->
  t <= next_learning_transaction e -> state_ok blocked -> mode blocked = BlockAll ->
  kernel b = Quarantined -> coordinator_ok c -> learning_reservation c = None ->
  (forall x, worker c = Some x -> tx_token (worker_transaction x) = t) ->
  (o = Ok tt -> durable (store c) = Some blocked) ->
  pending_application_learning_candidate e = Some cand -> effect false cand blocked [ev] ->
  rules blocked = rules cand ->
  match o with
  | Ok _ =>
      modify (set_learning_persistence LearningActive) ;;
      modify clear_counters ;;
      modify (publish_all (pending_application_learning_events e)) ;;
      modify (publish_all [ev]) ;;
      mret (revision blocked)
  | Err _ =>
      modify (set_poisoned true) ;;
      modify (set_learning_persistence LearningPaused) ;;
      modify (set_restart_required false) ;;
      emergency_error
  end (set_superseded (Some t) (replace_state blocked (set_persistence c (set_backend b e))))
  = (e', r) -> preempted t e e' r.
Proof.
  intros Hb Hp Hf Hr Htok Hbok Hmode Hk Hc Hres Hworker Hd Hcand Heff Hrules.
  set (e1 := set_superseded (Some t) _).
  assert (Hb1 : engine_base e1).
  { split; unfold e1; engine_done. by intros ? [= ->]. }
  destruct o as [[]|err].
  - rewrite !run_modify. cbv beta iota delta [mret ST_ret]. intros [= <- <-].
    lazymatch goal with |- preempted _ _ ?e' _ =>
      refine (preempted_blocked t e e' blocked ev _ Hp eq_refl eq_refl Hmode Hk (Hd eq_refl) _ _ eq_refl) end;
      [|by eauto|].
    + apply settled_ok; [clearbody e1; auto 8 with engine|unfold e1, on_disk; engine_done..].
      * by left.
      * by apply Hd.
      * intros w Hx. by rewrite (Hworker w Hx).
      * by apply unreserved_idle.
    + unfold e1. engine_simpl. by rewrite foldl_app.
  - rewrite !run_modify. unfold emergency_error. rewrite run_get. unfold lift. intros [= <- <-].
    lazymatch goal with |- preempted _ _ ?e' _ =>
      refine (preempted_unsaved t e e' _ blocked ev _ eq_refl Hf eq_refl Hmode Hk _) end; [|by eauto].
    split; [clearbody e1; auto 8 with engine|unfold e1; engine_done..]. by left.
Qed.

Lemma preempt_spec now t e e' r :
  engine_ok e -> poisoned e = false -> learning_persistence e = InFlight t ->
  commit_block_all_during_learning now t e = (e', r) -> preempted t e e' r.
Proof.
  intros Hok Hp Hl. destruct (live_flags e Hok Hp) as [Hfatal Hflag].
  pose proof (ok_base e Hok) as Hb. pose proof (ok_live e Hok Hp) as Hlive.
  unfold live_ok in Hlive. rewrite Hl in Hlive.
  destruct Hlive as (cand & Hcand & _ & _ & Hlearn & _ & Htok & Hwork & _).
  unfold commit_block_all_during_learning. rewrite run_get, run_lift, Hcand.
  cbn [ok_or default]. destruct (set_mode BlockAll now cand) as [blocked changed] eqn:Hset.
  rewrite run_lift. destruct changed as [ev|err]; cbn [map_err].
  2: { intros [= <- <-]. constructor. }
  rewrite run_lift. destruct (State_validate blocked) as [[]|err] eqn:Hv; cbn [map_err].
  2: { intros [= <- <-]. constructor. }
  unfold set_mode, set_mode_at in Hset. rewrite run_get in Hset.
  pose proof (mode_effect _ _ _ _ _ _ Hset) as Heff.
  apply set_mode_with_strategy_at_Ok in Hset as (g & _ & _ & Hblocked).
  assert (Hmode : mode blocked = BlockAll) by (by rewrite Hblocked).
  assert (Hrules : rules blocked = rules cand) by (by rewrite Hblocked). clear Hblocked.
  assert (Hbok : state_ok blocked).
  { eapply effect_preserves; [|exact Heff]. eapply learned_ok; [apply Hb|exact Hlearn]. }
  rewrite run_bind. unfold on_backend.
  destruct (backend_fail_closed (backend e)) as [b [[]|err]] eqn:Hfc.
  2: { rewrite !run_modify. unfold lift. intros [= <- <-]. constructor; try done.
       apply fatal_ok; auto 8 with engine. }
  apply fail_closed_blocks in Hfc. rewrite run_bind_assoc, run_bind.
  match goal with |- (match ?m with pair _ _ => _ end) = _ -> _ => destruct m as [e1 r1] eqn:Hs end.
  apply save_twice in Hs as (c & o & -> & -> & Hc & Hres & Hw & Hd); [|apply Hb].
  change (persistence (set_backend b e)) with (persistence e) in Hw.
  assert (Htokens : forall x, worker c = Some x -> tx_token (worker_transaction x) = t).
  { intros x Hx. rewrite Hw in Hx. apply worker_step_transaction in Hx as (x0 & Hx0 & <-); [|apply Hb].
    by rewrite (Hwork x0 Hx0). }
  rewrite 2 run_modify. apply (preempt_settles t blocked ev c o cand e b); try done.
Qed.

(** ** Control requests *)

Definition ack (affected : option Rule) (revision : Z) : Ack := mkAck revision affected.

Inductive controlled env request e : Engine B D -> Result ProtocolError Ack -> Prop :=
| controlled_refused error : controlled env request e e (Err error)
| controlled_commit cand evs affected e' r :
    poisoned e = false -> expected_revision request = revision (state e) -> in_flight e = false ->
    apply_control_to_candidate env request (state e) = (cand, Ok (evs, affected)) ->
    committed cand evs e e' r ->
    controlled env request e e' (r ;; Ok (ack affected (revision cand)))
| controlled_preempted t e' r :
    poisoned e = false -> expected_revision request = revision (state e) ->
    learning_persistence e = InFlight t -> is_block_all_request request = true ->
    preempted t e e' r -> controlled env request e e' (ack None <$> r).

Lemma control_candidate_ok env request s cand evs affected :
  state_ok s -> apply_control_to_candidate env request s = (cand, Ok (evs, affected)) ->
  state_ok cand.
Proof. intros Hok [Hc _]%control_request_changes. by eapply changes_preserve. Qed.

Lemma handle_control_spec env request e e' r :
  engine_ok e -> handle_control env request e = (e', r) -> controlled env request e e' r.
Proof.
  intros Hok. unfold handle_control. rewrite run_get, run_lift.
  destruct (poisoned e) eqn:Hp; cbn [fail_if]; [intros [= <- <-]; constructor|].
  rewrite run_lift. destruct (Z.eqb_spec (expected_revision request) (revision (state e))) as [Hrev|];
    cbn [negb fail_if]; [|intros [= <- <-]; constructor].
  destruct (in_flight e) eqn:Hf; unfold in_flight in Hf;
    destruct (learning_persistence e) as [|t|] eqn:Hl; try done.
  { destruct (is_block_all_request request) eqn:Hreq; [|intros [= <- <-]; constructor].
    rewrite run_bind. destruct (commit_block_all_during_learning _ _ e) as [e1 r1] eqn:Hc.
    apply preempt_spec in Hc; [|done..]. intros Hr.
    assert (e' = e1 /\ r = ack None <$> r1) as [-> ->] by (destruct r1; by injection Hr as <- <-).
    by eapply controlled_preempted. }
  all: destruct (apply_control_to_candidate env request (state e)) as [cand applied] eqn:Ha;
    rewrite run_lift; destruct applied as [[evs affected]|err]; [|intros [= <- <-]; constructor];
    pose proof (control_candidate_ok _ _ _ _ _ _ (base_state e (ok_base e Hok)) Ha) as Hcand;
    rewrite run_lift; destruct (State_validate cand) as [[]|err]; [|intros [= <- <-]; constructor];
    cbn [map_err fst snd]; rewrite run_bind; destruct (commit cand evs e) as [e1 r1] eqn:Hc;
    apply commit_spec in Hc; try (apply Hok; done); try apply Hcand;
    try (unfold in_flight; by rewrite Hl); intros Hr;
    (assert (e' = e1 /\ r = (r1 ;; Ok (ack affected (revision cand)))) as [-> ->]
       by (destruct r1 as [[]|]; by injection Hr as <- <-));
    eapply controlled_commit; try done; unfold in_flight; by rewrite Hl.
Qed.

Lemma handle_control_ok env request e e' r :
  engine_ok e -> handle_control env request e = (e', r) -> engine_ok e'.
Proof.
  intros Hok Hrun. apply handle_control_spec in Hrun; [|done].
  destruct Hrun as [|cand evs aff e' r Hp _ Hf Ha Hc|t e' r Hp _ Hl _ Hpre]; [done|..].
  - eapply committed_ok; [..|exact Hc]; try done. eapply control_candidate_ok; [|exact Ha]. apply Hok.
  - by destruct Hpre.
Qed.

(** ** Learning *)

Lemma quota_ok v e : engine_ok e -> engine_ok (set_quota_skipped v e).
Proof. intros [Hb ? ? ? ? ? ? ?]. split; try done. auto with engine. Qed.

Lemma events_ok v e : engine_ok e -> engine_ok (set_events v e).
Proof. intros [Hb ? ? ? ? ? ? ?]. split; try done. auto with engine. Qed.

Lemma pause_ok e :
  engine_ok e -> poisoned e = false -> in_flight e = false ->
  engine_ok (set_learning_persistence LearningPaused e).
Proof.
  intros Hok Hp Hf. destruct (live_flags e Hok Hp).
  pose proof (settled e (ok_live e Hok Hp) Hf) as (? & ? & ? & ? & ? & ?).
  apply settled_ok; engine_done; [auto with engine|by apply Hok].
Qed.

(** The learning thread takes a transaction; it may exit before persisting it. *)
Definition start_learning supply generation endpoints (exits : bool) e
    : Engine B D * Result ProtocolError (option ApplicationLearningTransaction) :=
  let '(e, r) := prepare_application_learning supply generation endpoints e in
  match r with
  | Ok (Some transaction) =>
      (set_persistence (set_worker (Some (mkWorker transaction None exits)) (persistence e)) e, r)
  | _ => (e, r)
  end.

(** A transaction was taken: [e'] is [e] with the pending candidate. *)
Lemma in_flight_ok t cand evs exits e :
  engine_ok e -> poisoned e = false -> learning_persistence e = LearningActive ->
  worker (persistence e) = None -> t = next_learning_transaction e + 1 ->
  mode (state e) = Learning -> learned (learning_limits e) (state e) cand evs ->
  let e' := set_learning_persistence (InFlight t) (set_pending_events evs
    (set_pending_candidate (Some cand)
      (set_pending_admission (Some (build_application_learning_admission cand (learning_limits e)))
        (set_next_transaction t
          (set_persistence (set_reservation (Some t) (persistence e)) e))))) in
  engine_ok (set_persistence (set_worker
    (Some (mkWorker (mkTransaction t (state e) cand evs) None exits)) (persistence e')) e').
Proof.
  intros Hok Hp Hl Hw Ht Hm Hlearn e'. destruct (live_flags e Hok Hp) as [Hf Hr]. unfold e'.
  assert (Hin : in_flight e = false) by (unfold in_flight; by rewrite Hl).
  pose proof (settled e (ok_live e Hok Hp) Hin) as (_ & _ & _ & Hd & _ & _).
  pose proof (ok_base e Hok) as [Hst _ Hpol Hadm Hc Hsup].
  split; [split|..]; engine_done; try congruence.
  - intros c [= <-]. by eapply learned_ok.
  - destruct Hc as [Hcp _]. split; [done|]. cbn. intros t'. split.
    + intros [= <-]. by eexists _, _.
    + by intros (tx & x & [= <- _] & <-).
  - intros t' Ht'%Hsup. lia.
  - intros _. unfold live_ok, on_disk. engine_simpl. exists cand. split_and!; try done.
    + intros Ht'%Hsup. lia.
    + by intros x [= <-].
  - intros _. by apply Hok.
Qed.

Lemma app_step_mono limits (P : LearnedApplicationEndpoint -> Prop) out s s' :
  app_step limits P out s s' -> app_step limits (fun _ => True) out s s'.
Proof. intros []; [by eapply app_step_template|by eapply app_step_endpoint]. Qed.

Lemma learning_batch supply endpoints max limits s s' outs :
  max < USIZE_MAX ->
  learn_new_application_endpoints_with_limits supply endpoints max limits s = (s', Ok outs) ->
  learned limits s s' (omap outcome_event outs).
Proof.
  intros Hmax (new & Htr & _ & Hnew)%learn_new_applications_trace; [|done].
  rewrite (Hnew _ eq_refl). exists new. split; [|done].
  eapply trace_mono; [|exact Htr]. apply app_step_mono.
Qed.

Lemma reserve_free t (c : PersistenceCoordinator D) :
  coordinator_ok c -> worker c = None ->
  reserve_learning t c = (set_reservation (Some t) c, Ok t).
Proof.
  intros [Hp Hres] Hw. unfold reserve_learning. rewrite run_get, run_lift, Hp. cbn [fail_if].
  rewrite run_lift. destruct (learning_reservation c) as [t'|] eqn:Hr.
  - destruct (proj1 (Hres t') eq_refl) as (? & ? & ? & _). congruence.
  - cbn [is_some fail_if]. by rewrite run_modify.
Qed.

Lemma start_learning_ok supply generation endpoints exits e e' r :
  engine_ok e -> worker (persistence e) = None ->
  start_learning supply generation endpoints exits e = (e', r) ->
  engine_ok e' /\ poisoned e' = poisoned e.
Proof.
  intros Hok Hw. unfold start_learning, prepare_application_learning. rewrite run_get.
  destruct (_ || _) eqn:Hguard; [by intros [= <- <-]|].
  rewrite !orb_false_iff in Hguard. destruct Hguard as [[[Hp Hl] Hm] _].
  rewrite negb_false_iff, eqb_true in Hl. rewrite negb_false_iff, eqb_true in Hm.
  destruct (learn_new_application_endpoints_with_limits _ _ _ _ _) as [cand outs] eqn:Hlearn.
  rewrite run_lift. destruct outs as [outs|err]; cbn [map_err]; [|by intros [= <- <-]].
  apply learning_batch in Hlearn; [|done].
  rewrite run_modify. unfold record_learning_quota_skipped at 1.
  set (v := Nat.iter _ _ _). set (e0 := set_quota_skipped v e).
  assert (Hok0 : engine_ok e0) by (by apply quota_ok).
  destruct (bool_decide _); [by intros [= <- <-]|].
  destruct (State_validate cand) as [[]|err].
  2: { destruct err; unfold lift; try (by intros [= <- <-]).
       rewrite run_modify. intros [= <- <-]. split; [|done]. apply pause_ok; try done.
       unfold in_flight. change (learning_persistence e0) with (learning_persistence e). by rewrite Hl. }
  rewrite run_lift. destruct (fail_if _ _); [|by intros [= <- <-]].
  rewrite run_lift. destruct (u64_checked_add _ _) as [t|] eqn:Ht; cbn [ok_or]; [|by intros [= <- <-]].
  apply u64_checked_add_Some in Ht as [Ht _].
  rewrite run_bind. change (persistence e0) with (persistence e).
  rewrite reserve_free by (done || apply Hok). rewrite !run_modify.
  cbv beta iota delta [mret ST_ret]. intros [= <- <-].
  split; [by apply (in_flight_ok t cand _ exits e0)|done].
Qed.

(** The learning thread moves while nobody holds the engine. *)
Definition run_worker e : Engine B D := set_persistence (worker_step (persistence e)) e.

Lemma file_moves (c c' : PersistenceCoordinator D) prev cand t evs :
  coordinator_ok c -> worker_moved c c' ->
  (forall x, worker c = Some x -> worker_transaction x = mkTransaction t prev cand evs) ->
  file_in_flight (worker c) prev cand (durable (store c)) ->
  (forall x, worker c' = Some x -> worker_transaction x = mkTransaction t prev cand evs)
  /\ file_in_flight (worker c') prev cand (durable (store c')).
Proof.
  intros Hok Hm Htx Hfile. destruct Hm as [_ -> |tx Hw -> |tx o d Hw -> Hd]; [done|..];
    rewrite Hw in Hfile; cbn [file_in_flight] in Hfile; cbn [worker store].
  - done.
  - specialize (Htx _ Hw). cbn in Htx. subst tx. split; [by intros x [= <-]|].
    rewrite Hfile in Hd. destruct o; cbn in *; naive_solver.
Qed.

Lemma run_worker_ok e : engine_ok e -> engine_ok (run_worker e).
Proof.
  intros Hok. pose proof (base_coordinator e (ok_base e Hok)) as Hc.
  pose proof (worker_step_moved _ Hc) as Hm.
  destruct (worker_moved_ok _ _ Hc Hm) as [Hc' Hres'].
  pose proof Hok as [Hb Hf Hr Hl Hk Hq Hbl Hres]. unfold run_worker.
  split; engine_done; [auto with engine| |].
  - intros Hp. specialize (Hl Hp). unfold live_ok, on_disk in *. engine_simpl.
    destruct (learning_persistence e) as [|t|] eqn:Hlp.
    2: { destruct Hl as (cand & ? & ? & ? & ? & ? & ? & Htx & Hfile). exists cand.
         destruct (file_moves _ _ _ _ _ _ Hc Hm Htx Hfile) as [Htx' Hfile']. by split_and!. }
    all: destruct (settled e (ok_live e Hok Hp)) as (_ & _ & _ & _ & _ & Hi);
      [unfold in_flight; by rewrite Hlp|by rewrite idle_step].
  - intros Hf' Hr'. destruct (Hres Hf' Hr') as (? & ? & Hnone). unfold on_disk.
    rewrite idle_step by (by apply unreserved_idle). done.
Qed.

(** The learning thread hands its transaction back, and drops its reservation. *)
Definition finish_learning e : Engine B D * Result ProtocolError Z :=
  match worker (persistence e) with
  | Some (mkWorker transaction (Some outcome) _) =>
      let '(e, r) := finalize_application_learning transaction outcome e in
      (set_persistence (set_worker None
         (cancel_learning_reservation (tx_token transaction) (persistence e))) e, r)
  | _ => (e, Ok 0)
  end.

(** How a transaction ends; in particular its base state is never lost. *)
Inductive finalized tx (o : LearningStoreOutcome) e : Engine B D -> Result ProtocolError Z -> Prop :=
| finalized_superseded :
    superseded_learning_transaction e = Some (tx_token tx) -> (poisoned e = false -> in_flight e = false) ->
    finalized tx o e (set_superseded None e) (Ok 0)
| finalized_locked error : poisoned e = true -> finalized tx o e e (Err error)
| finalized_saved :
    poisoned e = false -> learning_persistence e = InFlight (tx_token tx) ->
    tx_previous tx = state e -> o = Saved ->
    finalized tx o e
      (publish_all (tx_events tx) (clear_counters (set_learning_persistence LearningActive
        (replace_state (tx_candidate tx) e)))) (Ok (zlen (tx_events tx)))
| finalized_retained :
    poisoned e = false -> learning_persistence e = InFlight (tx_token tx) -> o = PreviousRetained ->
    finalized tx o e
      (set_learning_persistence LearningPaused (clear_pending_application_learning e)) (Ok 0)
| finalized_unsafe e' error :
    poisoned e = false -> learning_persistence e = InFlight (tx_token tx) -> o = Unsafe ->
    emergency_outcome (tx_candidate tx)
      (Z.max (revision (state e)) (revision (tx_candidate tx))) (persistence e) e' ->
    finalized tx o e e' (Err error).

Lemma finalize_spec tx o exits e e' r :
  engine_ok e -> worker (persistence e) = Some (mkWorker tx (Some o) exits) ->
  finalize_application_learning tx o e = (e', r) -> finalized tx o e e' r.
Proof.
  intros Hok Hw. unfold finalize_application_learning. rewrite run_get.
  destruct (superseded_learning_transaction e ==? Some (tx_token tx)) eqn:Hsup.
  { rewrite eqb_true in Hsup. rewrite run_modify. intros [= <- <-]. constructor; [done|].
    intros Hp. pose proof (ok_live e Hok Hp) as Hl. unfold live_ok in Hl. unfold in_flight.
    destruct (learning_persistence e) as [|t|]; try done.
    destruct Hl as (cand & _ & _ & _ & _ & Hne & _ & Htx & _).
    specialize (Htx _ Hw). cbn in Htx. subst tx. done. }
  destruct (fatal e || poisoned e) eqn:Hfp.
  { unfold emergency_error. rewrite run_get. unfold lift. intros [= <- <-]. constructor.
    apply orb_true_iff in Hfp as [Hf|]; [by apply Hok|done]. }
  apply orb_false_iff in Hfp as [_ Hp].
  pose proof (ok_live e Hok Hp) as Hl. unfold live_ok in Hl.
  destruct (learning_persistence e) as [|t|] eqn:Hlp.
  1,3: destruct Hl as (_ & _ & _ & _ & Hx); destruct (Hx _ Hw) as [Hx' _]; cbn in Hx';
    by rewrite Hx', eqb_refl in Hsup.
  destruct Hl as (cand & Hcand & _ & Hm & Hlearn & _ & _ & Htx & _).
  specialize (Htx _ Hw). cbn [worker_transaction] in Htx.
  rewrite Htx. cbn [tx_token tx_previous tx_candidate tx_events]. rewrite !eqb_refl. cbn [negb orb].
  destruct o; rewrite ?run_modify.
  - cbv beta iota delta [mret ST_ret]. intros [= <- <-]. rewrite Htx in *. by apply finalized_saved.
  - cbv beta iota delta [mret ST_ret]. intros [= <- <-]. by apply finalized_retained.
  - intros (err & -> & Hout)%emergency_then_error; [|apply Hok|].
    + rewrite Hcand in Hout. apply finalized_unsafe; try done.
    + pose proof (state_ok_revision _ (base_state e (ok_base e Hok))). lia.
Qed.

Lemma finished_unreserved tx o x (c : PersistenceCoordinator D) :
  coordinator_ok c -> worker c = Some (mkWorker tx (Some o) x) -> learning_reservation c = None.
Proof.
  intros [_ Hres] Hw. destruct (learning_reservation c) as [t|] eqn:Hr; [|done].
  destruct (proj1 (Hres t) eq_refl) as (? & ? & ? & _). congruence.
Qed.

Definition without_worker e : Engine B D :=
  set_persistence (set_worker None (persistence e)) e.

Lemma base_without_worker e :
  engine_base e -> learning_reservation (persistence e) = None -> engine_base (without_worker e).
Proof.
  intros Hb Hr. apply base_persistence; [|done]. destruct (base_coordinator e Hb) as [Hp _].
  split; [done|]. cbn. intros t. rewrite Hr. split; [done|]. by intros (? & ? & ? & _).
Qed.

Lemma drop_worker_poisoned e :
  engine_ok e -> poisoned e = true -> learning_reservation (persistence e) = None ->
  engine_ok (without_worker e).
Proof.
  intros Hok Hp Hr. pose proof Hok as [Hb ? ? ? ? ? ? Hres].
  split; [by apply base_without_worker|unfold without_worker; engine_done..].
  by intros [=]%(eq_trans (eq_sym Hp)).
Qed.

Lemma drop_worker_settled e :
  engine_base e -> poisoned e = false -> fatal e = false -> restart_required_flag e = false ->
  in_flight e = false -> (activation <> ActivationFailed -> enforces (kernel (backend e)) (state e)) ->
  pending_application_learning_candidate e = None -> pending_application_learning_admission e = None ->
  pending_application_learning_events e = [] -> on_disk e = Some (state e) ->
  learning_reservation (persistence e) = None -> engine_ok (without_worker e).
Proof.
  intros Hb Hp Hf Hr Hl Hk H1' H2' H3' Hd Hres.
  apply settled_ok; [by apply base_without_worker|unfold without_worker; engine_done..].
Qed.

Lemma finalized_ok tx o x e e' r :
  engine_ok e -> worker (persistence e) = Some (mkWorker tx (Some o) x) -> finalized tx o e e' r ->
  engine_ok (without_worker e') /\ learning_reservation (persistence e') = None.
Proof.
  intros Hok Hw Hfin. pose proof (ok_base e Hok) as Hb.
  pose proof (finished_unreserved _ _ _ _ (base_coordinator e Hb) Hw) as Hres.
  destruct Hfin as [Hsup Hlive|err Hp|Hp Hl Hprev Ho|Hp Hl Ho|e' err Hp Hl Ho Hout].
  - split; [|done]. assert (Hb' : engine_base (set_superseded None e)) by (by destruct Hb; split).
    destruct (poisoned e) eqn:Hp.
    + apply drop_worker_poisoned; try done. destruct Hok. split; try done.
      intros Hp'. change (poisoned e = false) in Hp'. congruence.
    + destruct (live_flags e Hok Hp). specialize (Hlive eq_refl).
      pose proof (settled e (ok_live e Hok Hp) Hlive) as (? & ? & ? & ? & _).
      apply drop_worker_settled; try done. by apply Hok.
  - split; [|done]. by apply drop_worker_poisoned.
  - split; [|done]. destruct (live_flags e Hok Hp).
    pose proof (ok_live e Hok Hp) as Hlive. unfold live_ok in Hlive. rewrite Hl in Hlive.
    destruct Hlive as (cand & _ & _ & Hm & Hlearn & _ & _ & Htx & Hfile).
    specialize (Htx _ Hw). destruct tx as [t prev cand' evs]. injection Htx as -> -> ->. subst o. rewrite Hw in Hfile. cbn in Hfile.
    apply drop_worker_settled; engine_done.
    + assert (state_ok cand) by (by eapply learned_ok; [apply Hb|]). auto 8 with engine.
    + intros Ha. destruct Hlearn as (outs & Htr & _).
      destruct (ok_kernel e Hok) as [|(snap & Hk & Hc)]; [done|done|by left|right].
      exists snap. split; [done|]. rewrite Hc. eapply steps_script; [apply Hb|done|exact Htr].
  - split; [|done]. destruct (live_flags e Hok Hp).
    pose proof (ok_live e Hok Hp) as Hlive. unfold live_ok in Hlive. rewrite Hl in Hlive.
    destruct Hlive as (cand & _ & _ & _ & _ & _ & _ & _ & Hfile).
    subst o. rewrite Hw in Hfile. cbn in Hfile.
    apply drop_worker_settled; engine_done; [|by apply Hok].
    apply base_learning. by destruct Hb; split.
  - destruct Hout as [Hok' [Hsame|Hnone] Hp' _ _].
    + assert (learning_reservation (persistence e') = None) by (by rewrite Hsame).
      split; [by apply drop_worker_poisoned|done].
    + split; [by apply drop_worker_poisoned|done].
Qed.

Lemma finish_learning_ok e e' r :
  engine_ok e -> finish_learning e = (e', r) -> engine_ok e'.
Proof.
  intros Hok. unfold finish_learning.
  destruct (worker (persistence e)) as [[tx [o|] x]|] eqn:Hw; [|by intros [= <- <-]..].
  destruct (finalize_application_learning tx o e) as [e1 r1] eqn:Hfin. intros [= <- <-].
  apply (finalize_spec _ _ x) in Hfin; [|done..].
  apply (finalized_ok _ _ x) in Hfin as [Hok' Hres]; [|done..].
  unfold cancel_learning_reservation. rewrite Hres. by destruct (coordinator_poisoned _).
Qed.

(** ** Monitoring and shutdown *)

(** The kernel got a policy that enforces the resident state. *)
Lemma backend_ok b e :
  engine_ok e -> enforces (kernel b) (state e) ->
  (poisoned e = true -> kernel b = Quarantined) -> engine_ok (set_backend b e).
Proof. intros [] Hk Hq. split; engine_done; [auto with engine|by auto]. Qed.

Lemma installed_ok b e :
  engine_ok e -> poisoned e = false -> kernel b = Installed (State_snapshot (state e)) ->
  engine_ok (set_backend b e).
Proof. intros Hok Hp Hk. apply backend_ok; [done|right; eauto|congruence]. Qed.

Lemma quarantined_ok b e : engine_ok e -> kernel b = Quarantined -> engine_ok (set_backend b e).
Proof. intros Hok Hk. apply backend_ok; [done|by left|done]. Qed.

Inductive repaired expected e : Engine B D -> Result ProtocolError bool -> Prop :=
| repaired_refused error : poisoned e = true -> repaired expected e e (Err error)
| repaired_stale : revision (state e) <> expected -> repaired expected e e (Ok false)
| repaired_installed b :
    poisoned e = false -> kernel b = Installed (State_snapshot (state e)) ->
    repaired expected e (clear_counters (set_backend b e)) (Ok true)
| repaired_emergency e' error :
    poisoned e = false ->
    emergency_outcome (default (state e) (pending_application_learning_candidate e))
      (revision (state e)) (persistence e) e' ->
    repaired expected e e' (Err error).

Lemma repair_spec expected e e' r :
  engine_ok e -> repair_policy expected e = (e', r) -> repaired expected e e' r.
Proof.
  intros Hok. unfold repair_policy. rewrite run_get. destruct (poisoned e) eqn:Hp.
  { unfold emergency_error. rewrite run_get. unfold lift. intros [= <- <-]. by constructor. }
  destruct (live_flags e Hok Hp) as [Hf Hr]. unfold restart_required. rewrite Hf, Hr. cbn [orb].
  destruct (Z.eqb_spec (revision (state e)) expected) as [|Hne]; cbn [negb].
  2: { intros [= <- <-]. by constructor. }
  rewrite run_bind. unfold on_backend.
  destruct (backend_apply (State_snapshot (state e)) (backend e)) as [b [[]|err]] eqn:Ha.
  - apply apply_installs in Ha. rewrite run_modify. intros [= <- <-]. by constructor.
  - intros (err' & -> & Hout)%emergency_then_error; [by apply repaired_emergency|..].
    + auto with engine.
    + apply (state_ok_revision _ (base_state e (ok_base e Hok))).
Qed.

Lemma repair_ok expected e e' r :
  engine_ok e -> repair_policy expected e = (e', r) -> engine_ok e'.
Proof.
  intros Hok Hrun. apply repair_spec in Hrun; [|done]. destruct Hrun as [| |b Hp Hk|e' err Hp Hout].
  - done.
  - done.
  - by apply events_ok, installed_ok.
  - apply Hout.
Qed.

Lemma runtime_failure_ok e e' r :
  engine_ok e -> quarantine_after_runtime_failure e = (e', r) ->
  engine_ok e' /\ poisoned e' = true
  /\ (activation = OnTime \/ poisoned e = false \/ startup_policy e = Pending ->
      fatal e' = false -> kernel (backend e') = Quarantined).
Proof.
  intros Hok. pose proof (ok_base e Hok) as Hb.
  unfold quarantine_after_runtime_failure. rewrite run_get.
  destruct (startup_policy e ==? Pending) eqn:Hs.
  - rewrite eqb_true in Hs. rewrite !run_modify, run_bind. unfold on_backend. engine_simpl.
    destruct (backend_fail_closed (backend e)) as [b [[]|err]] eqn:Hc.
    + apply fail_closed_blocks in Hc. intros [= <- <-]. split_and!; [|done..].
      split; [auto 8 with engine|engine_done..]; try congruence; [by left|by destruct Hok].
    + unfold modify. intros [= <- <-]. split_and!; [|done..]. apply fatal_ok; auto 8 with engine.
  - destruct (negb (poisoned e) && negb (fatal e)) eqn:Hpf.
    + intros [_ Hout]%emergency_spec; [|done|apply (state_ok_revision _ (base_state e Hb))].
      by destruct Hout.
    + intros [= <- <-]. assert (Hp : poisoned e = true).
      { destruct (poisoned e) eqn:E; [done|]. destruct (live_flags e Hok E) as [Hf _].
        by rewrite Hf in Hpf. }
      split_and!; try done. intros [Ha|[|Hpend]] Hf; [by apply Hok|congruence|].
      by rewrite Hpend in Hs.
Qed.

Lemma engine_poison_ok e e' r :
  engine_ok e -> quarantine_after_engine_poison e = (e', r) ->
  engine_ok e' /\ fatal e' = true /\ on_disk e' = on_disk e.
Proof.
  intros Hok. pose proof (ok_base e Hok) as Hb. unfold quarantine_after_engine_poison.
  rewrite !run_modify, run_bind. unfold on_backend. destruct (backend_fail_closed _) as [b r1].
  intros [= <- <-]. split_and!; [|done..]. apply fatal_ok; auto 10 with engine.
Qed.

Lemma shutdown_ok e e' r :
  engine_ok e -> install_shutdown_quarantine e = (e', r) ->
  engine_ok e' /\ state e' = state e /\ on_disk e' = on_disk e
  /\ (r = Ok tt -> kernel (backend e') = Quarantined) /\ (r <> Ok tt -> fatal e' = true).
Proof.
  intros Hok. pose proof (ok_base e Hok) as Hb. unfold install_shutdown_quarantine.
  rewrite run_bind. unfold on_backend.
  destruct (backend_fail_closed (backend e)) as [b [[]|err]] eqn:Hc.
  - apply fail_closed_blocks in Hc. unfold modify. intros [= <- <-]. split_and!; try done.
    by apply events_ok, quarantined_ok.
  - rewrite !run_modify. unfold lift. intros [= <- <-]. split_and!; try done.
    apply fatal_ok; auto 8 with engine.
Qed.

Lemma admission_ok expected generation endpoint e e' r :
  engine_ok e -> application_learning_queue_admission expected generation endpoint e = (e', r) ->
  engine_ok e' /\ poisoned e' = poisoned e.
Proof.
  intros Hok. unfold application_learning_queue_admission. rewrite run_get.
  do 3 (rewrite run_lift; destruct (fail_if _ _); [|by intros [= <- <-]]).
  destruct (learning_persistence e) as [|t|]; [..|by intros [= <- <-]].
  - rewrite run_mret, run_lift. destruct (map_err _ _) as [[]|]; try (by intros [= <- <-]).
    rewrite run_modify. intros [= <- <-]. split; [by apply quota_ok|done].
  - rewrite run_lift. destruct (ok_or _ _); [|by intros [= <- <-]].
    rewrite run_lift. destruct (map_err _ _) as [[]|]; try (by intros [= <- <-]).
    rewrite run_modify. intros [= <- <-]. split; [by apply quota_ok|done].
Qed.

(** ** Runs *)

(** What can happen to the engine.  The operations of the daemon's threads take
    the engine's lock; the learning thread writes the state file without it. *)
Inductive EngineOp : Type :=
| Control (env : ControlEnv) (request : ControlRequest)
| StartLearning (supply : Supply) (generation : Z) (endpoints : list LearnedApplicationEndpoint)
    (exits : bool)
| RunWorker
| FinishLearning
| PublishCounters (now : DateTime) (expected : Z) (counters : FirewallCounters)
| Repair (expected : Z)
| RuntimeFailure
| EnginePoison
| Shutdown
| Admission (expected : Mode) (generation : Z) (endpoint : LearnedApplicationEndpoint)
| OnBus (bus : EventBus -> EventBus).

Definition engine_step (op : EngineOp) e : Engine B D :=
  match op with
  | Control env request => (handle_control env request e).1
  | StartLearning supply generation endpoints exits =>
      match worker (persistence e) with
      | None => (start_learning supply generation endpoints exits e).1
      | Some _ => e
      end
  | RunWorker => run_worker e
  | FinishLearning => (finish_learning e).1
  | PublishCounters now expected counters => (publish_counters_if_current now expected counters e).1
  | Repair expected => (repair_policy expected e).1
  | RuntimeFailure => (quarantine_after_runtime_failure e).1
  | EnginePoison => (quarantine_after_engine_poison e).1
  | Shutdown => (install_shutdown_quarantine e).1
  | Admission expected generation endpoint =>
      (application_learning_queue_admission expected generation endpoint e).1
  | OnBus bus => set_events (bus (events e)) e
  end.

Definition engine_run (ops : list EngineOp) e : Engine B D :=
  foldl (fun e op => engine_step op e) e ops.

Lemma engine_step_ok op e : engine_ok e -> engine_ok (engine_step op e).
Proof.
  intros Hok. destruct op; cbn [engine_step].
  - destruct (handle_control env request e) eqn:E. by eapply handle_control_ok.
  - destruct (worker (persistence e)) eqn:Hw; [done|].
    destruct (start_learning _ _ _ _ e) eqn:E. by eapply start_learning_ok.
  - by apply run_worker_ok.
  - destruct (finish_learning e) eqn:E. by eapply finish_learning_ok.
  - unfold publish_counters_if_current. destruct (_ || _); [done|by apply events_ok].
  - destruct (repair_policy expected e) eqn:E. by eapply repair_ok.
  - destruct (quarantine_after_runtime_failure e) eqn:E. by eapply runtime_failure_ok.
  - destruct (quarantine_after_engine_poison e) eqn:E. by eapply engine_poison_ok.
  - destruct (install_shutdown_quarantine e) eqn:E. by eapply shutdown_ok.
  - destruct (application_learning_queue_admission _ _ _ e) eqn:E. by eapply admission_ok.
  - by apply events_ok.
Qed.

(** No operation unlocks the engine. *)
Lemma step_locked op e : engine_ok e -> poisoned e = true -> poisoned (engine_step op e) = true.
Proof.
  intros Hok Hp. destruct op; cbn [engine_step].
  - destruct (handle_control env request e) as [e' r] eqn:E.
    apply handle_control_spec in E; [|done]. destruct E; [done|congruence..].
  - destruct (worker (persistence e)) eqn:Hw; [done|].
    destruct (start_learning _ _ _ _ e) eqn:E. apply start_learning_ok in E as [_ Hs]; [|done..].
    cbn. congruence.
  - done.
  - unfold finish_learning. destruct (worker (persistence e)) as [[tx [o|] x]|] eqn:Hw; [|done..].
    destruct (finalize_application_learning tx o e) as [e1 r1] eqn:Hfin.
    apply (finalize_spec _ _ x) in Hfin; [|done..]. change (poisoned e1 = true).
    destruct Hfin; done || congruence.
  - unfold publish_counters_if_current. by destruct (_ || _).
  - destruct (repair_policy expected e) as [e' r] eqn:E.
    apply repair_spec in E; [|done]. destruct E; done || congruence.
  - destruct (quarantine_after_runtime_failure e) eqn:E. by eapply runtime_failure_ok.
  - unfold quarantine_after_engine_poison. rewrite !run_modify, run_bind. unfold on_backend.
    by destruct (backend_fail_closed _).
  - unfold install_shutdown_quarantine. rewrite run_bind. unfold on_backend.
    by destruct (backend_fail_closed _) as [b [[]|]].
  - destruct (application_learning_queue_admission _ _ _ e) eqn:E.
    apply admission_ok in E as [_ Hs]; [|done]. cbn. congruence.
  - done.
Qed.

Lemma engine_run_ok ops : forall e, engine_ok e -> engine_ok (engine_run ops e).
Proof. induction ops as [|op ops IH]; intros e Hok; [done|]. by apply IH, engine_step_ok. Qed.
End Safety.

Arguments engine_ok {B D _ _ _ _ _} activation e.

(** ** Activation *)

Section Activated.
Context {B D : Type} `{BackendLaws B} `{StoreLaws D} `{IpNetLib} `{JsonLib}.
Implicit Types (e : Engine B D).

(** What an activation of [e] with result [r] makes of the history [a]. *)
Definition activated_as (a : Activation) e {E} (r : Result E unit) : Activation :=
  match r with
  | Err _ => ActivationFailed
  | Ok _ =>
      if poisoned e && (startup_policy e ==? Pending) && (a ==? OnTime) then AfterFailure else a
  end.

Lemma activate_ok a e e' r :
  engine_ok a e -> activate_startup_policy e = (e', r) -> engine_ok (activated_as a e r) e'.
Proof.
  intros Hok. unfold activate_startup_policy. rewrite run_get. unfold activated_as.
  destruct (startup_policy e) eqn:Hs.
  2: { change (Active ==? Active) with true. change (Active ==? Pending) with false.
       rewrite andb_false_r. by intros [= <- <-]. }
  change (Pending ==? Active) with false. change (Pending ==? Pending) with true. cbv iota.
  rewrite run_bind. unfold on_backend.
  destruct (backend_apply (State_snapshot (state e)) (backend e)) as [b [[]|err]] eqn:Ha.
  - apply apply_installs in Ha. unfold modify. intros [= <- <-].
    pose proof (ok_base e Hok) as Hb. destruct Hok as [_ ? ? ? ? ? ? ?].
    split; [by apply base_startup, base_backend|try done..].
    + intros _ _. right. eexists. by split.
    + intros _ Hp. change (poisoned e = true) in Hp. rewrite Hp. by destruct a.
    + intros _ Hp. change (poisoned e = true) in Hp. rewrite Hp. by destruct a.
  - rewrite run_bind. destruct (backend_fail_closed _) as [b' r'].
    unfold lift. intros [= <- <-].
    pose proof (ok_base e Hok) as Hb. destruct Hok as [_ ? ? ? ? ? ? ?].
    split; try done. by do 2 apply base_backend.
Qed.

Lemma activate_keeps_lock e e' r :
  activate_startup_policy e = (e', r) -> poisoned e' = poisoned e.
Proof.
  unfold activate_startup_policy. rewrite run_get. destruct (_ ==? _); [by intros [= <- <-]|].
  rewrite run_bind. unfold on_backend at 1. destruct (backend_apply _ _) as [b [[]|err]].
  - by intros [= <- <-].
  - rewrite run_bind. unfold on_backend. destruct (backend_fail_closed _). by intros [= <- <-].
Qed.

(** Sound, whatever the history of the activation. *)
Definition engine_sound e : Prop := exists a, engine_ok a e.

Lemma sound_base e : engine_sound e -> engine_base e.
Proof. intros [a Hok]. apply Hok. Qed.

Lemma sound_step op e : engine_sound e -> engine_sound (engine_step op e).
Proof. intros [a Hok]. exists a. by apply engine_step_ok. Qed.

Lemma sound_activate e e' r :
  engine_sound e -> activate_startup_policy e = (e', r) -> engine_sound e'.
Proof. intros [a Hok] Ha. eexists. by eapply activate_ok. Qed.
End Activated.
