(* ===== verification/EngineRuns.v ===== *)
(** * The engine from start to stop

    Start-up, and what holds in every engine that any sequence of operations
    leads to from there.  The start-up policy may be activated at any moment of a
    run, with any outcome. *)

From S2P Require Import Prelude Text Net Application Model State StateFacts StateLearning.
From S2P Require Import StateLearningFacts Policy Learning Snapshots Marks Nftables Decision.
From S2P Require Import Protocol Bus Pinning Storage Engine EngineLearning EngineControl EngineLaws.
From S2P Require Import EngineSafety.
Local Open Scope Z_scope.

Section Runs.
Context {B D : Type} `{BackendLaws B} `{StoreLaws D} `{IpNetLib} `{JsonLib}.
Implicit Types (e : Engine B D).

(** ** Start-up *)

Lemma template_app_step limits out s s' :
  template_step out s s' -> app_step limits (fun _ => True) out s s'.
Proof. intros [(key & Hsp & Hk) Hstep]. by eapply app_step_template. Qed.

(** The epoch is new, and everything else the operator chose is kept. *)
Definition restarted (s s' : State) : Prop :=
  flow_generation s' = flow_generation s + 1 /\ mode s' = mode s
  /\ State.enforcement_strategy s' = State.enforcement_strategy s /\ rules s ⊆ rules s'.

Lemma rotate_startup_Ok s s' u :
  rotate_startup_flow_generation s = (s', Ok u) ->
  s' = set_flow_generation (flow_generation s + 1) s
  /\ flow_generation s + 1 <= MAX_FLOW_GENERATION.
Proof.
  unfold rotate_startup_flow_generation. rewrite run_get, run_lift_Ok.
  intros (g & Hg%ok_or_Ok & Hrot). apply map_err_st_Ok, rotate_flow_generation_Ok in Hrot as (Hd & _ & ->).
  destruct (_ <=? U32_MAX); [|done]. unfold option_filter in Hg.
  destruct (_ <=? MAX_FLOW_GENERATION) eqn:Hle; [|done]. injection Hg as <-.
  split; [done|lia].
Qed.

Lemma migrate_restarted supply s s1 s2 u outs :
  state_ok s -> rotate_startup_flow_generation s = (s1, Ok u) ->
  ensure_application_group_templates supply MAX_RULES s1 = (s2, Ok outs) ->
  state_ok s2 /\ restarted s s2.
Proof.
  intros Hok [-> Hg]%rotate_startup_Ok (new & Htr & _)%ensure_templates_trace.
  apply (trace_mono _ (app_step LearningLimits_default (fun _ => True))) in Htr;
    [|intros; by apply template_app_step].
  pose proof (steps_frame _ _ _ _ _ Htr) as (Hm & Hgen & Hst & _ & _ & Hsub).
  split; [|by split_and!]. eapply steps_preserve; [|exact Htr].
  destruct Hok. split; cbn; try done. lia.
Qed.

Definition started (file : option State) (s' : State) : Prop :=
  match file with
  | Some s => restarted s s'
  | None => mode s' = Learning /\ rules s' = ∅
  end.

Lemma first_start now s1 s2 ev u :
  set_mode Learning now State_new = (s1, Ok ev) -> rotate_startup_flow_generation s1 = (s2, Ok u) ->
  state_ok s2 /\ started None s2.
Proof.
  unfold set_mode, set_mode_at. rewrite run_get. intros Hm [-> Hg]%rotate_startup_Ok.
  pose proof (effect_preserves _ _ _ _ State_new_ok (mode_effect _ _ _ _ _ _ Hm)) as Hok.
  apply set_mode_with_strategy_at_Ok in Hm as (g & _ & _ & ->).
  split; [|done]. destruct Hok. split; cbn in *; try done. lia.
Qed.

(** Which errors of the constructor report that the kernel is not blocked. *)
Definition quarantine_failed (error : LoadError) : Prop :=
  match error with
  | QuarantineFailed _ | EpochNotPersisted _ (Some _) | StateUnsafe _ (Some _) => True
  | _ => False
  end.

Definition loaded (file : option State) (b' : B) (c' : PersistenceCoordinator D)
    (r : Result LoadError State) : Prop :=
  coordinator_ok c' /\ worker c' = None
  /\ match r with
     | Ok s' => kernel b' = Quarantined /\ state_ok s' /\ durable (store c') = Some s'
                /\ started file s'
     | Err error => (kernel b' = Quarantined \/ quarantine_failed error)
                /\ (durable (store c') = file
                    \/ exists s', durable (store c') = Some s' /\ started file s')
     end.

Lemma quarantine_again_spec report (b b' : B) (c c' : PersistenceCoordinator D) (r : Result LoadError State) :
  quarantine_again report (b, c) = ((b', c'), r) ->
  c' = c /\ exists o, r = Err (report o) /\ (o = None -> kernel b' = Quarantined).
Proof.
  unfold quarantine_again. rewrite run_bind. unfold resource_backend.
  destruct (backend_fail_closed b) as [b1 [[]|err]] eqn:Hc; unfold lift; intros [= <- <- <-].
  - split; [done|]. exists None. split; [done|]. intros _. by eapply fail_closed_blocks.
  - split; [done|]. by exists (Some err).
Qed.

(** Saving the state of a start, with the reaction to a failed save. *)
Lemma save_started file s' (b b' : B) (c c' : PersistenceCoordinator D) (r : Result LoadError State) k :
  coordinator_ok c -> worker c = None -> kernel b = Quarantined -> durable (store c) = file ->
  state_ok s' -> started file s' ->
  (forall err c1 r, k err (b, c1) = ((b', c'), r) ->
     c' = c1 /\ exists error, r = Err error /\ (kernel b' = Quarantined \/ quarantine_failed error)) ->
  (saved ← resource_store (save_exclusive s');
   match saved with Ok _ => mret s' | Err err => k err end) (b, c) = ((b', c'), r) ->
  loaded file b' c' r.
Proof.
  intros Hc Hw Hk Hd Hok Hst Herr. rewrite run_bind. unfold resource_store.
  destruct (save_exclusive s' c) as [c1 r1] eqn:Hs.
  apply save_idle in Hs as (Hc1 & Hw1 & Hd1 & Hd2); [|done|intros w; by rewrite Hw].
  rewrite Hw in Hw1. destruct r1 as [[]|err].
  - intros [= <- <- <-]. split_and!; try done. by apply Hd1.
  - intros Hrun. apply Herr in Hrun as (-> & error & -> & Hq). split_and!; try done.
    rewrite <-Hd. destruct Hd2 as [Hd2|Hd2]; [by left|right]. rewrite Hd. eauto.
Qed.

Lemma load_state_spec supply now (b b' : B) (c c' : PersistenceCoordinator D) r :
  coordinator_ok c -> worker c = None -> kernel b = Quarantined ->
  load_state supply now (b, c) = ((b', c'), r) -> loaded (durable (store c)) b' c' r.
Proof.
  intros Hc Hw Hk. assert (Hidle : idle c) by (intros w; by rewrite Hw).
  unfold load_state. rewrite run_bind. unfold resource_store at 1.
  rewrite load_exclusive_run, idle_step by done.
  destruct (store_load (store c)) as [d r1] eqn:Hl.
  pose proof (load_reads _ _ _ Hl) as [Hd Hr1]. cbv beta iota.
  assert (Hstop : forall error, loaded (durable (store c)) b (set_store d c) (Err error)).
  { intros error. split_and!; try done; [by left|]. left. by rewrite <-Hd. }
  destruct r1 as [[s|]|err].
  - pose proof (load_validates _ _ _ Hl) as Hok. specialize (Hr1 _ eq_refl).
    destruct (rotate_startup_flow_generation s) as [s1 [u|e1]] eqn:Hrot; rewrite run_lift;
      [|by intros [= <- <- <-]].
    destruct (ensure_application_group_templates supply MAX_RULES s1) as [s2 [outs|e2]] eqn:Hmig;
      rewrite run_lift; cbn [map_err]; [|by intros [= <- <- <-]].
    destruct (migrate_restarted _ _ _ _ _ _ Hok Hrot Hmig) as [Hok2 Hres].
    apply save_started; try done.
    + rewrite <-Hr1. done.
    + intros err c1 r2 (-> & o & -> & Ho)%quarantine_again_spec. split; [done|]. eexists.
      split; [done|]. destruct o; [by right|left; by apply Ho].
  - specialize (Hr1 _ eq_refl).
    destruct (set_mode Learning now State_new) as [s1 [ev|e1]] eqn:Hset; rewrite run_lift;
      cbn [map_err]; [|by intros [= <- <- <-]].
    destruct (rotate_startup_flow_generation s1) as [s2 [u|e2]] eqn:Hrot; rewrite run_lift;
      [|by intros [= <- <- <-]].
    destruct (first_start _ _ _ _ _ Hset Hrot) as [Hok2 Hst]. intros Hrun.
    apply (save_started _ s2 b b' (set_store d c) c' r
             (fun err => lift (Err (InitialNotPersisted err)))); try done.
    + by rewrite <-Hr1.
    + unfold lift. intros err c1 r2 [= <- <- <-]. split; [done|]. eexists. split; [done|]. by left.
    + revert Hrun. rewrite !run_bind. destruct (resource_store _ _) as [[b1 c1] [[[]|err]|]]; done.
  - intros (-> & o & -> & Ho)%quarantine_again_spec. split_and!; try done.
    + destruct o; [by right|left; by apply Ho].
    + left. by rewrite <-Hd.
Qed.

Lemma load_engine_spec supply now bus limits (b b' : B) (c c' : PersistenceCoordinator D) r :
  coordinator_ok c -> worker c = None ->
  load_with_learning_limits supply now bus limits (b, c) = ((b', c'), r) ->
  match r with
  | Ok e => engine_ok OnTime e /\ kernel (backend e) = Quarantined /\ poisoned e = false
            /\ startup_policy e = Pending /\ on_disk e = Some (state e)
            /\ started (durable (store c)) (state e)
  | Err error => (kernel b' = Quarantined \/ quarantine_failed error)
            /\ (durable (store c') = durable (store c)
                \/ exists s', durable (store c') = Some s' /\ started (durable (store c)) s')
  end.
Proof.
  intros Hc Hw. unfold load_with_learning_limits. rewrite run_bind. unfold resource_backend.
  destruct (backend_fail_closed b) as [b1 [[]|err]] eqn:Hfc; rewrite run_lift; cbn [map_err].
  2: { intros [= <- <- <-]. split; [by right|by left]. }
  apply fail_closed_blocks in Hfc. rewrite run_bind.
  destruct (load_state supply now (b1, c)) as [[b2 c2] r2] eqn:Hl.
  apply load_state_spec in Hl as (Hc2 & Hw2 & Hr); [|done..].
  destruct r2 as [s|err]; [|by intros [= <- <- <-]].
  rewrite run_get. cbv beta iota delta [mret ST_ret]. intros [= <- <- <-]. cbn [fst snd].
  destruct Hr as (Hk & Hok & Hd & Hst). split_and!; try done.
  apply settled_ok; try done.
  - by left.
  - intros w Hx. cbn in Hx. congruence.
  - intros w Hx. cbn in Hx. congruence.
Qed.

(** ** Reachable engines *)

(** An engine that the daemon can have, with the history of its activation: it
    was loaded, and then its operations ran in any order.  Nothing keeps the
    start-up policy from being activated after a failure was reported, and an
    activation may itself fail. *)
Inductive reaches : Activation -> Engine B D -> Prop :=
| reaches_load supply now bus limits b d resources e :
    load_with_learning_limits supply now bus limits (b, Coordinator_new d) = (resources, Ok e) ->
    reaches OnTime e
| reaches_step a op e : reaches a e -> reaches a (engine_step op e)
| reaches_activate a e e' r :
    reaches a e -> activate_startup_policy e = (e', r) -> reaches (activated_as a e r) e'.

Definition reachable (e : Engine B D) : Prop := exists a, reaches a e.

Lemma reach_load supply now bus limits b d resources e :
  load_with_learning_limits supply now bus limits (b, Coordinator_new d) = (resources, Ok e) ->
  reachable e.
Proof. intros Hl. exists OnTime. by eapply reaches_load. Qed.

Lemma reach_step op e : reachable e -> reachable (engine_step op e).
Proof. intros [a Hr]. exists a. by apply reaches_step. Qed.

Lemma new_coordinator_ok (d : D) : coordinator_ok (Coordinator_new d).
Proof. split; [done|]. cbn. intros t. split; [done|]. by intros (? & ? & ? & _). Qed.

Lemma reaches_ok a e : reaches a e -> engine_ok a e.
Proof.
  induction 1 as [supply now bus limits b d [b' c'] e Hl|a op e _ IH|a e e' r _ IH Ha].
  - apply load_engine_spec in Hl as [Hok _]; [done|apply new_coordinator_ok|done].
  - by apply engine_step_ok.
  - by eapply activate_ok.
Qed.

Lemma late_is_locked e : reaches AfterFailure e -> poisoned e = true.
Proof.
  intros Hr. remember AfterFailure as a eqn:Ha.
  induction Hr as [supply now bus limits b d resources e Hl|a op e Hr IH|a e e' r Hr IH Hact].
  - done.
  - apply (step_locked (activation := a)); [by apply reaches_ok|auto].
  - destruct r as [[]|err]; [|done]. cbn [activated_as] in Ha.
    apply activate_keeps_lock in Hact as ->.
    destruct (poisoned e) eqn:Hp; [done|]. rewrite <-IH; done.
Qed.

Lemma reachable_ok e : reachable e -> engine_sound e.
Proof. intros [a Hr]. exists a. by apply reaches_ok. Qed.

(** C3: in every engine that the daemon can reach, the resident state is valid
    and the cached decision policy is the one built from it.  If the engine does
    not declare the kernel unknown and no activation of the start-up policy has
    failed (the daemon then shuts down), the kernel blocks everything or runs
    exactly the script that the resident state compiles to.  If moreover the
    engine is locked after a failure, the kernel blocks everything, unless the
    start-up policy was activated after the failure was reported: then the
    engine stays locked and the kernel may run the resident state's script. *)
Theorem kernel_follows_resident_state a e :
  reaches a e ->
  state_ok (state e) /\ application_policy e = build_application_decision_policy (state e)
  /\ (fatal e = false -> a <> ActivationFailed ->
      kernel (backend e) = Quarantined
      \/ exists snapshot, kernel (backend e) = Installed snapshot
           /\ compile snapshot = compile (State_snapshot (state e)))
  /\ (fatal e = false -> poisoned e = true -> a = OnTime -> kernel (backend e) = Quarantined)
  /\ (a = AfterFailure -> poisoned e = true).
Proof.
  intros Hr. pose proof (reaches_ok a e Hr) as Hok.
  split_and!; [apply Hok..|]. intros ->. by apply late_is_locked.
Qed.

(** The daemon asks to be restarted only into safety.  When an engine that
    knows its kernel requires a restart, the state file holds its resident
    state, which blocks everything, and no writer is left that could replace it. *)
Theorem restart_is_into_block_all e :
  reachable e -> restart_required e = true -> fatal e = false ->
  on_disk e = Some (state e) /\ mode (state e) = BlockAll
  /\ learning_reservation (persistence e) = None.
Proof.
  intros [a Hr]%reachable_ok Hreq Hf. unfold restart_required in Hreq. rewrite Hf, orb_false_r in Hreq.
  destruct (ok_resumable e Hr Hf Hreq) as (? & ? & ?). done.
Qed.


Lemma learned_changes limits s s' evs : learned limits s s' evs -> changes s s' evs.
Proof.
  intros (outs & Htr & ->). apply changes_one. apply effect_learn.
  eapply trace_mono; [|exact Htr]. apply app_step_learn_step.
Qed.

Lemma changes_snoc s1 s2 s3 evs evs' :
  changes s1 s2 evs -> effect false s2 s3 evs' -> changes s1 s3 (evs ++ evs').
Proof.
  induction 1 as [s|s1 s2' s3' e1 e2 He Hc IH]; intros He'; [by apply changes_one|].
  rewrite <-app_assoc. econstructor; [done|]. by apply IH.
Qed.

(** C4: a control request is atomic.  When it is acknowledged, it was made for
    the resident revision, the new resident state is on disk and follows from
    the old one by the events that observers receive, numbered consecutively,
    and the acknowledged revision is the new one.  When it fails, the resident
    state and the state file are unchanged, or the engine is locked with every
    packet blocked, or it declares the kernel unknown. *)
Theorem control_requests_are_atomic env request e e' r :
  reachable e -> handle_control env request e = (e', r) ->
  match r with
  | Ok acknowledged =>
      poisoned e = false /\ poisoned e' = false
      /\ expected_revision request = revision (state e)
      /\ on_disk e' = Some (state e') /\ ack_revision acknowledged = revision (state e')
      /\ enforces (kernel (backend e')) (state e')
      /\ exists evs, changes (state e) (state e') evs
          /\ consecutive (revision (state e)) evs
          /\ revision (state e') = revision (state e) + zlen evs
          /\ events e' = foldl (fun bus event => publish event bus)
                           (clear_counter_snapshot (events e)) evs
  | Err _ =>
      (state e' = state e /\ on_disk e' = on_disk e /\ poisoned e' = poisoned e)
      \/ (poisoned e' = true /\ fatal e' = true)
      \/ (poisoned e' = true /\ kernel (backend e') = Quarantined)
  end.
Proof.
  intros [a Hr]%reachable_ok Hrun. pose proof (handle_control_ok _ _ _ _ _ Hr Hrun) as Hok'.
  assert (Hlocked : poisoned e' = true -> (fatal e' = false -> kernel (backend e') = Quarantined) ->
    (poisoned e' = true /\ fatal e' = true)
    \/ (poisoned e' = true /\ kernel (backend e') = Quarantined)).
  { intros Hp Hk. destruct (fatal e'); [tauto|]. right. split; [done|]. by apply Hk. }
  apply (handle_control_spec (activation := a)) in Hrun; [|done].
  destruct Hrun as [|cand evs aff e' r Hp Hexp Hf Ha Hc|t e' r Hp Hexp Hl _ Hpre].
  - by left.
  - apply control_request_changes in Ha as [Hch _].
    pose proof (changes_revision _ _ _ Hch) as [Hrev Hcons].
    destruct Hc as [b c Hk Hd _ _|b c bus err _ Hd _ _ _|before e' err Hout].
    + cbn [mbind Result_bind]. split_and!; try done.
      * right. by eexists.
      * by exists evs.
    + left. split_and!; try done. etrans; [exact Hd|].
      by destruct (settled e (ok_live e Hr Hp) Hf) as (_ & _ & _ & Hd' & _).
    + right. by apply Hlocked; destruct Hout.
  - destruct Hpre as [err|e' err _ Hp' Hf'|e' err blocked ev _ Hp' _ _ _ Hk _
                     |e' blocked ev _ Hp' _ <- Hm Hk Hd (cand & Hcand & Heff & _) Hev _].
    + by left.
    + right. apply Hlocked; [done|congruence].
    + right. by apply Hlocked.
    + pose proof (ok_live e Hr Hp) as Hlive. unfold live_ok in Hlive. rewrite Hl in Hlive.
      destruct Hlive as (cand' & Hcand' & _ & _ & Hlearn & _).
      assert (cand' = cand) as -> by congruence.
      pose proof (changes_snoc _ _ _ _ _ (learned_changes _ _ _ _ Hlearn) Heff) as Hch.
      pose proof (changes_revision _ _ _ Hch) as [Hrev Hcons].
      cbn [fmap Result_fmap]. split_and!; try done; [by left|]. by eexists.
Qed.

(** ** The end of a learning transaction *)

(** A persisted learning transaction always finds the state it was based
    on.  Unless the engine is locked or the transaction was overtaken by a
    privileged [BlockAll], a saved transaction makes its candidate resident with
    its events published; a transaction whose previous state was kept pauses
    learning and changes nothing; and one whose outcome is unknown locks the
    engine with the candidate's rules kept and every packet blocked, unless the
    kernel is declared unknown. *)
Theorem learning_transactions_settle tx o exits e e' r :
  reachable e -> poisoned e = false ->
  worker (persistence e) = Some (mkWorker tx (Some o) exits) ->
  superseded_learning_transaction e <> Some (tx_token tx) ->
  finish_learning e = (e', r) ->
  match o with
  | Saved =>
      r = Ok (zlen (tx_events tx)) /\ state e' = tx_candidate tx
      /\ on_disk e' = Some (tx_candidate tx) /\ learning_persistence e' = LearningActive
      /\ events e' = foldl (fun bus event => publish event bus)
                       (clear_counter_snapshot (events e)) (tx_events tx)
  | PreviousRetained =>
      r = Ok 0 /\ state e' = state e /\ on_disk e' = Some (state e)
      /\ learning_persistence e' = LearningPaused
  | Unsafe =>
      is_ok r = false /\ poisoned e' = true
      /\ (fatal e' = true
          \/ (kernel (backend e') = Quarantined /\ rules (state e') = rules (tx_candidate tx)))
  end.
Proof.
  intros [a Hr]%reachable_ok Hp Hw Hsup Hrun. pose proof (finish_learning_ok _ _ _ Hr Hrun) as Hok'.
  unfold finish_learning in Hrun. rewrite Hw in Hrun.
  destruct (finalize_application_learning tx o e) as [e1 r1] eqn:Hfin. injection Hrun as <- <-.
  apply (finalize_spec (activation := a) _ _ exits) in Hfin; [|done..].
  pose proof (finalized_ok _ _ exits _ _ _ Hr Hw Hfin) as [_ Hres].
  destruct Hfin as [Hs _|err Hp'|_ _ _ -> |_ Hl -> |e1 err _ _ -> Hout].
  - done.
  - congruence.
  - pose proof (ok_live _ Hok' Hp) as Hl. split_and!; try done. apply Hl.
  - pose proof (ok_live _ Hok' Hp) as Hl'. split_and!; try done. apply Hl'.
  - destruct Hout as [_ _ Hp' Hk Hst]. split_and!; try done.
    change (fatal e1 = true \/ (kernel (backend e1) = Quarantined /\ rules (state e1)
      = rules (tx_candidate tx))).
    destruct (fatal e1) eqn:Hf; [by left|right]. destruct Hst as [|Hst]; [done|].
    split; [by apply Hk|by rewrite Hst].
Qed.

(** The steps of the learning thread. *)
Definition worker_op (op : EngineOp) : Prop := op = RunWorker \/ op = FinishLearning.

Lemma worker_ops_settled a s op e :
  worker_op op -> engine_ok a e -> poisoned e = false -> in_flight e = false -> state e = s ->
  let e' := engine_step op e in
  engine_ok a e' /\ poisoned e' = false /\ in_flight e' = false /\ state e' = s.
Proof.
  intros Hop Hok Hp Hf Hs e'. split; [by apply engine_step_ok|]. subst e'.
  destruct Hop as [-> | ->]; cbn [engine_step]; [done|]. unfold finish_learning.
  destruct (worker (persistence e)) as [[tx [o|] x]|] eqn:Hw; [|done..].
  destruct (finalize_application_learning tx o e) as [e1 r1] eqn:Hfin.
  apply (finalize_spec (activation := a) _ _ x) in Hfin; [|done..].
  destruct (settled e (ok_live e Hok Hp) Hf) as (_ & _ & _ & _ & Hsup & _).
  unfold in_flight in Hf. destruct Hfin as [_ _|err Hp'|_ Hl _ _|_ Hl _|e1 err _ Hl _ _].
  - done.
  - congruence.
  - by rewrite Hl in Hf.
  - by rewrite Hl in Hf.
  - by rewrite Hl in Hf.
Qed.

Lemma worker_ops_run a s ops : forall e,
  Forall worker_op ops -> engine_ok a e -> poisoned e = false -> in_flight e = false -> state e = s ->
  let e' := engine_run ops e in
  engine_ok a e' /\ poisoned e' = false /\ in_flight e' = false /\ state e' = s.
Proof.
  induction ops as [|op ops IH]; intros e Hops Hok Hp Hf Hs; [done|].
  apply Forall_cons in Hops as [Hop Hops].
  destruct (worker_ops_settled a s op e Hop Hok Hp Hf Hs) as (? & ? & ? & ?). by apply IH.
Qed.

(** An operator's [BlockAll] overtakes learning.  When it is acknowledged
    while a learning transaction is in flight, every packet is blocked, the
    learned rules of the transaction are resident too, and whatever the learning
    thread still does afterwards, the blocking state stays resident and on disk. *)
Theorem block_all_overtakes_learning env expected t e e' acknowledged ops :
  reachable e -> learning_persistence e = InFlight t ->
  handle_control env (RequestSetMode expected BlockAll) e = (e', Ok acknowledged) ->
  Forall worker_op ops ->
  mode (state e') = BlockAll /\ kernel (backend e') = Quarantined
  /\ (exists cand, pending_application_learning_candidate e = Some cand
       /\ rules (state e') = rules cand)
  /\ state (engine_run ops e') = state e' /\ on_disk (engine_run ops e') = Some (state e').
Proof.
  intros [a Hr]%reachable_ok Hl Hrun Hops. apply (handle_control_spec (activation := a)) in Hrun; [|done].
  inversion Hrun as [|cand evs aff e1 r _ _ Hf|t' e1 r Hp _ Hl' _ Hpre He1 Hack]; subst.
  { unfold in_flight in Hf. by rewrite Hl in Hf. }
  destruct Hpre as [| | |e' blocked ev Hok' Hp' Hf' Hst Hm Hk Hd (cand & Hcand & _ & Hrules) _ Hsup]; try done.
  subst blocked. split_and!; try done; [by exists cand|..].
  all: destruct (worker_ops_run a (state e') ops e' Hops) as (Hok & Hp2 & Hf2 & Hs2); try done.
  rewrite <-Hs2. by destruct (settled _ (ok_live _ Hok Hp2) Hf2) as (_ & _ & _ & Hd' & _).
Qed.

Lemma retained_rules a e :
  engine_ok a e -> poisoned e = false ->
  rules (state e) ⊆ rules (default (state e) (pending_application_learning_candidate e)).
Proof.
  intros Hok Hp. pose proof (ok_live e Hok Hp) as Hl. unfold live_ok in Hl.
  destruct (learning_persistence e) as [|t|].
  1,3: destruct Hl as (-> & _); done.
  destruct Hl as (cand & -> & _ & _ & (outs & Htr & _) & _). cbn [default].
  by apply (steps_frame _ _ _ _ _ Htr).
Qed.

Lemma control_failure_rules a env request e e' r :
  engine_ok a e -> poisoned e = false -> handle_control env request e = (e', r) ->
  poisoned e' = true -> fatal e' = false -> rules (state e) ⊆ rules (state e').
Proof.
  intros Hok Hp Hrun Hp' Hf'. apply (handle_control_spec (activation := a)) in Hrun; [|done].
  destruct Hrun as [|cand evs aff e' r _ _ _ _ Hc|t e' r _ _ _ _ Hpre]; [done|..].
  - destruct Hc as [b c _ _ _ _|b c bus err _ _ _ _ _|before e' err [_ _ _ _ Hst]];
    [by change (poisoned e = true) in Hp'; congruence..|].
    destruct Hst as [|Hst]; [congruence|by rewrite Hst].
  - pose proof (retained_rules a e Hok Hp) as Hret.
    destruct Hpre as [|e' err _ _ Hf|e' err blocked ev _ _ _ -> _ _ (cand & Hc & _ & Hrules)|e' blocked ev _ ?];
      [done|congruence| |congruence].
    by rewrite Hrules, Hc in *.
Qed.

Lemma finish_failure_rules a e e' r :
  engine_ok a e -> poisoned e = false -> finish_learning e = (e', r) ->
  poisoned e' = true -> fatal e' = false -> rules (state e) ⊆ rules (state e').
Proof.
  intros Hok Hp. unfold finish_learning.
  destruct (worker (persistence e)) as [[tx [o|] x]|] eqn:Hw; [|by intros [= <- <-]..].
  destruct (finalize_application_learning tx o e) as [e1 r1] eqn:Hfin. intros [= <- <-] Hp' Hf'.
  change (poisoned e1 = true) in Hp'. change (fatal e1 = false) in Hf'.
  change (rules (state e) ⊆ rules (state e1)).
  apply (finalize_spec (activation := a) _ _ x) in Hfin; [|done..].
  destruct Hfin as [_ _|err _|_ _ _ _|_ _ _|e1 err _ Hl _ [_ _ _ _ Hst]];
    [by change (poisoned e = true) in Hp'; congruence..|].
  destruct Hst as [|Hst]; [congruence|]. rewrite Hst. cbn [rules].
  pose proof (ok_live e Hok Hp) as Hlive. unfold live_ok in Hlive. rewrite Hl in Hlive.
  destruct Hlive as (cand & _ & _ & _ & (outs & Htr & _) & _ & _ & Htx & _).
  specialize (Htx _ Hw). cbn [worker_transaction] in Htx. rewrite Htx. cbn [tx_candidate].
  by apply (steps_frame _ _ _ _ _ Htr).
Qed.

(** No failure costs a rule.  Whatever operation locks an engine that knows
    its kernel, every rule that was resident before is still resident after. *)
Theorem failures_keep_every_rule op e :
  reachable e -> poisoned e = false ->
  poisoned (engine_step op e) = true -> fatal (engine_step op e) = false ->
  rules (state e) ⊆ rules (state (engine_step op e)).
Proof.
  intros [a Hr]%reachable_ok Hp Hp' Hf'. pose proof (retained_rules a e Hr Hp) as Hret.
  assert (Hemergency : forall floor c e', emergency_outcome (activation := a)
    (default (state e) (pending_application_learning_candidate e)) floor c e' ->
    fatal e' = false -> rules (state e) ⊆ rules (state e')).
  { intros floor c e' [_ _ _ _ [Hf|Hst]] Hf0; [congruence|]. by rewrite Hst. }
  destruct op; cbn [engine_step] in *.
  - destruct (handle_control env request e) eqn:Hrun. by eapply control_failure_rules.
  - destruct (worker (persistence e)) eqn:Hw; [done|]. destruct (start_learning _ _ _ _ e) eqn:Hrun.
    apply (start_learning_ok (activation := a)) in Hrun as [_ Hsame]; [cbn in *; congruence|done|done].
  - done.
  - destruct (finish_learning e) eqn:Hrun. by eapply finish_failure_rules.
  - revert Hp'. unfold publish_counters_if_current. by destruct (_ || _).
  - destruct (repair_policy expected e) eqn:Hrun. apply (repair_spec (activation := a)) in Hrun; [|done].
    destruct Hrun as [| | |e' err _ Hout]; try done. by eapply Hemergency.
  - revert Hp' Hf'. unfold quarantine_after_runtime_failure. rewrite run_get.
    destruct (startup_policy e ==? Pending).
    + rewrite !run_modify, run_bind. unfold on_backend. by destruct (backend_fail_closed _) as [b [[]|]].
    + destruct (live_flags e Hr Hp) as [-> _]. rewrite Hp. cbn [negb andb].
      destruct (enter_emergency_fail_closed (revision (state e)) e) as [e' r] eqn:Hrun.
      apply (emergency_spec (activation := a)) in Hrun as [_ Hout]; [|apply Hr|].
      * intros _. by eapply Hemergency.
      * apply (state_ok_revision _ (base_state e (ok_base e Hr))).
  - revert Hf'. unfold quarantine_after_engine_poison. rewrite !run_modify, run_bind. unfold on_backend.
    by destruct (backend_fail_closed _).
  - revert Hf' Hp'. unfold install_shutdown_quarantine. rewrite run_bind. unfold on_backend.
    by destruct (backend_fail_closed _) as [b [[]|]].
  - destruct (application_learning_queue_admission _ _ _ e) eqn:Hrun.
    apply (admission_ok (activation := a)) in Hrun as [_ Hsame]; [cbn in *; congruence|done].
  - done.
Qed.

(** Starting is safe.  A loaded engine has the kernel blocked, its state on
    disk and a new flow generation, so that no marks of an earlier run are
    trusted, and keeps mode, strategy and every rule of the file; without a file
    it starts to learn.  When loading fails, the kernel is blocked unless the
    error reports that it could not be, and the file still has every rule. *)
Theorem startup_is_quarantined supply now bus limits (b b' : B) (d : D)
    (c' : PersistenceCoordinator D) r :
  load_with_learning_limits supply now bus limits (b, Coordinator_new d) = ((b', c'), r) ->
  match r with
  | Ok e =>
      kernel (backend e) = Quarantined /\ on_disk e = Some (state e) /\ state_ok (state e)
      /\ match durable d with
         | Some s => flow_generation (state e) = flow_generation s + 1
             /\ mode (state e) = mode s
             /\ State.enforcement_strategy (state e) = State.enforcement_strategy s
             /\ rules s ⊆ rules (state e)
         | None => mode (state e) = Learning /\ rules (state e) = ∅
         end
  | Err error =>
      (kernel b' = Quarantined \/ quarantine_failed error)
      /\ forall s, durable d = Some s -> exists s', durable (store c') = Some s'
           /\ mode s' = mode s /\ rules s ⊆ rules s'
  end.
Proof.
  intros Hl. apply load_engine_spec in Hl; [|apply new_coordinator_ok|done].
  change (store (Coordinator_new d)) with d in Hl. destruct r as [e|error].
  - destruct Hl as (Hok & Hk & _ & _ & Hd & Hst). split_and!; try done. apply Hok.
  - destruct Hl as [Hk Hd]. split; [done|]. intros s Hs. rewrite Hs in Hd.
    destruct Hd as [Hd|(s' & Hd & Hst)]; [by exists s|]. exists s'.
    destruct Hst as (_ & Hm & _ & Hsub). done.
Qed.


(** C40: a failure reported before activation is forgotten by it.  When a runtime
    failure locks an engine whose start-up policy is still pending, the blocking
    policy is installed; a later activation nevertheless replaces it by the
    full policy, in an engine that stays locked. *)
Theorem activation_replaces_quarantine e e' :
  reachable e -> startup_policy e = Pending ->
  activate_startup_policy (engine_step RuntimeFailure e) = (e', Ok tt) ->
  (fatal e' = false -> kernel (backend (engine_step RuntimeFailure e)) = Quarantined)
  /\ poisoned e' = true /\ kernel (backend e') = Installed (State_snapshot (state e)).
Proof.
  intros [a Hr]%reachable_ok Hpend. cbn [engine_step].
  assert (Hstate : forall e1 r, quarantine_after_runtime_failure e = (e1, r) ->
    state e1 = state e /\ startup_policy e1 = Pending).
  { intros e1 r. unfold quarantine_after_runtime_failure. rewrite run_get, Hpend, eqb_refl.
    rewrite !run_modify, run_bind. unfold on_backend, modify.
    by destruct (backend_fail_closed _) as [b [[]|]]; intros [= <- <-]. }
  destruct (quarantine_after_runtime_failure e) as [e1 r1] eqn:Hq.
  destruct (Hstate _ _ eq_refl) as [Hs Hp1].
  apply (runtime_failure_ok (activation := a)) in Hq as (_ & Hp & Hk); [|done]. cbn [fst].
  unfold activate_startup_policy. rewrite run_get, Hp1. change (Pending ==? Active) with false.
  cbv iota. rewrite run_bind. unfold on_backend.
  destruct (backend_apply (State_snapshot (state e1)) (backend e1)) as [b [[]|err]] eqn:Ha.
  - apply apply_installs in Ha. rewrite Hs in Ha. unfold modify. intros [= <-].
    split_and!; [|done..]. intros Hf. apply Hk; [by right; right|done].
  - rewrite run_bind. by destruct (backend_fail_closed _).
Qed.
End Runs.

(** ** Concrete runs *)

#[local] Existing Instance ref_ipnet.
#[local] Existing Instance ref_json.

Definition SampleEngine : Type := Engine ScriptedBackend ScriptedStore.

Definition sample_load (backend_answers store_answers : list ScriptedAnswer)
    : Resources ScriptedBackend ScriptedStore * Result LoadError SampleEngine :=
  load_with_learning_limits sample_supply 0 EventBus_new LearningLimits_default
    (mkScriptedBackend Unspecified backend_answers,
     Coordinator_new (mkScriptedStore None store_answers)).

(** The engine of a start that succeeds. *)
Definition sample_engine (backend_answers store_answers : list ScriptedAnswer) : SampleEngine :=
  match (sample_load backend_answers store_answers).2 with
  | Ok e => e
  | Err _ =>
      mkEngine State_new LearningLimits_default 0 (build_application_decision_policy State_new)
        (build_application_learning_admission State_new LearningLimits_default) None None []
        (mkScriptedBackend Unspecified []) (Coordinator_new (mkScriptedStore None [])) EventBus_new
        NfqueueCounters_default false false false Pending LearningActive 0 None
  end.

Lemma sample_reaches backend_answers store_answers :
  is_ok (sample_load backend_answers store_answers).2 = true ->
  reaches OnTime (sample_engine backend_answers store_answers).
Proof.
  intros Hok. apply (reaches_load sample_supply 0 EventBus_new LearningLimits_default
    (mkScriptedBackend Unspecified backend_answers) (mkScriptedStore None store_answers)
    (sample_load backend_answers store_answers).1).
  unfold sample_engine, sample_load in *.
  by destruct (load_with_learning_limits _ _ _ _ _) as [resources [e|err]].
Qed.

Definition sample_start : SampleEngine := sample_engine [] [].

Lemma sample_start_reaches : reaches OnTime sample_start.
Proof. apply sample_reaches. vm_compute. reflexivity. Qed.

Lemma sample_start_reachable : reachable sample_start.
Proof. exists OnTime. apply sample_start_reaches. Qed.

Lemma reaches_run {B D : Type} `{BackendLaws B} `{StoreLaws D} `{IpNetLib} `{JsonLib} a ops :
  forall e : Engine B D, reaches a e -> reaches a (engine_run ops e).
Proof. induction ops as [|op ops IH]; intros e Hr; [done|]. by apply IH, reaches_step. Qed.

Lemma reach_run {B D : Type} `{BackendLaws B} `{StoreLaws D} `{IpNetLib} `{JsonLib} ops
    (e : Engine B D) :
  reachable e -> reachable (engine_run ops e).
Proof. intros [a Hr]. exists a. by apply reaches_run. Qed.

Definition sample_batch : EngineOp :=
  StartLearning sample_supply (flow_generation (state sample_start)) [sample_observation] false.

(** A learning transaction in flight, persisted, and settled. *)
Definition sample_in_flight : SampleEngine := engine_run [sample_batch] sample_start.
Definition sample_persisted : SampleEngine := engine_run [sample_batch; RunWorker] sample_start.
Definition sample_learned : SampleEngine :=
  engine_run [sample_batch; RunWorker; FinishLearning] sample_start.

(** A repair whose policy is refused by the kernel. *)
Definition sample_unrepaired : SampleEngine := sample_engine [Succeeds; FailsBefore] [].
Definition sample_repair : EngineOp := Repair (revision (state sample_unrepaired)).

Lemma sample_unrepaired_reachable : reachable sample_unrepaired.
Proof. exists OnTime. apply sample_reaches. vm_compute. reflexivity. Qed.

(** A failure before activation, and the activation that follows it. *)
Definition sample_failed : SampleEngine := engine_run [RuntimeFailure] sample_start.
Definition sample_late : SampleEngine := (activate_startup_policy sample_failed).1.

Lemma sample_late_reaches : reaches AfterFailure sample_late.
Proof.
  destruct (activate_startup_policy sample_failed) as [e' r] eqn:Ha.
  assert (Has : activated_as OnTime sample_failed r = AfterFailure).
  { change r with (e', r).2. rewrite <-Ha. vm_compute. reflexivity. }
  unfold sample_late. rewrite Ha, <-Has. cbn [fst].
  apply (reaches_activate OnTime sample_failed e' r); [|exact Ha].
  apply reaches_run, sample_start_reaches.
Qed.

Lemma kernel_follows_resident_state_witness :
  (btree_len (rules (state sample_learned)) = 2 /\ state_ok (state sample_learned))
  /\ kernel (backend sample_failed) = Quarantined
  /\ enforces (kernel (backend sample_late)) (state sample_late) /\ poisoned sample_late = true.
Proof.
  split; [split; [vm_compute; reflexivity|]|split; [|split]].
  - apply (kernel_follows_resident_state OnTime sample_learned).
    apply reaches_run, sample_start_reaches.
  - apply (kernel_follows_resident_state OnTime sample_failed);
      [apply reaches_run, sample_start_reaches|vm_compute; reflexivity..].
  - apply (kernel_follows_resident_state AfterFailure sample_late sample_late_reaches);
      [vm_compute; reflexivity|discriminate].
  - apply (kernel_follows_resident_state AfterFailure sample_late sample_late_reaches). reflexivity.
Defined.

Lemma restart_is_into_block_all_witness :
  on_disk (engine_step sample_repair sample_unrepaired)
    = Some (state (engine_step sample_repair sample_unrepaired)).
Proof.
  apply (restart_is_into_block_all (engine_step sample_repair sample_unrepaired)).
  - apply reach_step, sample_unrepaired_reachable.
  - vm_compute. reflexivity.
  - vm_compute. reflexivity.
Defined.


Definition sample_env : ControlEnv := mkControlEnv sample_supply (fun _ => sample_fs).

Definition sample_block_all (e : SampleEngine) : SampleEngine * Result ProtocolError Ack :=
  handle_control sample_env (RequestSetMode (revision (state e)) BlockAll) e.

Lemma control_requests_are_atomic_witness :
  mode (state (sample_block_all sample_start).1) = BlockAll
  /\ on_disk (sample_block_all sample_start).1 = Some (state (sample_block_all sample_start).1).
Proof.
  split; [vm_compute; reflexivity|].
  assert (Hok : is_ok (sample_block_all sample_start).2 = true) by (vm_compute; reflexivity).
  destruct (sample_block_all sample_start) as [e' [acknowledged|err]] eqn:Hrun; [|discriminate Hok].
  unfold sample_block_all in Hrun.
  apply (control_requests_are_atomic _ _ sample_start e' (Ok acknowledged)
           sample_start_reachable Hrun).
Defined.

Lemma learning_transactions_settle_witness :
  exists tx, worker (persistence sample_persisted) = Some (mkWorker tx (Some Saved) false)
  /\ state sample_learned = tx_candidate tx.
Proof.
  destruct (worker (persistence sample_persisted)) as [[tx [[]|] []]|] eqn:Hw;
    try (vm_compute in Hw; discriminate Hw).
  exists tx. split; [reflexivity|].
  destruct (finish_learning sample_persisted) as [e' r] eqn:Hrun.
  assert (Hsame : sample_learned = e')
    by (change sample_learned with ((finish_learning sample_persisted).1); by rewrite Hrun).
  rewrite Hsame.
  refine (proj1 (proj2 (learning_transactions_settle tx Saved false sample_persisted e' r _ _ Hw _ Hrun))).
  - apply reach_run, sample_start_reachable.
  - vm_compute. reflexivity.
  - vm_compute. discriminate.
Defined.

Lemma block_all_overtakes_learning_witness :
  let e' := (sample_block_all sample_in_flight).1 in
  btree_len (rules (state e')) = 2 /\ on_disk (engine_run [RunWorker; FinishLearning] e') = Some (state e').
Proof.
  cbv zeta. split; [vm_compute; reflexivity|].
  assert (Hok : is_ok (sample_block_all sample_in_flight).2 = true) by (vm_compute; reflexivity).
  destruct (sample_block_all sample_in_flight) as [e' [acknowledged|err]] eqn:Hrun; [|discriminate Hok].
  unfold sample_block_all in Hrun.
  refine (proj2 (proj2 (proj2 (proj2 (block_all_overtakes_learning sample_env _ 1 sample_in_flight e'
    acknowledged [RunWorker; FinishLearning] _ _ Hrun _))))).
  - apply reach_run, sample_start_reachable.
  - vm_compute. reflexivity.
  - repeat constructor; unfold worker_op; tauto.
Defined.

Lemma failures_keep_every_rule_witness :
  rules (state sample_unrepaired) ⊆ rules (state (engine_step sample_repair sample_unrepaired)).
Proof.
  apply failures_keep_every_rule; [apply sample_unrepaired_reachable|vm_compute; reflexivity..].
Defined.

Lemma startup_is_quarantined_witness :
  kernel (backend sample_start) = Quarantined /\ mode (state sample_start) = Learning.
Proof.
  unfold sample_start, sample_engine.
  assert (Hok : is_ok (sample_load [] []).2 = true) by (vm_compute; reflexivity).
  destruct (sample_load [] []) as [[b' c'] [e|err]] eqn:Hl; [|discriminate Hok].
  unfold sample_load in Hl.
  destruct (startup_is_quarantined _ _ _ _ _ _ _ _ _ Hl) as (Hk & _ & _ & Hm & _).
  split; assumption.
Defined.


Lemma activation_replaces_quarantine_witness :
  exists e' : SampleEngine, poisoned e' = true
  /\ kernel (backend e') = Installed (State_snapshot (state sample_start)).
Proof.
  destruct (activate_startup_policy (engine_step RuntimeFailure sample_start)) as [e' [[]|err]] eqn:Hrun;
    [|assert (Hok : is_ok (activate_startup_policy (engine_step RuntimeFailure sample_start)).2 = true)
        by (vm_compute; reflexivity); rewrite Hrun in Hok; discriminate Hok].
  exists e'. refine (proj2 (activation_replaces_quarantine sample_start e' sample_start_reachable _ Hrun)).
  vm_compute. reflexivity.
Defined.
