(* ===== verification/Authority.v ===== *)
(** * What a flow generation promises across the engine

    The packet path decides on a copy of the resident policy and later checks
    only that the engine still has the same mode and flow generation.  This file
    proves that the check is enough: the operations of the engine never take an
    acceptance back without moving to another generation. *)

From S2P Require Import Prelude Text Net Application Model State StateFacts StateLearning.
From S2P Require Import StateLearningFacts Policy Learning Snapshots Marks Nftables Decision.
From S2P Require Import Protocol Bus Pinning Storage Engine EngineLearning EngineControl EngineLaws.
From S2P Require Import EngineSafety EngineRuns.
Local Open Scope Z_scope.

(** ** States *)

(** [s'] is at least as new as [s], and of the same generation only if nothing
    that was accepted is refused by now, or everything is. *)
Record advances (s s' : State) : Prop := {
  advances_generation : flow_generation s <= flow_generation s';
  advances_authority : flow_generation s' = flow_generation s -> same_authority s s';
  advances_strategy : flow_generation s' = flow_generation s ->
    mode s' = BlockAll
    \/ (mode s' = mode s /\ State.enforcement_strategy s' = State.enforcement_strategy s)
}.

#[export] Instance advances_refl : Reflexive advances.
Proof. intros s. split; [lia|done|by right]. Qed.

#[export] Instance advances_trans : Transitive advances.
Proof.
  intros s1 s2 s3 [G1 A1 S1] [G2 A2 S2]. split; [lia|..]; intros Hg.
  - etrans; [apply A1|apply A2]; lia.
  - destruct S2 as [|[-> ->]]; [lia|by left|]. apply S1. lia.
Qed.

Section Changes.
Context `{IpNetLib} `{JsonLib}.

Lemma effect_advances s s' evs : effect false s s' evs -> advances s s'.
Proof.
  intros He. pose proof (effect_authority _ _ _ _ He) as [Hm Ha]. specialize (Hm eq_refl).
  split; [done..|]. destruct He as [-> |m strategy g now _ Hg ->|id sp now r ev Hrun
    |id sp now r ev Hrun|id now r ev Hrun|id b now r ev Hrun|outs Htr|g Hrot Hrun].
  - by right.
  - destruct Hg as [[? ->]|(? & -> & ->)]; cbn; [lia|by left].
  - apply create_rule_at_Ok in Hrun as (_ & _ & _ & ->). by right.
  - apply update_rule_at_Ok in Hrun as (c & _ & _ & _ & ->). by right.
  - apply delete_rule_at_Ok in Hrun as (_ & _ & ->). by right.
  - apply set_rule_enabled_at_Ok in Hrun as (c & _ & _ & _ & ->). by right.
  - clear Hm Ha. intros _. right. induction Htr as [|out outs s1 s2 s3 Hstep _ [-> ->]]; [done|].
    by apply learn_step_effect in Hstep as (id & _ & _ & ->).
  - done.
Qed.

Lemma changes_advances s s' evs : changes s s' evs -> advances s s'.
Proof.
  induction 1 as [|s1 s2 s3 evs evs' He _ IH]; [done|]. etrans; [by eapply effect_advances|done].
Qed.
End Changes.

(** ** Decisions *)

Section Decisions.
Context `{IpNetLib}.

Definition decided_action (r : option Rule) : option RuleAction :=
  (fun r => action (spec r)) <$> r.

Lemma spec_matches r r' c i :
  spec r = spec r' ->
  application_rule_matches r c i = application_rule_matches r' c i
  /\ fast_learned_accept_rule_matches r c i = fast_learned_accept_rule_matches r' c i
  /\ outbound_network_rule_matches r c = outbound_network_rule_matches r' c.
Proof.
  intros E. unfold application_rule_matches, fast_learned_accept_rule_matches,
    outbound_network_rule_matches, application_rule_network_and_uid_matches,
    outbound_network_selectors_match. by rewrite E.
Qed.

Lemma accepted_enabled strategy c i r :
  accepted_by strategy c i r = true -> enabled (spec r) = true.
Proof.
  unfold accepted_by. rewrite !orb_true_iff, andb_true_iff. intros [[Hm|[_ Hm]]|Hm].
  - apply application_match_network, andb_true_iff in Hm as [Hn _].
    by apply network_match_enabled in Hn as [-> _].
  - apply fast_match_network, andb_true_iff in Hm as [Hn _].
    by apply network_match_enabled in Hn as [-> _].
  - apply andb_true_iff in Hm as [_ Hn]. by apply network_match_enabled in Hn as [-> _].
Qed.

Lemma deny_match_None s c i :
  deny_match (State_snapshot s) c i = None <->
  forall id r, rules s !! id = Some r -> is_deny r = true -> application_rule_matches r c i = false.
Proof.
  unfold deny_match. rewrite min_by_key_None. cbn [State_snapshot snap_rules]. split.
  - intros Hnil id r Hr Hd. apply not_true_is_false. intros Hm.
    assert (Hin : r ∈ ([] : list Rule)) by
      (rewrite <-Hnil, !elem_of_filter_bool, elem_of_btree_values; eauto).
    by apply not_elem_of_nil in Hin.
  - intros Hall. apply elem_of_nil_inv. intros r.
    rewrite !elem_of_filter_bool, elem_of_btree_values. intros [[[id Hr] Hd] Hm].
    by rewrite (Hall _ _ Hr Hd) in Hm.
Qed.

Lemma denials_kept s s' c i :
  same_authority s s' ->
  deny_match (State_snapshot s) c i = None -> deny_match (State_snapshot s') c i = None.
Proof.
  rewrite !deny_match_None. intros [_ Hdeny _] Hall id r' Hr' Hd'.
  apply not_true_is_false. intros Hm.
  pose proof (application_match_network c r' i Hm) as Hn. apply andb_true_iff in Hn as [Hn _].
  apply network_match_enabled in Hn as [He _].
  destruct (Hdeny _ _ Hr') as (r & Hr & E).
  { unfold enabled_deny. unfold is_deny in Hd'. rewrite He. by destruct (action (spec r')). }
  rewrite <-(proj1 (spec_matches r r' c i E)), (Hall _ _ Hr) in Hm; [done|].
  unfold is_deny in *. by rewrite E.
Qed.

Lemma acceptances_kept s s' strategy c i :
  same_authority s s' ->
  decided_action (scan_decision (State_snapshot s) strategy c i) = Some Accept ->
  decided_action (scan_decision (State_snapshot s') strategy c i) = Some Accept.
Proof.
  unfold decided_action. intros Ha. rewrite !scan_action.
  destruct (deny_match (State_snapshot s) c i) as [r|] eqn:Hd.
  { unfold deny_match in Hd. apply min_by_key_elem in Hd.
    rewrite !elem_of_filter_bool in Hd. destruct Hd as [[_ Hd] _]. unfold is_deny in Hd.
    by destruct (action (spec r)). }
  rewrite (denials_kept s s' c i Ha Hd).
  destruct (existsb _ (snap_rules (State_snapshot s))) eqn:Hx; [|done]. intros _.
  apply existsb_exists in Hx as (r & Hr%list_elem_of_In & Hacc).
  apply elem_of_btree_values in Hr as [id Hr].
  destruct (authority_kept _ _ Ha id r Hr) as (r' & Hr' & E); [by eapply accepted_enabled|].
  replace (existsb _ _) with true; [done|]. symmetry. apply existsb_exists. exists r'. split.
  - apply list_elem_of_In, elem_of_btree_values. by exists id.
  - unfold accepted_by in *. by destruct (spec_matches r' r c i E) as (-> & -> & ->).
Qed.
End Decisions.

(** ** Engines *)

Section Engines.
Context {B D : Type} `{BackendLaws B} `{StoreLaws D} `{IpNetLib} `{JsonLib}.
Implicit Types (e : Engine B D).

(** An unlocked engine was unlocked before, and its state only advanced. *)
Definition advanced e e' : Prop :=
  poisoned e' = false -> poisoned e = false /\ advances (state e) (state e').

Lemma advanced_refl e : advanced e e.
Proof. by intros Hp. Qed.

Lemma advanced_locked e e' : poisoned e' = true -> advanced e e'.
Proof. intros Hp Hp'. congruence. Qed.

Lemma advanced_same e e' : poisoned e' = poisoned e -> state e' = state e -> advanced e e'.
Proof. intros Hp Hs. unfold advanced. by rewrite Hp, Hs. Qed.

Lemma learned_advances limits s s' evs : learned limits s s' evs -> advances s s'.
Proof. intros Hl. eapply changes_advances. by eapply learned_changes. Qed.

Lemma control_advances a env request e e' r :
  engine_ok a e -> handle_control env request e = (e', r) -> advanced e e'.
Proof.
  intros Hok Hrun. apply (handle_control_spec (activation := a)) in Hrun; [|done].
  destruct Hrun as [|cand evs aff e' r Hp _ _ Ha Hc|t e' r Hp _ Hl _ Hpre].
  - apply advanced_refl.
  - apply control_request_changes in Ha as [Hch%changes_advances _].
    destruct Hc as [b c _ _ _ _|b c bus err _ _ _ _ _|before e' err Hout].
    + intros _. by split.
    + by apply advanced_same.
    + apply advanced_locked. by destruct Hout.
  - destruct Hpre as [err|e' err _ Hp' _|e' err blocked ev _ Hp' _ _ _ _ _
      |e' blocked ev _ Hp' _ <- _ _ _ (cand & Hcand & Heff & _) _ _];
      [apply advanced_refl|by apply advanced_locked..|].
    intros _. split; [done|]. pose proof (ok_live e Hok Hp) as Hlive. unfold live_ok in Hlive.
    rewrite Hl in Hlive. destruct Hlive as (cand' & Hcand' & _ & _ & Hlearn & _).
    assert (cand' = cand) as -> by congruence.
    etrans; [by eapply learned_advances|by eapply effect_advances].
Qed.

Lemma finish_advances a e e' r :
  engine_ok a e -> finish_learning e = (e', r) -> advanced e e'.
Proof.
  intros Hok. unfold finish_learning.
  destruct (worker (persistence e)) as [[tx [o|] x]|] eqn:Hw; [|by intros [= <- <-]..].
  destruct (finalize_application_learning tx o e) as [e1 r1] eqn:Hfin. intros [= <- <-].
  apply (finalize_spec (activation := a) _ _ x) in Hfin; [|done..].
  assert (Hsame : forall c, advanced e e1 -> advanced e (set_persistence c e1)) by done.
  apply Hsame. destruct Hfin as [_ _|err Hp|Hp Hl Hprev Ho|Hp Hl Ho|e1 err Hp Hl Ho Hout].
  - by apply advanced_same.
  - apply advanced_refl.
  - intros _. split; [done|]. change (advances (state e) (tx_candidate tx)).
    pose proof (ok_live e Hok Hp) as Hlive. unfold live_ok in Hlive. rewrite Hl in Hlive.
    destruct Hlive as (cand & _ & _ & _ & Hlearn & _ & _ & Htx & _).
    specialize (Htx _ Hw). cbn in Htx. rewrite Htx. by eapply learned_advances.
  - by apply advanced_same.
  - apply advanced_locked. by destruct Hout.
Qed.

(** Operations that leave the policy and the lock alone. *)
Definition same_policy e e' : Prop := poisoned e' = poisoned e /\ state e' = state e.

#[local] Instance same_policy_preorder : PreOrder same_policy.
Proof. split; [done|]. intros e1 e2 e3 [] []. split; congruence. Qed.

Lemma keeps_advanced {E A} (m : ST (Engine B D) E A) e : always same_policy m -> advanced e (m e).1.
Proof. intros Hm. by apply advanced_same; apply Hm. Qed.

Lemma prepare_keeps supply generation endpoints :
  always same_policy (prepare_application_learning (B := B) (D := D) supply generation endpoints).
Proof.
  unfold prepare_application_learning.
  always_by ltac:(intros ?; split; by try destruct (reserve_learning _ _)).
Qed.

Lemma start_learning_advances supply generation endpoints exits e :
  advanced e (start_learning supply generation endpoints exits e).1.
Proof.
  unfold start_learning. pose proof (prepare_keeps supply generation endpoints e) as Hk.
  destruct (prepare_application_learning _ _ _ e) as [e' r]. cbn in Hk.
  destruct Hk. by destruct r as [[tx|]|]; apply advanced_same.
Qed.

Lemma admission_keeps expected generation endpoint :
  always same_policy (application_learning_queue_admission (B := B) (D := D) expected generation endpoint).
Proof. unfold application_learning_queue_admission. always_by ltac:(by split). Qed.

Lemma repair_advances a expected e e' r :
  engine_ok a e -> repair_policy expected e = (e', r) -> advanced e e'.
Proof.
  intros Hok Hrun. apply (repair_spec (activation := a)) in Hrun; [|done]. destruct Hrun as [| |b _ _|e' err _ Hout].
  - apply advanced_refl.
  - apply advanced_refl.
  - by apply advanced_same.
  - apply advanced_locked. by destruct Hout.
Qed.

Lemma shutdown_advances e e' r :
  install_shutdown_quarantine e = (e', r) -> advanced e e'.
Proof.
  unfold install_shutdown_quarantine. rewrite run_bind. unfold on_backend.
  destruct (backend_fail_closed (backend e)) as [b [[]|err]].
  - unfold modify. intros [= <- <-]. by apply advanced_same.
  - rewrite !run_modify. unfold lift. intros [= <- <-]. by apply advanced_locked.
Qed.

Lemma engine_step_advances a op e : engine_ok a e -> advanced e (engine_step op e).
Proof.
  intros Hok. destruct op; cbn [engine_step].
  - destruct (handle_control env request e) eqn:E. by eapply control_advances.
  - destruct (worker (persistence e)); [apply advanced_refl|apply start_learning_advances].
  - by apply advanced_same.
  - destruct (finish_learning e) eqn:E. by eapply finish_advances.
  - unfold publish_counters_if_current. destruct (_ || _); by apply advanced_same.
  - destruct (repair_policy expected e) eqn:E. by eapply repair_advances.
  - destruct (quarantine_after_runtime_failure e) eqn:E. apply advanced_locked.
    by eapply runtime_failure_ok.
  - destruct (quarantine_after_engine_poison e) as [e' r] eqn:E. apply advanced_locked.
    apply (engine_poison_ok (activation := a)) in E as (Hok' & Hf & _); [|done]. by apply Hok'.
  - destruct (install_shutdown_quarantine e) eqn:E. by eapply shutdown_advances.
  - apply keeps_advanced, admission_keeps.
  - by apply advanced_same.
Qed.

Lemma sound_advances op e : engine_sound e -> advanced e (engine_step op e).
Proof. intros [a Hok]. by apply (engine_step_advances a). Qed.

(** *** Counters *)

Definition set_nfqueue_counters (v : NfqueueCounters) e : Engine B D :=
  mkEngine e.(state) e.(learning_limits) e.(quota_skipped_observations) e.(application_policy)
    e.(application_learning_admission) e.(pending_application_learning_admission)
    e.(pending_application_learning_candidate) e.(pending_application_learning_events)
    e.(backend) e.(persistence) e.(events) v e.(poisoned) e.(fatal) e.(restart_required_flag)
    e.(startup_policy) e.(learning_persistence) e.(next_learning_transaction)
    e.(superseded_learning_transaction).

Lemma counters_ok v e : engine_sound e -> engine_sound (set_nfqueue_counters v e).
Proof. intros [a [[] ? ? ? ? ? ? ?]]. exists a. by split. Qed.

(** *** A lost kernel is not found again *)

Definition fatal_kept e e' : Prop := fatal e = true -> fatal e' = true.

#[local] Instance fatal_kept_preorder : PreOrder fatal_kept.
Proof. split; [by intros e Hf|]. unfold fatal_kept. intros e1 e2 e3. tauto. Qed.

Ltac fatal_step :=
  intros ? ?; unfold on_backend, on_persistence; repeat case_match; done.

Lemma emergency_fatal {E} floor : always fatal_kept (enter_emergency_fail_closed (B := B) (D := D) (E := E) floor).
Proof. unfold enter_emergency_fail_closed. always_by fatal_step. Qed.

Lemma commit_fatal cand evs : always fatal_kept (commit (B := B) (D := D) cand evs).
Proof.
  unfold commit, engine_persisted_state_after_failed_save, emergency_error.
  always_by ltac:(apply emergency_fatal || fatal_step).
Qed.

Lemma preempt_fatal now t : always fatal_kept (commit_block_all_during_learning (B := B) (D := D) now t).
Proof.
  unfold commit_block_all_during_learning, emergency_error, engine_persisted_state_after_failed_save.
  always_by ltac:(apply emergency_fatal || fatal_step).
Qed.

Lemma finalize_fatal tx o : always fatal_kept (finalize_application_learning (B := B) (D := D) tx o).
Proof.
  unfold finalize_application_learning, emergency_error.
  always_by ltac:(apply emergency_fatal || fatal_step).
Qed.

Lemma control_fatal env request : always fatal_kept (handle_control (B := B) (D := D) env request).
Proof.
  unfold handle_control. always_by ltac:(apply commit_fatal || apply preempt_fatal || fatal_step).
Qed.

Lemma start_learning_fatal supply generation endpoints exits e :
  fatal_kept e (start_learning supply generation endpoints exits e).1.
Proof.
  unfold start_learning.
  assert (Hp : always fatal_kept
    (prepare_application_learning (B := B) (D := D) supply generation endpoints)).
  { unfold prepare_application_learning. always_by fatal_step. }
  specialize (Hp e). destruct (prepare_application_learning _ _ _ e) as [e' [[tx|]|]]; exact Hp.
Qed.

Lemma finish_learning_fatal e : fatal_kept e (finish_learning e).1.
Proof.
  unfold finish_learning. destruct (worker (persistence e)) as [[tx [o|] x]|]; try reflexivity.
  pose proof (finalize_fatal tx o e) as Hf.
  destruct (finalize_application_learning tx o e) as [e' r]. exact Hf.
Qed.

Lemma runtime_failure_fatal :
  always fatal_kept (quarantine_after_runtime_failure (B := B) (D := D)).
Proof.
  unfold quarantine_after_runtime_failure. always_by ltac:(apply emergency_fatal || fatal_step).
Qed.

Lemma step_fatal op e : fatal_kept e (engine_step op e).
Proof.
  destruct op; cbn [engine_step]; try (intros Hf; exact Hf).
  - apply control_fatal.
  - destruct (worker (persistence e)); [reflexivity|apply start_learning_fatal].
  - apply finish_learning_fatal.
  - unfold publish_counters_if_current. destruct (_ || _); intros Hf; exact Hf.
  - assert (Hr : always fatal_kept (repair_policy (B := B) (D := D) expected)); [|apply Hr].
    unfold repair_policy, emergency_error. always_by ltac:(apply emergency_fatal || fatal_step).
  - apply runtime_failure_fatal.
  - intros Hf. unfold quarantine_after_engine_poison. rewrite !run_modify, run_bind.
    unfold on_backend. by destruct (backend_fail_closed _).
  - assert (Hr : always fatal_kept (install_shutdown_quarantine (B := B) (D := D))); [|apply Hr].
    unfold install_shutdown_quarantine. always_by fatal_step.
  - assert (Hr : always fatal_kept (application_learning_queue_admission (B := B) (D := D)
      expected generation endpoint)); [|apply Hr].
    unfold application_learning_queue_admission. always_by fatal_step.
Qed.

Lemma activate_fatal e e' r :
  activate_startup_policy e = (e', r) -> fatal_kept e e'.
Proof.
  intros Ha. assert (Hr : always fatal_kept (activate_startup_policy (B := B) (D := D))).
  { unfold activate_startup_policy. always_by fatal_step. }
  specialize (Hr e). by rewrite Ha in Hr.
Qed.

(** What may happen between two looks at the engine: operations, the activation
    of the start-up policy, and counted packets. *)
Inductive evolves : Engine B D -> Engine B D -> Prop :=
| evolves_refl e : evolves e e
| evolves_step op e e' : evolves (engine_step op e) e' -> evolves e e'
| evolves_activate e e1 e' r :
    activate_startup_policy e = (e1, r) -> evolves e1 e' -> evolves e e'
| evolves_counted v e e' : evolves (set_nfqueue_counters v e) e' -> evolves e e'.

Lemma activate_advances e e' r : activate_startup_policy e = (e', r) -> advanced e e'.
Proof.
  unfold activate_startup_policy. rewrite run_get.
  destruct (startup_policy e ==? Active); [intros [= <-]; apply advanced_refl|].
  rewrite run_bind. unfold on_backend. destruct (backend_apply _ _) as [b [[]|err]].
  - unfold modify. intros [= <-]. by apply advanced_same.
  - rewrite run_bind. destruct (backend_fail_closed _) as [b' r'].
    unfold lift. intros [= <- _]. by apply advanced_same.
Qed.

Lemma evolves_ok e e' : evolves e e' -> engine_sound e -> engine_sound e' /\ advanced e e'.
Proof.
  assert (Htrans : forall e1 e2 e3, advanced e1 e2 -> advanced e2 e3 -> advanced e1 e3).
  { intros e1 e2 e3 H12 H23 Hp. destruct (H23 Hp) as [Hp2 A2]. destruct (H12 Hp2) as [Hp1 A1].
    split; [done|]. by etrans. }
  induction 1 as [e|op e e' _ IH|e e1 e' r Ha _ IH|v e e' _ IH]; intros Hok.
  - split; [done|apply advanced_refl].
  - destruct IH as [Hok' Ha]; [by apply sound_step|]. split; [done|].
    eapply Htrans; [by apply sound_advances|done].
  - destruct IH as [Hok' Ha']; [by eapply sound_activate|]. split; [done|].
    eapply Htrans; [by eapply activate_advances|done].
  - destruct IH as [Hok' Ha']; [by apply counters_ok|]. done.
Qed.

Lemma evolves_trans e1 e2 e3 : evolves e1 e2 -> evolves e2 e3 -> evolves e1 e3.
Proof.
  induction 1 as [e|op e e' _ IH|e e1 e' r Ha _ IH|v e e' _ IH]; intros He; [done|..].
  - apply (evolves_step op). by apply IH.
  - by eapply evolves_activate; [|apply IH].
  - apply (evolves_counted v). by apply IH.
Qed.

Lemma evolves_fatal e e' : evolves e e' -> fatal_kept e e'.
Proof.
  induction 1 as [e|op e e' _ IH|e e1 e' r Ha _ IH|v e e' _ IH]; [reflexivity| | |exact IH].
  - etrans; [apply step_fatal|exact IH].
  - etrans; [by eapply activate_fatal|exact IH].
Qed.

(** ** Decisions of the resident policy *)

Lemma generation_keeps e e' :
  engine_sound e -> evolves e e' -> poisoned e' = false ->
  flow_generation (state e') = flow_generation (state e) ->
  same_authority (state e) (state e') /\ engine_sound e'
  /\ (mode (state e') = BlockAll
      \/ (mode (state e') = mode (state e)
          /\ State.enforcement_strategy (state e') = State.enforcement_strategy (state e))).
Proof.
  intros Hok Hev Hp Hg. destruct (evolves_ok _ _ Hev Hok) as [Hok' Ha].
  destruct (Ha Hp) as [_ [_ Hauth Hst]]. auto.
Qed.

Lemma acceptance_is_kept e e' c i :
  engine_sound e -> evolves e e' -> poisoned e' = false ->
  flow_generation (state e') = flow_generation (state e) ->
  mode (state e) = Enforcing -> mode (state e') = Enforcing ->
  decided_action (matching_rule (application_policy e) c i) = Some Accept ->
  decided_action (matching_rule (application_policy e') c i) = Some Accept.
Proof.
  intros Hok Hev Hp Hg Hm Hm'. destruct (generation_keeps e e' Hok Hev Hp Hg) as (Hauth & Hok' & Hst).
  rewrite (base_policy e (sound_base e Hok)), (base_policy e' (sound_base e' Hok')).
  rewrite !resident_enforcing by (done || apply sound_base; done).
  destruct Hst as [Hb|[_ ->]]; [congruence|]. by apply acceptances_kept.
Qed.

Lemma absent_denial_is_kept e e' c i :
  engine_sound e -> evolves e e' -> poisoned e' = false ->
  flow_generation (state e') = flow_generation (state e) ->
  mode (state e) = Learning -> mode (state e') = Learning ->
  matching_deny_rule (application_policy e) c i = None ->
  matching_deny_rule (application_policy e') c i = None.
Proof.
  intros Hok Hev Hp Hg Hm Hm'. destruct (generation_keeps e e' Hok Hev Hp Hg) as (Hauth & Hok' & _).
  rewrite (base_policy e (sound_base e Hok)), (base_policy e' (sound_base e' Hok')).
  rewrite !resident_learning by (done || apply sound_base; done). by apply denials_kept.
Qed.
End Engines.
