(* ===== verification/Runtime.v ===== *)
(** * The runtime that the queue threads share

    The queue threads of [nfqueue.rs] share the engine, a shutdown flag, the
    registry of reply flows and two bounded channels, and each owns a verdict
    socket.  [World] is what one of them sees.  Other threads act whenever it
    takes a lock or looks at the flag: what they do then is a script, and the
    theorems hold for every script. *)

From S2P Require Import Prelude Text Net Application Model State StateFacts StateLearning.
From S2P Require Import StateLearningFacts Policy Learning Snapshots Marks Nftables Decision.
From S2P Require Import Netlink Packet Progress Capture Registry.
From S2P Require Import Protocol Bus Pinning Storage Engine EngineLearning EngineControl EngineLaws.
From S2P Require Import EngineSafety EngineRuns Authority.
Local Open Scope Z_scope.

(** ** Errors *)

(** An error of the process resolver. *)
Record ResolveError : Type := mkResolveError {
  resolve_timed_out : bool;
  resolve_message : ustring
}.

(** The [anyhow] errors of the queue threads, by the place that raises them. *)
Inductive QueueFailure : Type :=
| EngineMutexPoisoned
| EngineRefused (error : ProtocolError)
| RegistryMutexPoisoned
| VerdictNotBuilt (error : ParseError)
| VerdictNotSent
| PacketNotParsed (error : ParseError)
| PolicyChanged
| OutsidePendingDomain
| BlockAllDenies
| NoRuleForEndpoint
| NoRuleMatched
| IdentityNotEstablished (error : ResolveError)
| DecisionUnavailable
| QueueWaitTimedOut
| DecisionDeadlineExpired
| ObservationInvalid
| ObservationConflict (error : ProtocolError)
| ObservationQueueFull
| ObservationWorkerGone
| ObservationPersistencePaused
| ProgressRefused (error : ProgressError)
| TicketRefused (error : RegistryError)
| OutgoingWithoutPort
| SchedulerRefused
| WorkerDisconnected
| DispatchFailed
| CompletionMismatch
| NoProgressPossible
| CompletionBoundViolated
| ReceiveFailed
| ReplyWithoutIdentifier
| PendingRefused (error : PendingError)
| PendingDisappeared
| CaptureFailed (error : CaptureError)
| LearningIdReused.

Definition is_attribution_timeout (error : QueueFailure) : bool :=
  match error with
  | IdentityNotEstablished error => error.(resolve_timed_out)
  | _ => false
  end.

(** ** Channels *)

(** What the socket of a queue delivers. *)
Inductive QueueReceive : Type :=
| Idle
| Interrupted
| Overflow
| Datagram (bytes : Bytes).

Inductive TrySendError : Type := Full | Disconnected.

(** A bounded channel, and what its other end does before each operation on
    this one: it takes items, or it is gone. *)
Record Channel (A : Type) : Type := mkChannel {
  items : list A;
  capacity : Z;
  peer : list (option nat)
}.
Arguments mkChannel {A} _ _ _.
Arguments items {A} _.
Arguments capacity {A} _.
Arguments peer {A} _.

Definition try_send {A} (x : A) (c : Channel A) : Channel A * option TrySendError :=
  match c.(peer) with
  | None :: _ => (c, Some Disconnected)
  | turn =>
      let taken := match turn with Some n :: _ => n | _ => O end in
      let items := drop taken c.(items) in
      if zlen items <? c.(capacity)
      then (mkChannel (items ++ [x]) c.(capacity) (tail turn), None)
      else (mkChannel items c.(capacity) (tail turn), Some Full)
  end.

Record LearningVerdictTicket : Type := mkLearningTicket {
  lt_packet_id : Z;
  lt_serial : Z;
  lt_flow_generation : Z
}.
#[export] Instance LearningVerdictTicket_eq_dec : EqDecision LearningVerdictTicket.
Proof. solve_decision. Defined.

Record LearningObservation : Type := mkObservation {
  obs_flow_generation : Z;
  obs_endpoint : LearnedApplicationEndpoint
}.

Record LearningAttributionWork : Type := mkAttributionWork {
  aw_flow_generation : Z;
  aw_packet : QueuedPacket;
  aw_ticket : option LearningVerdictTicket
}.

(** ** The world of a queue thread *)

Section World.
Context {B D : Type} `{BackendLaws B} `{StoreLaws D} `{IpNetLib} `{JsonLib} `{Target} `{HashOrder}.

(** What another thread does with the engine while it holds its lock.  A thread
    that panics there leaves any engine behind, and a poisoned lock. *)
Inductive EngineTurn : Type :=
| EngineRuns (op : EngineOp)
| PolicyActivated
| EnginePanics (remains : Engine B D)
| EngineRecovered.

Inductive RegistryTurn : Type :=
| RegistryRuns (op : RegistryOp)
| RegistryPanics.

(** A verdict that the kernel was given, and the engine of that moment with the
    registry and the clock as the thread last saw them. *)
Record SentVerdict : Type := mkSent {
  sent_id : Z;
  sent_code : Z;
  sent_mark : option Z;
  sent_message : Bytes;
  sent_engine : Engine B D;
  sent_registry : Registry;
  sent_at : Z
}.

(** [send_results] tells which of the next calls of [sendto] succeed. *)
Record QueueSocket : Type := mkSocket {
  queue_number : Z;
  sequence : Z;
  sent : list SentVerdict;
  send_results : list bool
}.

(** The process resolver scans the system: each call may answer differently. *)
Definition Resolver : Type :=
  list (OutboundConnection * IdentityCaptureRequirements) ->
  list (Result ResolveError ApplicationIdentity).

Record World : Type := mkWorld {
  shared : Engine B D;
  engine_lock_poisoned : bool;
  engine_turns : list (list EngineTurn);
  stopping : bool;
  stop_turns : list bool;
  registry : Registry;
  registry_lock_poisoned : bool;
  registry_turns : list (list RegistryTurn);
  clock : Z;
  ticks : list Z;
  socket : QueueSocket;
  learning : Channel LearningObservation;
  attribution : Channel LearningAttributionWork;
  resolutions : list Resolver;
  proc_files : list (option ProcFile)
}.

Definition set_shared (v : Engine B D) (w : World) : World :=
  mkWorld v w.(engine_lock_poisoned) w.(engine_turns) w.(stopping) w.(stop_turns) w.(registry)
    w.(registry_lock_poisoned) w.(registry_turns) w.(clock) w.(ticks) w.(socket) w.(learning)
    w.(attribution) w.(resolutions) w.(proc_files).
Definition set_engine_lock (v : bool) (w : World) : World :=
  mkWorld w.(shared) v w.(engine_turns) w.(stopping) w.(stop_turns) w.(registry)
    w.(registry_lock_poisoned) w.(registry_turns) w.(clock) w.(ticks) w.(socket) w.(learning)
    w.(attribution) w.(resolutions) w.(proc_files).
Definition set_engine_turns (v : list (list EngineTurn)) (w : World) : World :=
  mkWorld w.(shared) w.(engine_lock_poisoned) v w.(stopping) w.(stop_turns) w.(registry)
    w.(registry_lock_poisoned) w.(registry_turns) w.(clock) w.(ticks) w.(socket) w.(learning)
    w.(attribution) w.(resolutions) w.(proc_files).
Definition set_stopping (v : bool) (turns : list bool) (w : World) : World :=
  mkWorld w.(shared) w.(engine_lock_poisoned) w.(engine_turns) v turns w.(registry)
    w.(registry_lock_poisoned) w.(registry_turns) w.(clock) w.(ticks) w.(socket) w.(learning)
    w.(attribution) w.(resolutions) w.(proc_files).
Definition set_registry (v : Registry) (w : World) : World :=
  mkWorld w.(shared) w.(engine_lock_poisoned) w.(engine_turns) w.(stopping) w.(stop_turns) v
    w.(registry_lock_poisoned) w.(registry_turns) w.(clock) w.(ticks) w.(socket) w.(learning)
    w.(attribution) w.(resolutions) w.(proc_files).
Definition set_registry_turns (lock : bool) (turns : list (list RegistryTurn)) (w : World) : World :=
  mkWorld w.(shared) w.(engine_lock_poisoned) w.(engine_turns) w.(stopping) w.(stop_turns)
    w.(registry) lock turns w.(clock) w.(ticks) w.(socket) w.(learning) w.(attribution)
    w.(resolutions) w.(proc_files).
Definition set_clock (v : Z) (ticks : list Z) (w : World) : World :=
  mkWorld w.(shared) w.(engine_lock_poisoned) w.(engine_turns) w.(stopping) w.(stop_turns)
    w.(registry) w.(registry_lock_poisoned) w.(registry_turns) v ticks w.(socket) w.(learning)
    w.(attribution) w.(resolutions) w.(proc_files).
Definition set_socket (v : QueueSocket) (w : World) : World :=
  mkWorld w.(shared) w.(engine_lock_poisoned) w.(engine_turns) w.(stopping) w.(stop_turns)
    w.(registry) w.(registry_lock_poisoned) w.(registry_turns) w.(clock) w.(ticks) v w.(learning)
    w.(attribution) w.(resolutions) w.(proc_files).
Definition set_learning (v : Channel LearningObservation) (w : World) : World :=
  mkWorld w.(shared) w.(engine_lock_poisoned) w.(engine_turns) w.(stopping) w.(stop_turns)
    w.(registry) w.(registry_lock_poisoned) w.(registry_turns) w.(clock) w.(ticks) w.(socket) v
    w.(attribution) w.(resolutions) w.(proc_files).
Definition set_attribution (v : Channel LearningAttributionWork) (w : World) : World :=
  mkWorld w.(shared) w.(engine_lock_poisoned) w.(engine_turns) w.(stopping) w.(stop_turns)
    w.(registry) w.(registry_lock_poisoned) w.(registry_turns) w.(clock) w.(ticks) w.(socket)
    w.(learning) v w.(resolutions) w.(proc_files).
Definition set_resolutions (v : list Resolver) (w : World) : World :=
  mkWorld w.(shared) w.(engine_lock_poisoned) w.(engine_turns) w.(stopping) w.(stop_turns)
    w.(registry) w.(registry_lock_poisoned) w.(registry_turns) w.(clock) w.(ticks) w.(socket)
    w.(learning) w.(attribution) v w.(proc_files).
Definition set_proc_files (v : list (option ProcFile)) (w : World) : World :=
  mkWorld w.(shared) w.(engine_lock_poisoned) w.(engine_turns) w.(stopping) w.(stop_turns)
    w.(registry) w.(registry_lock_poisoned) w.(registry_turns) w.(clock) w.(ticks) w.(socket)
    w.(learning) w.(attribution) w.(resolutions) v.

(** *** The engine's lock *)

Definition engine_turn (w : World) (turn : EngineTurn) : World :=
  let e := w.(shared) in
  if w.(engine_lock_poisoned) then
    match turn with
    | EngineRecovered =>
        set_engine_lock false (set_shared (quarantine_after_engine_poison e).1 w)
    | _ => w
    end
  else
    match turn with
    | EngineRuns op => set_shared (engine_step op e) w
    | PolicyActivated => set_shared (activate_startup_policy e).1 w
    | EnginePanics remains => set_engine_lock true (set_shared remains w)
    | EngineRecovered => w
    end.

(** [engine.lock()]: whether the guard was obtained. *)
Definition take_engine_turns (w : World) : World :=
  set_engine_turns (tail w.(engine_turns))
    (foldl engine_turn w (default [] (head w.(engine_turns)))).

Definition lock_engine {E} : ST World E bool :=
  modify take_engine_turns ;;
  w ← get;
  mret (negb w.(engine_lock_poisoned)).

(** An operation of the engine under the guard. *)
Definition with_engine {E F A} (m : ST (Engine B D) F A) : ST World E (Result F A) := fun w =>
  let '(e, r) := m w.(shared) in (set_shared e w, Ok r).

(** *** The registry's lock *)

Definition registry_turn (w : World) (turn : RegistryTurn) : World :=
  match turn with
  | RegistryRuns op =>
      if w.(registry_lock_poisoned) then w else set_registry (registry_step op w.(registry)) w
  | RegistryPanics => set_registry_turns true w.(registry_turns) w
  end.

Definition lock_registry : ST World QueueFailure unit :=
  modify (fun w =>
    let w' := foldl registry_turn w (default [] (head w.(registry_turns))) in
    set_registry_turns w'.(registry_lock_poisoned) (tail w.(registry_turns)) w') ;;
  w ← get;
  lift (ensure (negb w.(registry_lock_poisoned)) RegistryMutexPoisoned).

Definition with_registry {E F A} (m : ST Registry F A) : ST World E (Result F A) := fun w =>
  let '(r, a) := m w.(registry) in (set_registry r w, Ok a).

(** *** Flag, clock, socket, channels *)

Definition load_shutdown {E} : ST World E bool :=
  modify (fun w => set_stopping (w.(stopping) || default false (head w.(stop_turns)))
                     (tail w.(stop_turns)) w) ;;
  w ← get;
  mret w.(stopping).

Definition store_shutdown {E} : ST World E unit :=
  modify (fun w => set_stopping true w.(stop_turns) w).

(** [Instant::now()]; the clock never goes back. *)
Definition instant_now {E} : ST World E Z :=
  modify (fun w => set_clock (w.(clock) + Z.max 0 (default 0 (head w.(ticks)))) (tail w.(ticks)) w) ;;
  w ← get;
  mret w.(clock).

Definition send_verdict (packet_id verdict : Z) (mark : option Z) : ST World QueueFailure unit :=
  w ← get;
  let s := w.(socket) in
  let sequence := advance_netlink_sequence s.(sequence) in
  modify (set_socket (mkSocket s.(queue_number) sequence s.(sent) s.(send_results))) ;;
  message ← lift (map_err VerdictNotBuilt
                    (build_verdict_message sequence s.(queue_number) packet_id verdict mark));
  if default true (head s.(send_results)) then
    modify (set_socket (mkSocket s.(queue_number) sequence
              (s.(sent) ++ [mkSent packet_id verdict mark message w.(shared) w.(registry) w.(clock)])
              (tail s.(send_results))))
  else
    modify (set_socket (mkSocket s.(queue_number) sequence s.(sent) (tail s.(send_results)))) ;;
    lift (Err VerdictNotSent).

Definition send_learning {E} (x : LearningObservation) : ST World E (option TrySendError) := fun w =>
  let '(c, r) := try_send x w.(learning) in (set_learning c w, Ok r).
Definition send_attribution {E} (x : LearningAttributionWork) : ST World E (option TrySendError) :=
  fun w => let '(c, r) := try_send x w.(attribution) in (set_attribution c w, Ok r).

(** *** Counters *)

(** The counters are shared with the engine, and saturate. *)
Definition count {E} (f : NfqueueCounters -> NfqueueCounters) : ST World E unit :=
  modify (fun w => set_shared (set_nfqueue_counters (f w.(shared).(nfqueue_counters)) w.(shared)) w).
Definition record_queue_overflow {E} : ST World E unit := count Bus.record_queue_overflow.
Definition record_attribution_timeout {E} : ST World E unit := count Bus.record_attribution_timeout.
Definition record_terminal_queue_error {E} : ST World E unit := count Bus.record_terminal_queue_error.
Definition record_denied {E} : ST World E unit := count Bus.record_denied.

(** *** Failures *)

Definition quarantine_engine {E} : ST World E unit :=
  locked ← lock_engine;
  if locked : bool then _ ← with_engine quarantine_after_runtime_failure; mret tt
  else
    _ ← with_engine quarantine_after_engine_poison;
    modify (set_engine_lock false).

Inductive QueueRole : Type := EnforcingRole | LearningRole | ReplyRole.

Definition handle_packet_queue_failure {E} (role : QueueRole) : ST World E unit :=
  record_terminal_queue_error ;;
  match role with
  | LearningRole => mret tt
  | _ => quarantine_engine ;; store_shutdown
  end.

(** ** What other threads can do

    A live world has an engine that nothing has locked.  In every world that
    the threads can produce, the engine is sound, or it says that the kernel is
    unknown, or its lock is poisoned and nobody trusts it. *)

Definition live (w : World) : Prop :=
  engine_lock_poisoned w = false /\ fatal (shared w) = false /\ poisoned (shared w) = false.

Definition world_ok (w : World) : Prop :=
  engine_lock_poisoned w = true \/ fatal (shared w) = true \/ engine_sound (shared w).

(** [w'] is reached from [w] by operations of the threads: a shutdown is final,
    time passes, and a live engine was live before and has only evolved. *)
Record later (w w' : World) : Prop := {
  later_stopping : stopping w = true -> stopping w' = true;
  later_clock : clock w <= clock w';
  later_resolutions : resolutions w' `suffix_of` resolutions w;
  later_ok : world_ok w -> world_ok w';
  later_live : world_ok w -> live w' -> live w /\ evolves (shared w) (shared w')
}.

#[export] Instance later_preorder : PreOrder later.
Proof.
  split.
  - intros w. split; try done. intros _ Hl. split; [done|constructor].
  - intros w1 w2 w3 H12 H23. split.
    + intros Hs. by apply (later_stopping _ _ H23), (later_stopping _ _ H12).
    + pose proof (later_clock _ _ H12). pose proof (later_clock _ _ H23). lia.
    + etrans; [apply (later_resolutions _ _ H23)|apply (later_resolutions _ _ H12)].
    + intros Hok. by apply (later_ok _ _ H23), (later_ok _ _ H12).
    + intros Hok Hl. destruct (later_live _ _ H23 (later_ok _ _ H12 Hok) Hl) as [Hl2 E23].
      destruct (later_live _ _ H12 Hok Hl2) as [Hl1 E12]. split; [done|]. by eapply evolves_trans.
Qed.

(** Nothing is sent meanwhile. *)
Definition quiet (w w' : World) : Prop := later w w' /\ socket w' = socket w.

#[export] Instance quiet_preorder : PreOrder quiet.
Proof.
  split; [done|]. intros w1 w2 w3 [H12 S12] [H23 S23]. split; [by etrans|congruence].
Qed.

(** Parts of the world that have nothing to do with the engine. *)
Lemma later_same w w' :
  shared w' = shared w -> engine_lock_poisoned w' = engine_lock_poisoned w ->
  (stopping w = true -> stopping w' = true) -> clock w <= clock w' ->
  resolutions w' `suffix_of` resolutions w -> later w w'.
Proof.
  intros Hs Hl Hstop Hc Hr. split; try done; unfold world_ok, live; rewrite Hs, Hl; [done|].
  intros _ Hlive. split; [done|constructor].
Qed.

Lemma quiet_same w w' :
  shared w' = shared w -> engine_lock_poisoned w' = engine_lock_poisoned w ->
  (stopping w = true -> stopping w' = true) -> clock w <= clock w' ->
  resolutions w' `suffix_of` resolutions w -> socket w' = socket w -> quiet w w'.
Proof. intros. split; [by apply later_same|done]. Qed.

(** One step of the engine, whose kernel is not found again. *)
Lemma quiet_engine w e' :
  (engine_sound (shared w) -> engine_sound e' /\ evolves (shared w) e') -> fatal_kept (shared w) e' ->
  quiet w (set_shared e' w).
Proof.
  intros Hstep Hf. split; [|done].
  split; [done|reflexivity|reflexivity|..]; unfold world_ok, live;
    cbn [shared engine_lock_poisoned set_shared].
  - intros [Hl|[Hfatal|Hok]]; [by left|right; left; by apply Hf|right; right; by apply Hstep].
  - intros [Hl|[Hfatal|Hok]] (Hl' & Hf' & Hp'); [congruence|rewrite (Hf Hfatal) in Hf'; done|].
    destruct (Hstep Hok) as [Hok' Hev]. destruct (evolves_ok _ _ Hev Hok) as [_ Ha].
    destruct (Ha Hp') as [Hp _]. split; [|done]. split; [done|]. split; [|done].
    destruct (fatal (shared w)) eqn:E; [|done]. by rewrite (Hf E) in Hf'.
Qed.

Lemma quiet_step op w : quiet w (set_shared (engine_step op (shared w)) w).
Proof.
  apply quiet_engine; [|apply step_fatal]. intros Hok. split; [by apply sound_step|].
  apply (evolves_step op). constructor.
Qed.

Lemma quiet_lost w w' :
  fatal (shared w') = true -> stopping w' = stopping w -> clock w' = clock w ->
  resolutions w' = resolutions w -> socket w' = socket w -> quiet w w'.
Proof.
  intros Hf Hs Hc Hr Hk. split; [|done]. split; [congruence|lia|by rewrite Hr|by right; left|].
  intros _ (_ & Hf' & _). congruence.
Qed.

Lemma poison_fatal e : fatal (quarantine_after_engine_poison (B := B) (D := D) e).1 = true.
Proof.
  unfold quarantine_after_engine_poison. rewrite !run_modify, run_bind. unfold on_backend.
  by destruct (backend_fail_closed _).
Qed.

Lemma engine_turn_quiet w turn : quiet w (engine_turn w turn).
Proof.
  unfold engine_turn. destruct (engine_lock_poisoned w) eqn:Hl; destruct turn; try reflexivity.
  - apply quiet_lost; try done. apply poison_fatal.
  - apply quiet_step.
  - destruct (activate_startup_policy (shared w)) as [e' r] eqn:Ha. cbn [fst].
    apply quiet_engine; [|by eapply activate_fatal]. intros Hok. split; [by eapply sound_activate|].
    eapply evolves_activate; [done|constructor].
  - split; [|done]. split; [done|reflexivity|reflexivity|by left|]. by intros _ [? _].
Qed.

Lemma engine_turns_quiet turns : forall w, quiet w (foldl engine_turn w turns).
Proof.
  induction turns as [|turn turns IH]; intros w; [reflexivity|]. cbn [foldl].
  etrans; [apply engine_turn_quiet|apply IH].
Qed.

Lemma run_lock_engine {E A} (k : bool -> ST World E A) w :
  (lock_engine ≫= k) w
  = k (negb (engine_lock_poisoned (take_engine_turns w))) (take_engine_turns w).
Proof. reflexivity. Qed.

Lemma run_load_shutdown {E A} (k : bool -> ST World E A) w :
  (load_shutdown ≫= k) w
  = let stop := stopping w || default false (head (stop_turns w)) in
    k stop (set_stopping stop (tail (stop_turns w)) w).
Proof. reflexivity. Qed.

Lemma take_turns_quiet w : quiet w (take_engine_turns w).
Proof. etrans; [apply engine_turns_quiet|]. by apply quiet_same. Qed.

Lemma lock_engine_quiet {E} : always quiet (lock_engine (E := E)).
Proof.
  unfold lock_engine. always_by ltac:(idtac). intros w. apply take_turns_quiet.
Qed.

(** The engine is live, and these are its mode and generation. *)
Definition identified_as (current : Mode * Z) (w : World) : Prop :=
  live w /\ current = (mode (state (shared w)), flow_generation (state (shared w))).

(** Work under the engine's guard, which keeps mode and generation. *)
Definition steady (w w' : World) : Prop :=
  quiet w w' /\ forall current, identified_as current w -> identified_as current w'.

#[export] Instance steady_preorder : PreOrder steady.
Proof.
  split; [done|]. intros w1 w2 w3 (H12 & S12) (H23 & S23). split; [by etrans|]. auto.
Qed.

Lemma steady_same w w' :
  shared w' = shared w -> engine_lock_poisoned w' = engine_lock_poisoned w ->
  (stopping w = true -> stopping w' = true) -> clock w <= clock w' ->
  resolutions w' `suffix_of` resolutions w -> socket w' = socket w -> steady w w'.
Proof.
  intros Hs Hl ? ? ? ?. split; [by apply quiet_same|]. intros current.
  unfold identified_as, live. by rewrite Hs, Hl.
Qed.

Lemma always_quiet {E A} (m : ST World E A) : always steady m -> always quiet m.
Proof. intros Hm w. apply Hm. Qed.

Lemma registry_turns_steady turns : forall w, steady w (foldl registry_turn w turns).
Proof.
  induction turns as [|turn turns IH]; intros w; [reflexivity|]. cbn [foldl].
  etrans; [|apply IH]. destruct turn; cbn; [destruct (registry_lock_poisoned w)|];
    by apply steady_same.
Qed.

Lemma lock_registry_steady : always steady lock_registry.
Proof.
  unfold lock_registry. always_by ltac:(idtac).
  intros w. etrans; [apply registry_turns_steady|]. by apply steady_same.
Qed.

Lemma load_shutdown_steady {E} : always steady (load_shutdown (E := E)).
Proof.
  unfold load_shutdown. always_by ltac:(idtac). intros w. apply steady_same; try done.
  intros Hs. cbn. by rewrite Hs.
Qed.

Lemma instant_now_steady {E} : always steady (instant_now (E := E)).
Proof.
  unfold instant_now. always_by ltac:(idtac). intros w. apply steady_same; try done. cbn. lia.
Qed.

Lemma quarantine_engine_quiet {E} : always quiet (quarantine_engine (E := E)).
Proof.
  intros w. unfold quarantine_engine. rewrite run_bind.
  pose proof (lock_engine_quiet (E := E) w) as Hl. destruct (lock_engine w) as [w1 [locked|]]; [|done].
  etrans; [exact Hl|]. destruct locked; rewrite run_bind; unfold with_engine.
  - pose proof (quiet_step RuntimeFailure w1) as Hs. cbn [engine_step] in Hs.
    by destruct (quarantine_after_runtime_failure (shared w1)) as [e r].
  - pose proof (poison_fatal (shared w1)) as Hf.
    destruct (quarantine_after_engine_poison (shared w1)) as [e r]. by apply quiet_lost.
Qed.

(** A quarantine always ends. *)
Definition quarantined (w : World) : World := (quarantine_engine (E := Empty_set) w).1.

Lemma run_quarantine {E A} (k : unit -> ST World E A) w :
  (quarantine_engine ≫= k) w = k tt (quarantined w).
Proof.
  unfold quarantined, quarantine_engine. rewrite run_bind, !run_lock_engine.
  destruct (engine_lock_poisoned (take_engine_turns w)); cbn [negb]; rewrite !run_bind; unfold with_engine.
  - by destruct (quarantine_after_engine_poison (shared (take_engine_turns w))).
  - by destruct (quarantine_after_runtime_failure (shared (take_engine_turns w))).
Qed.

Lemma quarantined_quiet w : quiet w (quarantined w).
Proof. apply (quarantine_engine_quiet (E := Empty_set)). Qed.

(** After a quarantine the engine is locked, and stays so. *)
Lemma quarantined_locked w w' : world_ok w -> later (quarantined w) w' -> ~ live w'.
Proof.
  intros Hok Hl Hlive. destruct (quarantined_quiet w) as [Hq _].
  destruct (later_live _ _ Hl (later_ok _ _ Hq Hok) Hlive) as [(_ & Hf & Hp) _]. clear Hl Hq Hlive.
  revert Hf Hp. unfold quarantined, quarantine_engine. rewrite run_lock_engine.
  destruct (take_turns_quiet w) as [Ht _]. apply (later_ok _ _ Ht) in Hok. clear Ht.
  set (w1 := take_engine_turns w) in *. clearbody w1.
  destruct (engine_lock_poisoned w1) eqn:Hlock; cbn [negb]; rewrite run_bind; unfold with_engine.
  - pose proof (poison_fatal (shared w1)) as Hf.
    destruct (quarantine_after_engine_poison (shared w1)) as [e r]. cbn in *. congruence.
  - pose proof (step_fatal RuntimeFailure (shared w1)) as Hk. cbn [engine_step] in Hk.
    destruct (quarantine_after_runtime_failure (shared w1)) as [e r] eqn:Hrun. cbn in *.
    destruct Hok as [?|[Hf|[a Hok]]]; [congruence|rewrite (Hk Hf); done|].
    apply (runtime_failure_ok (activation := a)) in Hrun as [_ Hp]; [|done]. destruct Hp as [Hp _]. congruence.
Qed.

Lemma count_quiet {E} f : always quiet (count (E := E) f).
Proof.
  unfold count. apply always_modify. intros w. apply quiet_engine; [|by intros Hf].
  intros Hok. split; [by apply counters_ok|]. apply (evolves_counted (f (nfqueue_counters (shared w)))).
  constructor.
Qed.

Lemma failure_locks {E} role w w' r :
  role <> LearningRole -> world_ok w -> handle_packet_queue_failure (E := E) role w = (w', r) ->
  stopping w' = true /\ forall w'', later w' w'' -> ~ live w''.
Proof.
  intros Hrole Hok. unfold handle_packet_queue_failure. rewrite run_bind.
  pose proof (count_quiet (E := E) Bus.record_terminal_queue_error w) as [Hq _].
  apply (later_ok _ _ Hq) in Hok. clear Hq. fold (record_terminal_queue_error (E := E)) in Hok.
  change (record_terminal_queue_error w) with ((record_terminal_queue_error (E := E) w).1, Ok (E := E) tt).
  set (w1 := (record_terminal_queue_error w).1) in *. clearbody w1. cbv beta iota.
  assert (Hrun : (quarantine_engine ;; store_shutdown) w1 = (w', r) ->
    stopping w' = true /\ forall w'', later w' w'' -> ~ live w'').
  { rewrite run_quarantine. unfold store_shutdown, modify. intros [= <- _].
    split; [done|]. intros w'' Hl. apply (quarantined_locked w1); [done|].
    etrans; [|exact Hl]. by apply later_same. }
  by destruct role.
Qed.

Lemma count_steady {E} f : always steady (count (E := E) f).
Proof. intros w. split; [apply (count_quiet (E := E) f)|done]. Qed.

Lemma load_shutdown_quiet {E} : always quiet (load_shutdown (E := E)).
Proof. apply always_quiet, load_shutdown_steady. Qed.

Lemma instant_now_quiet {E} : always quiet (instant_now (E := E)).
Proof. apply always_quiet, instant_now_steady. Qed.

Lemma lock_registry_quiet : always quiet lock_registry.
Proof. apply always_quiet, lock_registry_steady. Qed.

Lemma with_registry_quiet {E F A} (m : ST Registry F A) : always quiet (with_registry (E := E) m).
Proof. intros w. unfold with_registry. destruct (m (registry w)). by apply quiet_same. Qed.

Lemma send_learning_quiet {E} x : always quiet (send_learning (E := E) x).
Proof. intros w. unfold send_learning. destruct (try_send _ _). by apply quiet_same. Qed.

Lemma send_attribution_quiet {E} x : always quiet (send_attribution (E := E) x).
Proof. intros w. unfold send_attribution. destruct (try_send _ _). by apply quiet_same. Qed.

Lemma attempt_quiet {E E' A} (m : ST World E A) : always quiet m -> always quiet (attempt (E' := E') m).
Proof. intros Hm w. unfold attempt. specialize (Hm w). by destruct (m w). Qed.

Lemma always_later {E A} (m : ST World E A) : always quiet m -> always later m.
Proof. intros Hm w. apply Hm. Qed.

(** Sending appends the verdict, or fails without a trace. *)
Lemma send_verdict_spec id code mark w w' r :
  send_verdict id code mark w = (w', r) ->
  shared w' = shared w /\ engine_lock_poisoned w' = engine_lock_poisoned w
  /\ stopping w' = stopping w /\ clock w' = clock w /\ resolutions w' = resolutions w
  /\ match r with
     | Ok _ => exists message, sent (socket w')
         = sent (socket w) ++ [mkSent id code mark message (shared w) (registry w) (clock w)]
     | Err _ => sent (socket w') = sent (socket w)
     end.
Proof.
  unfold send_verdict. rewrite run_get, run_modify, run_lift. cbn [socket set_socket].
  destruct (build_verdict_message _ _ _ _ _) as [message|err]; cbn [map_err]; [|by intros [= <- <-]].
  destruct (default true (head (send_results (socket w)))).
  - unfold modify. intros [= <- <-]. split_and!; eauto.
  - rewrite run_modify. unfold lift. by intros [= <- <-].
Qed.

Lemma send_verdict_later id code mark : always later (send_verdict id code mark).
Proof.
  intros w. destruct (send_verdict id code mark w) as [w' r] eqn:E.
  apply send_verdict_spec in E as (Hs & Hl & Hst & Hc & Hr & _). cbn [fst].
  apply later_same; [done..|congruence|lia|by rewrite Hr].
Qed.
End World.

(** Closes the primitive steps of the runtime. *)
Ltac quiet_primitive :=
  first
    [ apply lock_engine_quiet | apply lock_registry_quiet | apply quarantine_engine_quiet
    | apply count_quiet | apply load_shutdown_quiet | apply instant_now_quiet
    | apply with_registry_quiet | apply send_learning_quiet | apply send_attribution_quiet
    | intros ?; by apply quiet_same ].
Ltac steady_primitive :=
  first
    [ apply lock_registry_steady | apply load_shutdown_steady | apply instant_now_steady
    | apply count_steady | intros ?; by apply steady_same ].
Ltac later_primitive :=
  first [ apply send_verdict_later | apply always_later; quiet_primitive ].
