(* ===== verification/Verdicts.v ===== *)
(** * Deciding packets and returning their verdicts

    The decision of a batch of queued packets against a snapshot of the policy,
    and the return of each verdict under the engine's lock after a check that
    the decision still stands ([nfqueue.rs]). *)

From S2P Require Import Prelude Text Net Application Model State StateFacts StateLearning.
From S2P Require Import StateLearningFacts Policy Learning Snapshots Marks Nftables Decision.
From S2P Require Import Netlink Packet Progress Capture Registry.
From S2P Require Import Protocol Bus Pinning Storage Engine EngineLearning EngineControl EngineLaws.
From S2P Require Import EngineSafety EngineRuns Authority Runtime.
Local Open Scope Z_scope.

Inductive QueueVerdictStrategy : Type := AcceptStrategy | RepeatWithHandoffMark.

Record PacketAuthorization : Type := mkAuthorization {
  auth_mode : Mode;
  auth_flow_generation : Z;
  auth_packet_mark : Z;
  auth_action : RuleAction;
  observation_error : option QueueFailure;
  defer_learning_attribution : bool
}.

Inductive PacketAttributionPlan : Type :=
| Resolve (requirements : IdentityCaptureRequirements)
| AcceptNetworkFallback
| AcceptAndObserveLearning.

(** ** Pure decisions *)

Definition PacketAuthorization_learning (snapshot : ApplicationDecisionPolicy) (packet_mark : Z)
    (observation_error : option QueueFailure) : PacketAuthorization :=
  mkAuthorization snapshot.(policy_snapshot).(snap_mode)
    snapshot.(policy_snapshot).(snap_flow_generation) packet_mark Accept observation_error false.

Definition authorization_remains_valid (authorization : PacketAuthorization) (current_mode : Mode)
    (current_flow_generation : Z) (stopping : bool) : bool :=
  negb stopping && (current_mode ==? authorization.(auth_mode))
  && (current_flow_generation =? authorization.(auth_flow_generation)).

Definition authorization_verdict (action : RuleAction) (strategy : QueueVerdictStrategy)
    (packet_mark : Z) : Z * option Z :=
  match action, strategy with
  | Accept, AcceptStrategy => (NF_ACCEPT, None)
  | Accept, RepeatWithHandoffMark => (NF_REPEAT, Some (application_handoff_mark packet_mark))
  | Drop, _ => (NF_DROP, None)
  | Reject, AcceptStrategy => (NF_ACCEPT, Some (application_reject_mark packet_mark))
  | Reject, RepeatWithHandoffMark => (NF_REPEAT, Some (application_reject_mark packet_mark))
  end.

Section Verdicts.
Context {B D : Type} `{BackendLaws B} `{StoreLaws D} `{IpNetLib} `{JsonLib} `{Target} `{HashOrder}.
Abbreviation World := (World (B := B) (D := D)).
Abbreviation SentVerdict := (SentVerdict (B := B) (D := D)).

Definition packet_attribution_plan (snapshot : ApplicationDecisionPolicy) (packet : QueuedPacket)
    : Result QueueFailure PacketAttributionPlan :=
  fail_if (negb (packet.(packet_mark) =? application_pending_mark packet.(packet_mark)))
    OutsidePendingDomain ;;
  match snapshot.(policy_snapshot).(snap_mode) with
  | BlockAll => Err BlockAllDenies
  | Learning =>
      Ok match deny_capture_requirements snapshot packet.(connection) with
         | Some requirements => Resolve requirements
         | None => AcceptAndObserveLearning
         end
  | Enforcing =>
      match enforcement_capture_requirements snapshot packet.(connection) with
      | Some requirements => Ok (Resolve requirements)
      | None =>
          match matching_network_accept snapshot packet.(connection) with
          | Some _ => Ok AcceptNetworkFallback
          | None => Err NoRuleForEndpoint
          end
      end
  end.

(** The endpoint that an identified process was seen to use. *)
Definition observed_endpoint (c : OutboundConnection) (identity : ApplicationIdentity)
    : Result QueueFailure LearnedApplicationEndpoint :=
  selector ← map_err (fun _ => ObservationInvalid) (learned_selector identity);
  port ← match c.(destination_port) with
         | Some port => Some <$> map_err (fun _ => ObservationInvalid) (PortRange_single port)
         | None => Ok None
         end;
  let learned := mkLearnedApplicationEndpoint
    (mkLearnedEndpoint c.(destination_address) c.(conn_protocol) port
       (Some c.(output_interface))) selector in
  map_err (fun _ => ObservationInvalid) (LearnedApplicationEndpoint_validate learned) ;;
  mret learned.

(** Offering an observation to the learning thread: its failure is telemetry,
    unless the engine refuses. *)
Definition offer_observation (snapshot : ApplicationDecisionPolicy)
    (learned : LearnedApplicationEndpoint) : ST World QueueFailure (option QueueFailure) :=
  locked ← lock_engine;
  if negb locked then
    quarantine_engine ;; store_shutdown ;; lift (Err EngineMutexPoisoned)
  else
    let snapshot := snapshot.(policy_snapshot) in
    admission ← with_engine (application_learning_queue_admission snapshot.(snap_mode)
                               snapshot.(snap_flow_generation) learned);
    match admission with
    | Err error =>
        if error.(code) ==? Conflict then mret (Some (ObservationConflict error))
        else quarantine_engine ;; store_shutdown ;; lift (Err (EngineRefused error))
    | Ok Enqueue =>
        sent ← send_learning (mkObservation snapshot.(snap_flow_generation) learned);
        mret match sent with
             | None => None
             | Some Full => Some ObservationQueueFull
             | Some Disconnected => Some ObservationWorkerGone
             end
    | Ok PersistencePaused => mret (Some ObservationPersistencePaused)
    | Ok _ => mret None
    end.

Definition authorize_attributed_packet (snapshot : ApplicationDecisionPolicy)
    (packet : QueuedPacket) (identity : ApplicationIdentity)
    : ST World QueueFailure PacketAuthorization :=
  let mode := snapshot.(policy_snapshot).(snap_mode) in
  let authorization action := mkAuthorization mode
    snapshot.(policy_snapshot).(snap_flow_generation) packet.(packet_mark) action None false in
  match mode with
  | BlockAll => lift (Err BlockAllDenies)
  | Enforcing =>
      lift (ok_or NoRuleMatched
              ((fun rule => authorization rule.(spec).(action))
               <$> matching_rule snapshot packet.(connection) identity))
  | Learning =>
      match matching_deny_rule snapshot packet.(connection) identity with
      | Some rule => mret (authorization rule.(spec).(action))
      | None =>
          observation_error ←
            match observed_endpoint packet.(connection) identity with
            | Err error => mret (Some error)
            | Ok learned => offer_observation snapshot learned
            end;
          mret (PacketAuthorization_learning snapshot packet.(packet_mark) observation_error)
      end
  end.

(** ** Deciding a batch *)

Abbreviation Decision := (Result QueueFailure PacketAuthorization) (only parsing).

(** The first loop: what is decided at once, and which packets need the
    identity of their process, by their index in the batch. *)
Definition immediate_acceptance (snapshot : ApplicationDecisionPolicy) (packet : QueuedPacket)
    (defer : bool) : PacketAuthorization :=
  mkAuthorization snapshot.(policy_snapshot).(snap_mode)
    snapshot.(policy_snapshot).(snap_flow_generation) packet.(packet_mark) Accept None defer.

Fixpoint plan_batch (snapshot : ApplicationDecisionPolicy) (index : nat)
    (batch : list QueuedPacketWork)
    : list (option Decision) * list (nat * (OutboundConnection * IdentityCaptureRequirements)) :=
  match batch with
  | [] => ([], [])
  | work :: rest =>
      let '(decisions, requests) := plan_batch snapshot (S index) rest in
      match work.(work_packet) with
      | Err error => (Some (Err (PacketNotParsed error)) :: decisions, requests)
      | Ok packet =>
          match packet_attribution_plan snapshot packet with
          | Ok (Resolve requirements) =>
              (None :: decisions, (index, (packet.(connection), requirements)) :: requests)
          | Ok AcceptNetworkFallback =>
              (Some (Ok (immediate_acceptance snapshot packet false)) :: decisions, requests)
          | Ok AcceptAndObserveLearning =>
              (Some (Ok (immediate_acceptance snapshot packet true)) :: decisions, requests)
          | Err error => (Some (Err error) :: decisions, requests)
          end
      end
  end.

(** The resolver looks at the processes of the system: its answers are part of
    the world.  Beyond the answers that the world has, it finds nothing. *)
Definition unresolved : Resolver := fun requests => (fun _ => Err (mkResolveError false [])) <$> requests.
Definition next_resolver (w : World) : Resolver := default unresolved (head w.(resolutions)).

Definition resolve_batch {E} (requests : list (OutboundConnection * IdentityCaptureRequirements))
    : ST World E (list (Result ResolveError ApplicationIdentity)) :=
  w ← get;
  modify (fun w => set_resolutions (tail w.(resolutions)) w) ;;
  mret (next_resolver w requests).

Fixpoint attribute_packets {E} (snapshot : ApplicationDecisionPolicy)
    (batch : list QueuedPacketWork) (answers : list (nat * Result ResolveError ApplicationIdentity))
    (decisions : list (option Decision)) : ST World E (list (option Decision)) :=
  match answers with
  | [] => mret decisions
  | (index, identity) :: rest =>
      decision ←
        match batch !! index with
        | Some (mkWork _ (Ok packet)) =>
            match identity with
            | Ok identity => attempt (authorize_attributed_packet snapshot packet identity)
            | Err error => mret (Err (IdentityNotEstablished error))
            end
        | Some (mkWork _ (Err error)) => mret (Err (PacketNotParsed error))
        | None => mret (Err DecisionUnavailable)
        end;
      attribute_packets snapshot batch rest (<[index := Some decision]> decisions)
  end.

Definition decision_snapshot : ST World QueueFailure ApplicationDecisionPolicy :=
  locked ← lock_engine;
  lift (ensure locked EngineMutexPoisoned) ;;
  w ← get;
  lift (map_err EngineRefused (application_decision_snapshot w.(shared))).

Definition decide_packet_batch_until {E} (batch : list QueuedPacketWork)
    : ST World E (list Decision) :=
  snapshot ← attempt decision_snapshot;
  match snapshot with
  | Err error =>
      quarantine_engine ;;
      store_shutdown ;;
      mret ((fun work => match work.(work_packet) with
                         | Ok _ => Err error
                         | Err error => Err (PacketNotParsed error)
                         end) <$> batch)
  | Ok snapshot =>
      let '(decisions, requests) := plan_batch snapshot 0 batch in
      identities ← resolve_batch requests.*2;
      decisions ← attribute_packets snapshot batch (zip requests.*1 identities) decisions;
      mret (default (Err DecisionUnavailable) <$> decisions)
  end.

(** ** Returning verdicts *)

Definition return_packet_verdict (packet_id : Z) (decision : Decision)
    (verdict_strategy : QueueVerdictStrategy) : ST World QueueFailure (bool * option QueueFailure) :=
  match decision with
  | Err error => send_verdict packet_id NF_DROP None ;; mret (false, Some error)
  | Ok authorization =>
      locked ← lock_engine;
      if negb locked then
        quarantine_engine ;; store_shutdown ;;
        send_verdict packet_id NF_DROP None ;;
        mret (false, Some EngineMutexPoisoned)
      else
        w ← get;
        match application_decision_identity w.(shared) with
        | Err error =>
            quarantine_engine ;; store_shutdown ;;
            send_verdict packet_id NF_DROP None ;;
            mret (false, Some (EngineRefused error))
        | Ok (current_mode, current_flow_generation) =>
            stopping ← load_shutdown;
            if negb (authorization_remains_valid authorization current_mode
                       current_flow_generation stopping) then
              send_verdict packet_id NF_DROP None ;;
              mret (false, Some PolicyChanged)
            else
              let '(verdict_code, verdict_mark) :=
                authorization_verdict authorization.(auth_action) verdict_strategy
                  authorization.(auth_packet_mark) in
              send_verdict packet_id verdict_code verdict_mark ;;
              mret (authorization.(auth_action) ==? Accept, authorization.(observation_error))
        end
  end.

Definition submit_learning_attribution {E} (observation : LearningAttributionWork)
    : ST World E bool :=
  sent ← send_attribution observation;
  match sent with
  | None => mret true
  | Some Full => record_queue_overflow ;; mret false
  | Some Disconnected => mret false
  end.

Definition enqueue_learning_attribution {E} (packet : Result ParseError QueuedPacket)
    (flow_generation : Z) : ST World E bool :=
  match packet with
  | Err _ => mret false
  | Ok packet => submit_learning_attribution (mkAttributionWork flow_generation packet None)
  end.

Definition complete_outgoing (ticket : option OutgoingTicket) (succeeded : bool)
    : ST World QueueFailure unit :=
  match ticket with
  | Some ticket =>
      lock_registry ;;
      now ← instant_now;
      modify (fun w => set_registry (settle ticket succeeded now w.(registry)).1 w)
  | None => mret tt
  end.

Definition record_outgoing_verdict (packet_id : Z) : ST World QueueFailure unit :=
  lock_registry ;;
  done ← with_registry (fun r =>
    let '(p, result) := complete packet_id r.(progress) in (set_progress p r, result));
  lift (map_err ProgressRefused done).

Definition return_enforcing_verdict (packet : QueuedPacketWork) (decision : Decision)
    (ticket : option OutgoingTicket) (verdict_strategy : QueueVerdictStrategy)
    : ST World QueueFailure unit :=
  let deferred_learning :=
    match decision with
    | Ok authorization => if authorization.(defer_learning_attribution)
                          then Some authorization.(auth_flow_generation) else None
    | Err _ => None
    end in
  let attribution_timed_out :=
    match decision with
    | Ok authorization => is_some_and is_attribution_timeout authorization.(observation_error)
    | Err error => is_attribution_timeout error
    end in
  (if attribution_timed_out then record_attribution_timeout else mret tt) ;;
  returned ← return_packet_verdict packet.(work_packet_id) decision verdict_strategy;
  let '(accepted, decision_error) := returned in
  complete_outgoing ticket (accepted && is_none decision_error) ;;
  record_outgoing_verdict packet.(work_packet_id) ;;
  (if accepted : bool then mret tt else record_denied) ;;
  match accepted, deferred_learning, packet.(work_packet) with
  | true, Some flow_generation, Ok packet =>
      _ ← enqueue_learning_attribution (Ok packet) flow_generation; mret tt
  | _, _, _ => mret tt
  end.

(** ** What the policy permits *)

(** The policy lets a process with this identity use the connection. *)
Definition permits (policy : ApplicationDecisionPolicy) (c : OutboundConnection)
    (i : ApplicationIdentity) : Prop :=
  match policy.(policy_snapshot).(snap_mode) with
  | BlockAll => False
  | Learning => matching_deny_rule policy c i = None
  | Enforcing => decided_action (matching_rule policy c i) = Some Accept
  end.

Lemma resident_mode s :
  snap_mode (policy_snapshot (build_application_decision_policy s)) = mode s
  /\ snap_flow_generation (policy_snapshot (build_application_decision_policy s)) = flow_generation s.
Proof. by rewrite resident_policy, !(proj2 (policy_fields _ _)). Qed.

Lemma permits_evolves (e e' : Engine B D) c i :
  engine_sound e -> evolves e e' -> poisoned e' = false ->
  mode (state e') = mode (state e) -> flow_generation (state e') = flow_generation (state e) ->
  permits (application_policy e) c i -> permits (application_policy e') c i.
Proof.
  intros Hok Hev Hp Hm Hg. destruct (evolves_ok _ _ Hev Hok) as [Hok' _]. unfold permits.
  pose proof (base_policy e (sound_base e Hok)) as Ep. pose proof (base_policy e' (sound_base e' Hok')) as Ep'.
  assert (snap_mode (policy_snapshot (application_policy e)) = mode (state e)) as ->
    by (rewrite Ep; apply resident_mode).
  assert (snap_mode (policy_snapshot (application_policy e')) = mode (state e')) as ->
    by (rewrite Ep'; apply resident_mode).
  rewrite Hm. destruct (mode (state e)) eqn:E; [done|..].
  - by apply absent_denial_is_kept.
  - by apply acceptance_is_kept.
Qed.

(** A rule that matches the connection and the identity matches the connection. *)
Lemma unmatched_application s c i :
  (forall r, r ∈ snap_rules s -> application_rule_network_and_uid_matches r c = false) ->
  matching_application_rule s c i = None
  /\ List.filter (fun r => fast_learned_accept_rule_matches r c i) (snap_rules s) = [].
Proof.
  intros Hall. unfold matching_application_rule. split.
  - apply min_by_key_None, elem_of_nil_inv. intros r [Hr Hm]%elem_of_filter_bool.
    apply application_match_network in Hm. by rewrite Hall in Hm.
  - apply elem_of_nil_inv. intros r [Hr Hm]%elem_of_filter_bool.
    apply fast_match_network in Hm. by rewrite Hall in Hm.
Qed.

(** The two plans that need no identity permit every process. *)
Lemma network_fallback_permits s strategy c i :
  Snapshot_validate s = Ok tt -> snap_mode s = Enforcing ->
  enforcement_capture_requirements (decision_policy s strategy) c = None ->
  is_Some (matching_network_accept (decision_policy s strategy) c) ->
  permits (decision_policy s strategy) c i.
Proof.
  intros Hv Hm Hreq Hnet. unfold permits. rewrite (proj2 (policy_fields _ _)), Hm.
  pose proof (enforcement_requirements_spec c s strategy) as Hall. rewrite Hreq in Hall.
  destruct (unmatched_application s c i Hall) as [Happ Hfast].
  rewrite matching_rule_scan by done. unfold decided_action. rewrite scan_action, deny_match_eq, Happ.
  rewrite <-scan_decided. unfold scan_decision. rewrite Happ, Hfast, <-(network_accept_scan s strategy).
  destruct Hnet as [r ->]. by destruct (strategy ==? Fast).
Qed.

Lemma unresolved_learning_permits s strategy c i :
  Snapshot_validate s = Ok tt -> snap_mode s = Learning ->
  deny_capture_requirements (decision_policy s strategy) c = None ->
  permits (decision_policy s strategy) c i.
Proof.
  intros Hv Hm Hreq. unfold permits. rewrite (proj2 (policy_fields _ _)), Hm.
  pose proof (deny_requirements_spec c s strategy) as Hall. rewrite Hreq in Hall.
  rewrite scan_deny by done. apply min_by_key_None, elem_of_nil_inv.
  intros r [[Hr Hd]%elem_of_filter_bool Hmatch]%elem_of_filter_bool.
  apply application_match_network in Hmatch. by rewrite Hall in Hmatch.
Qed.

(** ** Effects *)

Lemma admission_quiet {E} expected generation endpoint :
  always quiet (with_engine (B := B) (D := D) (E := E)
    (application_learning_queue_admission expected generation endpoint)).
Proof.
  intros w. pose proof (quiet_step (Admission expected generation endpoint) w) as Hs.
  cbn [engine_step] in Hs. unfold with_engine.
  by destruct (application_learning_queue_admission _ _ _ (shared w)) as [e r].
Qed.

Lemma offer_quiet snapshot learned : always quiet (offer_observation snapshot learned).
Proof.
  unfold offer_observation, store_shutdown. always_by ltac:(apply admission_quiet || quiet_primitive).
Qed.

Lemma authorize_quiet snapshot packet identity :
  always quiet (authorize_attributed_packet snapshot packet identity).
Proof.
  unfold authorize_attributed_packet. always_by ltac:(apply offer_quiet || quiet_primitive).
Qed.

Lemma attribute_packets_quiet {E} snapshot batch answers : forall decisions,
  always quiet (attribute_packets (E := E) snapshot batch answers decisions).
Proof.
  induction answers as [|[index identity] answers IH]; intros decisions; cbn [attribute_packets].
  - apply always_ret. exact _.
  - apply always_bind; [exact _| |intros decision; apply IH].
    always_by ltac:(apply attempt_quiet, authorize_quiet).
Qed.

Lemma snapshot_quiet : always quiet decision_snapshot.
Proof. unfold decision_snapshot. always_by quiet_primitive. Qed.

Lemma resolve_quiet {E} requests : always quiet (resolve_batch (E := E) requests).
Proof.
  unfold resolve_batch. always_by ltac:(idtac). intros w. apply quiet_same; try done.
  cbn. destruct (resolutions w) as [|x l]; [done|]. by exists [x].
Qed.

Lemma decide_quiet {E} batch : always quiet (decide_packet_batch_until (E := E) batch).
Proof.
  unfold decide_packet_batch_until, store_shutdown.
  always_by ltac:(apply attempt_quiet, snapshot_quiet || apply attribute_packets_quiet
    || apply resolve_quiet || quiet_primitive).
Qed.

(** ** Decisions of a batch *)

(** What the first loop decides about one packet. *)
Definition planned (snapshot : ApplicationDecisionPolicy) (work : QueuedPacketWork)
    : option Decision :=
  match work.(work_packet) with
  | Err error => Some (Err (PacketNotParsed error))
  | Ok packet =>
      match packet_attribution_plan snapshot packet with
      | Ok (Resolve _) => None
      | Ok AcceptNetworkFallback => Some (Ok (immediate_acceptance snapshot packet false))
      | Ok AcceptAndObserveLearning => Some (Ok (immediate_acceptance snapshot packet true))
      | Err error => Some (Err error)
      end
  end.

Lemma plan_decisions snapshot batch : forall index,
  (plan_batch snapshot index batch).1 = planned snapshot <$> batch.
Proof.
  induction batch as [|work batch IH]; intros index; [done|]. cbn [plan_batch]. specialize (IH (S index)).
  destruct (plan_batch snapshot (S index) batch) as [ds rqs]. cbn [fst] in IH.
  rewrite fmap_cons, <-IH. unfold planned.
  destruct (work_packet work) as [packet|]; [|done].
  destruct (packet_attribution_plan snapshot packet) as [[]|]; done.
Qed.

Lemma plan_requests snapshot batch : forall index k c req,
  (k, (c, req)) ∈ (plan_batch snapshot index batch).2 ->
  exists j work packet, k = (index + j)%nat /\ batch !! j = Some work
  /\ work_packet work = Ok packet /\ c = connection packet
  /\ packet_attribution_plan snapshot packet = Ok (Resolve req).
Proof.
  induction batch as [|work batch IH]; intros index k c req; [by intros ?%elem_of_nil|].
  cbn [plan_batch]. specialize (IH (S index) k c req).
  destruct (plan_batch snapshot (S index) batch) as [ds rqs]. cbn [snd] in IH.
  assert (Hrest : (k, (c, req)) ∈ rqs -> exists j work0 packet, k = (index + j)%nat
    /\ (work :: batch) !! j = Some work0 /\ work_packet work0 = Ok packet /\ c = connection packet
    /\ packet_attribution_plan snapshot packet = Ok (Resolve req)).
  { intros (j & w0 & packet & -> & Hj & ?)%IH. exists (S j), w0, packet. split; [lia|done]. }
  destruct (work_packet work) as [packet|] eqn:Hw; [|exact Hrest].
  destruct (packet_attribution_plan snapshot packet) as [[r| |]|] eqn:Hp; try exact Hrest.
  cbn [snd]. rewrite elem_of_cons. intros [[= -> -> ->]|Hin]; [|by apply Hrest].
  exists O, work, packet. split; [lia|]. done.
Qed.

(** What an authorization says about its packet. *)
Record authorized (policy : ApplicationDecisionPolicy) (packet : QueuedPacket)
    (auth : PacketAuthorization) : Prop := {
  authorized_mode : auth_mode auth = snap_mode (policy_snapshot policy);
  authorized_generation : auth_flow_generation auth = snap_flow_generation (policy_snapshot policy);
  authorized_mark : auth_packet_mark auth = packet_mark packet
}.

Lemma authorize_spec policy packet i w w' auth :
  authorize_attributed_packet policy packet i w = (w', Ok auth) ->
  authorized policy packet auth
  /\ (auth_action auth = Accept -> permits policy (connection packet) i).
Proof.
  unfold authorize_attributed_packet, permits.
  destruct (snap_mode (policy_snapshot policy)) eqn:Hm; [done|..].
  - destruct (matching_deny_rule policy (connection packet) i) as [rule|] eqn:Hd.
    + intros [= _ <-]. split; [by split|]. cbn [auth_action]. intros Ha.
      unfold matching_deny_rule in Hd. apply min_by_key_elem in Hd.
      rewrite !elem_of_filter_bool in Hd. destruct Hd as [[_ Hd] _].
      unfold is_deny in Hd. by rewrite Ha in Hd.
    + intros (err & w1 & _ & [= _ <-])%run_bind_Ok. split; [|done].
      by split; cbn; rewrite ?Hm.
  - destruct (matching_rule policy (connection packet) i) as [rule|]; [|done].
    intros [= _ <-]. split; [by split|]. cbn. by intros ->.
Qed.

Lemma attribute_packets_spec {E} policy batch answers : forall ds w w' r,
  attribute_packets (E := E) policy batch answers ds w = (w', r) ->
  exists ds', r = Ok ds' /\ length ds' = length ds
  /\ forall k auth, ds' !! k = Some (Some (Ok auth)) ->
     ds !! k = Some (Some (Ok auth))
     \/ exists i id packet, (k, Ok i) ∈ answers /\ batch !! k = Some (mkWork id (Ok packet))
        /\ authorized policy packet auth
        /\ (auth_action auth = Accept -> permits policy (connection packet) i).
Proof.
  induction answers as [|[index identity] answers IH]; intros ds w w' r; cbn [attribute_packets].
  { intros [= <- <-]. exists ds. split_and!; auto. }
  set (m := match batch !! index with Some _ => _ | None => _ end).
  assert (Hm : exists w1 d, m w = (w1, Ok d) /\ forall auth, d = Ok auth ->
    exists i id packet, identity = Ok i /\ batch !! index = Some (mkWork id (Ok packet))
    /\ authorized policy packet auth
    /\ (auth_action auth = Accept -> permits policy (connection packet) i)).
  { unfold m. destruct (batch !! index) as [[id [packet|]]|]; [|by eexists _, _..].
    destruct identity as [i|]; [|by eexists _, _]. unfold attempt.
    destruct (authorize_attributed_packet policy packet i w) as [w1 d] eqn:Ha.
    exists w1, d. split; [done|]. intros auth ->. apply authorize_spec in Ha. naive_solver. }
  clearbody m. destruct Hm as (w1 & d & Hm & Hauth). rewrite run_bind, Hm.
  intros (ds' & -> & Hlen & Hds)%IH. exists ds'. split; [done|]. rewrite length_insert in Hlen.
  split; [done|]. intros k auth [Hk|(i & id & packet & Hin & ?)]%Hds.
  - destruct (decide (k = index)) as [->|Hne].
    + apply list_lookup_insert_Some in Hk as [(_ & [= ->] & _)|[? _]]; [|done].
      destruct (Hauth auth eq_refl) as (i & id & packet & -> & ?). right.
      exists i, id, packet. rewrite elem_of_cons. auto.
    + left. by rewrite list_lookup_insert_ne in Hk.
  - right. exists i, id, packet. rewrite elem_of_cons. auto.
Qed.

Lemma live_engine_ok (w : World) : world_ok w -> live w -> engine_sound (shared w).
Proof. intros [Hl|[Hf|Hok]] (? & ? & _); [congruence..|done]. Qed.

(** The answer of the resolver about the process behind packet [k]. *)
Definition identified (policy : ApplicationDecisionPolicy) (batch : list QueuedPacketWork)
    (resolver : Resolver) (k : nat) (c : OutboundConnection) (i : ApplicationIdentity) : Prop :=
  let requests := (plan_batch policy 0 batch).2 in
  exists j req, requests !! j = Some (k, (c, req)) /\ resolver requests.*2 !! j = Some (Ok i).

(** Why a packet may be accepted: whoever sent it, or the process that did. *)
Definition accepted_for (policy : ApplicationDecisionPolicy) (batch : list QueuedPacketWork)
    (resolver : Resolver) (k : nat) (c : OutboundConnection)
    (permitted : ApplicationIdentity -> Prop) : Prop :=
  (forall i, permitted i) \/ exists i, identified policy batch resolver k c i /\ permitted i.

Lemma planned_spec (e : Engine B D) work auth :
  engine_sound e -> planned (application_policy e) work = Some (Ok auth) ->
  exists packet, work_packet work = Ok packet /\ authorized (application_policy e) packet auth
  /\ forall i, permits (application_policy e) (connection packet) i.
Proof.
  intros Hok. unfold planned. destruct (work_packet work) as [packet|]; [|done].
  unfold packet_attribution_plan. rewrite (base_policy e (sound_base e Hok)), resident_policy.
  set (s := mkSnapshot _ _ _ _). set (strategy := if mode (state e) ==? Enforcing then _ else _).
  assert (Hv : Snapshot_validate s = Ok tt) by (apply filter_snapshot_validates, sound_base, Hok).
  destruct (fail_if _ _); [|done]. cbn [mbind Result_bind].
  rewrite (proj2 (policy_fields s strategy)). destruct (snap_mode s) eqn:Hm; [done|..].
  - destruct (deny_capture_requirements _ _) eqn:Hreq; [done|]. intros [= <-].
    exists packet. split; [done|]. split; [by split|]. intros i. by apply unresolved_learning_permits.
  - destruct (enforcement_capture_requirements _ _) eqn:Hreq; [done|].
    destruct (matching_network_accept _ _) eqn:Hnet; [|done]. intros [= <-].
    exists packet. split; [done|]. split; [by split|]. intros i.
    apply network_fallback_permits; by eauto.
Qed.

Lemma turns_resolutions turns : forall w : World,
  resolutions (foldl engine_turn w turns) = resolutions w.
Proof.
  induction turns as [|turn turns IH]; intros w; [done|]. cbn [foldl]. rewrite IH.
  unfold engine_turn. by repeat case_match.
Qed.

Lemma snapshot_spec (w w' : World) policy :
  decision_snapshot w = (w', Ok policy) ->
  live w' /\ policy = application_policy (shared w') /\ resolutions w' = resolutions w.
Proof.
  unfold decision_snapshot. rewrite run_lock_engine, run_lift.
  destruct (engine_lock_poisoned _) eqn:Hl; [done|]. cbn [negb ensure]. rewrite run_get.
  unfold application_decision_snapshot, lift.
  destruct (fatal _ || poisoned _) eqn:Hfp; [done|]. apply orb_false_iff in Hfp as [Hf Hp].
  intros [= <- <-]. split; [by split_and!|]. split; [done|]. apply turns_resolutions.
Qed.

Lemma decide_spec {E} batch (w w' : World) r :
  world_ok w -> decide_packet_batch_until (E := E) batch w = (w', r) ->
  exists ds, r = Ok ds /\ length ds = length batch
  /\ forall k auth, ds !! k = Some (Ok auth) ->
     exists w0 id packet, let policy := application_policy (shared w0) in
     later w w0 /\ later w0 w' /\ live w0 /\ batch !! k = Some (mkWork id (Ok packet))
     /\ authorized policy packet auth
     /\ (auth_action auth = Accept ->
         accepted_for policy batch (next_resolver w) k (connection packet)
           (permits policy (connection packet))).
Proof.
  intros Hok. unfold decide_packet_batch_until. rewrite run_bind. unfold attempt.
  destruct (decision_snapshot w) as [w0 [policy|err]] eqn:Hs.
  2: { rewrite run_quarantine.
       unfold store_shutdown. rewrite run_modify. intros [= <- <-]. eexists. split; [done|].
       rewrite length_fmap. split; [done|]. intros k auth. rewrite list_lookup_fmap.
       destruct (batch !! k) as [[id [|]]|]; done. }
  pose proof (snapshot_quiet w) as [Hl0 _]. rewrite Hs in Hl0. cbn [fst] in Hl0.
  apply snapshot_spec in Hs as (Hlive & -> & Hres).
  pose proof (live_engine_ok w0 (later_ok _ _ Hl0 Hok) Hlive) as Hok0.
  set (policy := application_policy (shared w0)).
  pose proof (plan_decisions policy batch 0) as Hplan.
  destruct (plan_batch policy 0 batch) as [ds0 rqs] eqn:Hpb. cbn [fst] in Hplan. subst ds0.
  rewrite run_bind. unfold resolve_batch at 1. rewrite run_get, run_modify.
  cbv beta iota delta [mret ST_ret]. set (answers := next_resolver w0 rqs.*2).
  set (w1 := set_resolutions _ w0). rewrite run_bind.
  pose proof (attribute_packets_quiet (E := E) policy batch (zip rqs.*1 answers)
    (planned policy <$> batch) w1) as [Hl1 _].
  destruct (attribute_packets _ _ _ _ w1) as [w2 r2] eqn:Ha. cbn [fst] in Hl1.
  apply attribute_packets_spec in Ha as (ds & -> & Hlen & Hds). intros [= <- <-].
  eexists. split; [done|]. rewrite length_fmap, Hlen, length_fmap. split; [done|].
  intros k auth Hk. rewrite list_lookup_fmap in Hk. apply fmap_Some in Hk as ([d|] & Hk & Hd); [|done].
  cbn [from_option id] in Hd. subst d.
  assert (Hl2 : later w0 w2).
  { etrans; [|exact Hl1]. apply (resolve_quiet (E := E) rqs.*2 w0). }
  apply Hds in Hk as [Hk|(i & id & packet & Hin & Hb & Hauth & Hperm)].
  - rewrite list_lookup_fmap in Hk. apply fmap_Some in Hk as (work & Hb & Hp). symmetry in Hp.
    apply (planned_spec (shared w0)) in Hp as (packet & Hw & Hauth & Hperm); [|done].
    destruct work as [id pk]. cbn [work_packet] in Hw. subst pk.
    exists w0, id, packet. split_and!; try done. intros _. by left.
  - exists w0, id, packet. split_and!; try done. intros Hacc. right. exists i. split; [|by apply Hperm].
    apply list_elem_of_lookup in Hin as [j Hj]. apply lookup_zip_Some in Hj as [Hj Hans].
    rewrite list_lookup_fmap in Hj. apply fmap_Some in Hj as ([k' [c req]] & Hj & E'). cbn in E'. subst k'.
    assert (Hc : c = connection packet).
    { pose proof (plan_requests policy batch 0 k c req) as Hpr. rewrite Hpb in Hpr.
      destruct Hpr as (j' & work & packet' & -> & Hb' & Hw' & -> & _).
      - by apply list_elem_of_lookup; eauto.
      - cbn in Hb. rewrite Hb in Hb'. by simplify_eq/=. }
    subst c. unfold identified. fold policy. rewrite Hpb. exists j, req. split; [done|].
    unfold answers, next_resolver in Hans. by rewrite Hres in Hans.
Qed.

(** ** Verdicts *)

(** The engine still stands by an authorization. *)
Record stands (w : World) (auth : PacketAuthorization) : Prop := {
  stands_live : live w;
  stands_running : stopping w = false;
  stands_mode : mode (state (shared w)) = auth_mode auth;
  stands_generation : flow_generation (state (shared w)) = auth_flow_generation auth
}.

Lemma stands_identity (w : World) auth m g :
  engine_lock_poisoned w = false -> application_decision_identity (shared w) = Ok (m, g) ->
  authorization_remains_valid auth m g (stopping w) = true -> stands w auth.
Proof.
  unfold application_decision_identity, authorization_remains_valid. intros Hl.
  destruct (fatal (shared w) || poisoned (shared w)) eqn:Hfp; [done|].
  apply orb_false_iff in Hfp as [Hf Hp]. intros [= <- <-].
  rewrite !andb_true_iff, negb_true_iff, eqb_true, Z.eqb_eq. intros [[Hs Hm] Hg].
  split; [|done..]. by split_and!.
Qed.

(** The verdict that was sent: a drop, or what an authorization says that stood
    when it was sent. *)
Definition answered (w w' : World) (id : Z) (decision : Decision) (strategy : QueueVerdictStrategy)
    (m : SentVerdict) (accepted : bool) (error : option QueueFailure) : Prop :=
  sent_id m = id
  /\ ((accepted = false /\ is_Some error /\ sent_code m = NF_DROP /\ sent_mark m = None)
      \/ exists auth ws, decision = Ok auth /\ later w ws /\ later ws w' /\ stands ws auth
         /\ sent_engine m = shared ws
         /\ (sent_code m, sent_mark m)
            = authorization_verdict (auth_action auth) strategy (auth_packet_mark auth)
         /\ accepted = (auth_action auth ==? Accept) /\ error = observation_error auth).

Lemma drop_spec (w w0 w' : World) id decision strategy error r :
  quiet w w0 ->
  (send_verdict id NF_DROP None ;; mret (false, Some error)) w0 = (w', r) ->
  later w w'
  /\ match r with
     | Ok (accepted, error) => exists m, sent (socket w') = sent (socket w) ++ [m]
         /\ answered w w' id decision strategy m accepted error
     | Err _ => sent (socket w') = sent (socket w)
     end.
Proof.
  intros [Hl Hsock] Hrun.
  assert (Hl' : later w w').
  { etrans; [exact Hl|]. change w' with (w', r).1. rewrite <-Hrun.
    assert (Ha : always later (send_verdict id NF_DROP None ;; mret (false, Some error)
      : ST World QueueFailure _)) by (always_by later_primitive). apply Ha. }
  split; [done|]. rewrite run_bind in Hrun.
  destruct (send_verdict id NF_DROP None w0) as [w1 [[]|err]] eqn:Hs;
    apply send_verdict_spec in Hs as (_ & _ & _ & _ & _ & Hs); injection Hrun as <- <-.
  - destruct Hs as [message ->]. rewrite Hsock. eexists. split; [done|]. split; [done|].
    left. by eauto.
  - by rewrite Hs, Hsock.
Qed.

Lemma return_packet_spec id decision strategy (w w' : World) r :
  return_packet_verdict id decision strategy w = (w', r) ->
  later w w'
  /\ match r with
     | Ok (accepted, error) => exists m, sent (socket w') = sent (socket w) ++ [m]
         /\ answered w w' id decision strategy m accepted error
     | Err _ => sent (socket w') = sent (socket w)
     end.
Proof.
  unfold return_packet_verdict. destruct decision as [auth|err]; [|by apply drop_spec].
  rewrite run_lock_engine. pose proof (take_turns_quiet w) as Hq.
  set (w1 := take_engine_turns w) in *. clearbody w1.
  assert (Hquar : quiet w (set_stopping true (stop_turns (quarantined w1)) (quarantined w1))).
  { etrans; [exact Hq|]. etrans; [apply quarantined_quiet|]. by apply quiet_same. }
  destruct (engine_lock_poisoned w1) eqn:Hlock; cbn [negb].
  { rewrite run_quarantine. unfold store_shutdown. rewrite run_modify. by apply drop_spec. }
  rewrite run_get. destruct (application_decision_identity (shared w1)) as [[m g]|err] eqn:Hid.
  2: { rewrite run_quarantine. unfold store_shutdown. rewrite run_modify. by apply drop_spec. }
  rewrite run_load_shutdown. cbv zeta. set (w2 := set_stopping _ _ w1).
  assert (Hq2 : quiet w w2).
  { etrans; [exact Hq|]. apply quiet_same; try done. intros Hs. cbn. by rewrite Hs. }
  destruct (authorization_remains_valid auth m g _) eqn:Hvalid; cbn [negb]; [|by apply drop_spec].
  pose proof (stands_identity w2 auth m g Hlock Hid Hvalid) as Hstands.
  destruct (authorization_verdict _ _ _) as [code mark] eqn:Hav. rewrite run_bind.
  pose proof (send_verdict_later id code mark w2) as Hl.
  destruct (send_verdict id code mark w2) as [w3 [[]|err]] eqn:Hs; cbn [fst] in Hl;
    apply send_verdict_spec in Hs as (Hsh & Hlo & Hst & _ & _ & Hs).
  2: { intros [= <- <-]. split; [etrans; [apply Hq2|done]|]. by rewrite Hs, (proj2 Hq2). }
  cbv beta iota delta [mret ST_ret]. intros [= <- <-]. split; [etrans; [apply Hq2|done]|].
  destruct Hs as [message Hs]. exists (mkSent id code mark message (shared w2) (registry w2) (clock w2)).
  split; [by rewrite Hs, (proj2 Hq2)|]. split; [done|]. right. exists auth, w2.
  split_and!; try done. apply Hq2.
Qed.

(** A packet gets one verdict, or none and the error says so. *)
Lemma return_enforcing_spec work decision ticket strategy (w w' : World) r :
  return_enforcing_verdict work decision ticket strategy w = (w', r) ->
  later w w'
  /\ ((is_ok r = false /\ sent (socket w') = sent (socket w))
      \/ exists m accepted error, sent (socket w') = sent (socket w) ++ [m]
         /\ answered w w' (work_packet_id work) decision strategy m accepted error).
Proof.
  unfold return_enforcing_verdict. rewrite run_bind.
  set (timed_out := match decision with Ok _ => _ | Err _ => _ end).
  assert (exists w1, (if timed_out then record_attribution_timeout else mret tt : ST World QueueFailure _) w
    = (w1, Ok tt) /\ quiet w w1) as (w1 & -> & Hq).
  { destruct timed_out; [|by exists w]. eexists. split; [reflexivity|].
    apply (count_quiet (E := QueueFailure)). }
  rewrite run_bind. destruct (return_packet_verdict _ decision strategy w1) as [w2 r2] eqn:Hret.
  apply return_packet_spec in Hret as [Hl2 Hret]. rewrite (proj2 Hq) in Hret.
  destruct r2 as [[accepted error]|err].
  2: { intros [= <- <-]. split; [etrans; [apply Hq|done]|]. by left. }
  destruct Hret as (m & Hsent & Hans). intros Hrun.
  assert (Ha : quiet w2 w').
  { change w' with (w', r).1. rewrite <-Hrun.
    match goal with |- quiet _ (?m w2).1 => assert (Hm : always quiet m); [|apply Hm] end.
    unfold complete_outgoing, record_outgoing_verdict, enqueue_learning_attribution,
      submit_learning_attribution.
    always_by quiet_primitive. }
  split; [etrans; [apply Hq|]; etrans; [exact Hl2|apply Ha]|]. right. exists m, accepted, error.
  rewrite (proj2 Ha). split; [done|]. destruct Hans as [Hid Hcase]. split; [done|].
  destruct Hcase as [?|(auth & ws & Hd & Hl1 & Hl3 & Hrest)]; [by left|]. right. exists auth, ws.
  split; [done|]. split; [etrans; [apply Hq|done]|]. split; [etrans; [done|apply Ha]|done].
Qed.

(** A standing authorization carries over what was decided when it was made. *)
Lemma stands_permits (wd ws : World) packet auth i :
  world_ok wd -> live wd -> later wd ws -> authorized (application_policy (shared wd)) packet auth ->
  stands ws auth -> permits (application_policy (shared wd)) (connection packet) i ->
  permits (application_policy (shared ws)) (connection packet) i.
Proof.
  intros Hok Hlived Hl [Hamode Hagen _] [Hlive _ Hmode Hgen].
  pose proof (live_engine_ok wd Hok Hlived) as Hokd.
  destruct (later_live _ _ Hl Hok Hlive) as [_ Hev].
  destruct (resident_mode (state (shared wd))) as [Em Eg].
  rewrite <-(base_policy _ (sound_base _ Hokd)) in Em, Eg.
  apply permits_evolves; [done..|apply Hlive|congruence|congruence].
Qed.

(** A verdict that lets a packet pass; a rejected packet carries its own mark. *)
Definition accepting (m : SentVerdict) : Prop :=
  exists strategy mark, (sent_code m, sent_mark m) = authorization_verdict Accept strategy mark.

Lemma accepting_action m action strategy mark :
  accepting m -> (sent_code m, sent_mark m) = authorization_verdict action strategy mark ->
  action = Accept.
Proof.
  intros (strategy' & mark' & ->). destruct action, strategy, strategy'; try done.
  cbn. intros [= Hmark]. rewrite handoff_sum, reject_sum in Hmark.
  pose proof (Z.mod_pos_bound mark (2 ^ 30) ltac:(lia)).
  pose proof (Z.mod_pos_bound mark' (2 ^ 30) ltac:(lia)). lia.
Qed.

(** The engine is not locked. *)
Definition unlocked (e : Engine B D) : Prop := fatal e = false /\ poisoned e = false.
End Verdicts.
