(* ===== verification/Enforcing.v ===== *)
(** * The reader of the enforcing queue

    [nfqueue_enforcing.rs]: one reader receives packets, schedules them, hands
    batches to one attribution worker and returns every verdict itself.
    [Reader] is its state together with the two channels between the threads;
    what arrives on the socket and when the worker runs are scripts. *)

From S2P Require Import Prelude Text Net Application Model State StateFacts StateLearning.
From S2P Require Import StateLearningFacts Policy Learning Snapshots Marks Nftables Decision.
From S2P Require Import Netlink Packet Scheduler Progress Capture Registry.
From S2P Require Import Protocol Bus Pinning Storage Engine EngineLearning EngineControl EngineLaws.
From S2P Require Import EngineSafety EngineRuns Authority Runtime Verdicts.
Local Open Scope Z_scope.

Abbreviation PENDING_CAPACITY := 128 (only parsing).
Abbreviation DECISION_BUDGET := 2000000000 (only parsing).
Abbreviation Decision := (Result QueueFailure PacketAuthorization) (only parsing).

Record Job : Type := mkJob {
  job_batch : list QueuedPacketWork;
  job_tickets : list (option OutgoingTicket);
  job_deadline : Z
}.

Record ImmediatePacket : Type := mkImmediate {
  immediate_work : QueuedPacketWork;
  immediate_ticket : option OutgoingTicket;
  immediate_verdict : Decision;
  timed_out : bool
}.

Record Completion : Type := mkCompletion {
  completed_job : Job;
  completed_decisions : list Decision
}.

Definition can_receive (pending in_flight progress_free : Z) : bool :=
  (usize_saturating_add (usize_saturating_add pending in_flight) MAX_PACKET_BATCH_SIZE
     <=? PENDING_CAPACITY)
  && (MAX_PACKET_BATCH_SIZE <=? progress_free).

Section Enforcing.
Context {B D : Type} `{BackendLaws B} `{StoreLaws D} `{IpNetLib} `{JsonLib} `{Target} `{HashOrder}.
Context (if_indextoname : Z -> option (option ustring)).
Abbreviation World := (World (B := B) (D := D)).

(** ** Admission to the worker's batch *)

Definition immediate_decision (snapshot : ApplicationDecisionPolicy) (work : QueuedPacketWork)
    : option Decision :=
  match work.(work_packet) with
  | Err error => Some (Err (PacketNotParsed error))
  | Ok packet =>
      match packet_attribution_plan snapshot packet with
      | Ok (Resolve _) => None
      | Ok AcceptNetworkFallback => Some (Ok (immediate_acceptance snapshot packet false))
      | Ok AcceptAndObserveLearning => Some (Ok (immediate_acceptance snapshot packet true))
      | Err error => Some (Err error)
      end
  end.

Definition Job_admit (snapshot : ApplicationDecisionPolicy) (work : QueuedPacketWork)
    (ticket : option OutgoingTicket) (deadline now : Z) (self : Job)
    : Job * option ImmediatePacket :=
  let timed_out := deadline <=? now in
  let immediate := if timed_out then Some (Err QueueWaitTimedOut)
                   else immediate_decision snapshot work in
  match immediate with
  | Some decision => (self, Some (mkImmediate work ticket decision timed_out))
  | None =>
      (mkJob (self.(job_batch) ++ [work]) (self.(job_tickets) ++ [ticket])
         (Z.min self.(job_deadline) deadline), None)
  end.

(** ** Registration of outgoing packets *)

Definition register_outgoing_packets (packets : list QueuedPacketWork) : ST World QueueFailure unit :=
  lock_registry ;;
  done ← with_registry (fun r =>
    let '(p, result) :=
      admit_classified ((fun work => (work.(work_packet_id), classify_outgoing work)) <$> packets)
        r.(progress) in
    (set_progress p r, result));
  lift (map_err ProgressRefused done).

Definition outgoing_packet_capacity : ST World QueueFailure Z :=
  lock_registry ;;
  w ← get;
  mret (remaining_capacity w.(registry).(progress)).

(** The tickets of a batch; an error leaves the tickets that were begun. *)
Fixpoint begin_tickets (mode : Mode) (generation' : Z) (batch : list QueuedPacketWork)
    : ST World QueueFailure (list (option OutgoingTicket)) :=
  match batch with
  | [] => mret []
  | work :: rest =>
      ticket ←
        match work.(work_packet) with
        | Ok packet =>
            let c := packet.(connection) in
            if negb (mode ==? Enforcing)
               || negb ((c.(conn_protocol) ==? Udp) || (c.(conn_protocol) ==? Icmp)
                        || (c.(conn_protocol) ==? IcmpV6))
            then mret None
            else
              port ← lift (ok_or OutgoingWithoutPort c.(source_port));
              now ← instant_now;
              ticket ← with_registry (begin
                (mkFlowKey c.(source_address) port c.(destination_address)
                   c.(destination_port) c.(conn_protocol)) generation' now);
              ticket ← lift (map_err TicketRefused ticket);
              mret (Some ticket)
        | Err _ => mret None
        end;
      tickets ← begin_tickets mode generation' rest;
      mret (ticket :: tickets)
  end.

Definition register_outgoing_batch (batch : list QueuedPacketWork)
    : ST World QueueFailure (list (option OutgoingTicket)) :=
  locked ← lock_engine;
  lift (ensure locked EngineMutexPoisoned) ;;
  w ← get;
  identity ← lift (map_err EngineRefused (application_decision_identity w.(shared)));
  lock_registry ;;
  begin_tickets identity.1 identity.2 batch.

(** ** The reader *)

(** What the worker does before the reader looks at its channel. *)
Inductive WorkerTurn : Type := WorkerWaits | WorkerDecides | WorkerStops.

(** [jobs] and [completions] are the channels, of one slot each.  [received]
    is every packet so far, which the code does not keep. *)
Record Reader : Type := mkReader {
  world : World;
  queue : FairQueue;
  in_flight : Z;
  jobs : option Job;
  completions : option Completion;
  worker_gone : bool;
  worker_turns : list WorkerTurn;
  arrivals : list (Result QueueFailure QueueReceive);
  received : list QueuedPacketWork
}.

Definition set_world (v : World) (r : Reader) : Reader :=
  mkReader v r.(queue) r.(in_flight) r.(jobs) r.(completions) r.(worker_gone) r.(worker_turns)
    r.(arrivals) r.(received).
Definition set_queue (v : FairQueue) (r : Reader) : Reader :=
  mkReader r.(world) v r.(in_flight) r.(jobs) r.(completions) r.(worker_gone) r.(worker_turns)
    r.(arrivals) r.(received).
Definition set_in_flight (v : Z) (r : Reader) : Reader :=
  mkReader r.(world) r.(queue) v r.(jobs) r.(completions) r.(worker_gone) r.(worker_turns)
    r.(arrivals) r.(received).
Definition set_channels (jobs : option Job) (completions : option Completion) (gone : bool)
    (turns : list WorkerTurn) (r : Reader) : Reader :=
  mkReader r.(world) r.(queue) r.(in_flight) jobs completions gone turns r.(arrivals) r.(received).
Definition set_arrivals (v : list (Result QueueFailure QueueReceive)) (r : Reader) : Reader :=
  mkReader r.(world) r.(queue) r.(in_flight) r.(jobs) r.(completions) r.(worker_gone)
    r.(worker_turns) v r.(received).
Definition set_received (v : list QueuedPacketWork) (r : Reader) : Reader :=
  mkReader r.(world) r.(queue) r.(in_flight) r.(jobs) r.(completions) r.(worker_gone)
    r.(worker_turns) r.(arrivals) v.

Definition in_world {E A} (m : ST World E A) : ST Reader E A := fun r =>
  let '(w, a) := m r.(world) in (set_world w r, a).

(** One round of the worker's loop. *)
Definition worker_turn (r : Reader) : Reader :=
  let turns := tail r.(worker_turns) in
  match default WorkerWaits (head r.(worker_turns)) with
  | WorkerWaits => set_channels r.(jobs) r.(completions) r.(worker_gone) turns r
  | WorkerStops => set_channels None r.(completions) true turns r
  | WorkerDecides =>
      if r.(worker_gone) then set_channels r.(jobs) r.(completions) true turns r
      else
        match r.(jobs) with
        | None => set_channels None r.(completions) false turns r
        | Some job =>
            let '(w, decisions) := decide_packet_batch_until (E := Empty_set) job.(job_batch) r.(world) in
            let r := set_world w r in
            match decisions, r.(completions) with
            | Ok decisions, None =>
                set_channels None (Some (mkCompletion job decisions)) false turns r
            | _, full => set_channels None full true turns r
            end
        end
  end.

(** [try_recv] and [recv_timeout] on the completions. *)
Definition poll_completion : ST Reader QueueFailure (option Completion) :=
  modify worker_turn ;;
  r ← get;
  match r.(completions) with
  | Some completion =>
      modify (set_channels r.(jobs) None r.(worker_gone) r.(worker_turns)) ;;
      mret (Some completion)
  | None => lift (ensure (negb r.(worker_gone)) WorkerDisconnected) ;; mret None
  end.

Context (strategy : QueueVerdictStrategy).

Definition verdict (work : QueuedPacketWork) (decision : Decision) (ticket : option OutgoingTicket)
    : ST Reader QueueFailure unit :=
  in_world (return_enforcing_verdict work decision ticket strategy).

Fixpoint finish_packets (deadline : Z)
    (packets : list (QueuedPacketWork * Decision * option OutgoingTicket))
    : ST Reader QueueFailure unit :=
  match packets with
  | [] => mret tt
  | (work, decision, ticket) :: rest =>
      now ← in_world instant_now;
      decision ←
        (if deadline <=? now
         then in_world record_attribution_timeout ;; mret (Err DecisionDeadlineExpired)
         else mret decision);
      verdict work decision ticket ;;
      finish_packets deadline rest
  end.

Definition finish (completion : Completion) (expected : Z) : ST Reader QueueFailure unit :=
  let '(mkCompletion job decisions) := completion in
  lift (ensure ((zlen job.(job_batch) =? expected) && (zlen decisions =? expected)
                && (zlen job.(job_tickets) =? expected)) CompletionMismatch) ;;
  finish_packets job.(job_deadline)
    (zip (zip job.(job_batch) decisions) job.(job_tickets)).

(** The loop of [dispatch] over the selected packets. *)
Fixpoint dispatch_packets (snapshot : ApplicationDecisionPolicy)
    (packets : list (QueuedPacketWork * option OutgoingTicket * Z)) (job : Job)
    : ST Reader QueueFailure Job :=
  match packets with
  | [] => mret job
  | (work, ticket, deadline) :: rest =>
      now ← in_world instant_now;
      match Job_admit snapshot work ticket deadline now job with
      | (job, Some immediate) =>
          (if immediate.(timed_out) then in_world record_attribution_timeout else mret tt) ;;
          verdict immediate.(immediate_work) immediate.(immediate_verdict)
            immediate.(immediate_ticket) ;;
          dispatch_packets snapshot rest job
      | (job, None) => dispatch_packets snapshot rest job
      end
  end.

Definition dispatch : ST Reader QueueFailure Z :=
  r ← get;
  let '(queue, selected) := take_batch r.(queue) in
  modify (set_queue queue) ;;
  let batch := work <$> selected in
  let deadlines := (fun packet => Scheduler.received packet + DECISION_BUDGET) <$> selected in
  tickets ← in_world (register_outgoing_batch batch);
  snapshot ← in_world decision_snapshot;
  now ← in_world instant_now;
  job ← dispatch_packets snapshot (zip (zip batch tickets) deadlines)
          (mkJob [] [] (now + DECISION_BUDGET));
  let count := zlen job.(job_batch) in
  if 0 <? count then
    r ← get;
    lift (ensure (is_none r.(jobs) && negb r.(worker_gone)) DispatchFailed) ;;
    modify (set_channels (Some job) r.(completions) r.(worker_gone) r.(worker_turns)) ;;
    mret count
  else mret count.

Fixpoint push_packets (received : Z) (batch : list QueuedPacketWork) : ST Reader QueueFailure unit :=
  match batch with
  | [] => mret tt
  | work :: rest =>
      r ← get;
      let '(queue, pushed) := push (mkPending work received) r.(queue) in
      modify (set_queue queue) ;;
      lift (map_err (fun _ => SchedulerRefused) pushed) ;;
      push_packets received rest
  end.

Definition receive : ST Reader QueueFailure bool :=
  r ← get;
  modify (set_arrivals (tail r.(arrivals))) ;;
  arrived ← lift (default (Ok Idle) (head r.(arrivals)));
  match arrived with
  | Idle | Interrupted => mret false
  | Overflow => in_world record_queue_overflow ;; mret false
  | Datagram bytes =>
      received' ← in_world instant_now;
      let '(batch, appended) := append_packet_datagram if_indextoname bytes [] in
      lift (map_err PacketNotParsed appended) ;;
      in_world (register_outgoing_packets batch) ;;
      modify (fun r => set_received (r.(received) ++ batch) r) ;;
      push_packets received' batch ;;
      mret true
  end.

(** Ready input is drained while nothing is in flight. *)
Fixpoint drain (fuel : nat) : ST Reader QueueFailure unit :=
  match fuel with
  | O => mret tt
  | S fuel =>
      r ← get;
      if MAX_PACKET_BATCH_SIZE <=? FairQueue_len r.(queue) then mret tt
      else
        free ← in_world outgoing_packet_capacity;
        if negb (can_receive (FairQueue_len r.(queue)) 0 free) then mret tt
        else
          more ← receive;
          if more : bool then drain fuel else mret tt
  end.

(** One round of [serve]; false when the daemon is stopping. *)
Definition serve_round : ST Reader QueueFailure bool :=
  stopping ← in_world load_shutdown;
  if stopping : bool then mret false
  else
    r ← get;
    (if 0 <? r.(in_flight) then
       completion ← poll_completion;
       match completion with
       | Some completion =>
           finish completion r.(in_flight) ;; modify (set_in_flight 0)
       | None => mret tt
       end
     else mret tt) ;;
    r ← get;
    if (r.(in_flight) =? 0) && (0 <? FairQueue_len r.(queue)) then
      count ← dispatch;
      modify (set_in_flight count) ;;
      mret true
    else
      free ← in_world outgoing_packet_capacity;
      if negb (can_receive (FairQueue_len r.(queue)) r.(in_flight) free) then
        lift (ensure (0 <? r.(in_flight)) NoProgressPossible) ;;
        completion ← poll_completion;
        match completion with
        | Some completion => finish completion r.(in_flight) ;; modify (set_in_flight 0)
        | None => mret tt
        end ;;
        mret true
      else
        _ ← receive;
        (if r.(in_flight) =? 0 then drain (Z.to_nat (MAX_PACKET_BATCH_SIZE - 1)) else mret tt) ;;
        mret true.

(** [serve], for at most [fuel] rounds of its loop. *)
Fixpoint serve (fuel : nat) : ST Reader QueueFailure unit :=
  match fuel with
  | O => mret tt
  | S fuel => more ← serve_round; if more : bool then serve fuel else mret tt
  end.

(** The thread: [joined] is what the worker ends with. *)
Definition run (fuel : nat) (joined : Result QueueFailure unit) : ST Reader Empty_set unit :=
  result ← attempt (serve fuel ;; lift joined);
  match result with
  | Ok _ => mret tt
  | Err _ => in_world (handle_packet_queue_failure EnforcingRole)
  end.
End Enforcing.

(** The reader as the thread starts it. *)
Definition Reader_new {B D} (w : World (B := B) (D := D)) (turns : list WorkerTurn)
    (arrivals : list (Result QueueFailure QueueReceive)) : Reader :=
  mkReader w FairQueue_default 0 None None false turns arrivals [].
