(* ===== verification/EnforcingSafety.v ===== *)
(** * Safety of the enforcing reader

    Whatever arrives on the queue, however the threads interleave and whatever
    fails: every packet that the reader lets through is permitted by the policy
    of that moment, and no packet is answered twice or forgotten. *)

From S2P Require Import Prelude Text Net Application Model State StateFacts StateLearning.
From S2P Require Import StateLearningFacts Policy Learning Snapshots Marks Nftables Decision.
From S2P Require Import Netlink Packet Scheduler Progress Capture Registry.
From S2P Require Import Protocol Bus Pinning Storage Engine EngineLearning EngineControl EngineLaws.
From S2P Require Import EngineSafety EngineRuns Authority Runtime Verdicts Enforcing.
Local Open Scope Z_scope.

(** ** The scheduler as a bag *)

Lemma filter_first {A} (p : A -> bool) x l : forall b,
  List.filter p b = x :: l ->
  exists b1 b2, b = b1 ++ x :: b2 /\ List.filter p b1 = [] /\ List.filter p b2 = l.
Proof.
  induction b as [|y b IH]; cbn [List.filter]; [done|]. destruct (p y) eqn:Hy.
  - intros [= -> <-]. by exists [], b.
  - intros (b1 & b2 & -> & H1 & H2)%IH. exists (y :: b1), b2. cbn. by rewrite Hy.
Qed.

Lemma of_key_perm a : forall b, (forall k, of_key k a = of_key k b) -> a ≡ₚ b.
Proof.
  induction a as [|x a IH]; intros b Hk.
  - destruct b as [|y b]; [done|]. specialize (Hk (key_of y)). unfold of_key in Hk. cbn in Hk.
    by rewrite eqb_refl in Hk.
  - pose proof (Hk (key_of x)) as Hx. unfold of_key in Hx. cbn [List.filter] in Hx.
    rewrite eqb_refl in Hx. symmetry in Hx. apply filter_first in Hx as (b1 & b2 & -> & H1 & H2).
    rewrite <-Permutation_middle. constructor. apply IH. intros k. specialize (Hk k).
    unfold of_key in *. rewrite List.filter_app in *. cbn [List.filter] in Hk.
    destruct (key_of x ==? k) eqn:E; [|done].
    rewrite eqb_true in E. subst k. rewrite H1 in *. cbn in *. by injection Hk as Hk.
Qed.

Lemma take_batch_bag q q' batch :
  queue_ok q -> take_batch q = (q', batch) ->
  queue_ok q' /\ batch ++ queue_packets q' ≡ₚ queue_packets q
  /\ zlen batch <= MAX_PACKET_BATCH_SIZE /\ FairQueue_len q' = FairQueue_len q - zlen batch.
Proof.
  intros Hok Ht. pose proof (take_batch_loop q Hok) as Hl. rewrite Ht in Hl.
  destruct Hok as [_ _ Hc Hb], Hl as [Lu Ld Lo Lp Lt Lf Ll _ _].
  change (zlen (A := PendingPacket) []) with 0 in *. unfold FairQueue_len. pose proof (zlen_nonneg batch).
  split; [split; [done|done|lia|lia]|]. split; [|split; [done|lia]]. apply of_key_perm. exact Lo.
Qed.

Lemma push_bag p q q' r :
  queue_ok q -> push p q = (q', r) ->
  queue_ok q'
  /\ match r with
     | Ok _ => queue_packets q' ≡ₚ queue_packets q ++ [p] /\ FairQueue_len q' = FairQueue_len q + 1
     | Err _ => q' = q /\ FairQueue_len q = MAX_PENDING_PACKETS
     end.
Proof.
  intros Hok Hp. pose proof Hok as [Hu Hd Hc Hb]. unfold push in Hp. rewrite run_get, run_lift in Hp.
  destruct (Z.ltb_spec (pending q) MAX_PENDING_PACKETS) as [Hlt|Hge]; cbn [ensure] in Hp.
  2: { injection Hp as <- <-. split; [done|]. unfold FairQueue_len. split; [done|lia]. }
  destruct (for_packet (work p)) as [u key] eqn:Hk. injection Hp as <- <-.
  destruct (push_user_spec u key p (users q) Hk Hd Hu) as (P1 & P2 & _ & P3 & P4 & _).
  split.
  - split; cbn [users Scheduler.pending]; [done|done| |lia]. unfold queue_packets in *. simpl. lia.
  - split; [|done]. apply of_key_perm. exact P4.
Qed.

Section Reader.
Context {B D : Type} `{BackendLaws B} `{StoreLaws D} `{IpNetLib} `{JsonLib} `{Target} `{HashOrder}.
Context (if_indextoname : Z -> option (option ustring)) (strategy : QueueVerdictStrategy).

(** The process behind a connection, as the resolver establishes it. *)
Context (attributed : OutboundConnection -> ApplicationIdentity -> Prop).
Abbreviation World := (World (B := B) (D := D)).
Abbreviation Reader := (Reader (B := B) (D := D)).
Abbreviation SentVerdict := (SentVerdict (B := B) (D := D)).

(** ** Invariants *)

(** The resolver answers each request with the process behind its connection. *)
Definition resolver_sound (resolver : Resolver) : Prop :=
  forall requests j c req i,
    requests !! j = Some (c, req) -> resolver requests !! j = Some (Ok i) -> attributed c i.

Definition acceptable (policy : ApplicationDecisionPolicy) (c : OutboundConnection) : Prop :=
  (forall i, permits policy c i) \/ exists i, attributed c i /\ permits policy c i.

(** An acceptance was right when it was decided. *)
Definition decision_ok (w : World) (work : QueuedPacketWork) (d : Decision) : Prop :=
  forall auth, d = Ok auth -> auth_action auth = Accept ->
  exists wd packet, world_ok wd /\ live wd /\ later wd w /\ work_packet work = Ok packet
  /\ authorized (application_policy (shared wd)) packet auth
  /\ acceptable (application_policy (shared wd)) (connection packet).

(** A verdict that lets a packet pass is right when it is sent. *)
Definition verdict_ok (received : list QueuedPacketWork) (m : SentVerdict) : Prop :=
  accepting m -> unlocked (sent_engine m)
  /\ exists work packet, work ∈ received /\ work_packet_id work = sent_id m
     /\ work_packet work = Ok packet
     /\ acceptable (application_policy (sent_engine m)) (connection packet).

Definition ids (works : list QueuedPacketWork) : list Z := work_packet_id <$> works.
Definition queued (r : Reader) : list QueuedPacketWork := work <$> queue_packets (queue r).
Definition flying (r : Reader) : list QueuedPacketWork :=
  default [] (job_batch <$> jobs r)
  ++ default [] ((fun c => job_batch (completed_job c)) <$> completions r).

Record safe (r : Reader) : Prop := {
  safe_world : world_ok (world r);
  safe_resolvers : Forall resolver_sound (resolutions (world r));
  safe_sent : Forall (verdict_ok (received r)) (sent (socket (world r)));
  safe_completion c k work d :
    completions r = Some c -> job_batch (completed_job c) !! k = Some work ->
    completed_decisions c !! k = Some d -> decision_ok (world r) work d
}.

(** The packets that wait for a verdict. *)
Definition waiting (held : list QueuedPacketWork) (r : Reader) : list QueuedPacketWork :=
  held ++ queued r ++ flying r.

(** Every received packet is answered, held by the reader, queued or with the
    worker, exactly once, and those that wait are at most [PENDING_CAPACITY]. *)
Record accounted (held : list QueuedPacketWork) (r : Reader) : Prop := {
  acc_safe : safe r;
  acc_queue : queue_ok (queue r);
  acc_channels : jobs r = None \/ completions r = None;
  acc_flight : in_flight r = 0 -> jobs r = None /\ completions r = None;
  acc_count : zlen (flying r) <= in_flight r;
  acc_room : zlen (waiting held r) <= PENDING_CAPACITY;
  acc_members work : work ∈ waiting held r -> work ∈ received r;
  acc_bag : (sent_id <$> sent (socket (world r))) ++ ids (waiting held r) ≡ₚ ids (received r)
}.

(** Packets move between the places of the reader. *)
Lemma accounted_move held held' r r' :
  accounted held r -> safe r' -> queue_ok (queue r') ->
  jobs r' = None \/ completions r' = None ->
  (in_flight r' = 0 -> jobs r' = None /\ completions r' = None) ->
  zlen (flying r') <= in_flight r' ->
  sent (socket (world r')) = sent (socket (world r)) -> received r' = received r ->
  waiting held' r' ≡ₚ waiting held r -> accounted held' r'.
Proof.
  intros [_ _ _ _ _ Hroom Hmem Hbag] ? ? ? ? ? Hs Hr Hw. split; try done.
  - unfold zlen in *. by rewrite Hw.
  - intros x. rewrite Hw, Hr. apply Hmem.
  - rewrite Hs, Hr, <-Hbag. unfold ids. by rewrite Hw.
Qed.

(** ** Verdicts *)

Definition stable (G : World -> Prop) : Prop := forall w w', later w w' -> G w -> G w'.

Lemma decision_ok_stable work d : stable (fun w => decision_ok w work d).
Proof.
  intros w w' Hl Hd auth E Ha. destruct (Hd auth E Ha) as (wd & packet & ? & ? & ? & ?).
  exists wd, packet. split_and!; try done; [by etrans|naive_solver..].
Qed.

Lemma acceptable_kept (wd ws : World) packet auth :
  world_ok wd -> live wd -> later wd ws -> authorized (application_policy (shared wd)) packet auth ->
  stands ws auth -> acceptable (application_policy (shared wd)) (connection packet) ->
  acceptable (application_policy (shared ws)) (connection packet).
Proof.
  intros ? ? ? ? ? [Hall|(i & Hi & Hp)].
  - left. intros i. by eapply stands_permits.
  - right. exists i. split; [done|]. by eapply stands_permits.
Qed.

Lemma return_verdict_ok received work d ticket (w w' : World) r :
  decision_ok w work d -> work ∈ received ->
  return_enforcing_verdict work d ticket strategy w = (w', r) ->
  later w w' /\ exists new, sent (socket w') = sent (socket w) ++ new
  /\ Forall (verdict_ok received) new /\ (is_ok r = true -> sent_id <$> new = [work_packet_id work]).
Proof.
  intros Hd Hin Hrun. apply return_enforcing_spec in Hrun as [Hl Hcase]. split; [done|].
  destruct Hcase as [[Hr Hs]|(m & accepted & error & Hs & Hid & Hans)].
  { exists []. rewrite app_nil_r. split_and!; [done|done|]. by rewrite Hr. }
  exists [m]. split; [done|]. split; [|intros _; cbn; by rewrite Hid].
  apply Forall_singleton. intros Hacc.
  destruct Hans as [(_ & _ & Hcode & Hmark)|(auth & ws & -> & Hls & _ & Hst & -> & Hv & _)].
  { destruct Hacc as (st & mk & E). rewrite Hcode, Hmark in E. by destruct st. }
  split; [apply (stands_live _ _ Hst)|]. pose proof (accepting_action _ _ _ _ Hacc Hv) as Ha.
  destruct (Hd auth eq_refl Ha) as (wd & packet & Hok & Hlive & Hld & Hw & Hauth & Hacp).
  exists work, packet. split_and!; try done.
  eapply (acceptable_kept wd ws); try done. by etrans.
Qed.

Lemma safe_next (r : Reader) (w' : World) new :
  safe r -> later (world r) w' -> sent (socket w') = sent (socket (world r)) ++ new ->
  Forall (verdict_ok (received r)) new -> safe (set_world w' r).
Proof.
  intros [H1' H2' H3' H4'] Hl Hs Hnew. split; cbn.
  - by apply (later_ok _ _ Hl).
  - destruct (later_resolutions _ _ Hl) as [used Hu]. rewrite Hu in H2'. by apply Forall_app in H2' as [_ ?].
  - rewrite Hs. by apply Forall_app.
  - intros c k work d Hc Hk Hd. eapply decision_ok_stable; [done|]. by eapply H4'.
Qed.

Lemma verdict_runs held work d ticket G :
  stable G ->
  runs (fun r => accounted (work :: held) r /\ decision_ok (world r) work d /\ G (world r))
    (verdict strategy work d ticket) (fun _ r => accounted held r /\ G (world r)) safe.
Proof.
  intros HG r ([Hsafe Hq Hch Hfl Hcount Hroom Hmem Hbag] & Hd & HGr). unfold verdict, in_world.
  destruct (return_enforcing_verdict work d ticket strategy (world r)) as [w' res] eqn:E.
  assert (Hin : work ∈ received r) by (apply Hmem; left).
  apply (return_verdict_ok (received r)) in E as (Hl & new & Hs & Hnew & Hok); [|done..].
  pose proof (safe_next r w' new Hsafe Hl Hs Hnew) as Hsafe'.
  destruct res as [[]|]; [|done]. split; [|by eapply HG]. split; try done.
  - change (waiting held _) with (waiting held r). change (waiting _ r) with (work :: waiting held r) in Hroom.
    unfold zlen in *. cbn [length] in Hroom. lia.
  - intros x Hx. apply Hmem. by right.
  - cbn [world received set_world socket]. rewrite Hs, fmap_app, Hok by done.
    rewrite <-app_assoc. exact Hbag.
Qed.

Lemma quiet_runs {A} held (m : ST World QueueFailure A) G :
  always quiet m -> stable G ->
  runs (fun r => accounted held r /\ G (world r)) (in_world m)
    (fun _ r => accounted held r /\ G (world r)) safe.
Proof.
  intros Hm HG r (Hr & HGr). pose proof Hr as [Hsafe Hq Hch Hfl Hcount _ _ _]. unfold in_world.
  specialize (Hm (world r)). destruct (m (world r)) as [w' res]. destruct Hm as [Hl Hs]. cbn [fst] in *.
  assert (Hsafe' : safe (set_world w' r)).
  { apply (safe_next r w' []); try done. by rewrite Hs, app_nil_r. }
  destruct res as [a|]; [|done]. split; [|by eapply HG].
  apply (accounted_move held _ r); try done. cbn. by rewrite Hs.
Qed.

(** ** Finishing a batch *)

Definition decisions_ok (packets : list (QueuedPacketWork * Decision * option OutgoingTicket))
    (w : World) : Prop :=
  Forall (fun x => decision_ok w x.1.1 x.1.2) packets.

Lemma decisions_ok_stable packets : stable (decisions_ok packets).
Proof.
  intros w w' Hl Hall. eapply Forall_impl; [exact Hall|]. intros x. by apply decision_ok_stable.
Qed.

Lemma stable_and G G' : stable G -> stable G' -> stable (fun w => G w /\ G' w).
Proof. intros HG HG' w w' Hl []. split; [by eapply HG|by eapply HG']. Qed.

Lemma error_decision_ok w work e : decision_ok w work (Err e).
Proof. by intros auth [=]. Qed.

Lemma stable_true : stable (fun _ => True).
Proof. done. Qed.

Lemma finish_packets_runs deadline packets : forall held,
  runs (fun r => accounted (((fun x => x.1.1) <$> packets) ++ held) r /\ decisions_ok packets (world r))
    (finish_packets strategy deadline packets) (fun _ => accounted held) safe.
Proof.
  induction packets as [|[[work d] ticket] packets IH]; intros held; cbn [finish_packets].
  { apply runs_ret. by intros r [Hr _]. }
  eapply runs_bind.
  { apply (quiet_runs _ _ (decisions_ok ((work, d, ticket) :: packets)));
      [apply instant_now_quiet|apply decisions_ok_stable]. }
  intros now. cbn beta.
  eapply (runs_bind _ _ _ (fun d' r => accounted (((fun x => x.1.1) <$> (work, d, ticket) :: packets) ++ held) r
    /\ decision_ok (world r) work d' /\ decisions_ok packets (world r))).
  { destruct (deadline <=? now).
    - eapply runs_bind.
      + apply (quiet_runs _ _ (decisions_ok ((work, d, ticket) :: packets)));
          [apply count_quiet|apply decisions_ok_stable].
      + intros []. apply runs_ret. intros r [Hr Hd]. apply Forall_cons in Hd as [_ ?].
        done.
    - apply runs_ret. intros r [Hr Hd]. apply Forall_cons in Hd as [? ?]. done. }
  intros d'. eapply runs_bind.
  { apply verdict_runs, decisions_ok_stable. }
  intros []. apply IH.
Qed.

Lemma finish_runs completion expected held :
  runs (fun r => accounted (job_batch (completed_job completion) ++ held) r
      /\ forall k work d, job_batch (completed_job completion) !! k = Some work ->
           completed_decisions completion !! k = Some d -> decision_ok (world r) work d)
    (finish strategy completion expected) (fun _ => accounted held) safe.
Proof.
  destruct completion as [job ds]. unfold finish. cbn [completed_job completed_decisions].
  intros r [Hacc Hok]. rewrite run_lift.
  destruct (ensure _ _) as [[]|] eqn:Hlen; [|apply Hacc]. apply ensure_Ok in Hlen.
  rewrite !andb_true_iff, !Z.eqb_eq in Hlen. destruct Hlen as [[Hb Hd] Ht].
  unfold zlen in *. apply (finish_packets_runs _ _ held). split.
  - replace (_ <$> _) with (job_batch job); [done|].
    change (fun x : QueuedPacketWork * Decision * option OutgoingTicket => x.1.1) with
      (fst ∘ fst : QueuedPacketWork * Decision * option OutgoingTicket -> _).
    rewrite list_fmap_compose, !fst_zip; [done|lia|]. rewrite length_zip_with. lia.
  - apply Forall_lookup. intros k [[work d] ticket] Hk. cbn.
    apply lookup_zip_Some in Hk as [Hk _]. apply lookup_zip_Some in Hk as [? ?]. by eapply Hok.
Qed.

(** ** The worker *)

Lemma decide_ok (w w' : World) batch ds :
  world_ok w -> Forall resolver_sound (resolutions w) ->
  decide_packet_batch_until (E := Empty_set) batch w = (w', Ok ds) ->
  length ds = length batch
  /\ forall k work d, batch !! k = Some work -> ds !! k = Some d -> decision_ok w' work d.
Proof.
  intros Hok Hres Hrun. destruct (decide_spec _ _ _ _ Hok Hrun) as (ds' & [= <-] & Hlen & Hds).
  split; [done|]. intros k work d Hb Hd auth -> Ha.
  destruct (Hds k auth Hd) as (wd & id & packet & Hl0 & Hl1 & Hlive & Hb' & Hauth & Hperm).
  rewrite Hb in Hb'. simplify_eq. exists wd, packet. split_and!; try done.
  - by apply (later_ok _ _ Hl0).
  - destruct (Hperm Ha) as [Hall|(i & (j & req & Hj & Hans) & Hp)]; [by left|right].
    exists i. split; [|done]. unfold next_resolver in Hans.
    destruct (resolutions w) as [|f fs].
    { cbn [head default] in Hans. unfold unresolved in Hans. rewrite list_lookup_fmap in Hans.
      by apply fmap_Some in Hans as (? & _ & ?). }
    apply Forall_cons in Hres as [Hf _].
    eapply (Hf _ j); [|exact Hans]. by rewrite list_lookup_fmap, Hj.
Qed.

(** After the worker's turn nothing is lost, unless it is gone with its job. *)
Lemma worker_turn_accounted held r :
  accounted held r ->
  accounted held (worker_turn r) \/ (safe (worker_turn r) /\ worker_gone (worker_turn r) = true
                                     /\ completions (worker_turn r) = None).
Proof.
  intros Hacc. assert (Hkeep : forall gone turns,
    accounted held (set_channels (jobs r) (completions r) gone turns r))
    by (intros gone turns; destruct Hacc as [[] ? ? ? ? ? ? ?]; by split).
  pose proof Hacc as [Hsafe Hq Hch Hfl Hcount _ _ _]. pose proof Hsafe as [S1 S2 S3 S4]. unfold worker_turn.
  destruct (default WorkerWaits (head (worker_turns r))).
  - left. apply Hkeep.
  - destruct (worker_gone r); [left; apply Hkeep|].
    destruct (jobs r) as [job|] eqn:Hj.
    2: { left. apply Hkeep. }
    destruct (decide_packet_batch_until (E := Empty_set) (job_batch job) (world r)) as [w' [ds|[]]] eqn:E.
    pose proof (decide_quiet (E := Empty_set) (job_batch job) (world r)) as [Hl Hs].
    rewrite E in Hl, Hs. cbn [fst] in Hl, Hs.
    destruct Hch as [?|Hc]; [congruence|]. cbn [completions set_world]. rewrite Hc.
    apply decide_ok in E as [Hlen Hds]; [|done..].
    assert (Hsafe' : safe (set_world w' r)).
    { apply (safe_next r w' []); try done. by rewrite Hs, app_nil_r. }
    unfold flying in Hcount. rewrite Hj, Hc in Hcount. cbn in Hcount. rewrite app_nil_r in Hcount.
    left. apply (accounted_move held _ r); try done.
    + destruct Hsafe' as [T1 T2 T3 _]. split; cbn; try done.
      intros c k work d [= <-]. cbn. apply Hds.
    + by left.
    + intros Hz. by destruct (Hfl Hz).
    + cbn. by rewrite Hs.
    + unfold waiting, queued, flying. cbn. by rewrite Hj, Hc, app_nil_r.
  - destruct (completions r) as [c|] eqn:Hc; [|right; by split_and!].
    destruct Hch as [Hj|?]; [|congruence]. left. rewrite Hj in Hkeep. apply Hkeep.
Qed.

(** ** Frames *)

(** Outside of its channels the reader leaves the worker alone. *)
Definition aside (r r' : Reader) : Prop :=
  jobs r' = jobs r /\ completions r' = completions r /\ in_flight r' = in_flight r.

#[local] Instance aside_preorder : PreOrder aside.
Proof. split; [done|]. intros r1 r2 r3 (? & ? & ?) (? & ? & ?). split_and!; congruence. Qed.

Lemma in_world_aside {E A} (m : ST World E A) : always aside (in_world m).
Proof. intros r. unfold in_world. by destruct (m (world r)). Qed.

Lemma finish_aside completion expected : always aside (finish strategy completion expected).
Proof.
  destruct completion as [job ds]. unfold finish. always_by ltac:(idtac).
  generalize (zip (zip (job_batch job) ds) (job_tickets job)). intros packets.
  induction packets as [|[[work d] ticket] packets IH]; cbn [finish_packets]; unfold verdict.
  - apply always_ret. exact _.
  - always_by ltac:(exact IH || apply in_world_aside).
Qed.

Lemma dispatch_packets_aside snapshot packets : forall job,
  always aside (dispatch_packets strategy snapshot packets job).
Proof.
  induction packets as [|[[work ticket] deadline] packets IH]; intros job; cbn [dispatch_packets]; unfold verdict.
  - apply always_ret. exact _.
  - always_by ltac:(apply IH || apply in_world_aside).
Qed.

Lemma runs_frame {A} (m : ST Reader QueueFailure A) P Q F :
  always aside m -> runs P m Q safe -> (forall r r', aside r r' -> F r -> F r') ->
  runs (fun r => P r /\ F r) m (fun a r => Q a r /\ F r) safe.
Proof.
  intros Hm Hrun HF r [HP Hr]. specialize (Hrun r HP). specialize (Hm r).
  destruct (m r) as [r' [a|]]; [|done]. split; [done|]. by eapply HF.
Qed.

Lemma accounted_perm held held' r : held ≡ₚ held' -> accounted held r -> accounted held' r.
Proof.
  intros Hp Hr. pose proof Hr as [? ? ? ? ? _ _ _]. apply (accounted_move held _ r); try done.
  unfold waiting. by rewrite Hp.
Qed.

(** The worker holds nothing. *)
Definition idle (r : Reader) : Prop := jobs r = None /\ completions r = None.

Lemma set_in_flight_accounted held n r :
  accounted held r -> idle r -> 0 <= n -> accounted held (set_in_flight n r).
Proof.
  intros [[] ? ? ? ? ? ? ?] [Hj Hc] Hn. split; try done. unfold flying. cbn. by rewrite Hj, Hc.
Qed.

(** ** Completions *)

(** What the reader holds when it takes [o] from the channel. *)
Definition taken (held : list QueuedPacketWork) (o : option Completion) (r : Reader) : Prop :=
  match o with
  | Some c => (accounted (job_batch (completed_job c) ++ held) r
      /\ forall k work d, job_batch (completed_job c) !! k = Some work ->
           completed_decisions c !! k = Some d -> decision_ok (world r) work d) /\ idle r
  | None => accounted held r
  end.

Lemma poll_runs held : runs (accounted held) poll_completion (taken held) safe.
Proof.
  intros r0 Hr0. unfold poll_completion. rewrite run_modify, run_get.
  pose proof (worker_turn_accounted held r0 Hr0) as Hw.
  set (r := worker_turn r0) in *. clearbody r. clear r0 Hr0.
  destruct (completions r) as [c|] eqn:Hc.
  - destruct Hw as [Hr|(_ & _ & ?)]; [|congruence]. pose proof Hr as [Hsafe Hq Hch _ Hcount _ _ _].
    rewrite run_modify. cbv beta iota delta [mret ST_ret].
    destruct Hch as [Hj|?]; [|congruence].
    destruct Hsafe as [S1 S2 S3 S4]. split; [|by split].
    split; [|intros k work d; by apply S4]. apply (accounted_move held _ r); try done.
    + by left.
    + unfold flying. cbn. rewrite Hj. cbn. unfold zlen in *. cbn. lia.
    + unfold waiting, flying. cbn. rewrite Hj, Hc. cbn. rewrite app_nil_r, <-app_assoc.
      change (queued (set_channels _ _ _ _ r)) with (queued r).
      by rewrite Permutation_app_comm, <-app_assoc.
  - rewrite run_lift. destruct (worker_gone r) eqn:Hg; cbn [negb ensure].
    + by destruct Hw as [[? _ _ _ _ _ _ _]|[? _]].
    + cbv beta iota delta [mret ST_ret]. by destruct Hw as [?|(_ & ? & _)].
Qed.

(** Answering the packets of a completion. *)
Lemma taken_runs held n o :
  runs (taken held o)
    (match o with
     | Some completion => finish strategy completion n ;; modify (set_in_flight 0)
     | None => mret tt
     end) (fun _ => accounted held) safe.
Proof.
  destruct o as [c|]; [|by apply runs_ret]. eapply runs_bind.
  - apply (runs_frame _ _ (fun _ => accounted held) idle);
      [apply finish_aside|apply finish_runs|].
    intros r r' (Ej & Ec & _) [? ?]. split; congruence.
  - intros []. apply runs_modify. intros r [? ?]. by apply set_in_flight_accounted.
Qed.

(** ** Dispatch *)

(** The snapshot was the policy of a live engine. *)
Definition snapshot_ok (snapshot : ApplicationDecisionPolicy) (w : World) : Prop :=
  exists wd, world_ok wd /\ live wd /\ later wd w /\ snapshot = application_policy (shared wd).

Lemma snapshot_ok_stable snapshot : stable (snapshot_ok snapshot).
Proof. intros w w' Hl (wd & ? & ? & ? & ->). exists wd. split_and!; try done. by etrans. Qed.

Lemma immediate_ok snapshot w work d :
  snapshot_ok snapshot w -> immediate_decision snapshot work = Some d -> decision_ok w work d.
Proof.
  intros (wd & Hok & Hlive & Hl & ->) Hd auth -> Ha.
  apply (planned_spec (shared wd)) in Hd as (packet & Hw & Hauth & Hperm); [|by apply live_engine_ok].
  exists wd, packet. split_and!; try done. by left.
Qed.

Lemma dispatch_packets_runs snapshot packets : forall held job,
  runs (fun r => accounted (((fun x => x.1.1) <$> packets) ++ job_batch job ++ held) r
      /\ snapshot_ok snapshot (world r))
    (dispatch_packets strategy snapshot packets job)
    (fun job' => accounted (job_batch job' ++ held)) safe.
Proof.
  induction packets as [|[[work ticket] deadline] packets IH]; intros held job; cbn [dispatch_packets].
  { apply runs_ret. by intros r [Hr _]. }
  eapply runs_bind; [apply quiet_runs, snapshot_ok_stable; apply instant_now_quiet|]. intros now. cbn beta.
  unfold Job_admit. set (late := deadline <=? now).
  destruct (if late then _ else immediate_decision snapshot work) as [d|] eqn:Hd.
  - cbn [timed_out immediate_work immediate_verdict immediate_ticket].
    eapply (runs_bind _ _ _ (fun _ r => accounted
      (((fun x => x.1.1) <$> (work, ticket, deadline) :: packets) ++ job_batch job ++ held) r
      /\ snapshot_ok snapshot (world r))).
    { destruct late.
      - apply quiet_runs, snapshot_ok_stable. apply count_quiet.
      - apply runs_ret. intros r Hr. exact Hr. }
    intros []. eapply runs_bind; [|intros ?; apply (IH held job)].
    eapply runs_pre; [|apply verdict_runs, snapshot_ok_stable]. intros r [Hr Hs].
    split; [exact Hr|]. split; [|done].
    destruct late; [injection Hd as <-; apply error_decision_ok|by eapply immediate_ok].
  - eapply runs_pre; [|apply (IH held (mkJob (job_batch job ++ [work]) (job_tickets job ++ [ticket])
      (Z.min (job_deadline job) deadline)))].
    intros r [Hr Hs]. split; [|done]. eapply accounted_perm; [|exact Hr]. cbn. 
    rewrite <-app_assoc. cbn. rewrite <-!Permutation_middle. done.
Qed.

Lemma begin_tickets_quiet mode generation' batch :
  always quiet (begin_tickets (B := B) (D := D) mode generation' batch).
Proof.
  induction batch as [|work batch IH]; cbn [begin_tickets]; [apply always_ret; exact _|].
  always_by ltac:(exact IH || quiet_primitive).
Qed.

Lemma begin_tickets_length mode generation' batch : forall (w w' : World) tickets,
  begin_tickets mode generation' batch w = (w', Ok tickets) -> length tickets = length batch.
Proof.
  induction batch as [|work batch IH]; intros w w' tickets; cbn [begin_tickets]; [by intros [= _ <-]|].
  intros (ticket & w1 & _ & (rest & w2 & Hrest & [= _ <-])%run_bind_Ok)%run_bind_Ok.
  cbn. f_equal. by eapply IH.
Qed.

Lemma register_batch_length batch (w w' : World) tickets :
  register_outgoing_batch batch w = (w', Ok tickets) -> length tickets = length batch.
Proof.
  unfold register_outgoing_batch. intros (? & ? & _ & Hrun)%run_bind_Ok.
  apply run_bind_Ok in Hrun as (? & ? & _ & Hrun). rewrite run_get in Hrun.
  apply run_bind_Ok in Hrun as (? & ? & _ & Hrun). apply run_bind_Ok in Hrun as (? & ? & _ & Hrun).
  by eapply begin_tickets_length.
Qed.

Lemma register_batch_quiet batch : always quiet (register_outgoing_batch (B := B) (D := D) batch).
Proof.
  unfold register_outgoing_batch. always_by ltac:(apply begin_tickets_quiet || quiet_primitive).
Qed.

Lemma take_batch_accounted r q selected :
  accounted [] r -> take_batch (queue r) = (q, selected) ->
  accounted (work <$> selected) (set_queue q r).
Proof.
  intros Hr (Hq' & Hperm & _)%take_batch_bag; [|apply Hr]. pose proof Hr as [[] ? ? ? ? _ _ _].
  apply (accounted_move [] _ r); try done.
  change (waiting [] r) with (queued r ++ flying r). unfold waiting. rewrite app_assoc.
  apply Permutation_app; [|done].
  unfold queued. cbn. by rewrite <-fmap_app, Hperm.
Qed.

Lemma snapshot_runs held :
  runs (accounted held) (in_world decision_snapshot)
    (fun snapshot r => accounted held r /\ snapshot_ok snapshot (world r)) safe.
Proof.
  intros r Hr. pose proof (quiet_runs held _ (fun _ => True) snapshot_quiet stable_true r (conj Hr I)) as Hrun.
  unfold in_world in *. destruct (decision_snapshot (world r)) as [w' [snapshot|]] eqn:E; [|done].
  destruct Hrun as [Hr' _]. split; [done|]. apply snapshot_spec in E as (Hlive & -> & _).
  exists w'. split_and!; try done. apply Hr'.
Qed.

Lemma world_runs {A} held (m : ST World QueueFailure A) :
  always quiet m -> runs (accounted held) (in_world m) (fun _ => accounted held) safe.
Proof.
  intros Hm r Hr. pose proof (quiet_runs held m (fun _ => True) Hm stable_true r (conj Hr I)) as Hrun.
  destruct (in_world m r) as [r' [a|]]; [apply Hrun|done].
Qed.

Lemma framed {A} (m : ST Reader QueueFailure A) P Q :
  always aside m -> runs P m Q safe ->
  runs (fun r => P r /\ in_flight r = 0) m (fun a r => Q a r /\ in_flight r = 0) safe.
Proof. intros. apply runs_frame; [done..|]. intros r r' (_ & _ & ->). done. Qed.

Lemma dispatch_runs :
  runs (fun r => accounted [] r /\ in_flight r = 0) (dispatch strategy)
    (fun count r => accounted [] (set_in_flight count r)) safe.
Proof.
  unfold dispatch. apply runs_get. intros r0. destruct (take_batch (queue r0)) as [q selected] eqn:Ht.
  eapply (runs_bind _ _ _ (fun _ r => accounted (work <$> selected) r /\ in_flight r = 0)).
  { apply runs_modify. intros r [[Hr Hf] ->]. split; [|done]. by apply take_batch_accounted. }
  intros _. eapply runs_bind.
  { apply framed; [apply in_world_aside|].
    eapply (runs_value _ _ _ _ (fun tickets => length tickets = length (work <$> selected))).
    - apply world_runs, register_batch_quiet.
    - intros r r' tickets. unfold in_world.
      destruct (register_outgoing_batch _ (world r)) as [w' res] eqn:E. intros [= _ ->].
      by apply register_batch_length in E. }
  intros tickets. cbn beta. apply runs_known. intros Hlen.
  eapply runs_bind; [apply framed; [apply in_world_aside|apply snapshot_runs]|].
  intros snapshot. cbn beta. eapply runs_bind.
  { apply framed; [apply in_world_aside|apply quiet_runs, snapshot_ok_stable; apply instant_now_quiet]. }
  intros now. cbn beta. eapply runs_bind.
  { eapply runs_pre; [|apply framed; [apply dispatch_packets_aside|apply (dispatch_packets_runs _ _ [])]].
    intros r [[Hr Hs] Hf]. split; [|done]. split; [|done]. cbn [job_batch]. rewrite !app_nil_r.
    replace (_ <$> zip _ _) with (work <$> selected); [done|].
    change (fun x : QueuedPacketWork * option OutgoingTicket * Z => x.1.1) with
      (fst ∘ fst : QueuedPacketWork * option OutgoingTicket * Z -> _).
    rewrite list_fmap_compose, !fst_zip; [done|lia|].
    rewrite length_zip_with, length_fmap in *. rewrite length_fmap in *. lia. }
  intros job. cbn beta. destruct (Z.ltb_spec 0 (zlen (job_batch job))) as [Hpos|Hzero].
  - apply runs_get. intros r1. intros r [[Hr Hf] ->]. rewrite app_nil_r in Hr. rewrite run_lift.
    destruct (acc_flight _ _ Hr Hf) as [Hj Hc]. rewrite Hj. cbn [is_none].
    destruct (worker_gone r1); cbn [andb negb ensure]; [apply Hr|].
    rewrite run_modify. cbv beta iota delta [mret ST_ret].
    pose proof Hr as [[S1 S2 S3 S4] Hq _ _ _ _ _ _]. apply (accounted_move _ _ _ _ Hr); try done.
    + by right.
    + cbn. lia.
    + unfold flying. cbn. by rewrite Hc, app_nil_r.
    + unfold waiting, flying. cbn. rewrite Hj, Hc. cbn. rewrite !app_nil_r.
      apply Permutation_app_comm.
  - apply runs_ret. intros r [Hr Hf]. apply set_in_flight_accounted;
      [|by apply (acc_flight _ _ Hr)|unfold zlen; lia].
    assert (job_batch job = []) as Ej by (destruct (job_batch job); [done|unfold zlen in Hzero; cbn in Hzero; lia]).
    by rewrite Ej in Hr.
Qed.

(** ** Receiving *)

Lemma received_accounted held batch r :
  accounted held r -> zlen (batch ++ waiting held r) <= PENDING_CAPACITY -> accounted (batch ++ held) (set_received (received r ++ batch) r).
Proof.
  intros [[S1 S2 S3 S4] Hq Hch Hfl Hcount _ Hmem Hbag] Hroom.
  assert (Hw : waiting (batch ++ held) (set_received (received r ++ batch) r) = batch ++ waiting held r)
    by (unfold waiting; by rewrite <-app_assoc).
  split; try done; rewrite ?Hw; try done.
  - split; try done. eapply Forall_impl; [exact S3|]. intros m Hm Hacc.
    destruct (Hm Hacc) as [? (work & packet & ? & ?)]. split; [done|]. exists work, packet.
    split; [|done]. apply elem_of_app. by left.
  - intros x. cbn. rewrite !elem_of_app. intros [?|?]; [by right|left]. by apply Hmem.
  - cbn. unfold ids in *. rewrite (fmap_app _ (received r)), <-Hbag, (fmap_app _ batch), <-app_assoc.
    f_equiv. apply Permutation_app_comm.
Qed.

Lemma push_packets_runs t batch : forall held,
  runs (accounted (batch ++ held)) (push_packets t batch) (fun _ => accounted held) safe.
Proof.
  induction batch as [|work batch IH]; intros held; cbn [push_packets]; [by apply runs_ret|].
  apply runs_get. intros r0. destruct (push (mkPending work t) (queue r0)) as [q pushed] eqn:Hp.
  intros r [Hr ->]. pose proof Hr as [[S1 S2 S3 S4] Hq Hch Hfl Hcount _ _ _].
  apply push_bag in Hp as [Hq' Hp]; [|done]. rewrite run_modify, run_lift.
  destruct pushed as [[]|e]; cbn [map_err]; [|by split]. apply (IH held). destruct Hp as [Hp _].
  apply (accounted_move _ _ _ _ Hr); try done.
  assert (Hqd : queued (set_queue q r0) ≡ₚ work :: queued r0).
  { unfold queued. cbn. rewrite Hp, fmap_app. cbn. by rewrite Permutation_app_comm. }
  unfold waiting. rewrite Hqd. cbn. by rewrite <-Permutation_middle.
Qed.

Lemma arrivals_accounted held v r : accounted held r -> accounted held (set_arrivals v r).
Proof. intros [[] ? ? ? ? ? ? ?]. by split. Qed.

Lemma register_packets_quiet packets : always quiet (register_outgoing_packets (B := B) (D := D) packets).
Proof. unfold register_outgoing_packets. always_by quiet_primitive. Qed.

Lemma capacity_quiet : always quiet (outgoing_packet_capacity (B := B) (D := D)).
Proof. unfold outgoing_packet_capacity. always_by quiet_primitive. Qed.

(** Room for one more datagram. *)
Definition roomy (r : Reader) : Prop :=
  accounted [] r /\ zlen (waiting [] r) + MAX_PACKET_BATCH_SIZE <= PENDING_CAPACITY.

Lemma append_bound bytes batch r :
  append_packet_datagram if_indextoname bytes [] = (batch, r) -> zlen batch <= MAX_PACKET_BATCH_SIZE.
Proof.
  unfold append_packet_datagram. generalize (messages bytes). intros items.
  assert (Hgen : forall b, zlen b <= MAX_PACKET_BATCH_SIZE ->
    append_messages if_indextoname b items = (batch, r) -> zlen batch <= MAX_PACKET_BATCH_SIZE).
  { induction items as [|[m|e] items IH]; intros b Hb; cbn [append_messages]; [by intros [= <- _]| |by intros [= <- _]].
    destruct (negb _); [by apply IH|].
    destruct (Z.ltb_spec (zlen b) MAX_PACKET_BATCH_SIZE); cbn [negb]; [|by intros [= <- _]].
    destruct (packet_id (msg_payload m)); [|by intros [= <- _]]. apply IH. rewrite zlen_app.
    unfold zlen in *. cbn [length]. lia. }
  by apply Hgen.
Qed.

Lemma saturating_room a b :
  usize_saturating_add (usize_saturating_add a b) MAX_PACKET_BATCH_SIZE <= 128 ->
  a + b + MAX_PACKET_BATCH_SIZE <= 128.
Proof. unfold usize_saturating_add, u64_saturating_add, U64_MAX. lia. Qed.

Lemma can_receive_roomy r free :
  accounted [] r -> can_receive (FairQueue_len (queue r)) (in_flight r) free = true -> roomy r.
Proof.
  intros Hr Hc. split; [done|]. unfold can_receive in Hc. apply andb_true_iff in Hc as [Hc%Z.leb_le _].
  assert (Hw : zlen (waiting [] r) = pending (queue r) + zlen (flying r)).
  { change (waiting [] r) with (queued r ++ flying r).
    rewrite zlen_app, (ok_pending _ (acc_queue _ _ Hr)). unfold queued, zlen. by rewrite length_fmap. }
  rewrite Hw. pose proof (acc_count _ _ Hr). apply saturating_room in Hc. unfold FairQueue_len in Hc. lia.
Qed.

Lemma roomy_runs {A} (m : ST World QueueFailure A) :
  always quiet m -> runs roomy (in_world m) (fun _ => roomy) safe.
Proof.
  intros Hm r [Hr Hroom]. pose proof (world_runs [] m Hm r Hr) as Hrun. unfold in_world in *.
  destruct (m (world r)) as [w' [a|]]; [|done]. by split.
Qed.

Lemma receive_runs : runs roomy (receive if_indextoname) (fun _ => accounted []) safe.
Proof.
  unfold receive. apply runs_get. intros r0.
  eapply (runs_bind _ _ _ (fun _ => roomy)).
  { apply runs_modify. intros r [[Hr Hroom] ->]. split; [by apply arrivals_accounted|done]. }
  intros _. eapply runs_bind; [apply runs_lift; [|by intros r [[] _]]; intros r a Hr _; exact Hr|].
  intros arrived. cbn beta. destruct arrived as [| | |bytes]; [apply runs_ret; by intros r [? _]..| |].
  { eapply runs_bind; [apply roomy_runs, count_quiet|]. intros ?. apply runs_ret. by intros r [? _]. }
  eapply runs_bind; [apply roomy_runs, instant_now_quiet|]. intros t. cbn beta.
  destruct (append_packet_datagram _ _ _) as [batch appended] eqn:Happ.
  eapply runs_bind; [apply runs_lift; [|by intros r [[] _]]; intros r a Hr _; exact Hr|]. intros ?. cbn beta.
  eapply runs_bind; [apply roomy_runs, register_packets_quiet|]. intros ?. cbn beta.
  eapply (runs_bind _ _ _ (fun _ => accounted (batch ++ []))).
  { apply runs_modify. intros r [Hr Hroom]. apply received_accounted; [done|].
    apply append_bound in Happ. rewrite zlen_app. lia. }
  intros _. eapply runs_bind; [apply push_packets_runs|]. intros ?. by apply runs_ret.
Qed.

Lemma capacity_roomy r0 :
  runs (fun r => accounted [] r /\ r = r0) (in_world outgoing_packet_capacity)
    (fun free r => accounted [] r
       /\ (can_receive (FairQueue_len (queue r0)) (in_flight r0) free = true -> roomy r)) safe.
Proof.
  intros r [Hr ->]. pose proof (world_runs [] _ capacity_quiet r0 Hr) as Hrun. unfold in_world in *.
  destruct (outgoing_packet_capacity (world r0)) as [w' [free|]]; [|done]. split; [done|].
  intros Hc. by apply (can_receive_roomy _ free).
Qed.

Lemma receive_aside : always aside (receive if_indextoname).
Proof.
  assert (Hpush : forall t batch, always aside (push_packets (B := B) (D := D) t batch)).
  { intros t batch. induction batch as [|work batch IH]; cbn [push_packets]; [apply always_ret; exact _|].
    always_by ltac:(exact IH || by intros ?). }
  unfold receive. always_by ltac:(apply Hpush || apply in_world_aside || by intros ?).
Qed.

Lemma drain_runs fuel :
  runs (fun r => accounted [] r /\ in_flight r = 0) (drain if_indextoname fuel) (fun _ => accounted []) safe.
Proof.
  induction fuel as [|fuel IH]; cbn [drain]; [apply runs_ret; by intros r [? _]|]. apply runs_get. intros r0.
  destruct (MAX_PACKET_BATCH_SIZE <=? _); [apply runs_ret; by intros r [[? _] _]|].
  apply (runs_pure (in_flight r0 = 0)); [by intros r [[_ ?] <-]|intros Hf0].
  eapply runs_bind.
  { eapply runs_pre; [|apply framed; [apply in_world_aside|apply (capacity_roomy r0)]].
    by intros r [[Hr Hf] ->]. }
  intros free. cbn beta. rewrite Hf0. destruct (can_receive _ 0 free); cbn [negb].
  2: { apply runs_ret. by intros r [[? _] _]. }
  eapply runs_bind.
  { eapply runs_pre; [|apply framed; [apply receive_aside|apply receive_runs]].
    intros r [[_ Hroom] Hf]. split; [by apply Hroom|done]. }
  intros more. destruct more; [exact IH|apply runs_ret; by intros r [? _]].
Qed.

Lemma serve_round_runs :
  runs (accounted []) (serve_round if_indextoname strategy) (fun _ => accounted []) safe.
Proof.
  unfold serve_round. eapply runs_bind; [apply world_runs, load_shutdown_quiet|]. intros stop. cbn beta.
  destruct stop; [by apply runs_ret|]. apply runs_get. intros r0.
  apply (runs_pre _ (accounted [])); [by intros r [? _]|].
  eapply (runs_bind _ _ _ (fun _ => accounted [])).
  { destruct (0 <? in_flight r0); [|by apply runs_ret].
    eapply runs_bind; [apply poll_runs|]. intros o. apply taken_runs. }
  intros _. apply runs_get. intros r1.
  destruct ((in_flight r1 =? 0) && _) eqn:Hd.
  { apply andb_true_iff in Hd as [Hz%Z.eqb_eq _]. eapply runs_bind.
    - eapply runs_pre; [|apply dispatch_runs]. by intros r [Hr ->].
    - intros count. cbn beta. eapply (runs_bind _ _ _ (fun _ => accounted [])); [by apply runs_modify|].
      intros _. by apply runs_ret. }
  destruct (in_flight r1 =? 0) eqn:Hz.
  - apply Z.eqb_eq in Hz. eapply runs_bind.
    { eapply runs_pre; [|apply framed; [apply in_world_aside|apply (capacity_roomy r1)]].
      by intros r [Hr ->]. }
    intros free. cbn beta. destruct (can_receive _ _ free); cbn [negb].
    2: { rewrite Hz. intros r [[Hr _] _]. apply Hr. }
    eapply runs_bind.
    { eapply runs_pre; [|apply framed; [apply receive_aside|apply receive_runs]].
      intros r [[_ Hroom] Hf]. split; [by apply Hroom|done]. }
    intros ?. eapply runs_bind; [apply drain_runs|]. intros ?. by apply runs_ret.
  - eapply runs_bind; [apply (capacity_roomy r1)|].
    intros free. cbn beta. destruct (can_receive _ _ free); cbn [negb].
    + eapply runs_bind; [eapply runs_pre; [|apply receive_runs]; intros r [_ Hroom]; by apply Hroom|].
      intros ?. eapply (runs_bind _ _ _ (fun _ => accounted [])); [by apply runs_ret|].
      intros ?. by apply runs_ret.
    + eapply runs_bind; [apply runs_lift; [|by intros r [[] _]]; intros r a [Hr _] _; exact Hr|].
      intros ?. cbn beta. eapply runs_bind; [apply poll_runs|]. intros o.
      eapply runs_bind; [apply taken_runs|]. intros ?. by apply runs_ret.
Qed.

Lemma serve_runs fuel :
  runs (accounted []) (serve if_indextoname strategy fuel) (fun _ => accounted []) safe.
Proof.
  induction fuel as [|fuel IH]; cbn [serve]; [by apply runs_ret|].
  eapply runs_bind; [apply serve_round_runs|]. intros more. destruct more; [exact IH|by apply runs_ret].
Qed.

(** A world in which nothing has been sent yet. *)
Definition fresh (w : World) : Prop :=
  world_ok w /\ Forall resolver_sound (resolutions w) /\ sent (socket w) = [].

Lemma new_accounted w turns arrivals : fresh w -> accounted [] (Reader_new w turns arrivals).
Proof.
  intros (Hw & Hres & Hsent). split; cbn; try done.
  - split; cbn; try done. by rewrite Hsent.
  - split; cbn; try done. constructor.
  - by left.
  - by rewrite Hsent.
Qed.

(** ** Results *)

(** C5: the enforcing queue lets nothing through that the policy does not
    permit.  Start the reader with nothing sent, let any datagrams arrive, let
    the worker run whenever it does, let other threads change the policy, panic
    or shut down, let any system call fail, and stop after any number of
    rounds: every verdict that lets a packet pass belongs to a received packet,
    and at the moment it was sent the engine was not locked and its policy
    permitted the connection to every process, or to the process behind it. *)
Theorem reader_passes_only_what_is_permitted fuel w turns arrivals r' res :
  fresh w -> serve if_indextoname strategy fuel (Reader_new w turns arrivals) = (r', res) ->
  Forall (verdict_ok (received r')) (sent (socket (world r'))).
Proof.
  intros Hw Hrun. pose proof (serve_runs fuel _ (new_accounted _ turns arrivals Hw)) as Hr.
  rewrite Hrun in Hr. destruct res; apply Hr.
Qed.

(** C6: no packet of the enforcing queue is lost or answered twice.  As long as
    no round has failed, the identifiers of the received packets are those of
    the verdicts sent and of the packets that wait in the scheduler or with the
    worker, each exactly as often, and at most 128 packets wait. *)
Theorem packets_are_answered_once fuel w turns arrivals r' :
  fresh w -> serve if_indextoname strategy fuel (Reader_new w turns arrivals) = (r', Ok tt) ->
  (sent_id <$> sent (socket (world r'))) ++ ids (queued r' ++ flying r') ≡ₚ ids (received r')
  /\ zlen (queued r' ++ flying r') <= PENDING_CAPACITY.
Proof.
  intros Hw Hrun. pose proof (serve_runs fuel _ (new_accounted _ turns arrivals Hw)) as Hr.
  rewrite Hrun in Hr. split; apply Hr.
Qed.

Lemma serve_world_ok fuel w turns arrivals :
  fresh w -> world_ok (world (serve if_indextoname strategy fuel (Reader_new w turns arrivals)).1).
Proof.
  intros Hw. pose proof (serve_runs fuel _ (new_accounted _ turns arrivals Hw)) as Hr.
  destruct (serve _ _ _ _) as [r [u|]]; apply Hr.
Qed.

(** C27: a queue that cannot go on locks the engine.  When the reader fails for
    any reason, or its worker ends with an error, the thread raises the shutdown
    flag and locks the engine, and nothing that any thread does later unlocks
    it. *)
Theorem failed_reader_locks fuel joined w turns arrivals r' u :
  fresh w -> is_ok (serve if_indextoname strategy fuel (Reader_new w turns arrivals)).2 && is_ok joined = false ->
  run if_indextoname strategy fuel joined (Reader_new w turns arrivals) = (r', u) ->
  stopping (world r') = true /\ forall w', later (world r') w' -> ~ live w'.
Proof.
  intros Hw Hfail. pose proof (serve_world_ok fuel w turns arrivals Hw) as Hok.
  unfold run, attempt. rewrite !run_bind. destruct (serve _ _ _ _) as [r res]. cbn [fst snd] in *.
  assert (Hrest : in_world (E := Empty_set) (handle_packet_queue_failure EnforcingRole) r = (r', u) ->
    stopping (world r') = true /\ forall w', later (world r') w' -> ~ live w').
  { unfold in_world. destruct (handle_packet_queue_failure _ (world r)) as [w' r''] eqn:E.
    intros [= <- _]. by apply failure_locks in E. }
  destruct res as [[]|e]; [|done]. unfold lift. by destruct joined as [[]|e].
Qed.
End Reader.
