(* ===== verification/Readers.v ===== *)
(** * Threads that answer packets

    What the readers of the reply and of the learning queue have in common:
    each works on its own state and on the shared world, takes packets in and
    answers them.  [QueueThread] is that interface; the lemmas say how the
    steps of a thread keep its promise. *)

From S2P Require Import Prelude Text Net Application Model State StateFacts StateLearning.
From S2P Require Import StateLearningFacts Policy Learning Snapshots Marks Nftables Decision.
From S2P Require Import Netlink Packet Progress Capture Registry.
From S2P Require Import Protocol Bus Pinning Storage Engine EngineLearning EngineControl EngineLaws.
From S2P Require Import EngineSafety EngineRuns Authority Runtime.
Local Open Scope Z_scope.

Section Threads.
Context {B D : Type} `{BackendLaws B} `{StoreLaws D} `{IpNetLib} `{JsonLib} `{Target} `{HashOrder}.
Abbreviation World := (World (B := B) (D := D)).
Abbreviation SentVerdict := (SentVerdict (B := B) (D := D)).

(** The world in the state of a thread. *)
Class HasWorld (S : Type) := {
  of_world : S -> World;
  with_world : World -> S -> S
}.

Definition zoom {S} `{HasWorld S} {E A} (m : ST World E A) : ST S E A := fun s =>
  let '(w, a) := m (of_world s) in (with_world w s, a).

(** [right s m]: the verdict [m] was right.  [intact]: what holds of the
    thread's own state.  The identifiers of the packets that the thread holds
    and of those it has taken in so far. *)
Class QueueThread (S : Type) `{!HasWorld S} := {
  right : S -> SentVerdict -> Prop;
  intact : S -> Prop;
  held_ids : S -> list Z;
  seen_ids : S -> list Z
}.

Class QueueThreadLaws (S : Type) `{!HasWorld S, !QueueThread S} : Prop := {
  of_with w s : of_world (with_world w s) = w;
  with_with w w' s : with_world w' (with_world w s) = with_world w' s;
  right_with w s m : right (with_world w s) m <-> right s m;
  right_drop s m : sent_code m = NF_DROP -> sent_mark m = None -> right s m;
  intact_with w s : intact (with_world w s) <-> intact s;
  held_with w s : held_ids (with_world w s) = held_ids s;
  seen_with w s : seen_ids (with_world w s) = seen_ids s
}.

(** ** The promise *)

Section Promise.
Context {S : Type} `{!HasWorld S, !QueueThread S, !QueueThreadLaws S}.

Record thread_safe (s : S) : Prop := {
  ts_world : world_ok (of_world s);
  ts_sent : Forall (right s) (sent (socket (of_world s)));
  ts_intact : intact s
}.

(** Every packet that was taken in is answered, in hand or held, exactly once. *)
Record thread_accounted (hand : list Z) (s : S) : Prop := {
  ta_safe : thread_safe s;
  ta_bag : (sent_id <$> sent (socket (of_world s))) ++ hand ++ held_ids s ≡ₚ seen_ids s
}.

(** Facts about the thread's own state, and facts that also depend on the
    engine's mode and generation, which last as long as its guard is held. *)
Definition framed (F : S -> Prop) : Prop := forall w s, F s -> F (with_world w s).
Definition guarded (F : S -> Prop) : Prop := forall w s,
  F s -> (forall current, identified_as current (of_world s) -> identified_as current w) ->
  F (with_world w s).

Lemma framed_guarded F : framed F -> guarded F.
Proof. intros HF w s Hs _. by apply HF. Qed.

Lemma identified_guarded F current :
  framed F -> guarded (fun s => F s /\ identified_as current (of_world s)).
Proof. intros HF w s [Hs Hid] Hkeep. split; [by apply HF|]. rewrite of_with. auto. Qed.

Lemma with_safe s w' new :
  thread_safe s -> later (of_world s) w' -> sent (socket w') = sent (socket (of_world s)) ++ new ->
  Forall (right s) new -> thread_safe (with_world w' s).
Proof.
  intros [Hw Hs Hi] Hl Hnew Hr. split; rewrite ?of_with.
  - by apply (later_ok _ _ Hl).
  - rewrite Hnew. apply Forall_app. split; (eapply Forall_impl; [eassumption|]); intros m; by rewrite right_with.
  - by rewrite intact_with.
Qed.

(** ** Steps *)

(** Work that sends nothing. *)
Lemma zoom_runs {A} hand F (m : ST World QueueFailure A) (P : World -> Prop) Q :
  framed F -> always quiet m -> (forall w w' a, P w -> m w = (w', Ok a) -> Q a w') ->
  runs (fun s => (thread_accounted hand s /\ F s) /\ P (of_world s)) (zoom m)
    (fun a s => (thread_accounted hand s /\ F s) /\ Q a (of_world s)) thread_safe.
Proof.
  intros HF Hm HQ s ([[Hsafe Hbag] Hf] & HP). unfold zoom. specialize (Hm (of_world s)).
  destruct (m (of_world s)) as [w' res] eqn:E. destruct Hm as [Hl Hs]. cbn [fst] in *.
  assert (Hsafe' : thread_safe (with_world w' s)).
  { apply (with_safe s w' []); try done. by rewrite Hs, app_nil_r. }
  destruct res as [a|]; [|done].
  split; [|rewrite of_with; by apply (HQ (of_world s))]. split; [|by apply HF].
  split; [done|]. by rewrite of_with, held_with, seen_with, Hs.
Qed.

Lemma zoom_quiet {A} hand F (m : ST World QueueFailure A) :
  framed F -> always quiet m ->
  runs (fun s => thread_accounted hand s /\ F s) (zoom m)
    (fun _ s => thread_accounted hand s /\ F s) thread_safe.
Proof.
  intros HF Hm s Hs. pose proof (zoom_runs hand F m (fun _ => True) (fun _ _ => True) HF Hm) as Hrun.
  specialize (Hrun ltac:(done) s). destruct (zoom m s) as [s' [a|]]; by apply Hrun.
Qed.

(** Work under the guard. *)
Lemma zoom_steady {A} hand F (m : ST World QueueFailure A) :
  guarded F -> always steady m ->
  runs (fun s => thread_accounted hand s /\ F s) (zoom m)
    (fun _ s => thread_accounted hand s /\ F s) thread_safe.
Proof.
  intros HF Hm s [Hs Hf].
  pose proof (zoom_quiet hand (fun _ => True) m ltac:(done) (always_quiet m Hm) s (conj Hs I)) as Hrun.
  unfold zoom in *. specialize (Hm (of_world s)). destruct (m (of_world s)) as [w' [a|]]; [|done].
  split; [apply Hrun|]. apply HF; [done|apply Hm].
Qed.

(** A verdict answers the packet in hand. *)
Lemma zoom_answer hand F id code mark :
  guarded F ->
  runs (fun s => (thread_accounted (id :: hand) s /\ F s)
      /\ forall message, right s (mkSent id code mark message (shared (of_world s)) (registry (of_world s))
                                 (clock (of_world s))))
    (zoom (send_verdict id code mark)) (fun _ s => thread_accounted hand s /\ F s) thread_safe.
Proof.
  intros HF s ([[Hsafe Hbag] Hf] & Hok). unfold zoom.
  pose proof (send_verdict_later id code mark (of_world s)) as Hl.
  destruct (send_verdict id code mark (of_world s)) as [w' res] eqn:E. cbn [fst] in Hl.
  apply send_verdict_spec in E as (Hsh & Hlo & _ & _ & _ & Hs). destruct res as [u|].
  - destruct Hs as [message Hs]. split; [split|].
    + eapply with_safe; [done..|]. by apply Forall_singleton.
    + rewrite of_with, held_with, seen_with, Hs, fmap_app, <-app_assoc. exact Hbag.
    + apply HF; [done|]. intros current. unfold identified_as, live. by rewrite Hsh, Hlo.
  - apply (with_safe s w' []); try done. by rewrite Hs, app_nil_r.
Qed.

Lemma zoom_bind {A A'} (m : ST World QueueFailure A) (k : A -> ST World QueueFailure A') P Q X :
  runs P (zoom m ≫= fun a => zoom (k a)) Q X -> runs P (zoom (m ≫= k)) Q X.
Proof.
  intros Hrun s Hs. specialize (Hrun s Hs). rewrite run_bind in Hrun. unfold zoom in *.
  rewrite run_bind. destruct (m (of_world s)) as [w' [a|]]; [|done].
  rewrite of_with in Hrun. destruct (k a w') as [w'' r]. by rewrite with_with in Hrun.
Qed.

(** A drop is always right. *)
Lemma zoom_deny hand F id :
  guarded F ->
  runs (fun s => thread_accounted (id :: hand) s /\ F s) (zoom (send_verdict id NF_DROP None ;; record_denied))
    (fun _ s => thread_accounted hand s /\ F s) thread_safe.
Proof.
  intros HF. apply zoom_bind. eapply runs_bind.
  - eapply runs_pre; [|by apply zoom_answer]. intros s Hs. split; [exact Hs|]. intros message.
    by apply right_drop.
  - intros u. by apply zoom_steady, count_steady.
Qed.

(** A held packet is answered first and forgotten then. *)
Lemma answer_held (m : ST World QueueFailure unit) id F F' P (forget : S -> S) :
  (forall s, of_world (forget s) = of_world s) ->
  (forall w s, with_world w (forget s) = forget (with_world w s)) ->
  (forall s, F s -> intact s ->
     intact (forget s) /\ id :: held_ids (forget s) ≡ₚ held_ids s /\ seen_ids (forget s) = seen_ids s
     /\ (forall m, right (forget s) m <-> right s m) /\ F' (forget s)) ->
  runs (fun s => (thread_accounted [id] s /\ F' s) /\ P (of_world s)) (zoom m)
    (fun _ s => thread_accounted [] s /\ F' s) thread_safe ->
  runs (fun s => (thread_accounted [] s /\ F s) /\ P (of_world s))
    (zoom m ;; modify forget) (fun _ s => thread_accounted [] s /\ F' s) thread_safe.
Proof.
  intros Hof Hwith Hforget Hm s ([[[T1 T2 T3] Hbag] Hf] & HP).
  destruct (Hforget s Hf T3) as (Hi & Hheld & Hseen & Hright & HF').
  assert (Htake : thread_accounted [id] (forget s)).
  { split; [split|]; rewrite ?Hof; try done.
    - eapply Forall_impl; [exact T2|]. intros v. by rewrite Hright.
    - rewrite Hseen, <-Hbag. cbn. by rewrite Hheld. }
  rewrite <-(Hof s) in HP. specialize (Hm _ (conj (conj Htake HF') HP)). rewrite run_bind. unfold zoom in *.
  rewrite Hof in Hm. destruct (m (of_world s)) as [w' [u|]].
  - unfold modify. by rewrite <-Hwith.
  - rewrite Hwith in Hm. destruct Hm as [U1 U2 U3]. rewrite <-Hwith, of_with in U1, U2.
    split; rewrite ?of_with; [done| |by rewrite intact_with].
    eapply Forall_impl; [exact U2|]. intros v. by rewrite !right_with, Hright.
Qed.
End Promise.
End Threads.
