(* ===== verification/ReplyQueue.v ===== *)
(** * The reply queue

    [nfqueue_reply.rs]: replies that raced the mark reset of their own request
    are held until the requests ahead of them have their verdicts, and are then
    repeated to the kernel, whose policy decides about them again.
    [ReplyReader] is the state of the thread, with a log of the replies that it
    decided to hold, which only the theorems read. *)

From S2P Require Import Prelude Text Net Application Model State StateFacts StateLearning.
From S2P Require Import StateLearningFacts Policy Learning Snapshots Marks Nftables Decision.
From S2P Require Import Netlink Packet Progress Capture Registry.
From S2P Require Import Protocol Bus Pinning Storage Engine EngineLearning EngineControl EngineLaws.
From S2P Require Import EngineSafety EngineRuns Authority Runtime Verdicts Readers.
Local Open Scope Z_scope.

Section Replies.
Context {B D : Type} `{BackendLaws B} `{StoreLaws D} `{IpNetLib} `{JsonLib} `{Target} `{HashOrder}.
Abbreviation World := (World (B := B) (D := D)).
Abbreviation SentVerdict := (SentVerdict (B := B) (D := D)).

(** ** The thread *)

(** A reply that is about to be held: its barrier, and the engine and the clock
    of that moment. *)
Record Admission : Type := mkAdmission {
  adm_id : Z;
  adm_packet : ReplyPacket;
  adm_barrier : ReadThroughBarrier;
  adm_engine : Engine B D;
  adm_at : Z
}.

(** [replies] is every reply so far, and [admissions] every one that was about to
    be held, which the code does not keep. *)
Record ReplyReader : Type := mkReplyReader {
  reply_world : World;
  pending_replies : PendingReplies;
  reply_arrivals : list (Result QueueFailure QueueReceive);
  replies : list (Z * Result ParseError ReplyPacket);
  admissions : list Admission
}.

Definition set_reply_world (v : World) (r : ReplyReader) : ReplyReader :=
  mkReplyReader v r.(pending_replies) r.(reply_arrivals) r.(replies) r.(admissions).
Definition set_pending_replies (v : PendingReplies) (r : ReplyReader) : ReplyReader :=
  mkReplyReader r.(reply_world) v r.(reply_arrivals) r.(replies) r.(admissions).
Definition set_reply_arrivals (v : list (Result QueueFailure QueueReceive)) (r : ReplyReader)
    : ReplyReader :=
  mkReplyReader r.(reply_world) r.(pending_replies) v r.(replies) r.(admissions).
Definition forget_reply (id : Z) (r : ReplyReader) : ReplyReader :=
  set_pending_replies (delete id r.(pending_replies)) r.
Definition note_reply (id : Z) (packet : Result ParseError ReplyPacket) (r : ReplyReader)
    : ReplyReader :=
  mkReplyReader r.(reply_world) r.(pending_replies) r.(reply_arrivals) (r.(replies) ++ [(id, packet)])
    r.(admissions).
Definition note_admission (id : Z) (packet : ReplyPacket) (barrier : ReadThroughBarrier) (r : ReplyReader)
    : ReplyReader :=
  mkReplyReader r.(reply_world) r.(pending_replies) r.(reply_arrivals) r.(replies)
    (r.(admissions) ++ [mkAdmission id packet barrier r.(reply_world).(shared) r.(reply_world).(clock)]).

#[export] Instance ReplyReader_world : HasWorld ReplyReader :=
  {| of_world := reply_world; with_world := set_reply_world |}.

Definition capture_read_through_barrier : ST World QueueFailure ReadThroughBarrier :=
  lock_registry ;;
  w ← get;
  modify (set_proc_files (tail w.(proc_files))) ;;
  lift (map_err CaptureFailed
          (capture w.(registry).(progress).(identity) (default None (head w.(proc_files))))).

(** [drop_reply] and the counter that always follows it. *)
Definition deny_reply (id : Z) : ST World QueueFailure unit :=
  send_verdict id NF_DROP None ;; record_denied.
Definition repeat_reply (id mark : Z) : ST World QueueFailure unit :=
  send_verdict id NF_REPEAT (Some (application_reply_retry_mark mark)).

(** The policy's mode and generation, under the guard. *)
Definition decision_identity : ST World QueueFailure (Mode * Z) :=
  locked ← lock_engine;
  lift (ensure locked EngineMutexPoisoned) ;;
  w ← get;
  lift (map_err EngineRefused (application_decision_identity w.(shared))).

(** What the registry says about a held reply. *)
Definition ask_disposition (packet : PendingReply) (mode : Mode) (generation' now : Z)
    : ST World QueueFailure Disposition :=
  lock_registry ;;
  stopping ← load_shutdown;
  instant ← instant_now;
  w ← get;
  let '(registry, disposition) :=
    disposition packet mode generation' stopping (Z.max now instant) w.(registry) in
  modify (set_registry registry) ;;
  mret disposition.

(** One round of the loop of [release_pending]. *)
Definition release_reply (now id : Z) : ST ReplyReader QueueFailure unit :=
  current ← zoom decision_identity;
  r ← get;
  packet ← lift (ok_or PendingDisappeared (r.(pending_replies) !! id));
  disposition ← zoom (ask_disposition packet current.1 current.2 now);
  match disposition with
  | Wait => mret tt
  | DropReply =>
      zoom (deny_reply id) ;;
      modify (forget_reply id)
  | Repeat =>
      zoom (repeat_reply id packet.(reply_packet).(reply_mark)) ;;
      modify (forget_reply id)
  end.

Fixpoint release_replies (now : Z) (ids : list Z) : ST ReplyReader QueueFailure unit :=
  match ids with
  | [] => mret tt
  | id :: rest => release_reply now id ;; release_replies now rest
  end.

Definition release_pending (now : Z) : ST ReplyReader QueueFailure unit :=
  r ← get;
  release_replies now (hash_iter r.(pending_replies)).*1.

(** A parsed reply with its barrier is held, or denied. *)
Definition admit_reply (id : Z) (packet : ReplyPacket) (read_through : ReadThroughBarrier)
    : ST ReplyReader QueueFailure unit :=
  current ← zoom decision_identity;
  held ←
    (if negb (current.1 ==? Enforcing) then mret false
     else
       stopping ← zoom load_shutdown;
       if stopping : bool then mret false
       else
         now ← zoom instant_now;
         modify (note_admission id packet read_through) ;;
         r ← get;
         let '(pending, inserted) :=
           PendingReplies_insert id packet current.2 now read_through r.(pending_replies) in
         modify (set_pending_replies pending) ;;
         lift (map_err PendingRefused inserted));
  if held : bool then mret tt else zoom (deny_reply id).

(** One message of a datagram. *)
Definition receive_reply (message : NetlinkMessage) : ST ReplyReader QueueFailure unit :=
  if negb (message.(message_type) =? queue_message_type NFQNL_MSG_PACKET) then mret tt
  else
    id ← lift (ok_or ReplyWithoutIdentifier (packet_id message.(msg_payload)));
    r ← get;
    lift (ensure (is_none (r.(pending_replies) !! id)) (PendingRefused ReplyIdReused)) ;;
    let parsed := parse_reply message.(msg_payload) in
    modify (note_reply id parsed) ;;
    match parsed with
    | Err _ => zoom (deny_reply id)
    | Ok packet =>
        barrier ← zoom (attempt capture_read_through_barrier);
        match barrier with
        | Err _ => zoom (deny_reply id)
        | Ok read_through => admit_reply id packet read_through
        end
    end.

Fixpoint receive_replies (items : list (Result ParseError NetlinkMessage))
    : ST ReplyReader QueueFailure unit :=
  match items with
  | [] => mret tt
  | item :: rest =>
      message ← lift (map_err PacketNotParsed item);
      receive_reply message ;;
      receive_replies rest
  end.

(** One round of the loop of [run_inner]; false when the daemon is stopping. *)
Definition reply_round : ST ReplyReader QueueFailure bool :=
  stopping ← zoom load_shutdown;
  if stopping : bool then mret false
  else
    now ← zoom instant_now;
    release_pending now ;;
    r ← get;
    modify (set_reply_arrivals (tail r.(reply_arrivals))) ;;
    arrived ← lift (default (Ok Idle) (head r.(reply_arrivals)));
    match arrived with
    | Idle | Interrupted => mret tt
    | Overflow => zoom record_queue_overflow
    | Datagram bytes => receive_replies (messages bytes)
    end ;;
    mret true.

Fixpoint deny_replies (ids : list Z) : ST ReplyReader QueueFailure unit :=
  match ids with
  | [] => mret tt
  | id :: rest =>
      zoom (deny_reply id) ;;
      modify (forget_reply id) ;;
      deny_replies rest
  end.

(** [run_inner], for at most [fuel] rounds; whether it came to its end. *)
Fixpoint run_inner (fuel : nat) : ST ReplyReader QueueFailure bool :=
  match fuel with
  | O => mret false
  | S fuel =>
      more ← reply_round;
      if more : bool then run_inner fuel
      else
        r ← get;
        deny_replies (hash_iter r.(pending_replies)).*1 ;;
        mret true
  end.

(** The thread; [panicked] when an unwinding was caught. *)
Definition run_replies (fuel : nat) (panicked : bool) : ST ReplyReader Empty_set unit :=
  result ← attempt (run_inner fuel);
  if is_ok result && negb panicked then mret tt
  else zoom (handle_packet_queue_failure ReplyRole).

Definition ReplyReader_new (w : World) (arrivals : list (Result QueueFailure QueueReceive))
    : ReplyReader :=
  mkReplyReader w ∅ arrivals [] [].
End Replies.

(** ** What the thread promises *)

Section Safety.
Context {B D : Type} `{BackendLaws B} `{StoreLaws D} `{IpNetLib} `{JsonLib} `{Target} `{HashOrder}.
Abbreviation World := (World (B := B) (D := D)).
Abbreviation SentVerdict := (SentVerdict (B := B) (D := D)).
Abbreviation ReplyReader := (ReplyReader (B := B) (D := D)).
Abbreviation Admission := (Admission (B := B) (D := D)).

(** The first moment at which a reply may be repeated: a retry waits. *)
Definition retry_time (a : Admission) : Z :=
  adm_at a + (if Z.shiftr (reply_mark (adm_packet a)) 30 =? 0 then 0 else RETRY_BACKOFF).

(** Why a reply may be repeated now, by the engine [e], the registry [reg] and the
    clock [now], when it was held by the admission [a]. *)
Record released (e : Engine B D) (reg : Registry) (now : Z) (a : Admission) : Prop := {
  rel_admitted : unlocked (adm_engine a) /\ mode (state (adm_engine a)) = Enforcing;
  rel_unlocked : unlocked e;
  rel_mode : mode (state e) = Enforcing;
  rel_generation : flow_generation (state e) = flow_generation (state (adm_engine a));
  rel_time : retry_time a <= now < adm_at a + LIFETIME;
  rel_reached : reached_for_flow (progress reg) (adm_barrier a) (reply_key (adm_packet a)) = true;
  rel_wave : generation reg = Some (flow_generation (state (adm_engine a)))
    /\ exists w, waves reg !! reply_key (adm_packet a) = Some w /\ failed w = false
}.

(** A reply whose retries are not used up. *)
Definition retriable (packet : ReplyPacket) : Prop :=
  reply_mark packet <> application_reply_retry_mark (reply_mark packet).

(** The reply [id] was received, may be retried, and was about to be held. *)
Definition received_as (replies : list (Z * Result ParseError ReplyPacket)) (admissions : list Admission)
    (id : Z) (a : Admission) : Prop :=
  a ∈ admissions /\ adm_id a = id /\ (id, Ok (adm_packet a)) ∈ replies /\ retriable (adm_packet a).

Definition reply_verdict_ok (replies : list (Z * Result ParseError ReplyPacket)) (admissions : list Admission)
    (m : SentVerdict) : Prop :=
  (sent_code m = NF_DROP /\ sent_mark m = None)
  \/ (sent_code m = NF_REPEAT
      /\ exists a, received_as replies admissions (sent_id m) a
         /\ sent_mark m = Some (application_reply_retry_mark (reply_mark (adm_packet a)))
         /\ released (sent_engine m) (sent_registry m) (sent_at m) a).

(** What is kept of a held reply is what its admission says. *)
Definition held_as (a : Admission) (p : PendingReply) : Prop :=
  unlocked (adm_engine a) /\ mode (state (adm_engine a)) = Enforcing
  /\ p = mkPendingReply (adm_packet a) (flow_generation (state (adm_engine a))) (adm_at a) (retry_time a)
           (adm_barrier a).

#[export] Instance ReplyReader_thread : QueueThread (B := B) (D := D) ReplyReader := {|
  right r := reply_verdict_ok (replies r) (admissions r);
  intact r := Z.of_nat (size (pending_replies r)) <= CAPACITY
    /\ forall id p, pending_replies r !! id = Some p ->
         exists a, received_as (replies r) (admissions r) id a /\ held_as a p;
  held_ids r := (map_to_list (pending_replies r)).*1;
  seen_ids r := (replies r).*1
|}.

#[export] Instance ReplyReader_laws : QueueThreadLaws (B := B) (D := D) ReplyReader.
Proof. split; try done. intros r m ? ?. by left. Qed.

Lemma parse_reply_retriable payload packet : parse_reply payload = Ok packet -> retriable packet.
Proof.
  unfold parse_reply, retriable. intros Hp.
  repeat match type of Hp with
  | (ensure ?b _ ;; _) = Ok _ => destruct b eqn:?; cbn [ensure mbind Result_bind] in Hp; [|discriminate Hp]
  | (?m ≫= _) = Ok _ => destruct m eqn:?; cbn [mbind Result_bind] in Hp; [|discriminate Hp]
  end.
  injection Hp as <-. cbn [reply_mark].
  match goal with H : negb (?a =? ?b) = true |- _ => apply negb_true_iff, Z.eqb_neq in H; exact H end.
Qed.

(** ** Steps of the thread *)

(** What the thread has received. *)
Definition Log : Type := list (Z * Result ParseError ReplyPacket) * list Admission.

(** What the thread holds and has received. *)
Definition kept (pending : PendingReplies) (rs : Log) (r : ReplyReader) : Prop :=
  pending_replies r = pending /\ (replies r, admissions r) = rs.

Lemma kept_framed pending rs : framed (B := B) (D := D) (kept pending rs).
Proof. by intros w r. Qed.

Lemma runs_kept {A} hand (m : ST ReplyReader QueueFailure A) Q X :
  (forall pending rs, runs (fun r => thread_accounted hand r /\ kept pending rs r) m Q X) ->
  runs (thread_accounted hand) m Q X.
Proof. intros Hm r Hr. by apply (Hm (pending_replies r) (replies r, admissions r)). Qed.

Lemma deny_runs hand id pending rs :
  runs (fun r => thread_accounted (id :: hand) r /\ kept pending rs r) (zoom (deny_reply id))
    (fun _ r => thread_accounted hand r /\ kept pending rs r) thread_safe.
Proof. apply zoom_deny, framed_guarded, kept_framed. Qed.

Lemma decision_identity_quiet : always quiet (decision_identity (B := B) (D := D)).
Proof. unfold decision_identity. always_by quiet_primitive. Qed.

Lemma decision_identity_spec (w w' : World) current :
  decision_identity w = (w', Ok current) -> identified_as current w'.
Proof.
  unfold decision_identity. rewrite run_lock_engine, run_lift.
  destruct (engine_lock_poisoned _) eqn:Hl; [done|]. cbn [negb ensure]. rewrite run_get.
  unfold application_decision_identity, lift.
  destruct (fatal _ || poisoned _) eqn:Hfp; [done|]. apply orb_false_iff in Hfp as [Hf Hp].
  intros [= <- <-]. split; [by split_and!|done].
Qed.

Lemma disposition_repeats p mode' g stop now reg reg' :
  disposition p mode' g stop now reg = (reg', Repeat) ->
  mode' = Enforcing /\ g = reply_generation p /\ not_before p <= now < Registry.started p + LIFETIME
  /\ reached_for_flow (progress reg') (read_through p) (reply_key (reply_packet p)) = true
  /\ generation reg' = Some (reply_generation p)
  /\ exists w, waves reg' !! reply_key (reply_packet p) = Some w /\ failed w = false.
Proof.
  unfold disposition. destruct (_ || _) eqn:Hc; [done|]. rewrite !orb_false_iff in Hc.
  destruct Hc as [[[_ Hm] Hg] Ht]. rewrite negb_false_iff, Z.eqb_eq in Hg. rewrite Z.leb_gt in Ht.
  rewrite negb_false_iff, eqb_true in Hm. unfold saturating_duration_since in Ht.
  destruct (Z.ltb_spec now (not_before p)); [done|]. destruct (reached_for_flow _ _ _) eqn:Hr; [|done].
  cbn [negb]. unfold readiness. cbv zeta. change (progress reg) with (progress (prune now reg)) in Hr.
  generalize dependent (prune now reg). intros reg1 Hr [= <- Hd]. destruct (_ !=? _) eqn:Hgen; [done|].
  rewrite negb_false_iff, eqb_true in Hgen. destruct (waves _ !! _) as [w|] eqn:Hw; [|done].
  destruct (failed w) eqn:Hf; [done|]. split_and!; try done; [lia..|by exists w].
Qed.

Lemma ask_steady p mode' g now : always steady (ask_disposition (B := B) (D := D) p mode' g now).
Proof.
  unfold ask_disposition. always_by steady_primitive.
Qed.

Lemma instant_now_spec {E} (w w' : World) now :
  (instant_now : ST World E Z) w = (w', Ok now) -> now = clock w' /\ clock w <= clock w'.
Proof. unfold instant_now. rewrite run_modify, run_get. intros [= <- <-]. cbn. split; [done|lia]. Qed.

Lemma quiet_clock {E A} (m : ST World E A) (w w' : World) r : always quiet m -> m w = (w', r) -> clock w <= clock w'.
Proof. intros Hm Hrun. destruct (Hm w) as [Hl _]. rewrite Hrun in Hl. apply Hl. Qed.

Lemma ask_spec p current now (w w' : World) :
  identified_as current w /\ now <= clock w -> ask_disposition p current.1 current.2 now w = (w', Ok Repeat) ->
  forall a, held_as a p -> released (shared w') (registry w') (clock w') a.
Proof.
  intros [Hid Hnow] Hrun a (Hau & Ham & ->). set (p := mkPendingReply _ _ _ _ _) in *.
  destruct (ask_steady p current.1 current.2 now w) as [_ Hkeep].
  apply Hkeep in Hid. rewrite Hrun in Hid. cbn [fst] in Hid. clear Hkeep.
  unfold ask_disposition in Hrun. apply run_bind_Ok in Hrun as (? & w1 & H1' & Hrun).
  apply (quiet_clock _ _ _ _ lock_registry_quiet) in H1'.
  apply run_bind_Ok in Hrun as (stop & w2 & H2' & Hrun). apply (quiet_clock _ _ _ _ load_shutdown_quiet) in H2'.
  apply run_bind_Ok in Hrun as (instant & w3 & H3' & Hrun). apply instant_now_spec in H3' as [-> H3'].
  rewrite run_get, Z.max_r in Hrun by lia.
  destruct (disposition _ _ _ _ _ _) as [reg d] eqn:Hd. rewrite run_modify in Hrun.
  injection Hrun as <- ->. apply disposition_repeats in Hd as (Hm & Hg & Ht & Hr & Hgen & Hw).
  destruct Hid as [(_ & ? & ?) ->]. by split.
Qed.

Lemma answer_reply (m : ST World QueueFailure unit) id p pending rs P :
  pending !! id = Some p ->
  runs (fun r => (thread_accounted [id] r /\ kept (delete id pending) rs r) /\ P (reply_world r)) (zoom m)
    (fun _ r => thread_accounted [] r /\ kept (delete id pending) rs r) thread_safe ->
  runs (fun r => (thread_accounted [] r /\ kept pending rs r) /\ P (reply_world r))
    (zoom m ;; modify (forget_reply id))
    (fun _ r => thread_accounted [] r /\ kept (delete id pending) rs r) thread_safe.
Proof.
  intros Hp Hm. refine (answer_held m id (kept pending rs) (kept (delete id pending) rs) P (forget_reply id)
    _ _ _ Hm); [done|done|].
  intros r [Hpr Hrs] [Hsize Hin]. unfold forget_reply. cbn. rewrite Hpr. split_and!; try done.
  - rewrite map_size_delete, Hp. rewrite Hpr in Hsize. lia.
  - intros id' p' [_ Hp']%lookup_delete_Some. apply Hin. by rewrite Hpr.
  - rewrite <-(insert_delete_id _ _ _ Hp) at 2. rewrite map_to_list_insert by apply lookup_delete_eq. done.
Qed.

(** Time passes while a held reply is looked at. *)
Lemma zoom_clock {E A} (m : ST World E A) :
  always later m ->
  always (fun r r' : ReplyReader => clock (reply_world r) <= clock (reply_world r')) (zoom m).
Proof.
  intros Hm r. specialize (Hm (reply_world r)). unfold zoom. cbn [of_world ReplyReader_world].
  destruct (m (reply_world r)). apply Hm.
Qed.

#[local] Instance reply_clock_preorder : PreOrder (fun r r' : ReplyReader => clock (reply_world r) <= clock (reply_world r')).
Proof. split; [intros r; lia|intros r1 r2 r3; lia]. Qed.

Lemma release_clock now id :
  always (fun r r' : ReplyReader => clock (reply_world r) <= clock (reply_world r')) (release_reply now id).
Proof.
  unfold release_reply. always_by ltac:(first
    [ apply zoom_clock, always_later; first [apply decision_identity_quiet | apply always_quiet, ask_steady]
    | apply zoom_clock; unfold deny_reply, repeat_reply, record_denied; always_by later_primitive
    | intros ?; cbn; lia ]).
Qed.

Lemma release_reply_answers now id pending rs :
  runs (fun r => (thread_accounted [] r /\ kept pending rs r) /\ now <= clock (reply_world r)) (release_reply now id)
    (fun _ => thread_accounted []) thread_safe.
Proof.
  unfold release_reply. eapply runs_bind.
  { eapply runs_pre; [|apply (zoom_runs [] (kept pending rs) _ (fun w => now <= clock w)
      (fun current w => identified_as current w /\ now <= clock w))];
      [intros r Hr; exact Hr|apply kept_framed|apply decision_identity_quiet|]. intros w w' current Hnow Hrun.
    split; [by eapply decision_identity_spec|]. apply (quiet_clock _ _ _ _ decision_identity_quiet) in Hrun. lia. }
  intros current. cbn beta. apply runs_get. intros r0. apply (runs_pure (pending_replies r0 = pending));
    [by intros r [[[_ [? _]] _] <-]|intros ->].
  destruct (pending !! id) as [p|] eqn:Hl; [|intros r [[[[? _] _] _] _]; done].
  cbn [ok_or]. apply runs_lift_Ok. apply (runs_pure (exists a, received_as rs.1 rs.2 id a /\ held_as a p)).
  { intros r [[[[[_ _ [_ S3]] _] [Hp Hrs]] _] _]. rewrite <-Hrs. apply S3. by rewrite Hp. }
  intros (a & Hin & Hheld). eapply runs_bind.
  { eapply runs_pre; [|apply (zoom_runs [] (kept pending rs) _ (fun w => identified_as current w /\ now <= clock w)
      (fun d w => d = Repeat -> released (shared w) (registry w) (clock w) a))].
    - by intros r [? _].
    - apply kept_framed.
    - apply always_quiet, ask_steady.
    - intros w w' d Hid Hrun ->. by eapply ask_spec. }
  intros d. destruct d; cbn beta.
  - apply runs_ret. by intros r [[? _] _].
  - eapply runs_post; [|eapply runs_pre; [|eapply (answer_reply _ id p pending rs (fun _ => True)); [done|]]].
    + by intros ? r [? _].
    + by intros r [? _].
    + eapply runs_pre; [|apply deny_runs]. by intros r [? _].
  - eapply runs_post; [|apply (answer_reply _ id p pending rs (fun w => Repeat = Repeat ->
      released (shared w) (registry w) (clock w) a)); [done|]]; [by intros ? r [? _]|].
    eapply runs_pre; [|apply zoom_answer, framed_guarded, kept_framed].
    intros r [Hr Hrel]. split; [exact Hr|]. intros message. right. split; [done|]. destruct Hr as [_ [_ <-]].
    destruct Hheld as (_ & _ & ->). exists a. split_and!; [exact Hin|done|]. by apply Hrel.
Qed.

Lemma release_reply_runs now id :
  runs (fun r => thread_accounted [] r /\ now <= clock (reply_world r)) (release_reply now id)
    (fun _ r => thread_accounted [] r /\ now <= clock (reply_world r)) thread_safe.
Proof.
  intros r [Hr Hnow]. pose proof (release_clock now id r) as Hclock.
  pose proof (release_reply_answers now id (pending_replies r) (replies r, admissions r) r) as Hruns.
  destruct (release_reply now id r) as [r' [u|e]]; [|by apply Hruns].
  cbn [fst] in Hclock. split; [by apply Hruns|lia].
Qed.

Lemma release_pending_runs now :
  runs (fun r => thread_accounted [] r /\ now <= clock (reply_world r)) (release_pending now)
    (fun _ => thread_accounted []) thread_safe.
Proof.
  apply runs_get. intros r0. apply (runs_pre _ (fun r => thread_accounted [] r /\ now <= clock (reply_world r)));
    [by intros r [? _]|].
  generalize (hash_iter (pending_replies r0)).*1. intros ids.
  induction ids as [|id ids IH]; cbn [release_replies]; [apply runs_ret; by intros r [? _]|].
  eapply runs_bind; [apply release_reply_runs|]. done.
Qed.

(** ** Receiving *)

Lemma insert_spec id packet g now barrier (pending pending' : PendingReplies) res :
  PendingReplies_insert id packet g now barrier pending = (pending', res) ->
  match res with
  | Ok true => pending !! id = None /\ Z.of_nat (size pending) < CAPACITY
      /\ pending' = <[id := mkPendingReply packet g now
           (now + (if Z.shiftr (reply_mark packet) 30 =? 0 then 0 else RETRY_BACKOFF)) barrier]> pending
  | _ => pending' = pending
  end.
Proof.
  unfold PendingReplies_insert. rewrite run_get, run_lift.
  destruct (pending !! id) eqn:Hl; cbn [is_none ensure]; [by intros [= <- <-]|].
  destruct (Z.leb_spec CAPACITY (Z.of_nat (size pending))); [by intros [= <- <-]|]. rewrite run_bind.
  destruct (Z.shiftr (reply_mark packet) 30 =? 0); unfold lift, instant_checked_add.
  - cbv beta iota delta [mret ST_ret]. rewrite run_modify. intros [= <- <-]. rewrite Z.add_0_r. split_and!; [done|lia|done].
  - destruct (_ <=? _); cbn [ok_or]; [|by intros [= <- <-]].
    cbv beta iota delta [mret ST_ret]. rewrite run_modify. intros [= <- <-]. split_and!; [done|lia|done].
Qed.

Lemma received_more replies replies' admissions admissions' id a :
  received_as replies admissions id a -> replies ⊆ replies' -> admissions ⊆ admissions' ->
  received_as replies' admissions' id a.
Proof. intros (Ha & Hid & Hin & Hret) Hr Hs. split_and!; [by apply Hs|done|by apply Hr|done]. Qed.

(** More is known of what was received. *)
Lemma log_more r r' :
  reply_world r' = reply_world r -> pending_replies r' = pending_replies r ->
  replies r ⊆ replies r' -> admissions r ⊆ admissions r' -> thread_safe r -> thread_safe r'.
Proof.
  intros Hw Hp Hr Ha [S1 S2 [Hsize S3]]. split; cbn [of_world ReplyReader_world right intact ReplyReader_thread];
    rewrite Hw || (rewrite Hp; split; [done|]).
  - done.
  - eapply Forall_impl; [exact S2|]. intros m [?|(Hc & a & Hin & Hm & Hrel)]; [by left|right].
    split; [done|]. exists a. split_and!; [by eapply received_more|done|done].
  - intros id p Hl. destruct (S3 id p Hl) as (a & Hin & Hheld). exists a. split; [by eapply received_more|done].
Qed.

Lemma hold_reply id p a r :
  thread_accounted [id] r -> received_as (replies r) (admissions r) id a -> held_as a p ->
  pending_replies r !! id = None -> Z.of_nat (size (pending_replies r)) < CAPACITY ->
  thread_accounted [] (set_pending_replies (<[id := p]> (pending_replies r)) r).
Proof.
  intros [[S1 S2 [Hsize S3]] Hbag] Hin Hheld Hn Hlt. split.
  - split; [done|done|]. split; cbn; [rewrite map_size_insert, Hn; lia|].
    intros id' p' [[<- <-]|[_ Hp']]%lookup_insert_Some; [by exists a|]. by apply S3.
  - rewrite <-Hbag. cbn. by rewrite map_to_list_insert.
Qed.

Lemma note_admission_accounted id packet barrier hand r :
  thread_accounted hand r -> thread_accounted hand (note_admission id packet barrier r).
Proof.
  intros [Hs Hbag]. split; [|exact Hbag]. apply (log_more r); try done. cbn. set_solver.
Qed.

(** The reply is held in a world whose clock reads [now], under a policy that was
    identified as enforcing. *)
Lemma insert_runs id packet barrier current now pending rs :
  retriable packet -> (id, Ok packet) ∈ rs.1 -> current.1 = Enforcing ->
  runs (fun r => (thread_accounted [id] r /\ kept pending rs r)
          /\ identified_as current (of_world r) /\ now = clock (of_world r))
    (modify (note_admission id packet barrier) ;;
     r ← get;
     let '(pending, inserted) := PendingReplies_insert id packet current.2 now barrier r.(pending_replies) in
     modify (set_pending_replies pending) ;;
     lift (map_err PendingRefused inserted))
    (fun held r => if held : bool then thread_accounted [] r
       else thread_accounted [id] r /\ exists rs', kept pending rs' r) thread_safe.
Proof.
  intros Hret Hin Hm r [[Hr [Hp Hrs]] [[(_ & Hf & Hpo) Hid] ->]]. cbn [of_world ReplyReader_world] in *.
  rewrite run_modify, run_get.
  set (r1 := note_admission id packet barrier r).
  assert (Hr1 : thread_accounted [id] r1) by (by apply note_admission_accounted).
  destruct (PendingReplies_insert _ _ _ _ _ _) as [pending' inserted] eqn:Hins. rewrite run_modify.
  apply insert_spec in Hins. change (pending_replies r1) with (pending_replies r) in Hins.
  destruct inserted as [[]|err]; unfold lift; cbn [map_err].
  - destruct Hins as (Hn & Hlt & ->).
    apply (hold_reply id _ (mkAdmission id packet barrier (shared (reply_world r)) (clock (reply_world r))) r1); try done.
    + split_and!; [|done| |done]; [cbn; set_solver|]. cbn. by rewrite <-Hrs in Hin.
    + subst current. split_and!; [by split|done|done].
  - subst pending'. by split; [|exists (replies r1, admissions r1)].
  - subst pending'. by apply Hr1.
Qed.

Lemma admit_reply_runs id packet barrier pending rs :
  retriable packet -> (id, Ok packet) ∈ rs.1 ->
  runs (fun r => thread_accounted [id] r /\ kept pending rs r) (admit_reply id packet barrier)
    (fun _ => thread_accounted []) thread_safe.
Proof.
  intros Hret Hin. unfold admit_reply. eapply runs_bind.
  { eapply runs_pre; [|apply (zoom_runs [id] (kept pending rs) _ (fun _ => True) identified_as);
      [apply kept_framed|apply decision_identity_quiet|intros w w' a _; apply decision_identity_spec]]. done. }
  intros current. cbn beta.
  eapply (runs_bind _ _ _ (fun (held : bool) r => if held then thread_accounted [] r
    else thread_accounted [id] r /\ exists rs', kept pending rs' r)).
  2: { intros held. destruct held; [by apply runs_ret|]. intros r [Hr [rs' Hk]].
       pose proof (deny_runs [] id pending rs' r (conj Hr Hk)) as Hd. by destruct (zoom (deny_reply id) r) as [r' [u|e]]; [apply Hd|]. }
  assert (Hfalse : forall P : ReplyReader -> Prop, runs (fun r => (thread_accounted [id] r /\ kept pending rs r) /\ P r)
    (mret false : ST ReplyReader QueueFailure bool)
    (fun (held : bool) r => if held then thread_accounted [] r else thread_accounted [id] r /\ exists rs', kept pending rs' r)
    thread_safe) by (intros P; apply runs_ret; intros r [[? ?] _]; by split; [|exists rs]).
  destruct (current.1 ==? Enforcing) eqn:Hm; cbn [negb]; [apply (proj1 (eqb_true _ _)) in Hm|apply Hfalse].
  eapply runs_bind.
  { apply (zoom_runs [id] (kept pending rs) _ (identified_as current) (fun _ => identified_as current));
      [apply kept_framed|apply load_shutdown_quiet|]. intros w w' a Hid Hrun.
    destruct (load_shutdown_steady (E := QueueFailure) w) as [_ Hkeep]. rewrite Hrun in Hkeep. by apply Hkeep. }
  intros stop. cbn beta. destruct stop; [apply Hfalse|].
  eapply (runs_bind _ _ _ (fun now r => (thread_accounted [id] r /\ kept pending rs r)
    /\ identified_as current (of_world r) /\ now = clock (of_world r))); [|intros now; apply insert_runs; [exact Hret|exact Hin|exact Hm]].
  apply (zoom_runs [id] (kept pending rs) _ (identified_as current) (fun now w => identified_as current w /\ now = clock w));
    [apply kept_framed|apply instant_now_quiet|]. intros w w' now Hid Hrun.
  destruct (instant_now_steady (E := QueueFailure) w) as [_ Hkeep]. rewrite Hrun in Hkeep.
  split; [by apply Hkeep|]. by apply instant_now_spec in Hrun as [-> _].
Qed.

Lemma note_accounted id parsed r :
  thread_accounted [] r -> thread_accounted [id] (note_reply id parsed r).
Proof.
  intros [Hs Hbag]. split; [apply (log_more r); try done; cbn; set_solver|].
  cbn. rewrite fmap_app, <-Hbag. cbn. rewrite (Permutation_app_comm _ [id]). cbn.
  by rewrite <-Permutation_middle.
Qed.

Lemma capture_quiet : always quiet (capture_read_through_barrier (B := B) (D := D)).
Proof. unfold capture_read_through_barrier. always_by quiet_primitive. Qed.

Lemma receive_reply_runs message :
  runs (thread_accounted []) (receive_reply message) (fun _ => thread_accounted []) thread_safe.
Proof.
  unfold receive_reply. destruct (negb _); [by apply runs_ret|].
  eapply runs_bind; [apply runs_lift; [intros r a Hr _; exact Hr|apply ta_safe]|]. intros id. cbn beta.
  apply runs_get. intros r0. apply (runs_pre _ (thread_accounted [])); [by intros r [? _]|].
  eapply runs_bind; [apply runs_lift; [intros r a Hr _; exact Hr|apply ta_safe]|]. intros ?. cbn beta.
  eapply (runs_bind _ _ _ (fun _ r => thread_accounted [id] r
    /\ (id, parse_reply (msg_payload message)) ∈ replies r)).
  { apply runs_modify. intros r Hr. split; [by apply note_accounted|]. apply elem_of_app. right. apply list_elem_of_here. }
  intros _. assert (Hdeny : runs (thread_accounted [id]) (zoom (deny_reply id))
    (fun _ => thread_accounted []) thread_safe).
  { apply runs_kept. intros. eapply runs_post; [|apply deny_runs]. by intros ? r [? _]. }
  destruct (parse_reply (msg_payload message)) as [packet|] eqn:Hparse.
  2: { eapply runs_pre; [|exact Hdeny]. by intros r [? _]. }
  eapply (runs_bind _ _ _ (fun _ r => thread_accounted [id] r /\ (id, Ok packet) ∈ replies r)).
  - apply (zoom_quiet [id] (fun r => (id, Ok packet) ∈ replies r)); [by intros w r|].
    apply attempt_quiet, capture_quiet.
  - intros barrier. destruct barrier as [barrier|].
    + intros r [Hr Hin]. apply (admit_reply_runs id packet barrier (pending_replies r) (replies r, admissions r)); try done.
      by eapply parse_reply_retriable.
    + eapply runs_pre; [|exact Hdeny]. by intros r [? _].
Qed.

Lemma reply_round_runs : runs (thread_accounted []) reply_round (fun _ => thread_accounted []) thread_safe.
Proof.
  assert (Hquiet : forall A (m : ST World QueueFailure A), always quiet m ->
    runs (thread_accounted []) (zoom m) (fun _ => thread_accounted []) thread_safe).
  { intros A m Hm. eapply runs_pre; [|eapply runs_post; [|apply (zoom_quiet [] (fun _ => True))]];
      [done|by intros ? r [? _]|done|done]. }
  unfold reply_round. eapply runs_bind; [apply Hquiet, load_shutdown_quiet|]. intros stop. cbn beta.
  destruct stop; [by apply runs_ret|].
  eapply runs_bind.
  { eapply runs_pre; [|apply (zoom_runs [] (fun _ => True) _ (fun _ => True) (fun now w => now <= clock w))];
      [done|done|apply instant_now_quiet|]. intros w w' now _ Hrun. apply instant_now_spec in Hrun as [-> _]. done. }
  intros now. cbn beta. eapply runs_bind.
  { eapply runs_pre; [|apply release_pending_runs]. by intros r [[? _] ?]. } intros ?. apply runs_get. intros r0.
  apply (runs_pre _ (thread_accounted [])); [by intros r [? _]|].
  eapply (runs_bind _ _ _ (fun _ => thread_accounted [])).
  { apply runs_modify. intros r [[] ?]. by split. }
  intros _. eapply runs_bind; [apply runs_lift; [intros r ? Hr _; exact Hr|apply ta_safe]|].
  intros arrived. cbn beta.
  eapply (runs_bind _ _ _ (fun _ => thread_accounted [])); [|intros ?; by apply runs_ret].
  destruct arrived as [| | |bytes]; [by apply runs_ret..|apply Hquiet, count_quiet|].
  generalize (messages bytes). intros items.
  induction items as [|item items IH]; cbn [receive_replies]; [by apply runs_ret|].
  eapply runs_bind; [apply runs_lift; [intros r ? Hr _; exact Hr|apply ta_safe]|]. intros message. cbn beta.
  eapply runs_bind; [apply receive_reply_runs|]. done.
Qed.

Lemma deny_replies_runs ids : forall pending,
  NoDup ids -> (forall id, id ∈ ids <-> is_Some (pending !! id)) ->
  runs (fun r => thread_accounted [] r /\ pending_replies r = pending) (deny_replies ids)
    (fun _ r => thread_accounted [] r /\ pending_replies r = ∅) thread_safe.
Proof.
  induction ids as [|id ids IH]; intros pending Hnd Hids; cbn [deny_replies].
  { apply runs_ret. intros r [Hr ->]. split; [done|]. apply map_empty. intros id.
    apply eq_None_not_Some. rewrite <-Hids. apply not_elem_of_nil. }
  apply NoDup_cons in Hnd as [Hni Hnd]. destruct (proj1 (Hids id) (list_elem_of_here _ _)) as [p Hp].
  intros r [Hr Hpr].
  assert (Hfirst := answer_reply (deny_reply id) id p pending (replies r, admissions r) (fun _ => True) Hp).
  specialize (Hfirst ltac:(eapply runs_pre; [|apply deny_runs]; by intros ? [? _]) r
    (conj (conj Hr (conj Hpr eq_refl)) I)). rewrite run_bind in Hfirst. rewrite run_bind.
  destruct (zoom (deny_reply id) r) as [r1 [u|]]; [|done].
  unfold modify in Hfirst. rewrite run_modify. destruct Hfirst as [Hr1 [Hp1 _]].
  apply (IH (delete id pending)); [done| |done].
  intros id'. rewrite lookup_delete_is_Some, <-Hids, elem_of_cons. naive_solver.
Qed.

(** A world in which the thread starts. *)
Definition reply_fresh (w : World) : Prop := world_ok w /\ sent (socket w) = [].

Lemma reply_new_accounted w arrivals : reply_fresh w -> thread_accounted [] (ReplyReader_new w arrivals).
Proof.
  intros [Hw Hs]. split; cbn; [|by rewrite Hs]. split; cbn; [done|by rewrite Hs|done].
Qed.

Lemma run_inner_runs fuel :
  runs (thread_accounted []) (run_inner fuel)
    (fun ended r => thread_accounted [] r /\ (ended = true -> pending_replies r = ∅)) thread_safe.
Proof.
  induction fuel as [|fuel IH]; cbn [run_inner]; [by apply runs_ret|].
  eapply runs_bind; [apply reply_round_runs|]. intros more. destruct more; [exact IH|].
  apply runs_get. intros r0. eapply runs_bind.
  - eapply runs_pre; [|apply (deny_replies_runs _ (pending_replies r0))].
    + by intros r [? ->].
    + unfold hash_iter. rewrite hash_order_perm. apply NoDup_fst_map_to_list.
    + intros id. unfold hash_iter. rewrite hash_order_perm, list_elem_of_fmap. split.
      * intros ([k v] & -> & Hin%elem_of_map_to_list). by exists v.
      * intros [v Hv]. exists (id, v). split; [done|]. by apply elem_of_map_to_list.
  - intros ?. apply runs_ret. by intros r [? ?].
Qed.

(** ** Results *)

(** C21: the reply queue authorizes nothing.  Whatever arrives, whatever the other
    threads do and whatever fails, each verdict drops a reply or repeats it to
    the kernel, and a repeated reply is one that was received with retries left
    and gets the mark of the next retry.  It was held when the engine was not
    locked and enforcing; and when the verdict is sent the engine is not locked
    and is enforcing with the same generation, less than two seconds have passed
    on the clock since then, and at least the back-off if the reply was a retry,
    every request up to the barrier that was taken when the reply was received
    has its verdict if it is of the flow of the reply or of an unknown one, and
    the wave of requests of the flow has not failed. *)
Theorem replies_are_only_repeated fuel w arrivals r' res :
  reply_fresh w -> run_inner fuel (ReplyReader_new w arrivals) = (r', res) ->
  Forall (reply_verdict_ok (replies r') (admissions r')) (sent (socket (reply_world r'))).
Proof.
  intros Hw Hrun. pose proof (run_inner_runs fuel _ (reply_new_accounted _ arrivals Hw)) as Hr.
  rewrite Hrun in Hr. destruct res as [ended|]; [destruct Hr as [Hr _]|]; apply Hr.
Qed.


(** A reply thread that fails or panics raises the shutdown flag and locks
    the engine, and nothing unlocks it again. *)
Theorem failed_replies_lock fuel panicked w arrivals r' u :
  reply_fresh w -> is_ok (run_inner fuel (ReplyReader_new w arrivals)).2 && negb panicked = false ->
  run_replies fuel panicked (ReplyReader_new w arrivals) = (r', u) ->
  stopping (reply_world r') = true /\ forall w', later (reply_world r') w' -> ~ live w'.
Proof.
  intros Hw Hfail. pose proof (run_inner_runs fuel _ (reply_new_accounted _ arrivals Hw)) as Hr.
  unfold run_replies, attempt. rewrite run_bind. destruct (run_inner _ _) as [r res]. cbn [snd] in Hfail.
  rewrite Hfail. unfold zoom.
  destruct (handle_packet_queue_failure ReplyRole _) as [w' res'] eqn:E.
  intros [= <- _]. apply failure_locks in E; [done|done|].
  destruct res as [ended|]; [destruct Hr as [Hr _]|]; apply Hr.
Qed.
End Safety.
