(* ===== verification/LearningQueue.v ===== *)
(** * The learning queue

    The reader of the learning queue ([nfqueue.rs]): in Learning mode every
    packet is accepted, but the first packet of a connection is held for a
    moment so that its process can be identified while it still exists.
    [LearningReader] is the state of the thread. *)

From S2P Require Import Prelude Text Net Application Model State StateFacts StateLearning.
From S2P Require Import StateLearningFacts Policy Learning Snapshots Marks Nftables Decision.
From S2P Require Import Netlink Packet Progress Capture Registry.
From S2P Require Import Protocol Bus Pinning Storage Engine EngineLearning EngineControl EngineLaws.
From S2P Require Import EngineSafety EngineRuns Authority Runtime Verdicts Readers.
Local Open Scope Z_scope.

Abbreviation LEARNING_TCP_RETRY_INTERVAL := 1000000000 (only parsing).
Abbreviation LEARNING_DATAGRAM_COALESCE_INTERVAL := 100000000 (only parsing).
Abbreviation LEARNING_TCP_RECENT_CAPACITY := 512 (only parsing).
Abbreviation LEARNING_FIRST_PACKET_WAIT := 250000000 (only parsing).
Abbreviation LEARNING_PENDING_CAPACITY := 128 (only parsing).
Abbreviation LEARNING_SEEN_FLOW_TTL := 60000000000 (only parsing).

#[export] Instance OutboundConnection_countable : Countable OutboundConnection.
Proof.
  apply (inj_countable'
    (fun c => (source_address c, source_port c, destination_address c, destination_port c,
               conn_protocol c, output_interface c, socket_uid c))
    (fun x => let '(a, b, c, d, e, f, g) := x in mkOutboundConnection a b c d e f g)).
  by intros [].
Defined.

(** ** Held packets *)

Record PendingLearningVerdict : Type := mkPendingLearning {
  pl_ticket : LearningVerdictTicket;
  pl_deadline : Z;
  pl_completed : bool
}.

Record PendingLearningVerdicts : Type := mkPendingLearnings {
  last_serial : Z;
  held : gmap Z PendingLearningVerdict;
  seen_generation : option Z;
  seen_flows : gmap OutboundConnection Z
}.

Definition PendingLearningVerdicts_default : PendingLearningVerdicts :=
  mkPendingLearnings 0 ∅ None ∅.
Definition set_held (v : gmap Z PendingLearningVerdict) (self : PendingLearningVerdicts)
    : PendingLearningVerdicts :=
  mkPendingLearnings self.(last_serial) v self.(seen_generation) self.(seen_flows).

(** [reserve]; none when there is no room or no serial left. *)
Definition reserve (packet_id flow_generation now : Z)
    : ST PendingLearningVerdicts QueueFailure (option LearningVerdictTicket) :=
  self ← get;
  lift (ensure (is_none (self.(held) !! packet_id)) LearningIdReused) ;;
  if LEARNING_PENDING_CAPACITY <=? Z.of_nat (size self.(held)) then mret None
  else
    match u64_checked_add self.(last_serial) 1 with
    | None => mret None
    | Some serial =>
        let ticket := mkLearningTicket packet_id serial flow_generation in
        modify (fun self => mkPendingLearnings serial
          (<[packet_id := mkPendingLearning ticket (now + LEARNING_FIRST_PACKET_WAIT) false]>
             self.(held)) self.(seen_generation) self.(seen_flows)) ;;
        mret (Some ticket)
    end.

Definition cancel (ticket : LearningVerdictTicket) (self : PendingLearningVerdicts)
    : PendingLearningVerdicts :=
  match self.(held) !! ticket.(lt_packet_id) with
  | Some pending =>
      if pending.(pl_ticket) ==? ticket then set_held (delete ticket.(lt_packet_id) self.(held)) self
      else self
  | None => self
  end.

(** [PendingLearningVerdicts::complete]. *)
Definition complete_ticket (self : PendingLearningVerdicts) (ticket : LearningVerdictTicket)
    : PendingLearningVerdicts :=
  match self.(held) !! ticket.(lt_packet_id) with
  | Some pending =>
      if pending.(pl_ticket) ==? ticket
      then set_held (<[ticket.(lt_packet_id) :=
             mkPendingLearning pending.(pl_ticket) pending.(pl_deadline) true]> self.(held)) self
      else self
  | None => self
  end.

(** ** Hints *)

Definition refresh_seen (generation' now : Z) (self : PendingLearningVerdicts)
    : PendingLearningVerdicts :=
  let flows := if self.(seen_generation) ==? Some generation' then self.(seen_flows) else ∅ in
  mkPendingLearnings self.(last_serial) self.(held) (Some generation')
    (filter (fun kv => (saturating_duration_since now kv.2 <? LEARNING_SEEN_FLOW_TTL) = true) flows).

Section Hints.
Context `{HashOrder}.

(** A new entry pushes the oldest one out of a full table. *)
Definition remember (connection : OutboundConnection) (now : Z) (m : gmap OutboundConnection Z)
    : gmap OutboundConnection Z :=
  let m :=
    if LEARNING_TCP_RECENT_CAPACITY <=? Z.of_nat (size m) then
      match min_by_key (fun a b => a.2 <? b.2) (hash_iter m) with
      | Some oldest => delete oldest.1 m
      | None => m
      end
    else m in
  <[connection := now]> m.

Definition mark_seen (generation' : Z) (connection : OutboundConnection) (now : Z)
    (self : PendingLearningVerdicts) : PendingLearningVerdicts :=
  let self := refresh_seen generation' now self in
  if is_some (self.(seen_flows) !! connection) then self
  else mkPendingLearnings self.(last_serial) self.(held) self.(seen_generation)
         (remember connection now self.(seen_flows)).

Record LearningAttributionDebounce : Type := mkDebounce {
  debounce_generation : option Z;
  attempts : gmap OutboundConnection Z
}.
Definition LearningAttributionDebounce_default : LearningAttributionDebounce := mkDebounce None ∅.

Definition retry_interval (connection : OutboundConnection) : Z :=
  if connection.(conn_protocol) ==? Tcp then LEARNING_TCP_RETRY_INTERVAL
  else LEARNING_DATAGRAM_COALESCE_INTERVAL.

Definition should_enqueue (flow_generation : Z) (connection : OutboundConnection) (now : Z)
    (self : LearningAttributionDebounce) : LearningAttributionDebounce * bool :=
  let attempts := if self.(debounce_generation) ==? Some flow_generation then self.(attempts) else ∅ in
  let attempts := filter (fun kv =>
    (saturating_duration_since now kv.2 <? retry_interval kv.1) = true) attempts in
  if is_some (attempts !! connection) then (mkDebounce (Some flow_generation) attempts, false)
  else (mkDebounce (Some flow_generation) (remember connection now attempts), true).

Definition should_attempt (flow_generation : Z) (connection : OutboundConnection) (now : Z)
    (self : LearningAttributionDebounce) : LearningAttributionDebounce * bool :=
  if negb (connection.(conn_protocol) ==? Tcp) then (self, true)
  else should_enqueue flow_generation connection now self.

Definition completed (connection : OutboundConnection) (now : Z) (self : LearningAttributionDebounce)
    : LearningAttributionDebounce :=
  match self.(attempts) !! connection with
  | Some _ => mkDebounce self.(debounce_generation) (<[connection := now]> self.(attempts))
  | None => self
  end.
End Hints.

(** ** The thread *)

Section Reader.
Context {B D : Type} `{BackendLaws B} `{StoreLaws D} `{IpNetLib} `{JsonLib} `{Target} `{HashOrder}.
Context (if_indextoname : Z -> option (option ustring)).
Abbreviation World := (World (B := B) (D := D)).

(** [tickets] is the channel of completions, which the attribution thread fills
    as [ticket_turns] says.  [admitted] is every packet so far with the
    generation it met, which the code does not keep. *)
Record LearningReader : Type := mkLearningReader {
  learning_world : World;
  pending : PendingLearningVerdicts;
  observations : LearningAttributionDebounce;
  tickets : list LearningVerdictTicket;
  ticket_turns : list (list LearningVerdictTicket);
  learning_arrivals : list (Result QueueFailure QueueReceive);
  admitted : list (Z * Z)
}.

Definition set_learning_world (v : World) (r : LearningReader) : LearningReader :=
  mkLearningReader v r.(pending) r.(observations) r.(tickets) r.(ticket_turns)
    r.(learning_arrivals) r.(admitted).
Definition set_pending (v : PendingLearningVerdicts) (r : LearningReader) : LearningReader :=
  mkLearningReader r.(learning_world) v r.(observations) r.(tickets) r.(ticket_turns)
    r.(learning_arrivals) r.(admitted).
Definition set_observations (v : LearningAttributionDebounce) (r : LearningReader)
    : LearningReader :=
  mkLearningReader r.(learning_world) r.(pending) v r.(tickets) r.(ticket_turns)
    r.(learning_arrivals) r.(admitted).
Definition set_tickets (v : list LearningVerdictTicket) (turns : list (list LearningVerdictTicket))
    (r : LearningReader) : LearningReader :=
  mkLearningReader r.(learning_world) r.(pending) r.(observations) v turns r.(learning_arrivals)
    r.(admitted).
Definition set_learning_arrivals (v : list (Result QueueFailure QueueReceive)) (r : LearningReader)
    : LearningReader :=
  mkLearningReader r.(learning_world) r.(pending) r.(observations) r.(tickets) r.(ticket_turns) v
    r.(admitted).
Definition cancel_ticket (ticket : LearningVerdictTicket) (r : LearningReader) : LearningReader :=
  set_pending (cancel ticket r.(pending)) r.
Definition note_packet (id generation' : Z) (r : LearningReader) : LearningReader :=
  mkLearningReader r.(learning_world) r.(pending) r.(observations) r.(tickets) r.(ticket_turns)
    r.(learning_arrivals) (r.(admitted) ++ [(id, generation')]).

#[export] Instance LearningReader_world : HasWorld LearningReader :=
  {| of_world := learning_world; with_world := set_learning_world |}.

Definition on_pending {E A} (m : ST PendingLearningVerdicts E A) : ST LearningReader E A := fun r =>
  let '(p, a) := m r.(pending) in (set_pending p r, a).

(** The mode and the generation, under the guard; an unusable engine is
    quarantined. *)
Definition guarded_identity : ST World QueueFailure (Mode * Z) :=
  locked ← lock_engine;
  if negb locked then
    quarantine_engine ;; store_shutdown ;; lift (Err EngineMutexPoisoned)
  else
    w ← get;
    match application_decision_identity w.(shared) with
    | Ok identity => mret identity
    | Err error => quarantine_engine ;; store_shutdown ;; lift (Err (EngineRefused error))
    end.

(** *** Arriving packets *)

(** The ticket of a packet that is to be held. *)
Definition hold_ticket (work : QueuedPacketWork) (flow_generation now : Z)
    : ST LearningReader QueueFailure (option (QueuedPacket * LearningVerdictTicket)) :=
  match work.(work_packet) with
  | Err _ => mret None
  | Ok packet =>
      if negb packet.(initial_observation) then mret None
      else
        on_pending (modify (refresh_seen flow_generation now)) ;;
        r ← get;
        if is_some (r.(pending).(seen_flows) !! packet.(connection)) then mret None
        else
          ticket ← on_pending (reserve work.(work_packet_id) flow_generation now);
          mret (pair packet <$> ticket)
  end.

(** What follows the acceptance of a packet that is not held. *)
Definition observe_accepted (work : QueuedPacketWork) (flow_generation now : Z)
    : ST LearningReader QueueFailure unit :=
  match work.(work_packet) with
  | Err _ => mret tt
  | Ok packet =>
      later_now ← zoom instant_now;
      r ← get;
      let '(debounce, wanted) :=
        should_enqueue flow_generation packet.(connection) later_now r.(observations) in
      modify (set_observations debounce) ;;
      if negb wanted then mret tt
      else
        enqueued ← zoom (enqueue_learning_attribution (Ok packet) flow_generation);
        if enqueued : bool
        then on_pending (modify (mark_seen flow_generation packet.(connection) now))
        else mret tt
  end.

(** One packet of [return_learning_batch_verdicts]. *)
Definition return_learning_verdict (work : QueuedPacketWork) : ST LearningReader QueueFailure unit :=
  let id := work.(work_packet_id) in
  r ← get;
  lift (ensure (is_none (r.(pending).(held) !! id)) LearningIdReused) ;;
  current ← zoom guarded_identity;
  let '(mode, flow_generation) := current in
  modify (note_packet id flow_generation) ;;
  refused ← (if mode !=? Learning then mret true else zoom load_shutdown);
  if refused : bool then zoom (send_verdict id NF_DROP None ;; record_denied)
  else
    now ← zoom instant_now;
    ticket ← hold_ticket work flow_generation now;
    match ticket with
    | Some (packet, ticket) =>
        submitted ← zoom (submit_learning_attribution
                              (mkAttributionWork flow_generation packet (Some ticket)));
        if submitted : bool then
          on_pending (modify (mark_seen flow_generation packet.(connection) now)) ;;
          modify (fun r => set_observations
            (should_enqueue flow_generation packet.(connection) now r.(observations)).1 r)
        else
          modify (cancel_ticket ticket) ;;
          zoom (send_verdict id NF_ACCEPT None)
    | None =>
        zoom (send_verdict id NF_ACCEPT None) ;;
        observe_accepted work flow_generation now
    end.

Fixpoint return_learning_batch_verdicts (batch : list QueuedPacketWork)
    : ST LearningReader QueueFailure unit :=
  match batch with
  | [] => mret tt
  | work :: rest => return_learning_verdict work ;; return_learning_batch_verdicts rest
  end.

(** *** Held packets *)

(** A held packet is due, as long as the daemon is not stopping. *)
Definition is_due (mode : Mode) (generation' now : Z) (packet : PendingLearningVerdict) : bool :=
  packet.(pl_completed) || (packet.(pl_deadline) <=? now) || (mode !=? Learning)
  || negb (packet.(pl_ticket).(lt_flow_generation) =? generation').

Fixpoint ready_tickets (mode : Mode) (generation' now : Z) (packets : list PendingLearningVerdict)
    : ST World QueueFailure (list LearningVerdictTicket) :=
  match packets with
  | [] => mret []
  | packet :: rest =>
      ready ← (if is_due mode generation' now packet then mret true else load_shutdown);
      more ← ready_tickets mode generation' now rest;
      mret (if ready : bool then packet.(pl_ticket) :: more else more)
  end.

Fixpoint release_tickets (mode : Mode) (generation' : Z) (ready : list LearningVerdictTicket)
    : ST LearningReader QueueFailure unit :=
  match ready with
  | [] => mret tt
  | ticket :: rest =>
      accept ←
        (if (mode ==? Learning) && (ticket.(lt_flow_generation) =? generation')
         then stopping ← zoom load_shutdown; mret (negb stopping)
         else mret false : ST LearningReader QueueFailure bool);
      zoom (send_verdict ticket.(lt_packet_id) (if accept : bool then NF_ACCEPT else NF_DROP) None ;;
            if accept : bool then mret tt else record_denied) ;;
      modify (cancel_ticket ticket) ;;
      release_tickets mode generation' rest
  end.

Definition release_learning_verdicts (now : Z) : ST LearningReader QueueFailure unit :=
  modify (fun r =>
    let arrived := r.(tickets) ++ default [] (head r.(ticket_turns)) in
    let n := Z.to_nat LEARNING_PENDING_CAPACITY in
    set_tickets (drop n arrived) (tail r.(ticket_turns))
      (set_pending (foldl complete_ticket r.(pending) (take n arrived)) r)) ;;
  r ← get;
  if bool_decide (r.(pending).(held) = ∅) then mret tt
  else
    current ← zoom guarded_identity;
    let '(mode, generation') := current in
    ready ← zoom (ready_tickets mode generation' now (hash_iter r.(pending).(held)).*2);
    release_tickets mode generation' ready.

(** One round of [packet_loop]; false when the daemon is stopping. *)
Definition learning_round : ST LearningReader QueueFailure bool :=
  stopping ← zoom load_shutdown;
  if stopping : bool then mret false
  else
    now ← zoom instant_now;
    release_learning_verdicts now ;;
    r ← get;
    modify (set_learning_arrivals (tail r.(learning_arrivals))) ;;
    arrived ← lift (default (Ok Idle) (head r.(learning_arrivals)));
    match arrived with
    | Idle | Interrupted => mret tt
    | Overflow => zoom record_queue_overflow
    | Datagram bytes =>
        let '(batch, collected) := append_packet_datagram if_indextoname bytes [] in
        lift (map_err PacketNotParsed collected) ;;
        return_learning_batch_verdicts batch
    end ;;
    mret true.

Fixpoint learning_rounds (fuel : nat) : ST LearningReader QueueFailure unit :=
  match fuel with
  | O => mret tt
  | S fuel => more ← learning_round; if more : bool then learning_rounds fuel else mret tt
  end.

(** [packet_loop] of the learning queue, for at most [fuel] rounds. *)
Definition packet_loop (fuel : nat) : ST LearningReader Empty_set unit :=
  result ← attempt (learning_rounds fuel);
  match result with
  | Ok _ => mret tt
  | Err _ => zoom (handle_packet_queue_failure LearningRole)
  end.

Definition LearningReader_new (w : World) (turns : list (list LearningVerdictTicket))
    (arrivals : list (Result QueueFailure QueueReceive)) : LearningReader :=
  mkLearningReader w PendingLearningVerdicts_default LearningAttributionDebounce_default [] turns
    arrivals [].
End Reader.

(** ** What the thread promises *)

Section Safety.
Context {B D : Type} `{BackendLaws B} `{StoreLaws D} `{IpNetLib} `{JsonLib} `{Target} `{HashOrder}.
Context (if_indextoname : Z -> option (option ustring)).
Abbreviation World := (World (B := B) (D := D)).
Abbreviation SentVerdict := (SentVerdict (B := B) (D := D)).
Abbreviation LearningReader := (LearningReader (B := B) (D := D)).

(** A packet passes only in Learning mode, in the generation that it met. *)
Definition learning_verdict_ok (admitted : list (Z * Z)) (m : SentVerdict) : Prop :=
  (sent_code m = NF_DROP /\ sent_mark m = None)
  \/ (sent_code m = NF_ACCEPT /\ sent_mark m = None /\ unlocked (sent_engine m)
      /\ mode (state (sent_engine m)) = Learning
      /\ (sent_id m, flow_generation (state (sent_engine m))) ∈ admitted).

Definition held_ok (adm : list (Z * Z)) (p : PendingLearningVerdicts) : Prop :=
  Z.of_nat (size (held p)) <= LEARNING_PENDING_CAPACITY
  /\ forall id q, held p !! id = Some q ->
       lt_packet_id (pl_ticket q) = id /\ (id, lt_flow_generation (pl_ticket q)) ∈ adm.

#[export] Instance LearningReader_thread : QueueThread (B := B) (D := D) LearningReader := {|
  right r := learning_verdict_ok (admitted r);
  intact r := held_ok (admitted r) (pending r);
  held_ids r := elements (dom (held (pending r)));
  seen_ids r := (admitted r).*1
|}.

#[export] Instance LearningReader_laws : QueueThreadLaws (B := B) (D := D) LearningReader.
Proof. split; try done. intros r m ? ?. by left. Qed.

Lemma accept_ok adm id g (w : World) message :
  identified_as (Learning, g) w -> (id, g) ∈ adm ->
  learning_verdict_ok adm (mkSent id NF_ACCEPT None message (shared w) (registry w) (clock w)).
Proof.
  intros [(_ & Hf & Hp) [= Hm ->]] Hin. right. split_and!; try done.
Qed.

(** ** Held packets *)

(** Hints and completions do not matter for the promise. *)
Definition same_held (p p' : PendingLearningVerdicts) : Prop :=
  dom (held p') = dom (held p)
  /\ forall id q', held p' !! id = Some q' ->
       exists q, held p !! id = Some q /\ pl_ticket q' = pl_ticket q /\ pl_deadline q' = pl_deadline q.

#[local] Instance same_held_preorder : PreOrder same_held.
Proof.
  split.
  - intros p. split; [done|]. eauto.
  - intros p1 p2 p3 [D12 L12] [D23 L23]. split; [congruence|]. intros id q3 Hq3.
    destruct (L23 _ _ Hq3) as (q2 & Hq2 & -> & ->). eauto.
Qed.

Lemma same_held_eq p p' : held p' = held p -> same_held p p'.
Proof. intros E. split; [by rewrite E|]. rewrite E. eauto. Qed.

Lemma same_held_accounted hand p' (r : LearningReader) :
  thread_accounted hand r -> same_held (pending r) p' -> thread_accounted hand (set_pending p' r).
Proof.
  intros [[S1 S2 [Hsize Hin]] Hbag] [Hd Hl]. split.
  - split; [done|done|]. split; cbn.
    + rewrite <-size_dom, Hd, size_dom. exact Hsize.
    + intros id q' Hq'. destruct (Hl _ _ Hq') as (q & Hq & -> & _). by apply Hin.
  - cbn. rewrite Hd. exact Hbag.
Qed.

Lemma complete_same p ticket : same_held p (complete_ticket p ticket).
Proof.
  unfold complete_ticket. destruct (held p !! _) as [q|] eqn:Hq; [|done].
  destruct (_ ==? _); [|done]. split; cbn.
  - rewrite dom_insert_lookup_L; [done|]. by eexists.
  - intros id q' [[<- <-]|[_ ?]]%lookup_insert_Some; eauto.
Qed.

Lemma completions_same tickets : forall p, same_held p (foldl complete_ticket p tickets).
Proof.
  induction tickets as [|ticket tickets IH]; intros p; [done|]. cbn [foldl].
  etrans; [apply complete_same|apply IH].
Qed.

(** The thread's own state. *)
Definition kept_learning (p : PendingLearningVerdicts) (adm : list (Z * Z)) (r : LearningReader)
    : Prop := pending r = p /\ admitted r = adm.

Lemma kept_learning_framed p adm : framed (B := B) (D := D) (kept_learning p adm).
Proof. by intros w r. Qed.

Definition kept_under p adm current (r : LearningReader) : Prop :=
  kept_learning p adm r /\ identified_as current (learning_world r).

Lemma kept_under_guarded p adm current : guarded (B := B) (D := D) (kept_under p adm current).
Proof. exact (identified_guarded _ current (kept_learning_framed p adm)). Qed.

(** A ticket of a held packet. *)
Definition holds (p : PendingLearningVerdicts) (ticket : LearningVerdictTicket) : Prop :=
  exists q, held p !! lt_packet_id ticket = Some q /\ pl_ticket q = ticket.

Lemma cancel_held p ticket :
  holds p ticket -> cancel ticket p = set_held (delete (lt_packet_id ticket) (held p)) p.
Proof. intros (q & Hq & Ht). unfold cancel. by rewrite Hq, Ht, eqb_refl. Qed.

Lemma elements_delete (m : gmap Z PendingLearningVerdict) id q :
  m !! id = Some q -> id :: elements (dom (delete id m)) ≡ₚ elements (dom m).
Proof.
  intros Hq. assert (dom m = {[id]} ∪ dom (delete id m)) as ->.
  { rewrite dom_delete_L. apply elem_of_dom_2 in Hq. by rewrite <-union_difference_singleton_L. }
  rewrite elements_union_singleton; [done|]. rewrite dom_delete_L. set_solver.
Qed.

Lemma answer_ticket (m : ST World QueueFailure unit) ticket p adm current :
  holds p ticket ->
  runs (fun r => (thread_accounted [lt_packet_id ticket] r
      /\ kept_under (cancel ticket p) adm current r) /\ True) (zoom m)
    (fun _ r => thread_accounted [] r /\ kept_under (cancel ticket p) adm current r) thread_safe ->
  runs (fun r => (thread_accounted [] r /\ kept_under p adm current r) /\ True)
    (zoom m ;; modify (cancel_ticket ticket))
    (fun _ r => thread_accounted [] r /\ kept_under (cancel ticket p) adm current r) thread_safe.
Proof.
  intros Hh Hm. refine (answer_held m (lt_packet_id ticket) (kept_under p adm current)
    (kept_under (cancel ticket p) adm current) (fun _ => True) (cancel_ticket ticket) _ _ _ Hm); [done|done|].
  intros r [[Hp Ha] Hid] [Hsize Hin]. unfold cancel_ticket, kept_under, kept_learning, held_ok. cbn.
  rewrite Hp in *. rewrite (cancel_held p ticket Hh). destruct Hh as (q & Hq & Ht). split_and!; try done; cbn.
  - split; cbn; [rewrite map_size_delete, Hq; lia|]. intros id q' [_ Hq']%lookup_delete_Some. by apply Hin.
  - by eapply elements_delete.
Qed.

Lemma cancel_holds p ticket ticket' :
  holds p ticket -> holds p ticket' -> lt_packet_id ticket <> lt_packet_id ticket' ->
  holds (cancel ticket p) ticket'.
Proof.
  intros Hh (q & Hq & Ht) Hne. rewrite (cancel_held p ticket Hh). exists q. cbn.
  by rewrite lookup_delete_ne.
Qed.

Lemma release_tickets_runs ready : forall p adm current,
  (forall ticket, ticket ∈ ready -> holds p ticket) -> NoDup (lt_packet_id <$> ready) ->
  runs (fun r => thread_accounted [] r /\ kept_under p adm current r)
    (release_tickets current.1 current.2 ready)
    (fun _ r => thread_accounted [] r /\ kept_under (foldl (flip cancel) p ready) adm current r) thread_safe.
Proof.
  induction ready as [|ticket ready IH]; intros p adm current Hh Hnd; cbn [release_tickets foldl].
  { by apply runs_ret. }
  apply NoDup_cons in Hnd as [Hni Hnd].
  eapply (runs_bind _ _ _ (fun (accept : bool) r => (thread_accounted [] r /\ kept_under p adm current r)
    /\ (accept = true -> current = (Learning, lt_flow_generation ticket)))).
  { destruct (_ && _) eqn:Hc; [|apply runs_ret; by intros r Hr].
    apply andb_true_iff in Hc as [Hm Hg%Z.eqb_eq]. rewrite eqb_true in Hm.
    eapply runs_bind; [apply zoom_steady, load_shutdown_steady; apply kept_under_guarded|].
    intros stop. apply runs_ret. intros r Hr. split; [done|]. intros _. destruct current. cbn in *. congruence. }
  intros accept. apply (runs_pure (accept = true -> current = (Learning, lt_flow_generation ticket)));
    [by intros r [_ ?]|intros Haccept].
  apply (runs_pre _ (fun r => thread_accounted [] r /\ kept_under p adm current r)); [by intros r [? _]|].
  apply (runs_pure ((lt_packet_id ticket, lt_flow_generation ticket) ∈ adm)).
  { intros r [[[_ _ [_ Hin]] _] [[Hp <-] _]]. destruct (Hh ticket) as (q & Hq & <-); [left|].
    rewrite <-Hp in Hq. by apply Hin in Hq as [_ ?]. }
  intros Hadm. apply runs_assoc. eapply runs_bind.
  - eapply runs_pre; [|apply (answer_ticket _ ticket p adm current); [apply Hh; left|]]; [done|].
    apply zoom_bind. eapply runs_bind.
    + eapply runs_pre; [|apply zoom_answer, (kept_under_guarded (cancel ticket p) adm current)].
      intros r [[Hr Hk] _]. split; [by split|]. intros message.
      destruct accept; [|by left]. apply accept_ok with (g := lt_flow_generation ticket).
      * rewrite <-(Haccept eq_refl). apply Hk.
      * destruct Hk as [[_ Ha] _]. by rewrite <-Ha in Hadm.
    + intros u. apply zoom_steady; [apply kept_under_guarded|].
      destruct accept; [apply always_ret; exact _|apply count_steady].
  - intros u. apply IH; [|done]. intros ticket' Hin. apply cancel_holds; [apply Hh; left|apply Hh; by right|].
    intros E. apply Hni. rewrite E. by apply list_elem_of_fmap_2.
Qed.

(** Which held packets are answered. *)
Lemma ready_steady mode' g now packets : always steady (ready_tickets (B := B) (D := D) mode' g now packets).
Proof.
  induction packets as [|q packets IH]; cbn [ready_tickets]; [apply always_ret; exact _|].
  always_by ltac:(exact IH || steady_primitive).
Qed.

Lemma ready_spec mode' g now packets : forall (w w' : World) ready,
  ready_tickets mode' g now packets w = (w', Ok ready) ->
  ready `sublist_of` (pl_ticket <$> packets)
  /\ forall q, q ∈ packets -> is_due mode' g now q = true -> pl_ticket q ∈ ready.
Proof.
  induction packets as [|q packets IH]; intros w w' ready; cbn [ready_tickets].
  { intros [= _ <-]. split; [done|]. by intros q ?%elem_of_nil. }
  intros (due & w1 & Hdue & (more & w2 & Hmore & [= _ <-])%run_bind_Ok)%run_bind_Ok.
  apply IH in Hmore as [Hsub Hall]. rewrite fmap_cons. split.
  - destruct due; by constructor.
  - intros q' [->|Hq']%elem_of_cons Hq.
    + rewrite Hq in Hdue. injection Hdue as _ <-. left.
    + destruct due; [right|]; by apply Hall.
Qed.

Definition own_ids (p : PendingLearningVerdicts) : Prop :=
  forall id q, held p !! id = Some q -> lt_packet_id (pl_ticket q) = id.

Lemma cancel_lookup p ticket id q :
  own_ids p -> held (cancel ticket p) !! id = Some q -> held p !! id = Some q /\ pl_ticket q <> ticket.
Proof.
  intros Hown. unfold cancel. destruct (held p !! lt_packet_id ticket) as [q0|] eqn:Hq0.
  - destruct (pl_ticket q0 ==? ticket) eqn:Ht; cbn.
    + intros [Hne Hq]%lookup_delete_Some. split; [done|]. intros <-. by rewrite (Hown _ _ Hq) in Hne.
    + intros Hq. split; [done|]. intros <-. rewrite (Hown _ _ Hq), Hq in Hq0. injection Hq0 as ->.
      by rewrite eqb_refl in Ht.
  - intros Hq. split; [done|]. intros <-. rewrite (Hown _ _ Hq), Hq in Hq0. done.
Qed.

Lemma cancels_lookup ready : forall p id q,
  own_ids p -> held (foldl (flip cancel) p ready) !! id = Some q ->
  held p !! id = Some q /\ pl_ticket q ∉ ready.
Proof.
  induction ready as [|ticket ready IH]; intros p id q Hown; cbn [foldl];
    [by split; [|apply not_elem_of_nil]|]. rewrite not_elem_of_cons.
  intros [Hq Hni]%IH; [apply cancel_lookup in Hq; naive_solver|].
  intros id' q' [Hq' _]%cancel_lookup; [|done]. by apply Hown.
Qed.

Lemma hash_iter_elem (m : gmap Z PendingLearningVerdict) id q :
  (id, q) ∈ hash_iter m <-> m !! id = Some q.
Proof. unfold hash_iter. by rewrite hash_order_perm, elem_of_map_to_list. Qed.

Lemma ready_holds p ready :
  own_ids p -> ready `sublist_of` (pl_ticket <$> (hash_iter (held p)).*2) ->
  (forall ticket, ticket ∈ ready -> holds p ticket) /\ NoDup (lt_packet_id <$> ready).
Proof.
  intros Hown Hsub. split.
  - intros ticket Hin. eapply elem_of_sublist in Hin; [|exact Hsub].
    apply list_elem_of_fmap in Hin as (q & -> & Hq). apply list_elem_of_fmap in Hq as ([id q'] & -> & Hq).
    apply hash_iter_elem in Hq. exists q'. cbn. by rewrite (Hown _ _ Hq).
  - eapply sublist_NoDup; [|apply (fmap_sublist lt_packet_id), Hsub].
    rewrite <-!list_fmap_compose.
    rewrite (list_fmap_ext _ fst).
    + unfold hash_iter. rewrite hash_order_perm. apply NoDup_fst_map_to_list.
    + intros i [id q] Hq. cbn. apply Hown, hash_iter_elem. by eapply list_elem_of_lookup_2.
Qed.

Lemma guarded_identity_quiet : always quiet (guarded_identity (B := B) (D := D)).
Proof. unfold guarded_identity, store_shutdown. always_by quiet_primitive. Qed.

Lemma guarded_identity_spec (w w' : World) current :
  guarded_identity w = (w', Ok current) -> identified_as current w'.
Proof.
  unfold guarded_identity. rewrite run_lock_engine.
  destruct (engine_lock_poisoned _) eqn:Hl; cbn [negb].
  { rewrite run_quarantine. unfold store_shutdown. by rewrite run_modify. }
  rewrite run_get. unfold application_decision_identity.
  destruct (fatal _ || poisoned _) eqn:Hfp; cbn [fail_if mbind Result_bind].
  { rewrite run_quarantine. unfold store_shutdown. by rewrite run_modify. }
  apply orb_false_iff in Hfp as [Hf Hp]. intros [= <- <-]. split; [by split_and!|done].
Qed.

Lemma identity_runs hand F :
  framed F ->
  runs (fun r => thread_accounted hand r /\ F r) (zoom guarded_identity)
    (fun current r => (thread_accounted hand r /\ F r) /\ identified_as current (learning_world r)) thread_safe.
Proof.
  intros HF. eapply runs_pre; [|apply (zoom_runs hand F _ (fun _ => True) identified_as HF);
    [apply guarded_identity_quiet|intros w w' a _; apply guarded_identity_spec]]. done.
Qed.

(** No held packet is overdue. *)
Definition punctual (now : Z) (r : LearningReader) : Prop :=
  forall id q, held (pending r) !! id = Some q -> now < pl_deadline q.

Lemma release_runs now :
  runs (thread_accounted []) (release_learning_verdicts now)
    (fun _ r => thread_accounted [] r /\ punctual now r) thread_safe.
Proof.
  unfold release_learning_verdicts. eapply (runs_bind _ _ _ (fun _ => thread_accounted [])).
  { apply runs_modify. intros r Hr. cbv zeta.
    assert (Hset : forall v turns, thread_accounted [] r -> thread_accounted [] (set_tickets v turns r))
      by (intros v turns [[] ?]; by split).
    apply (same_held_accounted [] _ (set_tickets _ _ r)); [by apply Hset|apply completions_same]. }
  intros _. apply runs_get. intros r0. apply (runs_pure (own_ids (pending r0))).
  { intros r [[[_ _ [_ Hin]] _] <-] id q Hq. by apply Hin in Hq as [? _]. }
  intros Hown. case_bool_decide as Hempty.
  { apply runs_ret. intros r [Hr ->]. split; [done|]. intros id q. by rewrite Hempty. }
  eapply runs_bind.
  { eapply runs_pre; [|apply (identity_runs [] (kept_learning (pending r0) (admitted r0)));
      apply kept_learning_framed]. by intros r [? ->]. }
  intros [mode' g]. cbn beta iota. eapply runs_bind.
  { eapply (runs_value _ _ _ _ (fun ready => ready `sublist_of` (pl_ticket <$> (hash_iter (held (pending r0))).*2)
      /\ forall q, q ∈ (hash_iter (held (pending r0))).*2 -> is_due mode' g now q = true -> pl_ticket q ∈ ready)).
    - eapply runs_pre; [|apply zoom_steady; [apply (kept_under_guarded (pending r0) (admitted r0) (mode', g))|
        apply ready_steady]]. by intros r [[? ?] ?].
    - intros r r' ready. unfold zoom.
      destruct (ready_tickets _ _ _ _ _) as [w' res] eqn:E. intros [= _ ->]. by eapply ready_spec. }
  intros ready. apply (runs_pure _ _ _ _ _ (fun r Hr => proj1 Hr)). intros [Hsub Hdue].
  destruct (ready_holds _ _ Hown Hsub) as [Hh Hnd].
  eapply runs_pre; [|eapply runs_post; [|apply (release_tickets_runs ready _ (admitted r0) (mode', g) Hh Hnd)]].
  - by intros r [_ ?].
  - intros ? r [Hr [[Hp _] _]]. split; [done|]. intros id q Hq. rewrite Hp in Hq.
    apply cancels_lookup in Hq as [Hq Hni]; [|done]. destruct (is_due mode' g now q) eqn:Hd.
    + exfalso. apply Hni, Hdue; [|done]. apply list_elem_of_fmap. exists (id, q).
      split; [done|]. by apply hash_iter_elem.
    + unfold is_due in Hd. rewrite !orb_false_iff, Z.leb_gt in Hd. apply Hd.
Qed.

(** ** Arriving packets *)

Lemma mark_seen_held g connection now p : held (mark_seen g connection now p) = held p.
Proof. unfold mark_seen. by destruct (is_some _). Qed.

Lemma observations_accounted hand v (r : LearningReader) :
  thread_accounted hand r -> thread_accounted hand (set_observations v r).
Proof. intros [[] ?]. by split. Qed.

Lemma mark_seen_runs hand g connection now :
  runs (thread_accounted hand) (on_pending (E := QueueFailure) (modify (mark_seen g connection now)))
    (fun _ => thread_accounted hand) thread_safe.
Proof.
  intros r Hr. apply same_held_accounted; [done|]. apply same_held_eq, mark_seen_held.
Qed.

Lemma quiet_learning {A} hand (m : ST World QueueFailure A) :
  always quiet m -> runs (thread_accounted hand) (zoom m) (fun _ => thread_accounted hand) thread_safe.
Proof.
  intros Hm. eapply runs_pre; [|eapply runs_post; [|apply (zoom_quiet hand (fun _ => True))]];
    [done|by intros ? r [? _]|done|done].
Qed.

Lemma submit_steady {E} observation :
  always steady (submit_learning_attribution (B := B) (D := D) (E := E) observation).
Proof.
  assert (Hsend : forall x, always steady (send_attribution (B := B) (D := D) (E := E) x)).
  { intros x w. unfold send_attribution. destruct (try_send _ _). by apply steady_same. }
  unfold submit_learning_attribution. always_by ltac:(apply Hsend || steady_primitive).
Qed.

Lemma observe_runs work g now :
  runs (thread_accounted []) (observe_accepted work g now) (fun _ => thread_accounted []) thread_safe.
Proof.
  unfold observe_accepted. destruct (work_packet work) as [packet|]; [|by apply runs_ret].
  eapply runs_bind; [apply quiet_learning, instant_now_quiet|]. intros later_now. cbn beta.
  apply runs_get. intros r0. destruct (should_enqueue _ _ _ _) as [debounce wanted].
  eapply (runs_bind _ _ _ (fun _ => thread_accounted [])).
  { apply runs_modify. intros r [Hr ->]. by apply observations_accounted. }
  intros _. destruct (negb wanted); [by apply runs_ret|].
  eapply runs_bind; [apply quiet_learning, always_quiet, submit_steady|]. intros enqueued.
  destruct enqueued; [apply mark_seen_runs|by apply runs_ret].
Qed.

Lemma note_packet_accounted id g (r : LearningReader) :
  thread_accounted [] r -> thread_accounted [id] (note_packet id g r).
Proof.
  intros [[S1 S2 [Hsize S3]] Hbag]. split; [split; [done| |split; [done|]]|].
  - eapply Forall_impl; [exact S2|]. intros m [?|(? & ? & ? & ? & Hin)]; [by left|right].
    split_and!; try done. apply elem_of_app. by left.
  - intros id' q Hq. destruct (S3 id' q Hq). split; [done|]. apply elem_of_app. by left.
  - cbn. rewrite fmap_app, <-Hbag. cbn. rewrite (Permutation_app_comm _ [id]). cbn.
    by rewrite <-Permutation_middle.
Qed.

Lemma reserve_spec id g now p p' res :
  reserve id g now p = (p', res) ->
  match res with
  | Ok (Some ticket) => exists q, pl_ticket q = ticket
      /\ lt_packet_id ticket = id /\ lt_flow_generation ticket = g
      /\ held p !! id = None /\ Z.of_nat (size (held p)) < LEARNING_PENDING_CAPACITY
      /\ held p' = <[id := q]> (held p)
  | _ => held p' = held p
  end.
Proof.
  unfold reserve. rewrite run_get, run_lift.
  destruct (held p !! id) eqn:Hn; cbn [is_none ensure]; [by intros [= <- <-]|].
  destruct (Z.leb_spec LEARNING_PENDING_CAPACITY (Z.of_nat (size (held p)))); [by intros [= <- <-]|].
  destruct (u64_checked_add (last_serial p) 1) as [serial|]; [|by intros [= <- <-]].
  rewrite run_modify. intros [= <- <-]. eexists (mkPendingLearning _ _ _). split; [done|]. by split_and!.
Qed.

(** The packet is held, or it stays in hand. *)
Lemma hold_ticket_spec work g now (r r' : LearningReader) res :
  hold_ticket work g now r = (r', res) ->
  exists p', r' = set_pending p' r
  /\ match res with
     | Ok (Some (_, ticket)) => exists q, pl_ticket q = ticket
         /\ lt_packet_id ticket = work_packet_id work /\ lt_flow_generation ticket = g
         /\ held (pending r) !! work_packet_id work = None
         /\ Z.of_nat (size (held (pending r))) < LEARNING_PENDING_CAPACITY
         /\ held p' = <[work_packet_id work := q]> (held (pending r))
     | _ => held p' = held (pending r)
     end.
Proof.
  unfold hold_ticket. assert (Hsame : r = set_pending (pending r) r) by by destruct r.
  destruct (work_packet work) as [packet|]; [|intros [= <- <-]; by exists (pending r)].
  destruct (negb _); [intros [= <- <-]; by exists (pending r)|]. rewrite run_bind. unfold on_pending at 1, modify.
  rewrite run_get. destruct (is_some _); [intros [= <- <-]; by eexists|]. rewrite run_bind. unfold on_pending.
  change (pending (set_pending ?p _)) with p.
  destruct (reserve _ _ _ _) as [p' res'] eqn:Hres. apply reserve_spec in Hres.
  destruct res' as [[ticket|]|err]; intros [= <- <-]; by exists p'.
Qed.

(** A packet moves between the hand and the table. *)
Lemma hold_accounted id q p' (r : LearningReader) :
  thread_accounted [id] r -> lt_packet_id (pl_ticket q) = id ->
  (id, lt_flow_generation (pl_ticket q)) ∈ admitted r -> held (pending r) !! id = None ->
  Z.of_nat (size (held (pending r))) < LEARNING_PENDING_CAPACITY ->
  held p' = <[id := q]> (held (pending r)) -> thread_accounted [] (set_pending p' r).
Proof.
  intros [[S1 S2 [Hsize S3]] Hbag] Hid Hin Hn Hlt Hp'. split.
  - split; [done|done|]. split; cbn; rewrite Hp'; [rewrite map_size_insert, Hn; lia|].
    intros id' q' [[<- <-]|[_ Hq']]%lookup_insert_Some; [done|]. by apply S3.
  - rewrite <-Hbag. cbn. rewrite Hp', dom_insert_L, elements_union_singleton; [done|].
    by apply not_elem_of_dom.
Qed.

Lemma cancel_accounted ticket (r : LearningReader) :
  thread_accounted [] r -> holds (pending r) ticket ->
  thread_accounted [lt_packet_id ticket] (cancel_ticket ticket r).
Proof.
  intros [[S1 S2 [Hsize S3]] Hbag] Hh. unfold cancel_ticket. rewrite (cancel_held _ _ Hh).
  destruct Hh as (q & Hq & Ht). split.
  - split; [done|done|]. split; cbn; [rewrite map_size_delete, Hq; lia|].
    intros id' q' [_ Hq']%lookup_delete_Some. by apply S3.
  - rewrite <-Hbag. cbn. by rewrite (elements_delete _ _ _ Hq).
Qed.

Lemma accept_runs id p adm g :
  (id, g) ∈ adm ->
  runs (fun r => thread_accounted [id] r /\ kept_under p adm (Learning, g) r)
    (zoom (send_verdict id NF_ACCEPT None)) (fun _ => thread_accounted []) thread_safe.
Proof.
  intros Hin. eapply runs_post; [|eapply runs_pre;
    [|apply zoom_answer, (kept_under_guarded p adm (Learning, g))]].
  - by intros ? r [? _].
  - intros r [Hr [[Hp Ha] Hid]]. split; [done|]. intros message. apply accept_ok with (g := g); [done|].
    cbn. by rewrite Ha.
Qed.

(** A packet that is to be held. *)
Lemma held_packet_runs id packet ticket p adm g now :
  lt_packet_id ticket = id -> (id, g) ∈ adm -> holds p ticket ->
  runs (fun r => thread_accounted [] r /\ kept_under p adm (Learning, g) r)
    (submitted ← zoom (submit_learning_attribution (mkAttributionWork g packet (Some ticket)));
     if submitted : bool then
       on_pending (modify (mark_seen g packet.(connection) now)) ;;
       modify (fun r => set_observations
         (should_enqueue g packet.(connection) now r.(observations)).1 r)
     else
       modify (cancel_ticket ticket) ;;
       zoom (send_verdict id NF_ACCEPT None))
    (fun _ => thread_accounted []) thread_safe.
Proof.
  intros <- Hin Hh. eapply runs_bind; [apply zoom_steady; [apply kept_under_guarded|apply submit_steady]|].
  intros submitted. destruct submitted.
  - eapply runs_pre; [|eapply runs_bind; [apply mark_seen_runs|]]; [by intros r [? _]|].
    intros ?. apply runs_modify. intros r Hr. by apply observations_accounted.
  - eapply runs_bind; [|intros ?; apply (accept_runs _ (cancel ticket p) adm g Hin)].
    apply runs_modify. intros r [Hr [[Hp Ha] Hid]]. split.
    + apply cancel_accounted; [done|]. by rewrite Hp.
    + unfold cancel_ticket. rewrite Hp. by split.
Qed.

Lemma return_learning_runs work :
  runs (thread_accounted []) (return_learning_verdict work) (fun _ => thread_accounted []) thread_safe.
Proof.
  unfold return_learning_verdict. set (id := work_packet_id work). apply runs_get. intros r0.
  eapply (runs_bind _ _ _ (fun _ r => thread_accounted [] r /\ kept_learning (pending r0) (admitted r0) r)).
  { apply runs_lift; [by intros r ? [Hr ->]|by intros r [[? _] _]]. }
  intros ?. eapply runs_bind; [apply identity_runs, kept_learning_framed|]. intros [mode' g]. cbn beta iota.
  set (adm := admitted r0 ++ [(id, g)]).
  assert (Hin : (id, g) ∈ adm) by (apply elem_of_app; right; left).
  eapply (runs_bind _ _ _ (fun _ r => thread_accounted [id] r /\ kept_under (pending r0) adm (mode', g) r)).
  { apply runs_modify. intros r [[Hr [Hp Ha]] Hid]. split; [by apply note_packet_accounted|].
    split; [|done]. split; [done|]. cbn. by rewrite Ha. }
  intros ?. eapply (runs_bind _ _ _ (fun (refused : bool) r => (thread_accounted [id] r
    /\ kept_under (pending r0) adm (mode', g) r) /\ (refused = false -> mode' = Learning))).
  { destruct (mode' !=? Learning) eqn:Hm; [apply runs_ret; by intros r Hr|].
    rewrite negb_false_iff, eqb_true in Hm.
    eapply runs_post; [|apply zoom_steady, load_shutdown_steady; apply kept_under_guarded]. by intros ? r Hr. }
  intros refused. apply (runs_pure _ _ _ _ _ (fun r Hr => proj2 Hr)). intros Hm.
  apply (runs_pre _ (fun r => thread_accounted [id] r /\ kept_under (pending r0) adm (mode', g) r));
    [by intros r [? _]|]. destruct refused.
  { eapply runs_post; [|apply zoom_deny, kept_under_guarded]. by intros ? r [? _]. }
  rewrite (Hm eq_refl). clear Hm. eapply runs_bind;
    [apply zoom_steady, instant_now_steady; apply kept_under_guarded|]. intros now. cbn beta.
  intros r [Hr [[Hp Ha] Hid]]. rewrite run_bind.
  destruct (hold_ticket work g now r) as [r1 res] eqn:Hhold.
  apply hold_ticket_spec in Hhold as (p' & -> & Hcase). rewrite Hp in Hcase. fold id in Hcase.
  destruct res as [[[packet ticket]|]|err].
  - destruct Hcase as (q & <- & Hqid & Hg & Hn & Hlt & Hp').
    apply (held_packet_runs id packet (pl_ticket q) p' adm g now); [done|done| |].
    + exists q. by rewrite Hp', Hqid, lookup_insert_eq.
    + split; [|by split]. apply (hold_accounted id q); rewrite ?Hp, ?Ha, ?Hg; done.
  - assert (Hr' : thread_accounted [id] (set_pending p' r)).
    { apply same_held_accounted; [done|]. apply same_held_eq. by rewrite Hp. }
    apply (runs_bind _ _ _ _ _ _ (accept_runs id p' adm g Hin)
      (fun _ => observe_runs work g now) (set_pending p' r)). done.
  - apply (same_held_accounted [id] p' r); [done|]. apply same_held_eq. by rewrite Hp.
Qed.

Lemma learning_round_runs :
  runs (thread_accounted []) (learning_round if_indextoname) (fun _ => thread_accounted []) thread_safe.
Proof.
  unfold learning_round. eapply runs_bind; [apply quiet_learning, load_shutdown_quiet|]. intros stop. cbn beta.
  destruct stop; [by apply runs_ret|].
  eapply runs_bind; [apply quiet_learning, instant_now_quiet|]. intros now. cbn beta.
  eapply runs_bind; [apply release_runs|]. intros ?. apply runs_get. intros r0.
  apply (runs_pre _ (thread_accounted [])); [by intros r [[? _] _]|].
  eapply (runs_bind _ _ _ (fun _ => thread_accounted [])).
  { apply runs_modify. intros r [[] ?]. by split. }
  intros _. eapply runs_bind; [apply runs_lift; [intros r ? Hr _; exact Hr|apply ta_safe]|].
  intros arrived. cbn beta.
  eapply (runs_bind _ _ _ (fun _ => thread_accounted [])); [|intros ?; by apply runs_ret].
  destruct arrived as [| | |bytes]; [by apply runs_ret..|apply quiet_learning, count_quiet|].
  destruct (append_packet_datagram _ _ _) as [batch collected].
  eapply runs_bind; [apply runs_lift; [intros r ? Hr _; exact Hr|apply ta_safe]|]. intros ?. cbn beta.
  induction batch as [|work batch IH]; cbn [return_learning_batch_verdicts]; [by apply runs_ret|].
  eapply runs_bind; [apply return_learning_runs|]. done.
Qed.

Lemma learning_rounds_runs fuel :
  runs (thread_accounted []) (learning_rounds if_indextoname fuel) (fun _ => thread_accounted []) thread_safe.
Proof.
  induction fuel as [|fuel IH]; cbn [learning_rounds]; [by apply runs_ret|].
  eapply runs_bind; [apply learning_round_runs|]. intros more. destruct more; [exact IH|by apply runs_ret].
Qed.

(** A world in which the thread starts. *)
Definition learning_fresh (w : World) : Prop := world_ok w /\ sent (socket w) = [].

Lemma learning_new_accounted w turns arrivals :
  learning_fresh w -> thread_accounted [] (LearningReader_new w turns arrivals).
Proof.
  intros [Hw Hs]. split; cbn; [|by rewrite Hs]. split; cbn; [done|by rewrite Hs|done].
Qed.

(** ** Results *)

(** C22: the learning queue passes packets only while the firewall learns.
    Whatever arrives, whatever the other threads do and whatever fails, a packet
    passes only if, when its verdict is sent, the engine is not locked, its mode
    is Learning, and its generation is the one that the packet met: a policy
    change while a packet is held turns into a drop. *)
Theorem packets_pass_only_while_learning fuel w turns arrivals r' res :
  learning_fresh w ->
  learning_rounds if_indextoname fuel (LearningReader_new w turns arrivals) = (r', res) ->
  Forall (learning_verdict_ok (admitted r')) (sent (socket (learning_world r'))).
Proof.
  intros Hw Hrun. pose proof (learning_rounds_runs fuel _ (learning_new_accounted _ turns arrivals Hw)) as Hr.
  rewrite Hrun in Hr. destruct res; apply Hr.
Qed.

(** C26: the learning queue holds packets for a bounded time.  After any number
    of rounds that returned no error, a release at any time that returns no
    error leaves every admitted packet either answered once or held, at most 128
    held, and none of them at its deadline, whether or not their attribution was
    ever completed.  (A round or a release that returns an error ends the
    thread.) *)
Theorem held_packets_are_released fuel w turns arrivals r now r' :
  learning_fresh w ->
  learning_rounds if_indextoname fuel (LearningReader_new w turns arrivals) = (r, Ok tt) ->
  release_learning_verdicts now r = (r', Ok tt) ->
  (sent_id <$> sent (socket (learning_world r'))) ++ elements (dom (held (pending r')))
    ≡ₚ (admitted r').*1
  /\ Z.of_nat (size (held (pending r'))) <= LEARNING_PENDING_CAPACITY
  /\ forall id q, held (pending r') !! id = Some q -> now < pl_deadline q.
Proof.
  intros Hw Hrun Hrel.
  pose proof (learning_rounds_runs fuel _ (learning_new_accounted _ turns arrivals Hw)) as Hr.
  rewrite Hrun in Hr. pose proof (release_runs now r Hr) as Hr'. rewrite Hrel in Hr'.
  destruct Hr' as [[[_ _ [Hsize _]] Hbag] Hp]. split; [exact Hbag|]. split; [exact Hsize|exact Hp].
Qed.
End Safety.
