(* ===== verification/Attribution.v ===== *)
(** * The learning threads

    [nfqueue.rs]: the attribution thread identifies the processes behind the
    connections that the learning queue let pass, offers what it saw to the
    learning writer, and tells the queue that held packets may go on.  Also the
    batches that both threads collect from their channels. *)

From S2P Require Import Prelude Text Net Application Model State StateFacts StateLearning.
From S2P Require Import StateLearningFacts Policy Learning Snapshots Marks Nftables Decision.
From S2P Require Import Netlink Packet Progress Capture Registry.
From S2P Require Import Protocol Bus Pinning Storage Engine EngineLearning EngineControl EngineLaws.
From S2P Require Import EngineSafety EngineRuns Authority Runtime Verdicts Readers LearningQueue.
Local Open Scope Z_scope.

Abbreviation LEARNING_BATCH_SIZE := 256%nat (only parsing).
Abbreviation MAX_ATTRIBUTION_BATCH_SIZE := 32%nat (only parsing).

(** ** Batches *)

(** The loop of [collect_learning_batch], for as many items as may be drained;
    the rest stays in the channel. *)
Fixpoint collect_endpoints (more : nat) (generation' : Z) (receiver : list LearningObservation)
    (endpoints : list LearnedApplicationEndpoint)
    : list LearnedApplicationEndpoint * list LearningObservation :=
  match more, receiver with
  | S more, observation :: rest =>
      collect_endpoints more generation' rest
        (if (observation.(obs_flow_generation) =? generation')
            && bool_decide (observation.(obs_endpoint) ∉ endpoints)
         then endpoints ++ [observation.(obs_endpoint)] else endpoints)
  | _, _ => (endpoints, receiver)
  end.

Definition collect_learning_batch (first : LearningObservation) (receiver : list LearningObservation)
    : Z * list LearnedApplicationEndpoint * list LearningObservation :=
  let '(endpoints, rest) :=
    collect_endpoints (LEARNING_BATCH_SIZE - 1) first.(obs_flow_generation) receiver
      [first.(obs_endpoint)] in
  (first.(obs_flow_generation), endpoints, rest).

Definition flow_of (work : LearningAttributionWork) : OutboundConnection :=
  work.(aw_packet).(connection).

(** [*previous = work] for the first observation of the flow without a ticket. *)
Fixpoint replace_unticketed (work : LearningAttributionWork) (batch : list LearningAttributionWork)
    : list LearningAttributionWork :=
  match batch with
  | [] => []
  | previous :: rest =>
      if bool_decide (flow_of previous = flow_of work) && is_none previous.(aw_ticket)
      then work :: rest else previous :: replace_unticketed work rest
  end.

Definition collect_work (generation' : Z) (batch : list LearningAttributionWork)
    (work : LearningAttributionWork) : list LearningAttributionWork :=
  if negb (work.(aw_flow_generation) =? generation') then batch
  else if bool_decide (flow_of work ∉ flow_of <$> batch) then batch ++ [work]
  else if is_some work.(aw_ticket) then replace_unticketed work batch
  else batch.

Definition collect_learning_attribution_batch (first : LearningAttributionWork)
    (receiver : list LearningAttributionWork)
    : Z * list LearningAttributionWork * list LearningAttributionWork :=
  let n := (MAX_ATTRIBUTION_BATCH_SIZE - 1)%nat in
  (first.(aw_flow_generation),
   foldl (collect_work first.(aw_flow_generation)) [first] (take n receiver), drop n receiver).

(** ** The attribution thread *)

Section Attribution.
Context {B D : Type} `{BackendLaws B} `{StoreLaws D} `{IpNetLib} `{JsonLib} `{Target} `{HashOrder}.
Abbreviation World := (World (B := B) (D := D)).

(** [offered] is every ticket that the thread tried to complete, which the code
    does not keep. *)
Record Attributor : Type := mkAttributor {
  attributor_world : World;
  inbox : list LearningAttributionWork;
  recent_attempts : LearningAttributionDebounce;
  completion_channel : Channel LearningVerdictTicket;
  offered : list LearningVerdictTicket
}.

Definition set_attributor_world (v : World) (a : Attributor) : Attributor :=
  mkAttributor v a.(inbox) a.(recent_attempts) a.(completion_channel) a.(offered).
Definition set_inbox (v : list LearningAttributionWork) (a : Attributor) : Attributor :=
  mkAttributor a.(attributor_world) v a.(recent_attempts) a.(completion_channel) a.(offered).
Definition set_recent (v : LearningAttributionDebounce) (a : Attributor) : Attributor :=
  mkAttributor a.(attributor_world) a.(inbox) v a.(completion_channel) a.(offered).

#[export] Instance Attributor_world : HasWorld Attributor :=
  {| of_world := attributor_world; with_world := set_attributor_world |}.

Definition complete_learning_capture {E} (ticket : option LearningVerdictTicket)
    : ST Attributor E unit :=
  match ticket with
  | None => mret tt
  | Some ticket =>
      modify (fun a => mkAttributor a.(attributor_world) a.(inbox) a.(recent_attempts)
                         (try_send ticket a.(completion_channel)).1 (a.(offered) ++ [ticket]))
  end.

Fixpoint complete_captures {E} (batch : list LearningAttributionWork) : ST Attributor E unit :=
  match batch with
  | [] => mret tt
  | work :: rest => complete_learning_capture work.(aw_ticket) ;; complete_captures rest
  end.

(** [batch.retain]: a packet that is held is attempted in any case. *)
Fixpoint retain_attempts (flow_generation now : Z) (batch : list LearningAttributionWork)
    (recent : LearningAttributionDebounce)
    : LearningAttributionDebounce * list LearningAttributionWork :=
  match batch with
  | [] => (recent, [])
  | work :: rest =>
      let '(recent, wanted) := should_attempt flow_generation (flow_of work) now recent in
      let '(recent, kept) := retain_attempts flow_generation now rest recent in
      (recent, if is_some work.(aw_ticket) || wanted then work :: kept else kept)
  end.

Fixpoint attribute_observations {E} (snapshot : ApplicationDecisionPolicy) (completed_at : Z)
    (work : list (LearningAttributionWork * Result ResolveError ApplicationIdentity))
    : ST Attributor E unit :=
  match work with
  | [] => mret tt
  | (work, identity) :: rest =>
      modify (fun a => set_recent (completed (flow_of work) completed_at a.(recent_attempts)) a) ;;
      match identity with
      | Ok identity =>
          authorization ← zoom (attempt (authorize_attributed_packet snapshot work.(aw_packet) identity));
          match authorization with
          | Ok authorization =>
              if is_some_and is_attribution_timeout authorization.(observation_error)
              then zoom record_attribution_timeout else mret tt
          | Err _ => mret tt
          end
      | Err error =>
          if error.(resolve_timed_out) then zoom record_attribution_timeout else mret tt
      end ;;
      complete_learning_capture work.(aw_ticket) ;;
      attribute_observations snapshot completed_at rest
  end.

(** The second half of a round: a batch of the current generation. *)
Definition attribute_batch {E} (snapshot : ApplicationDecisionPolicy) (flow_generation : Z)
    (batch : list LearningAttributionWork) : ST Attributor E bool :=
  now ← zoom instant_now;
  a ← get;
  let '(recent, batch) := retain_attempts flow_generation now batch a.(recent_attempts) in
  modify (set_recent recent) ;;
  match batch with
  | [] => mret true
  | _ =>
      identities ← zoom (resolve_batch
        ((fun work => (flow_of work, IdentityCaptureRequirements_full)) <$> batch));
      completed_at ← zoom instant_now;
      attribute_observations snapshot completed_at (zip batch identities) ;;
      mret true
  end.

(** One round of [learning_attribution_loop] with something to receive; false
    when the thread ends. *)
Definition attribution_round {E} (first : LearningAttributionWork) : ST Attributor E bool :=
  a ← get;
  let '(flow_generation, batch, rest) := collect_learning_attribution_batch first a.(inbox) in
  modify (set_inbox rest) ;;
  locked ← zoom lock_engine;
  a ← get;
  match (if locked : bool then application_decision_snapshot a.(attributor_world).(shared)
         else Err (ProtocolError_new Internal [])) with
  | Err _ => zoom quarantine_engine ;; zoom store_shutdown ;; mret false
  | Ok snapshot =>
      if (snapshot.(policy_snapshot).(snap_mode) !=? Learning)
         || negb (snapshot.(policy_snapshot).(snap_flow_generation) =? flow_generation)
      then complete_captures batch ;; mret true
      else attribute_batch snapshot flow_generation batch
  end.
End Attribution.

(** ** What the batches hold *)

(** The writer's batch: the endpoints of the drained observations of one
    generation, each once, in the order in which they came. *)
Definition fresh_endpoints (generation' : Z) (endpoints : list LearnedApplicationEndpoint)
    (drained : list LearningObservation) : list LearnedApplicationEndpoint :=
  foldl (fun known o => if bool_decide (o ∈ known) then known else known ++ [o]) endpoints
    (obs_endpoint <$> List.filter (fun o => obs_flow_generation o =? generation') drained).

Lemma collect_endpoints_spec generation' : forall more receiver endpoints,
  collect_endpoints more generation' receiver endpoints
  = (fresh_endpoints generation' endpoints (take more receiver), drop more receiver).
Proof.
  induction more as [|more IH]; intros [|o receiver] endpoints; try done. cbn [collect_endpoints].
  rewrite IH. cbn [take drop]. f_equal. unfold fresh_endpoints. cbn [List.filter].
  destruct (obs_flow_generation o =? generation'); cbn [andb fmap list_fmap foldl]; [|done].
  f_equal. by case_bool_decide; case_bool_decide.
Qed.

Lemma fresh_endpoints_spec generation' drained : forall endpoints,
  NoDup endpoints ->
  NoDup (fresh_endpoints generation' endpoints drained)
  /\ forall x, x ∈ fresh_endpoints generation' endpoints drained <->
     x ∈ endpoints \/ exists o, o ∈ drained /\ obs_flow_generation o = generation' /\ obs_endpoint o = x.
Proof.
  unfold fresh_endpoints. induction drained as [|o drained IH]; intros endpoints Hn.
  { split; [done|]. intros x. split; [by left|]. intros [?|(o & ?%not_elem_of_nil & _)]; done. }
  cbn [List.filter]. destruct (Z.eqb_spec (obs_flow_generation o) generation') as [Hg|Hg].
  2: { destruct (IH endpoints Hn) as [Hn' Hx]. split; [done|]. intros x. rewrite Hx.
       setoid_rewrite elem_of_cons. naive_solver. }
  cbn [fmap list_fmap foldl]. case_bool_decide as Hin.
  - destruct (IH endpoints Hn) as [Hn' Hx]. split; [done|]. intros x. rewrite Hx.
    setoid_rewrite elem_of_cons. naive_solver.
  - destruct (IH (endpoints ++ [obs_endpoint o])) as [Hn' Hx].
    { apply NoDup_app. split_and!; [done| |apply NoDup_singleton].
      by intros x Hx ->%list_elem_of_singleton. }
    split; [done|]. intros x. rewrite Hx, elem_of_app, list_elem_of_singleton.
    setoid_rewrite elem_of_cons. naive_solver.
Qed.

Lemma learning_batch_spec first receiver :
  let n := (LEARNING_BATCH_SIZE - 1)%nat in
  let '(g, endpoints, rest) := collect_learning_batch first receiver in
  g = obs_flow_generation first /\ rest = drop n receiver /\ NoDup endpoints
  /\ forall x, x ∈ endpoints <->
     exists o, o ∈ first :: take n receiver /\ obs_flow_generation o = g /\ obs_endpoint o = x.
Proof.
  cbv zeta. unfold collect_learning_batch. rewrite collect_endpoints_spec.
  destruct (fresh_endpoints_spec (obs_flow_generation first)
    (take (LEARNING_BATCH_SIZE - 1) receiver) [obs_endpoint first]) as [Hn Hx]; [apply NoDup_singleton|].
  split_and!; [done..|]. intros x. rewrite Hx, list_elem_of_singleton.
  setoid_rewrite elem_of_cons. naive_solver.
Qed.

(** The attribution batch has each flow once, and keeps a ticket of every flow
    that has one. *)
Record covers (drained batch : list LearningAttributionWork) (generation' : Z) : Prop := {
  cov_nodup : NoDup (flow_of <$> batch);
  cov_sound w : w ∈ batch -> w ∈ drained /\ aw_flow_generation w = generation';
  cov_flows w : w ∈ drained -> aw_flow_generation w = generation' -> flow_of w ∈ flow_of <$> batch;
  cov_tickets w : w ∈ drained -> aw_flow_generation w = generation' -> is_Some (aw_ticket w) ->
    exists w', w' ∈ batch /\ flow_of w' = flow_of w /\ is_Some (aw_ticket w')
}.

Lemma replace_unticketed_flows work batch :
  flow_of <$> replace_unticketed work batch = flow_of <$> batch.
Proof.
  induction batch as [|b batch IH]; [done|]. cbn [replace_unticketed].
  destruct (bool_decide _ && _) eqn:E; cbn [fmap list_fmap]; [|by f_equal].
  apply andb_prop in E as [E _]. by rewrite (bool_decide_eq_true_1 _ E).
Qed.

Lemma replace_unticketed_elem work batch w :
  w ∈ replace_unticketed work batch -> w ∈ batch \/ w = work.
Proof.
  induction batch as [|b batch IH]; [by left|]. cbn [replace_unticketed].
  destruct (bool_decide _ && _); rewrite !elem_of_cons; naive_solver.
Qed.

(** What is ticketed stays. *)
Lemma replace_unticketed_ticketed work batch w :
  w ∈ batch -> is_Some (aw_ticket w) -> w ∈ replace_unticketed work batch.
Proof.
  intros Hw Ht. induction batch as [|b batch IH]; [by apply not_elem_of_nil in Hw|].
  cbn [replace_unticketed]. apply elem_of_cons in Hw as [->|Hw].
  - destruct (bool_decide _); [|by left]. destruct Ht as [t ->]. by left.
  - destruct (bool_decide _ && _); right; auto.
Qed.

Lemma replace_unticketed_covers work batch :
  is_Some (aw_ticket work) -> flow_of work ∈ flow_of <$> batch ->
  exists w', w' ∈ replace_unticketed work batch /\ flow_of w' = flow_of work /\ is_Some (aw_ticket w').
Proof.
  intros Ht. induction batch as [|b batch IH]; [by intros ?%not_elem_of_nil|].
  cbn [replace_unticketed fmap list_fmap]. intros [E|Hin]%elem_of_cons.
  - rewrite (bool_decide_eq_true_2 _ (eq_sym E)). destruct (aw_ticket b) eqn:Eb; cbn [andb is_none].
    + exists b. rewrite Eb. by split_and!; [left| |].
    + exists work. by split_and!; [left| |].
  - destruct (bool_decide _ && _).
    + exists work. by split_and!; [left| |].
    + destruct (IH Hin) as (w' & Hw' & ?). exists w'. split; [by right|done].
Qed.

Lemma collect_work_covers drained batch generation' work :
  covers drained batch generation' ->
  covers (drained ++ [work]) (collect_work generation' batch work) generation'.
Proof.
  intros [Hn Hs Hf Ht]. unfold collect_work.
  destruct (Z.eqb_spec (aw_flow_generation work) generation') as [Hg|Hg]; cbn [negb].
  2: { split; [done|..]; setoid_rewrite elem_of_app; setoid_rewrite list_elem_of_singleton;
       naive_solver. }
  case_bool_decide as Hnew.
  - split; rewrite ?fmap_app.
    + apply NoDup_app. split_and!; [done| |apply NoDup_singleton].
      intros x Hx ->%list_elem_of_singleton. done.
    + setoid_rewrite elem_of_app. setoid_rewrite list_elem_of_singleton. naive_solver.
    + setoid_rewrite elem_of_app. setoid_rewrite list_elem_of_singleton. naive_solver.
    + setoid_rewrite elem_of_app. setoid_rewrite list_elem_of_singleton. naive_solver.
  - destruct (aw_ticket work) as [t|] eqn:Et; cbn [is_some].
    + pose proof (replace_unticketed_covers work batch) as Hc. rewrite Et in Hc.
      split; rewrite ?replace_unticketed_flows; [done|..]; setoid_rewrite elem_of_app;
        setoid_rewrite list_elem_of_singleton.
      * intros w [Hw| ->]%replace_unticketed_elem; naive_solver.
      * naive_solver.
      * intros w [Hw| ->] Hgw Htw; [|by apply Hc].
        destruct (Ht w Hw Hgw Htw) as (w' & Hw' & ? & ?). exists w'.
        split; [by apply replace_unticketed_ticketed|done].
    + split; [done|..]; setoid_rewrite elem_of_app; setoid_rewrite list_elem_of_singleton; [naive_solver..|].
      intros w [Hw| ->] Hgw Htw; [by apply Ht|]. rewrite Et in Htw. by destruct Htw.
Qed.

Lemma collect_covers generation' works : forall drained batch,
  covers drained batch generation' ->
  covers (drained ++ works) (foldl (collect_work generation') batch works) generation'.
Proof.
  induction works as [|work works IH]; intros drained batch Hc; [by rewrite app_nil_r|].
  rewrite cons_middle, app_assoc. cbn [foldl]. by apply IH, collect_work_covers.
Qed.

Lemma collect_batch_covers first receiver :
  let n := (MAX_ATTRIBUTION_BATCH_SIZE - 1)%nat in
  let '(g, batch, rest) := collect_learning_attribution_batch first receiver in
  g = aw_flow_generation first /\ covers (first :: take n receiver) batch g
  /\ rest = drop n receiver.
Proof.
  cbv zeta. unfold collect_learning_attribution_batch. split_and!; [done| |done].
  apply (collect_covers _ _ [first] [first]). split.
  - apply NoDup_singleton.
  - intros w ->%list_elem_of_singleton. split; [by left|done].
  - intros w ->%list_elem_of_singleton _. by left.
  - intros w ->%list_elem_of_singleton _ Ht. exists first. by split_and!; [left| |].
Qed.

(** ** What the attribution thread does *)

Section AttributionLaws.
Context {B D : Type} `{BackendLaws B} `{StoreLaws D} `{IpNetLib} `{JsonLib} `{Target} `{HashOrder}.
Abbreviation World := (World (B := B) (D := D)).
Abbreviation Attributor := (Attributor (B := B) (D := D)).

(** The work on a batch: no packet is answered, and no ticket taken back. *)
Definition attributes (a a' : Attributor) : Prop :=
  quiet a.(attributor_world) a'.(attributor_world) /\ a.(offered) `prefix_of` a'.(offered)
  /\ a'.(inbox) = a.(inbox).

#[export] Instance attributes_preorder : PreOrder attributes.
Proof.
  split; [done|]. intros a1 a2 a3 (Hq & Hp & Hi) (Hq' & Hp' & Hi').
  split_and!; [by etrans..|congruence].
Qed.

Lemma zoom_attributes {E A} (m : ST World E A) : always quiet m -> always attributes (zoom m).
Proof.
  intros Hm a. unfold zoom. cbn [of_world Attributor_world]. specialize (Hm (attributor_world a)).
  by destruct (m (attributor_world a)) as [w r].
Qed.

Lemma complete_attributes {E} ticket : always attributes (complete_learning_capture (E := E) ticket).
Proof.
  destruct ticket as [ticket|]; cbn [complete_learning_capture]; [|apply always_ret; exact _].
  apply always_modify. intros a. split_and!; [done| |done]. by apply prefix_app_r.
Qed.

Lemma complete_captures_attributes {E} batch : always attributes (complete_captures (E := E) batch).
Proof.
  induction batch as [|work batch IH]; cbn [complete_captures]; [apply always_ret; exact _|].
  apply always_bind; [exact _|apply complete_attributes|done].
Qed.

Ltac attributes_step :=
  first [ apply zoom_attributes;
          first [ apply attempt_quiet, authorize_quiet | apply count_quiet | apply instant_now_quiet
                | apply resolve_quiet | apply lock_engine_quiet | apply quarantine_engine_quiet ]
        | apply complete_attributes | apply complete_captures_attributes ].

Lemma observations_attributes {E} snapshot completed_at works :
  always attributes (attribute_observations (E := E) snapshot completed_at works).
Proof.
  induction works as [|[work identity] works IH]; cbn [attribute_observations]; [apply always_ret; exact _|].
  apply always_bind; [exact _|by apply always_modify|intros _].
  apply always_bind; [exact _|always_by ltac:(idtac); attributes_step|intros _].
  apply always_bind; [exact _|attributes_step|done].
Qed.

(** The ticket of [work], if it has one, is offered. *)
Definition released (a : Attributor) (work : LearningAttributionWork) : Prop :=
  forall ticket, aw_ticket work = Some ticket -> ticket ∈ a.(offered).

Lemma released_later a a' work : attributes a a' -> released a work -> released a' work.
Proof. intros (_ & [more E] & _) Hr ticket Ht. rewrite E. apply elem_of_app. left. by apply Hr. Qed.


Lemma complete_released ticket work (a : Attributor) :
  aw_ticket work = ticket -> released (complete_learning_capture (E := Empty_set) ticket a).1 work.
Proof.
  intros <- t Ht. rewrite Ht. cbn. apply elem_of_app. right. by left.
Qed.

(** The rest of a computation that cannot fail. *)
Lemma then_released {A A'} (m : ST Attributor Empty_set A) (k : A -> ST Attributor Empty_set A') works a :
  (forall v, always attributes (k v)) -> Forall (released (m a).1) works ->
  Forall (released ((m ≫= k) a).1) works.
Proof.
  intros Hk Hm. rewrite run_bind. destruct (m a) as [a1 [v|[]]]. cbn [fst] in Hm.
  eapply Forall_impl; [exact Hm|]. intros work. apply released_later, Hk.
Qed.

Lemma bind_released {A A'} (m : ST Attributor Empty_set A) (k : A -> ST Attributor Empty_set A') works a :
  (forall v a1, Forall (released (k v a1).1) works) -> Forall (released ((m ≫= k) a).1) works.
Proof. intros Hk. rewrite run_bind. destruct (m a) as [a1 [v|[]]]. apply Hk. Qed.

Lemma complete_captures_released batch : forall a,
  Forall (released (complete_captures (E := Empty_set) batch a).1) batch.
Proof.
  induction batch as [|work batch IH]; intros a; cbn [complete_captures]; [constructor|].
  apply Forall_cons. split.
  - apply Forall_singleton, then_released; [intros _; apply complete_captures_attributes|].
    by apply Forall_singleton, complete_released.
  - apply bind_released. intros _. apply IH.
Qed.

Lemma observations_released snapshot completed_at works : forall a,
  Forall (released (attribute_observations (E := Empty_set) snapshot completed_at works a).1) works.*1.
Proof.
  induction works as [|[work identity] works IH]; intros a; cbn [attribute_observations]; [constructor|].
  do 2 (apply bind_released; intros _; clear a; intros a). cbn [fmap list_fmap fst].
  apply Forall_cons. split.
  - apply Forall_singleton, then_released; [intros _; apply observations_attributes|].
    by apply Forall_singleton, complete_released.
  - apply bind_released. intros _. apply IH.
Qed.

(** A packet that is held is not debounced. *)
Lemma retain_ticketed flow_generation now batch work : forall recent,
  work ∈ batch -> is_Some (aw_ticket work) ->
  work ∈ (retain_attempts flow_generation now batch recent).2.
Proof.
  induction batch as [|b batch IH]; intros recent Hw Ht; [by apply not_elem_of_nil in Hw|].
  cbn [retain_attempts]. destruct (should_attempt _ _ _ _) as [recent1 wanted].
  specialize (IH recent1). destruct (retain_attempts _ _ _ _) as [recent2 kept]. cbn [snd] in *.
  apply elem_of_cons in Hw as [->|Hw].
  - destruct Ht as [t ->]. by left.
  - destruct (_ || _); [right|]; auto.
Qed.

(** ** A round *)

(** The resolver gives one answer for each request. *)
Definition answers_each (resolver : Resolver) : Prop :=
  forall requests, length (resolver requests) = length requests.

Lemma next_answers (w : World) requests :
  Forall answers_each (resolutions w) -> length (next_resolver w requests) = length requests.
Proof.
  unfold next_resolver. destruct (resolutions w); cbn [head default].
  - intros _. apply length_fmap.
  - by intros [Hr _]%Forall_cons.
Qed.

(** Every flow with a packet that waits in the batch. *)
Definition flows_released (drained : list LearningAttributionWork) (generation' : Z) (a : Attributor) : Prop :=
  forall work, work ∈ drained -> aw_flow_generation work = generation' -> is_Some (aw_ticket work) ->
  exists work' ticket, work' ∈ drained /\ flow_of work' = flow_of work
    /\ aw_ticket work' = Some ticket /\ ticket ∈ a.(offered).

Lemma covers_released drained batch generation' a :
  covers drained batch generation' ->
  (forall work, work ∈ batch -> is_Some (aw_ticket work) -> released a work) ->
  flows_released drained generation' a.
Proof.
  intros [_ Hs _ Ht] Hr work Hw Hg Hk. destruct (Ht work Hw Hg Hk) as (work' & Hw' & Hf & [ticket Et]).
  exists work', ticket. split_and!; [by apply Hs|done|done|]. apply (Hr work'); [done|by rewrite Et|done].
Qed.

Definition locked_for_good (w : World) : Prop :=
  stopping w = true /\ forall w', later w w' -> ~ live w'.

Lemma attributor_stops (a a' : Attributor) more :
  world_ok (attributor_world a) ->
  (zoom quarantine_engine ;; zoom store_shutdown ;; mret false : ST Attributor Empty_set bool) a
    = (a', Ok more) ->
  more = false /\ attributes a a' /\ locked_for_good (attributor_world a').
Proof.
  intros Hok. rewrite run_bind. unfold zoom at 1. cbn [of_world with_world Attributor_world].
  pose proof (quarantine_engine_quiet (E := Empty_set) (attributor_world a)) as Hq.
  change (quarantine_engine (E := Empty_set) (attributor_world a)).1
    with (quarantined (attributor_world a)) in Hq.
  pose proof (quarantined_locked (attributor_world a)) as Hl. unfold quarantined in Hq, Hl.
  destruct (quarantine_engine (attributor_world a)) as [w1 [[]|[]]]. cbn [fst] in *.
  intros [= <- <-]. split_and!; [done| |].
  - split_and!; [|done|done]. cbn. etrans; [exact Hq|]. by apply quiet_same.
  - split; [done|]. intros w' Hw'. apply Hl; [done|]. etrans; [|exact Hw']. by apply later_same.
Qed.

Lemma attribute_batch_attributes {E} snapshot flow_generation batch :
  always attributes (attribute_batch (E := E) snapshot flow_generation batch).
Proof.
  unfold attribute_batch. apply always_bind; [exact _|attributes_step|intros now].
  apply always_bind; [exact _|apply always_get; exact _|intros a0].
  destruct (retain_attempts _ _ _ _) as [recent kept].
  apply always_bind; [exact _|by apply always_modify|intros _].
  destruct kept; [apply always_ret; exact _|].
  always_by ltac:(idtac); (attributes_step || apply observations_attributes).
Qed.

Lemma answers_later (w w' : World) :
  later w w' -> Forall answers_each (resolutions w) -> Forall answers_each (resolutions w').
Proof.
  intros Hl. destruct (later_resolutions _ _ Hl) as [l ->]. by intros [_ Ha]%Forall_app.
Qed.

(** Every work of the batch that is ticketed is released. *)
Lemma attribute_batch_released snapshot flow_generation batch a :
  Forall answers_each (resolutions (attributor_world a)) ->
  exists a', attribute_batch (E := Empty_set) snapshot flow_generation batch a = (a', Ok true)
  /\ forall work, work ∈ batch -> is_Some (aw_ticket work) -> released a' work.
Proof.
  intros Hans. unfold attribute_batch. rewrite run_bind.
  pose proof (zoom_attributes _ (instant_now_quiet (E := Empty_set)) a) as ([Hl _] & _).
  destruct (zoom instant_now a) as [a1 [now|[]]]. apply (answers_later _ _ Hl) in Hans. clear Hl a.
  cbn [fst] in Hans. rewrite run_get. pose proof (retain_ticketed flow_generation now batch) as Hkept.
  destruct (retain_attempts _ _ _ _) as [recent kept] eqn:Er.
  assert (Hk : forall work, work ∈ batch -> is_Some (aw_ticket work) -> work ∈ kept).
  { intros work Hw Ht. specialize (Hkept work (recent_attempts a1) Hw Ht). by rewrite Er in Hkept. }
  rewrite run_modify. destruct kept as [|w0 kept].
  { eexists. split; [done|]. intros work Hw Ht. by apply Hk, not_elem_of_nil in Ht. }
  set (l := w0 :: kept) in *. rewrite run_bind. unfold zoom at 1, resolve_batch.
  rewrite run_get, run_modify. cbn [of_world with_world Attributor_world mret ST_ret].
  set (ids := next_resolver _ _). assert (Hlen : length ids = length l).
  { unfold ids. rewrite next_answers; [|done]. apply length_fmap. }
  clearbody ids. rewrite run_bind. destruct (zoom instant_now _) as [a2 [completed_at|[]]].
  rewrite run_bind. pose proof (observations_released snapshot completed_at (zip l ids) a2) as Hr.
  destruct (attribute_observations _ _ _ a2) as [a3 [[]|[]]]. eexists. split; [done|].
  rewrite fst_zip in Hr by lia. intros work Hw Ht. by apply (proj1 (Forall_forall _ _) Hr), Hk.
Qed.

(** A round of the attribution thread takes at most 32 observations from
    its channel and answers no packet itself.  A round that goes on has offered
    to the queue a ticket of every flow of the batch's generation that a held
    packet waits for, also when the process behind it was not found, the flow
    was debounced or the policy changed meanwhile; a round that ends the thread
    leaves the daemon stopping, and no later state has a working engine. *)
Theorem held_flows_are_completed first a a' more :
  world_ok (attributor_world a) -> Forall answers_each (resolutions (attributor_world a)) ->
  attribution_round (E := Empty_set) first a = (a', Ok more) ->
  quiet (attributor_world a) (attributor_world a')
  /\ inbox a' = drop (MAX_ATTRIBUTION_BATCH_SIZE - 1) (inbox a)
  /\ if more : bool
     then flows_released (first :: take (MAX_ATTRIBUTION_BATCH_SIZE - 1) (inbox a))
            (aw_flow_generation first) a'
     else locked_for_good (attributor_world a').
Proof.
  intros Hok Hans. unfold attribution_round. rewrite run_get.
  pose proof (collect_batch_covers first (inbox a)) as Hc.
  destruct (collect_learning_attribution_batch first (inbox a)) as [[g batch] rest].
  destruct Hc as (-> & Hcov & ->). rewrite run_modify. rewrite run_bind.
  pose proof (zoom_attributes _ (lock_engine_quiet (E := Empty_set))
    (set_inbox (drop (MAX_ATTRIBUTION_BATCH_SIZE - 1) (inbox a)) a)) as ([Hl Hs] & _ & Hi).
  destruct (zoom lock_engine _) as [a1 [locked|[]]]. cbn [fst set_inbox attributor_world inbox] in *.
  apply (later_ok _ _ Hl) in Hok. apply (answers_later _ _ Hl) in Hans. rewrite run_get.
  assert (Hq : forall a2, attributes a1 a2 -> quiet (attributor_world a) (attributor_world a2)
    /\ inbox a2 = drop (MAX_ATTRIBUTION_BATCH_SIZE - 1) (inbox a)).
  { intros a2 ([Hl2 Hs2] & _ & ->). split; [|done]. split; [by etrans|congruence]. }
  destruct (if locked then _ else _) as [snapshot|err].
  2: { intros (-> & Ha & Hlock)%attributor_stops; [|done]. destruct (Hq _ Ha). done. }
  destruct (_ || _).
  - rewrite run_bind. pose proof (complete_captures_attributes (E := Empty_set) batch a1) as Ha.
    pose proof (complete_captures_released batch a1) as Hr.
    destruct (complete_captures batch a1) as [a2 [[]|[]]]. intros [= <- <-].
    destruct (Hq _ Ha). split_and!; [done..|]. apply (covers_released _ _ _ _ Hcov).
    intros work Hw _. by apply (proj1 (Forall_forall _ _) Hr).
  - destruct (attribute_batch_released snapshot (aw_flow_generation first) batch a1 Hans) as (a2 & E & Hr).
    pose proof (attribute_batch_attributes (E := Empty_set) snapshot (aw_flow_generation first) batch a1) as Ha.
    rewrite E in *. intros [= <- <-]. destruct (Hq _ Ha). split_and!; [done..|].
    by apply (covers_released _ _ _ _ Hcov).
Qed.
End AttributionLaws.
