(* ===== verification/QueueRuns.v ===== *)
(** * Concrete runs of the queue threads

    The theorems about the queue threads applied to concrete engines, datagrams
    and schedules, which also shows that their hypotheses can hold. *)

From S2P Require Import Prelude Text Net Application Model State StateFacts StateLearning.
From S2P Require Import StateLearningFacts Policy Learning Snapshots Marks Nftables Decision.
From S2P Require Import Netlink Packet Scheduler Progress Capture Registry.
From S2P Require Import Protocol Bus Pinning Storage Engine EngineLearning EngineControl EngineLaws.
From S2P Require Import EngineSafety EngineRuns Authority Runtime Verdicts Enforcing EnforcingSafety.
From S2P Require Import Readers ReplyQueue LearningQueue Attribution.
Local Open Scope Z_scope.

#[local] Existing Instance ref_ipnet.
#[local] Existing Instance ref_json.
#[local] Existing Instance x86_64.
#[local] Existing Instance ref_hash.

Abbreviation SampleWorld := (World (B := ScriptedBackend) (D := ScriptedStore)).

(** ** Engines, packets and worlds *)

(** The connection of [sample_queued], as it is learned. *)
Definition sample_use : LearnedApplicationEndpoint :=
  mkLearnedApplicationEndpoint
    (mkLearnedEndpoint (IpV4 134744072) Tcp (Some (mkPortRange 443 443))
       (Some (mkInterfaceName (lit "eth0"))))
    (match learned_selector sample_identity with Ok s => s | Err _ => sample_selector end).

(** An engine that has learned it and enforces. *)
Definition sample_ops : list EngineOp :=
  [StartLearning sample_supply (flow_generation (state sample_start)) [sample_use] false;
   RunWorker; FinishLearning].
Definition sample_enforcing : SampleEngine :=
  engine_run (sample_ops
    ++ [Control sample_env (RequestSetMode (revision (state (engine_run sample_ops sample_start))) Enforcing)])
    sample_start.

Lemma sample_enforcing_ok : engine_sound sample_enforcing.
Proof. apply reachable_ok, reach_run, sample_start_reachable. Qed.

Definition message_of (queue mark : Z) (attributes : list (Z * Bytes)) : Bytes :=
  match build_message (queue_message_type NFQNL_MSG_PACKET) 0 0 2 queue
    ([(NFQA_PACKET_HDR, [0; 0; 0; 7; 8; 0; 3]); (NFQA_MARK, be_bytes 4 mark)] ++ attributes) with
  | Ok bytes => bytes
  | Err _ => []
  end.
Definition sample_queued : Bytes :=
  message_of APPLICATION_QUEUE_NUMBER (application_pending_mark 0)
    [(NFQA_IFINDEX_OUTDEV, be_bytes 4 2); (NFQA_UID, be_bytes 4 1000);
     (NFQA_PAYLOAD, ipv4_tcp_segment 3232235777 134744072 40000 443 2)].

Definition sample_registry : Registry :=
  mkRegistry None 0 ∅ (mkProgress (mkIdentity 77 1) 0 0 [] ∅).

Definition sample_world (e : SampleEngine) (r : Registry) (resolvers : list Resolver)
    (files : list (option ProcFile)) : SampleWorld :=
  mkWorld e false [] false [] r false [] 5000 [] (mkSocket APPLICATION_QUEUE_NUMBER 0 [] [])
    (mkChannel [] 512 []) (mkChannel [] 512 []) resolvers files.

(** ** The enforcing queue *)

(** The resolver finds the learned program behind every connection. *)
Definition sample_resolver : Resolver := fun requests => (fun _ => Ok sample_identity) <$> requests.
Definition sample_attributed (c : OutboundConnection) (i : ApplicationIdentity) : Prop :=
  i = sample_identity.

Definition enforcing_world : SampleWorld :=
  sample_world sample_enforcing sample_registry [sample_resolver] [].

Lemma enforcing_world_fresh : fresh sample_attributed enforcing_world.
Proof.
  split; [right; right; apply sample_enforcing_ok|]. split; [|reflexivity].
  apply Forall_singleton. intros requests j c req i _ Ha. unfold sample_resolver in Ha.
  rewrite list_lookup_fmap in Ha. apply fmap_Some in Ha as (? & _ & [= ->]). reflexivity.
Qed.

Definition enforcing_run : Reader * Result QueueFailure unit :=
  serve sample_interfaces AcceptStrategy 4
    (Reader_new enforcing_world [WorkerDecides] [Ok (Datagram sample_queued)]).

Lemma reader_passes_only_what_is_permitted_witness :
  (sent_code <$> sent (socket (world enforcing_run.1))) = [NF_ACCEPT]
  /\ Forall (verdict_ok sample_attributed (received enforcing_run.1)) (sent (socket (world enforcing_run.1))).
Proof.
  split; [vm_compute; reflexivity|].
  destruct enforcing_run as [r' res] eqn:Hrun. unfold enforcing_run in Hrun.
  exact (reader_passes_only_what_is_permitted sample_interfaces AcceptStrategy sample_attributed 4
    enforcing_world _ _ r' res enforcing_world_fresh Hrun).
Defined.

Lemma packets_are_answered_once_witness :
  ids (received enforcing_run.1) = [7]
  /\ (sent_id <$> sent (socket (world enforcing_run.1)))
       ++ ids (queued enforcing_run.1 ++ flying enforcing_run.1) ≡ₚ ids (received enforcing_run.1).
Proof.
  split; [vm_compute; reflexivity|].
  assert (Hok : is_ok enforcing_run.2 = true) by (vm_compute; reflexivity).
  destruct enforcing_run as [r' [[]|e]] eqn:Hrun; [|discriminate Hok]. unfold enforcing_run in Hrun.
  exact (proj1 (packets_are_answered_once sample_interfaces AcceptStrategy sample_attributed 4
    enforcing_world _ _ r' enforcing_world_fresh Hrun)).
Defined.

(** The socket fails at the first read. *)
Definition failing_reader : Reader := Reader_new enforcing_world [] [Err ReceiveFailed].

Lemma failed_reader_locks_witness :
  stopping (world (run sample_interfaces AcceptStrategy 1 (Ok tt) failing_reader).1) = true
  /\ ~ live (world (run sample_interfaces AcceptStrategy 1 (Ok tt) failing_reader).1).
Proof.
  destruct (run sample_interfaces AcceptStrategy 1 (Ok tt) failing_reader) as [r' u] eqn:Hrun.
  destruct (failed_reader_locks sample_interfaces AcceptStrategy sample_attributed 1 (Ok tt)
    enforcing_world [] [Err ReceiveFailed] r' u enforcing_world_fresh) as [Hs Hl].
  - vm_compute. reflexivity.
  - exact Hrun.
  - split; [exact Hs|]. apply Hl. reflexivity.
Defined.

(** ** The reply queue *)

(** A UDP datagram from 8.8.8.8 port 53 to 192.168.1.1 port 40000. *)
Definition sample_reply : Bytes :=
  message_of APPLICATION_REPLY_QUEUE_NUMBER 0
    [(NFQA_PAYLOAD, [69; 0; 0; 28; 0; 0; 0; 0; 64; 17; 0; 0; 8; 8; 8; 8; 192; 168; 1; 1;
                     0; 53; 156; 64; 0; 8; 0; 0])].
Definition reply_flow : FlowKey :=
  mkFlowKey (IpV4 3232235777) 40000 (IpV4 134744072) (Some 53) Udp.

(** Its request, packet 42 of the queue, was accepted. *)
Definition answered_registry (g : Z) : Registry :=
  match begin reply_flow g 1 sample_registry with
  | (r, Ok ticket) =>
      let r := (settle ticket true 2 r).1 in
      set_progress (complete 42 (admit_classified [(42, Reply reply_flow)] r.(progress)).1).1 r
  | (r, Err _) => r
  end.

Definition reply_world_of (files : list (option ProcFile)) : SampleWorld :=
  sample_world sample_enforcing (answered_registry (flow_generation (state sample_enforcing))) [] files.

Lemma reply_world_fresh files : reply_fresh (reply_world_of files).
Proof. split; [right; right; apply sample_enforcing_ok|reflexivity]. Qed.

Definition reply_run : ReplyReader * Result QueueFailure bool :=
  run_inner 2 (ReplyReader_new (reply_world_of [Some sample_table]) [Ok (Datagram sample_reply)]).

Lemma replies_are_only_repeated_witness :
  (sent_code <$> sent (socket (reply_world reply_run.1))) = [NF_REPEAT]
  /\ Forall (reply_verdict_ok (replies reply_run.1) (admissions reply_run.1)) (sent (socket (reply_world reply_run.1))).
Proof.
  split; [vm_compute; reflexivity|].
  destruct reply_run as [r' res] eqn:Hrun. unfold reply_run in Hrun.
  exact (replies_are_only_repeated 2 _ _ r' res (reply_world_fresh _) Hrun).
Defined.

(** Without the kernel's table the reply is denied. *)
Definition denied_run : ReplyReader * Result QueueFailure bool :=
  run_inner 2 (ReplyReader_new (reply_world_of []) [Ok (Datagram sample_reply)]).


Lemma failed_replies_lock_witness :
  stopping (reply_world (run_replies 2 true (ReplyReader_new (reply_world_of []) [])).1) = true.
Proof.
  destruct (run_replies 2 true (ReplyReader_new (reply_world_of []) [])) as [r' u] eqn:Hrun.
  refine (proj1 (failed_replies_lock 2 true (reply_world_of []) [] r' u (reply_world_fresh _) _ Hrun)).
  apply andb_false_r.
Defined.

(** ** The learning queue *)

Definition learning_world_of : SampleWorld := sample_world sample_start sample_registry [] [].

Lemma learning_world_fresh : learning_fresh learning_world_of.
Proof. split; [right; right; apply reachable_ok, sample_start_reachable|reflexivity]. Qed.

(** The attribution thread answers in the second round. *)
Definition sample_ticket : LearningVerdictTicket :=
  mkLearningTicket 7 1 (flow_generation (state sample_start)).
Definition learning_run : LearningReader * Result QueueFailure unit :=
  learning_rounds sample_interfaces 3
    (LearningReader_new learning_world_of [[]; [sample_ticket]] [Ok (Datagram sample_queued)]).

Lemma packets_pass_only_while_learning_witness :
  (sent_code <$> sent (socket (learning_world learning_run.1))) = [NF_ACCEPT]
  /\ Forall (learning_verdict_ok (admitted learning_run.1)) (sent (socket (learning_world learning_run.1))).
Proof.
  split; [vm_compute; reflexivity|].
  destruct learning_run as [r' res] eqn:Hrun. unfold learning_run in Hrun.
  exact (packets_pass_only_while_learning sample_interfaces 3 _ _ _ r' res learning_world_fresh Hrun).
Defined.

(** The attribution thread never answers: the packet is held, and released at
    its deadline. *)
Definition silent_run : LearningReader * Result QueueFailure unit :=
  learning_rounds sample_interfaces 1 (LearningReader_new learning_world_of [] [Ok (Datagram sample_queued)]).
Definition silent_end : LearningReader * Result QueueFailure unit :=
  release_learning_verdicts (5000 + LEARNING_FIRST_PACKET_WAIT) silent_run.1.

Lemma held_packets_are_released_witness :
  elements (dom (held (pending silent_run.1))) = [7] /\ elements (dom (held (pending silent_end.1))) = []
  /\ (sent_id <$> sent (socket (learning_world silent_end.1)))
       ++ elements (dom (held (pending silent_end.1))) ≡ₚ (admitted silent_end.1).*1.
Proof.
  split; [vm_compute; reflexivity|]. split; [vm_compute; reflexivity|].
  assert (Hok : is_ok silent_run.2 = true) by (vm_compute; reflexivity).
  assert (Hok' : is_ok silent_end.2 = true) by (vm_compute; reflexivity).
  destruct silent_end as [r' [[]|e']] eqn:Hrel; [|discriminate Hok']. unfold silent_end in Hrel.
  destruct silent_run as [r [[]|e]] eqn:Hrun; [|discriminate Hok]. unfold silent_run in Hrun.
  exact (proj1 (held_packets_are_released sample_interfaces 1 _ _ _ r _ r' learning_world_fresh Hrun Hrel)).
Defined.

(** The attribution thread gets the observation of that packet, finds its
    process, offers what it learned to the writer and completes the ticket. *)
Definition sample_attributor (inbox : list LearningAttributionWork) : Attributor :=
  mkAttributor (sample_world sample_start sample_registry [sample_resolver] [])
    inbox LearningAttributionDebounce_default (mkChannel [] 128 []) [].
Definition attribution_run : option (Attributor * Result Empty_set bool) :=
  match items (attribution (learning_world silent_run.1)) with
  | first :: rest => Some (attribution_round first (sample_attributor rest))
  | [] => None
  end.

Lemma held_flows_are_completed_witness :
  match attribution_run with
  | Some (a', Ok true) =>
      offered a' = [sample_ticket] /\ length (items (learning (attributor_world a'))) = 1%nat
      /\ exists first, aw_ticket first = Some sample_ticket
         /\ flows_released [first] (aw_flow_generation first) a'
  | _ => False
  end.
Proof.
  assert (Hrun : match attribution_run with
    | Some (a', Ok true) =>
        (offered a', length (items (learning (attributor_world a')))) = ([sample_ticket], 1%nat)
    | _ => False end) by (vm_compute; reflexivity).
  assert (Hin : aw_ticket <$> items (attribution (learning_world silent_run.1)) = [Some sample_ticket])
    by (vm_compute; reflexivity).
  revert Hrun. unfold attribution_run.
  destruct (items (attribution (learning_world silent_run.1))) as [|first [|? ?]]; try discriminate Hin.
  destruct (attribution_round first (sample_attributor [])) as [a' [[|]|[]]] eqn:Hrun; try contradiction.
  intros [= Ho Hl]. split; [exact Ho|]. split; [exact Hl|]. exists first.
  split; [by injection Hin|]. apply (held_flows_are_completed first (sample_attributor []) a' true);
    [right; right; apply reachable_ok, sample_start_reachable| |exact Hrun].
  apply Forall_singleton. intros requests. apply length_fmap.
Defined.
