(* ===== verification/StorageLaws.v ===== *)
(** * The state file on a disk

    [Disk] models [std::fs] for one process: directory entries and nodes apart,
    links followed at most forty times, the process's user and its creation
    mask, and a script that lets any call fail.  On it the atomic store keeps
    the promises [StoreLaws] on which the engine's theorems rest. *)

From S2P Require Import Prelude Text Net Application Model State StateFacts StateLearning.
From S2P Require Import StateLearningFacts Policy Learning Snapshots Marks Nftables Decision.
From S2P Require Import Protocol Bus Pinning Storage Engine EngineLearning EngineControl EngineLaws.
From S2P Require Import EngineSafety.
From S2P Require Import Netlink EngineRuns.
Local Open Scope Z_scope.

(** ** The disk *)

Record Node : Type := mkNode {
  node_type : FileType;
  node_target : Path;
  node_uid : Z;
  node_mode : Z;
  node_bytes : Bytes
}.

(** Errors that a call may report for reasons of its own, and how much of a
    write was done before. *)
Inductive FaultKind : Type := EIO | EACCES | EMFILE | ENOSPC | EROFS.
Record Fault : Type := mkFault { fault_kind : FaultKind; fault_after : nat }.
Definition fault_error (f : Fault) : IoError :=
  OtherIo match f.(fault_kind) with
          | EIO => 5 | EACCES => 13 | EMFILE => 24 | ENOSPC => 28 | EROFS => 30
          end.

Record Disk : Type := mkDisk {
  names : gmap Path nat;
  nodes : gmap nat Node;
  process_uid : Z;
  umask : Z;
  faults : list (option Fault);
  uuids : list Uuid
}.

Definition set_names (v : gmap Path nat) (d : Disk) : Disk :=
  mkDisk v d.(nodes) d.(process_uid) d.(umask) d.(faults) d.(uuids).
Definition set_nodes (v : gmap nat Node) (d : Disk) : Disk :=
  mkDisk d.(names) v d.(process_uid) d.(umask) d.(faults) d.(uuids).

Definition node_at (d : Disk) (p : Path) : option Node :=
  d.(names) !! p ≫= fun n => d.(nodes) !! n.

(** A call takes the next fault; a failing call changes nothing but for what
    [partial] says. *)
Definition faulty {A} (partial : Fault -> Disk -> Disk) (m : ST Disk IoError A)
    : ST Disk IoError A := fun d =>
  match d.(faults) with
  | [] => m d
  | fault :: rest =>
      let d := mkDisk d.(names) d.(nodes) d.(process_uid) d.(umask) rest d.(uuids) in
      match fault with
      | None => m d
      | Some fault => (partial fault d, Err (fault_error fault))
      end
  end.
Definition system_call {A} (m : ST Disk IoError A) : ST Disk IoError A := faulty (fun _ d => d) m.

Definition stat_of (n : Node) : Stat := mkStat n.(node_type) n.(node_uid) n.(node_mode).

Definition disk_symlink_metadata (p : Path) : ST Disk IoError Stat :=
  system_call (fun d => (d, ok_or ENOENT (stat_of <$> node_at d p))).

Definition disk_open_nofollow (p : Path) : ST Disk IoError nat :=
  system_call (fun d =>
    (d, match d.(names) !! p with
        | None => Err ENOENT
        | Some n =>
            match d.(nodes) !! n with
            | None => Err ENOENT
            | Some node => if node.(node_type) ==? SymlinkFile then Err (OtherIo 40) else Ok n
            end
        end)).

Fixpoint resolve (hops : nat) (d : Disk) (p : Path) : Result IoError nat :=
  match d.(names) !! p with
  | None => Err ENOENT
  | Some n =>
      match d.(nodes) !! n with
      | None => Err ENOENT
      | Some node =>
          if node.(node_type) ==? SymlinkFile then
            match hops with O => Err (OtherIo 40) | S hops => resolve hops d node.(node_target) end
          else Ok n
      end
  end.
Definition disk_open_follow (p : Path) : ST Disk IoError nat :=
  system_call (fun d => (d, resolve 40 d p)).

Definition fresh_node (d : Disk) : nat := fresh (dom d.(nodes) ∪ map_img (SA := gset nat) d.(names)).

Definition disk_create_new (p : Path) (mode : Z) : ST Disk IoError nat :=
  system_call (fun d =>
    match d.(names) !! p with
    | Some _ => (d, Err (OtherIo 17))
    | None =>
        match Path_parent p ≫= node_at d with
        | None => (d, Err ENOENT)
        | Some directory =>
            if directory.(node_type) ==? DirectoryFile then
              let n := fresh_node d in
              (set_names (<[p := n]> d.(names))
                 (set_nodes (<[n := mkNode RegularFile [] d.(process_uid)
                                      (Z.ldiff mode d.(umask)) []]> d.(nodes)) d),
               Ok n)
            else (d, Err (OtherIo 20))
        end
    end).

Definition disk_file_metadata (n : nat) : ST Disk IoError Stat :=
  system_call (fun d => (d, ok_or (OtherIo 9) (stat_of <$> d.(nodes) !! n))).

Definition disk_read_to_end (n : nat) (limit : Z) : ST Disk IoError Bytes :=
  system_call (fun d =>
    (d, match d.(nodes) !! n with
        | None => Err (OtherIo 9)
        | Some node =>
            if node.(node_type) ==? DirectoryFile then Err (OtherIo 21)
            else Ok (take (Z.to_nat limit) node.(node_bytes))
        end)).

Definition append_bytes (n : nat) (bytes : Bytes) (d : Disk) : Disk :=
  set_nodes (alter (fun node => mkNode node.(node_type) node.(node_target) node.(node_uid)
                                  node.(node_mode) (node.(node_bytes) ++ bytes)) n d.(nodes)) d.
Definition disk_write_all (n : nat) (bytes : Bytes) : ST Disk IoError unit :=
  faulty (fun fault => append_bytes n (take fault.(fault_after) bytes))
    (fun d => (append_bytes n bytes d, Ok tt)).

Definition disk_sync_all (n : nat) : ST Disk IoError unit := system_call (fun d => (d, Ok tt)).

Definition disk_rename (from to : Path) : ST Disk IoError unit :=
  system_call (fun d =>
    match d.(names) !! from, node_at d from with
    | Some n, Some node =>
        if bool_decide (d.(names) !! to = Some n) then (d, Ok tt)
        else if is_some_and (fun target => target.(node_type) ==? DirectoryFile) (node_at d to)
        then (d, Err (OtherIo 21))
        else (set_names (<[to := n]> (delete from d.(names))) d, Ok tt)
    | _, _ => (d, Err ENOENT)
    end).

Definition disk_remove_file (p : Path) : ST Disk IoError unit :=
  system_call (fun d =>
    match node_at d p with
    | None => (d, Err ENOENT)
    | Some node =>
        if node.(node_type) ==? DirectoryFile then (d, Err (OtherIo 21))
        else (set_names (delete p d.(names)) d, Ok tt)
    end).

Definition disk_new_v4 (d : Disk) : Disk * Uuid :=
  match d.(uuids) with
  | [] => (d, 0)
  | uuid :: rest =>
      (mkDisk d.(names) d.(nodes) d.(process_uid) d.(umask) d.(faults) rest, uuid)
  end.

#[export] Instance Disk_fs : FileSystem Disk := {|
  Handle := nat;
  symlink_metadata := disk_symlink_metadata;
  open_nofollow := disk_open_nofollow;
  open_follow := disk_open_follow;
  create_new := disk_create_new;
  file_metadata := disk_file_metadata;
  read_to_end := disk_read_to_end;
  write_all := disk_write_all;
  sync_all := disk_sync_all;
  rename := disk_rename;
  remove_file := disk_remove_file;
  new_v4 := disk_new_v4
|}.

(** ** Calls that change no file *)

Definition same_files (d d' : Disk) : Prop := names d' = names d /\ nodes d' = nodes d.

Definition reading {E A} (m : ST Disk E A) : Prop := forall d d' r, m d = (d', r) -> same_files d d'.

Lemma same_files_at d d' p : same_files d d' -> node_at d' p = node_at d p.
Proof. intros [Hn Hd]. unfold node_at. by rewrite Hn, Hd. Qed.

Lemma reading_system_call {A} (f : Disk -> Result IoError A) : reading (system_call (fun d => (d, f d))).
Proof.
  intros d d' r. unfold system_call, faulty. destruct (faults d) as [|[fault|] rest]; by intros [= <- _].
Qed.

Lemma reading_bind {E A B} (m : ST Disk E A) (f : A -> ST Disk E B) :
  reading m -> (forall a, reading (f a)) -> reading (m ≫= f).
Proof.
  intros Hm Hf d d' r. rewrite run_bind. destruct (m d) as [d1 [a|e]] eqn:Hrun; intros H2.
  - destruct (Hm _ _ _ Hrun), (Hf a _ _ _ H2). split; congruence.
  - injection H2 as <- <-. by eapply Hm.
Qed.

Lemma reading_lift {E A} (r : Result E A) : reading (lift r).
Proof. by intros d d' r' [= <- _]. Qed.
Lemma reading_ret {E A} (a : A) : reading (mret a : ST Disk E A).
Proof. by intros d d' r' [= <- _]. Qed.
Lemma reading_storage_io {A} operation path (m : ST Disk IoError A) :
  reading m -> reading (storage_io operation path m).
Proof.
  intros Hm d d' r. unfold storage_io. destruct (m d) as [d1 r1] eqn:Hrun. intros [= <- _].
  by eapply Hm.
Qed.
Lemma reading_attempt {E E' A} (m : ST Disk E A) : reading m -> reading (attempt m : ST Disk E' _).
Proof.
  intros Hm d d' r. unfold attempt. destruct (m d) as [d1 r1] eqn:Hrun. intros [= <- _]. by eapply Hm.
Qed.
Lemma reading_new_v4 d d' u : disk_new_v4 d = (d', u) -> same_files d d'.
Proof. unfold disk_new_v4. destruct (uuids d); by intros [= <- _]. Qed.

Lemma reading_stat p : reading (symlink_metadata (F := Disk) p).
Proof. apply reading_system_call. Qed.
Lemma reading_open p : reading (open_nofollow (F := Disk) p).
Proof. apply reading_system_call. Qed.
Lemma reading_open_follow p : reading (open_follow (F := Disk) p).
Proof. apply reading_system_call. Qed.
Lemma reading_metadata (n : nat) : reading (file_metadata (F := Disk) n).
Proof. apply (reading_system_call (fun d => ok_or _ _)). Qed.
Lemma reading_read (n : nat) limit : reading (read_to_end (F := Disk) n limit).
Proof. apply (reading_system_call (fun d => match nodes d !! n with None => _ | Some node => _ end)). Qed.
Lemma reading_sync (n : nat) : reading (sync_all (F := Disk) n).
Proof. apply (reading_system_call (fun d => Ok tt)). Qed.

Create HintDb disk discriminated.
#[local] Hint Resolve reading_bind reading_lift reading_ret reading_storage_io reading_attempt
  reading_stat reading_open reading_open_follow reading_metadata reading_read reading_sync : disk.

Section Store.
Context `{JsonLib} `{!JsonCodec State}.
Variable self : AtomicStateStore.

Lemma reading_parent : reading (validate_parent (F := Disk) self).
Proof. unfold validate_parent. auto 12 with disk. Qed.
Lemma reading_existing : reading (validate_existing_file (F := Disk) self).
Proof.
  unfold validate_existing_file. apply reading_bind; [auto with disk|]. intros [metadata|error].
  - auto 12 with disk.
  - destruct (error ==? ENOENT); auto with disk.
Qed.

Lemma reading_load : reading (AtomicStateStore_load (F := Disk) self).
Proof.
  unfold AtomicStateStore_load. apply reading_bind; [apply reading_parent|intros parent].
  apply reading_bind; [apply reading_existing|]. intros [found|]; auto 20 with disk.
Qed.

(** ** What the state file holds *)

Definition private_node (node : Node) : bool :=
  (node_type node ==? RegularFile) && (node_uid node =? self.(required_owner))
  && (Z.land (node_mode node) 511 =? STATE_FILE_MODE).

(** The state in a node that may be loaded. *)
Definition state_of (node : Node) : option State :=
  if private_node node && (zlen (node_bytes node) <=? MAX_STATE_BYTES) then
    match json_from_slice (node_bytes node) with
    | Ok s => if is_ok (State_validate s) then Some s else None
    | Err _ => None
    end
  else None.

Definition on_disk_state (d : Disk) : option State := node_at d self.(store_path) ≫= state_of.

Lemma system_call_Ok {A} (f : Disk -> Result IoError A) d d' a :
  system_call (fun d => (d, f d)) d = (d', Ok a) -> exists d0, same_files d d0 /\ f d0 = Ok a.
Proof.
  unfold system_call, faulty. destruct (faults d) as [|[fault|] rest]; intros [= <- Hf].
  - exists d. by repeat split.
  - eexists. by split; [|exact Hf].
Qed.

Lemma open_at p d d' (n : nat) :
  open_nofollow p d = (d', Ok n) ->
  exists node, names d !! p = Some n /\ nodes d !! n = Some node /\ node_type node <> SymlinkFile.
Proof.
  intros (d0 & [Hn Hd] & Hopen)%system_call_Ok. rewrite Hn, Hd in Hopen.
  destruct (names d !! p) as [m|]; [|done]. destruct (nodes d !! m) as [node|] eqn:Hnode; [|done].
  destruct (_ ==? SymlinkFile) eqn:Ht; [done|]. injection Hopen as ->. rewrite eqb_false in Ht. eauto.
Qed.

Lemma metadata_at (n : nat) d d' md :
  file_metadata n d = (d', Ok md) -> exists node, nodes d !! n = Some node /\ md = stat_of node.
Proof.
  intros (d0 & [_ Hd] & Hmd)%(system_call_Ok (fun d => ok_or (OtherIo 9) (stat_of <$> nodes d !! n))).
  rewrite Hd in Hmd. destruct (nodes d !! n) as [node|]; [|done]. injection Hmd as <-. eauto.
Qed.

Lemma read_at (n : nat) limit d d' bytes :
  read_to_end n limit d = (d', Ok bytes) ->
  exists node, nodes d !! n = Some node /\ bytes = take (Z.to_nat limit) (node_bytes node).
Proof.
  intros (d0 & [_ Hd] & Hrd)%(system_call_Ok (fun d =>
    match nodes d !! n with
    | None => Err (OtherIo 9)
    | Some node => if node_type node ==? DirectoryFile then Err (OtherIo 21)
                   else Ok (take (Z.to_nat limit) (node_bytes node))
    end)).
  rewrite Hd in Hrd. destruct (nodes d !! n) as [node|]; [|done].
  destruct (_ ==? DirectoryFile); [done|]. injection Hrd as <-. eauto.
Qed.

Lemma stat_absent d d' p :
  symlink_metadata p d = (d', Err ENOENT) -> node_at d p = None.
Proof.
  cbn [symlink_metadata Disk_fs]. unfold disk_symlink_metadata, system_call, faulty.
  assert (Hn : forall d0, same_files d d0 -> ok_or ENOENT (stat_of <$> node_at d0 p) = Err ENOENT ->
                 node_at d p = None).
  { intros d0 Hs. rewrite (same_files_at _ _ _ Hs). by destruct (node_at d p). }
  destruct (faults d) as [|[fault|] rest]; intros [= _ Hr].
  - by eapply Hn.
  - unfold fault_error in Hr. by destruct (fault_kind fault).
  - by eapply Hn; [|exact Hr].
Qed.

Lemma existing_absent d d' :
  validate_existing_file self d = (d', Ok None) -> node_at d self.(store_path) = None.
Proof.
  unfold validate_existing_file. intros (r & d1 & Hstat & Hrun)%run_bind_Ok.
  rewrite attempt_Ok in Hstat. destruct r as [metadata|error].
  - apply run_seq_Ok in Hrun as [_ Hrun]. apply run_seq_Ok in Hrun as [_ Hrun].
    apply run_seq_Ok in Hrun as [_ Hrun]. by apply run_ret in Hrun as [_ [=]].
  - destruct (error ==? ENOENT) eqn:He; [|done]. rewrite eqb_true in He. subst error.
    by eapply stat_absent.
Qed.

Lemma load_reads_disk d d' r :
  AtomicStateStore_load self d = (d', r) ->
  on_disk_state d' = on_disk_state d /\ forall o, r = Ok o -> o = on_disk_state d.
Proof.
  intros Hrun. pose proof (reading_load _ _ _ Hrun) as Hs.
  split; [unfold on_disk_state; by rewrite (same_files_at _ _ _ Hs)|].
  intros o ->. apply load_Ok in Hrun as (d1 & parent & Hp & Hrun).
  apply reading_parent in Hp. unfold on_disk_state. rewrite <-(same_files_at _ _ _ Hp).
  destruct Hrun as [[-> Habs]|(d2 & d3 & d4 & found & file & md & bytes & s & Hex & Hopen & Hmd & Ht & Hpr & Hrd & Hlen & Hjson & Hval & ->)].
  { by rewrite (existing_absent _ _ Habs). }
  apply reading_existing in Hex. rewrite <-(same_files_at _ _ _ Hex).
  pose proof (reading_open _ _ _ _ Hopen) as [_ Hs3]. pose proof (reading_metadata _ _ _ _ Hmd) as [_ Hs4].
  apply open_at in Hopen as (node & Hn & Hnode & _). apply metadata_at in Hmd as (node' & Hnode' & ->).
  apply read_at in Hrd as (node'' & Hnode'' & ->). rewrite Hs4, Hs3 in Hnode''. rewrite Hs3 in Hnode'.
  assert (node' = node) as -> by congruence. assert (node'' = node) as -> by congruence.
  unfold node_at. rewrite Hn. cbn [mbind option_bind]. rewrite Hnode. cbn [mbind option_bind].
  destruct Hpr as [Huid Hmode]. cbn [st_uid st_mode st_type stat_of] in *.
  assert (Hall : take (Z.to_nat (MAX_STATE_BYTES + 1)) (node_bytes node) = node_bytes node).
  { apply take_ge. unfold zlen in Hlen. rewrite length_take in Hlen. unfold MAX_STATE_BYTES in *. lia. }
  rewrite Hall in *. unfold state_of, private_node.
  rewrite Ht, eqb_refl, Huid, Z.eqb_refl, Hmode, Z.eqb_refl. cbn [andb].
  apply Z.leb_le in Hlen. by rewrite Hlen, Hjson, Hval.
Qed.

(** ** What a save does to the disk *)

Lemma create_at p mode d d' (r : Result IoError nat) :
  create_new p mode d = (d', r) ->
  match r with
  | Ok n =>
      names d !! p = None /\ (forall q, names d !! q <> Some n) /\ nodes d !! n = None
      /\ names d' = <[p := n]> (names d)
      /\ exists u m, nodes d' = <[n := mkNode RegularFile [] u m []]> (nodes d)
  | Err _ => same_files d d'
  end.
Proof.
  cbn [create_new Disk_fs]. unfold disk_create_new.
  set (body := fun d => match names d !! p with Some _ => _ | None => _ end).
  assert (Hbody : forall d0, same_files d d0 -> body d0 = (d', r) -> match r with
    | Ok n => names d !! p = None /\ (forall q, names d !! q <> Some n) /\ nodes d !! n = None
              /\ names d' = <[p := n]> (names d)
              /\ exists u m, nodes d' = <[n := mkNode RegularFile [] u m []]> (nodes d)
    | Err _ => same_files d d' end).
  { intros d0 [Hn Hd]. unfold body. rewrite Hn. destruct (names d !! p) eqn:Hp; [by intros [= <- <-]|].
    destruct (Path_parent p ≫= node_at d0) as [directory|]; [|by intros [= <- <-]].
    destruct (_ ==? DirectoryFile); [|by intros [= <- <-]]. rewrite Hd. intros [= <- <-].
    cbn [names nodes set_names set_nodes].
    pose proof (is_fresh (dom (nodes d0) ∪ map_img (SA := gset nat) (names d0))) as Hf.
    fold (fresh_node d0) in Hf. apply not_elem_of_union in Hf as [Hf1 Hf2].
    rewrite Hd in Hf1. rewrite Hn in Hf2. split_and!; try done.
    - intros q Hq. apply Hf2. by eapply elem_of_map_img_2.
    - by apply not_elem_of_dom.
    - by do 2 eexists. }
  unfold system_call, faulty. destruct (faults d) as [|[fault|] rest].
  - by apply Hbody.
  - by intros [= <- <-].
  - by apply Hbody.
Qed.

Lemma write_at (n : nat) bytes d d' r node :
  nodes d !! n = Some node ->
  write_all n bytes d = (d', r) ->
  names d' = names d
  /\ exists written, nodes d' = <[n := mkNode (node_type node) (node_target node) (node_uid node)
                                       (node_mode node) (node_bytes node ++ written)]> (nodes d)
     /\ (r = Ok tt -> written = bytes).
Proof.
  intros Hnode. cbn [write_all Disk_fs]. unfold disk_write_all, faulty.
  assert (Halter : forall w, alter (fun node => mkNode (node_type node) (node_target node) (node_uid node)
      (node_mode node) (node_bytes node ++ w)) n (nodes d)
    = <[n := mkNode (node_type node) (node_target node) (node_uid node) (node_mode node)
          (node_bytes node ++ w)]> (nodes d)).
  { intros w. apply map_eq. intros k. destruct (decide (k = n)) as [->|Hk].
    - by rewrite lookup_alter_eq, Hnode, lookup_insert_eq.
    - by rewrite lookup_alter_ne, lookup_insert_ne. }
  unfold append_bytes. destruct (faults d) as [|[fault|] rest]; intros [= <- <-]; (split; [done|]);
    cbn [nodes set_nodes]; rewrite Halter; eauto.
  eexists. split; [done|]. by intros [=].
Qed.

Lemma rename_at p to d d' r (n : nat) node :
  names d !! p = Some n -> nodes d !! n = Some node -> names d !! to <> Some n ->
  rename p to d = (d', r) ->
  nodes d' = nodes d
  /\ match r with
     | Ok _ => names d' = <[to := n]> (delete p (names d))
     | Err _ => names d' = names d
     end.
Proof.
  intros Hp Hn Hto. cbn [rename Disk_fs]. unfold disk_rename, system_call, faulty.
  assert (Hat : forall d0, same_files d d0 -> names d0 !! p = Some n /\ node_at d0 p = Some node
                 /\ bool_decide (names d0 !! to = Some n) = false).
  { intros d0 [E1 E2]. unfold node_at. rewrite E1, E2, Hp. split_and!; [done|done|].
    by apply bool_decide_eq_false. }
  destruct (faults d) as [|[fault|] rest]; [|by intros [= <- <-]|].
  - destruct (Hat d) as (-> & -> & ->); [done|]. destruct (is_some_and _ _); by intros [= <- <-].
  - destruct (Hat (mkDisk (names d) (nodes d) (process_uid d) (umask d) rest (uuids d))) as (-> & -> & ->);
      [done|]. destruct (is_some_and _ _); by intros [= <- <-].
Qed.

(** Nothing but the node of the temporary file has changed. *)
Definition only_node (n : nat) (d d' : Disk) : Prop :=
  names d' = names d /\ forall k, k <> n -> nodes d' !! k = nodes d !! k.

(** The state file is the temporary file with all of the bytes. *)
Definition replaced (p : Path) (n : nat) (bytes : Bytes) (d d' : Disk) : Prop :=
  names d' = <[self.(store_path) := n]> (delete p (names d))
  /\ exists node, nodes d' !! n = Some node /\ private_node node = true /\ node_bytes node = bytes.

Lemma same_only n d d1 d2 : same_files d d1 -> only_node n d1 d2 -> only_node n d d2.
Proof. intros [Hn Hd] [Hn' Hd']. split; [congruence|]. intros k Hk. rewrite Hd', Hd by done. done. Qed.
Lemma only_same n d d1 d2 : only_node n d d1 -> same_files d1 d2 -> only_node n d d2.
Proof. intros [Hn Hd] [Hn' Hd']. split; [congruence|]. intros k Hk. rewrite Hd', Hd by done. done. Qed.
Lemma same_is_only n d d' : same_files d d' -> only_node n d d'.
Proof. intros [Hn Hd]. split; [done|]. intros k _. by rewrite Hd. Qed.

Lemma install_spec {A} p path (n : nat) node (k : unit -> ST Disk StorageError A) d d' r operation :
  names d !! p = Some n -> nodes d !! n = Some node -> names d !! path <> Some n ->
  (forall x, reading (k x)) ->
  (storage_io operation path (rename p path) ≫= k) d = (d', r) ->
  (is_ok r = false /\ same_files d d')
  \/ (names d' = <[path := n]> (delete p (names d)) /\ nodes d' = nodes d).
Proof.
  intros Hp Hn Hpath Hk. rewrite run_bind. unfold storage_io at 1.
  destruct (rename p path d) as [d4 r4] eqn:Hren.
  apply (rename_at _ _ _ _ _ n node) in Hren as [Hd4 Hn4]; [|done|done|done].
  destruct r4 as [[]|e]; cbn [map_err].
  - intros [Hn5 Hd5]%Hk. right. split; congruence.
  - intros [= <- <-]. by left.
Qed.

(** Writing the temporary file, before it is renamed. *)
Lemma fill_spec {A} p (n : nat) bytes node (k : ST Disk StorageError A) d d' r o o' :
  nodes d !! n = Some node -> node_bytes node = [] ->
  (storage_io o p (write_all n bytes) ;; storage_io o' p (sync_all n) ;; k) d = (d', r) ->
  (is_ok r = false /\ only_node n d d')
  \/ exists d1, only_node n d d1 /\ k d1 = (d', r)
     /\ nodes d1 !! n = Some (mkNode (node_type node) (node_target node) (node_uid node)
                                (node_mode node) bytes).
Proof.
  intros Hnode Hempty. rewrite run_bind. unfold storage_io at 1.
  cbn [write_all sync_all Disk_fs]. destruct (disk_write_all n bytes d) as [d2 r2] eqn:Hw.
  apply (write_at _ _ _ _ _ node Hnode) in Hw as [Hn2 (written & Hd2 & Hok)].
  assert (Honly : only_node n d d2).
  { split; [done|]. intros j Hj. by rewrite Hd2, lookup_insert_ne. }
  destruct r2 as [[]|e]; cbn [map_err]; [|intros [= <- <-]; by left].
  rewrite (Hok eq_refl), Hempty in Hd2. rewrite run_bind.
  destruct (storage_io _ p (disk_sync_all n) d2) as [d3 r3] eqn:Hsync.
  apply reading_storage_io in Hsync; [|apply reading_sync].
  destruct r3 as [[]|e].
  - intros Hk. right. exists d3. split_and!; [by eapply only_same|done|].
    destruct Hsync as [_ ->]. by rewrite Hd2, lookup_insert_eq.
  - intros [= <- <-]. left. split; [done|]. by eapply only_same.
Qed.

Lemma replace_spec (n : nat) p parent bytes d d' r u m :
  names d !! p = Some n -> names d !! self.(store_path) <> Some n ->
  nodes d !! n = Some (mkNode RegularFile [] u m []) ->
  replace_state_file self n p parent bytes d = (d', r) ->
  (is_ok r = false /\ only_node n d d') \/ replaced p n bytes d d'.
Proof.
  intros Hp Hpath Hnode. unfold replace_state_file. rewrite run_bind. cbn [file_metadata Disk_fs].
  destruct (storage_io _ p (disk_file_metadata n) d) as [d1 r1] eqn:Hstat.
  assert (Hs1 : same_files d d1) by (eapply reading_storage_io; [|exact Hstat]; apply reading_metadata).
  destruct r1 as [md|e]; [|intros [= <- <-]; left; split; [done|by apply same_is_only]].
  apply storage_io_Ok, metadata_at in Hstat as (node & Hnode1 & ->). rewrite Hnode in Hnode1.
  injection Hnode1 as <-.
  rewrite run_lift. destruct (validate_owner _ _ _) as [[]|] eqn:Howner;
    [|intros [= <- <-]; left; split; [done|by apply same_is_only]].
  rewrite run_lift. destruct (validate_mode _ _) as [[]|] eqn:Hmode;
    [|intros [= <- <-]; left; split; [done|by apply same_is_only]].
  apply validate_owner_Ok in Howner. apply validate_mode_Ok in Hmode.
  cbn [st_uid st_mode stat_of node_uid node_mode] in Howner, Hmode.
  intros Hfill. apply (fill_spec _ _ _ (mkNode RegularFile [] u m [])) in Hfill; [|by destruct Hs1 as [_ ->]|done].
  destruct Hfill as [[Hr Honly]|(d2 & Honly & Hrun & Hnode2)].
  { left. split; [done|]. by eapply same_only. }
  assert (Honly2 : only_node n d d2) by (by eapply same_only). destruct Honly2 as [Hn2 Hd2].
  eapply install_spec in Hrun; [|by rewrite Hn2|exact Hnode2|by rewrite Hn2|auto with disk].
  destruct Hrun as [[Hr Hsame]|[Hn3 Hd3]].
  - left. split; [done|]. by eapply only_same; [split|].
  - right. split; [by rewrite Hn3, Hn2|]. rewrite Hd3. eexists. split_and!; [exact Hnode2| |done].
    unfold private_node. cbn [node_type node_uid node_mode]. by rewrite eqb_refl, Howner, Z.eqb_refl, Hmode.
Qed.

Lemma remove_at p d d' (r : Result IoError unit) :
  remove_file p d = (d', r) ->
  nodes d' = nodes d /\ (names d' = names d \/ names d' = delete p (names d)).
Proof.
  cbn [remove_file Disk_fs]. unfold disk_remove_file, system_call, faulty.
  destruct (faults d) as [|[fault|] rest]; [|intros [= <- <-]; tauto|];
    (destruct (node_at _ p); [destruct (_ ==? DirectoryFile)|]; intros [= <- <-]; tauto).
Qed.

(** What a save leaves behind: the file as it was, or the new state in a new
    node. *)
Inductive saved (s : State) (d d' : Disk) : bool -> Prop :=
| saved_nothing :
    node_at d' self.(store_path) = node_at d self.(store_path) -> saved s d d' false
| saved_state ok n node bytes :
    json_to_vec s = Ok bytes -> zlen bytes <= MAX_STATE_BYTES -> State_validate s = Ok tt ->
    names d' = <[self.(store_path) := n]> (names d) -> nodes d' !! n = Some node ->
    private_node node = true -> node_bytes node = bytes -> saved s d d' ok.

(** The tail of [save] after the temporary file has been created. *)
Lemma finish_spec s p (n : nat) parent bytes d d1 d' r u m :
  json_to_vec s = Ok bytes -> zlen bytes <= MAX_STATE_BYTES -> State_validate s = Ok tt ->
  p <> self.(store_path) -> names d !! p = None -> (forall q, names d !! q <> Some n) ->
  nodes d !! n = None -> names d1 = <[p := n]> (names d) ->
  nodes d1 = <[n := mkNode RegularFile [] u m []]> (nodes d) ->
  (result ← attempt (replace_state_file self n p parent bytes);
   (if is_ok result then mret tt else attempt (remove_file p) ≫= fun _ => mret tt) ;;
   lift result : ST Disk StorageError unit) d1 = (d', r) ->
  saved s d d' (is_ok r).
Proof.
  intros Hjson Hlen Hval Hp Hfree Hfresh Hnew Hn1 Hd1. rewrite run_bind. unfold attempt at 1.
  destruct (replace_state_file self _ p parent bytes d1) as [d2 r2] eqn:Hrep. rewrite run_bind.
  set (cleanup := if is_ok r2 then _ else _). destruct (cleanup d2) as [d3 r3] eqn:Hclean.
  assert (Hd3 : nodes d3 = nodes d2
    /\ (names d3 = names d2 \/ (is_ok r2 = false /\ names d3 = delete p (names d2))) /\ r3 = Ok tt).
  { unfold cleanup in Hclean. destruct (is_ok r2); [by injection Hclean as <- <-; auto|].
    rewrite run_bind in Hclean. unfold attempt in Hclean.
    destruct (remove_file p d2) as [d4 r4] eqn:Hrm. injection Hclean as <- <-.
    apply remove_at in Hrm as [? [?|?]]; auto. }
  destruct Hd3 as (Hd3 & Hn3 & ->). intros [= <- <-].
  eapply replace_spec in Hrep; [|by rewrite Hn1, lookup_insert_eq
    |by rewrite Hn1, lookup_insert_ne|by rewrite Hd1, lookup_insert_eq].
  destruct Hrep as [[-> [Hn2 Hd2]]|(Hn2 & node & Hnode & Hpriv & Hbytes)].
  - apply saved_nothing. unfold node_at.
    assert (names d3 !! self.(store_path) = names d !! self.(store_path)) as ->.
    { destruct Hn3 as [->|[_ ->]]; rewrite ?lookup_delete_ne by done; by rewrite Hn2, Hn1, lookup_insert_ne. }
    destruct (names d !! self.(store_path)) as [k|] eqn:Hk; [|done]. cbn [mbind option_bind].
    assert (k <> n) by (intros ->; by apply (Hfresh self.(store_path))).
    by rewrite Hd3, Hd2, Hd1, lookup_insert_ne.
  - rewrite Hn1, delete_insert_id in Hn2 by done.
    apply (saved_state _ _ _ _ n node bytes); try done; [|by rewrite Hd3].
    destruct Hn3 as [->|[_ ->]]; [done|]. rewrite Hn2, delete_id; [done|]. by rewrite lookup_insert_ne.
Qed.

Lemma reading_temporary : reading (temporary_path (F := Disk) self).
Proof.
  unfold temporary_path. apply reading_bind; [apply reading_lift|]. intros name.
  apply reading_bind; [|auto with disk]. intros d d' r. unfold fresh_uuid.
  destruct (new_v4 d) as [d1 u] eqn:Hu. intros [= <- _]. by eapply reading_new_v4.
Qed.

Lemma save_spec s d d' r : AtomicStateStore_save self s d = (d', r) -> saved s d d' (is_ok r).
Proof.
  unfold AtomicStateStore_save. rewrite run_lift.
  assert (Hsame : forall d1, same_files d d1 -> saved s d d1 false)
    by (intros d1 Hs; apply saved_nothing; by apply same_files_at).
  destruct (State_validate s) as [[]|] eqn:Hval; cbn [map_err]; [|intros [= <- <-]; by apply Hsame].
  rewrite run_bind. destruct (validate_parent self d) as [d1 r1] eqn:Hp. apply reading_parent in Hp.
  destruct r1 as [parent|]; [|intros [= <- <-]; by apply Hsame].
  rewrite run_bind. destruct (validate_existing_file self d1) as [d2 r2] eqn:Hex.
  apply reading_existing in Hex. assert (Hs2 : same_files d d2) by (destruct Hp, Hex; split; congruence).
  destruct r2 as [existing|]; [|intros [= <- <-]; by apply Hsame].
  rewrite run_lift. destruct (json_to_vec s) as [bytes|] eqn:Hjson; cbn [map_err];
    [|intros [= <- <-]; by apply Hsame].
  rewrite run_lift. destruct (fail_if _ _) as [[]|] eqn:Hlen; [|intros [= <- <-]; by apply Hsame].
  apply fail_if_Ok, Z.ltb_ge in Hlen.
  rewrite run_bind. destruct (temporary_path self d2) as [d3 r3] eqn:Ht.
  pose proof (reading_temporary _ _ _ Ht) as Hs3.
  assert (Hs : same_files d d3) by (destruct Hs2, Hs3; split; congruence).
  destruct r3 as [p|]; [|intros [= <- <-]; by apply Hsame]. apply temporary_path_new in Ht.
  rewrite run_bind. unfold storage_io at 1.
  destruct (create_new p STATE_FILE_MODE d3) as [d4 r4] eqn:Hc. apply create_at in Hc.
  destruct r4 as [n|e]; cbn [map_err].
  - destruct Hs as [Hn Hd], Hc as (Hc1 & Hc2 & Hc3 & Hc4 & u & m & Hc5). rewrite Hn in *. rewrite Hd in *.
    intros Hrun. by eapply finish_spec.
  - intros [= <- <-]. apply Hsame. destruct Hs, Hc. split; congruence.
Qed.
End Store.

(** ** The promises of the store *)

Section Laws.
Context `{JsonLib} `{!JsonCodec State} `{!JsonCodecLaws State}.
(** A revision is read as a [u64]. *)
Hypothesis decoded_revision : forall bytes s,
  json_from_slice (T := State) bytes = Ok s -> 0 <= revision s <= U64_MAX.
Variable self : AtomicStateStore.

Lemma saved_state_of s node bytes :
  json_to_vec s = Ok bytes -> zlen bytes <= MAX_STATE_BYTES -> State_validate s = Ok tt ->
  private_node self node = true -> node_bytes node = bytes -> state_of self node = Some s.
Proof.
  intros Hjson Hlen Hval Hpriv Hbytes. unfold state_of. rewrite Hpriv, Hbytes.
  apply Z.leb_le in Hlen. rewrite Hlen. cbn [andb].
  assert (json_from_slice bytes = Ok s) as ->; [|by rewrite Hval].
  unfold json_to_vec in Hjson. destruct (json_writes s) as [chunks [e|]] eqn:Hw; [done|].
  injection Hjson as <-. by apply json_round_trip.
Qed.

Lemma saved_on_disk s d d' ok :
  saved self s d d' ok ->
  (on_disk_state self d' = Some s)
  \/ (ok = false /\ on_disk_state self d' = on_disk_state self d).
Proof.
  unfold on_disk_state. intros [Hat|ok' n node bytes Hj Hl Hv Hn Hd Hp Hb].
  - right. by rewrite Hat.
  - left. unfold node_at. rewrite Hn, lookup_insert_eq. cbn [mbind option_bind]. rewrite Hd.
    cbn [mbind option_bind]. by eapply saved_state_of.
Qed.

Lemma load_validates_disk d d' s :
  AtomicStateStore_load self d = (d', Ok (Some s)) -> state_ok s.
Proof.
  intros (d1 & parent & _ & [[[=] _]|Hread])%load_Ok.
  destruct Hread as (? & ? & ? & ? & ? & ? & bytes & s' & _ & _ & _ & _ & _ & _ & _ & Hj & Hv & [= <-]).
  apply State_validate_Ok in Hv as (? & ? & ? & _). apply decoded_revision in Hj. by split.
Qed.

Lemma save_writes_disk s d d' :
  AtomicStateStore_save self s d = (d', Ok tt) -> on_disk_state self d' = Some s.
Proof. intros [?|[[=] _]]%save_spec%saved_on_disk. done. Qed.

Lemma save_replaces_disk s d d' error :
  AtomicStateStore_save self s d = (d', Err error) ->
  on_disk_state self d' = on_disk_state self d \/ on_disk_state self d' = Some s.
Proof. intros [?|[_ ?]]%save_spec%saved_on_disk; tauto. Qed.

Definition AtomicStateStore_laws : @StoreLaws Disk (AtomicStateStore_ops self) :=
  @Build_StoreLaws Disk (AtomicStateStore_ops self) (on_disk_state self)
    (load_reads_disk self) load_validates_disk save_writes_disk save_replaces_disk.

(** C29: saving replaces the state file as a whole.  Whichever call fails, the
    file holds afterwards the state it held before or the new one, and the new
    one if the save reports success; then no other name has been added. *)
Theorem state_file_is_replaced_atomically s d d' r :
  AtomicStateStore_save self s d = (d', r) ->
  (on_disk_state self d' = on_disk_state self d \/ on_disk_state self d' = Some s)
  /\ (r = Ok tt -> on_disk_state self d' = Some s
                  /\ dom (names d') = {[self.(store_path)]} ∪ dom (names d)).
Proof.
  intros Hrun. apply save_spec in Hrun. pose proof (saved_on_disk _ _ _ _ Hrun) as Hdisk.
  split; [tauto|]. intros ->. split; [by destruct Hdisk as [?|[[=] _]]|].
  inversion Hrun as [|ok n node bytes _ _ _ Hn]. rewrite Hn. by rewrite dom_insert_L.
Qed.
End Laws.

(** ** Saving and loading without faults *)

Section Quiet.
Context `{JsonLib} `{!JsonCodec State} `{!JsonCodecLaws State}.
Variable self : AtomicStateStore.

Lemma quiet_call {A} partial (m : ST Disk IoError A) d : faults d = [] -> faulty partial m d = m d.
Proof. intros Hf. unfold faulty. by rewrite Hf. Qed.

(** The directory is owned by the service and nobody else may write to it. *)
Definition secure_directory (d : Disk) (parent : Path) : Prop :=
  Path_parent self.(store_path) = Some parent /\ parent <> []
  /\ exists node, node_at d parent = Some node /\ node_type node = DirectoryFile
     /\ node_uid node = self.(required_owner) /\ Z.land (Z.land (node_mode node) 511) 18 = 0.

Lemma secure_parent d parent :
  faults d = [] -> secure_directory d parent -> validate_parent self d = (d, Ok parent).
Proof.
  intros Hf (Hp & Hne & node & Hnode & Ht & Hu & Hm). unfold validate_parent. rewrite Hp.
  cbn [option_filter]. destruct (_ !=? _) eqn:He; [|by rewrite negb_false_iff, eqb_true in He].
  rewrite run_lift. cbn [ok_or]. rewrite run_bind. unfold storage_io. cbn [symlink_metadata Disk_fs].
  unfold disk_symlink_metadata, system_call. rewrite quiet_call by done. rewrite Hnode.
  cbn [fmap option_fmap option_map ok_or map_err stat_of st_type st_uid st_mode].
  rewrite Ht, eqb_refl, run_lift. cbn [ensure].
  rewrite run_lift, (proj2 (validate_owner_Ok _ _ _)) by exact Hu. by rewrite run_lift, Hm.
Qed.

Lemma private_existing d node :
  faults d = [] -> node_at d self.(store_path) = Some node -> private_node self node = true ->
  validate_existing_file self d = (d, Ok (Some (stat_of node))).
Proof.
  intros Hf Hnode Hpriv. unfold private_node in Hpriv. rewrite !andb_true_iff in Hpriv.
  destruct Hpriv as [[Ht Hu] Hm]. unfold validate_existing_file. rewrite run_bind. unfold attempt.
  cbn [symlink_metadata Disk_fs]. unfold disk_symlink_metadata, system_call.
  rewrite quiet_call by done. rewrite Hnode.
  cbn [fmap option_fmap option_map ok_or stat_of st_type]. rewrite Ht, run_lift. cbn [ensure].
  rewrite run_lift, (proj2 (validate_owner_Ok _ _ _)) by (by apply Z.eqb_eq).
  by rewrite run_lift, (proj2 (validate_mode_Ok _ _)) by (by apply Z.eqb_eq).
Qed.

Lemma absent_existing d :
  faults d = [] -> node_at d self.(store_path) = None ->
  validate_existing_file self d = (d, Ok None).
Proof.
  intros Hf Hnode. unfold validate_existing_file. rewrite run_bind. unfold attempt.
  cbn [symlink_metadata Disk_fs]. unfold disk_symlink_metadata, system_call.
  rewrite quiet_call by done. by rewrite Hnode.
Qed.

Lemma quiet_load d parent s :
  faults d = [] -> secure_directory d parent -> on_disk_state self d = Some s ->
  AtomicStateStore_load self d = (d, Ok (Some s)).
Proof.
  intros Hf Hdir Hs. unfold on_disk_state in Hs.
  destruct (node_at d (store_path self)) as [node|] eqn:Hat; [|done]. cbn [mbind option_bind] in Hs.
  unfold state_of in Hs. destruct (private_node self node) eqn:Hpriv; [|done].
  destruct (_ <=? MAX_STATE_BYTES) eqn:Hlen; [|done]. cbn [andb] in Hs.
  destruct (json_from_slice _) as [s'|] eqn:Hjson; [|done].
  destruct (State_validate s') as [[]|] eqn:Hval; [|done]. cbn [is_ok] in Hs. injection Hs as ->.
  unfold AtomicStateStore_load. rewrite run_bind, (secure_parent d parent) by done.
  rewrite run_bind, (private_existing d node) by done. rewrite run_bind. unfold storage_io at 1.
  cbn [open_nofollow file_metadata read_to_end Disk_fs].
  unfold disk_open_nofollow at 1. unfold system_call. rewrite quiet_call by done.
  pose proof Hpriv as Hp. unfold private_node in Hp. rewrite !andb_true_iff, eqb_true in Hp.
  destruct Hp as [[Ht Hu] Hm]. unfold node_at in Hat.
  destruct (names d !! store_path self) as [n|]; [|done]. cbn [mbind option_bind] in Hat.
  rewrite Hat, Ht. change (RegularFile ==? SymlinkFile) with false. cbn [map_err].
  rewrite run_bind. unfold storage_io at 1. unfold disk_file_metadata, system_call.
  rewrite quiet_call, Hat by done. cbn [fmap option_fmap option_map ok_or map_err].
  rewrite run_lift. cbn [stat_of st_type]. rewrite Ht, eqb_refl. cbn [ensure].
  rewrite run_lift, (proj2 (validate_owner_Ok _ _ _)) by (by apply Z.eqb_eq).
  rewrite run_lift, (proj2 (validate_mode_Ok _ _)) by (by apply Z.eqb_eq).
  rewrite run_bind. unfold storage_io at 1. unfold disk_read_to_end, system_call.
  rewrite quiet_call, Hat, Ht by done. change (RegularFile ==? DirectoryFile) with false. cbn [map_err].
  apply Z.leb_le in Hlen. rewrite take_ge by (unfold zlen, MAX_STATE_BYTES in *; lia).
  rewrite run_lift. assert ((MAX_STATE_BYTES <? zlen (node_bytes node)) = false) as -> by lia.
  cbn [fail_if]. rewrite run_lift, Hjson. cbn [map_err]. by rewrite run_lift, Hval.
Qed.

(** The temporary file under its name, empty and private. *)
Definition started (p : Path) (n : nat) (d : Disk) : Prop :=
  faults d = [] /\ names d !! p = Some n /\ names d !! self.(store_path) <> Some n
  /\ exists m, Z.land m 511 = STATE_FILE_MODE
     /\ nodes d !! n = Some (mkNode RegularFile [] self.(required_owner) m []).

Lemma quiet_replace p (n : nat) parent bytes d k node :
  started p n d -> is_some_and (fun t => node_type t ==? DirectoryFile) (node_at d self.(store_path)) = false ->
  names d !! parent = Some k -> nodes d !! k = Some node -> node_type node = DirectoryFile ->
  parent <> p -> parent <> self.(store_path) ->
  exists d', replace_state_file self n p parent bytes d = (d', Ok tt)
  /\ faults d' = [] /\ names d' = <[self.(store_path) := n]> (delete p (names d))
  /\ forall j, j <> n -> nodes d' !! j = nodes d !! j.
Proof.
  intros (Hf & Hp & Hpath & m & Hm & Hn) Hold Hk Hnode Ht Hpp Hps. unfold replace_state_file.
  cbn [file_metadata write_all sync_all rename open_follow Disk_fs].
  rewrite run_bind. unfold storage_io at 1. unfold disk_file_metadata, system_call.
  rewrite quiet_call, Hn by done. cbn [fmap option_fmap option_map ok_or map_err].
  rewrite run_lift, (proj2 (validate_owner_Ok _ _ _)) by done.
  rewrite run_lift, (proj2 (validate_mode_Ok _ _)) by done.
  rewrite run_bind. unfold storage_io at 1. unfold disk_write_all. rewrite quiet_call by done. cbn [map_err].
  set (d1 := append_bytes n bytes d). rewrite run_bind. unfold storage_io at 1.
  unfold disk_sync_all, system_call. rewrite quiet_call by done. cbn [map_err].
  assert (Hd1 : exists w, nodes d1 !! n = Some w) by (unfold d1, append_bytes; cbn [nodes set_nodes];
    rewrite lookup_alter_eq, Hn; by eexists).
  assert (Hd1' : forall j, j <> n -> nodes d1 !! j = nodes d !! j)
    by (intros j Hj; unfold d1, append_bytes; cbn [nodes set_nodes]; by rewrite lookup_alter_ne).
  assert (Hn1 : names d1 = names d) by done. assert (Hf1 : faults d1 = []) by done. clearbody d1.
  rewrite run_bind. unfold storage_io at 1. unfold disk_rename, system_call.
  rewrite quiet_call, Hn1, Hp by done. destruct Hd1 as [w Hw].
  assert (node_at d1 p = Some w) as -> by (unfold node_at; rewrite Hn1, Hp; done).
  rewrite bool_decide_eq_false_2 by done.
  assert (node_at d1 (store_path self) = node_at d (store_path self)) as ->.
  { unfold node_at. rewrite Hn1. destruct (names d !! store_path self) as [j|] eqn:Hj; [|done].
    cbn [mbind option_bind]. apply Hd1'. intros ->. done. }
  rewrite Hold. cbn [map_err].
  set (d2 := set_names _ d1). unfold storage_io at 1. rewrite run_bind.
  unfold disk_open_follow, system_call. rewrite quiet_call by done.
  assert (resolve 40 d2 parent = Ok k) as ->.
  { unfold d2. cbn [resolve names nodes set_names]. rewrite lookup_insert_ne, lookup_delete_ne by done.
    assert (k <> n) by (intros ->; rewrite Hn in Hnode; by injection Hnode as <-).
    by rewrite Hk, Hd1', Hnode, Ht by done. }
  rewrite quiet_call by done. eexists. split_and!; [done|done|done|]. exact Hd1'.
Qed.

Lemma parent_is_shorter path parent : Path_parent path = Some parent -> parent <> path.
Proof.
  unfold Path_parent. destruct (last path) as [c|] eqn:Hl; [|done].
  apply last_Some in Hl as [init ->]. rewrite removelast_last.
  intros Hp ->. assert (E : init = init ++ [c]) by (destruct c; congruence).
  apply (f_equal length) in E. rewrite length_app in E. simpl in E. lia.
Qed.

Lemma temporary_parent parent name :
  Path_parent self.(store_path) = Some parent ->
  removelast self.(store_path) ++ [Normal name] = parent ++ [Normal name]
  /\ Path_parent (parent ++ [Normal name]) = Some parent.
Proof.
  unfold Path_parent. rewrite last_snoc, removelast_last.
  destruct (last (store_path self)) as [[]|]; by intros [= ->].
Qed.

(** What a save needs: the directory is secure, the state file is absent or
    private, files are created private, and the drawn name is not in use. *)
Definition ready (d : Disk) (parent : Path) : Prop :=
  faults d = [] /\ secure_directory d parent
  /\ (forall node, node_at d self.(store_path) = Some node -> private_node self node = true)
  /\ process_uid d = self.(required_owner)
  /\ Z.land (Z.ldiff STATE_FILE_MODE (umask d)) 511 = STATE_FILE_MODE
  /\ exists d1 p, temporary_path self d = (d1, Ok p) /\ names d !! p = None.

Lemma ready_create d parent :
  ready d parent -> exists d1 d2 p (n : nat),
    temporary_path self d = (d1, Ok p) /\ create_new p STATE_FILE_MODE d1 = (d2, Ok n)
    /\ started p n d2 /\ parent <> p /\ names d2 = <[p := n]> (names d) /\ names d !! p = None
    /\ p <> self.(store_path) /\ (forall q, names d !! q <> Some n)
    /\ forall j : nat, j <> n -> nodes d2 !! j = nodes d !! j.
Proof.
  intros (Hf & (Hpar & _ & dir & Hdir & Ht & _) & _ & Huid & Hmask & d1 & p & Hp & Hfree).
  pose proof (temporary_path_new _ _ _ _ Hp) as Hnew. exists d1.
  pose proof Hp as (name & uuid & Hname & Hu & Epath)%temporary_path_Ok.
  destruct (temporary_parent _ (name ++ lit "." ++ uuid_to_string uuid ++ lit ".tmp") Hpar) as [Epar Hpp].
  rewrite Epar in Epath.
  assert (E1 : d1 = mkDisk (names d) (nodes d) (process_uid d) (umask d) (faults d) (uuids d1)).
  { revert Hu. cbn [new_v4 Disk_fs]. unfold disk_new_v4. destruct (uuids d) eqn:Eu; intros [= <- _]; [|done].
    by destruct d. }
  assert (Hrun : exists d2 (n : nat), create_new p STATE_FILE_MODE d1 = (d2, Ok n) /\ faults d2 = []
    /\ nodes d2 !! n = Some (mkNode RegularFile [] self.(required_owner) (Z.ldiff STATE_FILE_MODE (umask d)) [])).
  { cbn [create_new Disk_fs]. unfold disk_create_new, system_call. rewrite quiet_call by (by rewrite E1).
    rewrite E1. cbn [names]. rewrite Hfree, Epath, Hpp. cbn [mbind option_bind].
    unfold node_at. cbn [names nodes]. unfold node_at in Hdir. rewrite Hdir, Ht, eqb_refl.
    do 2 eexists. split; [done|]. cbn [faults nodes process_uid umask set_names set_nodes].
    split; [done|]. by rewrite lookup_insert_eq, Huid. }
  destruct Hrun as (d2 & n & Hc & Hf2 & Hn). exists d2, p, n.
  pose proof Hc as (H1 & H2 & H3 & H4 & u & m & H5)%create_at. rewrite E1 in H1, H2, H3, H4, H5.
  cbn [names nodes] in *. split_and!; try done.
  - split_and!; [done|by rewrite H4, lookup_insert_eq|by rewrite H4, lookup_insert_ne|]. by eexists.
  - rewrite Epath. intros E. apply (f_equal length) in E. rewrite length_app in E. simpl in E. lia.
  - intros j Hj. by rewrite H5, lookup_insert_ne.
Qed.

(** Without faults a save into a secure directory succeeds, and the file
    then loads as the state that was saved. *)
Theorem saved_states_load s bytes d parent :
  ready d parent -> State_validate s = Ok tt -> json_to_vec s = Ok bytes ->
  zlen bytes <= MAX_STATE_BYTES ->
  exists d', AtomicStateStore_save self s d = (d', Ok tt)
  /\ AtomicStateStore_load self d' = (d', Ok (Some s)).
Proof.
  intros Hr Hval Hjson Hlen. pose proof Hr as (Hf & Hdir & Hold & _).
  destruct (ready_create d parent Hr) as (d1 & d2 & p & n & Ht & Hc & Hst & Hpp & Hn2 & Hfree & Hpn & Hfresh & Hd2).
  pose proof Hdir as (Hpar & Hne & dir & Hat & Hty & Hu & Hm). apply parent_is_shorter in Hpar as Hps.
  assert (Hk : exists k, names d !! parent = Some k /\ nodes d !! k = Some dir).
  { unfold node_at in Hat. destruct (names d !! parent) as [k|]; [|done]. by exists k. }
  destruct Hk as (k & Hk & Hdk). assert (Hkn : k <> n) by (intros ->; by apply (Hfresh parent)).
  destruct (quiet_replace p n parent bytes d2 k dir) as (d3 & Hrep & Hf3 & Hn3 & Hd3); try done.
  { unfold node_at. rewrite Hn2, lookup_insert_ne by done.
    destruct (names d !! store_path self) as [j|] eqn:Hj; [|done]. cbn [mbind option_bind].
    rewrite Hd2 by (intros ->; by apply (Hfresh (store_path self))).
    destruct (nodes d !! j) as [old|] eqn:Ho; [|done]. cbn [is_some_and].
    assert (Hpriv : private_node self old = true) by (apply Hold; unfold node_at; by rewrite Hj).
    unfold private_node in Hpriv. rewrite !andb_true_iff, eqb_true in Hpriv. by destruct Hpriv as [[-> _] _]. }
  { by rewrite Hn2, lookup_insert_ne. } { by rewrite Hd2. }
  assert (Hsave : AtomicStateStore_save self s d = (d3, Ok tt)).
  { unfold AtomicStateStore_save. rewrite run_lift, Hval. cbn [map_err].
    rewrite run_bind, (secure_parent d parent) by done.
    assert (exists o, validate_existing_file self d = (d, Ok o)) as [o Hex].
    { destruct (node_at d (store_path self)) as [old|] eqn:Ho.
      - exists (Some (stat_of old)). by apply private_existing; [|done|apply Hold].
      - exists None. by apply absent_existing. }
    rewrite run_bind, Hex, run_lift, Hjson. cbn [map_err]. rewrite run_lift.
    assert ((MAX_STATE_BYTES <? zlen bytes) = false) as -> by lia. cbn [fail_if].
    rewrite run_bind, Ht, run_bind. unfold storage_io at 1. rewrite Hc. cbn [map_err].
    rewrite run_bind. unfold attempt at 1. rewrite Hrep. done. }
  exists d3. split; [done|]. apply (quiet_load d3 parent); [done| |by apply save_writes_disk in Hsave].
  split_and!; try done. exists dir. split_and!; try done. unfold node_at.
  rewrite Hn3, lookup_insert_ne, lookup_delete_ne, Hn2, lookup_insert_ne, Hk by done.
  cbn [mbind option_bind]. by rewrite Hd3, Hd2.
Qed.
End Quiet.

(** ** The engine on a disk *)

Section EngineOnDisk.
Context {B : Type} `{BackendLaws B} `{IpNetLib} `{JsonLib} `{!JsonCodec State} `{!JsonCodecLaws State}.
Hypothesis decoded_revision : forall bytes s,
  json_from_slice (T := State) bytes = Ok s -> 0 <= revision s <= U64_MAX.
Variable self : AtomicStateStore.

#[local] Instance atomic_ops : StateStore Disk := AtomicStateStore_ops self.
#[local] Instance atomic_laws : StoreLaws Disk := AtomicStateStore_laws decoded_revision self.

(** C28: when an engine on the atomic store asks for a restart and knows its
    kernel, what the next start reads from the disk is the resident state,
    which blocks everything. *)
Theorem restarts_load_block_all (e : Engine B Disk) d' o :
  reachable e -> restart_required e = true -> fatal e = false ->
  AtomicStateStore_load self (store (persistence e)) = (d', Ok o) ->
  o = Some (state e) /\ mode (state e) = BlockAll.
Proof.
  intros [a Hr]%reachable_ok Hreq Hf Hload. unfold restart_required in Hreq. rewrite Hf, orb_false_r in Hreq.
  destruct (ok_resumable e Hr Hf Hreq) as (Hm & Hd & _). split; [|done].
  apply load_reads_disk in Hload as [_ Ho]. by rewrite (Ho o eq_refl).
Qed.
End EngineOnDisk.

(** ** Concrete runs *)

#[local] Existing Instance ref_ipnet.
#[local] Existing Instance ref_json.

(** A codec for states without rules: their four numbers. *)
Definition mode_number (m : Mode) : Z := match m with BlockAll => 0 | Learning => 1 | Enforcing => 2 end.
Definition number_mode (z : Z) : Mode := if z =? 0 then BlockAll else if z =? 1 then Learning else Enforcing.

Definition state_codec : JsonCodec State := {|
  json_writes s :=
    if (rules s ==? ∅) && in_range 0 U64_MAX (revision s)
    then ([[revision s; flow_generation s];
           [mode_number (mode s); match State.enforcement_strategy s with Strict => 0 | _ => 1 end]], None)
    else ([], Some (lit "unsupported"));
  json_from_slice bytes :=
    match bytes with
    | [r; g; m; e] =>
        if in_range 0 U64_MAX r
        then Ok (mkState r g (number_mode m) (if e =? 0 then Strict else Fast) ∅)
        else Err (lit "number out of range")
    | _ => Err (lit "unexpected end")
    end;
  io_error_text _ := lit "write failed"
|}.
#[local] Existing Instance state_codec.

Lemma state_codec_laws : JsonCodecLaws State.
Proof.
  split; intros s chunks; cbn [json_writes state_codec];
    destruct (rules s ==? ∅) eqn:Hr; try done; destruct (in_range 0 U64_MAX (revision s)) eqn:Hrev; try done;
    cbn [andb]; intros [= <-]; [|done].
  rewrite eqb_true in Hr. cbn [json_from_slice state_codec concat app]. rewrite Hrev.
  destruct s as [r g m e rs]. cbn in Hr |- *. subst rs. by destruct m, e.
Qed.

Lemma state_codec_revision bytes s :
  json_from_slice (T := State) bytes = Ok s -> 0 <= revision s <= U64_MAX.
Proof.
  cbn [json_from_slice state_codec]. destruct bytes as [|r [|g [|m [|e [|]]]]]; try done.
  destruct (in_range 0 U64_MAX r) eqn:Hr; [|done]. intros [= <-]. cbn [revision].
  unfold in_range in Hr. lia.
Qed.

Definition sample_store : AtomicStateStore :=
  AtomicStateStore_root_owned [RootDir; Normal (lit "var"); Normal (lit "state.json")].

(** A root-owned directory with a state file that the service may read. *)
Definition sample_disk (contents : option Bytes) (script : list (option Fault)) : Disk :=
  mkDisk ((match contents with
           | Some _ => <[[RootDir; Normal (lit "var"); Normal (lit "state.json")] := 2%nat]>
           | None => fun m => m
           end) {[ [RootDir; Normal (lit "var")] := 1%nat ]})
    ((match contents with
      | Some bytes => <[2%nat := mkNode RegularFile [] 0 33152 bytes]>
      | None => fun m => m
      end) {[ 1%nat := mkNode DirectoryFile [] 0 16877 [] ]}) 0 18 script [11; 12; 13; 14; 15].

Definition sample_saved : State := mkState 4 2 Learning Strict ∅.

Lemma loads_what_it_checked_witness :
  exists f1 f2 file, open_nofollow (store_path sample_store) f1 = (f2, Ok file).
Proof.
  assert (Hr : (AtomicStateStore_load sample_store (sample_disk (Some [4; 2; 1; 0]) [])).2
               = Ok (Some sample_saved)) by (vm_compute; reflexivity).
  destruct (AtomicStateStore_load _ _) as [d' r] eqn:Hrun. cbn [snd] in Hr. rewrite Hr in Hrun.
  destruct (loads_what_it_checked sample_store _ _ _ Hrun) as (f1 & f2 & f3 & file & ? & ? & Hopen & _).
  exists f1, f2, file. exact Hopen.
Defined.

Lemma saves_through_a_private_file_witness :
  exists p, p <> store_path sample_store.
Proof.
  assert (Hr : (AtomicStateStore_save sample_store sample_saved (sample_disk None [])).2 = Ok tt)
    by (vm_compute; reflexivity).
  destruct (AtomicStateStore_save _ _ _) as [d' r] eqn:Hrun. cbn [snd] in Hr. rewrite Hr in Hrun.
  destruct (saves_through_a_private_file sample_store _ _ _ Hrun)
    as (? & ? & ? & ? & ? & ? & p & ? & ? & ? & Hp & _).
  exists p. exact Hp.
Defined.

(** The synchronization of the directory fails after the replacement. *)
Lemma state_file_is_replaced_atomically_witness :
  let d := sample_disk (Some [4; 2; 1; 0]) (replicate 8 None ++ [Some (mkFault EIO 0)]) in
  let '(d', r) := AtomicStateStore_save sample_store (mkState 5 2 BlockAll Strict ∅) d in
  is_ok r = false
  /\ (on_disk_state sample_store d' = on_disk_state sample_store d
      \/ on_disk_state sample_store d' = Some (mkState 5 2 BlockAll Strict ∅)).
Proof.
  cbv zeta.
  assert (Hr : is_ok (AtomicStateStore_save sample_store (mkState 5 2 BlockAll Strict ∅)
      (sample_disk (Some [4; 2; 1; 0]) (replicate 8 None ++ [Some (mkFault EIO 0)]))).2 = false)
    by (vm_compute; reflexivity).
  destruct (AtomicStateStore_save _ _ _) as [d' r] eqn:Hrun. split; [exact Hr|].
  exact (proj1 (@state_file_is_replaced_atomically _ _ state_codec_laws sample_store _ _ _ _ Hrun)).
Defined.

Lemma saved_states_load_witness :
  exists d', AtomicStateStore_load sample_store d' = (d', Ok (Some sample_saved)).
Proof.
  assert (Hready : ready sample_store (sample_disk None []) [RootDir; Normal (lit "var")]).
  { split_and!; try (vm_compute; reflexivity).
    - split_and!; [vm_compute; reflexivity|discriminate|].
      exists (mkNode DirectoryFile [] 0 16877 []). vm_compute. split_and!; reflexivity.
    - intros node Hnode. vm_compute in Hnode. discriminate Hnode.
    - eexists _, _. split; vm_compute; reflexivity. }
  destruct (@saved_states_load _ _ state_codec_laws sample_store sample_saved [4; 2; 1; 0]
    (sample_disk None []) _ Hready) as (d' & _ & Hload).
  - vm_compute. reflexivity.
  - vm_compute. reflexivity.
  - vm_compute. discriminate.
  - exists d'. exact Hload.
Defined.

(** An engine on that disk whose repair is refused by the kernel. *)
#[local] Existing Instance state_codec_laws.
#[local] Instance sample_ops : StateStore Disk := atomic_ops sample_store.
#[local] Instance sample_laws : StoreLaws Disk := atomic_laws state_codec_revision sample_store.

Definition disk_load : Resources ScriptedBackend Disk * Result LoadError (Engine ScriptedBackend Disk) :=
  load_with_learning_limits sample_supply 0 EventBus_new LearningLimits_default
    (mkScriptedBackend Unspecified [Succeeds; FailsBefore], Coordinator_new (sample_disk None [])).

Definition disk_repair (e : Engine ScriptedBackend Disk) : Engine ScriptedBackend Disk :=
  engine_step (Repair (revision (state e))) e.

Lemma restarts_load_block_all_witness :
  exists e : Engine ScriptedBackend Disk,
    disk_load.2 = Ok e
    /\ (AtomicStateStore_load sample_store (store (persistence (disk_repair e)))).2
       = Ok (Some (state (disk_repair e)))
    /\ mode (state (disk_repair e)) = BlockAll.
Proof.
  assert (Hok : match disk_load.2 with
                | Ok e => restart_required (disk_repair e) && negb (fatal (disk_repair e))
                          && is_ok (AtomicStateStore_load sample_store (store (persistence (disk_repair e)))).2
                | Err _ => false
                end = true) by (vm_compute; reflexivity).
  destruct disk_load as [resources [e|err]] eqn:Hload; [|discriminate Hok]. cbn [snd] in Hok.
  exists e. split; [reflexivity|].
  assert (Hr : reachable (disk_repair e)) by (apply reach_step; exact (reach_load _ _ _ _ _ _ _ _ Hload)).
  apply andb_true_iff in Hok as [Hok Hl]. apply andb_true_iff in Hok as [Hreq Hf%negb_true_iff].
  destruct (AtomicStateStore_load _ _) as [d' [o|err]] eqn:Hrun; [|discriminate Hl].
  destruct (restarts_load_block_all state_codec_revision sample_store _ d' o Hr Hreq Hf Hrun) as [-> Hm].
  split; [reflexivity|exact Hm].
Defined.
