(* ===== verification/Xtables.v ===== *)
(** * The rules that iptables reports

    [backend.rs] of the daemon, lines 1511 to 1545 and 1774 to 2411: the output
    of [iptables-save] and [ip6tables-save], the normal form in which its rules
    are compared with the compiled program, and the checks of the chains. *)

From S2P Require Import Prelude Text Net Application Model State Marks Nftables Iptables Netlink Capture.
Local Open Scope Z_scope.

(** ** Tokens *)

Inductive Quote : Type := Single | Double.

(** The loop of [tokenize_xtables_rule] over the characters. *)
Fixpoint tokenize (rule : ustring) (quote : option Quote) (in_token : bool) (token : ustring) (tokens : list ustring)
    : Result string (list ustring) :=
  match rule with
  | [] =>
      ensure (is_none quote) "unterminated quote in xtables rule" ;;
      mret (if in_token then tokens ++ [token] else tokens)
  | c :: rest =>
      match quote with
      | Some Single =>
          if c =? 39 then tokenize rest None in_token token tokens
          else tokenize rest quote in_token (token ++ [c]) tokens
      | Some Double =>
          if c =? 34 then tokenize rest None in_token token tokens
          else if c =? 92 then
            match rest with
            | [] => Err "dangling escape in quoted xtables rule"%string
            | d :: rest => tokenize rest quote in_token (token ++ [d]) tokens
            end
          else tokenize rest quote in_token (token ++ [c]) tokens
      | None =>
          if is_ascii_whitespace c then
            if in_token then tokenize rest None false [] (tokens ++ [token])
            else tokenize rest None in_token token tokens
          else if c =? 39 then tokenize rest (Some Single) true token tokens
          else if c =? 34 then tokenize rest (Some Double) true token tokens
          else if c =? 92 then
            match rest with
            | [] => Err "dangling escape in xtables rule"%string
            | d :: rest => tokenize rest None true (token ++ [d]) tokens
            end
          else tokenize rest None true (token ++ [c]) tokens
      end
  end.

Definition tokenize_xtables_rule (rule : ustring) : Result string (list ustring) := tokenize rule None false [] [].

(** ** The normal form *)

Definition expand_syn (tokens : list ustring) : list ustring :=
  tokens ≫= fun token =>
    if token ==? lit "--syn" then [lit "--tcp-flags"; lit "FIN,SYN,RST,ACK"; lit "SYN"] else [token].

(** The word after the first [-p]. *)
Fixpoint rule_protocol (tokens : list ustring) : option ustring :=
  match tokens with
  | a :: ((b :: _) as rest) => if a ==? lit "-p" then Some b else rule_protocol rest
  | _ => None
  end.

Fixpoint drop_module (protocol : ustring) (tokens : list ustring) : list ustring :=
  match tokens with
  | a :: ((b :: rest) as more) =>
      if (a ==? lit "-m") && (b ==? protocol) then drop_module protocol rest
      else a :: drop_module protocol more
  | _ => tokens
  end.

Definition parse_u32_argument (argument : ustring) : Result string Z :=
  match
    match strip_prefix (lit "0x") argument with
    | Some hexadecimal => Some hexadecimal
    | None => strip_prefix (lit "0X") argument
    end with
  | Some hexadecimal => ok_or "invalid hexadecimal xtables mark"%string (parse_hex U32_MAX hexadecimal)
  | None => ok_or "invalid decimal xtables mark"%string (parse_unsigned U32_MAX argument)
  end.

(** [0x{value:x}] *)
Definition lower_hex (value : Z) : ustring := lit "0x" ++ hex_pad 1 value.

Definition normalize_mark_argument (argument : ustring) : Result string ustring :=
  let '(value, mask) :=
    match split_once 47 argument with
    | Some (value, mask) => (value, Some mask)
    | None => (argument, None)
    end in
  value ← parse_u32_argument value;
  match mask with
  | Some mask =>
      mask ← parse_u32_argument mask;
      mret (lower_hex value ++ lit "/" ++ lower_hex mask)
  | None => mret (lower_hex value)
  end.

Definition is_mark_option (token : ustring) : bool := (token ==? lit "--mark") || (token ==? lit "--set-xmark").

(** The loop over the tokens and their successors, [after_mark] if the token
    before is an option with a mark. *)
Fixpoint normalize_marks (after_mark : bool) (tokens : list ustring) : Result string (list ustring) :=
  match tokens with
  | [] => mret []
  | token :: rest =>
      token ← (if after_mark then normalize_mark_argument token else mret token);
      rest ← normalize_marks (is_mark_option token) rest;
      mret (token :: rest)
  end.

Definition length_prefixed (tokens : list ustring) : ustring :=
  concat ((fun token => dec (byte_len token) ++ lit ":" ++ token) <$> tokens).

(** The tokens that are compared. *)
Definition canonical_tokens (tokens : list ustring) : Result string (list ustring) :=
  ensure (negb (bool_decide (tokens = []))) "empty xtables rule" ;;
  let tokens := expand_syn tokens in
  let tokens :=
    match rule_protocol tokens with
    | Some protocol =>
        if (protocol ==? lit "tcp") || (protocol ==? lit "udp") then drop_module protocol tokens else tokens
    | None => tokens
    end in
  normalize_marks false tokens.

Definition normalize_xtables_tokens (tokens : list ustring) : Result string ustring :=
  tokens ← canonical_tokens tokens;
  mret (length_prefixed tokens).

Definition all_owned_xtables_chains : list ustring := owned_chains ++ owned_mangle_chains.

Definition contains (chain : ustring) (chains : list ustring) : bool := existsb (eqb chain) chains.

Definition normalize_owned_xtables_rule (rule : ustring) : Result string (ustring * ustring) :=
  tokens ← tokenize_xtables_rule rule;
  chain ← ok_or "iptables append rule has no chain"%string (tokens !! 1%nat);
  ensure (bool_decide (head tokens = Some (lit "-A")) && contains chain all_owned_xtables_chains)
    "iptables policy appends to a chain that is not owned" ;;
  normalized ← normalize_xtables_tokens tokens;
  mret (chain, normalized).

(** The order of [str]. *)
Fixpoint text_le (a b : ustring) : bool :=
  match a, b with
  | [], _ => true
  | _ :: _, [] => false
  | x :: a, y :: b => (x <? y) || (x =? y) && text_le a b
  end.

(** [sort_by] is stable. *)
Fixpoint insert_rule (rule : ustring * ustring) (rules : list (ustring * ustring)) : list (ustring * ustring) :=
  match rules with
  | [] => [rule]
  | other :: rest => if text_le rule.1 other.1 then rule :: rules else other :: insert_rule rule rest
  end.
Definition sort_rules (rules : list (ustring * ustring)) : list (ustring * ustring) := foldr insert_rule [] rules.
Definition order_owned_xtables_rules (rules : list (ustring * ustring)) : list ustring := (sort_rules rules).*2.

(** ** Counters *)

Definition add_xtables_counter (destination : CounterValue) (p b : Z) : Result string CounterValue :=
  p ← ok_or "iptables packet counter overflow"%string (u64_checked_add destination.(packets) p);
  b ← ok_or "iptables byte counter overflow"%string (u64_checked_add destination.(bytes) b);
  mret (mkCounterValue p b).

Fixpoint comment_of (tokens : list ustring) (comment : option ustring) : Result string (option ustring) :=
  match tokens with
  | [] => mret comment
  | token :: rest =>
      if token ==? lit "--comment" then
        match rest with
        | [] => Err "xtables rule has --comment without a value"%string
        | value :: rest =>
            ensure (is_none comment) "xtables rule contains more than one --comment option" ;;
            comment_of rest (Some value)
        end
      else comment_of rest comment
  end.

Definition xtables_rule_comment (rule : ustring) : Result string (option ustring) :=
  tokens ← tokenize_xtables_rule rule;
  comment_of tokens None.

Definition set_accepted_in v c :=
  mkFirewallCounters v c.(accepted_out) c.(dropped_in) c.(dropped_out) c.(learned_out).
Definition set_accepted_out v c :=
  mkFirewallCounters c.(accepted_in) v c.(dropped_in) c.(dropped_out) c.(learned_out).
Definition set_dropped_in v c :=
  mkFirewallCounters c.(accepted_in) c.(accepted_out) v c.(dropped_out) c.(learned_out).
Definition set_dropped_out v c :=
  mkFirewallCounters c.(accepted_in) c.(accepted_out) c.(dropped_in) v c.(learned_out).
Definition set_learned_out v c :=
  mkFirewallCounters c.(accepted_in) c.(accepted_out) c.(dropped_in) c.(dropped_out) v.

Definition accumulate_comment_counter (counters : FirewallCounters) (rule : ustring) (p b : Z)
    : Result string FirewallCounters :=
  comment ← xtables_rule_comment rule;
  match comment with
  | Some comment =>
      if comment ==? lit "openshield:accepted_in" then
        (fun v => set_accepted_in v counters) <$> add_xtables_counter counters.(accepted_in) p b
      else if comment ==? lit "openshield:accepted_out" then
        (fun v => set_accepted_out v counters) <$> add_xtables_counter counters.(accepted_out) p b
      else if comment ==? lit "openshield:dropped_in" then
        (fun v => set_dropped_in v counters) <$> add_xtables_counter counters.(dropped_in) p b
      else if comment ==? lit "openshield:dropped_out" then
        (fun v => set_dropped_out v counters) <$> add_xtables_counter counters.(dropped_out) p b
      else if comment ==? lit "openshield:accepted_out+learned_out" then
        accepted ← add_xtables_counter counters.(accepted_out) p b;
        learned ← add_xtables_counter counters.(learned_out) p b;
        mret (set_learned_out learned (set_accepted_out accepted counters))
      else if comment ==? lit "openshield:learned_out" then
        (fun v => set_learned_out v counters) <$> add_xtables_counter counters.(learned_out) p b
      else mret counters
  | None => mret counters
  end.

Definition add_counter (left right : CounterValue) : Result string CounterValue :=
  p ← ok_or "combined packet counter overflow"%string (u64_checked_add left.(packets) right.(packets));
  b ← ok_or "combined byte counter overflow"%string (u64_checked_add left.(bytes) right.(bytes));
  mret (mkCounterValue p b).

Definition add_firewall_counters (left right : FirewallCounters) : Result string FirewallCounters :=
  accepted_in ← add_counter left.(accepted_in) right.(accepted_in);
  accepted_out ← add_counter left.(accepted_out) right.(accepted_out);
  dropped_in ← add_counter left.(dropped_in) right.(dropped_in);
  dropped_out ← add_counter left.(dropped_out) right.(dropped_out);
  learned_out ← add_counter left.(learned_out) right.(learned_out);
  mret (mkFirewallCounters accepted_in accepted_out dropped_in dropped_out learned_out).

(** ** The output of [iptables-save -c] *)

(** [str::split_once] with a string. *)
Fixpoint split_once_at (separator s : ustring) : option (ustring * ustring) :=
  if starts_with separator s then Some ([], drop (length separator) s)
  else
    match s with
    | [] => None
    | c :: s' =>
        match split_once_at separator s' with
        | Some (before, after) => Some (c :: before, after)
        | None => None
        end
    end.

Definition parse_saved_rule (line : ustring) : Result string (option (Z * Z * ustring)) :=
  if negb (starts_with (lit "[") line) then
    ensure (negb (starts_with (lit "-A ") line)) "xtables-save omitted counters despite the mandatory -c query" ;;
    mret None
  else
    parts ← ok_or "malformed xtables rule counter prefix"%string (split_once_at (lit "] ") line);
    counter ← ok_or "malformed xtables rule counter"%string (strip_prefix (lit "[") parts.1);
    numbers ← ok_or "malformed xtables packet/byte counter"%string (split_once 58 counter);
    p ← ok_or "invalid xtables packet counter"%string (parse_unsigned U64_MAX numbers.1);
    b ← ok_or "invalid xtables byte counter"%string (parse_unsigned U64_MAX numbers.2);
    mret (if starts_with (lit "-A ") parts.2 then Some (p, b, parts.2) else None).

Record XtablesSnapshot : Type := mkXtables {
  declared_chains : gset ustring;
  ordered_rules : list ustring;
  snapshot_owned_rules : list ustring;
  snapshot_counters : FirewallCounters
}.

(** [-A {chain} ] *)
Definition append_prefix (chain : ustring) : ustring := lit "-A " ++ chain ++ lit " ".

Definition is_owned_rule (rule : ustring) : bool :=
  existsb (fun chain => starts_with (append_prefix chain) rule) all_owned_xtables_chains.

(** The name of a declared chain, if the line declares one. *)
Definition chain_declaration (line : ustring) : option ustring :=
  declaration ← strip_prefix (lit ":") line;
  parts ← split_once 32 declaration;
  Some parts.1.

Fixpoint parse_save_lines (text : list ustring) (declared : gset ustring) (rules : list ustring)
    (owned : list (ustring * ustring)) (counters : FirewallCounters) : Result string XtablesSnapshot :=
  match text with
  | [] => mret (mkXtables declared rules (order_owned_xtables_rules owned) counters)
  | line :: rest =>
      match chain_declaration line with
      | Some chain =>
          ensure (negb (bool_decide (chain ∈ declared))) "duplicate chain declaration in xtables-save output" ;;
          parse_save_lines rest (declared ∪ {[chain]}) rules owned counters
      | None =>
          saved ← parse_saved_rule line;
          match saved with
          | None => parse_save_lines rest declared rules owned counters
          | Some (p, b, rule) =>
              if is_owned_rule rule then
                counters ← accumulate_comment_counter counters rule p b;
                normalized ← normalize_owned_xtables_rule rule;
                parse_save_lines rest declared (rules ++ [rule]) (owned ++ [normalized]) counters
              else parse_save_lines rest declared (rules ++ [rule]) owned counters
          end
      end
  end.

Definition is_supported_table (line : ustring) : bool := (line ==? lit "*filter") || (line ==? lit "*mangle").

Definition parse_xtables_text (text : ustring) : Result string XtablesSnapshot :=
  ensure (length (List.filter is_supported_table (lines text)) =? 1)%nat
    "missing or duplicated supported xtables table" ;;
  ensure (existsb (eqb (lit "COMMIT")) (lines text)) "unterminated filter table" ;;
  parse_save_lines (lines text) ∅ [] [] FirewallCounters_default.

Definition parse_xtables_save (input : Bytes) : Result string XtablesSnapshot :=
  text ← ok_or "xtables-save output is not UTF-8"%string (from_utf8 input);
  parse_xtables_text text.

(** ** Checks *)

Definition rule_jumps_to (rule target : ustring) : bool :=
  ends_with (lit " -j " ++ target) rule || ends_with (lit " -g " ++ target) rule.

Definition rules_for_chain (self : XtablesSnapshot) (chain : ustring) : list ustring :=
  List.filter (starts_with (append_prefix chain)) self.(ordered_rules).
Definition first_rule (self : XtablesSnapshot) (chain : ustring) : option ustring := head (rules_for_chain self chain).
Definition last_rule (self : XtablesSnapshot) (chain : ustring) : option ustring := last (rules_for_chain self chain).

Definition is_exact_ownership_rule (rule chain : ustring) : Result string bool :=
  tokens ← tokenize_xtables_rule rule;
  mret (bool_decide (tokens = [lit "-A"; chain; lit "-m"; lit "comment"; lit "--comment"; IPTABLES_OWNERSHIP_COMMENT])).

Definition verify_chain_ownership (self : XtablesSnapshot) (chain : ustring) : Result string unit :=
  first ← ok_or "OpenShield iptables chain has no ownership sentinel"%string (first_rule self chain);
  exact ← is_exact_ownership_rule first chain;
  ensure exact "refusing to manage an iptables chain: ownership sentinel is missing or not first".

Definition filter_dispatcher_pairs : list (ustring * ustring) :=
  [(lit "INPUT", IPTABLES_INPUT_CHAIN); (lit "OUTPUT", IPTABLES_OUTPUT_CHAIN);
   (lit "FORWARD", IPTABLES_FORWARD_CHAIN)].
Definition mangle_first_dispatcher_pairs : list (ustring * ustring) :=
  [(lit "OUTPUT", IPTABLES_MARK_SANITIZE_CHAIN)].
Definition mangle_last_dispatcher_pairs : list (ustring * ustring) :=
  [(lit "OUTPUT", IPTABLES_LEARNING_OBSERVE_CHAIN)].

Definition dispatch_rule (built_in target : ustring) : ustring := lit "-A " ++ built_in ++ lit " -j " ++ target.

Definition verify_owned_chain (self : XtablesSnapshot) (chain : ustring) : Result string unit :=
  ensure (bool_decide (chain ∈ self.(declared_chains))) "required OpenShield iptables chain is missing" ;;
  verify_chain_ownership self chain.

(** The number of rules of a built-in chain that jump to one of the chains. *)
Definition dispatchers (self : XtablesSnapshot) (built_in : ustring) (chains : list ustring) : nat :=
  length (List.filter (fun rule => existsb (rule_jumps_to rule) chains) (rules_for_chain self built_in)).

Definition verify_filter_topology (self : XtablesSnapshot) : Result string unit :=
  for_each (verify_owned_chain self) owned_chains ;;
  for_each (fun '(built_in, target) =>
    ensure (bool_decide (first_rule self built_in = Some (dispatch_rule built_in target)))
      "OpenShield dispatcher is not first in a built-in chain" ;;
    ensure (dispatchers self built_in owned_chains =? 1)%nat
      "a built-in chain must contain exactly one OpenShield dispatcher") filter_dispatcher_pairs.

Definition verify_mangle_topology (self : XtablesSnapshot) : Result string unit :=
  for_each (verify_owned_chain self) owned_mangle_chains ;;
  for_each (fun '(built_in, target) =>
    ensure (bool_decide (first_rule self built_in = Some (dispatch_rule built_in target)))
      "OpenShield mark sanitizer is not first" ;;
    ensure (dispatchers self built_in [target] =? 1)%nat
      "mangle must contain exactly one OpenShield mark sanitizer") mangle_first_dispatcher_pairs ;;
  for_each (fun '(built_in, target) =>
    ensure (bool_decide (last_rule self built_in = Some (dispatch_rule built_in target)))
      "OpenShield Learning observer is not last" ;;
    ensure (dispatchers self built_in [target] =? 1)%nat
      "mangle must contain exactly one OpenShield Learning observer") mangle_last_dispatcher_pairs ;;
  for_each (fun '(built_in, _) =>
    ensure (dispatchers self built_in owned_mangle_chains =? 2)%nat
      "mangle must contain exactly two OpenShield dispatchers") mangle_first_dispatcher_pairs.

Definition has_openshield_artifacts (self : XtablesSnapshot) : bool :=
  existsb (fun chain => bool_decide (chain ∈ self.(declared_chains))) all_owned_xtables_chains
  || existsb (fun rule => existsb (rule_jumps_to rule) all_owned_xtables_chains) self.(ordered_rules).

(** ** All tables *)

Definition is_table_character (c : char) : bool := in_range 97 122 c || in_range 48 57 c || (c =? 95).
Definition is_supported_name (table : ustring) : bool := (table ==? lit "filter") || (table ==? lit "mangle").

(** [supported] is the text of the table so far. *)
Fixpoint parse_world_lines (text : list ustring) (tables : gset ustring) (current : option ustring)
    (supported : ustring) (artifacts : bool) : Result string bool :=
  match text with
  | [] =>
      ensure (is_none current) "unterminated table in combined xtables-save output" ;;
      ensure (bool_decide (supported = [])) "incomplete supported table in combined xtables-save output" ;;
      mret artifacts
  | line :: rest =>
      match strip_prefix (lit "*") line with
      | Some table =>
          ensure (is_none current) "nested table in combined xtables-save output" ;;
          ensure (negb (bool_decide (table = [])) && (byte_len table <=? 32) && forallb is_table_character table)
            "invalid table name in combined xtables-save output" ;;
          ensure (negb (bool_decide (table ∈ tables))) "duplicate table in combined xtables-save output" ;;
          parse_world_lines rest (tables ∪ {[table]}) (Some table)
            (if is_supported_name table then supported ++ line ++ nl else supported) artifacts
      | None =>
          if line ==? lit "COMMIT" then
            table ← ok_or "xtables COMMIT has no table"%string current;
            if is_supported_name table then
              snapshot ← parse_xtables_text (supported ++ lit "COMMIT" ++ nl);
              parse_world_lines rest tables None [] (artifacts || has_openshield_artifacts snapshot)
            else parse_world_lines rest tables None supported artifacts
          else
            match current with
            | Some table =>
                parse_world_lines rest tables current
                  (if is_supported_name table then supported ++ line ++ nl else supported) artifacts
            | None =>
                ensure (bool_decide (line = []) || starts_with (lit "#") line)
                  "unexpected data outside a table in combined xtables-save output" ;;
                parse_world_lines rest tables current supported artifacts
            end
      end
  end.

Definition parse_xtables_world_save (input : Bytes) : Result string bool :=
  text ← ok_or "xtables-save output is not UTF-8"%string (from_utf8 input);
  parse_world_lines (lines text) ∅ None [] false.

(** ** The compiled program *)

Fixpoint compiled_lines (text : list ustring) (table : option bool) (filter mangle : list (ustring * ustring))
    (committed : Z) : Result string (list ustring) :=
  match text with
  | [] =>
      ensure (is_none table && (committed =? 2)) "compiled iptables policy is not a complete mangle/filter transaction" ;;
      mret (order_owned_xtables_rules mangle ++ order_owned_xtables_rules filter)
  | line :: rest =>
      if line ==? lit "*filter" then
        ensure (is_none table) "nested xtables table" ;;
        compiled_lines rest (Some false) filter mangle committed
      else if line ==? lit "*mangle" then
        ensure (is_none table) "nested xtables table" ;;
        compiled_lines rest (Some true) filter mangle committed
      else if line ==? lit "COMMIT" then
        ensure (is_some table) "xtables COMMIT has no table" ;;
        compiled_lines rest None filter mangle (Z.min 255 (committed + 1))
      else if starts_with (lit "-A ") line then
        in_mangle ← ok_or "xtables rule is outside a table"%string table;
        normalized ← normalize_owned_xtables_rule line;
        ensure (contains normalized.1 (if in_mangle : bool then owned_mangle_chains else owned_chains))
          "compiled iptables rule uses a chain in the wrong table" ;;
        if in_mangle : bool
        then compiled_lines rest table filter (mangle ++ [normalized]) committed
        else compiled_lines rest table (filter ++ [normalized]) mangle committed
      else compiled_lines rest table filter mangle committed
  end.

Definition compiled_owned_rules (policy : ustring) : Result string (list ustring) :=
  compiled_lines (lines policy) None [] [] 0.

Definition ownership_initialization_policy (table : ustring) (chains : list ustring) : ustring :=
  lit "*" ++ table ++ nl
  ++ concat ((fun chain => lit ":" ++ chain ++ lit " - [0:0]" ++ nl) <$> chains)
  ++ concat ((fun chain => lit "-A " ++ chain ++ lit " -m comment --comment " ++ IPTABLES_OWNERSHIP_COMMENT ++ nl) <$> chains)
  ++ lit "COMMIT" ++ nl.
