(* ===== verification/XtablesFacts.v ===== *)
(** * What the comparison of iptables rules shows

    The normal form of rules is injective, and rules that compare equal are the
    same rules in the same chains in the same order. *)

From S2P Require Import Prelude Text Net Application Model State StateFacts Marks Nftables Iptables Netlink Capture Xtables.
Local Open Scope Z_scope.

(** ** The normal form is injective *)

(** A number up to the colon. *)
Lemma dec_colon_inj a b s t : dec a ++ 58 :: s = dec b ++ 58 :: t -> dec a = dec b /\ s = t.
Proof.
  assert (Hno : forall n, 58 ∉ dec n).
  { intros n Hin. destruct (dec_digits n) as [Hd _]. rewrite Forall_forall in Hd. specialize (Hd _ Hin).
    unfold is_digit in Hd. lia. }
  generalize (Hno a) (Hno b). generalize (dec a) (dec b). clear Hno.
  intros x. induction x as [|c x IH]; intros [|d y] Hx Hy; cbn.
  - by intros [= ->].
  - intros [= <- _]. exfalso. apply Hy. by left.
  - intros [= -> _]. exfalso. apply Hx. by left.
  - intros [= -> Heq]. rewrite elem_of_cons in Hx, Hy. apply IH in Heq as [-> ->]; [done|tauto|tauto].
Qed.

Lemma byte_len_cons c s : byte_len (c :: s) = len_utf8 c + byte_len s.
Proof. done. Qed.

Lemma byte_len_prefix_inj s t a b : s ++ a = t ++ b -> byte_len s = byte_len t -> s = t /\ a = b.
Proof.
  revert t. induction s as [|c s IH]; intros [|d t]; rewrite ?byte_len_cons; [done|..].
  - pose proof (len_utf8_bounds d). pose proof (byte_len_nonneg t). change (byte_len []) with 0. lia.
  - pose proof (len_utf8_bounds c). pose proof (byte_len_nonneg s). change (byte_len []) with 0. lia.
  - cbn [app]. intros [= -> Heq] Hl. destruct (IH t Heq) as [-> ->]; [lia|done].
Qed.

Lemma length_prefixed_inj : forall s t, length_prefixed s = length_prefixed t -> s = t.
Proof.
  unfold length_prefixed. induction s as [|x s IH]; intros [|y t] Heq; [done|..].
  - exfalso. cbn in Heq. destruct (dec_digits (byte_len y)) as [_ Hne]. destruct (dec (byte_len y)); done.
  - exfalso. cbn in Heq. destruct (dec_digits (byte_len x)) as [_ Hne]. destruct (dec (byte_len x)); done.
  - cbn [fmap list_fmap concat] in Heq. rewrite <-!app_assoc in Heq.
    change (lit ":") with [58] in Heq. cbn [app] in Heq. apply dec_colon_inj in Heq as [Hl Heq].
    apply dec_inj in Hl; [|apply byte_len_nonneg..]. apply byte_len_prefix_inj in Heq as [-> Heq]; [|done].
    f_equal. by apply IH.
Qed.

(** ** The order of the rules *)

Lemma text_le_refl a : text_le a a = true.
Proof. induction a as [|x a IH]; [done|]. cbn. rewrite Z.eqb_refl, IH. by rewrite orb_true_r. Qed.

Lemma text_le_antisym a b : text_le a b = true -> text_le b a = true -> a = b.
Proof.
  revert b. induction a as [|x a IH]; intros [|y b]; cbn; [done..|].
  rewrite !orb_true_iff, !andb_true_iff, !Z.ltb_lt, !Z.eqb_eq. intros [?|[-> ?]] [?|[? ?]]; try lia.
  f_equal. by apply IH.
Qed.

Lemma text_le_trans a b c : text_le a b = true -> text_le b c = true -> text_le a c = true.
Proof.
  revert b c. induction a as [|x a IH]; intros [|y b] [|z c]; cbn; [done..|].
  rewrite !orb_true_iff, !andb_true_iff, !Z.ltb_lt, !Z.eqb_eq. intros [?|[-> ?]] [?|[-> ?]]; try (left; lia).
  right. split; [done|]. by eapply IH.
Qed.

Lemma text_le_total a b : text_le a b = false -> text_le b a = true.
Proof.
  revert b. induction a as [|x a IH]; intros [|y b]; cbn; [done..|].
  rewrite orb_false_iff, andb_false_iff, Z.ltb_ge, Z.eqb_neq. intros [? [?|Hf]].
  - apply orb_true_iff. left. apply Z.ltb_lt. lia.
  - apply IH in Hf. rewrite Hf, andb_true_r. apply orb_true_iff. rewrite Z.ltb_lt, Z.eqb_eq. lia.
Qed.

(** Chains in order. *)
Abbreviation in_order := (fun a b : ustring * ustring => text_le a.1 b.1 = true) (only parsing).

Lemma insert_rule_in x y rules : y ∈ insert_rule x rules <-> y = x \/ y ∈ rules.
Proof.
  induction rules as [|z rules IH]; cbn [insert_rule]; [by rewrite list_elem_of_singleton, elem_of_nil; tauto|].
  destruct (text_le x.1 z.1); rewrite !elem_of_cons; [tauto|]. rewrite IH. tauto.
Qed.

Lemma sort_rules_in y rules : y ∈ sort_rules rules <-> y ∈ rules.
Proof.
  induction rules as [|x rules IH]; [done|]. cbn [sort_rules foldr]. rewrite insert_rule_in, elem_of_cons.
  unfold sort_rules in IH. by rewrite IH.
Qed.

Lemma insert_rule_sorted x rules : StronglySorted in_order rules -> StronglySorted in_order (insert_rule x rules).
Proof.
  induction 1 as [|z rules Hs IH Hall]; cbn [insert_rule].
  { repeat constructor. }
  destruct (text_le x.1 z.1) eqn:E.
  - constructor; [by constructor|]. constructor; [done|]. eapply Forall_impl; [exact Hall|]. intros y Hy.
    by eapply text_le_trans.
  - constructor; [done|]. apply Forall_forall. intros y [->|Hy]%insert_rule_in.
    + by apply text_le_total.
    + rewrite Forall_forall in Hall. by apply Hall.
Qed.

Lemma sort_rules_sorted rules : StronglySorted in_order (sort_rules rules).
Proof. induction rules as [|x rules IH]; cbn [sort_rules foldr]; [constructor|by apply insert_rule_sorted]. Qed.

(** The rules of one chain keep their order. *)
Definition of_chain (chain : ustring) (rules : list (ustring * ustring)) : list (ustring * ustring) :=
  List.filter (fun rule => bool_decide (rule.1 = chain)) rules.

Lemma insert_rule_chain chain x rules : of_chain chain (insert_rule x rules) = of_chain chain (x :: rules).
Proof.
  induction rules as [|z rules IH]; cbn [insert_rule]; [done|]. destruct (text_le x.1 z.1) eqn:E; [done|].
  unfold of_chain in *. cbn [List.filter] in *. rewrite IH. repeat case_bool_decide; try done. exfalso.
  assert (x.1 = z.1) as Hx by congruence. by rewrite Hx, text_le_refl in E.
Qed.

Lemma sort_rules_chain chain rules : of_chain chain (sort_rules rules) = of_chain chain rules.
Proof.
  induction rules as [|x rules IH]; [done|]. cbn [sort_rules foldr]. rewrite insert_rule_chain.
  unfold of_chain in *. cbn [List.filter]. unfold sort_rules in IH. by rewrite IH.
Qed.

(** ** Tokens *)

(** A character that is itself outside quotes. *)
Definition plain_char (c : char) : bool := negb (is_ascii_whitespace c || (c =? 39) || (c =? 34) || (c =? 92)).
Definition plain (word : ustring) : bool := negb (bool_decide (word = [])) && forallb plain_char word.

Lemma tokenize_char c rest in_token token tokens :
  plain_char c = true ->
  tokenize (c :: rest) None in_token token tokens = tokenize rest None true (token ++ [c]) tokens.
Proof.
  unfold plain_char. rewrite negb_true_iff, !orb_false_iff. intros [[[H1 H2] H3] H4]. cbn [tokenize].
  by rewrite H1, H2, H3, H4.
Qed.

Lemma tokenize_chars word rest token tokens :
  forallb plain_char word = true ->
  tokenize (word ++ rest) None true token tokens = tokenize rest None true (token ++ word) tokens.
Proof.
  revert token. induction word as [|c word IH]; intros token Hw; [by rewrite app_nil_r|].
  cbn [forallb] in Hw. apply andb_true_iff in Hw as [Hc Hw]. cbn [app].
  rewrite tokenize_char, IH by done. by rewrite <-app_assoc.
Qed.

Lemma tokenize_word word rest tokens :
  plain word = true -> tokenize (word ++ rest) None false [] tokens = tokenize rest None true word tokens.
Proof.
  unfold plain. rewrite andb_true_iff, negb_true_iff, bool_decide_eq_false. intros [Hne Hw].
  destruct word as [|c word]; [done|]. cbn [forallb] in Hw. apply andb_true_iff in Hw as [Hc Hw].
  cbn [app]. by rewrite tokenize_char, tokenize_chars.
Qed.

Lemma tokenize_space rest in_token token tokens :
  tokenize (32 :: rest) None in_token token tokens
  = tokenize rest None false (if in_token then [] else token) (if in_token then tokens ++ [token] else tokens).
Proof. cbn [tokenize]. by destruct in_token. Qed.

Lemma tokenize_more : forall rule quote in_token token tokens out,
  tokenize rule quote in_token token tokens = Ok out -> exists more, out = tokens ++ more.
Proof.
  assert (Hind : forall n rule, (length rule <= n)%nat -> forall quote in_token token tokens out,
    tokenize rule quote in_token token tokens = Ok out -> exists more, out = tokens ++ more).
  { induction n as [|n IH]; intros [|c rule] Hn quote in_token token tokens out Hrun; cbn [length] in Hn; [|lia| |];
      cbn [tokenize] in Hrun.
    1,2: apply seq_Ok in Hrun as [_ [= <-]]; destruct in_token; [by eexists|by exists []; rewrite app_nil_r].
    assert (Hstep : forall r q b t, (length r <= n)%nat -> tokenize r q b t tokens = Ok out -> exists more, out = tokens ++ more).
    { intros r q b t Hr. by apply IH. }
    assert (Hpush : forall r q b t u, (length r <= n)%nat -> tokenize r q b t (tokens ++ [u]) = Ok out ->
      exists more, out = tokens ++ more).
    { intros r q b t u Hr Ht. destruct (IH r Hr _ _ _ _ _ Ht) as [more ->]. rewrite <-app_assoc. by eexists. }
    destruct quote as [[]|]; repeat case_match; try done; cbn [length] in *;
      first [by eapply Hpush; [|exact Hrun]; lia|by eapply Hstep; [|exact Hrun]; lia]. }
  intros rule. by eapply Hind.
Qed.

(** A rule that appends to a chain begins with these tokens. *)
Lemma append_tokens chain rule tokens :
  plain chain = true -> starts_with (append_prefix chain) rule = true -> tokenize_xtables_rule rule = Ok tokens ->
  exists more, tokens = lit "-A" :: chain :: more.
Proof.
  intros Hp [rest ->]%starts_with_spec. unfold tokenize_xtables_rule, append_prefix.
  rewrite <-!app_assoc. change (lit "-A ") with (lit "-A" ++ [32]). rewrite <-app_assoc.
  rewrite tokenize_word by reflexivity. cbn [app]. rewrite tokenize_space. cbn [app].
  rewrite tokenize_word by done. change (lit " " ++ rest) with (32 :: rest). rewrite tokenize_space. cbn [app].
  intros [more ->]%tokenize_more. by exists more.
Qed.

Lemma owned_plain chain : chain ∈ all_owned_xtables_chains -> plain chain = true.
Proof.
  assert (Hall : forallb plain all_owned_xtables_chains = true) by (vm_compute; reflexivity).
  rewrite forallb_forall in Hall. intros Hin. by apply Hall, list_elem_of_In.
Qed.

(** ** Normalized rules *)

Definition canonical_rule (rule : ustring) : option (list ustring) :=
  match (tokens ← tokenize_xtables_rule rule; canonical_tokens tokens) with Ok tokens => Some tokens | Err _ => None end.

(** Words that the normal form leaves alone. *)
Definition ordinary (word : ustring) : bool :=
  negb (word ==? lit "--syn") && negb (word ==? lit "-m") && negb (is_mark_option word).

Lemma owned_ordinary chain : chain ∈ all_owned_xtables_chains -> ordinary chain = true.
Proof.
  assert (Hall : forallb ordinary all_owned_xtables_chains = true) by (vm_compute; reflexivity).
  rewrite forallb_forall in Hall. intros Hin. by apply Hall, list_elem_of_In.
Qed.

Lemma drop_module_ordinary protocol word tokens :
  ordinary word = true -> drop_module protocol (word :: tokens) = word :: drop_module protocol tokens.
Proof.
  unfold ordinary. rewrite !andb_true_iff, !negb_true_iff. intros [[_ Hm] _].
  cbn [drop_module]. destruct tokens as [|b tokens]; [done|]. by rewrite Hm.
Qed.

Lemma canonical_start a chain more tokens :
  ordinary a = true -> ordinary chain = true -> canonical_tokens (a :: chain :: more) = Ok tokens ->
  tokens !! 1%nat = Some chain.
Proof.
  intros Ha Hc Hrun. unfold canonical_tokens in Hrun. apply seq_Ok in Hrun as [_ Hrun]. cbn zeta in Hrun.
  assert (Hexp : expand_syn (a :: chain :: more) = a :: chain :: expand_syn more).
  { unfold ordinary in Ha, Hc. rewrite !andb_true_iff, !negb_true_iff in Ha, Hc. unfold expand_syn.
    cbn [mbind list_bind]. destruct Ha as [[-> _] _], Hc as [[-> _] _]. done. }
  rewrite Hexp in Hrun. revert Hrun. generalize (expand_syn more). clear Hexp. intros rest.
  assert (Hmarks : forall l, normalize_marks false (a :: chain :: l) = Ok tokens -> tokens !! 1%nat = Some chain).
  { intros l. unfold ordinary in Ha, Hc. rewrite !andb_true_iff, !negb_true_iff in Ha, Hc.
    destruct Ha as [_ Ha], Hc as [_ Hc]. cbn [normalize_marks mbind Result_bind mret Result_ret]. rewrite Ha.
    cbn [normalize_marks mbind Result_bind mret Result_ret]. rewrite Hc. destruct (normalize_marks false l); [|done].
    by intros [= <-]. }
  destruct (rule_protocol _) as [protocol|]; [|apply Hmarks]. destruct (_ || _); [|apply Hmarks].
  rewrite !drop_module_ordinary by done. apply Hmarks.
Qed.

(** What comparing a rule remembers. *)
Lemma normalize_owned_Ok rule chain normalized :
  normalize_owned_xtables_rule rule = Ok (chain, normalized) ->
  chain ∈ all_owned_xtables_chains
  /\ exists tokens, canonical_rule rule = Some tokens /\ normalized = length_prefixed tokens /\ tokens !! 1%nat = Some chain.
Proof.
  unfold normalize_owned_xtables_rule. intros Hrun. apply bind_Ok_inv in Hrun as (words & Ht & Hrun).
  apply bind_Ok_inv in Hrun as (c & Hc & Hrun). apply ok_or_Ok in Hc. apply seq_Ok in Hrun as [He Hrun].
  apply ensure_Ok, andb_true_iff in He as [Hh%bool_decide_eq_true Hown].
  apply bind_Ok_inv in Hrun as (n & Hn & [= -> ->]).
  assert (Hin : chain ∈ all_owned_xtables_chains).
  { unfold contains in Hown. apply existsb_exists in Hown as (x & Hx & Heq). apply (proj1 (eqb_true _ _)) in Heq as ->.
    by apply list_elem_of_In. }
  split; [done|]. unfold normalize_xtables_tokens in Hn. apply bind_Ok_inv in Hn as (tokens & Hcan & [= <-]).
  exists tokens. split_and!; [unfold canonical_rule; rewrite Ht; cbn [mbind Result_bind]; by rewrite Hcan|done|].
  destruct words as [|a [|c words]]; [done|done|]. change (Some a = Some (lit "-A")) in Hh.
  change (Some c = Some chain) in Hc. assert (a = lit "-A") as -> by congruence.
  assert (c = chain) as -> by congruence.
  apply (canonical_start (lit "-A") chain words); [reflexivity|by apply owned_ordinary|exact Hcan].
Qed.

Lemma normalize_owned_chain rule chain normalized chain' :
  normalize_owned_xtables_rule rule = Ok (chain, normalized) -> plain chain' = true ->
  starts_with (append_prefix chain') rule = true -> chain' = chain.
Proof.
  unfold normalize_owned_xtables_rule. intros Hrun Hp Hs. apply bind_Ok_inv in Hrun as (words & Ht & Hrun).
  destruct (append_tokens _ _ _ Hp Hs Ht) as [more ->].
  apply bind_Ok_inv in Hrun as (c & Hc & Hrun). apply ok_or_Ok in Hc. change (Some chain' = Some c) in Hc.
  apply seq_Ok in Hrun as [_ Hrun]. apply bind_Ok_inv in Hrun as (n & _ & [= <- _]). congruence.
Qed.

(** ** Views of the rules of a chain *)

Abbreviation normalizes := (fun rule pair => normalize_owned_xtables_rule rule = Ok pair) (only parsing).

(** The rules that a table lists for a chain, and those of a program. *)
Definition saved_chain (self : XtablesSnapshot) (chain : ustring) : list (list ustring) :=
  omap canonical_rule (rules_for_chain self chain).
Definition program_chain (policy chain : ustring) : list (list ustring) :=
  List.filter (fun tokens => bool_decide (tokens !! 1%nat = Some chain))
    (omap canonical_rule (List.filter (starts_with (lit "-A ")) (lines policy))).

Lemma chain_view rules pairs chain :
  Forall2 normalizes rules pairs ->
  (of_chain chain pairs).*2
  = length_prefixed <$> List.filter (fun tokens => bool_decide (tokens !! 1%nat = Some chain)) (omap canonical_rule rules).
Proof.
  induction 1 as [|rule [c n] rules pairs Hn _ IH]; [done|].
  apply normalize_owned_Ok in Hn as (_ & tokens & Hc & -> & Htok). cbn [omap list_omap]. rewrite Hc.
  unfold of_chain in *. cbn [List.filter fst]. rewrite Htok.
  destruct (decide (c = chain)) as [->|Hne].
  - rewrite !bool_decide_eq_true_2 by done. cbn [fmap list_fmap snd]. f_equal. exact IH.
  - rewrite !bool_decide_eq_false_2 by congruence. exact IH.
Qed.

Lemma saved_view self pairs chain :
  Forall2 normalizes (List.filter is_owned_rule (ordered_rules self)) pairs -> chain ∈ all_owned_xtables_chains ->
  (of_chain chain pairs).*2 = length_prefixed <$> saved_chain self chain.
Proof.
  intros Hn Hown. rewrite (chain_view _ _ _ Hn). f_equal. unfold saved_chain, rules_for_chain.
  revert pairs Hn. induction (ordered_rules self) as [|rule rules IH]; intros pairs Hn; [done|].
  cbn [List.filter] in *. destruct (is_owned_rule rule) eqn:Eo.
  - apply Forall2_cons_inv_l in Hn as ([c n] & pairs' & Hr & Hn & ->).
    pose proof (normalize_owned_Ok _ _ _ Hr) as (_ & tokens & Hc & _ & Htok).
    assert (Hiff : bool_decide (tokens !! 1%nat = Some chain) = starts_with (append_prefix chain) rule).
    { rewrite Htok. destruct (starts_with (append_prefix chain) rule) eqn:Es.
      - apply bool_decide_eq_true. f_equal. symmetry. eapply normalize_owned_chain; [exact Hr|by apply owned_plain|done].
      - apply bool_decide_eq_false. intros [= ->]. unfold is_owned_rule in Eo.
        apply existsb_exists in Eo as (c' & Hin & Hs). apply list_elem_of_In in Hin.
        rewrite (normalize_owned_chain _ _ _ _ Hr (owned_plain _ Hin) Hs) in Hs. congruence. }
    cbn [omap list_omap]. rewrite Hc. cbn [List.filter]. rewrite Hiff.
    destruct (starts_with (append_prefix chain) rule); cbn [omap list_omap]; rewrite ?Hc, (IH _ Hn); done.
  - destruct (starts_with (append_prefix chain) rule) eqn:Es; [|by eapply IH].
    exfalso. apply not_true_iff_false in Eo. apply Eo, existsb_exists. exists chain. split; [by apply list_elem_of_In|done].
Qed.

Lemma length_prefixed_all_inj : forall s t : list (list ustring), length_prefixed <$> s = length_prefixed <$> t -> s = t.
Proof.
  induction s as [|x s IH]; intros [|y t] Heq; [done..|]. cbn in Heq. injection Heq as Hx Heq.
  apply length_prefixed_inj in Hx as ->. f_equal. by apply IH.
Qed.

(** ** Reading *)

Lemma save_lines_Ok : forall text declared rules owned counters self,
  parse_save_lines text declared rules owned counters = Ok self ->
  Forall2 normalizes (List.filter is_owned_rule rules) owned ->
  exists pairs, snapshot_owned_rules self = order_owned_xtables_rules pairs
  /\ Forall2 normalizes (List.filter is_owned_rule (ordered_rules self)) pairs.
Proof.
  induction text as [|line text IH]; intros declared rules owned counters self Hrun Hn; cbn [parse_save_lines] in Hrun.
  { injection Hrun as <-. by exists owned. }
  destruct (chain_declaration line) as [chain|].
  { apply seq_Ok in Hrun as [_ Hrun]. by eapply IH. }
  apply bind_Ok_inv in Hrun as (saved & _ & Hrun). destruct saved as [[[p b] rule]|]; [|by eapply IH].
  destruct (is_owned_rule rule) eqn:Eo.
  - apply bind_Ok_inv in Hrun as (c' & _ & Hrun). apply bind_Ok_inv in Hrun as (pair & Hp & Hrun).
    eapply IH; [exact Hrun|]. rewrite List.filter_app. cbn [List.filter]. rewrite Eo. by apply Forall2_app; [|constructor].
  - eapply IH; [exact Hrun|]. rewrite List.filter_app. cbn [List.filter]. by rewrite Eo, app_nil_r.
Qed.

Lemma save_Ok text self :
  parse_xtables_text text = Ok self ->
  exists pairs, snapshot_owned_rules self = order_owned_xtables_rules pairs
  /\ Forall2 normalizes (List.filter is_owned_rule (ordered_rules self)) pairs.
Proof.
  unfold parse_xtables_text. intros Hrun. apply seq_Ok in Hrun as [_ Hrun]. apply seq_Ok in Hrun as [_ Hrun].
  eapply save_lines_Ok; [exact Hrun|constructor].
Qed.

Definition of_table (chains : list ustring) (pairs : list (ustring * ustring)) : list (ustring * ustring) :=
  List.filter (fun pair => contains pair.1 chains) pairs.

Lemma chains_disjoint chain : contains chain owned_mangle_chains = true -> contains chain owned_chains = false.
Proof.
  assert (Hall : forallb (fun c => negb (contains c owned_chains)) owned_mangle_chains = true) by (vm_compute; reflexivity).
  rewrite forallb_forall in Hall. intros Hc. unfold contains in Hc at 1. apply existsb_exists in Hc as (c & Hin & Heq).
  apply (proj1 (eqb_true _ _)) in Heq as ->. apply negb_true_iff, Hall. done.
Qed.

Lemma compiled_lines_Ok : forall text table filter mangle committed out,
  compiled_lines text table filter mangle committed = Ok out ->
  exists pairs, Forall2 normalizes (List.filter (starts_with (lit "-A ")) text) pairs
  /\ out = order_owned_xtables_rules (mangle ++ of_table owned_mangle_chains pairs)
           ++ order_owned_xtables_rules (filter ++ of_table owned_chains pairs)
  /\ Forall (fun pair => contains pair.1 owned_mangle_chains || contains pair.1 owned_chains = true) pairs.
Proof.
  induction text as [|line text IH]; intros table filter mangle committed out Hrun; cbn [compiled_lines] in Hrun.
  { apply seq_Ok in Hrun as [_ [= <-]]. exists []. cbn. by rewrite !app_nil_r. }
  assert (Hskip : starts_with (lit "-A ") line = false -> forall table committed,
    compiled_lines text table filter mangle committed = Ok out ->
    exists pairs, Forall2 normalizes (List.filter (starts_with (lit "-A ")) (line :: text)) pairs
    /\ out = order_owned_xtables_rules (mangle ++ of_table owned_mangle_chains pairs)
             ++ order_owned_xtables_rules (filter ++ of_table owned_chains pairs)
    /\ Forall (fun pair => contains pair.1 owned_mangle_chains || contains pair.1 owned_chains = true) pairs).
  { intros Hs table' committed' Hr. cbn [List.filter]. rewrite Hs. by eapply IH. }
  destruct (line ==? lit "*filter") eqn:E1.
  { apply (proj1 (eqb_true _ _)) in E1 as ->. apply seq_Ok in Hrun as [_ Hrun]. by eapply Hskip. }
  destruct (line ==? lit "*mangle") eqn:E2.
  { apply (proj1 (eqb_true _ _)) in E2 as ->. apply seq_Ok in Hrun as [_ Hrun]. by eapply Hskip. }
  destruct (line ==? lit "COMMIT") eqn:E3.
  { apply (proj1 (eqb_true _ _)) in E3 as ->. apply seq_Ok in Hrun as [_ Hrun]. by eapply Hskip. }
  destruct (starts_with (lit "-A ") line) eqn:Es; [|by eapply Hskip].
  apply bind_Ok_inv in Hrun as (in_mangle & _ & Hrun). apply bind_Ok_inv in Hrun as (pair & Hp & Hrun).
  apply seq_Ok in Hrun as [Hc%ensure_Ok Hrun]. cbn [List.filter]. rewrite Es.
  destruct in_mangle; apply IH in Hrun as (pairs & Hn & -> & Hall); exists (pair :: pairs).
  - split_and!; [by constructor| |constructor; [by rewrite Hc|done]].
    unfold of_table. cbn [List.filter]. by rewrite Hc, (chains_disjoint _ Hc), <-app_assoc.
  - split_and!; [by constructor| |constructor; [by rewrite Hc, orb_true_r|done]].
    unfold of_table. cbn [List.filter]. rewrite Hc. destruct (contains pair.1 owned_mangle_chains) eqn:Em;
      [by rewrite (chains_disjoint _ Em) in Hc|by rewrite <-app_assoc].
Qed.

Lemma compiled_Ok policy expected :
  compiled_owned_rules policy = Ok expected ->
  exists pairs, Forall2 normalizes (List.filter (starts_with (lit "-A ")) (lines policy)) pairs
  /\ expected = order_owned_xtables_rules (of_table owned_mangle_chains pairs)
                ++ order_owned_xtables_rules (of_table owned_chains pairs).
Proof. intros (pairs & Hn & -> & _)%compiled_lines_Ok. by exists pairs. Qed.

(** ** One list of rules splits into the two tables in one way *)

(** A normalised rule says what chain it belongs to. *)
Definition named (pair : ustring * ustring) : Prop :=
  exists tokens, pair.2 = length_prefixed tokens /\ tokens !! 1%nat = Some pair.1.

Lemma normalizes_named rules pairs : Forall2 normalizes rules pairs -> Forall named pairs.
Proof.
  induction 1 as [|rule [c n] rules pairs Hn _ IH]; constructor; [|done].
  apply normalize_owned_Ok in Hn as (_ & tokens & _ & -> & Htok). by exists tokens.
Qed.

Lemma named_eq : forall s t, Forall named s -> Forall named t -> s.*2 = t.*2 -> s = t.
Proof.
  induction s as [|[c n] s IH]; intros [|[c' n'] t]; cbn [fmap list_fmap snd]; [done..|].
  intros [(u & Hu & Hc) Hs]%Forall_cons [(v & Hv & Hc') Ht]%Forall_cons [= Hn Heq]. cbn [fst snd] in *.
  assert (u = v) as -> by (apply length_prefixed_inj; congruence). assert (c = c') as -> by congruence. subst n.
  rewrite (IH t) by done. congruence.
Qed.

Lemma sorted_app_le s t x y :
  StronglySorted in_order (s ++ t) -> x ∈ s -> y ∈ t -> text_le x.1 y.1 = true.
Proof.
  induction s as [|z s IH]; [by intros _ ?%elem_of_nil|]. cbn. intros Hs [->|Hx]%elem_of_cons Hy.
  - apply StronglySorted_inv in Hs as [_ Hall]. rewrite Forall_forall in Hall. apply Hall, elem_of_app. by right.
  - apply StronglySorted_inv in Hs as [Hs _]. by apply IH.
Qed.

Lemma sorted_head_le x s y : StronglySorted in_order (x :: s) -> y ∈ x :: s -> text_le x.1 y.1 = true.
Proof.
  intros [_ Hall]%StronglySorted_inv [->|Hy]%elem_of_cons; [apply text_le_refl|]. rewrite Forall_forall in Hall. by apply Hall.
Qed.

(** The least chain of the filter table, and a chain of the mangle table. *)
Abbreviation least_chain := IPTABLES_APPLICATION_PACKET_CHAIN (only parsing).
Abbreviation mark_chain := IPTABLES_MARK_SANITIZE_CHAIN (only parsing).

Lemma contains_spec chain chains (P : ustring -> bool) :
  forallb P chains = true -> contains chain chains = true -> P chain = true.
Proof.
  intros Hall. unfold contains. rewrite existsb_exists. intros (c & Hin & Heq).
  apply (proj1 (eqb_true _ _)) in Heq as ->. rewrite forallb_forall in Hall. by apply Hall.
Qed.

Lemma filter_chain_least chain : contains chain owned_chains = true -> text_le least_chain chain = true.
Proof. apply contains_spec with (P := text_le least_chain). vm_compute. reflexivity. Qed.
Lemma mangle_chain_above chain : contains chain owned_mangle_chains = true -> text_le chain least_chain = false.
Proof. intros Hc. apply negb_true_iff. revert chain Hc. intros chain. apply (contains_spec chain _ (fun c => negb (text_le c least_chain))). vm_compute. reflexivity. Qed.

Lemma tables_split ms fs mp fp :
  sort_rules ms ++ sort_rules fs = sort_rules mp ++ sort_rules fp ->
  Forall (fun pair => contains pair.1 owned_mangle_chains = true) mp ->
  Forall (fun pair => contains pair.1 owned_chains = true) fp ->
  (exists n, (mark_chain, n) ∈ ms) -> (exists n, (least_chain, n) ∈ fs) ->
  sort_rules ms = sort_rules mp /\ sort_rules fs = sort_rules fp.
Proof.
  rewrite !Forall_forall. intros Heq Hmp Hfp [mn Hm%sort_rules_in] [ln Hl%sort_rules_in].
  pose proof (sort_rules_sorted ms) as Sms. pose proof (sort_rules_sorted fs) as Sfs. pose proof (sort_rules_sorted fp) as Sfp.
  apply app_eq_inv in Heq as [(l & E1 & E2)|(l & E1 & E2)]; destruct l as [|x l]; rewrite ?app_nil_r in E1; cbn in E2; try done; exfalso.
  - assert (Hfx : forall y, y ∈ x :: l -> contains y.1 owned_chains = true).
    { intros y Hy. apply Hfp, sort_rules_in. rewrite E2. change (y ∈ (x :: l) ++ sort_rules fs). apply elem_of_app. by left. }
    rewrite E2 in Sfp. assert (Hle : text_le x.1 least_chain = true).
    { apply (sorted_app_le (x :: l) (sort_rules fs) x (least_chain, ln)); [exact Sfp|by left|exact Hl]. }
    pose proof (text_le_antisym _ _ Hle (filter_chain_least _ (Hfx x ltac:(by left)))) as Hxl.
    rewrite E1 in Sms, Hm. apply elem_of_app in Hm as [Hm|Hm].
    + pose proof (sorted_app_le _ _ _ x Sms Hm ltac:(by left)) as Hbad. rewrite Hxl in Hbad. vm_compute in Hbad. done.
    + apply Hfx in Hm. vm_compute in Hm. done.
  - assert (Hx : x ∈ sort_rules mp) by (rewrite E1; apply elem_of_app; right; left).
    apply sort_rules_in, Hmp, mangle_chain_above in Hx. rewrite E2 in Sfs, Hl.
    apply (sorted_head_le _ _ _ Sfs) in Hl. cbn [fst] in Hl. congruence.
Qed.

(** ** What verification establishes *)

Lemma owned_chain_Ok self chain :
  verify_owned_chain self chain = Ok tt ->
  chain ∈ declared_chains self /\ exists rule, first_rule self chain = Some rule /\ is_exact_ownership_rule rule chain = Ok true.
Proof.
  unfold verify_owned_chain, verify_chain_ownership. intros Hrun. apply seq_Ok in Hrun as [Hd%ensure_Ok%bool_decide_eq_true Hrun].
  apply bind_Ok_inv in Hrun as (rule & Hf%ok_or_Ok & Hrun). apply bind_Ok_inv in Hrun as (exact & He & Hx%ensure_Ok). subst exact.
  split; [done|]. by exists rule.
Qed.

Lemma head_in {A} (x : A) items : head items = Some x -> x ∈ items.
Proof. destruct items; [done|]. intros [= ->]. by left. Qed.

(** A verified chain has a rule among the owned ones. *)
Lemma owned_chain_listed self pairs chain :
  Forall2 normalizes (List.filter is_owned_rule (ordered_rules self)) pairs ->
  chain ∈ all_owned_xtables_chains -> verify_owned_chain self chain = Ok tt -> exists n, (chain, n) ∈ pairs.
Proof.
  intros Hn Hown (_ & rule & Hf & _)%owned_chain_Ok. unfold first_rule, rules_for_chain in Hf.
  assert (Hin : rule ∈ List.filter (starts_with (append_prefix chain)) (ordered_rules self)).
  { by apply head_in. }
  apply list_elem_of_In, filter_In in Hin as [Hin Hs].
  assert (Hr : rule ∈ List.filter is_owned_rule (ordered_rules self)).
  { apply list_elem_of_In, filter_In. split; [done|]. unfold is_owned_rule. apply existsb_exists. exists chain.
    split; [by apply list_elem_of_In|done]. }
  apply list_elem_of_lookup in Hr as [i Hi]. destruct (Forall2_lookup_l _ _ _ _ _ Hn Hi) as ([c n] & Hp & Hr).
  rewrite (normalize_owned_chain _ _ _ _ Hr (owned_plain _ Hown) Hs). exists n. by eapply list_elem_of_lookup_2.
Qed.

Lemma filter_topology_Ok self :
  verify_filter_topology self = Ok tt ->
  Forall (fun chain => verify_owned_chain self chain = Ok tt) owned_chains
  /\ Forall (fun '(built_in, target) => first_rule self built_in = Some (dispatch_rule built_in target)
       /\ dispatchers self built_in owned_chains = 1%nat) filter_dispatcher_pairs.
Proof.
  unfold verify_filter_topology. intros Hrun. apply seq_Ok in Hrun as [?%for_each_Ok Hrun%for_each_Ok]. split; [done|].
  eapply Forall_impl; [exact Hrun|]. intros [b t] Hb. apply seq_Ok in Hb as [H1%ensure_Ok%bool_decide_eq_true H2%ensure_Ok].
  by apply Nat.eqb_eq in H2.
Qed.

Lemma mangle_topology_Ok self :
  verify_mangle_topology self = Ok tt ->
  Forall (fun chain => verify_owned_chain self chain = Ok tt) owned_mangle_chains
  /\ Forall (fun '(built_in, target) => first_rule self built_in = Some (dispatch_rule built_in target)) mangle_first_dispatcher_pairs
  /\ Forall (fun '(built_in, target) => last_rule self built_in = Some (dispatch_rule built_in target)) mangle_last_dispatcher_pairs
  /\ Forall (fun '(built_in, _) => dispatchers self built_in owned_mangle_chains = 2%nat) mangle_first_dispatcher_pairs.
Proof.
  unfold verify_mangle_topology. intros Hrun. apply seq_Ok in Hrun as [?%for_each_Ok Hrun].
  apply seq_Ok in Hrun as [H1%for_each_Ok Hrun]. apply seq_Ok in Hrun as [H2%for_each_Ok H3%for_each_Ok].
  split_and!; [done|eapply Forall_impl; [exact H1|]|eapply Forall_impl; [exact H2|]|eapply Forall_impl; [exact H3|]];
    intros [b t] Hb.
  - by apply seq_Ok in Hb as [?%ensure_Ok%bool_decide_eq_true _].
  - by apply seq_Ok in Hb as [?%ensure_Ok%bool_decide_eq_true _].
  - by apply ensure_Ok, Nat.eqb_eq in Hb.
Qed.

(** The tables hold exactly the rules of a program, in its order, reached from the built-in chains. *)
Record installed (policy : ustring) (filter mangle : XtablesSnapshot) : Prop := mkInstalled {
  in_filter : forall chain, chain ∈ owned_chains -> saved_chain filter chain = program_chain policy chain;
  in_mangle : forall chain, chain ∈ owned_mangle_chains -> saved_chain mangle chain = program_chain policy chain;
  in_first : forall built_in target, (built_in, target) ∈ filter_dispatcher_pairs ->
    first_rule filter built_in = Some (dispatch_rule built_in target) /\ dispatchers filter built_in owned_chains = 1%nat;
  in_marks : first_rule mangle (lit "OUTPUT") = Some (dispatch_rule (lit "OUTPUT") IPTABLES_MARK_SANITIZE_CHAIN);
  in_observer : last_rule mangle (lit "OUTPUT") = Some (dispatch_rule (lit "OUTPUT") IPTABLES_LEARNING_OBSERVE_CHAIN);
  in_two : dispatchers mangle (lit "OUTPUT") owned_mangle_chains = 2%nat
}.

Lemma of_chain_of_table chains chain pairs :
  contains chain chains = true -> of_chain chain (of_table chains pairs) = of_chain chain pairs.
Proof.
  intros Hc. unfold of_chain, of_table. induction pairs as [|pair pairs IH]; [done|]. cbn [List.filter].
  destruct (contains pair.1 chains) eqn:E; cbn [List.filter]; rewrite IH; [done|].
  rewrite bool_decide_eq_false_2; [done|]. intros <-. congruence.
Qed.

Lemma contains_elem chain chains : chain ∈ chains -> contains chain chains = true.
Proof.
  intros Hin. apply existsb_exists. exists chain. split; [by apply list_elem_of_In|]. by apply eqb_true.
Qed.

Lemma owned_filter_elem chain : chain ∈ owned_chains -> chain ∈ all_owned_xtables_chains.
Proof. intros Hin. apply elem_of_app. by left. Qed.
Lemma owned_mangle_elem chain : chain ∈ owned_mangle_chains -> chain ∈ all_owned_xtables_chains.
Proof. intros Hin. apply elem_of_app. by right. Qed.

Lemma of_table_all chains pairs : Forall (fun pair => contains pair.1 chains = true) (of_table chains pairs).
Proof. apply Forall_forall. intros pair Hin. by apply list_elem_of_In, filter_In in Hin as [_ ?]. Qed.

Lemma of_table_named chains pairs : Forall named pairs -> Forall named (of_table chains pairs).
Proof.
  rewrite !Forall_forall. intros Hall pair Hin. apply list_elem_of_In, filter_In in Hin as [Hin _].
  by apply Hall, list_elem_of_In.
Qed.

Lemma sort_named pairs : Forall named pairs -> Forall named (sort_rules pairs).
Proof. rewrite !Forall_forall. intros Hall pair Hin. by apply Hall, (sort_rules_in pair pairs). Qed.

Lemma table_view policy self chains chain pairs saved :
  Forall2 normalizes (List.filter (starts_with (lit "-A ")) (lines policy)) pairs ->
  Forall2 normalizes (List.filter is_owned_rule (ordered_rules self)) saved ->
  sort_rules saved = sort_rules (of_table chains pairs) -> chain ∈ chains -> chain ∈ all_owned_xtables_chains ->
  saved_chain self chain = program_chain policy chain.
Proof.
  intros Hp Hs Hsort Hin Hown. apply length_prefixed_all_inj. unfold program_chain.
  rewrite <-(saved_view _ _ _ Hs Hown), <-(chain_view _ _ _ Hp), <-(sort_rules_chain chain saved), Hsort,
    sort_rules_chain, of_chain_of_table; [done|by apply contains_elem].
Qed.

Lemma verified_installed policy expected ftext mtext filter mangle :
  compiled_owned_rules policy = Ok expected ->
  parse_xtables_text ftext = Ok filter -> parse_xtables_text mtext = Ok mangle ->
  verify_filter_topology filter = Ok tt -> verify_mangle_topology mangle = Ok tt ->
  snapshot_owned_rules mangle ++ snapshot_owned_rules filter = expected ->
  installed policy filter mangle.
Proof.
  intros (pairs & Hp & ->)%compiled_Ok (fs & Hf & Hfs)%save_Ok (ms & Hm & Hms)%save_Ok
    [Fc Fd]%filter_topology_Ok (Mc & Mf & Ml & Mt)%mangle_topology_Ok Heq.
  rewrite Hf, Hm in Heq. unfold order_owned_xtables_rules in Heq. rewrite <-!fmap_app in Heq.
  pose proof (normalizes_named _ _ Hp) as Np.
  apply named_eq in Heq; [|apply Forall_app; split; apply sort_named; by eapply normalizes_named
    |apply Forall_app; split; by apply sort_named, of_table_named].
  rewrite Forall_forall in Fc, Mc.
  apply tables_split in Heq as [Em Ef]; [|apply of_table_all|apply of_table_all
    |eapply owned_chain_listed; [exact Hms| |apply Mc]; vm_compute; set_solver
    |eapply owned_chain_listed; [exact Hfs| |apply Fc]; vm_compute; set_solver].
  split.
  - intros chain Hin. eapply table_view; [exact Hp|exact Hfs|exact Ef|done|by apply owned_filter_elem].
  - intros chain Hin. eapply table_view; [exact Hp|exact Hms|exact Em|done|by apply owned_mangle_elem].
  - intros b t Hin. by apply (proj1 (Forall_forall _ _) Fd (b, t)).
  - by inversion Mf.
  - by inversion Ml.
  - by inversion Mt.
Qed.
