(* ===== verification/Commands.v ===== *)
(** * Running firewall tools

    [backend.rs] of the daemon: the executables that are trusted, and the
    processes that are started from them, with bounded output and a deadline.

    What the host answers is the class [Host]: the answer to every question may
    depend on everything that was asked before, and nothing is assumed about it.
    [HostEvent]s record the questions and their answers in order.  The pipes that
    [Stdio::piped] asks for exist, and the threads that read and write them do not
    panic. *)

From S2P Require Import Prelude Text Net Application Model State Netlink Protocol Storage.
Local Open Scope Z_scope.

(** ** Processes *)

(** The exit code, if the process was not ended by a signal. *)
Definition ExitStatus : Type := option Z.
Definition status_success (status : ExitStatus) : bool := status ==? Some 0.

Inductive Poll : Type := Exited (status : ExitStatus) | StillRunning | PollFailed.

(** One run of a program.  [polls] and [clock] are the answer to the [n]-th
    [try_wait] and the milliseconds since the start at the comparison after it.
    The reads of a pipe are its chunks in order, [None] for a failed read. *)
Record Process : Type := mkProcess {
  process_starts : bool;
  writer_starts : bool;
  written : bool;
  stdout_reader_starts : bool;
  stderr_reader_starts : bool;
  polls : nat -> Poll;
  clock : nat -> Z;
  stdout_reads : list (option Bytes);
  stderr_reads : list (option Bytes)
}.

(** The input is the text whose bytes are written. *)
Record Command : Type := mkCommand {
  program : Path;
  arguments : list ustring;
  command_input : option ustring
}.
#[export] Instance Command_eq_dec : EqDecision Command.
Proof. solve_decision. Defined.

Inductive HostEvent : Type :=
| Ran (command : Command) (process : Process)
| Looked (path : Path) (metadata : Result IoError Stat)
| Followed (path : Path) (metadata : Result IoError Stat)
| Resolved (path : Path) (target : Result IoError Path).

Class Host : Type := {
  host_process : list HostEvent -> Command -> Process;
  host_symlink_metadata : list HostEvent -> Path -> Result IoError Stat;
  host_metadata : list HostEvent -> Path -> Result IoError Stat;
  host_canonicalize : list HostEvent -> Path -> Result IoError Path
}.

(** *** Waiting *)

Abbreviation WAIT_INTERVAL := 10 (only parsing).
Abbreviation NFT_TIMEOUT := 5000 (only parsing).
Abbreviation NFT_QUERY_TIMEOUT := 2000 (only parsing).
Abbreviation NFT_OBSERVATION_TIMEOUT := 6000 (only parsing).
Definition MAX_POLICY_BYTES : Z := 8388608.
Definition MAX_NFT_OUTPUT_BYTES : Z := 16777216.
Definition MAX_FIREWALL_STDERR_BYTES : Z := 65536.

(** How waiting ends, and whether the child is killed. *)
Inductive Waited : Type :=
| WaitExited (status : ExitStatus)
| WaitFailed
| WaitDeadline
(** Not an end of the source: the loop needs more rounds than the model gave it.
    [wait_child_ends] shows that this does not happen. *)
| WaitStalled.

Fixpoint wait_from (child : Process) (timeout : Z) (fuel n : nat) : Waited :=
  match fuel with
  | O => WaitStalled
  | S fuel =>
      match polls child n with
      | Exited status => WaitExited status
      | PollFailed => WaitFailed
      | StillRunning => if timeout <=? clock child n then WaitDeadline else wait_from child timeout fuel (S n)
      end
  end.

Definition wait_rounds (timeout : Z) : nat := S (S (Z.to_nat (timeout / WAIT_INTERVAL))).
Definition wait_child (child : Process) (timeout : Z) : Waited := wait_from child timeout (wait_rounds timeout) 0.

Definition wait_with_timeout (child : Process) (timeout : Z) : Result string ExitStatus :=
  match wait_child child timeout with
  | WaitExited status => Ok status
  | WaitFailed => Err "failed to query firewall subprocess"%string
  | WaitDeadline | WaitStalled => Err "firewall subprocess exceeded its deadline"%string
  end.

(** [terminate_child] was called. *)
Definition wait_kills (child : Process) (timeout : Z) : bool :=
  match wait_child child timeout with WaitExited _ => false | _ => true end.

(** *** Output *)

Record BoundedCommandStream : Type := mkStream { stream_bytes : Bytes; stream_overflow : bool }.

(** The loop of the reader thread; an empty read is the end of the file. *)
Fixpoint read_bounded (reads : list (option Bytes)) (maximum : Z) (bytes : Bytes) (overflow : bool)
    : Result string BoundedCommandStream :=
  match reads with
  | [] | Some [] :: _ => mret (mkStream bytes overflow)
  | None :: _ => Err "failed to read firewall subprocess output"%string
  | Some chunk :: rest =>
      let remaining := usize_saturating_sub maximum (zlen bytes) in
      let keep := Z.min remaining (zlen chunk) in
      read_bounded rest maximum (bytes ++ take (Z.to_nat keep) chunk) (overflow || negb (keep =? zlen chunk))
  end.

Definition command_reader (reads : list (option Bytes)) (maximum : Z) : Result string BoundedCommandStream :=
  read_bounded reads maximum [] false.

Record CapturedCommandOutput : Type := mkCaptured { captured_status : ExitStatus; captured_stdout : Bytes; captured_stderr : Bytes }.

(** What each kind of call makes of the process. *)
Definition finished (child : Process) (timeout : Z) : Result string unit :=
  ensure (process_starts child) "failed to start trusted executable" ;;
  status ← wait_with_timeout child timeout;
  ensure (status_success status) "trusted executable exited with a failure".

Definition finished_with_input (child : Process) (timeout : Z) : Result string unit :=
  ensure (process_starts child) "failed to start trusted executable" ;;
  ensure (writer_starts child) "failed to create bounded xtables input writer" ;;
  status ← wait_with_timeout child timeout;
  ensure (written child) "failed to send policy to xtables restore" ;;
  ensure (status_success status) "trusted executable exited with a failure".

Definition captured_by (child : Process) (timeout maximum : Z) : Result string Bytes :=
  ensure (process_starts child) "failed to start trusted executable" ;;
  ensure (stdout_reader_starts child) "failed to create bounded firewall stdout reader" ;;
  status ← wait_with_timeout child timeout;
  stdout ← command_reader (stdout_reads child) maximum;
  ensure (status_success status) "trusted executable exited with a failure" ;;
  ensure (negb (stream_overflow stdout)) "stdout exceeded its bound" ;;
  mret (stream_bytes stdout).

Definition captured_output_by (child : Process) (timeout maximum : Z) : Result string CapturedCommandOutput :=
  ensure (process_starts child) "failed to start trusted executable" ;;
  ensure (stdout_reader_starts child) "failed to create bounded firewall stdout reader" ;;
  ensure (stderr_reader_starts child) "failed to create bounded firewall stderr reader" ;;
  status ← wait_with_timeout child timeout;
  stdout ← command_reader (stdout_reads child) maximum;
  stderr ← command_reader (stderr_reads child) MAX_FIREWALL_STDERR_BYTES;
  ensure (negb (stream_overflow stdout)) "stdout exceeded its bound" ;;
  ensure (negb (stream_overflow stderr)) "stderr exceeded its bound" ;;
  mret (mkCaptured status (stream_bytes stdout) (stream_bytes stderr)).

(** *** Calls *)

Section Calls.
Context `{Host}.
Abbreviation OnHost := (ST (list HostEvent) string) (only parsing).

Definition ask {A} (answer : list HostEvent -> A) (event : A -> HostEvent) : OnHost A := fun events =>
  (events ++ [event (answer events)], Ok (answer events)).

Definition spawn (command : Command) : OnHost Process :=
  ask (fun events => host_process events command) (Ran command).

Definition run_command (path : Path) (args : list ustring) (timeout : Z) : OnHost unit :=
  child ← spawn (mkCommand path args None); lift (finished child timeout).

Definition run_command_with_input (path : Path) (args : list ustring) (input : ustring) (timeout : Z) : OnHost unit :=
  child ← spawn (mkCommand path args (Some input)); lift (finished_with_input child timeout).

Definition capture_command (path : Path) (args : list ustring) (timeout maximum : Z) : OnHost Bytes :=
  child ← spawn (mkCommand path args None); lift (captured_by child timeout maximum).

Definition capture_command_output (path : Path) (args : list ustring) (timeout maximum_stdout : Z)
    : OnHost CapturedCommandOutput :=
  child ← spawn (mkCommand path args None); lift (captured_output_by child timeout maximum_stdout).

(** *** Trusted executables *)

Definition io_lift {A} (r : Result IoError A) : OnHost A := lift (map_err (fun _ => "i/o"%string) r).

Definition look (path : Path) : OnHost Stat :=
  r ← ask (fun events => host_symlink_metadata events path) (Looked path); io_lift r.
Definition follow (path : Path) : OnHost Stat :=
  r ← ask (fun events => host_metadata events path) (Followed path); io_lift r.
Definition canonicalize (path : Path) : OnHost Path :=
  r ← ask (fun events => host_canonicalize events path) (Resolved path); io_lift r.

(** The directories above a path, from the nearest. *)
Fixpoint parents_from (fuel : nat) (path : Path) : list Path :=
  match fuel with
  | O => []
  | S fuel => match Path_parent path with Some parent => parent :: parents_from fuel parent | None => [] end
  end.
Definition parents (path : Path) : list Path := parents_from (length path) path.

Fixpoint for_all {A} (f : A -> OnHost unit) (items : list A) : OnHost unit :=
  match items with [] => mret tt | a :: rest => f a ;; for_all f rest end.

Definition shared_writable (metadata : Stat) : bool := negb (Z.land (st_mode metadata) 18 =? 0).

Definition validate_lookup_parent (parent : Path) : OnHost unit :=
  metadata ← look parent;
  lift (ensure (st_uid metadata =? 0) "executable lookup parent is not owned by root"%string) ;;
  if st_type metadata ==? SymlinkFile then mret tt
  else
    lift (ensure (st_type metadata ==? DirectoryFile) "executable lookup parent is not a directory or symlink"%string) ;;
    lift (ensure (negb (shared_writable metadata)) "executable lookup parent is writable by group or other users"%string).

Definition validate_trusted_lookup_parent_chain (path : Path) : OnHost unit :=
  lift (ensure (is_some (Path_parent path)) "executable path has no parent directory"%string) ;;
  for_all validate_lookup_parent (parents path).

Definition validate_parent_directory (parent : Path) : OnHost unit :=
  metadata ← look parent;
  lift (ensure (st_type metadata ==? DirectoryFile) "executable parent is not a directory"%string) ;;
  lift (ensure (st_uid metadata =? 0) "executable parent is not owned by root"%string) ;;
  lift (ensure (negb (shared_writable metadata)) "executable parent is writable by group or other users"%string).

Definition validate_trusted_parent_chain (path : Path) : OnHost unit :=
  lift (ensure (is_some (Path_parent path)) "resolved executable has no parent directory"%string) ;;
  for_all validate_parent_directory (parents path).

Definition is_absolute (path : Path) : bool := bool_decide (head path = Some RootDir).

Definition validate_trusted_executable (path : Path) : OnHost unit :=
  link_metadata ← look path;
  lift (ensure (st_uid link_metadata =? 0) "executable path is not owned by root"%string) ;;
  validate_trusted_lookup_parent_chain path ;;
  resolved ← canonicalize path;
  lift (ensure (is_absolute resolved) "resolved path is not absolute"%string) ;;
  metadata ← follow resolved;
  lift (ensure (st_type metadata ==? RegularFile) "executable is not a regular file"%string) ;;
  lift (ensure (st_uid metadata =? 0) "executable target is not owned by root"%string) ;;
  lift (ensure (negb (shared_writable metadata)) "executable is writable by group or other users"%string) ;;
  lift (ensure (negb (Z.land (st_mode metadata) 73 =? 0)) "executable is not executable"%string) ;;
  validate_trusted_parent_chain resolved.
End Calls.
