(* ===== verification/CommandFacts.v ===== *)
(** * What running firewall tools guarantees

    A wait ends at its deadline, the output that is kept is the beginning of what
    was written, and an executable is trusted only if nobody but root can
    replace it.  [adds] says what a computation may ask of the host. *)

From S2P Require Import Prelude Text Net Application Model State Netlink Protocol Storage Commands.
Local Open Scope Z_scope.

(** A run by its result. *)
Lemma run_answer {A B} (run : A * B) result : run.2 = result -> run = (run.1, result).
Proof. destruct run. by intros <-. Qed.

(** ** Waiting *)

(** The child was still running, before the deadline, in every round up to [n]. *)
Definition waits_until (child : Process) (timeout : Z) (n : nat) : Prop :=
  forall i, (i < n)%nat -> polls child i = StillRunning /\ clock child i < timeout.

Definition wait_ends (child : Process) (timeout : Z) (n : nat) (waited : Waited) : Prop :=
  match waited with
  | WaitExited status => polls child n = Exited status
  | WaitFailed => polls child n = PollFailed
  | WaitDeadline => polls child n = StillRunning /\ timeout <= clock child n
  | WaitStalled => False
  end.

Lemma wait_from_ends child timeout : forall fuel n,
  waits_until child timeout n ->
  wait_from child timeout fuel n = WaitStalled /\ waits_until child timeout (n + fuel)
  \/ exists m, (n <= m < n + fuel)%nat /\ waits_until child timeout m
     /\ wait_ends child timeout m (wait_from child timeout fuel n).
Proof.
  induction fuel as [|fuel IH]; intros n Hn; cbn [wait_from].
  { left. by rewrite Nat.add_0_r. }
  destruct (polls child n) as [status| |] eqn:Hp.
  - right. exists n. split; [lia|by split].
  - destruct (timeout <=? clock child n) eqn:Hc.
    { right. exists n. apply Z.leb_le in Hc. split; [lia|]. split; [done|by split]. }
    apply Z.leb_gt in Hc. destruct (IH (S n)) as [[Hs Hw]|(m & Hm & Hw & He)].
    + intros i Hi. destruct (decide (i = n)) as [->|Hne]; [done|apply Hn; lia].
    + left. split; [done|]. by replace (n + S fuel)%nat with (S n + fuel)%nat by lia.
    + right. exists m. split; [lia|by split].
  - right. exists n. split; [lia|by split].
Qed.

(** [thread::sleep] sleeps at least as long as it is asked to, and the clock does
    not go back. *)
Definition sleeps (child : Process) : Prop :=
  0 <= clock child 0%nat /\ forall n, clock child n + WAIT_INTERVAL <= clock child (S n).

Lemma sleeps_clock child n : sleeps child -> WAIT_INTERVAL * Z.of_nat n <= clock child n.
Proof. intros [H0 Hs]. induction n as [|n IH]; [lia|]. specialize (Hs n). lia. Qed.

Lemma wait_child_ends child timeout :
  sleeps child -> 0 <= timeout ->
  exists n, Z.of_nat n <= timeout / WAIT_INTERVAL + 1 /\ waits_until child timeout n
  /\ wait_ends child timeout n (wait_child child timeout).
Proof.
  intros Hs Ht. unfold wait_child. destruct (wait_from_ends child timeout (wait_rounds timeout) 0) as [[_ Hw]|(n & Hn & Hw & He)].
  - intros i Hi. lia.
  - exfalso. unfold wait_rounds in Hw. destruct (Hw (S (Z.to_nat (timeout / 10)))) as [_ Hc]; [lia|].
    pose proof (sleeps_clock child (S (Z.to_nat (timeout / 10))) Hs) as Hge.
    rewrite Nat2Z.inj_succ, Z2Nat.id in Hge by (apply Z.div_pos; lia).
    pose proof (Z.mod_pos_bound timeout 10). pose proof (Z.div_mod timeout 10). lia.
  - exists n. unfold wait_rounds in Hn. split_and!; [|done|done].
    assert (0 <= timeout / 10) by (apply Z.div_pos; lia). lia.
Qed.

(** ** Output *)

(** The chunks before the end of the file, when no read fails. *)
Fixpoint read_all (reads : list (option Bytes)) : option Bytes :=
  match reads with
  | [] | Some [] :: _ => Some []
  | None :: _ => None
  | Some chunk :: rest => (chunk ++.) <$> read_all rest
  end.

Lemma read_bounded_spec maximum : 0 <= maximum -> forall reads bytes overflow all,
  read_all reads = Some all -> zlen bytes <= maximum -> (overflow = true -> zlen bytes = maximum) ->
  read_bounded reads maximum bytes overflow
  = Ok (mkStream (take (Z.to_nat maximum) (bytes ++ all)) (overflow || (maximum <? zlen (bytes ++ all)))).
Proof.
  intros Hmax. induction reads as [|[[|c chunk]|] reads IH]; intros bytes overflow all Hall Hlen Hover; cbn [read_bounded read_all] in *.
  - injection Hall as <-. rewrite app_nil_r, take_ge by (unfold zlen in *; lia).
    replace (maximum <? zlen bytes) with false by (symmetry; apply Z.ltb_ge; lia). by rewrite orb_false_r.
  - injection Hall as <-. rewrite app_nil_r, take_ge by (unfold zlen in *; lia).
    replace (maximum <? zlen bytes) with false by (symmetry; apply Z.ltb_ge; lia). by rewrite orb_false_r.
  - destruct (read_all reads) as [more|]; [|done]. cbn [fmap option_fmap option_map] in Hall. injection Hall as <-.
    set (w := c :: chunk) in *. assert (Hw : 0 < zlen w) by (unfold zlen, w; cbn; lia).
    change (c :: (chunk ++ more)) with (w ++ more). clearbody w.
    unfold usize_saturating_sub. rewrite Z.max_l by lia. destruct (decide (zlen bytes + zlen w <= maximum)) as [Hfit|Hfit].
    + rewrite Z.min_r, Z.eqb_refl, orb_false_r, take_ge by (unfold zlen in *; lia).
      rewrite (IH _ overflow more); [by rewrite <-app_assoc|done|rewrite zlen_app; lia|].
      intros Ho. apply Hover in Ho. lia.
    + rewrite Z.min_l by lia. replace (maximum - zlen bytes =? zlen w) with false by (symmetry; apply Z.eqb_neq; lia).
      set (kept := take (Z.to_nat (maximum - zlen bytes)) w).
      assert (Hk : length (bytes ++ kept) = Z.to_nat maximum) by (rewrite length_app; unfold kept, zlen in *; rewrite length_take; lia).
      rewrite (IH _ _ more); [|done|unfold zlen; rewrite Hk; lia|intros _; unfold zlen; rewrite Hk; lia].
      rewrite !orb_true_r. cbn [orb]. f_equal. f_equal.
      * rewrite take_app_length' by done. rewrite take_app_ge by (unfold zlen in *; lia). f_equal.
        replace (Z.to_nat maximum - length bytes)%nat with (Z.to_nat (maximum - zlen bytes)) by (unfold zlen; lia).
        rewrite take_app_le by (unfold zlen in *; lia). done.
      * symmetry. apply orb_true_iff. right. apply Z.ltb_lt. rewrite !zlen_app. pose proof (zlen_nonneg more). lia.
  - done.
Qed.

(** ** What is asked of the host *)

(** Only questions with [P], with the answers they got, are added. *)
Definition added (P : HostEvent -> Prop) (before after : list HostEvent) : Prop :=
  exists new, after = before ++ new /\ Forall P new.
Abbreviation adds P := (always (added P)) (only parsing).

#[export] Instance added_preorder P : PreOrder (added P).
Proof.
  split.
  - intros h. exists []. by rewrite app_nil_r.
  - intros h1 h2 h3 (n1 & -> & H1) (n2 & -> & H2). exists (n1 ++ n2). rewrite app_assoc. split; [done|by apply Forall_app].
Qed.

Lemma added_impl (P Q : HostEvent -> Prop) before after :
  (forall event, P event -> Q event) -> added P before after -> added Q before after.
Proof. intros Himpl (new & -> & Hall). exists new. split; [done|]. by eapply Forall_impl. Qed.

Section Adds.
Context `{Host} (P : HostEvent -> Prop).

Lemma adds_ask {A} (answer : list HostEvent -> A) (event : A -> HostEvent) :
  (forall a, P (event a)) -> adds P (ask answer event).
Proof. intros HP h. exists [event (answer h)]. split; [done|]. by repeat constructor. Qed.

Lemma adds_attempt {E' A} (m : ST (list HostEvent) string A) : adds P m -> adds P (attempt (E' := E') m).
Proof. intros Hm h. specialize (Hm h). unfold attempt. by destruct (m h). Qed.

Lemma adds_for_all {A} (f : A -> ST (list HostEvent) string unit) items :
  (forall a, adds P (f a)) -> adds P (for_all f items).
Proof.
  intros Hf. induction items as [|a items IH]; cbn [for_all]; [apply always_ret; exact _|].
  apply always_bind; [exact _|apply Hf|by intros ?].
Qed.

Lemma adds_spawn command : (forall child, P (Ran command child)) -> adds P (spawn command).
Proof. apply adds_ask. Qed.

Lemma adds_run path args timeout :
  (forall child, P (Ran (mkCommand path args None) child)) -> adds P (run_command path args timeout).
Proof. intros HP. apply always_bind; [exact _|by apply adds_spawn|intros ?; apply always_lift; exact _]. Qed.
Lemma adds_run_with_input path args input timeout :
  (forall child, P (Ran (mkCommand path args (Some input)) child)) -> adds P (run_command_with_input path args input timeout).
Proof. intros HP. apply always_bind; [exact _|by apply adds_spawn|intros ?; apply always_lift; exact _]. Qed.
Lemma adds_capture path args timeout maximum :
  (forall child, P (Ran (mkCommand path args None) child)) -> adds P (capture_command path args timeout maximum).
Proof. intros HP. apply always_bind; [exact _|by apply adds_spawn|intros ?; apply always_lift; exact _]. Qed.
Lemma adds_capture_output path args timeout maximum :
  (forall child, P (Ran (mkCommand path args None) child)) -> adds P (capture_command_output path args timeout maximum).
Proof. intros HP. apply always_bind; [exact _|by apply adds_spawn|intros ?; apply always_lift; exact _]. Qed.

Hypothesis P_Looked : forall path r, P (Looked path r).
Hypothesis P_Followed : forall path r, P (Followed path r).
Hypothesis P_Resolved : forall path r, P (Resolved path r).

Lemma adds_look path : adds P (look path).
Proof. apply always_bind; [exact _|by apply adds_ask|intros ?; apply always_lift; exact _]. Qed.
Lemma adds_follow path : adds P (follow path).
Proof. apply always_bind; [exact _|by apply adds_ask|intros ?; apply always_lift; exact _]. Qed.
Lemma adds_canonicalize path : adds P (canonicalize path).
Proof. apply always_bind; [exact _|by apply adds_ask|intros ?; apply always_lift; exact _]. Qed.

Lemma adds_validate path : adds P (validate_trusted_executable path).
Proof.
  unfold validate_trusted_executable, validate_trusted_lookup_parent_chain, validate_trusted_parent_chain.
  always_by ltac:(first [apply adds_look|apply adds_follow|apply adds_canonicalize
    |apply adds_for_all; intros ?; unfold validate_lookup_parent, validate_parent_directory; always_by ltac:(apply adds_look)]).
Qed.
End Adds.

(** ** Trusted executables *)

(** The directories above a path, as [Path::parent] gives them. *)
Inductive above : Path -> Path -> Prop :=
| above_parent path parent : Path_parent path = Some parent -> above parent path
| above_next path parent ancestor : Path_parent path = Some parent -> above ancestor parent -> above ancestor path.

Lemma parent_shorter path parent : Path_parent path = Some parent -> S (length parent) = length path.
Proof.
  unfold Path_parent. destruct (last path) as [c|] eqn:Hl; [|done]. apply last_Some in Hl as [front ->].
  rewrite removelast_last, length_app. destruct c; [done|..]; intros [= <-]; cbn; lia.
Qed.

Lemma above_parents ancestor path : above ancestor path -> ancestor ∈ parents path.
Proof.
  unfold parents. induction 1 as [path parent Hp|path parent ancestor Hp _ IH].
  - pose proof (parent_shorter _ _ Hp) as Hl. rewrite <-Hl. cbn [parents_from]. rewrite Hp. by left.
  - pose proof (parent_shorter _ _ Hp) as Hl. rewrite <-Hl. cbn [parents_from]. rewrite Hp. by right.
Qed.

Section Trusted.
Context `{Host}.
Implicit Types (h : list HostEvent).

Lemma io_step {A B} (answer : list HostEvent -> Result IoError A) (event : Result IoError A -> HostEvent)
    (k : A -> ST (list HostEvent) string B) h h' b :
  ((r ← ask answer event; io_lift r) ≫= k) h = (h', Ok b) -> exists a, k a (h ++ [event (Ok a)]) = (h', Ok b).
Proof.
  rewrite run_bind. unfold ask, mbind at 1, ST_bind, io_lift, lift. destruct (answer h) as [a|]; cbn; [|done].
  intros Hk. by exists a.
Qed.

Lemma for_all_Ok {A} (f : A -> ST (list HostEvent) string unit) (Q : A -> list HostEvent -> Prop) :
  (forall a h h', f a h = (h', Ok tt) -> exists new, h' = h ++ new /\ Q a new) ->
  forall items h h', for_all f items h = (h', Ok tt) ->
  exists new, h' = h ++ new /\ forall a, a ∈ items -> exists part, part ⊆ new /\ Q a part.
Proof.
  intros Hf. induction items as [|a items IH]; intros h h'; cbn [for_all].
  { intros [= <-]. exists []. rewrite app_nil_r. split; [done|]. by intros a ?%elem_of_nil. }
  intros ([] & h1 & Ha & Hrest)%run_bind_Ok. apply Hf in Ha as (new1 & -> & HQ). apply IH in Hrest as (new2 & -> & Hall).
  exists (new1 ++ new2). rewrite app_assoc. split; [done|]. intros a' [->|Hin]%elem_of_cons.
  - exists new1. split; [set_solver|done].
  - apply Hall in Hin as (part & Hsub & HQ'). exists part. split; [set_solver|done].
Qed.

(** Root owns a directory, and nobody else may change its entries. *)
Definition closed_directory (metadata : Stat) : Prop :=
  st_type metadata = DirectoryFile /\ st_uid metadata = 0 /\ shared_writable metadata = false.

Lemma lookup_parent_Ok parent h h' :
  validate_lookup_parent parent h = (h', Ok tt) ->
  exists new, h' = h ++ new /\ exists metadata, Looked parent (Ok metadata) ∈ new
  /\ (st_type metadata = SymlinkFile /\ st_uid metadata = 0 \/ closed_directory metadata).
Proof.
  unfold validate_lookup_parent, look. intros (metadata & Hrun)%io_step.
  apply run_seq_Ok in Hrun as [Hu%ensure_Ok%Z.eqb_eq Hrun]. unfold closed_directory.
  destruct (st_type metadata ==? SymlinkFile) eqn:Es.
  - injection Hrun as <-. eexists. split; [done|]. exists metadata. split; [by left|left].
    split; [by apply (proj1 (eqb_true _ _))|done].
  - apply run_seq_Ok in Hrun as [Hd%ensure_Ok Hrun]. unfold lift in Hrun. injection Hrun as <- Hw%ensure_Ok%negb_true_iff.
    eexists. split; [done|]. exists metadata. split; [by left|right]. split_and!; [by apply (proj1 (eqb_true _ _))|done|done].
Qed.

Lemma parent_directory_Ok parent h h' :
  validate_parent_directory parent h = (h', Ok tt) ->
  exists new, h' = h ++ new /\ exists metadata, Looked parent (Ok metadata) ∈ new /\ closed_directory metadata.
Proof.
  unfold validate_parent_directory, look. intros (metadata & Hrun)%io_step.
  apply run_seq_Ok in Hrun as [Hd%ensure_Ok Hrun]. apply run_seq_Ok in Hrun as [Hu%ensure_Ok%Z.eqb_eq Hrun].
  unfold lift in Hrun. injection Hrun as <- Hw%ensure_Ok%negb_true_iff.
  eexists. split; [done|]. exists metadata. split; [by left|]. split_and!; [by apply (proj1 (eqb_true _ _))|done|done].
Qed.

(** What the host said about an executable that is trusted. *)
Record trusted (path : Path) (answers : list HostEvent) : Prop := mkTrusted {
  tr_link : exists metadata, Looked path (Ok metadata) ∈ answers /\ st_uid metadata = 0;
  tr_lookup : forall directory, above directory path -> exists metadata, Looked directory (Ok metadata) ∈ answers
    /\ (st_type metadata = SymlinkFile /\ st_uid metadata = 0 \/ closed_directory metadata);
  tr_target : exists target metadata, Resolved path (Ok target) ∈ answers /\ Followed target (Ok metadata) ∈ answers
    /\ st_type metadata = RegularFile /\ st_uid metadata = 0 /\ shared_writable metadata = false
    /\ Z.land (st_mode metadata) 73 <> 0
    /\ forall directory, above directory target -> exists metadata, Looked directory (Ok metadata) ∈ answers
       /\ closed_directory metadata
}.

Lemma parents_Ok (f : Path -> ST (list HostEvent) string unit) (Q : Path -> Stat -> Prop) (error : string) path h h' :
  (forall a h h', f a h = (h', Ok tt) -> exists new, h' = h ++ new /\ exists m, Looked a (Ok m) ∈ new /\ Q a m) ->
  (lift (ensure (is_some (Path_parent path)) error) ;; for_all f (parents path)) h = (h', Ok tt) ->
  exists new, h' = h ++ new /\ forall a, above a path -> exists m, Looked a (Ok m) ∈ new /\ Q a m.
Proof.
  intros Hf [_ Hrun]%run_seq_Ok. apply (for_all_Ok f _ Hf) in Hrun as (new & -> & Hall). exists new. split; [done|].
  intros a Ha%above_parents. apply Hall in Ha as (part & Hsub & m & Hm & HQ). exists m. split; [by apply Hsub|done].
Qed.

Lemma trusted_Ok path h h' :
  validate_trusted_executable path h = (h', Ok tt) -> exists new, h' = h ++ new /\ trusted path new.
Proof.
  unfold validate_trusted_executable, look, follow, canonicalize. intros (link & Hrun)%io_step.
  apply run_seq_Ok in Hrun as [Hu%ensure_Ok%Z.eqb_eq Hrun]. apply run_bind_Ok in Hrun as ([] & h1 & Hl & Hrun).
  apply (parents_Ok _ (fun _ m => _) _ _ _ _ lookup_parent_Ok) in Hl as (new1 & -> & Hl).
  apply io_step in Hrun as (target & Hrun). apply run_seq_Ok in Hrun as [_ Hrun]. apply io_step in Hrun as (metadata & Hrun).
  apply run_seq_Ok in Hrun as [Hf%ensure_Ok Hrun]. apply run_seq_Ok in Hrun as [Ho%ensure_Ok%Z.eqb_eq Hrun].
  apply run_seq_Ok in Hrun as [Hw%ensure_Ok%negb_true_iff Hrun]. apply run_seq_Ok in Hrun as [Hx%ensure_Ok%negb_true_iff%Z.eqb_neq Hrun].
  apply (parents_Ok _ (fun _ m => _) _ _ _ _ parent_directory_Ok) in Hrun as (new2 & -> & Hp).
  apply (proj1 (eqb_true _ _)) in Hf. rewrite <-!app_assoc. eexists. split; [done|]. split.
  - exists link. split; [by left|done].
  - intros a (m & Hm & HQ)%Hl. exists m. split; [set_solver|done].
  - exists target, metadata. split_and!; [set_solver|set_solver|done..|].
    intros a (m & Hm & HQ)%Hp. exists m. split; [set_solver|done].
Qed.
End Trusted.

(** C20: an executable is trusted only if nobody but root can replace it.
    Whatever the host answers, if the check of a path succeeds, then during the
    check the host said that root owns the path, that every directory above it
    is a link of root or a directory that only root can change, that the
    path leads to a regular executable file of root that only root can write,
    and that every directory above that file is one that only root can
    change. *)
Theorem trusted_executables_belong_to_root `{Host} path h h' :
  validate_trusted_executable path h = (h', Ok tt) -> exists answers, h' = h ++ answers /\ trusted path answers.
Proof. apply trusted_Ok. Qed.

(** The directories of a host without links. *)
Definition plain_host : Host := {|
  host_process _ _ := mkProcess false false false false false (fun _ => PollFailed) (fun _ => 0) [] [];
  host_symlink_metadata _ _ := Ok (mkStat DirectoryFile 0 493);
  host_metadata _ _ := Ok (mkStat RegularFile 0 493);
  host_canonicalize _ path := Ok path
|}.
Definition plain_path : Path := [RootDir; Normal (lit "sbin"); Normal (lit "nft")].

Lemma trusted_executables_belong_to_root_witness :
  exists answers, (validate_trusted_executable (H := plain_host) plain_path []).1 = [] ++ answers /\ trusted plain_path answers.
Proof.
  apply (trusted_executables_belong_to_root (H := plain_host) plain_path []). vm_compute. reflexivity.
Defined.
