(* ===== verification/XtablesWorlds.v ===== *)
(** * The xtables backends of a host

    [backend.rs] of the daemon, lines 435 to 575 and 1054 to 1476: a host may
    have the rules of the legacy and of the nft implementation of iptables at the
    same time.  Before one of them is used, the other is searched for what an
    earlier run of the daemon may have left there. *)

From S2P Require Import Prelude Text Net Application Model State Netlink Protocol Capture Storage.
From S2P Require Import Marks Nftables Iptables Xtables Commands.
Local Open Scope Z_scope.

(** ** Executables *)

Record XtablesBundle : Type := mkBundle { bundle_command : Path; bundle_restore : Path; bundle_save : Path }.

Inductive XtablesWorld : Type := Legacy | Nft.
#[export] Instance XtablesWorld_eq_dec : EqDecision XtablesWorld.
Proof. solve_decision. Defined.

Record XtablesIdentity : Type := mkIdentity { identity_resolved : Path; identity_world : XtablesWorld }.
#[export] Instance XtablesIdentity_eq_dec : EqDecision XtablesIdentity.
Proof. solve_decision. Defined.

Definition in_directory (directory : list ustring) (name : ustring) : Path := RootDir :: (Normal <$> directory) ++ [Normal name].
Definition bundle_in (directory : list ustring) (name : ustring) : XtablesBundle :=
  mkBundle (in_directory directory name) (in_directory directory (name ++ lit "-restore"))
    (in_directory directory (name ++ lit "-save")).
Definition bundles_in (program : ustring) (directory : list ustring) : list XtablesBundle :=
  [bundle_in directory (program ++ lit "-legacy"); bundle_in directory (program ++ lit "-nft"); bundle_in directory program].
Definition bundle_directories : list (list ustring) :=
  [[lit "usr"; lit "sbin"]; [lit "sbin"]; [lit "usr"; lit "bin"]; [lit "bin"]].
Definition IPV4_XTABLES_BUNDLES : list XtablesBundle := bundle_directories ≫= bundles_in (lit "iptables").
Definition IPV6_XTABLES_BUNDLES : list XtablesBundle := bundle_directories ≫= bundles_in (lit "ip6tables").

(** ** Versions *)

(** [str::rsplit_once] with a string. *)
Fixpoint rsplit_once_at (separator s : ustring) : option (ustring * ustring) :=
  match s with
  | [] => None
  | c :: s' =>
      match rsplit_once_at separator s' with
      | Some (before, after) => Some (c :: before, after)
      | None => if starts_with separator s then Some ([], drop (length separator) s) else None
      end
  end.

Definition has_line_break (s : ustring) : bool := existsb (fun c => (c =? 10) || (c =? 13)) s.
Definition trim_suffix (suffix s : ustring) : ustring := default s (strip_suffix suffix s).

Definition LEGACY_EXECUTABLES : list ustring :=
  [lit "xtables-multi"; lit "xtables-legacy-multi"; lit "iptables-legacy-save"; lit "ip6tables-legacy-save"].
Definition NFT_EXECUTABLES : list ustring :=
  [lit "xtables-compat-multi"; lit "xtables-nft-multi"; lit "iptables-compat-save"; lit "ip6tables-compat-save";
   lit "iptables-nft-save"; lit "ip6tables-nft-save"].

Definition resolved_world (resolved : Path) : option XtablesWorld :=
  name ← Path_file_name resolved;
  if contains name LEGACY_EXECUTABLES then Some Legacy
  else if contains name NFT_EXECUTABLES then Some Nft else None.

Definition version_marker (output : ustring) : ustring * option XtablesWorld :=
  match strip_suffix (lit " (legacy)") output with
  | Some prefix => (prefix, Some Legacy)
  | None =>
      match strip_suffix (lit " (nf_tables)") output with
      | Some prefix => (prefix, Some Nft)
      | None => (output, None)
      end
  end.

Definition valid_version_program (save_name name : ustring) : bool :=
  if starts_with (lit "ip6tables") save_name then (name ==? lit "ip6tables-save") || (name ==? lit "ip6tables-nft-save")
  else if starts_with (lit "iptables") save_name then (name ==? lit "iptables-save") || (name ==? lit "iptables-nft-save")
  else false.

(** The output as text. *)
Definition world_of_version (save resolved : Path) (output : ustring) : Result string XtablesWorld :=
  let output := trim_suffix [13] (trim_suffix [10] output) in
  ensure (negb (has_line_break output)) "xtables version output contains multiple lines" ;;
  let '(versioned_program, explicit_world) := version_marker output in
  parts ← ok_or "xtables version output has no version separator"%string (rsplit_once_at (lit " v") versioned_program);
  save_name ← ok_or "xtables-save path has no UTF-8 file name"%string (Path_file_name save);
  ensure (valid_version_program save_name parts.1) "unexpected xtables version program name" ;;
  components ← ok_or "invalid xtables version"%string (mapM (parse_unsigned U64_MAX) (split_char 46 parts.2));
  match components with
  | major :: minor :: _ =>
      match explicit_world with
      | Some world =>
          ensure (is_none_or (eqb world) (resolved_world resolved))
            "xtables backend marker conflicts with the resolved executable" ;;
          mret world
      | None =>
          ensure ((major <? 1) || (major =? 1) && (minor <? 8))
            "iptables 1.8 or newer must report an explicit backend marker" ;;
          ok_or "markerless xtables version has an unknown resolved executable"%string (resolved_world resolved)
      end
  | _ => Err "xtables version must contain at least major and minor components"%string
  end.

Definition parse_xtables_world_version (save resolved : Path) (output : Bytes) : Result string XtablesWorld :=
  text ← ok_or "xtables version output is not UTF-8"%string (from_utf8 output);
  world_of_version save resolved text.

(** ** Listings *)

Inductive XtablesWorldInspection : Type := WorldCaptured (captured : Bytes) | BackendAbsent.

Definition xtables_save_inspection_args : list ustring := [lit "-c"].

(** The program that a file name stands for. *)
Definition save_program (save : Path) : option ustring :=
  name ← Path_file_name save;
  if starts_with (lit "ip6tables") name then Some (lit "ip6tables")
  else if starts_with (lit "iptables") name then Some (lit "iptables") else None.

Definition is_expected_covered_legacy_warning (save : Path) (world : XtablesWorld) (legacy_world_is_covered : bool)
    (stderr : Bytes) : bool :=
  if (world !=? Nft) || negb legacy_world_is_covered then false
  else
    match save_program save, from_utf8 stderr with
    | Some name, Some text =>
        let text := match strip_suffix [13; 10] text with Some t => t | None => trim_suffix [10] text end in
        text ==? lit "# Warning: " ++ name ++ lit "-legacy tables present, use " ++ name ++ lit "-legacy-save to see them"
    | _, _ => false
    end.

Definition LEGACY_BACKEND_UNAVAILABLE_SUFFIXES : list ustring :=
  [lit ": Cannot initialize: iptables who? (do you need to insmod?)"; lit ": Cannot initialize: Protocol not supported"].

(** [find_map(|suffix| text.strip_suffix(suffix))]. *)
Definition strip_one_of (suffixes : list ustring) (s : ustring) : option ustring :=
  head (omap (fun suffix => strip_suffix suffix s) suffixes).

Definition is_proven_absent_legacy_backend (save resolved : Path) (status_code : option Z) (stdout stderr : Bytes) : bool :=
  if (status_code !=? Some 1) || negb (bool_decide (stdout = [])) then false
  else
    match save_program save, from_utf8 stderr with
    | Some name, Some text =>
        let diagnostic := default text (strip_one_of [[13; 10; 13; 10]; [10; 10]; [13; 10]; [10]; [13]] text) in
        if has_line_break diagnostic then false
        else
          match strip_one_of LEGACY_BACKEND_UNAVAILABLE_SUFFIXES diagnostic with
          | None => false
          | Some version_line =>
              if negb (starts_with (name ++ lit "-save v") version_line) then false
              else
                match world_of_version save resolved version_line with
                | Ok Legacy =>
                    negb (ends_with (lit " (legacy)") version_line) || is_some_and (eqb Legacy) (resolved_world resolved)
                | _ => false
                end
          end
    | _, _ => false
    end.

Definition inspected_by (save resolved : Path) (world : XtablesWorld) (legacy_world_is_covered : bool)
    (captured : CapturedCommandOutput) : Result string XtablesWorldInspection :=
  if status_success (captured_status captured) then
    ensure (bool_decide (captured_stderr captured = [])
            || is_expected_covered_legacy_warning save world legacy_world_is_covered (captured_stderr captured))
      "unexpected diagnostic while inspecting an xtables world" ;;
    mret (WorldCaptured (captured_stdout captured))
  else if is_proven_absent_legacy_backend save resolved (captured_status captured) (captured_stdout captured)
            (captured_stderr captured)
  then mret BackendAbsent
  else Err "xtables-save exited with a failure"%string.

Definition inspect_xtables_world (inspection : XtablesWorldInspection) : Result string bool :=
  match inspection with
  | WorldCaptured captured => parse_xtables_world_save captured
  | BackendAbsent => mret false
  end.

Definition ensure_xtables_identity_unchanged (before after : XtablesIdentity) : Result string unit :=
  ensure (before ==? after) "xtables executable identity changed".

Definition xtables_world_is_covered (world : XtablesWorld) (excluded : option XtablesIdentity)
    (inspected : list XtablesWorld) : bool :=
  is_some_and (fun identity => identity_world identity ==? world) excluded || bool_decide (world ∈ inspected).

(** ** Inspection *)

Section Worlds.
Context `{Host}.
Abbreviation OnHost := (ST (list HostEvent) string) (only parsing).

Definition validate_xtables_binary (path : Path) (bundles : list XtablesBundle) : OnHost unit :=
  lift (ensure (existsb (fun bundle => (path ==? bundle_command bundle) || (path ==? bundle_restore bundle)
                                       || (path ==? bundle_save bundle)) bundles)
          "xtables path is outside the fixed allowlist"%string) ;;
  validate_trusted_executable path.

Definition identify_xtables_world (save : Path) : OnHost XtablesIdentity :=
  resolved_before ← canonicalize save;
  captured ← capture_command_output save [lit "--version"] NFT_QUERY_TIMEOUT MAX_FIREWALL_STDERR_BYTES;
  lift (ensure (status_success (captured_status captured)) "xtables-save --version exited with a failure"%string) ;;
  lift (ensure (bool_decide (captured_stderr captured = [])) "xtables-save --version wrote an unexpected diagnostic"%string) ;;
  world ← lift (parse_xtables_world_version save resolved_before (captured_stdout captured));
  resolved_after ← canonicalize save;
  lift (ensure (resolved_after ==? resolved_before) "xtables-save executable changed while its backend was identified"%string) ;;
  mret (mkIdentity resolved_before world).

Definition inspect_xtables_save_world (save resolved : Path) (world : XtablesWorld) (legacy_world_is_covered : bool)
    : OnHost XtablesWorldInspection :=
  captured ← capture_command_output save xtables_save_inspection_args NFT_QUERY_TIMEOUT MAX_NFT_OUTPUT_BYTES;
  lift (inspected_by save resolved world legacy_world_is_covered captured).

Definition inspect_world (save resolved : Path) (world : XtablesWorld) (legacy_world_is_covered : bool) : OnHost bool :=
  inspection ← inspect_xtables_save_world save resolved world legacy_world_is_covered;
  lift (inspect_xtables_world inspection).

(** [inspected] runs only when the world is not covered; what follows it is the
    second identification. *)
Definition inspect_between (save : Path) (before : XtablesIdentity) (duplicate_world legacy_world_is_covered : bool)
    : OnHost (option (Result string bool) * Result string XtablesIdentity) :=
  inspection ← (if duplicate_world then mret None
                else r ← attempt (inspect_world save (identity_resolved before) (identity_world before) legacy_world_is_covered);
                     mret (Some r));
  after ← attempt (identify_xtables_world save);
  mret (inspection, after).

(** The loop over the bundles; [failed] when a failure was recorded. *)
Fixpoint inspect_candidates (bundles candidates : list XtablesBundle) (excluded : option XtablesIdentity)
    (inspected_paths : list Path) (inspected_worlds : list XtablesWorld) (failed : bool) : OnHost bool :=
  match candidates with
  | [] =>
      lift (ensure (negb failed) "one or more trusted xtables-save worlds could not be inspected"%string) ;;
      mret false
  | candidate :: rest =>
      let save := bundle_save candidate in
      validated ← attempt (validate_xtables_binary save bundles);
      match validated : Result string unit with
      | Err _ => inspect_candidates bundles rest excluded inspected_paths inspected_worlds failed
      | Ok _ =>
          identified ← attempt (identify_xtables_world save);
          match identified : Result string XtablesIdentity with
          | Err _ => inspect_candidates bundles rest excluded inspected_paths inspected_worlds true
          | Ok before =>
              let resolved := identity_resolved before in
              if is_some_and (fun identity => identity_resolved identity ==? resolved) excluded
                 || bool_decide (resolved ∈ inspected_paths)
              then inspect_candidates bundles rest excluded inspected_paths inspected_worlds failed
              else
                let paths := resolved :: inspected_paths in
                let duplicate_world := xtables_world_is_covered (identity_world before) excluded inspected_worlds in
                let legacy_world_is_covered := xtables_world_is_covered Legacy excluded inspected_worlds in
                outcome ← inspect_between save before duplicate_world legacy_world_is_covered;
                match outcome.2 with
                | Ok after =>
                    match ensure_xtables_identity_unchanged before after with
                    | Err _ => inspect_candidates bundles rest excluded paths inspected_worlds true
                    | Ok _ =>
                        if duplicate_world then inspect_candidates bundles rest excluded paths inspected_worlds failed
                        else
                          let worlds := identity_world before :: inspected_worlds in
                          match outcome.1 with
                          | None => inspect_candidates bundles rest excluded paths worlds true
                          | Some (Ok true) => mret true
                          | Some (Ok false) => inspect_candidates bundles rest excluded paths worlds failed
                          | Some (Err _) => inspect_candidates bundles rest excluded paths worlds true
                          end
                    end
                | Err _ => inspect_candidates bundles rest excluded paths inspected_worlds true
                end
          end
      end
  end.

Definition active_xtables_worlds (candidates : list XtablesBundle) (excluded : option XtablesIdentity) : OnHost bool :=
  inspect_candidates candidates candidates excluded [] [] false.

Definition active_xtables_family (candidates : list XtablesBundle) : OnHost bool := active_xtables_worlds candidates None.

Definition active_xtables_artifacts : OnHost bool :=
  ipv4 ← attempt (active_xtables_family IPV4_XTABLES_BUNDLES);
  ipv6 ← attempt (active_xtables_family IPV6_XTABLES_BUNDLES);
  match (ipv4 : Result string bool), (ipv6 : Result string bool) with
  | Ok a, Ok b => mret (a || b)
  | _, _ => lift (Err "cannot safely inspect the previous xtables backend"%string)
  end.

Definition active_alternate_xtables_world (candidates : list XtablesBundle) (selected_save : Path) : OnHost bool :=
  selected ← identify_xtables_world selected_save;
  inspection ← attempt (active_xtables_worlds candidates (Some selected));
  selected_after ← identify_xtables_world selected_save;
  lift (ensure_xtables_identity_unchanged selected selected_after) ;;
  lift inspection.
End Worlds.
