(* ===== verification/NftDocuments.v ===== *)
(** * The documents of nft

    [backend.rs] of the daemon, lines 2789 to 3040: the JSON documents in which
    [nft -j] lists tables, chains and counters, and the checks that what the
    kernel holds is the table of this program.

    [serde_json] is the class [JsonReader]; its [Value]s are data. *)

From S2P Require Import Prelude Text Net Application Model State Netlink Marks Nftables Commands.
Local Open Scope Z_scope.

(** ** [serde_json] *)

Inductive JsonNumber : Type := JsonInteger (n : Z) | JsonFraction.

(** The keys of an object are distinct: the last of equal keys wins when it is read. *)
Inductive Value : Type :=
| JsonNull
| JsonBool (b : bool)
| JsonNumeric (n : JsonNumber)
| JsonString (s : ustring)
| JsonArray (items : list Value)
| JsonObject (fields : list (ustring * Value)).

Definition json_get (key : ustring) (value : Value) : option Value :=
  match value with JsonObject fields => snd <$> List.find (fun field => field.1 ==? key) fields | _ => None end.
Definition as_array (value : Value) : option (list Value) := match value with JsonArray items => Some items | _ => None end.
Definition as_str (value : Value) : option ustring := match value with JsonString s => Some s | _ => None end.
Definition as_u64 (value : Value) : option Z :=
  match value with JsonNumeric (JsonInteger n) => if in_range 0 U64_MAX n then Some n else None | _ => None end.
Definition as_i64 (value : Value) : option Z :=
  match value with
  | JsonNumeric (JsonInteger n) => if in_range (-9223372036854775808) 9223372036854775807 n then Some n else None
  | _ => None
  end.
Definition str_field (key : ustring) (value : Value) : option ustring := json_get key value ≫= as_str.
Definition u64_field (key : ustring) (value : Value) : option Z := json_get key value ≫= as_u64.

(** [from_slice], and the first value of a stream with the bytes it takes: no
    value when there is only white space, and [Some None] when it is not JSON. *)
Class JsonReader : Type := {
  json_value_from_slice : Bytes -> option Value;
  json_stream_next : Bytes -> option (option (Value * Z))
}.

#[export] Instance CounterValue_eq_dec : EqDecision CounterValue.
Proof. solve_decision. Defined.

(** ** Documents *)

Definition nft_objects (document : Value) : Result string (list Value) :=
  ok_or "nft JSON has no nftables array"%string (json_get (lit "nftables") document ≫= as_array).

Inductive DocumentKind : Type := TableDocument | ChainDocument | CounterDocument.

Definition is_openshield (name_key : ustring) (value : Value) : bool :=
  (str_field (lit "family") value ==? Some (lit "inet")) && (str_field name_key value ==? Some (lit "openshield")).

Definition openshield_table_count_document (document : Value) : Result string Z :=
  objects ← nft_objects document;
  mret (zlen (List.filter (is_openshield (lit "name")) (omap (json_get (lit "table")) objects))).

Definition verify_table_document (document : Value) : Result string unit :=
  count ← openshield_table_count_document document;
  ensure (count =? 1) "OpenShield table declaration is missing or duplicated".

(** *** Base chains *)

Record BaseChain : Type := mkBaseChain { base_hook : ustring; base_priority : Z; base_policy : ustring }.
#[export] Instance BaseChain_eq_dec : EqDecision BaseChain.
Proof. solve_decision. Defined.

Definition required_chains : list (ustring * BaseChain) :=
  [(lit "input", mkBaseChain (lit "input") 0 (lit "drop"));
   (lit "output_sanitize", mkBaseChain (lit "output") (-1) (lit "accept"));
   (lit "output", mkBaseChain (lit "output") 0 (lit "drop"));
   (lit "output_authorize", mkBaseChain (lit "output") 1 (lit "drop"));
   (lit "forward", mkBaseChain (lit "forward") 0 (lit "drop"))].

Definition required_chain (name : ustring) : option BaseChain :=
  snd <$> List.find (fun chain => chain.1 ==? name) required_chains.

Definition chain_matches (chain : Value) (required : BaseChain) : bool :=
  (str_field (lit "type") chain ==? Some (lit "filter"))
  && (str_field (lit "hook") chain ==? Some (base_hook required))
  && ((json_get (lit "prio") chain ≫= as_i64) ==? Some (base_priority required))
  && (str_field (lit "policy") chain ==? Some (base_policy required)).

Fixpoint collect_chains (objects : list Value) (chains : list ustring) : Result string (list ustring) :=
  match objects with
  | [] => mret chains
  | object :: rest =>
      match json_get (lit "chain") object with
      | Some chain =>
          if is_openshield (lit "table") chain then
            name ← ok_or "OpenShield chain has no name"%string (str_field (lit "name") chain);
            required ← ok_or "unexpected chain in the OpenShield table"%string (required_chain name);
            ensure (chain_matches chain required) "OpenShield base chain metadata does not match the compiled policy" ;;
            ensure (negb (bool_decide (name ∈ chains))) "duplicate OpenShield base chain" ;;
            collect_chains rest (name :: chains)
          else collect_chains rest chains
      | None => collect_chains rest chains
      end
  end.

Definition verify_base_chains_document (document : Value) : Result string unit :=
  objects ← nft_objects document;
  chains ← collect_chains objects [];
  ensure (zlen chains =? zlen required_chains) "one or more required OpenShield base chains are missing".

(** *** Counters *)

Definition counter_names : list ustring :=
  [COUNTER_ACCEPTED_IN; COUNTER_ACCEPTED_OUT; COUNTER_DROPPED_IN; COUNTER_DROPPED_OUT; COUNTER_LEARNED_OUT].

(** The five variables by the names of their counters. *)
Fixpoint collect_counters (objects : list Value) (found : gmap ustring CounterValue) (ownership : bool)
    : Result string (gmap ustring CounterValue * bool) :=
  match objects with
  | [] => mret (found, ownership)
  | object :: rest =>
      match json_get (lit "counter") object with
      | None => collect_counters rest found ownership
      | Some counter =>
          if negb (is_openshield (lit "table") counter) then collect_counters rest found ownership
          else
            match str_field (lit "name") counter with
            | None => collect_counters rest found ownership
            | Some name =>
                p ← ok_or "counter has an invalid packet count"%string (u64_field (lit "packets") counter);
                b ← ok_or "counter has an invalid byte count"%string (u64_field (lit "bytes") counter);
                let value := mkCounterValue p b in
                if name ==? NFT_OWNERSHIP_COUNTER then
                  ensure (value ==? CounterValue_default) "nft ownership sentinel must remain an unreferenced zero counter" ;;
                  ensure (negb ownership) "duplicate nft ownership sentinel" ;;
                  collect_counters rest found true
                else
                  ensure (bool_decide (name ∈ counter_names)) "unexpected named counter in the OpenShield table" ;;
                  ensure (is_none (found !! name)) "duplicate nft counter" ;;
                  collect_counters rest (<[name := value]> found) ownership
            end
      end
  end.

Definition parse_counters_document (document : Value) : Result string FirewallCounters :=
  objects ← nft_objects document;
  collected ← collect_counters objects ∅ false;
  let '(found, ownership) := collected in
  ensure ownership "missing nft ownership sentinel" ;;
  accepted_in ← ok_or "missing counter"%string (found !! COUNTER_ACCEPTED_IN);
  accepted_out ← ok_or "missing counter"%string (found !! COUNTER_ACCEPTED_OUT);
  dropped_in ← ok_or "missing counter"%string (found !! COUNTER_DROPPED_IN);
  dropped_out ← ok_or "missing counter"%string (found !! COUNTER_DROPPED_OUT);
  learned_out ← ok_or "missing counter"%string (found !! COUNTER_LEARNED_OUT);
  mret (mkFirewallCounters accepted_in accepted_out dropped_in dropped_out learned_out).

(** *** The ownership sentinel *)

Definition is_ownership_counter (counter : Value) : bool :=
  is_openshield (lit "table") counter && (str_field (lit "name") counter ==? Some NFT_OWNERSHIP_COUNTER).

Fixpoint count_ownership (counters : list Value) (ownership : Z) : Result string Z :=
  match counters with
  | [] => mret ownership
  | counter :: rest =>
      if is_ownership_counter counter then
        ensure ((u64_field (lit "packets") counter ==? Some 0) && (u64_field (lit "bytes") counter ==? Some 0))
          "nft ownership sentinel must remain an unreferenced zero counter" ;;
        count_ownership rest (ownership + 1)
      else count_ownership rest ownership
  end.

(** ** The batch of three documents *)

Definition is_json_space (byte : Z) : bool := (byte =? 32) || (byte =? 9) || (byte =? 13) || (byte =? 10).

Section Reading.
Context `{JsonReader}.

Definition openshield_table_count (input : Bytes) : Result string Z :=
  document ← ok_or "invalid nft table JSON"%string (json_value_from_slice input);
  openshield_table_count_document document.

Definition verify_nft_ownership_counter (input : Bytes) : Result string unit :=
  document ← ok_or "invalid nft counter JSON"%string (json_value_from_slice input);
  objects ← nft_objects document;
  ownership ← count_ownership (omap (json_get (lit "counter")) objects) 0;
  ensure (ownership =? 1) "nft ownership sentinel is missing or duplicated".

Section Visiting.
Context {S : Type}.
Variable visitor : Value -> DocumentKind -> S -> Result string S.

(** The rest of the input is [input[offset..]]. *)
Fixpoint visit_documents (kinds : list DocumentKind) (rest : Bytes) (maximum_document_bytes : Z) (s : S)
    : Result string (Bytes * S) :=
  match kinds with
  | [] => mret (rest, s)
  | kind :: kinds =>
      let bounded := take (Z.to_nat maximum_document_bytes) rest in
      next ← ok_or "batched nft observation omitted a document"%string (json_stream_next bounded);
      parsed ← ok_or "invalid nft document in observation batch"%string next;
      let '(document, document_bytes) := parsed in
      ensure ((0 <? document_bytes) && (document_bytes <=? maximum_document_bytes))
        "nft observation document exceeded its bound" ;;
      _ ← nft_objects document;
      s ← visitor document kind s;
      visit_documents kinds (drop (Z.to_nat document_bytes) rest) maximum_document_bytes s
  end.

Definition visit_nft_observation_documents_bounded (input : Bytes) (maximum_document_bytes : Z) (s : S) : Result string S :=
  ensure (0 <? maximum_document_bytes) "batched nft observation document bound is zero" ;;
  ensure (maximum_document_bytes * 3 <=? USIZE_MAX) "batched nft observation byte bound overflowed" ;;
  ensure (zlen input <=? maximum_document_bytes * 3) "batched nft observation exceeded its bound" ;;
  visited ← visit_documents [TableDocument; ChainDocument; CounterDocument] input maximum_document_bytes s;
  ensure (forallb is_json_space visited.1) "batched nft observation returned more than 3 JSON documents" ;;
  mret visited.2.
End Visiting.

Definition parse_nft_observation_documents (input : Bytes) : Result string unit :=
  visit_nft_observation_documents_bounded (fun _ _ _ => mret tt) input MAX_NFT_OUTPUT_BYTES tt.

Definition observe_document (document : Value) (kind : DocumentKind) (counters : option FirewallCounters)
    : Result string (option FirewallCounters) :=
  match kind with
  | TableDocument => verify_table_document document ;; mret counters
  | ChainDocument => verify_base_chains_document document ;; mret counters
  | CounterDocument => parsed ← parse_counters_document document; mret (Some parsed)
  end.

Definition parse_nft_policy_observation (input : Bytes) : Result string FirewallCounters :=
  counters ← visit_nft_observation_documents_bounded observe_document input MAX_NFT_OUTPUT_BYTES None;
  ok_or "batched nft observation omitted parsed counters"%string counters.
End Reading.
