(* ===== verification/NftBackend.v ===== *)
(** * The nftables backend

    [backend.rs] of the daemon, lines 122 to 343, 1478 to 1501 and 2447 to 2455:
    the transaction that replaces the table, what is checked before it, and the
    observation of the table afterwards. *)

From S2P Require Import Prelude Text Net Application Model State Netlink Protocol Capture Storage.
From S2P Require Import Marks Nftables Iptables Xtables Commands XtablesWorlds NftDocuments.
Local Open Scope Z_scope.

Definition NFT_CANDIDATES : list Path :=
  [in_directory [lit "usr"; lit "sbin"] (lit "nft"); in_directory [lit "usr"; lit "bin"] (lit "nft");
   in_directory [lit "sbin"] (lit "nft")].
Definition NFT_TABLE_QUERY : list ustring := [lit "-j"; lit "list"; lit "tables"; lit "inet"].
Definition NFT_COUNTER_QUERY : list ustring := [lit "-j"; lit "list"; lit "counters"; lit "inet"].
Definition NFT_OBSERVATION_QUERY : list ustring := [lit "-j"; lit "list tables inet; list chains inet; list counters inet"].
Definition NFT_CHECK_ARGS : list ustring := [lit "-c"; lit "-f"; lit "-"].
Definition NFT_APPLY_ARGS : list ustring := [lit "-f"; lit "-"].

Record NftBackend : Type := mkNftBackend { nft_binary : Path }.

Section Nft.
Context `{Host} `{JsonReader} `{IpNetLib}.
Abbreviation OnHost := (ST (list HostEvent) string) (only parsing).

Definition validate_nft_binary (path : Path) : OnHost unit :=
  lift (ensure (existsb (eqb path) NFT_CANDIDATES) "nft path is outside the fixed allowlist"%string) ;;
  validate_trusted_executable path.

Fixpoint discover_nft (candidates : list Path) : OnHost NftBackend :=
  match candidates with
  | [] => lift (Err "no trusted nft executable was found in the fixed allowlist"%string)
  | candidate :: rest =>
      validated ← attempt (validate_nft_binary candidate);
      match validated : Result string unit with
      | Ok _ => mret (mkNftBackend candidate)
      | Err _ => discover_nft rest
      end
  end.
Definition NftBackend_discover : OnHost NftBackend := discover_nft NFT_CANDIDATES.

Definition run_with_input (self : NftBackend) (args : list ustring) (input : ustring) : OnHost unit :=
  run_command_with_input (nft_binary self) args input NFT_TIMEOUT.
Definition capture_bounded (self : NftBackend) (args : list ustring) (timeout maximum_output : Z) : OnHost Bytes :=
  capture_command (nft_binary self) args timeout maximum_output.
Definition capture_nft (self : NftBackend) (args : list ustring) : OnHost Bytes :=
  capture_bounded self args NFT_QUERY_TIMEOUT MAX_NFT_OUTPUT_BYTES.
Definition capture_observation (self : NftBackend) : OnHost Bytes :=
  capture_bounded self NFT_OBSERVATION_QUERY NFT_OBSERVATION_TIMEOUT (Z.min (MAX_NFT_OUTPUT_BYTES * 3) USIZE_MAX).

Definition ensure_owned_table_or_absent (self : NftBackend) : OnHost unit :=
  tables ← capture_nft self NFT_TABLE_QUERY;
  count ← lift (openshield_table_count tables);
  if count =? 0 then mret tt
  else if count =? 1 then
    counters ← capture_nft self NFT_COUNTER_QUERY;
    lift (verify_nft_ownership_counter counters)
  else lift (Err "duplicate nft table inet openshield declarations were reported"%string).

Definition nft_checked_apply (self : NftBackend) (policy : ustring) : OnHost unit :=
  lift (ensure (byte_len policy <=? MAX_POLICY_BYTES) "compiled nftables policy exceeds its bound"%string) ;;
  active ← active_xtables_artifacts;
  lift (ensure (negb active)
          "refusing nftables activation while an OpenShield iptables/ip6tables policy is still active"%string) ;;
  ensure_owned_table_or_absent self ;;
  run_with_input self NFT_CHECK_ARGS policy ;;
  run_with_input self NFT_APPLY_ARGS policy.

Definition compiled (snapshot : Snapshot) : Result string ustring :=
  map_err (fun _ => "failed to compile nft policy"%string) (compile snapshot).

Definition nft_probe (self : NftBackend) (utc_now : DateTime) : OnHost unit :=
  active ← active_xtables_artifacts;
  lift (ensure (negb active) "OpenShield artifacts from an xtables backend are still active"%string) ;;
  ensure_owned_table_or_absent self ;;
  observation ← capture_observation self;
  lift (parse_nft_observation_documents observation) ;;
  policy ← lift match set_mode Learning utc_now State_new with
                | (state, Ok _) => compiled (State_snapshot state)
                | (_, Err _) => Err "cannot construct representative nftables Learning probe"%string
                end;
  run_with_input self NFT_CHECK_ARGS policy.

Definition nft_apply (self : NftBackend) (snapshot : Snapshot) : OnHost unit :=
  policy ← lift (compiled snapshot);
  nft_checked_apply self policy.
Definition nft_fail_closed (self : NftBackend) : OnHost unit :=
  policy ← lift (compiled (State_snapshot State_new));
  nft_checked_apply self policy.
Definition nft_policy_observation (self : NftBackend) : OnHost FirewallCounters :=
  output ← capture_observation self;
  lift (parse_nft_policy_observation output).

(** Whether the kernel has the table, by the first trusted executable that answers. *)
Fixpoint nft_artifacts (candidates : list Path) (validated : bool) : OnHost bool :=
  match candidates with
  | [] =>
      if validated then lift (Err "cannot safely inspect the previous nftables backend"%string) else mret false
  | candidate :: rest =>
      trusted ← attempt (validate_nft_binary candidate);
      match trusted : Result string unit with
      | Err _ => nft_artifacts rest validated
      | Ok _ =>
          captured ← attempt (capture_nft (mkNftBackend candidate) NFT_TABLE_QUERY);
          match captured : Result string Bytes with
          | Ok tables => count ← lift (openshield_table_count tables); mret (negb (count =? 0))
          | Err _ => nft_artifacts rest true
          end
      end
  end.
Definition active_nft_artifacts : OnHost bool := nft_artifacts NFT_CANDIDATES false.
End Nft.
