(* ===== verification/IptBackend.v ===== *)
(** * The iptables backend

    [backend.rs] of the daemon, lines 579 to 1052: how a compiled policy gets into
    the two address families.  [Backend] holds the rules that were last verified
    and what the host was asked so far. *)

From S2P Require Import Prelude Text Net Application Model State Netlink Protocol Capture Storage.
From S2P Require Import Marks Nftables Iptables Xtables Commands XtablesWorlds NftDocuments NftBackend.
Local Open Scope Z_scope.

(** ** Tools *)

Record XtablesTools : Type := mkTools { tools_command : Path; tools_restore : Path; tools_save : Path }.

Definition XT_WAIT_SECONDS : ustring := lit "5".
Definition XTABLES_LIST_ARGS : list ustring := [lit "--wait"; XT_WAIT_SECONDS; lit "-t"; lit "filter"; lit "-n"; lit "-L"].
Definition restore_args (test_only : bool) : list ustring :=
  [lit "--wait"; XT_WAIT_SECONDS; lit "--noflush"] ++ (if test_only then [lit "--test"] else []).
Definition selected_xtables_save_args (table : ustring) : list ustring := [lit "-c"; lit "-t"; table].

Definition FILTER : ustring := lit "filter".
Definition MANGLE : ustring := lit "mangle".

Definition policy_text (parts : list string) : ustring := concat ((fun line => lit line ++ nl) <$> parts).

Definition XTABLES_CAPABILITY_POLICY : ustring := policy_text
  ["*mangle";
   ":OPENSHIELD_PROBE_MARK - [0:0]";
   "-A OPENSHIELD_PROBE_MARK -m mark ! --mark 0x00000000/0xc0000000 -j MARK --set-xmark 0x00000000/0xc0000000";
   "-A OPENSHIELD_PROBE_MARK -m conntrack --ctdir ORIGINAL -j NFQUEUE --queue-num 1338 --queue-bypass";
   "-A OPENSHIELD_PROBE_MARK -p tcp -m tcp --tcp-flags FIN,RST NONE -m conntrack --ctstate ESTABLISHED --ctdir ORIGINAL -m limit --limit 64/sec --limit-burst 32 -j NFQUEUE --queue-num 1338 --queue-bypass";
   "-A OPENSHIELD_PROBE_MARK -j RETURN";
   "COMMIT";
   "*filter";
   ":OPENSHIELD_PROBE - [0:0]";
   ":OPENSHIELD_PROBE_GOTO - [0:0]";
   "-A OPENSHIELD_PROBE -p tcp -m tcp --tcp-flags RST RST -m conntrack --ctstate RELATED --ctdir REPLY -m comment --comment openshield:probe -j RETURN";
   "-A OPENSHIELD_PROBE -p tcp -m conntrack --ctstate ESTABLISHED --ctorigdstport 443 --ctdir ORIGINAL -m connmark --mark 0x40000001/0x7fffffff -m comment --comment openshield:probe -j RETURN";
   "-A OPENSHIELD_PROBE -m conntrack --ctstate UNTRACKED -j RETURN";
   "-A OPENSHIELD_PROBE -m mark ! --mark 0x00000000/0xc0000000 -j MARK --set-xmark 0x00000000/0xc0000000";
   "-A OPENSHIELD_PROBE -m conntrack --ctdir ORIGINAL -j NFQUEUE --queue-num 1337";
   "-A OPENSHIELD_PROBE -m mark --mark 0x40000000/0xc0000000 -j REJECT";
   "-A OPENSHIELD_PROBE -m mark --mark 0x80000000/0xc0000000 -g OPENSHIELD_PROBE_GOTO";
   "-A OPENSHIELD_PROBE_GOTO -j CONNMARK --set-xmark 0x40000001/0x7fffffff";
   "-A OPENSHIELD_PROBE_GOTO -j RETURN";
   "COMMIT"]%string.
Definition IP6TABLES_CONTROL_PLANE_CAPABILITY_POLICY : ustring := policy_text
  ["*filter";
   ":OPENSHIELD_PROBE6 - [0:0]";
   "-A OPENSHIELD_PROBE6 -p ipv6-icmp -m addrtype ! --src-type UNSPEC,MULTICAST -m hl --hl-eq 255 -m icmp6 --icmpv6-type 134 -j RETURN";
   "COMMIT"]%string.

(** ** Data *)

Record ExpectedXtablesPolicy : Type := mkExpected { ipv4_rules : option (list ustring); ipv6_rules : option (list ustring) }.
Definition ExpectedXtablesPolicy_default : ExpectedXtablesPolicy := mkExpected None None.

Record CapturedXtablesPolicy : Type := mkCapturedPolicy { captured_rules : list ustring; captured_counters : FirewallCounters }.

(** The tools of a backend do not change. *)
Record IptablesBackend : Type := mkIptablesBackend { backend_ipv4 : XtablesTools; backend_ipv6 : XtablesTools }.

(** The mutex with the expected rules, and the host. *)
Record Backend : Type := mkBackend {
  expected : ExpectedXtablesPolicy;
  expected_poisoned : bool;
  events : list HostEvent
}.

Definition dispatch_args (table : ustring) (more : list ustring) : list ustring :=
  [lit "--wait"; XT_WAIT_SECONDS; lit "-t"; table] ++ more.

Section Tools.
Context `{Host} `{JsonReader} `{IpNetLib}.
Abbreviation OnHost := (ST (list HostEvent) string) (only parsing).

(** *** Calls of the tools *)

Definition restore (self : XtablesTools) (policy : ustring) (test_only : bool) : OnHost unit :=
  lift (ensure (byte_len policy <=? MAX_POLICY_BYTES) "compiled iptables policy exceeds its bound"%string) ;;
  run_command_with_input (tools_restore self) (restore_args test_only) policy NFT_TIMEOUT.

Definition insert_dispatch (self : XtablesTools) (table built_in target : ustring) : OnHost unit :=
  run_command (tools_command self) (dispatch_args table [lit "-I"; built_in; lit "1"; lit "-j"; target]) NFT_TIMEOUT.
Definition append_dispatch (self : XtablesTools) (table built_in target : ustring) : OnHost unit :=
  run_command (tools_command self) (dispatch_args table [lit "-A"; built_in; lit "-j"; target]) NFT_TIMEOUT.
Definition delete_dispatch (self : XtablesTools) (table built_in target : ustring) : OnHost unit :=
  run_command (tools_command self) (dispatch_args table [lit "-D"; built_in; lit "-j"; target]) NFT_TIMEOUT.

Definition capture (self : XtablesTools) (table : ustring) : OnHost Bytes :=
  lift (ensure ((table ==? FILTER) || (table ==? MANGLE)) "unsupported xtables inspection table"%string) ;;
  capture_command (tools_save self) (selected_xtables_save_args table) NFT_QUERY_TIMEOUT MAX_NFT_OUTPUT_BYTES.

Definition probe (self : XtablesTools) : OnHost unit :=
  run_command (tools_command self) XTABLES_LIST_ARGS NFT_QUERY_TIMEOUT ;;
  _ ← capture self FILTER;
  _ ← capture self MANGLE;
  restore self XTABLES_CAPABILITY_POLICY true ;;
  if is_some_and (starts_with (lit "ip6tables")) (Path_file_name (tools_command self))
  then restore self IP6TABLES_CONTROL_PLANE_CAPABILITY_POLICY true
  else mret tt.

(** *** Discovery *)

Fixpoint discover_with (validate : Path -> OnHost unit) (probe : XtablesTools -> OnHost unit)
    (candidates : list XtablesBundle) : OnHost XtablesTools :=
  match candidates with
  | [] => lift (Err "no complete, trusted, and usable xtables executable bundle was found"%string)
  | candidate :: rest =>
      (** [||] stops at the first executable that is not trusted. *)
      trusted ← attempt (validate (bundle_command candidate) ;; validate (bundle_restore candidate) ;;
                         validate (bundle_save candidate));
      match trusted : Result string unit with
      | Err _ => discover_with validate probe rest
      | Ok _ =>
          let tools := mkTools (bundle_command candidate) (bundle_restore candidate) (bundle_save candidate) in
          usable ← attempt (probe tools);
          match usable : Result string unit with
          | Ok _ => mret tools
          | Err _ => discover_with validate probe rest
          end
      end
  end.

Definition discover_tools (candidates : list XtablesBundle) : OnHost XtablesTools :=
  discover_with (fun path => validate_xtables_binary path candidates) probe candidates.

Definition IptablesBackend_discover : OnHost IptablesBackend :=
  ipv4 ← discover_tools IPV4_XTABLES_BUNDLES;
  ipv6 ← discover_tools IPV6_XTABLES_BUNDLES;
  mret (mkIptablesBackend ipv4 ipv6).

(** *** One family *)

Definition read_table (tools : XtablesTools) (table : ustring) : OnHost XtablesSnapshot :=
  output ← capture tools table;
  lift (parse_xtables_save output).

(** The chains that are not declared; the others are verified. *)
Fixpoint missing_chains (snapshot : XtablesSnapshot) (chains : list ustring) : Result string (list ustring) :=
  match chains with
  | [] => mret []
  | chain :: rest =>
      if bool_decide (chain ∈ declared_chains snapshot) then
        verify_chain_ownership snapshot chain ;; missing_chains snapshot rest
      else missing ← missing_chains snapshot rest; mret (chain :: missing)
  end.

Definition ensure_owned_chains (tools : XtablesTools) (table : ustring) (chains : list ustring) : OnHost XtablesSnapshot :=
  snapshot ← read_table tools table;
  missing ← lift (missing_chains snapshot chains);
  (if bool_decide (missing = []) then mret tt
   else restore tools (ownership_initialization_policy table missing) false) ;;
  installed ← read_table tools table;
  lift (for_each (verify_owned_chain installed) chains) ;;
  mret installed.

Definition ensure_all_chains (tools : XtablesTools) : OnHost unit :=
  _ ← ensure_owned_chains tools MANGLE owned_mangle_chains;
  _ ← ensure_owned_chains tools FILTER owned_chains;
  mret tt.

Definition install_owned_policy (tools : XtablesTools) (policy : ustring) : OnHost unit :=
  ensure_all_chains tools ;;
  restore tools policy false.

Definition capture_verified_policy (tools : XtablesTools) : OnHost CapturedXtablesPolicy :=
  filter ← read_table tools FILTER;
  mangle ← read_table tools MANGLE;
  lift (verify_filter_topology filter) ;;
  lift (verify_mangle_topology mangle) ;;
  counters ← lift (add_firewall_counters (snapshot_counters filter) (snapshot_counters mangle));
  mret (mkCapturedPolicy (snapshot_owned_rules mangle ++ snapshot_owned_rules filter) counters).

(** The dispatchers that must be first. *)
Definition put_first (tools : XtablesTools) (table : ustring) (snapshot : XtablesSnapshot)
    (pairs : list (ustring * ustring)) : OnHost unit :=
  for_all (fun '(built_in, target) =>
    if bool_decide (first_rule snapshot built_in = Some (dispatch_rule built_in target)) then mret tt
    else insert_dispatch tools table built_in target) pairs.

Definition put_last (tools : XtablesTools) (mangle : XtablesSnapshot) (pairs : list (ustring * ustring)) : OnHost unit :=
  for_all (fun '(built_in, target) =>
    let wanted := dispatch_rule built_in target in
    let target_dispatchers := List.filter (fun rule => rule_jumps_to rule target) (rules_for_chain mangle built_in) in
    lift (ensure (forallb (eqb wanted) target_dispatchers)
            "refusing to relocate a noncanonical mangle dispatcher"%string) ;;
    if bool_decide (length target_dispatchers = 1%nat) && bool_decide (last_rule mangle built_in = Some wanted) then mret tt
    else
      append_dispatch tools MANGLE built_in target ;;
      for_all (fun _ => delete_dispatch tools MANGLE built_in target) target_dispatchers) pairs.

Definition ensure_topology (tools : XtablesTools) (block_policy : ustring) : OnHost unit :=
  ensure_all_chains tools ;;
  restore tools block_policy false ;;
  filter ← read_table tools FILTER;
  put_first tools FILTER filter filter_dispatcher_pairs ;;
  mangle ← read_table tools MANGLE;
  put_first tools MANGLE mangle mangle_first_dispatcher_pairs ;;
  put_last tools mangle mangle_last_dispatcher_pairs ;;
  _ ← capture_verified_policy tools;
  mret tt.

(** *** Both families *)

Definition attempt_both_families (ipv4 ipv6 : OnHost unit) : OnHost unit :=
  ipv4_result ← attempt ipv4;
  ipv6_result ← attempt ipv6;
  match (ipv4_result : Result string unit), (ipv6_result : Result string unit) with
  | Ok _, Ok _ => mret tt
  | _, _ => lift (Err "one of the address families failed"%string)
  end.

Variable self : IptablesBackend.

Definition ensure_no_alternate_xtables_artifacts : OnHost unit :=
  ipv4 ← attempt (active_alternate_xtables_world IPV4_XTABLES_BUNDLES (tools_save (backend_ipv4 self)));
  ipv6 ← attempt (active_alternate_xtables_world IPV6_XTABLES_BUNDLES (tools_save (backend_ipv6 self)));
  match (ipv4 : Result string bool), (ipv6 : Result string bool) with
  | Ok false, Ok false => mret tt
  | _, _ => lift (Err "refusing activation while the alternate xtables backend may contain OpenShield artifacts"%string)
  end.

Definition prepare (block_policy : IptablesPolicy) : OnHost unit :=
  attempt_both_families (ensure_topology (backend_ipv4 self) (ipv4 block_policy))
    (ensure_topology (backend_ipv6 self) (ipv6 block_policy)).

Definition validate_pair (policy : IptablesPolicy) : OnHost unit :=
  restore (backend_ipv4 self) (ipv4 policy) true ;;
  restore (backend_ipv6 self) (ipv6 policy) true.

Definition apply_pair (policy : IptablesPolicy) : OnHost unit :=
  install_owned_policy (backend_ipv4 self) (ipv4 policy) ;;
  install_owned_policy (backend_ipv6 self) (ipv6 policy).

Definition on_host {A} (m : OnHost A) : ST Backend string A := fun b =>
  let '(events', r) := m (events b) in (mkBackend (expected b) (expected_poisoned b) events', r).

(** The comparison of [record_expected], without the mutex. *)
Definition verify_installed (policy : IptablesPolicy) : OnHost (list ustring * list ustring) :=
  expected_ipv4 ← lift (compiled_owned_rules (ipv4 policy));
  expected_ipv6 ← lift (compiled_owned_rules (ipv6 policy));
  captured4 ← capture_verified_policy (backend_ipv4 self);
  captured6 ← capture_verified_policy (backend_ipv6 self);
  lift (ensure (captured_rules captured4 ==? expected_ipv4)
          "installed IPv4 iptables rules differ from the compiled policy"%string) ;;
  lift (ensure (captured_rules captured6 ==? expected_ipv6)
          "installed IPv6 iptables rules differ from the compiled policy"%string) ;;
  mret (expected_ipv4, expected_ipv6).

Definition record_expected (policy : IptablesPolicy) : ST Backend string unit :=
  rules ← on_host (verify_installed policy);
  b ← get;
  lift (ensure (negb (expected_poisoned b)) "iptables expected-policy mutex is poisoned"%string) ;;
  modify (fun b => mkBackend (mkExpected (Some rules.1) (Some rules.2)) (expected_poisoned b) (events b)).

Definition emergency_block_all (policy : IptablesPolicy) : ST Backend string unit :=
  on_host (attempt_both_families (install_owned_policy (backend_ipv4 self) (ipv4 policy))
             (install_owned_policy (backend_ipv6 self) (ipv6 policy))) ;;
  record_expected policy.

(** What was attempted fails, after an attempt to close both families. *)
Definition or_block_all (block_policy : IptablesPolicy) (outcome : Result string unit) (otherwise : ST Backend string unit)
    : ST Backend string unit :=
  match outcome with
  | Ok _ => otherwise
  | Err error => _ ← attempt (E' := string) (emergency_block_all block_policy); lift (Err error)
  end.

Definition no_nft_artifacts : OnHost unit :=
  active ← active_nft_artifacts;
  lift (ensure (negb active) "refusing iptables activation while nft table inet openshield is still active"%string).

Definition checked_apply (policy block_policy : IptablesPolicy) : ST Backend string unit :=
  on_host no_nft_artifacts ;;
  on_host ensure_no_alternate_xtables_artifacts ;;
  prepared ← attempt (on_host (prepare block_policy));
  or_block_all block_policy prepared (
  on_host (validate_pair policy) ;;
  emergency_block_all block_policy ;;
  applied ← attempt (on_host (apply_pair policy));
  or_block_all block_policy applied (
  recorded ← attempt (record_expected policy);
  or_block_all block_policy recorded (mret tt))).

Definition compiled_iptables (snapshot : Snapshot) : Result string IptablesPolicy :=
  map_err (fun _ => "failed to compile iptables policy"%string) (compile_iptables snapshot).
Definition block_all_policy : Result string IptablesPolicy := compiled_iptables (State_snapshot State_new).

Definition iptables_apply (snapshot : Snapshot) : ST Backend string unit :=
  policy ← lift (compiled_iptables snapshot);
  block ← lift block_all_policy;
  checked_apply policy block.

Definition iptables_fail_closed : ST Backend string unit :=
  on_host no_nft_artifacts ;;
  on_host ensure_no_alternate_xtables_artifacts ;;
  block ← lift block_all_policy;
  _ ← attempt (E' := string) (on_host (prepare block));
  emergency_block_all block.

Definition iptables_policy_observation : ST Backend string FirewallCounters :=
  captured4 ← on_host (capture_verified_policy (backend_ipv4 self));
  captured6 ← on_host (capture_verified_policy (backend_ipv6 self));
  b ← get;
  lift (ensure (negb (expected_poisoned b)) "iptables expected-policy mutex is poisoned"%string) ;;
  lift (ensure (bool_decide (ipv4_rules (expected b) = Some (captured_rules captured4))
                && bool_decide (ipv6_rules (expected b) = Some (captured_rules captured6)))
          "OpenShield iptables policy differs from the last verified transaction"%string) ;;
  lift (add_firewall_counters (captured_counters captured4) (captured_counters captured6)).
End Tools.
