(* ===== verification/SampleHost.v ===== *)
(** * A host for examples

    A host on which the tools of iptables do what their manual says: restoring
    with [--noflush] empties the declared and the flushed chains, [-I], [-A] and [-D] change a
    built-in chain, and saving lists the result.  Everything else is absent. *)

From S2P Require Import Prelude Text Net Application Model State Netlink Protocol Capture Storage.
From S2P Require Import Marks Nftables NftScript Iptables Xtables Commands XtablesWorlds NftDocuments NftBackend IptBackend.
Local Open Scope Z_scope.

(** ** Tables *)

Record SampleTable : Type := mkSampleTable { sample_chains : list ustring; sample_rules : list ustring }.

Definition sample_empty : SampleTable := mkSampleTable [lit "INPUT"; lit "OUTPUT"; lit "FORWARD"] [].

(** The lines of one table of a program. *)
Fixpoint sample_section (table : ustring) (inside : bool) (text : list ustring) : list ustring :=
  match text with
  | [] => []
  | line :: rest =>
      if line ==? lit "*" ++ table then sample_section table true rest
      else if line ==? lit "COMMIT" then sample_section table false rest
      else if inside then line :: sample_section table inside rest
      else sample_section table inside rest
  end.

Definition sample_restore (table text : ustring) (t : SampleTable) : SampleTable :=
  let section := sample_section table false (lines text) in
  let declared := omap chain_declaration section in
  let flushed := declared ++ omap (strip_prefix (lit "-F ")) section in
  mkSampleTable (List.filter (fun c => negb (contains c declared)) (sample_chains t) ++ declared)
    (List.filter (fun rule => negb (existsb (fun c => starts_with (append_prefix c) rule) flushed)) (sample_rules t)
     ++ List.filter (starts_with (lit "-A ")) section).

Fixpoint sample_delete (rule : ustring) (rules : list ustring) : list ustring :=
  match rules with [] => [] | r :: rest => if r ==? rule then rest else r :: sample_delete rule rest end.

Definition sample_command (table : ustring) (args : list ustring) (t : SampleTable) : SampleTable :=
  match args with
  | [_; _; _; table'; action; built_in; _; _; target] =>
      if table' ==? table then mkSampleTable (sample_chains t) (dispatch_rule built_in target :: sample_rules t) else t
  | [_; _; _; table'; action; built_in; _; target] =>
      if table' ==? table then
        mkSampleTable (sample_chains t)
          (if action ==? lit "-A" then sample_rules t ++ [dispatch_rule built_in target]
           else sample_delete (dispatch_rule built_in target) (sample_rules t))
      else t
  | _ => t
  end.

Definition sample_step (tools : XtablesTools) (table : ustring) (t : SampleTable) (event : HostEvent) : SampleTable :=
  match event with
  | Ran command _ =>
      if program command ==? tools_restore tools then
        match command_input command with
        | Some text => if arguments command ==? restore_args false then sample_restore table text t else t
        | None => t
        end
      else if program command ==? tools_command tools then sample_command table (arguments command) t
      else t
  | _ => t
  end.

Definition sample_table (tools : XtablesTools) (events : list HostEvent) (table : ustring) : SampleTable :=
  fold_left (sample_step tools table) events sample_empty.

Definition sample_save (table : ustring) (t : SampleTable) : ustring :=
  lit "*" ++ table ++ nl
  ++ concat ((fun chain => lit ":" ++ chain ++ lit " - [0:0]" ++ nl) <$> sample_chains t)
  ++ concat ((fun rule => lit "[2:120] " ++ rule ++ nl) <$> sample_rules t)
  ++ lit "COMMIT" ++ nl.

(** ** The host *)

Definition tools_of (bundle : XtablesBundle) : XtablesTools :=
  mkTools (bundle_command bundle) (bundle_restore bundle) (bundle_save bundle).
Definition sample_tools4 : XtablesTools := tools_of (bundle_in [lit "usr"; lit "sbin"] (lit "iptables-legacy")).
Definition sample_tools6 : XtablesTools := tools_of (bundle_in [lit "usr"; lit "sbin"] (lit "ip6tables-legacy")).
Definition sample_backend : IptablesBackend := mkIptablesBackend sample_tools4 sample_tools6.

Definition sample_process (output : Bytes) : Process :=
  mkProcess true true true true true (fun _ => Exited (Some 0)) (fun n => 10 * Z.of_nat n) [Some output] [].

Definition sample_answer (events : list HostEvent) (command : Command) : Bytes :=
  let tools := if program command ==? tools_save sample_tools4 then sample_tools4 else sample_tools6 in
  if arguments command ==? [lit "--version"] then
    (if program command ==? tools_save sample_tools4 then lit "iptables" else lit "ip6tables") ++ lit "-save v1.8.10 (legacy)" ++ nl
  else if arguments command ==? selected_xtables_save_args FILTER then sample_save FILTER (sample_table tools events FILTER)
  else if arguments command ==? selected_xtables_save_args MANGLE then sample_save MANGLE (sample_table tools events MANGLE)
  else if arguments command ==? xtables_save_inspection_args then
    sample_save MANGLE (sample_table tools events MANGLE) ++ sample_save FILTER (sample_table tools events FILTER)
  else if arguments command ==? NFT_OBSERVATION_QUERY then [1; 2; 3; 10]
  else [].

(** The tools, the directories above them, and nothing else. *)
Definition sample_metadata (path : Path) : Result IoError Stat :=
  let bin := in_directory [lit "usr"] (lit "sbin") in
  if bool_decide (path ∈ [[RootDir]; [RootDir; Normal (lit "usr")]; bin]) then Ok (mkStat DirectoryFile 0 493)
  else if bool_decide (path ∈ [tools_save sample_tools4; tools_save sample_tools6]) then Ok (mkStat RegularFile 0 493)
  else Err ENOENT.

Definition sample_host : Host := {|
  host_process events command := sample_process (sample_answer events command);
  host_symlink_metadata _ path := sample_metadata path;
  host_metadata _ path := Ok (mkStat RegularFile 0 493);
  host_canonicalize _ path := Ok path
|}.

(** *** Documents of nft, each written as one byte *)

Definition sample_object (kind : ustring) (fields : list (ustring * Value)) : Value :=
  JsonObject [(kind, JsonObject ((lit "family", JsonString (lit "inet")) :: fields))].
Definition sample_counter (name : ustring) (n : Z) : Value :=
  sample_object (lit "counter")
    [(lit "table", JsonString (lit "openshield")); (lit "name", JsonString name);
     (lit "packets", JsonNumeric (JsonInteger n)); (lit "bytes", JsonNumeric (JsonInteger (60 * n)))].
Definition sample_chain (chain : ustring * BaseChain) : Value :=
  sample_object (lit "chain")
    [(lit "table", JsonString (lit "openshield")); (lit "name", JsonString chain.1); (lit "type", JsonString (lit "filter"));
     (lit "hook", JsonString (base_hook chain.2)); (lit "prio", JsonNumeric (JsonInteger (base_priority chain.2)));
     (lit "policy", JsonString (base_policy chain.2))].

Definition sample_document (byte : Z) : Value :=
  let objects :=
    if byte =? 1 then [sample_object (lit "table") [(lit "name", JsonString (lit "openshield"))]]
    else if byte =? 2 then sample_chain <$> rev required_chains
    else if byte =? 3 then
      zip_with sample_counter (NFT_OWNERSHIP_COUNTER :: counter_names) [0; 5; 6; 7; 8; 9]
    else [] in
  JsonObject [(lit "nftables", JsonArray objects)].

Definition sample_reader : JsonReader := {|
  json_value_from_slice bytes := Some (sample_document (default 0 (head bytes)));
  json_stream_next bytes := (fun byte => Some (sample_document byte, 1)) <$> head bytes
|}.

Definition sample_start : Backend := mkBackend ExpectedXtablesPolicy_default false [].

Definition sample_policy (snapshot : Snapshot) : IptablesPolicy :=
  match compile_iptables snapshot with Ok policy => policy | Err _ => mkIptablesPolicy [] [] end.
