(* ===== verification/WorldFacts.v ===== *)
(** * What the search for other xtables backends guarantees

    When it reports that nothing was left behind, every trusted executable that
    lists rules was identified, and the listing of its backend was read and found
    free of the chains of this program. *)

From S2P Require Import Prelude Text Net Application Model State Netlink Protocol Capture Storage.
From S2P Require Import Marks Nftables Iptables Xtables Commands CommandFacts XtablesWorlds SampleHost.
Local Open Scope Z_scope.

(** ** Questions *)

(** A program that is only asked to list or to name itself. *)
Definition query (event : HostEvent) : Prop :=
  match event with
  | Ran command _ =>
      command_input command = None
      /\ (head (arguments command) = Some (lit "--version") \/ head (arguments command) = Some (lit "-c")
          \/ head (arguments command) = Some (lit "-j"))
      /\ (length (arguments command) <= 4)%nat
  | _ => True
  end.

Ltac asks := intros child; split_and!; [done|by auto|vm_compute; lia].

Section Questions.
Context `{Host}.

Lemma adds_validate_xtables path bundles : adds query (validate_xtables_binary path bundles).
Proof. unfold validate_xtables_binary. always_by ltac:(by apply adds_validate). Qed.

Lemma adds_identify save : adds query (identify_xtables_world save).
Proof.
  unfold identify_xtables_world. always_by ltac:(first [by apply adds_canonicalize
    |apply adds_capture_output; asks]).
Qed.

Lemma adds_inspect save resolved world covered : adds query (inspect_world save resolved world covered).
Proof.
  unfold inspect_world, inspect_xtables_save_world.
  always_by ltac:(apply adds_capture_output; asks).
Qed.

Lemma adds_between save before duplicate covered : adds query (inspect_between save before duplicate covered).
Proof.
  unfold inspect_between.
  always_by ltac:(first [apply adds_attempt, adds_inspect|apply adds_attempt, adds_identify]).
Qed.

Lemma adds_candidates bundles candidates excluded : forall paths worlds failed,
  adds query (inspect_candidates bundles candidates excluded paths worlds failed).
Proof.
  induction candidates as [|candidate candidates IH]; intros paths worlds failed; cbn [inspect_candidates].
  { always_by ltac:(fail). }
  always_by ltac:(first [apply IH|apply adds_attempt, adds_validate_xtables|apply adds_attempt, adds_identify|apply adds_between]).
Qed.

Lemma adds_worlds candidates excluded : adds query (active_xtables_worlds candidates excluded).
Proof. apply adds_candidates. Qed.

Lemma adds_artifacts : adds query active_xtables_artifacts.
Proof. unfold active_xtables_artifacts. always_by ltac:(apply adds_attempt, adds_worlds). Qed.

Lemma adds_alternate candidates selected : adds query (active_alternate_xtables_world candidates selected).
Proof.
  unfold active_alternate_xtables_world.
  always_by ltac:(first [apply adds_identify|apply adds_attempt, adds_worlds]).
Qed.
End Questions.

(** ** Clean backends *)

Section Clean.
Context `{Host}.
Implicit Types (h : list HostEvent).

Section Search.
Context (bundles : list XtablesBundle) (excluded : option XtablesIdentity).

(** The executable that lists the rules of a bundle was identified by the time of
    [h]. *)
Definition identified (candidate : XtablesBundle) (identity : XtablesIdentity) (h : list HostEvent) : Prop :=
  exists h1, candidate ∈ bundles /\ identify_xtables_world (bundle_save candidate) h1 = (h, Ok identity).

(** A backend that is the one in use, or whose rules were listed completely, by
    an executable identified just before as one of it, with nothing of this
    program among them.  A warning about legacy rules is passed over only when the
    legacy backend is covered itself. *)
Inductive covered (events : list HostEvent) : XtablesWorld -> Prop :=
| covered_excluded identity : excluded = Some identity -> covered events (identity_world identity)
| covered_clean candidate identity h legacy child captured inspection :
    identified candidate identity h ->
    h ++ [Ran (mkCommand (bundle_save candidate) xtables_save_inspection_args None) child] `prefix_of` events ->
    captured_output_by child NFT_QUERY_TIMEOUT MAX_NFT_OUTPUT_BYTES = Ok captured ->
    inspected_by (bundle_save candidate) (identity_resolved identity) (identity_world identity) legacy captured
      = Ok inspection ->
    (legacy = true -> covered events Legacy) ->
    inspect_xtables_world inspection = Ok false -> covered events (identity_world identity).

(** An executable of a covered backend, or the same file as one of the backend in
    use or as one that was identified as one of a covered backend. *)
Definition accounted (events : list HostEvent) (identity : XtablesIdentity) : Prop :=
  covered events (identity_world identity)
  \/ (exists selected, excluded = Some selected /\ identity_resolved selected = identity_resolved identity)
  \/ exists candidate same h, identified candidate same h /\ h `prefix_of` events
     /\ identity_resolved same = identity_resolved identity /\ covered events (identity_world same).

(** What became of one candidate: it was not trusted, or it was identified. *)
Definition settled (events : list HostEvent) (candidate : XtablesBundle) : Prop :=
  exists h1 h2,
    ((exists error, validate_xtables_binary (bundle_save candidate) bundles h1 = (h2, Err error))
     /\ h2 `prefix_of` events)
    \/ exists identity h3, validate_xtables_binary (bundle_save candidate) bundles h1 = (h2, Ok tt)
       /\ identify_xtables_world (bundle_save candidate) h2 = (h3, Ok identity)
       /\ h3 `prefix_of` events /\ accounted events identity.
End Search.

Lemma grown {A} (m : ST (list HostEvent) string A) h h' r : adds query m -> m h = (h', r) -> h `prefix_of` h'.
Proof. intros Hm Hrun. specialize (Hm h). rewrite Hrun in Hm. destruct Hm as (new & Hnew & _). by exists new. Qed.

Lemma attempted {S E E' A} (m : ST S E A) s s' r : attempt (E' := E') m s = (s', Ok r) -> m s = (s', r).
Proof. apply attempt_Ok. Qed.

Lemma covered_prefix bundles excluded world h h' :
  h `prefix_of` h' -> covered bundles excluded h world -> covered bundles excluded h' world.
Proof.
  intros Hp. induction 1 as [identity Hx|candidate identity h0 legacy child captured inspection Hid Hran Hc Hi _ IH Hclean].
  - by apply covered_excluded.
  - eapply covered_clean; try done. by etrans.
Qed.

Lemma covered_true bundles excluded worlds world h :
  (forall w, w ∈ worlds -> covered bundles excluded h w) -> xtables_world_is_covered world excluded worlds = true ->
  covered bundles excluded h world.
Proof.
  intros Hw. unfold xtables_world_is_covered. intros [He|Hi]%orb_true_iff.
  - destruct excluded as [identity|]; [|done]. cbn [is_some_and] in He. apply (proj1 (eqb_true _ _)) in He. subst world.
    by apply covered_excluded.
  - apply Hw. by apply bool_decide_eq_true in Hi.
Qed.

Lemma failed_never_clean bundles candidates excluded : forall paths worlds h h',
  inspect_candidates bundles candidates excluded paths worlds true h <> (h', Ok false).
Proof.
  induction candidates as [|candidate candidates IH]; intros paths worlds h h'; cbn [inspect_candidates]; [done|].
  intros (validated & h1 & _ & Hrun)%run_bind_Ok. destruct validated as [[]|]; [|by apply IH in Hrun].
  apply run_bind_Ok in Hrun as (identified & h2 & _ & Hrun). destruct identified as [before|]; [|by apply IH in Hrun].
  case_match; [by apply IH in Hrun|]. apply run_bind_Ok in Hrun as ([inspection [after|]] & h3 & _ & Hrun);
    cbn [fst snd] in Hrun; [|by apply IH in Hrun].
  destruct (ensure_xtables_identity_unchanged before after); [|by apply IH in Hrun].
  case_match; [by apply IH in Hrun|]. by destruct inspection as [[[]|]|]; [|apply IH in Hrun..].
Qed.

Lemma between_Ok bundles excluded candidate before legacy h h' inspection after :
  inspect_between (bundle_save candidate) before false legacy h = (h', Ok (inspection, after)) ->
  identified bundles candidate before h -> (legacy = true -> covered bundles excluded h Legacy) ->
  inspection = Some (Ok false) -> covered bundles excluded h' (identity_world before).
Proof.
  intros Hrun Hid Hlegacy ->. unfold inspect_between in Hrun. apply run_bind_Ok in Hrun as (i & h1 & Hi & Hrun).
  apply run_bind_Ok in Hrun as (a & h2 & Ha & [= <- -> ->]).
  pose proof (grown _ _ _ _ (adds_attempt query _ (adds_identify (bundle_save candidate))) Ha) as Hg.
  apply covered_prefix with (h := h1); [done|]. apply run_bind_Ok in Hi as (r & h3 & Hr & [= -> ->]).
  apply attempted in Hr as E. unfold inspect_world, inspect_xtables_save_world, capture_command_output in E.
  apply run_bind_Ok in E as (i & h5 & E & Hi). apply run_bind_Ok in E as (captured & h6 & E & Hc).
  unfold spawn, ask in E. rewrite run_bind in E. unfold lift in E, Hc, Hi. injection E as <- Hcap. injection Hc as <- Hins.
  injection Hi as <- Hi.
  eapply covered_clean; [exact Hid| |exact Hcap|exact Hins| |exact Hi]; [done|].
  intros ->. eapply covered_prefix; [|by apply Hlegacy]. by eexists.
Qed.

(** What is known of the backends and executables seen so far. *)
Definition known (bundles : list XtablesBundle) (excluded : option XtablesIdentity) (paths : list Path)
    (worlds : list XtablesWorld) (h : list HostEvent) : Prop :=
  (forall w, w ∈ worlds -> covered bundles excluded h w)
  /\ forall p, p ∈ paths -> exists candidate same h0, identified bundles candidate same h0 /\ h0 `prefix_of` h
     /\ identity_resolved same = p /\ covered bundles excluded h (identity_world same).

Lemma known_prefix bundles excluded paths worlds h h' :
  h `prefix_of` h' -> known bundles excluded paths worlds h -> known bundles excluded paths worlds h'.
Proof.
  intros Hp [Hw Hk]. split.
  - intros w Hin. by eapply covered_prefix, Hw.
  - intros p (candidate & same & h0 & ? & ? & ? & ?)%Hk. exists candidate, same, h0.
    split_and!; [done|by etrans|done|by eapply covered_prefix].
Qed.

Lemma known_path bundles excluded paths worlds h candidate identity h0 :
  known bundles excluded paths worlds h -> identified bundles candidate identity h0 -> h0 `prefix_of` h ->
  covered bundles excluded h (identity_world identity) ->
  known bundles excluded (identity_resolved identity :: paths) worlds h.
Proof.
  intros [Hw Hk] Hid Hp Hc. split; [done|].
  intros p [->|Hin]%elem_of_cons; [by exists candidate, identity, h0|by apply Hk].
Qed.

Lemma known_world bundles excluded paths worlds h world :
  known bundles excluded paths worlds h -> covered bundles excluded h world ->
  known bundles excluded paths (world :: worlds) h.
Proof. intros [Hw Hk] Hc. split; [|done]. intros w [->|Hin]%elem_of_cons; [done|by apply Hw]. Qed.

Lemma accounted_prefix bundles excluded h h' identity :
  h `prefix_of` h' -> accounted bundles excluded h identity -> accounted bundles excluded h' identity.
Proof.
  intros Hp [?|[?|(candidate & same & h0 & ? & ? & ? & ?)]]; [left; by eapply covered_prefix|by right; left|].
  right; right. exists candidate, same, h0. split_and!; [done|by etrans|done|by eapply covered_prefix].
Qed.

Lemma candidates_settled bundles excluded : forall candidates paths worlds h h',
  inspect_candidates bundles candidates excluded paths worlds false h = (h', Ok false) ->
  candidates ⊆ bundles -> known bundles excluded paths worlds h ->
  forall candidate, candidate ∈ candidates -> settled bundles excluded h' candidate.
Proof.
  induction candidates as [|candidate candidates IH]; intros paths worlds h h' Hrun Hsub Hk; [by intros c ?%elem_of_nil|].
  assert (Hrest : forall paths' worlds' h1, inspect_candidates bundles candidates excluded paths' worlds' false h1 = (h', Ok false) ->
    known bundles excluded paths' worlds' h1 -> (h1 `prefix_of` h' -> settled bundles excluded h' candidate) ->
    forall c, c ∈ candidate :: candidates -> settled bundles excluded h' c).
  { intros paths' worlds' h1 Hr Hk' Hc c [->|Hin]%elem_of_cons.
    - apply Hc. by eapply (grown _ _ _ _ (adds_candidates _ _ _ _ _ _)).
    - eapply IH; [exact Hr| |done|done]. set_solver. }
  cbn [inspect_candidates] in Hrun. apply run_bind_Ok in Hrun as (validated & h1 & Hv%attempted & Hrun).
  pose proof (grown _ _ _ _ (adds_validate_xtables _ _) Hv) as G1.
  destruct validated as [[]|error].
  2: { eapply Hrest; [exact Hrun|by eapply known_prefix|]. intros Hp. exists h, h1. left. split; [by exists error|done]. }
  apply run_bind_Ok in Hrun as (identified & h2 & Hi%attempted & Hrun).
  pose proof (grown _ _ _ _ (adds_identify _) Hi) as G2.
  destruct identified as [before|]; [|by apply failed_never_clean in Hrun].
  assert (Hid : identified bundles candidate before h2) by (exists h1; split; [apply Hsub; by left|done]).
  assert (Hk2 : known bundles excluded paths worlds h2) by (eapply known_prefix; [|exact Hk]; by etrans).
  assert (Hset : forall h3, accounted bundles excluded h3 before -> h2 `prefix_of` h3 -> h3 `prefix_of` h' ->
    settled bundles excluded h' candidate).
  { intros h3 Ha Hp3 Hp. exists h, h1. right. exists before, h2. split_and!; [done|done|by etrans|by eapply accounted_prefix]. }
  destruct (is_some_and _ _ || _) eqn:Eseen.
  { eapply Hrest; [exact Hrun|done|]. apply Hset; [|done]. right.
    apply orb_true_iff in Eseen as [He|Hin%bool_decide_eq_true].
    - left. destruct excluded as [identity|]; [|done]. cbn [is_some_and] in He. apply (proj1 (eqb_true _ _)) in He.
      by exists identity.
    - right. by apply Hk2 in Hin. }
  apply run_bind_Ok in Hrun as ([inspection [after|]] & h3 & Hb & Hrun); cbn [fst snd] in Hrun;
    [|by apply failed_never_clean in Hrun].
  pose proof (grown _ _ _ _ (adds_between _ _ _ _) Hb) as G3.
  destruct (ensure_xtables_identity_unchanged before after); [|by apply failed_never_clean in Hrun].
  assert (Hk3 : known bundles excluded paths worlds h3) by (by eapply known_prefix).
  destruct (xtables_world_is_covered (identity_world before) excluded worlds) eqn:Ew.
  - assert (Hc : covered bundles excluded h3 (identity_world before)) by (eapply covered_true; [apply Hk3|done]).
    eapply Hrest; [exact Hrun|by eapply known_path|]. apply Hset; [by left|done].
  - destruct inspection as [[[]|]|]; [done| |by apply failed_never_clean in Hrun..].
    assert (Hc : covered bundles excluded h3 (identity_world before)).
    { eapply between_Ok; [exact Hb|exact Hid| |done]. intros Hl. eapply covered_true; [apply Hk2|done]. }
    eapply Hrest; [exact Hrun|apply known_world; [by eapply known_path|done]|]. apply Hset; [by left|done].
Qed.

Lemma worlds_settled candidates excluded h h' :
  active_xtables_worlds candidates excluded h = (h', Ok false) ->
  forall candidate, candidate ∈ candidates -> settled candidates excluded h' candidate.
Proof.
  intros Hrun. eapply candidates_settled; [exact Hrun|done|]. split; intros ? ?%elem_of_nil; done.
Qed.

(** Nothing of this program is left in either family. *)
Lemma artifacts_settled h h' :
  active_xtables_artifacts h = (h', Ok false) ->
  (forall candidate, candidate ∈ IPV4_XTABLES_BUNDLES ->
     exists h1, h1 `prefix_of` h' /\ settled IPV4_XTABLES_BUNDLES None h1 candidate)
  /\ forall candidate, candidate ∈ IPV6_XTABLES_BUNDLES -> settled IPV6_XTABLES_BUNDLES None h' candidate.
Proof.
  unfold active_xtables_artifacts. intros (ipv4 & h1 & H4%attempted & Hrun)%run_bind_Ok.
  apply run_bind_Ok in Hrun as (ipv6 & h2 & H6%attempted & Hrun).
  destruct ipv4 as [[]|], ipv6 as [[]|]; try done. injection Hrun as <-.
  pose proof (grown _ _ _ _ (adds_worlds _ _) H6) as Hp. split.
  - intros candidate Hin. exists h1. split; [done|]. by eapply worlds_settled.
  - intros candidate Hin. by eapply worlds_settled.
Qed.
End Clean.


