(* ===== verification/NftFacts.v ===== *)
(** * What the nftables backend guarantees

    An observation is accepted only if the kernel lists the table once, with
    exactly the base chains and the counters of the compiled program, and a
    transaction is sent only after the checks that make it safe. *)

From S2P Require Import Prelude Text Net Application Model State Netlink Protocol Capture Storage.
From S2P Require Import Marks Nftables Iptables Xtables Commands CommandFacts XtablesWorlds WorldFacts.
From S2P Require Import NftDocuments NftBackend IptBackend SampleHost.
Local Open Scope Z_scope.

(** ** Chains *)

Definition openshield_chains (objects : list Value) : list Value :=
  List.filter (is_openshield (lit "table")) (omap (json_get (lit "chain")) objects).

(** The name, and the type, hook, priority and policy of a chain. *)
Definition described_chain (chain : Value) : option (ustring * BaseChain) :=
  name ← str_field (lit "name") chain;
  kind ← str_field (lit "type") chain;
  hook ← str_field (lit "hook") chain;
  priority ← json_get (lit "prio") chain ≫= as_i64;
  policy ← str_field (lit "policy") chain;
  if kind ==? lit "filter" then Some (name, mkBaseChain hook priority policy) else None.

Lemma described_matches chain name required :
  str_field (lit "name") chain = Some name -> chain_matches chain required = true ->
  described_chain chain = Some (name, required).
Proof.
  unfold chain_matches, described_chain. rewrite !andb_true_iff. intros -> [[[H1 H2] H3] H4].
  apply (proj1 (eqb_true _ _)) in H1 as ->. apply (proj1 (eqb_true _ _)) in H2 as ->.
  apply (proj1 (eqb_true _ _)) in H3 as ->. apply (proj1 (eqb_true _ _)) in H4 as ->.
  cbn [mbind option_bind]. rewrite eqb_refl. by destruct required.
Qed.

Lemma required_chain_in name required : required_chain name = Some required -> (name, required) ∈ required_chains.
Proof.
  unfold required_chain. destruct (List.find _ required_chains) as [[n r]|] eqn:E; [|done]. intros [= <-].
  apply find_some in E as [Hin Heq]. cbn [fst] in Heq. apply (proj1 (eqb_true _ _)) in Heq as <-. by apply list_elem_of_In.
Qed.

Lemma collect_chains_Ok : forall objects chains out,
  collect_chains objects chains = Ok out -> NoDup chains ->
  exists found, mapM described_chain (openshield_chains objects) = Some found
  /\ Forall (.∈ required_chains) found /\ out = rev found.*1 ++ chains /\ NoDup out.
Proof.
  induction objects as [|object objects IH]; intros chains out Hrun Hnd; cbn [collect_chains] in Hrun.
  { injection Hrun as <-. by exists []. }
  unfold openshield_chains in *. cbn [omap list_omap].
  destruct (json_get (lit "chain") object) as [chain|]; [|by apply IH]. cbn [List.filter].
  destruct (is_openshield (lit "table") chain); [|by apply IH].
  apply bind_Ok_inv in Hrun as (name & Hname%ok_or_Ok & Hrun). apply bind_Ok_inv in Hrun as (required & Hreq%ok_or_Ok & Hrun).
  apply seq_Ok in Hrun as [Hm%ensure_Ok Hrun]. apply seq_Ok in Hrun as [Hnew%ensure_Ok%negb_true_iff%bool_decide_eq_false Hrun].
  apply IH in Hrun as (found & Hmap & Hall & -> & Hout); [|by constructor].
  exists ((name, required) :: found). cbn [mapM]. rewrite (described_matches _ _ _ Hname Hm). cbn [mbind option_bind].
  rewrite Hmap. split_and!; [done|constructor; [by apply required_chain_in|done]| |].
  - cbn [fmap list_fmap fst rev]. by rewrite <-app_assoc.
  - done.
Qed.

Lemma base_chains_Ok document objects :
  nft_objects document = Ok objects -> verify_base_chains_document document = Ok tt ->
  exists found, mapM described_chain (openshield_chains objects) = Some found /\ found ≡ₚ required_chains.
Proof.
  intros Ho. unfold verify_base_chains_document. rewrite Ho. intros Hrun. cbn [mbind Result_bind] in Hrun.
  apply bind_Ok_inv in Hrun as (out & Hc & Hlen%ensure_Ok%Z.eqb_eq).
  apply collect_chains_Ok in Hc as (found & Hmap & Hall & -> & Hnd); [|constructor]. exists found. split; [done|].
  rewrite app_nil_r in *. apply submseteq_length_Permutation.
  - apply NoDup_submseteq; [|intros x Hx; rewrite Forall_forall in Hall; by apply Hall].
    apply (NoDup_fmap_1 fst). by rewrite (Permutation_rev found.*1).
  - unfold zlen in Hlen. rewrite length_rev, length_fmap in Hlen. lia.
Qed.

(** ** Counters *)

Definition openshield_counters (objects : list Value) : list Value :=
  List.filter (fun counter => is_openshield (lit "table") counter && is_some (str_field (lit "name") counter))
    (omap (json_get (lit "counter")) objects).

(** The name of a counter, and its packets and bytes. *)
Definition described_counter (counter : Value) : option (ustring * CounterValue) :=
  name ← str_field (lit "name") counter;
  p ← u64_field (lit "packets") counter;
  b ← u64_field (lit "bytes") counter;
  Some (name, mkCounterValue p b).

Definition named_counters (counters : FirewallCounters) : list (ustring * CounterValue) :=
  [(COUNTER_ACCEPTED_IN, accepted_in counters); (COUNTER_ACCEPTED_OUT, accepted_out counters);
   (COUNTER_DROPPED_IN, dropped_in counters); (COUNTER_DROPPED_OUT, dropped_out counters);
   (COUNTER_LEARNED_OUT, learned_out counters)].

(** A counter that was found, the sentinel included. *)
Definition holds_counter (found : gmap ustring CounterValue) (ownership : bool) (entry : ustring * CounterValue) : Prop :=
  found !! entry.1 = Some entry.2 \/ ownership = true /\ entry = (NFT_OWNERSHIP_COUNTER, CounterValue_default).

Definition only_named (found : gmap ustring CounterValue) : Prop := forall name, is_Some (found !! name) -> name ∈ counter_names.

Lemma owner_not_named : NFT_OWNERSHIP_COUNTER ∉ counter_names.
Proof. intros Hin%(bool_decide_eq_true_2 _). vm_compute in Hin. done. Qed.

Definition fresh_counter (found : gmap ustring CounterValue) (ownership : bool) (name : ustring) : Prop :=
  found !! name = None /\ (ownership = true -> name <> NFT_OWNERSHIP_COUNTER).

(** The entries are what is found on the way from one state of the loop to another. *)
Definition counters_between (found : gmap ustring CounterValue) (ownership : bool) (entries : list (ustring * CounterValue))
    (found' : gmap ustring CounterValue) (ownership' : bool) : Prop :=
  (forall entry, holds_counter found' ownership' entry <-> entry ∈ entries \/ holds_counter found ownership entry)
  /\ NoDup entries.*1 /\ Forall (fresh_counter found ownership) entries.*1.

Lemma counters_between_cons found ownership found1 ownership1 found' ownership' entry entries :
  fresh_counter found ownership entry.1 ->
  (forall e, holds_counter found1 ownership1 e <-> e = entry \/ holds_counter found ownership e) ->
  (forall name, fresh_counter found1 ownership1 name -> name <> entry.1 /\ fresh_counter found ownership name) ->
  counters_between found1 ownership1 entries found' ownership' ->
  counters_between found ownership (entry :: entries) found' ownership'.
Proof.
  intros Hfresh Hholds Hnext (Hiff & Hnd & Hall). rewrite Forall_forall in Hall. unfold counters_between. split_and!.
  - intros e. rewrite Hiff, Hholds, elem_of_cons. tauto.
  - cbn [fmap list_fmap]. constructor; [|done]. intros Hin. by apply Hall, Hnext in Hin as [? _].
  - cbn [fmap list_fmap]. constructor; [done|]. apply Forall_forall. intros name Hin. by apply Hall, Hnext in Hin as [_ ?].
Qed.

Lemma collect_counters_Ok : forall objects found ownership found' ownership',
  collect_counters objects found ownership = Ok (found', ownership') -> only_named found ->
  exists entries, mapM described_counter (openshield_counters objects) = Some entries
  /\ counters_between found ownership entries found' ownership' /\ only_named found'.
Proof.
  induction objects as [|object objects IH]; intros found ownership found' ownership' Hrun Honly; cbn [collect_counters] in Hrun.
  { injection Hrun as <- <-. exists []. split_and!; [done| |done]. split_and!; [|constructor|constructor].
    intros entry. rewrite elem_of_nil. tauto. }
  unfold openshield_counters in *. cbn [omap list_omap].
  destruct (json_get (lit "counter") object) as [counter|]; [|by apply IH]. cbn [List.filter].
  destruct (is_openshield (lit "table") counter); cbn [negb andb] in *; [|by apply IH].
  destruct (str_field (lit "name") counter) as [name|] eqn:Hname; cbn [is_some]; [|by apply IH].
  apply bind_Ok_inv in Hrun as (p & Hp%ok_or_Ok & Hrun). apply bind_Ok_inv in Hrun as (b & Hb%ok_or_Ok & Hrun).
  assert (Hd : described_counter counter = Some (name, mkCounterValue p b)).
  { unfold described_counter. rewrite Hname. cbn [mbind option_bind]. by rewrite Hp, Hb. }
  cbn [mapM]. rewrite Hd. cbn [mbind option_bind].
  destruct (name ==? NFT_OWNERSHIP_COUNTER) eqn:Eo.
  - apply (proj1 (eqb_true _ _)) in Eo as ->. apply seq_Ok in Hrun as [Hz%ensure_Ok Hrun].
    apply (proj1 (eqb_true _ _)) in Hz. rewrite Hz. apply seq_Ok in Hrun as [Hno%ensure_Ok%negb_true_iff Hrun]. subst ownership.
    apply IH in Hrun as (entries & Hmap & Hb' & Hn); [|done]. rewrite Hmap. eexists. split_and!; [done| |done].
    eapply counters_between_cons; [| | |exact Hb'].
    + split; [|done]. apply eq_None_not_Some. intros ?%Honly. by apply owner_not_named.
    + intros e. unfold holds_counter. tauto.
    + intros n [Hf Ho]. split; [by apply Ho|done].
  - apply seq_Ok in Hrun as [Hin%ensure_Ok%bool_decide_eq_true Hrun]. apply seq_Ok in Hrun as [Hf%ensure_Ok%is_none_true Hrun].
    apply eqb_false in Eo. apply IH in Hrun as (entries & Hmap & Hb' & Hn).
    2: { intros n. destruct (decide (n = name)) as [->|Hne]; [done|]. rewrite lookup_insert_ne by done. apply Honly. }
    rewrite Hmap. eexists. split_and!; [done| |done]. eapply counters_between_cons; [| | |exact Hb'].
    + by split.
    + intros [n v]. unfold holds_counter. cbn [fst snd]. destruct (decide (n = name)) as [->|Hne].
      * rewrite lookup_insert_eq, Hf. split; [intros [[= ->]|[_ [= ? _]]]; [by left|done]|].
        intros [[= ->]|[?|?]]; [by left|done|by right].
      * rewrite lookup_insert_ne by done. split; [by right|]. intros [[= ? _]|?]; [done|done].
    + intros n [Hl Ho]. cbn [fst]. destruct (decide (n = name)) as [->|Hne]; [by rewrite lookup_insert_eq in Hl|].
      rewrite lookup_insert_ne in Hl by done. by split.
Qed.

Lemma counters_Ok document objects counters :
  nft_objects document = Ok objects -> parse_counters_document document = Ok counters ->
  exists entries, mapM described_counter (openshield_counters objects) = Some entries
  /\ entries ≡ₚ (NFT_OWNERSHIP_COUNTER, CounterValue_default) :: named_counters counters.
Proof.
  intros Ho. unfold parse_counters_document. rewrite Ho. intros Hrun. cbn [mbind Result_bind] in Hrun.
  apply bind_Ok_inv in Hrun as ([found ownership] & Hc & Hrun). apply seq_Ok in Hrun as [Hown%ensure_Ok Hrun]. subst ownership.
  apply bind_Ok_inv in Hrun as (a & Ha%ok_or_Ok & Hrun). apply bind_Ok_inv in Hrun as (b & Hb%ok_or_Ok & Hrun).
  apply bind_Ok_inv in Hrun as (c & Hcc%ok_or_Ok & Hrun). apply bind_Ok_inv in Hrun as (d & Hd%ok_or_Ok & Hrun).
  apply bind_Ok_inv in Hrun as (e & He%ok_or_Ok & [= <-]).
  apply collect_counters_Ok in Hc as (entries & Hmap & (Hiff & Hnd & _) & Honly).
  2: { intros name [v Hv]. by rewrite lookup_empty in Hv. }
  exists entries. split; [done|]. apply NoDup_Permutation.
  - by apply (NoDup_fmap_1 fst).
  - apply (NoDup_fmap_1 fst). unfold named_counters. apply (bool_decide_unpack _). vm_compute. exact I.
  - intros entry. transitivity (holds_counter found true entry).
    { rewrite Hiff. split; [by left|]. intros [?|[Hl|[? _]]]; [done| |done]. by rewrite lookup_empty in Hl. }
    destruct entry as [name v]. unfold holds_counter, named_counters. cbn [fst snd accepted_in accepted_out dropped_in dropped_out learned_out].
    rewrite !elem_of_cons, elem_of_nil. split.
    + intros [Hl|[_ ->]]; [|by left]. right. pose proof (Honly name (mk_is_Some _ _ Hl)) as Hin. unfold counter_names in Hin.
      rewrite !elem_of_cons, elem_of_nil in Hin. destruct Hin as [->|[->|[->|[->|[->|[]]]]]].
      * left. congruence.
      * right. left. congruence.
      * do 2 right. left. congruence.
      * do 3 right. left. congruence.
      * do 4 right. left. congruence.
    + intros [Hx|[Hx|[Hx|[Hx|[Hx|[Hx|[]]]]]]]; [by right|left; pose proof (f_equal fst Hx) as Hn; pose proof (f_equal snd Hx) as Hv;
        cbn [fst snd] in Hn, Hv; rewrite Hn, Hv; assumption..].
Qed.

(** ** Observations *)

Section Observation.
Context `{JsonReader}.

(** A document at the beginning of the input, of bounded size, and what follows it. *)
Definition next_document (input : Bytes) (document : Value) (rest : Bytes) : Prop :=
  exists n, json_stream_next (take (Z.to_nat MAX_NFT_OUTPUT_BYTES) input) = Some (Some (document, n))
  /\ 0 < n <= MAX_NFT_OUTPUT_BYTES /\ rest = drop (Z.to_nat n) input.

(** What an accepted observation says about the kernel. *)
Record observed (input : Bytes) (counters : FirewallCounters) (tables chains listed : list Value) : Prop := mkObserved {
  ob_documents : exists t c k r1 r2 r3,
    next_document input t r1 /\ next_document r1 c r2 /\ next_document r2 k r3 /\ forallb is_json_space r3 = true
    /\ nft_objects t = Ok tables /\ nft_objects c = Ok chains /\ nft_objects k = Ok listed;
  ob_table : length (List.filter (is_openshield (lit "name")) (omap (json_get (lit "table")) tables)) = 1%nat;
  ob_chains : exists found, mapM described_chain (openshield_chains chains) = Some found /\ found ≡ₚ required_chains;
  ob_counters : exists entries, mapM described_counter (openshield_counters listed) = Some entries
    /\ entries ≡ₚ (NFT_OWNERSHIP_COUNTER, CounterValue_default) :: named_counters counters
}.

Lemma visit_cons {S} (visitor : Value -> DocumentKind -> S -> Result string S) kind kinds input s out :
  visit_documents visitor (kind :: kinds) input MAX_NFT_OUTPUT_BYTES s = Ok out ->
  exists document rest objects s', next_document input document rest /\ nft_objects document = Ok objects
  /\ visitor document kind s = Ok s' /\ visit_documents visitor kinds rest MAX_NFT_OUTPUT_BYTES s' = Ok out.
Proof.
  cbn [visit_documents]. intros (next & Hn%ok_or_Ok & Hrun)%bind_Ok_inv. apply bind_Ok_inv in Hrun as ([document n] & ->%ok_or_Ok & Hrun).
  apply seq_Ok in Hrun as [Hb%ensure_Ok Hrun]. apply andb_true_iff in Hb as [Hlo%Z.ltb_lt Hhi%Z.leb_le].
  apply bind_Ok_inv in Hrun as (objects & Ho & Hrun). apply bind_Ok_inv in Hrun as (s' & Hs & Hrun).
  exists document, (drop (Z.to_nat n) input), objects, s'. split_and!; [|done..]. by exists n.
Qed.

Lemma table_document_Ok document objects :
  nft_objects document = Ok objects -> verify_table_document document = Ok tt ->
  length (List.filter (is_openshield (lit "name")) (omap (json_get (lit "table")) objects)) = 1%nat.
Proof.
  intros Ho. unfold verify_table_document, openshield_table_count_document. rewrite Ho. cbn [mbind Result_bind mret Result_ret].
  intros Hc%ensure_Ok%Z.eqb_eq. unfold zlen in Hc. lia.
Qed.

Lemma observation_Ok input counters :
  parse_nft_policy_observation input = Ok counters -> exists tables chains listed, observed input counters tables chains listed.
Proof.
  unfold parse_nft_policy_observation, visit_nft_observation_documents_bounded.
  intros (found & Hrun & Hf%ok_or_Ok)%bind_Ok_inv. do 3 apply seq_Ok in Hrun as [_ Hrun].
  apply bind_Ok_inv in Hrun as ([rest found'] & Hv & Hrun). apply seq_Ok in Hrun as [Hsp%ensure_Ok [= ->]].
  apply visit_cons in Hv as (t & r1 & tables & s1 & Ht & Hto & Hts & Hv).
  apply visit_cons in Hv as (c & r2 & chains & s2 & Hc & Hco & Hcs & Hv).
  apply visit_cons in Hv as (k & r3 & listed & s3 & Hk & Hko & Hks & [= -> ->]). cbn [fst snd] in *.
  cbn [observe_document] in Hts, Hcs, Hks. apply seq_Ok in Hts as [Hts _]. apply seq_Ok in Hcs as [Hcs _].
  apply bind_Ok_inv in Hks as (parsed & Hp & [= <-]). injection Hf as ->.
  exists tables, chains, listed. split.
  - by exists t, c, k, r1, r2, rest.
  - by eapply table_document_Ok.
  - by eapply base_chains_Ok.
  - by eapply counters_Ok.
Qed.
End Observation.

(** ** Transactions *)

Section Transactions.
Context `{Host} `{JsonReader} `{IpNetLib}.
Implicit Types (h : list HostEvent) (self : NftBackend).

Lemma capture_run path args timeout maximum h h' output :
  capture_command path args timeout maximum h = (h', Ok output) ->
  exists child, h' = h ++ [Ran (mkCommand path args None) child] /\ captured_by child timeout maximum = Ok output.
Proof. unfold capture_command, spawn, ask. rewrite run_bind. unfold lift. intros [= <- Hc]. eauto. Qed.

Lemma nft_observation_run self h h' counters :
  nft_policy_observation self h = (h', Ok counters) ->
  exists child output tables chains listed,
    h' = h ++ [Ran (mkCommand (nft_binary self) NFT_OBSERVATION_QUERY None) child]
    /\ captured_by child NFT_OBSERVATION_TIMEOUT (MAX_NFT_OUTPUT_BYTES * 3) = Ok output
    /\ observed output counters tables chains listed.
Proof.
  unfold nft_policy_observation, capture_observation, capture_bounded. intros (output & h1 & Hc & Hrun)%run_bind_Ok.
  unfold lift in Hrun. injection Hrun as <- (tables & chains & listed & Ho)%observation_Ok.
  apply capture_run in Hc as (child & -> & Hc). by exists child, output, tables, chains, listed.
Qed.

(** The table is not there, or has the sentinel of this program. *)
Definition absent_or_owned self (events : list HostEvent) : Prop :=
  exists child tables,
    Ran (mkCommand (nft_binary self) NFT_TABLE_QUERY None) child ∈ events
    /\ captured_by child NFT_QUERY_TIMEOUT MAX_NFT_OUTPUT_BYTES = Ok tables
    /\ (openshield_table_count tables = Ok 0
        \/ openshield_table_count tables = Ok 1
           /\ exists child' output document objects counter,
                Ran (mkCommand (nft_binary self) NFT_COUNTER_QUERY None) child' ∈ events
                /\ captured_by child' NFT_QUERY_TIMEOUT MAX_NFT_OUTPUT_BYTES = Ok output
                /\ json_value_from_slice output = Some document /\ nft_objects document = Ok objects
                /\ List.filter is_ownership_counter (omap (json_get (lit "counter")) objects) = [counter]
                /\ u64_field (lit "packets") counter = Some 0 /\ u64_field (lit "bytes") counter = Some 0).

Lemma count_ownership_Ok : forall counters n m,
  count_ownership counters n = Ok m ->
  m = n + zlen (List.filter is_ownership_counter counters)
  /\ Forall (fun counter => u64_field (lit "packets") counter = Some 0 /\ u64_field (lit "bytes") counter = Some 0)
       (List.filter is_ownership_counter counters).
Proof.
  induction counters as [|counter counters IH]; intros n m; cbn [count_ownership List.filter].
  { intros [= <-]. split; [unfold zlen; cbn [length]; lia|constructor]. }
  destruct (is_ownership_counter counter); [|apply IH]. intros [Hz%ensure_Ok Hrun]%seq_Ok.
  apply IH in Hrun as [-> Hall]. apply andb_true_iff in Hz as [Hp Hb].
  apply (proj1 (eqb_true _ _)) in Hp. apply (proj1 (eqb_true _ _)) in Hb. split; [unfold zlen; cbn [length]; lia|by constructor].
Qed.

Lemma owned_run self h h' :
  ensure_owned_table_or_absent self h = (h', Ok tt) -> absent_or_owned self h'.
Proof.
  unfold ensure_owned_table_or_absent, capture_nft, capture_bounded. intros (tables & h1 & Hc & Hrun)%run_bind_Ok.
  apply capture_run in Hc as (child & -> & Hc). apply run_lift_Ok in Hrun as (count & Hcount & Hrun).
  exists child, tables. destruct (count =? 0) eqn:E0.
  { apply Z.eqb_eq in E0 as ->. injection Hrun as <-. split_and!; [set_solver|done|by left]. }
  destruct (count =? 1) eqn:E1; [|done]. apply Z.eqb_eq in E1 as ->.
  apply run_bind_Ok in Hrun as (output & h2 & Hc' & Hrun). apply capture_run in Hc' as (child' & -> & Hc').
  unfold lift in Hrun. injection Hrun as <- Hv. split_and!; [set_solver|done|right]. split; [done|].
  unfold verify_nft_ownership_counter in Hv. apply bind_Ok_inv in Hv as (document & Hd%ok_or_Ok & Hv).
  apply bind_Ok_inv in Hv as (objects & Ho & Hv). apply bind_Ok_inv in Hv as (n & Hn & Hv%ensure_Ok%Z.eqb_eq). subst n.
  apply count_ownership_Ok in Hn as [Hlen Hall]. unfold zlen in Hlen.
  destruct (List.filter is_ownership_counter _) as [|counter [|]] eqn:Ef; cbn [length] in Hlen; [lia| |lia].
  apply Forall_cons in Hall as [[Hp Hb] _]. exists child', output, document, objects, counter. split_and!; try done. set_solver.
Qed.

(** The calls of [nft] after the checks, and what they return. *)
Inductive transaction self (policy : ustring) : list HostEvent -> Result string unit -> Prop :=
| transaction_none error : transaction self policy [] (Err error)
| transaction_rejected child error :
    finished_with_input child NFT_TIMEOUT = Err error ->
    transaction self policy [Ran (mkCommand (nft_binary self) NFT_CHECK_ARGS (Some policy)) child] (Err error)
| transaction_sent checked child :
    finished_with_input checked NFT_TIMEOUT = Ok tt ->
    transaction self policy
      [Ran (mkCommand (nft_binary self) NFT_CHECK_ARGS (Some policy)) checked;
       Ran (mkCommand (nft_binary self) NFT_APPLY_ARGS (Some policy)) child] (finished_with_input child NFT_TIMEOUT).

Lemma adds_owned self : adds query (ensure_owned_table_or_absent self).
Proof.
  unfold ensure_owned_table_or_absent, capture_nft, capture_bounded.
  always_by ltac:(apply adds_capture; asks).
Qed.

(** Nothing of this program is left in the xtables backends, and the table may be replaced. *)
Definition may_replace self (events : list HostEvent) : Prop :=
  (forall candidate, candidate ∈ IPV4_XTABLES_BUNDLES -> exists h, h `prefix_of` events /\ settled IPV4_XTABLES_BUNDLES None h candidate)
  /\ (forall candidate, candidate ∈ IPV6_XTABLES_BUNDLES -> exists h, h `prefix_of` events /\ settled IPV6_XTABLES_BUNDLES None h candidate)
  /\ absent_or_owned self events.

Lemma nft_run self args policy h :
  run_with_input self args policy h
  = (h ++ [Ran (mkCommand (nft_binary self) args (Some policy)) (host_process h (mkCommand (nft_binary self) args (Some policy)))],
     finished_with_input (host_process h (mkCommand (nft_binary self) args (Some policy))) NFT_TIMEOUT).
Proof. done. Qed.

Lemma nft_apply_run self policy h h' r :
  nft_checked_apply self policy h = (h', r) ->
  exists checks calls, h' = h ++ checks ++ calls /\ Forall query checks /\ transaction self policy calls r
  /\ (calls <> [] -> byte_len policy <= MAX_POLICY_BYTES /\ may_replace self (h ++ checks)).
Proof.
  unfold nft_checked_apply. rewrite run_lift. destruct (byte_len policy <=? MAX_POLICY_BYTES) eqn:Hlen; cbn [ensure].
  2: { intros [= <- <-]. exists [], []. rewrite app_nil_r. split_and!; [done|constructor|constructor|done]. }
  assert (Hstop : forall checks error, Forall query checks -> exists checks' calls, h ++ checks = h ++ checks' ++ calls
    /\ Forall query checks' /\ transaction self policy calls (Err error)
    /\ (calls <> [] -> byte_len policy <= MAX_POLICY_BYTES /\ may_replace self (h ++ checks'))).
  { intros checks error Hq. exists checks, []. rewrite app_nil_r. split_and!; [done|done|constructor|done]. }
  rewrite run_bind. destruct (active_xtables_artifacts h) as [h1 active] eqn:Ea.
  pose proof (adds_artifacts h) as Hq1. rewrite Ea in Hq1. destruct Hq1 as (n1 & Hn1 & Hq1). cbn [fst] in Hn1. subst h1.
  destruct active as [active|error]; [|intros [= <- <-]; by apply Hstop].
  rewrite run_lift. destruct active; cbn [negb ensure]; [intros [= <- <-]; by apply Hstop|].
  rewrite run_bind. destruct (ensure_owned_table_or_absent self (h ++ n1)) as [h2 owned] eqn:Eo.
  pose proof (adds_owned self (h ++ n1)) as Hq2. rewrite Eo in Hq2. destruct Hq2 as (n2 & Hn2 & Hq2). cbn [fst] in Hn2. subst h2.
  rewrite <-app_assoc in *. assert (Hq : Forall query (n1 ++ n2)) by (by apply Forall_app).
  destruct owned as [[]|error]; [|intros [= <- <-]; by apply Hstop].
  assert (Hmay : may_replace self (h ++ n1 ++ n2)).
  { apply artifacts_settled in Ea as [H4 H6]. apply owned_run in Eo. split_and!; [| |done].
    - intros c (h1 & Hp & Hs)%H4. exists h1. split; [|done]. etrans; [exact Hp|]. rewrite app_assoc. by exists n2.
    - intros c Hs%H6. exists (h ++ n1). split; [|done]. rewrite app_assoc. by exists n2. }
  apply Z.leb_le in Hlen. rewrite run_bind, nft_run. destruct (finished_with_input _ _) as [[]|error] eqn:Ef.
  - rewrite nft_run. intros [= <- <-]. exists (n1 ++ n2). eexists. rewrite <-!app_assoc. split_and!; [done|done|by constructor|done].
  - intros [= <- <-]. exists (n1 ++ n2). eexists. rewrite <-!app_assoc. split_and!; [done|done|by constructor|done].
Qed.
End Transactions.

(** C17: an observation of nftables is accepted only for the table of the compiled
    program.  Whatever the host and the JSON reader answer, if the observation
    succeeds, then one run of [nft] printed exactly three documents, of which
    the first lists the table once, the chains of the table in the second are
    exactly the five base chains with their types, hooks, priorities and policies,
    and its counters in the third are exactly the sentinel at zero and the five
    counters with the values that are returned. *)
Theorem accepted_observation_is_the_table `{Host} `{JsonReader} self h h' counters :
  nft_policy_observation self h = (h', Ok counters) ->
  exists child output tables chains listed,
    h' = h ++ [Ran (mkCommand (nft_binary self) NFT_OBSERVATION_QUERY None) child]
    /\ captured_by child NFT_OBSERVATION_TIMEOUT (MAX_NFT_OUTPUT_BYTES * 3) = Ok output
    /\ observed output counters tables chains listed.
Proof. apply nft_observation_run. Qed.

Definition sample_nft : NftBackend := mkNftBackend (in_directory [lit "usr"; lit "sbin"] (lit "nft")).

Lemma accepted_observation_is_the_table_witness :
  exists child output tables chains listed,
    (nft_policy_observation (H := sample_host) (H0 := sample_reader) sample_nft []).1
    = [] ++ [Ran (mkCommand (nft_binary sample_nft) NFT_OBSERVATION_QUERY None) child]
    /\ captured_by child NFT_OBSERVATION_TIMEOUT (MAX_NFT_OUTPUT_BYTES * 3) = Ok output
    /\ observed (H := sample_reader) output
         (mkFirewallCounters (mkCounterValue 5 300) (mkCounterValue 6 360) (mkCounterValue 7 420) (mkCounterValue 8 480)
            (mkCounterValue 9 540)) tables chains listed.
Proof.
  apply (accepted_observation_is_the_table (H := sample_host) (H0 := sample_reader) sample_nft []).
  apply run_answer. vm_compute. reflexivity.
Defined.

(** C18: nftables is changed by one checked transaction.  Whatever the host
    answers, the calls of an activation are questions, followed by nothing, by a
    dry run that failed, or by a dry run that succeeded and the transaction with
    the same program, whose outcome is returned.  The dry run is made only for a
    program of bounded size, after the search in both families ended with no,
    and after the table was found absent or with exactly one sentinel at zero. *)
Theorem nft_transactions_are_guarded `{Host} `{JsonReader} self policy h h' r :
  nft_checked_apply self policy h = (h', r) ->
  exists checks calls, h' = h ++ checks ++ calls /\ Forall query checks /\ transaction self policy calls r
  /\ (calls <> [] -> byte_len policy <= MAX_POLICY_BYTES /\ may_replace self (h ++ checks)).
Proof. apply nft_apply_run. Qed.

Lemma nft_transactions_are_guarded_witness :
  exists checks calls,
    (nft_checked_apply (H := sample_host) (H0 := sample_reader) sample_nft (lit "add table inet openshield") []).1 = [] ++ checks ++ calls
    /\ Forall query checks /\ transaction sample_nft (lit "add table inet openshield") calls (Ok tt)
    /\ (calls <> [] -> byte_len (lit "add table inet openshield") <= MAX_POLICY_BYTES
        /\ may_replace (H := sample_host) (H0 := sample_reader) sample_nft ([] ++ checks)).
Proof.
  apply (nft_transactions_are_guarded (H := sample_host) (H0 := sample_reader) sample_nft).
  apply run_answer. vm_compute. reflexivity.
Defined.
