(* ===== verification/IptFacts.v ===== *)
(** * What the iptables backend guarantees

    Whatever the tools answer, a program that lets packets through is written only
    after both families were seen to hold the blocking program and nothing else,
    and success means that both were seen to hold the new program. *)

From S2P Require Import Prelude Text Net Application Model State Netlink Protocol Capture Storage.
From S2P Require Import Marks Nftables Iptables Xtables XtablesFacts Commands CommandFacts XtablesWorlds WorldFacts.
From S2P Require Import NftDocuments NftScript NftBackend NftFacts IptBackend SampleHost.
Local Open Scope Z_scope.

(** ** Writes *)

(** The program that a transaction sends, with the tool that gets it. *)
Definition write_of (event : HostEvent) : option (Path * ustring) :=
  match event with
  | Ran command _ =>
      if arguments command ==? restore_args false then (fun text => (program command, text)) <$> command_input command else None
  | _ => None
  end.

(** A change of the rules of a built-in chain. *)
Definition edits (event : HostEvent) : bool :=
  match event with
  | Ran command _ =>
      match arguments command !! 4%nat with
      | Some action => contains action [lit "-I"; lit "-A"; lit "-D"]
      | None => false
      end
  | _ => false
  end.

Definition reads (event : HostEvent) : Prop := write_of event = None /\ edits event = false.

(** The creation of chains that were missing. *)
Definition initialises (text : ustring) : Prop :=
  exists table chains, text = ownership_initialization_policy table chains /\ chains <> []
  /\ (table = FILTER /\ chains ⊆ owned_chains \/ table = MANGLE /\ chains ⊆ owned_mangle_chains).

Definition within (allowed : Path -> ustring -> Prop) (edit : bool) (event : HostEvent) : Prop :=
  (forall path text, write_of event = Some (path, text) -> allowed path text \/ initialises text)
  /\ (edits event = true -> edit = true).

(** The program of each family goes to its own tool. *)
Definition program_of (self : IptablesBackend) (policy : IptablesPolicy) (path : Path) (text : ustring) : Prop :=
  path = tools_restore (backend_ipv4 self) /\ text = ipv4 policy
  \/ path = tools_restore (backend_ipv6 self) /\ text = ipv6 policy.

Lemma reads_within allowed edit event : reads event -> within allowed edit event.
Proof. intros [Hw He]. split; [by rewrite Hw|by rewrite He]. Qed.

Lemma within_edit allowed event edit : within allowed false event -> within allowed edit event.
Proof. intros [Hw He]. split; [done|]. by intros ?%He. Qed.

Lemma head_args_reads path args input child :
  head args = Some (lit "--version") \/ head args = Some (lit "-c") \/ head args = Some (lit "-j") ->
  (length args <= 4)%nat -> reads (Ran (mkCommand path args input) child).
Proof.
  intros Hh Hl. split; cbn [write_of edits arguments command_input program].
  - destruct (args ==? restore_args false) eqn:E; [|done]. apply (proj1 (eqb_true _ _)) in E as ->.
    destruct Hh as [Hh|[Hh|Hh]]; vm_compute in Hh; done.
  - by rewrite lookup_ge_None_2.
Qed.

Lemma query_reads event : query event -> reads event.
Proof.
  destruct event as [[path args input] child| | |]; [|by split..]. intros (_ & Hh & Hl). by apply head_args_reads.
Qed.

Section Reads.
Context `{Host} `{JsonReader} `{IpNetLib}.

Lemma adds_query_reads {A} (m : ST (list HostEvent) string A) : adds query m -> adds reads m.
Proof. intros Hm h. eapply added_impl; [apply query_reads|apply Hm]. Qed.

Lemma adds_capture_table tools table : adds query (capture tools table).
Proof. unfold capture. always_by ltac:(apply adds_capture; asks). Qed.

Lemma adds_read_table tools table : adds query (read_table tools table).
Proof. unfold read_table. always_by ltac:(apply adds_capture_table). Qed.

Lemma adds_verified tools : adds query (capture_verified_policy tools).
Proof. unfold capture_verified_policy. always_by ltac:(apply adds_read_table). Qed.

Lemma adds_verify_installed self policy : adds query (verify_installed self policy).
Proof. unfold verify_installed. always_by ltac:(apply adds_verified). Qed.

Lemma adds_no_alternate self : adds query (ensure_no_alternate_xtables_artifacts self).
Proof. unfold ensure_no_alternate_xtables_artifacts. always_by ltac:(apply adds_attempt, adds_alternate). Qed.

Lemma adds_nft_artifacts : forall candidates validated, adds query (nft_artifacts candidates validated).
Proof.
  induction candidates as [|candidate candidates IH]; intros validated; cbn [nft_artifacts]; [always_by ltac:(fail)|].
  unfold validate_nft_binary, capture_nft, capture_bounded.
  always_by ltac:(first [apply IH|apply adds_attempt; always_by ltac:(first [by apply adds_validate|apply adds_capture; asks])]).
Qed.

Lemma adds_no_nft : adds query no_nft_artifacts.
Proof. unfold no_nft_artifacts. always_by ltac:(apply adds_nft_artifacts). Qed.

Lemma adds_test tools policy : adds reads (restore tools policy true).
Proof. unfold restore. always_by ltac:(apply adds_run_with_input; intros child; split; vm_compute; reflexivity). Qed.

Lemma adds_validate_pair self policy : adds reads (validate_pair self policy).
Proof. unfold validate_pair. always_by ltac:(apply adds_test). Qed.

(** *** Writes of a family *)

Lemma adds_write (allowed : Path -> ustring -> Prop) edit tools text :
  allowed (tools_restore tools) text \/ initialises text -> adds (within allowed edit) (restore tools text false).
Proof.
  intros Ha. unfold restore. always_by ltac:(idtac). apply adds_run_with_input. intros child. split.
  - cbn [write_of arguments command_input program]. rewrite eqb_refl. cbn [fmap option_fmap option_map]. by intros path t [= <- <-].
  - intros He. vm_compute in He. done.
Qed.

Lemma adds_reads_within {A} (m : ST (list HostEvent) string A) allowed edit : adds query m -> adds (within allowed edit) m.
Proof. intros Hm h. eapply added_impl; [|apply Hm]. intros event He. by apply reads_within, query_reads. Qed.

Lemma missing_chains_Ok snapshot : forall chains missing,
  missing_chains snapshot chains = Ok missing -> missing ⊆ chains.
Proof.
  induction chains as [|chain chains IH]; intros missing; cbn [missing_chains]; [by intros [= <-]|].
  case_bool_decide.
  - intros [_ Hm%IH]%seq_Ok. set_solver.
  - intros (m & Hm%IH & [= <-])%bind_Ok_inv. set_solver.
Qed.

Lemma adds_ensure_chains allowed edit tools table chains :
  table = FILTER /\ chains ⊆ owned_chains \/ table = MANGLE /\ chains ⊆ owned_mangle_chains ->
  adds (within allowed edit) (ensure_owned_chains tools table chains).
Proof.
  intros Ht h. unfold ensure_owned_chains. rewrite run_bind.
  pose proof (adds_reads_within _ allowed edit (adds_read_table tools table) h) as Hr.
  destruct (read_table tools table h) as [h1 [snapshot|]]; [|done]. cbn [fst] in Hr. etrans; [exact Hr|]. rewrite run_lift.
  destruct (missing_chains snapshot chains) as [missing|] eqn:Em; [|reflexivity]. apply missing_chains_Ok in Em.
  apply (always_bind (added (within allowed edit))).
  - case_bool_decide as Hne; [apply always_ret; exact _|]. apply adds_write. right. exists table, missing.
    split_and!; [done|done|]. destruct Ht as [[-> ?]|[-> ?]]; [left|right]; (split; [done|set_solver]).
  - intros []. apply always_bind; [exact _|apply adds_reads_within, adds_read_table|]. intros ?. always_by ltac:(idtac).
Qed.

Lemma adds_all_chains allowed edit tools : adds (within allowed edit) (ensure_all_chains tools).
Proof.
  unfold ensure_all_chains. always_by ltac:(apply adds_ensure_chains; first [by left|by right]).
Qed.

Lemma adds_install allowed tools text :
  allowed (tools_restore tools) text -> adds (within allowed false) (install_owned_policy tools text).
Proof.
  intros Ha. unfold install_owned_policy. always_by ltac:(first [apply adds_all_chains|apply adds_write; by left]).
Qed.

Lemma adds_edit allowed path table more : adds (within allowed true) (run_command path (dispatch_args table more) NFT_TIMEOUT).
Proof.
  apply adds_run. intros child. split; [|done]. cbn [write_of arguments command_input]. by case_match.
Qed.

Lemma adds_topology allowed tools text :
  allowed (tools_restore tools) text -> adds (within allowed true) (ensure_topology tools text).
Proof.
  intros Ha. unfold ensure_topology, put_first, put_last, insert_dispatch, append_dispatch, delete_dispatch.
  always_by ltac:(first [apply adds_all_chains|apply adds_write; by left|apply adds_reads_within, adds_read_table
    |apply adds_reads_within, adds_verified
    |apply adds_for_all; intros ?; always_by ltac:(first [apply adds_edit|apply adds_for_all; intros ?; apply adds_edit])]).
Qed.

Lemma adds_both P (ipv4 ipv6 : ST (list HostEvent) string unit) :
  adds P ipv4 -> adds P ipv6 -> adds P (attempt_both_families ipv4 ipv6).
Proof. intros H4 H6. unfold attempt_both_families. always_by ltac:(first [by apply adds_attempt]). Qed.

Lemma adds_prepare self block : adds (within (program_of self block) true) (prepare self block).
Proof. apply adds_both; apply adds_topology; [by left|by right]. Qed.

Lemma adds_apply_pair self policy : adds (within (program_of self policy) false) (apply_pair self policy).
Proof. unfold apply_pair. always_by ltac:(apply adds_install; first [by left|by right]). Qed.

Lemma adds_install_both self policy :
  adds (within (program_of self policy) false)
    (attempt_both_families (install_owned_policy (backend_ipv4 self) (ipv4 policy))
       (install_owned_policy (backend_ipv6 self) (ipv6 policy))).
Proof. apply adds_both; apply adds_install; [by left|by right]. Qed.
End Reads.

(** ** What a family is seen to hold *)

(** The two listings of a family, and what they say. *)
Definition lists (tools : XtablesTools) (table : ustring) (event : HostEvent) (snapshot : XtablesSnapshot) : Prop :=
  exists child output, event = Ran (mkCommand (tools_save tools) (selected_xtables_save_args table) None) child
  /\ captured_by child NFT_QUERY_TIMEOUT MAX_NFT_OUTPUT_BYTES = Ok output /\ parse_xtables_save output = Ok snapshot.

Definition shows (tools : XtablesTools) (policy : ustring) (seen : list HostEvent) (filter mangle : XtablesSnapshot) : Prop :=
  exists event_f event_m, seen = [event_f; event_m] /\ lists tools FILTER event_f filter /\ lists tools MANGLE event_m mangle
  /\ installed policy filter mangle.

(** Both families, in the order in which they are listed. *)
Definition both_show (self : IptablesBackend) (policy : IptablesPolicy) (seen : list HostEvent) : Prop :=
  exists seen4 seen6 filter4 mangle4 filter6 mangle6, seen = seen4 ++ seen6
  /\ shows (backend_ipv4 self) (ipv4 policy) seen4 filter4 mangle4
  /\ shows (backend_ipv6 self) (ipv6 policy) seen6 filter6 mangle6.

(** The rules that are compared with later observations are those of the program. *)
Definition confirmed (policy : IptablesPolicy) (b : Backend) : Prop :=
  exists rules4 rules6, compiled_owned_rules (ipv4 policy) = Ok rules4 /\ compiled_owned_rules (ipv6 policy) = Ok rules6
  /\ expected b = mkExpected (Some rules4) (Some rules6).

Section Verification.
Context `{Host} `{JsonReader} `{IpNetLib}.
Implicit Types (h : list HostEvent) (tools : XtablesTools).

Lemma read_table_Ok tools table h h' snapshot :
  read_table tools table h = (h', Ok snapshot) -> exists event, h' = h ++ [event] /\ lists tools table event snapshot.
Proof.
  unfold read_table, capture. intros (output & h1 & Hc & Hrun)%run_bind_Ok. apply run_seq_Ok in Hc as [_ Hc].
  apply capture_run in Hc as (child & -> & Hc). unfold lift in Hrun. injection Hrun as <- Hp.
  eexists. split; [done|]. by exists child, output.
Qed.

Lemma verified_Ok tools h h' captured :
  capture_verified_policy tools h = (h', Ok captured) ->
  exists event_f event_m filter mangle, h' = h ++ [event_f; event_m]
  /\ lists tools FILTER event_f filter /\ lists tools MANGLE event_m mangle
  /\ captured_rules captured = snapshot_owned_rules mangle ++ snapshot_owned_rules filter
  /\ add_firewall_counters (snapshot_counters filter) (snapshot_counters mangle) = Ok (captured_counters captured)
  /\ forall policy, compiled_owned_rules policy = Ok (captured_rules captured) -> installed policy filter mangle.
Proof.
  unfold capture_verified_policy. intros (filter & h1 & Hf & Hrun)%run_bind_Ok.
  apply run_bind_Ok in Hrun as (mangle & h2 & Hm & Hrun). apply run_seq_Ok in Hrun as [Vf Hrun].
  apply run_seq_Ok in Hrun as [Vm Hrun]. apply run_lift_Ok in Hrun as (counters & Hc & [= <- <-]).
  apply read_table_Ok in Hf as (event_f & -> & Hf). apply read_table_Ok in Hm as (event_m & -> & Hm).
  exists event_f, event_m, filter, mangle. rewrite <-app_assoc. split_and!; try done. cbn [captured_rules]. intros policy Hp.
  destruct Hf as (c1 & o1 & _ & _ & Pf), Hm as (c2 & o2 & _ & _ & Pm).
  unfold parse_xtables_save in Pf, Pm. apply bind_Ok_inv in Pf as (t1 & _ & Pf). apply bind_Ok_inv in Pm as (t2 & _ & Pm).
  by eapply verified_installed.
Qed.

Lemma verified_shows tools policy h h' captured :
  capture_verified_policy tools h = (h', Ok captured) -> compiled_owned_rules policy = Ok (captured_rules captured) ->
  exists seen filter mangle, h' = h ++ seen /\ shows tools policy seen filter mangle.
Proof.
  intros (ef & em & filter & mangle & -> & Hf & Hm & _ & _ & Hi)%verified_Ok Hp. exists [ef; em], filter, mangle.
  split; [done|]. exists ef, em. split_and!; [done|done|done|by apply Hi].
Qed.

Variable self : IptablesBackend.

Lemma verify_installed_Ok policy h h' rules :
  verify_installed self policy h = (h', Ok rules) ->
  (exists seen, h' = h ++ seen /\ both_show self policy seen)
  /\ compiled_owned_rules (ipv4 policy) = Ok rules.1 /\ compiled_owned_rules (ipv6 policy) = Ok rules.2.
Proof.
  unfold verify_installed. intros (rules4 & H4 & Hrun)%run_lift_Ok. apply run_lift_Ok in Hrun as (rules6 & H6 & Hrun).
  apply run_bind_Ok in Hrun as (c4 & h1 & Hc4 & Hrun). apply run_bind_Ok in Hrun as (c6 & h2 & Hc6 & Hrun).
  apply run_seq_Ok in Hrun as [E4%ensure_Ok Hrun]. apply run_seq_Ok in Hrun as [E6%ensure_Ok [= <- <-]].
  apply (proj1 (eqb_true _ _)) in E4 as <-. apply (proj1 (eqb_true _ _)) in E6 as <-. split; [|done].
  apply (verified_shows _ _ _ _ _ Hc4) in H4 as (seen4 & f4 & m4 & -> & Hs4).
  apply (verified_shows _ _ _ _ _ Hc6) in H6 as (seen6 & f6 & m6 & -> & Hs6).
  exists (seen4 ++ seen6). rewrite app_assoc. split; [done|]. by exists seen4, seen6, f4, m4, f6, m6.
Qed.
End Verification.

(** ** Activation *)

Section Activation.
Context `{Host} `{JsonReader} `{IpNetLib}.
Variable self : IptablesBackend.
Implicit Types (b : Backend) (policy block : IptablesPolicy).

(** The blocking program is sent to both families, to the second also when the
    first failed, and then they may be listed. *)
Definition closing_attempt block (new : list HostEvent) : Prop :=
  exists h h1 h2 r4 r6 writes checks,
    install_owned_policy (backend_ipv4 self) (ipv4 block) h = (h1, r4)
    /\ install_owned_policy (backend_ipv6 self) (ipv6 block) h1 = (h2, r6)
    /\ h2 = h ++ writes /\ new = writes ++ checks
    /\ Forall (within (program_of self block) false) writes /\ Forall reads checks.

(** Both families were seen to hold the blocking program at the end. *)
Definition closed block (new : list HostEvent) : Prop :=
  exists before seen, new = before ++ seen /\ Forall (within (program_of self block) true) before /\ both_show self block seen.

Inductive activation policy block : list HostEvent -> Result string unit -> Prop :=
(** Another firewall of this program is active: nothing is written. *)
| activation_refused asked error : Forall reads asked -> activation policy block asked (Err error)
(** The blocking program and the dispatchers could not be set up. *)
| activation_unprepared preparing restoring error :
    Forall (within (program_of self block) true) preparing -> closing_attempt block restoring ->
    activation policy block (preparing ++ restoring) (Err error)
(** The new program was rejected, or the families could not be closed. *)
| activation_unopened preparing error :
    Forall (within (program_of self block) true) preparing -> activation policy block preparing (Err error)
(** The new program could not be written to both families, or was not seen there. *)
| activation_undone closing opening verifying restoring error :
    closed block closing -> Forall (within (program_of self policy) false) opening -> Forall reads verifying ->
    closing_attempt block restoring ->
    activation policy block (closing ++ opening ++ verifying ++ restoring) (Err error)
| activation_done closing opening verifying :
    closed block closing -> Forall (within (program_of self policy) false) opening -> both_show self policy verifying ->
    activation policy block (closing ++ opening ++ verifying) (Ok tt).

Lemma on_host_run {A} (m : ST (list HostEvent) string A) b b' r :
  on_host m b = (b', r) -> m (events b) = (events b', r) /\ expected b' = expected b.
Proof. unfold on_host. destruct (m (events b)) as [h r']. by intros [= <- <-]. Qed.

Lemma on_host_adds {A} P (m : ST (list HostEvent) string A) b b' r :
  adds P m -> on_host m b = (b', r) -> exists new, events b' = events b ++ new /\ Forall P new.
Proof. intros Hm [Hrun _]%on_host_run. specialize (Hm (events b)). rewrite Hrun in Hm. exact Hm. Qed.

Lemma record_run policy b b' r :
  record_expected self policy b = (b', r) ->
  exists checks, events b' = events b ++ checks /\ Forall reads checks
  /\ (r = Ok tt -> both_show self policy checks /\ confirmed policy b').
Proof.
  unfold record_expected. rewrite run_bind. destruct (on_host (verify_installed self policy) b) as [b1 [rules|error]] eqn:E.
  - pose proof (on_host_adds _ _ _ _ _ (adds_query_reads _ (adds_verify_installed self policy)) E) as (checks & Hc & Hq).
    apply on_host_run in E as [E _]. apply verify_installed_Ok in E as ((seen & Hs & Hb) & H4 & H6).
    rewrite Hc in Hs. apply app_inv_head in Hs as <-. rewrite run_get, run_lift.
    destruct (expected_poisoned b1); cbn [negb ensure]; intros [= <- <-]; exists checks; (split_and!; [done|done|]); [done|].
    intros _. split; [done|]. by exists rules.1, rules.2.
  - intros [= <- <-]. pose proof (on_host_adds _ _ _ _ _ (adds_query_reads _ (adds_verify_installed self policy)) E) as (checks & Hc & Hq).
    exists checks. by split_and!.
Qed.

Lemma emergency_run block b b' r :
  emergency_block_all self block b = (b', r) ->
  exists new, events b' = events b ++ new /\ closing_attempt block new
  /\ (r = Ok tt -> closed block new /\ confirmed block b').
Proof.
  unfold emergency_block_all. rewrite run_bind.
  destruct (on_host _ b) as [b1 r1] eqn:E1.
  pose proof (on_host_adds _ _ _ _ _ (adds_install_both self block) E1) as (writes & Hw & Hwr). apply on_host_run in E1 as [E1 _].
  assert (Hattempt : forall checks, Forall reads checks -> closing_attempt block (writes ++ checks)).
  { intros checks Hq. unfold attempt_both_families in E1. rewrite run_bind in E1. unfold attempt at 1 in E1.
    destruct (install_owned_policy (backend_ipv4 self) (ipv4 block) (events b)) as [h1 r4] eqn:I4.
    rewrite run_bind in E1. unfold attempt at 1 in E1.
    destruct (install_owned_policy (backend_ipv6 self) (ipv6 block) h1) as [h2 r6] eqn:I6.
    assert (h2 = events b1) as -> by (destruct r4, r6; by injection E1).
    exists (events b), h1, (events b1), r4, r6, writes, checks. by split_and!. }
  destruct r1 as [[]|error].
  - intros (checks & Hc & Hq & Hok)%record_run. exists (writes ++ checks). rewrite Hc, Hw, <-app_assoc. split_and!; [done|by apply Hattempt|].
    intros [Hb Hconf]%Hok. split; [|done]. exists writes, checks. split_and!; [done| |done].
    eapply Forall_impl; [exact Hwr|]. intros event. apply within_edit.
  - intros [= <- <-]. exists writes. split_and!; [done| |done]. rewrite <-(app_nil_r writes). by apply Hattempt.
Qed.

Lemma or_block_all_Err block error otherwise b b' r :
  or_block_all self block (Err error) otherwise b = (b', r) ->
  r = Err error /\ exists new, events b' = events b ++ new /\ closing_attempt block new.
Proof.
  unfold or_block_all. rewrite run_bind. unfold attempt. destruct (emergency_block_all self block b) as [b1 r1] eqn:E.
  unfold lift. intros [= <- <-]. split; [done|]. apply emergency_run in E as (new & Hn & Ha & _). by exists new.
Qed.

Lemma reads_all allowed edit new : Forall reads new -> Forall (within allowed edit) new.
Proof. intros Hn. eapply Forall_impl; [exact Hn|]. intros event. apply reads_within. Qed.

Lemma closing_within block new : closing_attempt block new -> Forall (within (program_of self block) true) new.
Proof.
  intros (h & h1 & h2 & r4 & r6 & writes & checks & _ & _ & _ & -> & Hw & Hc). apply Forall_app. split.
  - eapply Forall_impl; [exact Hw|]. intros event. apply within_edit.
  - by apply reads_all.
Qed.

Lemma closed_app block before new : Forall (within (program_of self block) true) before -> closed block new -> closed block (before ++ new).
Proof.
  intros Hb (before' & seen & -> & Hb' & Hs). exists (before ++ before'), seen. rewrite app_assoc. split_and!; [done|by apply Forall_app|done].
Qed.

(** The part after the families are closed. *)
Lemma opening_run policy block b b' r closing :
  closed block closing ->
  (applied ← attempt (on_host (apply_pair self policy));
   or_block_all self block applied (
   recorded ← attempt (record_expected self policy);
   or_block_all self block recorded (mret tt))) b = (b', r) ->
  exists new, events b' = events b ++ new /\ activation policy block (closing ++ new) r /\ (r = Ok tt -> confirmed policy b').
Proof.
  intros Hcl. rewrite run_bind. unfold attempt at 1. destruct (on_host (apply_pair self policy) b) as [b1 r1] eqn:E1.
  pose proof (on_host_adds _ _ _ _ _ (adds_apply_pair self policy) E1) as (opening & Ho & Hop).
  destruct r1 as [[]|error].
  2: { intros [-> (restoring & Hr & Ha)]%or_block_all_Err. exists (opening ++ restoring). rewrite Hr, Ho, <-app_assoc. split_and!; [done| |done].
    by apply (activation_undone policy block closing opening [] restoring). }
  cbn [or_block_all]. rewrite run_bind. unfold attempt at 1. destruct (record_expected self policy b1) as [b2 r2] eqn:E2.
  apply record_run in E2 as (verifying & Hv & Hq & Hok). destruct r2 as [[]|error].
  - cbn [or_block_all]. intros [= <- <-]. destruct (Hok eq_refl) as [Hb Hc]. exists (opening ++ verifying).
    rewrite Hv, Ho, <-app_assoc. split_and!; [done|by apply activation_done|done].
  - intros [-> (restoring & Hr & Ha)]%or_block_all_Err. exists (opening ++ verifying ++ restoring). rewrite Hr, Hv, Ho, <-!app_assoc.
    split_and!; [done|by apply activation_undone|done].
Qed.

(** The part after the chains and dispatchers are set up. *)
Lemma prepared_run policy block b b' r preparing :
  Forall (within (program_of self block) true) preparing ->
  (on_host (validate_pair self policy) ;;
   emergency_block_all self block ;;
   applied ← attempt (on_host (apply_pair self policy));
   or_block_all self block applied (
   recorded ← attempt (record_expected self policy);
   or_block_all self block recorded (mret tt))) b = (b', r) ->
  exists new, events b' = events b ++ new /\ activation policy block (preparing ++ new) r /\ (r = Ok tt -> confirmed policy b').
Proof.
  intros Hp. rewrite run_bind. destruct (on_host (validate_pair self policy) b) as [b1 r1] eqn:E1.
  pose proof (on_host_adds _ _ _ _ _ (adds_validate_pair self policy) E1) as (n1 & Hn1 & Q1).
  assert (Hp1 : Forall (within (program_of self block) true) (preparing ++ n1)) by (apply Forall_app; split; [done|by apply reads_all]).
  destruct r1 as [[]|error]; [|intros [= <- <-]; exists n1; split_and!; [done|by apply activation_unopened|done]].
  rewrite run_bind. destruct (emergency_block_all self block b1) as [b2 r2] eqn:E2.
  apply emergency_run in E2 as (closing & Hc & Ha & Hok). rewrite Hn1, <-app_assoc in Hc. destruct r2 as [[]|error].
  - destruct (Hok eq_refl) as [Hcl _]. intros Hrun. apply (opening_run _ _ _ _ _ ((preparing ++ n1) ++ closing)) in Hrun as (new & Hn & Hact & Hconf); [|by apply closed_app].
    exists (n1 ++ closing ++ new). rewrite Hn, Hc, <-!app_assoc in *. by split_and!.
  - intros [= <- <-]. exists (n1 ++ closing). split_and!; [done| |done]. rewrite app_assoc. apply activation_unopened, Forall_app.
    split; [done|by apply closing_within].
Qed.

Lemma checked_apply_run policy block b b' r :
  checked_apply self policy block b = (b', r) ->
  exists new, events b' = events b ++ new /\ activation policy block new r /\ (r = Ok tt -> confirmed policy b').
Proof.
  unfold checked_apply. rewrite run_bind. destruct (on_host no_nft_artifacts b) as [b1 r1] eqn:E1.
  pose proof (on_host_adds _ _ _ _ _ (adds_query_reads _ adds_no_nft) E1) as (n1 & Hn1 & Q1).
  destruct r1 as [[]|error]; [|intros [= <- <-]; exists n1; split_and!; [done|by apply activation_refused|done]].
  rewrite run_bind. destruct (on_host (ensure_no_alternate_xtables_artifacts self) b1) as [b2 r2] eqn:E2.
  pose proof (on_host_adds _ _ _ _ _ (adds_query_reads _ (adds_no_alternate self)) E2) as (n2 & Hn2 & Q2).
  rewrite Hn1, <-app_assoc in Hn2. assert (Q12 : Forall reads (n1 ++ n2)) by (by apply Forall_app).
  destruct r2 as [[]|error]; [|intros [= <- <-]; exists (n1 ++ n2); split_and!; [done|by apply activation_refused|done]].
  rewrite run_bind. unfold attempt at 1. destruct (on_host (prepare self block) b2) as [b3 r3] eqn:E3.
  pose proof (on_host_adds _ _ _ _ _ (adds_prepare self block) E3) as (n3 & Hn3 & Q3). rewrite Hn2, <-app_assoc in Hn3.
  assert (Q13 : Forall (within (program_of self block) true) ((n1 ++ n2) ++ n3)) by (apply Forall_app; split; [by apply reads_all|done]).
  destruct r3 as [[]|error].
  - intros (new & Hn & Hact & Hconf)%(prepared_run _ _ _ _ _ _ Q13). exists (((n1 ++ n2) ++ n3) ++ new).
    rewrite Hn, Hn3, <-(app_assoc (events b)). by split_and!.
  - intros [-> (restoring & Hr & Ha)]%or_block_all_Err. exists (((n1 ++ n2) ++ n3) ++ restoring).
    rewrite Hr, Hn3, <-(app_assoc (events b)). split_and!; [done|by apply activation_unprepared|done].
Qed.

(** ** Closing, and later observations *)

Lemma fail_closed_run b b' :
  iptables_fail_closed self b = (b', Ok tt) ->
  exists block asked new, block_all_policy = Ok block /\ events b' = events b ++ asked ++ new
  /\ Forall (within (program_of self block) true) asked /\ closed block new /\ confirmed block b'.
Proof.
  unfold iptables_fail_closed. intros ([] & b1 & E1 & Hrun)%run_bind_Ok. apply run_bind_Ok in Hrun as ([] & b2 & E2 & Hrun).
  apply run_lift_Ok in Hrun as (block & Hb & Hrun). apply run_bind_Ok in Hrun as (r3 & b3 & E3%attempted & Hrun).
  pose proof (on_host_adds _ _ _ _ _ (adds_query_reads _ adds_no_nft) E1) as (n1 & Hn1 & Q1).
  pose proof (on_host_adds _ _ _ _ _ (adds_query_reads _ (adds_no_alternate self)) E2) as (n2 & Hn2 & Q2).
  pose proof (on_host_adds _ _ _ _ _ (adds_prepare self block) E3) as (n3 & Hn3 & Q3).
  apply emergency_run in Hrun as (new & Hn & _ & Hok). destruct (Hok eq_refl) as [Hcl Hconf].
  exists block, (n1 ++ n2 ++ n3), new. rewrite Hn, Hn3, Hn2, Hn1, <-!app_assoc. split_and!; [done|done| |done|done].
  apply Forall_app. split; [by apply reads_all|]. apply Forall_app. split; [by apply reads_all|done].
Qed.

Lemma observation_run policy b b' counters :
  confirmed policy b -> iptables_policy_observation self b = (b', Ok counters) ->
  exists seen4 seen6 filter4 mangle4 filter6 mangle6 counters4 counters6,
    events b' = events b ++ seen4 ++ seen6
    /\ shows (backend_ipv4 self) (ipv4 policy) seen4 filter4 mangle4
    /\ shows (backend_ipv6 self) (ipv6 policy) seen6 filter6 mangle6
    /\ add_firewall_counters (snapshot_counters filter4) (snapshot_counters mangle4) = Ok counters4
    /\ add_firewall_counters (snapshot_counters filter6) (snapshot_counters mangle6) = Ok counters6
    /\ add_firewall_counters counters4 counters6 = Ok counters /\ confirmed policy b'.
Proof.
  intros (rules4 & rules6 & H4 & H6 & Hexp). unfold iptables_policy_observation.
  intros (c4 & b1 & E4 & Hrun)%run_bind_Ok. apply run_bind_Ok in Hrun as (c6 & b2 & E6 & Hrun).
  rewrite run_get in Hrun. apply run_seq_Ok in Hrun as [_ Hrun]. apply run_seq_Ok in Hrun as [He%ensure_Ok Hrun].
  unfold lift in Hrun. injection Hrun as <- Hadd.
  apply on_host_run in E4 as [E4 X4]. apply on_host_run in E6 as [E6 X6]. rewrite X6, X4, Hexp in He. cbn [ipv4_rules ipv6_rules] in He.
  apply andb_true_iff in He as [R4%bool_decide_eq_true R6%bool_decide_eq_true]. injection R4 as ->. injection R6 as ->.
  apply verified_Ok in E4 as (ef4 & em4 & f4 & m4 & Hev4 & Lf4 & Lm4 & _ & C4 & I4).
  apply verified_Ok in E6 as (ef6 & em6 & f6 & m6 & Hev6 & Lf6 & Lm6 & _ & C6 & I6).
  exists [ef4; em4], [ef6; em6], f4, m4, f6, m6, (captured_counters c4), (captured_counters c6).
  rewrite Hev6, Hev4, <-app_assoc. split_and!; try done.
  - exists ef4, em4. split_and!; [done..|by apply I4].
  - exists ef6, em6. split_and!; [done..|by apply I6].
  - eexists _, _. split_and!; [exact H4|exact H6|]. by rewrite X6, X4.
Qed.
End Activation.


(** The backend of the examples after a successful activation. *)
Definition sample_block : IptablesPolicy := sample_policy (State_snapshot State_new).
Definition sample_active : Backend :=
  (checked_apply (H := sample_host) (H0 := sample_reader) sample_backend (sample_policy sample_snapshot) sample_block sample_start).1.


(** C10: an observation of iptables is accepted only for the program that was
    verified.  After a successful activation or closing, and whatever the tools
    answer, an observation that succeeds listed both families with exactly the
    rules of that program, in order and reached from the built-in chains, and
    returns the sums of the counters of the four listings; the program stays the
    one that later observations are compared with. *)
Theorem observations_confirm_the_program `{Host} self policy b b' counters :
  confirmed policy b -> iptables_policy_observation self b = (b', Ok counters) ->
  exists seen4 seen6 filter4 mangle4 filter6 mangle6 counters4 counters6,
    events b' = events b ++ seen4 ++ seen6
    /\ shows (backend_ipv4 self) (ipv4 policy) seen4 filter4 mangle4
    /\ shows (backend_ipv6 self) (ipv6 policy) seen6 filter6 mangle6
    /\ add_firewall_counters (snapshot_counters filter4) (snapshot_counters mangle4) = Ok counters4
    /\ add_firewall_counters (snapshot_counters filter6) (snapshot_counters mangle6) = Ok counters6
    /\ add_firewall_counters counters4 counters6 = Ok counters /\ confirmed policy b'.
Proof. apply observation_run. Qed.

Definition sample_expected (text : ustring) : list ustring :=
  match compiled_owned_rules text with Ok rules => rules | Err _ => [] end.

Lemma observations_confirm_the_program_witness :
  exists seen4 seen6 filter4 mangle4 filter6 mangle6 counters4 counters6,
    events (iptables_policy_observation (H := sample_host) sample_backend sample_active).1 = events sample_active ++ seen4 ++ seen6
    /\ shows sample_tools4 (ipv4 (sample_policy sample_snapshot)) seen4 filter4 mangle4
    /\ shows sample_tools6 (ipv6 (sample_policy sample_snapshot)) seen6 filter6 mangle6
    /\ add_firewall_counters (snapshot_counters filter4) (snapshot_counters mangle4) = Ok counters4
    /\ add_firewall_counters (snapshot_counters filter6) (snapshot_counters mangle6) = Ok counters6
    /\ add_firewall_counters counters4 counters6
       = Ok (mkFirewallCounters (mkCounterValue 32 1920) (mkCounterValue 14 840) (mkCounterValue 8 480) (mkCounterValue 36 2160)
               CounterValue_default)
    /\ confirmed (sample_policy sample_snapshot) (iptables_policy_observation (H := sample_host) sample_backend sample_active).1.
Proof.
  apply (observations_confirm_the_program (H := sample_host) sample_backend).
  - exists (sample_expected (ipv4 (sample_policy sample_snapshot))), (sample_expected (ipv6 (sample_policy sample_snapshot))).
    split_and!; vm_compute; reflexivity.
  - apply run_answer. vm_compute. reflexivity.
Defined.

(** An interface may be called [--mark].  The rule that names it is compiled, but
    the word after the name is then taken for a mark, so that the compiled
    program is never confirmed and every activation with it ends in the blocking
    program. *)
Definition mark_interface_snapshot : Snapshot :=
  mkSnapshot 4 2 Enforcing
    [mkRule 9 (mkRuleSpec (mkRuleName (lit "odd")) Outbound Accept Any None None
       (Some (mkInterfaceName (lit "--mark"))) None Manual true) 10 10].

Lemma mark_interface_is_never_confirmed :
  InterfaceName_new (lit "--mark") = Ok (mkInterfaceName (lit "--mark"))
  /\ compile_iptables mark_interface_snapshot = Ok (sample_policy mark_interface_snapshot)
  /\ compiled_owned_rules (ipv4 (sample_policy mark_interface_snapshot)) = Err "invalid decimal xtables mark"%string
  /\ (checked_apply (H := sample_host) (H0 := sample_reader) sample_backend (sample_policy mark_interface_snapshot)
        sample_block sample_start).2 = Err "invalid decimal xtables mark"%string.
Proof. split_and!; vm_compute; reflexivity. Qed.
