(* ===== verification/AutoBackend.v ===== *)
(** * The firewall backend of the daemon

    [backend.rs] of the daemon, lines 345 to 432: the backend that is chosen at
    start-up, as the engine uses it. *)

From S2P Require Import Prelude Text Net Application Model State Netlink Protocol Capture Storage Engine Verdicts.
From S2P Require Import Marks Nftables Iptables Xtables XtablesFacts Commands CommandFacts XtablesWorlds WorldFacts.
From S2P Require Import NftDocuments NftScript NftBackend NftFacts IptBackend SampleHost IptFacts.
Local Open Scope Z_scope.

Inductive AutoBackend : Type := AutoNft (backend : NftBackend) | AutoIptables (backend : IptablesBackend).

Section Discovery.
Context `{Host} `{JsonReader} `{IpNetLib}.
Abbreviation OnHost := (ST (list HostEvent) string) (only parsing).

Definition auto_discover_with (discover_usable_nft : OnHost NftBackend) (discover_usable_iptables : OnHost IptablesBackend)
    : OnHost AutoBackend :=
  nft ← attempt discover_usable_nft;
  match nft : Result string NftBackend with
  | Ok backend => mret (AutoNft backend)
  | Err _ =>
      iptables ← attempt discover_usable_iptables;
      match iptables : Result string IptablesBackend with
      | Ok backend => mret (AutoIptables backend)
      | Err _ => lift (Err "neither firewall backend is safely usable"%string)
      end
  end.

Definition auto_discover (utc_now : DateTime) : OnHost AutoBackend :=
  auto_discover_with (backend ← NftBackend_discover; nft_probe backend utc_now ;; mret backend) IptablesBackend_discover.

Definition auto_name (self : AutoBackend) : ustring :=
  match self with AutoNft _ => lit "nftables" | AutoIptables _ => lit "iptables/ip6tables" end.

Definition queue_verdict_strategy (self : AutoBackend) : QueueVerdictStrategy :=
  match self with AutoNft _ => AcceptStrategy | AutoIptables _ => RepeatWithHandoffMark end.

Definition auto_kind (self : AutoBackend) : FirewallBackendKind :=
  match self with AutoNft _ => BackendNftables | AutoIptables _ => BackendIptables end.

(** The backend of a running daemon. *)
Record Running : Type := mkRunning { running_backend : AutoBackend; running_state : Backend }.

(** The error that [anyhow] carries, as text. *)
Definition on_backend_state {A} (m : ST Backend string A) : ST Running BackendError A := fun b =>
  let '(state, r) := m (running_state b) in (mkRunning (running_backend b) state, map_err lit r).

Definition auto_apply (snapshot : Snapshot) : ST Running BackendError unit := fun b =>
  match running_backend b with
  | AutoNft backend => on_backend_state (on_host (nft_apply backend snapshot)) b
  | AutoIptables backend => on_backend_state (iptables_apply backend snapshot) b
  end.

Definition auto_fail_closed : ST Running BackendError unit := fun b =>
  match running_backend b with
  | AutoNft backend => on_backend_state (on_host (nft_fail_closed backend)) b
  | AutoIptables backend => on_backend_state (iptables_fail_closed backend) b
  end.

Definition auto_policy_observation : ST Running BackendError FirewallCounters := fun b =>
  match running_backend b with
  | AutoNft backend => on_backend_state (on_host (nft_policy_observation backend)) b
  | AutoIptables backend => on_backend_state (iptables_policy_observation backend) b
  end.

#[export] Instance Running_ops : FirewallBackend Running := {|
  backend_kind b := auto_kind (running_backend b);
  backend_apply := auto_apply;
  backend_fail_closed := auto_fail_closed
|}.
End Discovery.

(** ** What success means *)

(** The last thing that the host was asked shows the policy in the kernel: the
    transaction that replaces the table succeeded, or both families were
    listed with the rules of the program. *)
Definition ends_installed `{IpNetLib} (self : AutoBackend) (snapshot : Snapshot) (log : list HostEvent) : Prop :=
  match self with
  | AutoNft backend =>
      exists text before child, compile snapshot = Ok text
      /\ log = before ++ [Ran (mkCommand (nft_binary backend) NFT_APPLY_ARGS (Some text)) child]
      /\ finished_with_input child NFT_TIMEOUT = Ok tt
  | AutoIptables backend =>
      exists policy before seen, compile_iptables snapshot = Ok policy /\ log = before ++ seen /\ both_show backend policy seen
  end.

Section Success.
Context `{Host} `{JsonReader} `{IpNetLib}.

Lemma nft_success backend snapshot policy h h' :
  compiled snapshot = Ok policy -> nft_checked_apply backend policy h = (h', Ok tt) -> ends_installed (AutoNft backend) snapshot h'.
Proof.
  unfold compiled. rewrite map_err_Ok. intros Hc (checks & calls & -> & _ & Ht & _)%nft_apply_run.
  inversion Ht as [| |checked child Hk Heq Hr]; subst. exists policy, (h ++ checks ++ [Ran (mkCommand (nft_binary backend) NFT_CHECK_ARGS (Some policy)) checked]), child.
  split_and!; [done| |done]. by rewrite <-!app_assoc.
Qed.

Lemma activation_shows self policy block new :
  activation self policy block new (Ok tt) -> exists before seen, new = before ++ seen /\ both_show self policy seen.
Proof.
  inversion 1 as [| | | |closing opening verifying _ _ Hs]; subst. exists (closing ++ opening), verifying. by rewrite <-app_assoc.
Qed.

Lemma on_backend_state_Ok {A} (m : ST Backend string A) b b' a :
  on_backend_state m b = (b', Ok a) ->
  m (running_state b) = (running_state b', Ok a) /\ running_backend b' = running_backend b.
Proof.
  unfold on_backend_state. destruct (m (running_state b)) as [state r]. intros [= <- Hr]. apply map_err_Ok in Hr as ->. done.
Qed.

Lemma apply_success snapshot b b' :
  auto_apply snapshot b = (b', Ok tt) ->
  running_backend b' = running_backend b /\ ends_installed (running_backend b) snapshot (events (running_state b')).
Proof.
  unfold auto_apply. destruct (running_backend b) as [backend|backend] eqn:Eb; intros [Hrun Hb]%on_backend_state_Ok; (split; [congruence|]).
  - apply on_host_run in Hrun as [Hrun _]. unfold nft_apply in Hrun. apply run_lift_Ok in Hrun as (policy & Hc & Hrun).
    by eapply nft_success.
  - unfold iptables_apply in Hrun. apply run_lift_Ok in Hrun as (policy & Hc & Hrun).
    apply run_lift_Ok in Hrun as (block & _ & Hrun). apply checked_apply_run in Hrun as (new & -> & Ha & _).
    apply activation_shows in Ha as (before & seen & -> & Hs). unfold compiled_iptables in Hc. apply map_err_Ok in Hc.
    exists policy, (events (running_state b) ++ before), seen. split_and!; [done|by rewrite app_assoc|done].
Qed.

Lemma fail_closed_success b b' :
  auto_fail_closed b = (b', Ok tt) ->
  running_backend b' = running_backend b
  /\ ends_installed (running_backend b) (State_snapshot State_new) (events (running_state b')).
Proof.
  unfold auto_fail_closed. destruct (running_backend b) as [backend|backend] eqn:Eb; intros [Hrun Hb]%on_backend_state_Ok; (split; [congruence|]).
  - apply on_host_run in Hrun as [Hrun _]. unfold nft_fail_closed in Hrun. apply run_lift_Ok in Hrun as (policy & Hc & Hrun).
    by eapply nft_success.
  - apply fail_closed_run in Hrun as (block & asked & new & Hc & -> & _ & (before & seen & -> & _ & Hs) & _).
    unfold block_all_policy, compiled_iptables in Hc. apply map_err_Ok in Hc.
    exists block, (events (running_state b) ++ asked ++ before), seen. split_and!; [done|by rewrite <-!app_assoc|done].
Qed.
End Success.

(** C9: when the backend reports success, the kernel was left with the policy.
    Whichever backend was chosen and whatever the host answers, after a
    successful activation of a snapshot, and after closing successfully for the
    initial snapshot, which blocks everything, the last thing that was asked of
    the host is the transaction with the compiled program, and it succeeded, or
    the listing of both families, with exactly the rules of the compiled
    programs. *)
Theorem success_means_installed `{Host} `{JsonReader} `{IpNetLib} b b' snapshot :
  backend_apply snapshot b = (b', Ok tt)
  \/ backend_fail_closed b = (b', Ok tt) /\ snapshot = State_snapshot State_new ->
  running_backend b' = running_backend b /\ ends_installed (running_backend b) snapshot (events (running_state b')).
Proof. intros [Ha|[Hc ->]]; [by apply apply_success|by apply fail_closed_success]. Qed.

Definition sample_running : Running := mkRunning (AutoIptables sample_backend) sample_start.

Lemma success_means_installed_witness :
  let b' := (auto_apply (H := sample_host) (H0 := sample_reader) sample_snapshot sample_running).1 in
  running_backend b' = running_backend sample_running
  /\ ends_installed (running_backend sample_running) sample_snapshot (events (running_state b')).
Proof.
  intros b'. apply (success_means_installed (H := sample_host) (H0 := sample_reader)). left.
  refine (run_answer (auto_apply (H := sample_host) (H0 := sample_reader) sample_snapshot sample_running) _ _). vm_compute. reflexivity.
Defined.
